(* ===== verification/_CoqProject ===== *)
-Q . S2P
Prelude.v
RustStr.v
Utf8.v
Net.v
F64.v
Codec.v
Negotiation.v
Json.v
TextEdits.v
Fs.v
Journal.v
WorkspaceEdit.v
EditSpec.v
Preview.v
Patch.v
ImpactDiff.v
Tokenize.v
Extract.v
PathMap.v
RemoteExec.v
Sync.v
NodeDisk.v
GatewaySync.v
SyncCorrect.v
PushSync.v
Tasks.v
Pruning.v
PruneSpec.v
Manager.v
ManagerLoads.v
ManagerProgress.v
ManagerLeases.v
Readiness.v
Status.v
Transport.v
Dns.v
Discovery.v
SmartDns.v
Admission.v
Placement.v
Membership.v
Announce.v
TailBuffer.v
RequestHistory.v
Backend.v
BackendStream.v
BackendHealth.v
EngineKind.v
SerdeJson.v
BridgeState.v
Bridge.v
BridgeOrder.v
BridgeMirror.v
BridgeReplies.v
BridgeAnswers.v
