(* ===== verification/Prelude.v ===== *)
(** * prod-code: the wire protocol, the cluster, the admission of engines, the editing of checkouts and the editor bridge

    prod-code runs language engines on remote gateways.  A client opens a framed connection to a
    gateway, negotiates a protocol version and capabilities, synchronises its files and asks
    questions that the gateway's engines answer.  Gateways know one another by gossip, announce
    themselves over UDP, answer DNS queries for their cluster, decide which node a workspace is
    placed on and admit a new engine only while the host has memory for it.  The files a client
    sends are kept in a working copy of its checkout on the gateway's disk.  The MCP server turns
    what the engines answer into changes of the checkouts: workspace edits applied as one
    transaction, patches and previews that are only computed, and the changes a diff reports.  The
    client's editor bridge stands between an editor and a language server on a gateway and moves
    the session to another one when the connection breaks.

    This library models these parts of the crates prod-code-protocol, prod-code-gateway,
    prod-code-mcp and prod-code-client as executable definitions and proves what makes each of them correct.

    ** Files, and the code they model (under src/crates)

    - Prelude: bytes, machine-width constants, big-endian numbers, slices, prefixes, a stable
      sort; this header.
    - RustStr: the functions on text of the Rust standard library that the sources use (trimming,
      splitting, lines, UTF-8 validity and lossy decoding, integer parsing and printing).
    - Utf8: characters of a text, their offsets and their width in UTF-16 units.
    - Net: IP and socket addresses, their parsing, printing and order.
    - F64: Rust's [f64] on the Standard Library's [spec_float]: arithmetic, casts, printing,
      parsing.
    - Codec: prod-code-protocol/src/codec.  The frame codec with its bounded writer, the optional
      NUL completion marker and its detection, HTTP probes on the same port.  serde_json is the
      class [WireSerde] with the laws the codec relies on; a concrete instance is given.
    - Negotiation: negotiation.rs and messages/handshake.rs.
    - Json: serde_json's [Value] and the accessors the sources use.
    - TextEdits: prod-code-mcp/src/refactor/edits.rs.  LSP text edits: positions to offsets, the
      application from the end backwards, the replacement of a whole file.
    - Fs: a disk without symbolic links: files and directories at absolute paths, with the
      conditions under which each call of [std::fs] works.
    - Journal: refactor/journal.rs and the state of refactor/engine.rs.  Undo steps, setting
      aside, copying across volumes, commit and rollback, in a state monad where any call to the
      operating system may fail and a failing write may leave any bytes.
    - WorkspaceEdit: refactor/ops.rs, uri.rs, engine.rs and execute.rs.  The operations of a
      [WorkspaceEdit], the checks before the first of them, every step of the engine.
    - EditSpec: the operations as plain functions on a disk, and the proof that the engine
      implements them.
    - Preview: [planned_multi_texts] of refactor/edits.rs, checked against EditSpec.
    - Patch: patch.rs and patch/deletion.rs.  Unified diffs parsed and applied in memory;
      [git show] is a parameter.
    - ImpactDiff: impact/diff.rs and the scratch directories of impact/symbols.rs.  What git's
      output says about each changed file.
    - Tokenize: extract_function_polyglot/tokenize.rs.  The tokens of a text in any of the
      languages, with open quotes and comments.
    - Extract: extract_function_polyglot duplicates.rs, arguments.rs, the boundaries of scope.rs,
      and the parameters and the rewriting of execute.rs.
    - PathMap: prod-code-protocol/src/path.  Paths, URIs and LSP payloads moved between the
      client's root and the server's; the [url] crate is a parameter.
    - RemoteExec: messages/remote_exec and [ExecRequest].  Command lines, and the readers of what
      [go test] and [cargo] print.
    - Readiness: readiness/types.rs and tracker.rs.  The tracker of the work a language server
      reports; [Readiness.state] and the waiting loop.
    - Status: messages/status.rs.  Host resources, pressure, texts and the congestion score.
    - Transport: transport/lsp.rs and buffer.rs.  Reading LSP frames from a stream.
    - Sync: messages/sync.rs.  Base64 contents and the FNV-1a content hash.
    - NodeDisk: the gateway's disk as a state monad with faults (any call may fail, a failing
      write may leave any bytes), a small logic for its programs, and sync/file_write.rs,
      config_meta.rs and sync_fs.rs: the temporary file renamed into place, what a tsconfig is
      turned into, which targets are accepted.
    - GatewaySync: sync/apply.rs, manifest.rs and sync_fs.rs, workspace/paths.rs, stale.rs and
      exec_created.rs, seed_cache/build_cache.rs.  The names of working copies, the records beside them, reconciling a
      manifest, writing and deleting what a sync carries, [apply_sync] whole.
    - SyncCorrect: the theorems on a synchronisation.
    - PushSync: prod-code-mcp/src/sync entry.rs, types.rs and the upload of push.rs.  The client's
      plan cut into messages and sent to the gateway of GatewaySync.
    - Tasks: tasks that share a state, as sequences of atomic steps, run alone or interleaved.
    - Pruning: prod-code-gateway/src/workspace usage.rs and prune.rs, and the clean-up of
      sync/config_meta.rs.  The uses of working copies, and the pruners that remove idle ones.
    - PruneSpec: what an undisturbed run of the worktree pruner removes.
    - Manager: workspace/manager/coalesce.rs and lifecycle.rs, [lead] and [release] of
      workspace/loader/mod.rs, the leases of workspace/session.rs.  The map of loaded workspaces
      as a machine of requests, leaders, leases and unloads, whose events come in any order.
    - ManagerLoads, ManagerProgress, ManagerLeases: its invariants, who can go on, and what is
      unloaded.
    - Dns: dns/types.rs and wire.rs.  Names with compression, queries and responses.
    - Discovery: discovery/types.rs, wire.rs and client.rs.  Node lines, HMAC tags (the class
      [Hmac] stands for HMAC-SHA-256), probes and the client's collection of replies.
    - SmartDns: dns/smart.rs.  Resolution of project names by rendezvous hashing, SRV records and
      the packet handler.
    - Admission: prod-code-gateway/src/admission.  The ledger of reserved memory; runs are
      sequences of admissions, refusals and returns, each atomic under the ledger's lock.
    - Placement: prod-code-gateway/src/state/placement.rs.  [place_in] and its texts.
    - Membership: prod-code-gateway/src/state/server_state.rs, state/forget.rs and the eviction
      rounds of gossip.rs.  Runs interleave the two lock sections of [absorb_gossip], forgets and
      evictions, with the clock as an input of each step.
    - TailBuffer: prod-code-gateway/src/shadow/tail_buffer.rs.  The end of a command's output with
      its error sections.
    - RequestHistory: prod-code-gateway/src/backend/request_history.rs.  The bounded history of
      requests a language server has not answered.
    - Backend: prod-code-gateway/src/backend probe.rs, writer.rs, reader.rs, health.rs and the
      handshake of init.rs.  Writers of frames, the reader and the health task of a language
      server's process, with failing, partial and dropped writes, as events in any order.
    - BackendStream, BackendHealth: what the server reads, and when it is given up.
    - SerdeJson: what the editor bridge relies on in serde_json, as the class [SerdeJson] with the
      values that are read, and an instance.
    - BridgeState: prod-code-client/src/lsp_bridge encoding.rs, state.rs, save_gate.rs,
      teardown.rs, reconnect_pending.rs, reconnect_deferred.rs and reconnect_workspace.rs.  What
      the bridge keeps of the editor's messages: documents, requests, saves, the queue.
    - Bridge: lsp_bridge bridge.rs, transport.rs, reconnect.rs, reconnect_wait.rs and
      reconnect_handler.rs.  The loop, the reader of the server and the reconnect with its replay,
      as events in any order.
    - BridgeOrder, BridgeMirror: that no edit is lost or overtaken, and that each server has the
      editor's documents.
    - BridgeReplies, BridgeAnswers: what the bridge answers itself, and that every request has one
      answer.
    - EngineKind: the engine kinds of prod-code-protocol/src/messages/wire.rs and their spellings.
    - Announce: the rest of gossip.rs.  The lines, probe replies and DNS answers a gateway builds
      from its membership: the composition of Membership, Discovery, Dns and SmartDns.

    ** What the theorems show

    - Streams: whatever the cuts between reads, the frames a peer encodes are decoded in order,
      with and without markers ([Codec.unmarked_stream_decoded], [Codec.marked_stream_decoded]);
      a failed encode leaves no trace; the decoder makes progress on any bytes.  LSP frames, DNS
      packets, node lines, probes and base64 contents are read back as they were written, and
      their readers end and stay in bounds on any input.
    - Edits: a workspace edit that fails anywhere is taken back completely
      ([WorkspaceEdit.failed_edit_restores_disk]), one that succeeds leaves exactly the disk its
      operations describe ([EditSpec.edit_refines_operations]), the disk is well formed whatever
      fails, what is reported is true, and the preview is what the edit would leave
      ([Preview.preview_exact]).  Text edits are the simultaneous replacement of their ranges,
      positions are converted exactly, the search for a free name ends.
    - Synchronisation: whatever fails, a working copy is named inside the root and a sync touches
      nothing outside the copy ([SyncCorrect.sync_stays_in_copy]); a synced file is the old one or
      the new one, never a part ([NodeDisk.synced_write_atomic]); every file sent is on the disk
      as sent or is reported stale ([SyncCorrect.sync_delivers_or_reports]), a copy that differs
      is noticed by the next probe ([SyncCorrect.no_silent_divergence]), a probe deletes only what
      a sync or a command put there; an upload is cut into messages that carry every file once,
      manifests first and within the budget, and delivers all of them or says which not.
    - Working copies: whatever pruners, sessions and commands do in whatever order, a copy of
      which a use is held keeps every file ([Pruning.copy_in_use_kept]); left alone, the worktree
      pruner removes exactly the idle copies nobody uses ([PruneSpec.stale_worktrees_removed]).
    - Workspaces: in any order of events a root is loaded by one party at a time
      ([ManagerLoads.one_load_per_root]), whoever waits waits for something that can go on
      ([ManagerProgress.requests_can_go_on]), an eviction takes exactly what nobody holds
      ([ManagerLeases.evict_exactly_unused]), and to make room the workspaces unused for longest
      go, no more than needed ([ManagerLeases.reclaim_enough]).
    - Patches and diffs: a printed diff parses and applies to the new texts, a deletion needs the
      exact file, quoted paths are read back, hunks add up to git's counts.
    - Extracting a function: the tokenizer ends on any text and its tokens tile it
      ([Tokenize.tokens_tile]); the calls put in place of the selection and its copies pass what
      each of them has ([Extract.calls_stand_for_copies]), and nothing but the selection and the
      copies is replaced ([Extract.calls_placed]).
    - Paths: locations and whole LSP payloads come back unchanged from the other side, and the
      text in them is never touched.
    - Negotiation: the version agreed is the greatest common one, capabilities the greatest lower
      bound.
    - Readiness: the tracker refines the abstract set of open work tokens; it reports ready only
      when it should; retry delays are bounded and waiting returns.
    - Admission: the ledger equals what is held; an engine is admitted exactly within the limit;
      no interleaving overcommits a steady host.
    - Placement: the node named is live and serves the workspace, and one is named whenever it
      exists; the preference rules and the conditions of a move; pressure is relieved.
    - Membership: a forgotten address stays forgotten, a silent peer leaves, a speaking one is
      always believed, the view is well formed in every run.
    - Output and requests: the first error of a command's output is always reported and the end of
      the output kept, however it is read; the request history stays bounded and ordered.
    - Language servers: a server reads whole messages only, every one sent successfully among
      them ([BackendStream.server_input_whole]), and is given up for silence exactly after three
      probes in a row without a sign of life ([BackendHealth.retired_only_for_silence]).
    - The editor bridge: each request of the editor is in one place and gets one answer, through
      any number of reconnects ([BridgeAnswers.requests_answered_once]); the server of the present
      session has exactly the documents the editor has ([BridgeMirror.server_has_documents]),
      whose text follows the editor's changes in every encoding ([BridgeState.edits_tracked]);
      a save goes to the server after its file ([BridgeState.saves_follow_files]).
    - Names: every engine name is read back to its kind and no spelling is shadowed; resolution
      is independent of discovery order and stable when other nodes leave; DNS lookups and probes
      are answered with the live nodes, end to end.
    - Where the code falls short of what it means to do, a theorem shows it: insertions at one
      position come out reversed, a hunk without context lands one line early, a test ignored
      with a reason is lost, overlapping edits leave half an edit, an emptied directory cannot
      be deleted, an upload of several messages forgets a failed file when the gateway cannot
      record it, a source directory named like a build cache is asked for on every probe, a sync
      that holds no use can lose its copy, a worktree's slot whose leading request is gone is
      loading for ever, a comment's opening mark can close it, a literal's parameter can be named
      like a variable of the selection, a column past the end of a line is the end of the text, an
      answer under delivery and a save that waited are lost when the connection breaks.

    ** Bounds and fuel

    Integers are [Z] with the width's bounds in the definitions (saturation, wrap-around or
    refusal as the code does); theorems state the ranges they need.  Recursion is structural
    except for [Dns.decode_loop], the frame and header loops, the tokenizer, the search for copies
    and the parsers of diffs, whose fuel
    is a function of the input's length that the theorems show to be enough; the search for a
    free name, whose fuel is one more than the entries of the disk ([Journal.free_name_found]) or
    than the names taken ([Extract.fresh_from_ok]); and the copy and the removal of a tree, which go no deeper than the disk.  Time is in
    nanoseconds of one clock, or in its seconds, an input of each operation.

    ** Conventions

    Text is a list of bytes.  A hash map whose order can show in a result is given in the order
    it yields its entries, and the theorems hold for every order.  Lock sections are atomic
    steps.  Floating-point hypotheses are stated where a theorem needs them: scores that are
    numbers, a load that prints again as it was printed.

    ** Not modelled

    Sockets, TLS, child processes and the operating system's probes; symbolic links; the
    client's other commands and the engine drivers; the refactoring tools of prod-code-mcp other than
    those named; the session server; of the editor bridge the hot reload, the mapping of paths and
    the background sync; the edit history and the caches that are told of an edit
    after it was applied.  Of the synchronisation: symbolic links, the seeding of a new copy from
    another, the planning of a sync from git's output and the client's cache of what was sent.
    Of the workspaces: what loading, admitting and attaching to an engine does, validation
    engines, what sessions are told when theirs is unloaded.  Of extracting a function: the
    guesses at its scope, inputs, types and outputs, and its text.
    What would come next: the generated text of extracted functions, the drivers of the Go and
    generic engines, the composition of gossip over a network of gateways, the hot reload. *)

From Stdlib Require Import Strings.Byte Strings.String.
From stdpp Require Export base list numbers option strings countable sets sorting.

#[global] Set Default Goal Selector "1".
#[export] Set Warnings "-clear-no-such-hyp,-level-tolerance".

(** ** Bytes and byte strings *)

Abbreviation byte := Byte.byte.
Abbreviation bytes := (list Byte.byte).

#[export] Instance byte_eq_decision : EqDecision byte := Byte.byte_eq_dec.
#[export] Instance byte_countable : Countable byte.
Proof.
  refine (inj_countable' (fun b => Byte.to_N b) (fun n => default x00 (Byte.of_N n)) _).
  intros b. by rewrite Byte.of_to_N.
Defined.

(** A byte-string literal: [B "GET"]. *)
Definition B (s : string) : bytes := String.list_byte_of_string s.
Arguments B s%_string.

Declare Scope rust_scope.
Delimit Scope rust_scope with rust.
Open Scope rust_scope.
Open Scope Z_scope.

(** The unsigned value of a byte and the byte of a value modulo 256. *)
Definition u8 (b : byte) : Z := Z.of_N (Byte.to_N b).

Definition byte_of_Z (z : Z) : byte :=
  match Byte.of_N (Z.to_N (z `mod` 256)) with Some b => b | None => x00 end.

Lemma u8_range b : 0 <= u8 b < 256.
Proof. unfold u8. pose proof (Byte.to_N_bounded b). lia. Qed.

Lemma u8_inj a b : u8 a = u8 b -> a = b.
Proof.
  unfold u8. intros H%N2Z.inj.
  pose proof (Byte.of_to_N a) as Ha. pose proof (Byte.of_to_N b) as Hb.
  rewrite H in Ha. congruence.
Qed.

Lemma u8_byte_of_Z z : u8 (byte_of_Z z) = z `mod` 256.
Proof.
  unfold u8, byte_of_Z. pose proof (Z.mod_pos_bound z 256 eq_refl) as Hz.
  destruct (Byte.of_N (Z.to_N (z `mod` 256))) as [b|] eqn:E.
  - apply Byte.to_of_N in E. rewrite E. lia.
  - apply Byte.of_N_None_iff in E. lia.
Qed.

Lemma byte_of_Z_u8 b : byte_of_Z (u8 b) = b.
Proof. apply u8_inj. rewrite u8_byte_of_Z. apply Z.mod_small, u8_range. Qed.

(** A decidable property of bytes is checked on the 256 of them. *)
Lemma byte_forall (P : byte -> Prop) `{forall b, Decision (P b)} :
  forallb (fun n => bool_decide (P (byte_of_Z (Z.of_nat n)))) (seq 0 256) = true ->
  forall b, P b.
Proof.
  intros Hall b. rewrite forallb_forall in Hall. specialize (Hall (Z.to_nat (u8 b))).
  pose proof (u8_range b). rewrite in_seq, Z2Nat.id, byte_of_Z_u8 in Hall by lia.
  eapply bool_decide_eq_true_1, Hall. lia.
Qed.

(** ** Lengths and slices indexed by machine integers *)

Definition zlen {A} (l : list A) : Z := Z.of_nat (length l).
Definition ztake {A} (n : Z) (l : list A) : list A := take (Z.to_nat n) l.
Definition zdrop {A} (n : Z) (l : list A) : list A := drop (Z.to_nat n) l.
(** [l[a..b]] of a slice. *)
Definition slice {A} (a b : Z) (l : list A) : list A := ztake (b - a) (zdrop a l).
(** [l[i]], zero when out of range: every use is guarded by a length check. *)
Definition at_ (l : bytes) (i : Z) : byte := nth (Z.to_nat i) l x00.

Lemma zlen_nonneg {A} (l : list A) : 0 <= zlen l.
Proof. unfold zlen. lia. Qed.
Lemma zlen_nil {A} : zlen (@nil A) = 0.
Proof. reflexivity. Qed.
Lemma zlen_cons {A} (x : A) l : zlen (x :: l) = 1 + zlen l.
Proof. unfold zlen. simpl. lia. Qed.
Lemma zlen_app {A} (l k : list A) : zlen (l ++ k) = zlen l + zlen k.
Proof. unfold zlen. rewrite length_app. lia. Qed.
Lemma zlen_ztake {A} n (l : list A) : 0 <= n <= zlen l -> zlen (ztake n l) = n.
Proof. unfold zlen, ztake. rewrite length_take. lia. Qed.
Lemma zlen_ztake_le {A} n (l : list A) : zlen (ztake n l) <= zlen l.
Proof. unfold zlen, ztake. rewrite length_take. lia. Qed.
Lemma zlen_zdrop {A} n (l : list A) : 0 <= n <= zlen l -> zlen (zdrop n l) = zlen l - n.
Proof. unfold zlen, zdrop. rewrite length_drop. lia. Qed.
Lemma zlen_zdrop_le {A} n (l : list A) : zlen (zdrop n l) <= zlen l.
Proof. unfold zlen, zdrop. rewrite length_drop. lia. Qed.
Lemma zlen_0_inv {A} (l : list A) : zlen l = 0 -> l = [].
Proof. destruct l; [done|]. rewrite zlen_cons. pose proof (zlen_nonneg l). lia. Qed.
Lemma zlen_map {A C} (f : A -> C) l : zlen (map f l) = zlen l.
Proof. unfold zlen. by rewrite length_map. Qed.
Lemma zlen_reverse {A} (l : list A) : zlen (reverse l) = zlen l.
Proof. unfold zlen. by rewrite length_reverse. Qed.

Lemma ztake_app_exact {A} (l k : list A) n : n = zlen l -> ztake n (l ++ k) = l.
Proof. intros ->. unfold ztake, zlen. rewrite Nat2Z.id. apply take_app_length. Qed.
Lemma zdrop_app_exact {A} (l k : list A) n : n = zlen l -> zdrop n (l ++ k) = k.
Proof. intros ->. unfold zdrop, zlen. rewrite Nat2Z.id. apply drop_app_length. Qed.
Lemma ztake_zdrop {A} n (l : list A) : ztake n l ++ zdrop n l = l.
Proof. apply take_drop. Qed.
Lemma ztake_all {A} n (l : list A) : zlen l <= n -> ztake n l = l.
Proof. unfold ztake, zlen. intros. apply take_ge. lia. Qed.
Lemma zdrop_all {A} n (l : list A) : zlen l <= n -> zdrop n l = [].
Proof. unfold zdrop, zlen. intros. apply drop_ge. lia. Qed.
Lemma zdrop_0 {A} (l : list A) : zdrop 0 l = l.
Proof. reflexivity. Qed.
Lemma ztake_0 {A} (l : list A) : ztake 0 l = [].
Proof. reflexivity. Qed.
Lemma zdrop_zdrop {A} n m (l : list A) : 0 <= n -> 0 <= m -> zdrop n (zdrop m l) = zdrop (m + n) l.
Proof. unfold zdrop. intros. rewrite drop_drop. f_equal. lia. Qed.

Lemma at_app_l l k i : 0 <= i < zlen l -> at_ (l ++ k) i = at_ l i.
Proof. unfold at_, zlen. intros. apply app_nth1. lia. Qed.
Lemma at_app_r l k i : zlen l <= i -> at_ (l ++ k) i = at_ k (i - zlen l).
Proof.
  unfold at_, zlen. intros. rewrite app_nth2 by lia. f_equal. lia.
Qed.
Lemma at_cons_0 x l : at_ (x :: l) 0 = x.
Proof. reflexivity. Qed.

(** A closed decidable fact, by evaluating its decision. *)
Ltac by_decide := apply (bool_decide_unpack _); vm_compute; exact I.

(** The next step of a computation in the option monad. *)
Ltac bind_step := cbn [mbind option_bind].

Create HintDb rust.
#[export] Hint Resolve zlen_nonneg u8_range : rust.

(** ** Big-endian integers *)

(** [from_be_bytes]: the value of a byte string, most significant byte first. *)
Fixpoint from_be_acc (acc : Z) (l : bytes) : Z :=
  match l with [] => acc | b :: l => from_be_acc (acc * 256 + u8 b) l end.
Definition from_be_bytes (l : bytes) : Z := from_be_acc 0 l.

(** [to_be_bytes] of an [n]-byte integer. *)
Fixpoint to_be_bytes (n : nat) (z : Z) : bytes :=
  match n with
  | O => []
  | S n' => to_be_bytes n' (z `div` 256) ++ [byte_of_Z z]
  end.

Lemma length_to_be_bytes n z : length (to_be_bytes n z) = n.
Proof. revert z. induction n; intros; simpl; [done|]. rewrite length_app, IHn. simpl. lia. Qed.

Lemma zlen_to_be_bytes n z : zlen (to_be_bytes n z) = Z.of_nat n.
Proof. unfold zlen. by rewrite length_to_be_bytes. Qed.

Lemma from_be_acc_app acc l k : from_be_acc acc (l ++ k) = from_be_acc (from_be_acc acc l) k.
Proof. revert acc. induction l; intros; simpl; auto. Qed.

Lemma from_to_be_bytes n z : from_be_bytes (to_be_bytes n z) = z `mod` 256 ^ Z.of_nat n.
Proof.
  revert z. induction n as [|n IH]; intros z; simpl to_be_bytes.
  - simpl. rewrite Z.mod_1_r. done.
  - unfold from_be_bytes in *. rewrite from_be_acc_app, IH. simpl.
    rewrite u8_byte_of_Z, Nat2Z.inj_succ, Z.pow_succ_r by lia.
    rewrite Z.rem_mul_r by lia. lia.
Qed.

Lemma from_to_be_bytes_small n z :
  0 <= z < 256 ^ Z.of_nat n -> from_be_bytes (to_be_bytes n z) = z.
Proof. intros. rewrite from_to_be_bytes. by apply Z.mod_small. Qed.

Lemma from_be_bytes_range l : 0 <= from_be_bytes l < 256 ^ zlen l.
Proof.
  unfold from_be_bytes. induction l as [|b l IH] using rev_ind; [done|].
  rewrite from_be_acc_app, zlen_app. simpl.
  rewrite Z.pow_add_r by (apply zlen_nonneg).
  change (256 ^ zlen [b]) with 256. pose proof (u8_range b). lia.
Qed.

(** ** Prefixes of a stream *)

Lemma at_prefix buf fut S i : S = buf ++ fut -> 0 <= i < zlen buf -> at_ buf i = at_ S i.
Proof. intros -> ?. by rewrite at_app_l. Qed.

Lemma ztake_prefix {A} (buf fut S : list A) n :
  S = buf ++ fut -> n <= zlen buf -> ztake n buf = ztake n S.
Proof. intros -> ?. unfold ztake, zlen in *. rewrite take_app_le by lia. done. Qed.

Lemma slice_prefix {A} (buf fut S : list A) a b :
  S = buf ++ fut -> 0 <= a <= b -> b <= zlen buf -> slice a b buf = slice a b S.
Proof.
  intros -> ? ?. unfold slice, ztake, zdrop, zlen in *.
  rewrite drop_app_le, take_app_le; [done|rewrite length_drop|]; lia.
Qed.

Lemma ztake_slice {A} a b (l : list A) : 0 <= a <= b -> ztake a l ++ slice a b l = ztake b l.
Proof. intros. unfold slice, ztake, zdrop. rewrite take_take_drop. f_equal. lia. Qed.
Lemma slice_ztake {A} a b (l : list A) : 0 <= a <= b -> slice a b l = zdrop a (ztake b l).
Proof. intros. unfold slice, ztake, zdrop. rewrite take_drop_commute. do 2 f_equal. lia. Qed.
Lemma at_ztake l n i : 0 <= i < n -> n <= zlen l -> at_ (ztake n l) i = at_ l i.
Proof.
  intros. rewrite <- (ztake_zdrop n l) at 2. rewrite at_app_l; [done|]. by rewrite zlen_ztake by lia.
Qed.

(** Two factorisations of one list: one cut is before the other. *)
Lemma app_split {A} (a b c d : list A) :
  a ++ b = c ++ d ->
  (exists k, a = c ++ k /\ d = k ++ b) \/ (exists k, c = a ++ k /\ b = k ++ d /\ k <> []).
Proof.
  intros H. destruct (app_eq_app _ _ _ _ H) as (k & [(Ha & Hb)|(Ha & Hb)]).
  - left. eauto.
  - destruct k as [|x k].
    + left. exists []. rewrite app_nil_r in *. subst. done.
    + right. exists (x :: k). done.
Qed.

(** Induction on the length of a list. *)
Lemma list_len_ind {A} (P : list A -> Prop) :
  (forall l, (forall k, (length k < length l)%nat -> P k) -> P l) -> forall l, P l.
Proof.
  intros H l. remember (length l) as n eqn:En. revert l En.
  induction (lt_wf n) as [n _ IH]. intros l ->. apply H. intros k Hk. by eapply IH.
Qed.

(** ** Stable sorting *)

(** [sort_by_key] and [sort_by]: [le x y] says [x] may stay before [y]. *)
Fixpoint insert_by {A} (le : A -> A -> bool) (x : A) (l : list A) : list A :=
  match l with
  | [] => [x]
  | y :: l' => if le x y then x :: l else y :: insert_by le x l'
  end.
Definition sort_by {A} (le : A -> A -> bool) (l : list A) : list A := foldr (insert_by le) [] l.

Section sort_by.
Context {A : Type} (le : A -> A -> bool).
Hypothesis le_total : forall x y, le x y = true \/ le y x = true.
Hypothesis le_trans : forall x y z, le x y = true -> le y z = true -> le x z = true.

Lemma insert_by_perm x l : insert_by le x l ≡ₚ x :: l.
Proof.
  induction l as [|y l IH]; simpl; [done|]. destruct (le x y); [done|].
  rewrite IH. apply Permutation_swap.
Qed.

Lemma sort_by_perm l : sort_by le l ≡ₚ l.
Proof. induction l as [|x l IH]; simpl; [done|]. by rewrite insert_by_perm, IH. Qed.

Lemma insert_by_sorted x l :
  StronglySorted (fun a b => le a b = true) l ->
  StronglySorted (fun a b => le a b = true) (insert_by le x l).
Proof.
  induction 1 as [|y l Hl IH Hy]; simpl; [repeat constructor|].
  destruct (le x y) eqn:E.
  - constructor; [by constructor|]. constructor; [done|].
    eapply Forall_impl; [exact Hy|]. intros z Hz. by eapply le_trans.
  - constructor; [done|]. rewrite insert_by_perm. constructor; [|done].
    destruct (le_total x y); [congruence|done].
Qed.

Lemma sort_by_sorted l : StronglySorted (fun a b => le a b = true) (sort_by le l).
Proof. induction l as [|x l IH]; simpl; [constructor|]. by apply insert_by_sorted. Qed.

(** Sorting by a key that tells the elements apart forgets the order they came in. *)
Lemma sort_by_order_free l l' :
  l ≡ₚ l' -> (forall x y, x ∈ l -> y ∈ l -> le x y = true -> le y x = true -> x = y) ->
  sort_by le l = sort_by le l'.
Proof.
  intros Hp Hanti. eapply StronglySorted_unique_strong;
    [|apply sort_by_sorted|apply sort_by_sorted|by rewrite !sort_by_perm].
  intros x y. rewrite sort_by_perm, (sort_by_perm l'), <- Hp. auto.
Qed.
End sort_by.
