(* ===== verification/RustStr.v ===== *)
(** * The parts of Rust's standard library the program uses on text

    A Rust [str] is a byte string holding UTF-8; it is modelled as [bytes].  Each definition is
    the function of [core]/[alloc] of the same name restricted to what the sources call:
    prefixes, suffixes, searching, splitting, trimming of Unicode white space, UTF-8 validation
    and lossy decoding, integer parsing and printing, ASCII case. *)

From Stdlib Require Import Strings.Byte.
From S2P Require Import Prelude.

(** ** Results *)

(** [Result<A, E>]. *)
Inductive result (A E : Type) : Type :=
| Ok (a : A)
| Err (e : E).
Arguments Ok {A E} a.
Arguments Err {A E} e.

(** ** Prefixes, suffixes and searching *)

Fixpoint strip_prefix (p s : bytes) : option bytes :=
  match p, s with
  | [], _ => Some s
  | x :: p', y :: s' => if Byte.eqb x y then strip_prefix p' s' else None
  | _ :: _, [] => None
  end.

Definition starts_with (p s : bytes) : bool :=
  match strip_prefix p s with Some _ => true | None => false end.

Definition strip_suffix (p s : bytes) : option bytes :=
  reverse <$> strip_prefix (reverse p) (reverse s).

Definition ends_with (p s : bytes) : bool :=
  match strip_suffix p s with Some _ => true | None => false end.

(** [iter().position(f)]. *)
Fixpoint position {A} (f : A -> bool) (l : list A) : option Z :=
  match l with
  | [] => None
  | x :: l' => if f x then Some 0 else Z.succ <$> position f l'
  end.

(** [find(pat)]: the index of the first occurrence; [windows(n).position(== pat)] for a
    non-empty [pat] of length [n]. *)
Fixpoint find_sub (pat s : bytes) : option Z :=
  if starts_with pat s then Some 0
  else match s with
       | [] => None
       | _ :: s' => Z.succ <$> find_sub pat s'
       end.

Definition contains (pat s : bytes) : bool :=
  match find_sub pat s with Some _ => true | None => false end.

(** [split_once(pat)]. *)
Definition split_once (pat s : bytes) : option (bytes * bytes) :=
  i ← find_sub pat s; Some (ztake i s, zdrop (i + zlen pat) s).

(** [rsplit_once(pat)]: splits at the last occurrence. *)
Definition rsplit_once (pat s : bytes) : option (bytes * bytes) :=
  i ← find_sub (reverse pat) (reverse s);
  Some (reverse (zdrop (i + zlen pat) (reverse s)), reverse (ztake i (reverse s))).

(** [split(sep)] on a one-byte separator: always at least one piece. *)
Fixpoint split_byte (f : byte -> bool) (s : bytes) : list bytes :=
  match s with
  | [] => [[]]
  | b :: s' =>
      if f b then [] :: split_byte f s'
      else match split_byte f s' with
           | w :: ws => (b :: w) :: ws
           | [] => [[b]]
           end
  end.
Definition split (sep : byte) (s : bytes) : list bytes := split_byte (Byte.eqb sep) s.

(** [splitn(n, sep)] for [n >= 1]. *)
Fixpoint splitn (n : nat) (sep : byte) (s : bytes) : list bytes :=
  match n with
  | O => []
  | S O => [s]
  | S n' => match split_once [sep] s with
            | Some (a, rest) => a :: splitn n' sep rest
            | None => [s]
            end
  end.

Fixpoint join (sep : bytes) (l : list bytes) : bytes :=
  match l with
  | [] => []
  | [x] => x
  | x :: l' => x ++ sep ++ join sep l'
  end.

(** [replace(c, with)] on a one-byte pattern. *)
Definition replace_byte (c : byte) (r : bytes) (s : bytes) : bytes :=
  s ≫= (fun b => if Byte.eqb b c then r else [b]).

(** [trim_start_matches]/[trim_end_matches]/[trim_matches] on a set of ASCII bytes. *)
Fixpoint trim_start_matches (f : byte -> bool) (s : bytes) : bytes :=
  match s with
  | [] => []
  | b :: s' => if f b then trim_start_matches f s' else s
  end.
Definition trim_end_matches (f : byte -> bool) (s : bytes) : bytes :=
  reverse (trim_start_matches f (reverse s)).
Definition trim_matches (f : byte -> bool) (s : bytes) : bytes :=
  trim_end_matches f (trim_start_matches f s).

(** ** ASCII classes *)

Definition in_range (lo hi : Z) (b : byte) : bool := (lo <=? u8 b) && (u8 b <=? hi).
Definition is_ascii (b : byte) : bool := u8 b <? 128.
Definition is_ascii_digit := in_range 48 57.
Definition is_ascii_lowercase := in_range 97 122.
Definition is_ascii_uppercase := in_range 65 90.
Definition is_ascii_alphabetic b := is_ascii_lowercase b || is_ascii_uppercase b.
Definition is_ascii_alphanumeric b := is_ascii_alphabetic b || is_ascii_digit b.
(** Printable ASCII other than space. *)
Definition is_ascii_graphic := in_range 33 126.

Definition to_ascii_lowercase_byte (b : byte) : byte :=
  if is_ascii_uppercase b then byte_of_Z (u8 b + 32) else b.
Definition to_ascii_lowercase (s : bytes) : bytes := map to_ascii_lowercase_byte s.
Definition eq_ignore_ascii_case (a b : bytes) : bool :=
  bool_decide (to_ascii_lowercase a = to_ascii_lowercase b).

(** ** Unicode white space *)

(** One-, two- and three-byte encodings of the characters with the White_Space property. *)
Definition ws1 (b : byte) : bool := in_range 9 13 b || (u8 b =? 32).
Definition ws2 (a b : byte) : bool := (u8 a =? 0xC2) && ((u8 b =? 0x85) || (u8 b =? 0xA0)).
Definition ws3 (a b c : byte) : bool :=
  ((u8 a =? 0xE1) && (u8 b =? 0x9A) && (u8 c =? 0x80))
  || ((u8 a =? 0xE2) && (u8 b =? 0x80)
      && (in_range 0x80 0x8A c || (u8 c =? 0xA8) || (u8 c =? 0xA9) || (u8 c =? 0xAF)))
  || ((u8 a =? 0xE2) && (u8 b =? 0x81) && (u8 c =? 0x9F))
  || ((u8 a =? 0xE3) && (u8 b =? 0x80) && (u8 c =? 0x80)).

Fixpoint trim_start (s : bytes) : bytes :=
  match s with
  | [] => []
  | a :: s1 =>
      if ws1 a then trim_start s1
      else match s1 with
           | b :: s2 =>
               if ws2 a b then trim_start s2
               else match s2 with
                    | c :: s3 => if ws3 a b c then trim_start s3 else s
                    | [] => s
                    end
           | [] => s
           end
  end.

(** The same on a reversed string: UTF-8 lead bytes never occur inside another character, so a
    white-space suffix is recognised from its end. *)
Fixpoint trim_start_rev (s : bytes) : bytes :=
  match s with
  | [] => []
  | c :: s1 =>
      if ws1 c then trim_start_rev s1
      else match s1 with
           | b :: s2 =>
               if ws2 b c then trim_start_rev s2
               else match s2 with
                    | a :: s3 => if ws3 a b c then trim_start_rev s3 else s
                    | [] => s
                    end
           | [] => s
           end
  end.

Definition trim_end (s : bytes) : bytes := reverse (trim_start_rev (reverse s)).
Definition trim (s : bytes) : bytes := trim_end (trim_start s).

(** [split_whitespace]: the non-empty pieces between white-space characters. *)
Definition flush (cur : bytes) (rest : list bytes) : list bytes :=
  match cur with [] => rest | _ => reverse cur :: rest end.
Fixpoint split_ws_acc (cur s : bytes) : list bytes :=
  match s with
  | [] => flush cur []
  | a :: s1 =>
      if ws1 a then flush cur (split_ws_acc [] s1)
      else match s1 with
           | b :: s2 =>
               if ws2 a b then flush cur (split_ws_acc [] s2)
               else match s2 with
                    | c :: s3 => if ws3 a b c then flush cur (split_ws_acc [] s3)
                                 else split_ws_acc (a :: cur) s1
                    | [] => split_ws_acc (a :: cur) s1
                    end
           | [] => split_ws_acc (a :: cur) s1
           end
  end.
Definition split_whitespace (s : bytes) : list bytes := split_ws_acc [] s.

(** [lines]: pieces ended by a line feed, without it and without a carriage return before it. *)
Definition strip_cr (l : bytes) : bytes :=
  match strip_suffix [x0d] l with Some l' => l' | None => l end.
Fixpoint lines_acc (cur s : bytes) : list bytes :=
  match s with
  | [] => match cur with [] => [] | _ => [reverse cur] end
  | b :: s' => if Byte.eqb b x0a then strip_cr (reverse cur) :: lines_acc [] s'
               else lines_acc (b :: cur) s'
  end.
Definition lines (s : bytes) : list bytes := lines_acc [] s.

(** ** UTF-8 *)

Definition cont (b : byte) : bool := in_range 0x80 0xBF b.
Definition second_of_three (a b : byte) : bool :=
  if u8 a =? 0xE0 then in_range 0xA0 0xBF b
  else if u8 a =? 0xED then in_range 0x80 0x9F b
  else cont b.
Definition second_of_four (a b : byte) : bool :=
  if u8 a =? 0xF0 then in_range 0x90 0xBF b
  else if u8 a =? 0xF4 then in_range 0x80 0x8F b
  else cont b.

(** The first character of a non-empty byte string: [inl n], a well-formed one of [n] bytes;
    [inr n], an ill-formed sequence whose maximal prefix has [n] bytes. *)
Definition utf8_step (s : bytes) : nat + nat :=
  match s with
  | [] => inr 0%nat
  | a :: r =>
      if is_ascii a then inl 1%nat
      else if in_range 0xC2 0xDF a then
        match r with
        | b :: _ => if cont b then inl 2%nat else inr 1%nat
        | [] => inr 1%nat
        end
      else if in_range 0xE0 0xEF a then
        match r with
        | b :: r1 =>
            if second_of_three a b then
              match r1 with
              | c :: _ => if cont c then inl 3%nat else inr 2%nat
              | [] => inr 2%nat
              end
            else inr 1%nat
        | [] => inr 1%nat
        end
      else if in_range 0xF0 0xF4 a then
        match r with
        | b :: r1 =>
            if second_of_four a b then
              match r1 with
              | c :: r2 =>
                  if cont c then
                    match r2 with
                    | d :: _ => if cont d then inl 4%nat else inr 3%nat
                    | [] => inr 3%nat
                    end
                  else inr 2%nat
              | [] => inr 2%nat
              end
            else inr 1%nat
        | [] => inr 1%nat
        end
      else inr 1%nat
  end.

(** [from_utf8(s).is_ok()]; every step consumes a byte, so [length s] steps are enough. *)
Fixpoint utf8_valid_fuel (fuel : nat) (s : bytes) : bool :=
  match s, fuel with
  | [], _ => true
  | _ :: _, O => false
  | _ :: _, S fuel' =>
      match utf8_step s with
      | inl n => utf8_valid_fuel fuel' (drop n s)
      | inr _ => false
      end
  end.
Definition utf8_valid (s : bytes) : bool := utf8_valid_fuel (length s) s.

(** [String::from_utf8_lossy]: each maximal ill-formed sequence becomes U+FFFD. *)
Fixpoint utf8_lossy_fuel (fuel : nat) (s : bytes) : bytes :=
  match s, fuel with
  | [], _ | _ :: _, O => []
  | _ :: _, S fuel' =>
      match utf8_step s with
      | inl n => take n s ++ utf8_lossy_fuel fuel' (drop n s)
      | inr n => [xef; xbf; xbd] ++ utf8_lossy_fuel fuel' (drop (Nat.max 1 n) s)
      end
  end.
Definition utf8_lossy (s : bytes) : bytes := utf8_lossy_fuel (length s) s.

(** The scalar value of one well-formed character. *)
Definition scalar (c : bytes) : Z :=
  match c with
  | [a] => u8 a
  | [a; b] => (u8 a - 0xC0) * 64 + (u8 b - 0x80)
  | [a; b; c] => ((u8 a - 0xE0) * 64 + (u8 b - 0x80)) * 64 + (u8 c - 0x80)
  | [a; b; c; d] =>
      (((u8 a - 0xF0) * 64 + (u8 b - 0x80)) * 64 + (u8 c - 0x80)) * 64 + (u8 d - 0x80)
  | _ => 0
  end.

(** [chars()]: the characters of a [str], each as its UTF-8 bytes. *)
Fixpoint chars_fuel (fuel : nat) (s : bytes) : list bytes :=
  match s, fuel with
  | [], _ | _ :: _, O => []
  | _ :: _, S fuel' =>
      match utf8_step s with
      | inl n => take n s :: chars_fuel fuel' (drop n s)
      | inr n => chars_fuel fuel' (drop (Nat.max 1 n) s)
      end
  end.
Definition chars (s : bytes) : list bytes := chars_fuel (length s) s.

(** ** Integers as text *)

Definition u16_max : Z := 2 ^ 16 - 1.
Definition u32_max : Z := 2 ^ 32 - 1.
Definition u64_max : Z := 2 ^ 64 - 1.
(** The program runs on 64-bit hosts. *)
Definition usize_max : Z := u64_max.

Definition digit_value (b : byte) : option Z :=
  if is_ascii_digit b then Some (u8 b - 48)
  else if is_ascii_lowercase b then Some (u8 b - 87)
  else if is_ascii_uppercase b then Some (u8 b - 55)
  else None.

Fixpoint parse_digits (radix acc : Z) (s : bytes) : option Z :=
  match s with
  | [] => Some acc
  | b :: s' =>
      match digit_value b with
      | Some d => if d <? radix then parse_digits radix (acc * radix + d) s' else None
      | None => None
      end
  end.

(** [from_str_radix] of an unsigned type with maximum [max]: an optional [+], at least one
    digit, no overflow. *)
Definition from_str_radix (radix max : Z) (s : bytes) : option Z :=
  let digits := match s with
                | b :: _ :: _ => if Byte.eqb b x2b then tail s else s
                | _ => s
                end in
  match digits with
  | [] => None
  | _ => match parse_digits radix 0 digits with
         | Some v => if v <=? max then Some v else None
         | None => None
         end
  end.
Definition parse_uint (max : Z) (s : bytes) : option Z := from_str_radix 10 max s.

Definition digit_char (d : Z) : byte := byte_of_Z (if d <? 10 then 48 + d else 87 + d).
Definition digit_char_upper (d : Z) : byte := byte_of_Z (if d <? 10 then 48 + d else 55 + d).

(** [Display] of an unsigned integer. *)
Fixpoint show_fuel (fuel : nat) (z : Z) : bytes :=
  match fuel with
  | O => []
  | S fuel' =>
      if z <? 10 then [digit_char z]
      else show_fuel fuel' (z `div` 10) ++ [digit_char (z `mod` 10)]
  end.
Definition show (z : Z) : bytes := show_fuel (S (Z.to_nat (Z.log2 z))) z.

(** [{:02x}] and [{:02X}] of a byte. *)
Definition hex_lower (b : byte) : bytes := [digit_char (u8 b `div` 16); digit_char (u8 b `mod` 16)].
Definition hex_upper (b : byte) : bytes :=
  [digit_char_upper (u8 b `div` 16); digit_char_upper (u8 b `mod` 16)].

(** ** Lemmas *)

Lemma byte_eqb_refl b : Byte.eqb b b = true.
Proof. apply Byte.byte_dec_lb. done. Qed.
Lemma byte_eqb_eq a b : Byte.eqb a b = true <-> a = b.
Proof. split; [apply Byte.byte_dec_bl|intros ->; apply byte_eqb_refl]. Qed.
Lemma byte_eqb_neq a b : Byte.eqb a b = false <-> a <> b.
Proof. rewrite <- byte_eqb_eq. destruct (Byte.eqb a b); naive_solver. Qed.
Lemma byte_eqb_spec a b : reflect (a = b) (Byte.eqb a b).
Proof. apply iff_reflect. symmetry. apply byte_eqb_eq. Qed.

(** Case analysis on the byte comparisons of the goal. *)
Ltac case_byte :=
  match goal with
  | |- context [Byte.eqb ?a ?b] => destruct (byte_eqb_spec a b)
  | H : context [Byte.eqb ?a ?b] |- _ => destruct (byte_eqb_spec a b)
  end.

#[local] Set Warnings "-clear-no-such-hyp".

Lemma strip_prefix_Some p s r : strip_prefix p s = Some r <-> s = p ++ r.
Proof.
  revert s. induction p as [|x p IH]; intros [|y s]; simpl; try naive_solver.
  case_byte; [subst; rewrite IH|]; naive_solver.
Qed.

Lemma strip_prefix_app p r : strip_prefix p (p ++ r) = Some r.
Proof. by apply strip_prefix_Some. Qed.

Lemma starts_with_spec p s : starts_with p s = true <-> exists r, s = p ++ r.
Proof.
  unfold starts_with. destruct (strip_prefix p s) eqn:E.
  - apply strip_prefix_Some in E. naive_solver.
  - split; [done|]. intros [r ->]. by rewrite strip_prefix_app in E.
Qed.

Lemma starts_with_app p r : starts_with p (p ++ r) = true.
Proof. apply starts_with_spec. eauto. Qed.

Lemma strip_suffix_Some p s r : strip_suffix p s = Some r <-> s = r ++ p.
Proof.
  unfold strip_suffix. split.
  - intros (r' & H & ->)%fmap_Some. apply strip_prefix_Some in H.
    apply (f_equal reverse) in H. by rewrite reverse_app, !reverse_involutive in H.
  - intros ->. rewrite reverse_app, strip_prefix_app. simpl. by rewrite reverse_involutive.
Qed.

Lemma strip_suffix_app p r : strip_suffix p (r ++ p) = Some r.
Proof. by apply strip_suffix_Some. Qed.

Lemma strip_suffix_None p s : strip_suffix p s = None <-> forall r, s <> r ++ p.
Proof.
  destruct (strip_suffix p s) eqn:E.
  - apply strip_suffix_Some in E. naive_solver.
  - split; [|done]. intros _ r Hr%strip_suffix_Some. congruence.
Qed.

Lemma ends_with_spec p s : ends_with p s = true <-> exists r, s = r ++ p.
Proof.
  unfold ends_with. destruct (strip_suffix p s) eqn:E.
  - apply strip_suffix_Some in E. naive_solver.
  - split; [done|]. intros [r ->]. by rewrite strip_suffix_app in E.
Qed.

(** The first occurrence of a one-byte pattern. *)
Lemma find_sub_byte c a b : c ∉ a -> find_sub [c] (a ++ c :: b) = Some (zlen a).
Proof.
  intros Hc. induction a as [|x a IH]; unfold starts_with in *; simpl.
  - unfold starts_with. simpl. by rewrite byte_eqb_refl.
  - unfold starts_with. simpl. destruct (byte_eqb_spec c x); [set_solver|].
    rewrite IH by set_solver. simpl. f_equal. rewrite zlen_cons. lia.
Qed.

Lemma find_sub_byte_None c s : c ∉ s -> find_sub [c] s = None.
Proof.
  induction s as [|x s IH]; intros Hc; simpl; [done|]. unfold starts_with. simpl.
  destruct (byte_eqb_spec c x); [set_solver|]. rewrite IH by set_solver. done.
Qed.

Lemma split_once_byte c a b : c ∉ a -> split_once [c] (a ++ c :: b) = Some (a, b).
Proof.
  intros H. unfold split_once. rewrite find_sub_byte by done. simpl.
  rewrite ztake_app_exact by done. change (a ++ c :: b) with (a ++ [c] ++ b).
  rewrite app_assoc, zdrop_app_exact; [done|]. rewrite zlen_app. done.
Qed.

Lemma split_once_byte_None c s : c ∉ s -> split_once [c] s = None.
Proof. intros H. unfold split_once. by rewrite find_sub_byte_None. Qed.

(** Splitting on a separator absent from the pieces undoes joining. *)
Lemma split_nil_inv f s : split_byte f s <> [].
Proof. destruct s as [|b s]; simpl; [done|]. destruct (f b); [done|]. by destruct (split_byte f s). Qed.

Lemma split_word sep w : sep ∉ w -> split sep w = [w].
Proof.
  unfold split. induction w as [|b w IH]; intros H; simpl; [done|].
  destruct (byte_eqb_spec sep b); [set_solver|]. by rewrite IH by set_solver.
Qed.

Lemma split_app_sep sep w s : sep ∉ w -> split sep (w ++ sep :: s) = w :: split sep s.
Proof.
  unfold split. induction w as [|b w IH]; intros H; simpl.
  - by rewrite byte_eqb_refl.
  - destruct (byte_eqb_spec sep b); [set_solver|]. by rewrite IH by set_solver.
Qed.

Lemma split_join sep ws :
  ws <> [] -> Forall (fun w => sep ∉ w) ws -> split sep (join [sep] ws) = ws.
Proof.
  induction ws as [|w ws IH]; intros Hne Hws; [done|].
  inversion_clear Hws as [|?? Hw Hws']. destruct ws as [|w' ws].
  - simpl. by apply split_word.
  - change (join [sep] (w :: w' :: ws)) with (w ++ sep :: join [sep] (w' :: ws)).
    rewrite split_app_sep by done. f_equal. by apply IH.
Qed.

(** *** White space around printable words *)

Definition graphic (w : bytes) : Prop := Forall (fun b => is_ascii_graphic b = true) w.

Lemma graphic_app a b : graphic (a ++ b) <-> graphic a /\ graphic b.
Proof. apply Forall_app. Qed.
Lemma graphic_cons x w : graphic (x :: w) <-> is_ascii_graphic x = true /\ graphic w.
Proof. apply List.Forall_cons_iff. Qed.
Lemma graphic_reverse w : graphic (reverse w) <-> graphic w.
Proof. apply Forall_reverse. Qed.

#[export] Instance graphic_dec w : Decision (graphic w).
Proof. apply _. Defined.

Lemma graphic_range a : is_ascii_graphic a = true <-> 33 <= u8 a <= 126.
Proof. unfold is_ascii_graphic, in_range. lia. Qed.

Lemma graphic_not_ws1 a : is_ascii_graphic a = true -> ws1 a = false.
Proof. rewrite graphic_range. unfold ws1, in_range. lia. Qed.
Lemma graphic_not_ws2 a b : is_ascii_graphic a = true -> ws2 a b = false.
Proof. rewrite graphic_range. unfold ws2. lia. Qed.
Lemma graphic_not_ws3 a b c : is_ascii_graphic a = true -> ws3 a b c = false.
Proof. rewrite graphic_range. unfold ws3. lia. Qed.
Lemma graphic_not_ws2_r a b : is_ascii_graphic b = true -> ws2 a b = false.
Proof. rewrite graphic_range. unfold ws2. lia. Qed.
Lemma graphic_not_ws3_r a b c : is_ascii_graphic c = true -> ws3 a b c = false.
Proof. rewrite graphic_range. unfold ws3, in_range. lia. Qed.

Create Rewrite HintDb ws.
#[export] Hint Rewrite graphic_not_ws1 graphic_not_ws2 graphic_not_ws3
  graphic_not_ws2_r graphic_not_ws3_r using assumption : ws.

Lemma split_ws_acc_graphic cur w s :
  graphic w -> split_ws_acc cur (w ++ s) = split_ws_acc (reverse w ++ cur) s.
Proof.
  revert cur. induction w as [|a w IH]; intros cur Hw; [done|].
  apply graphic_cons in Hw as [Ha Hw].
  rewrite reverse_cons, <- app_assoc. simpl ([a] ++ cur). rewrite <- IH by done.
  change ((a :: w) ++ s) with (a :: (w ++ s)). simpl. rewrite (graphic_not_ws1 a Ha).
  destruct (w ++ s) as [|b [|c r]]; [done|..];
    rewrite ?graphic_not_ws2, ?graphic_not_ws3 by done; done.
Qed.

Lemma split_ws_acc_space cur s : split_ws_acc cur (x20 :: s) = flush cur (split_ws_acc [] s).
Proof. reflexivity. Qed.
Lemma split_ws_acc_newline cur s : split_ws_acc cur (x0a :: s) = flush cur (split_ws_acc [] s).
Proof. reflexivity. Qed.

Lemma flush_word w rest : w <> [] -> flush (reverse w) rest = w :: rest.
Proof.
  intros H. unfold flush. destruct (reverse w) eqn:E.
  - apply (f_equal reverse) in E. rewrite reverse_involutive in E. done.
  - by rewrite <- E, reverse_involutive.
Qed.

(** A space after a printable word ends it. *)
Lemma split_whitespace_word w s :
  graphic w -> w <> [] -> split_whitespace (w ++ x20 :: s) = w :: split_whitespace s.
Proof.
  intros. unfold split_whitespace.
  rewrite split_ws_acc_graphic, app_nil_r, split_ws_acc_space by done. by apply flush_word.
Qed.

Lemma split_whitespace_last w : graphic w -> w <> [] -> split_whitespace w = [w].
Proof.
  intros. unfold split_whitespace. rewrite <- (app_nil_r w) at 1.
  rewrite split_ws_acc_graphic, app_nil_r by done. simpl. by apply flush_word.
Qed.

Lemma split_whitespace_join ws :
  Forall graphic ws -> Forall (fun w => w <> []) ws -> split_whitespace (join [x20] ws) = ws.
Proof.
  induction ws as [|w ws IH]; intros Hg Hn; [done|].
  inversion_clear Hg. inversion_clear Hn. destruct ws as [|w' ws].
  - by apply split_whitespace_last.
  - change (join [x20] (w :: w' :: ws)) with (w ++ x20 :: join [x20] (w' :: ws)).
    rewrite split_whitespace_word by done. f_equal. by apply IH.
Qed.

(** Trimming stops at a printable character. *)
Lemma trim_start_graphic a s : is_ascii_graphic a = true -> trim_start (a :: s) = a :: s.
Proof.
  intros Ha. simpl. rewrite (graphic_not_ws1 a Ha).
  destruct s as [|b [|c r]]; [done|..];
    rewrite ?graphic_not_ws2, ?graphic_not_ws3 by done; done.
Qed.
Lemma trim_start_rev_graphic a s : is_ascii_graphic a = true -> trim_start_rev (a :: s) = a :: s.
Proof.
  intros Ha. simpl. rewrite (graphic_not_ws1 a Ha).
  destruct s as [|b [|c r]]; [done|..];
    rewrite ?graphic_not_ws2_r, ?graphic_not_ws3_r by done; done.
Qed.
Lemma trim_end_graphic s a : is_ascii_graphic a = true -> trim_end (s ++ [a]) = s ++ [a].
Proof.
  intros Ha. unfold trim_end. rewrite reverse_app. change (reverse [a] ++ reverse s) with (a :: reverse s).
  rewrite trim_start_rev_graphic by done. by rewrite reverse_cons, reverse_involutive.
Qed.
Lemma trim_end_ws s a : ws1 a = true -> trim_end (s ++ [a]) = trim_end s.
Proof. intros Ha. unfold trim_end. rewrite reverse_app. simpl. by rewrite Ha. Qed.

Lemma trim_word w : graphic w -> trim w = w.
Proof.
  intros Hw. unfold trim. destruct w as [|a w]; [done|].
  assert (is_ascii_graphic a = true) by (by apply graphic_cons in Hw as [? _]).
  rewrite trim_start_graphic by done.
  destruct (exists_last (l := a :: w)) as (l & z & E); [done|]. rewrite E.
  apply trim_end_graphic. rewrite E in Hw. apply graphic_app in Hw as [_ Hz].
  by apply graphic_cons in Hz as [? _].
Qed.

(** *** Printing and parsing integers *)

Lemma digit_char_value d : 0 <= d < 16 -> digit_value (digit_char d) = Some d.
Proof.
  intros Hd. unfold digit_char, digit_value, is_ascii_digit, is_ascii_lowercase, in_range.
  destruct (d <? 10) eqn:E; rewrite u8_byte_of_Z, Z.mod_small by lia;
    repeat case_match; f_equal; lia.
Qed.
Lemma digit_char_upper_value d : 0 <= d < 16 -> digit_value (digit_char_upper d) = Some d.
Proof.
  intros Hd. unfold digit_char_upper, digit_value, is_ascii_digit, is_ascii_lowercase,
    is_ascii_uppercase, in_range.
  destruct (d <? 10) eqn:E; rewrite u8_byte_of_Z, Z.mod_small by lia;
    repeat case_match; f_equal; lia.
Qed.

Lemma parse_digits_app radix acc s t v :
  parse_digits radix acc s = Some v -> parse_digits radix acc (s ++ t) = parse_digits radix v t.
Proof.
  revert acc. induction s as [|b s IH]; intros acc; simpl; [by intros [= ->]|].
  destruct (digit_value b) as [d|]; [|done]. destruct (d <? radix); [apply IH|done].
Qed.

Lemma parse_show_fuel n z : 0 <= z < 2 ^ Z.of_nat n -> parse_digits 10 0 (show_fuel n z) = Some z.
Proof.
  revert z. induction n as [|n IH]; intros z Hz; [simpl in *; f_equal; lia|].
  simpl. destruct (z <? 10) eqn:E.
  - simpl. rewrite digit_char_value by lia. rewrite E. done.
  - rewrite (parse_digits_app _ _ _ _ (z `div` 10)).
    + simpl. pose proof (Z.mod_pos_bound z 10 eq_refl).
      rewrite digit_char_value by lia. replace (z `mod` 10 <? 10) with true by lia.
      f_equal. pose proof (Z.div_mod z 10). lia.
    + apply IH. rewrite Nat2Z.inj_succ, Z.pow_succ_r in Hz by lia.
      split; [apply Z.div_pos; lia|]. apply Z.div_lt_upper_bound; lia.
Qed.

Lemma show_fits z : 0 <= z -> 0 <= z < 2 ^ Z.of_nat (S (Z.to_nat (Z.log2 z))).
Proof.
  intros Hz. split; [done|]. pose proof (Z.log2_nonneg z).
  rewrite Nat2Z.inj_succ, Z2Nat.id by done.
  destruct (Z.eq_dec z 0) as [->|]; [done|]. apply Z.log2_spec. lia.
Qed.

Definition digits (s : bytes) : Prop := Forall (fun b => is_ascii_digit b = true) s.

Lemma digit_char_digit d : 0 <= d < 10 -> is_ascii_digit (digit_char d) = true.
Proof.
  intros. unfold digit_char, is_ascii_digit, in_range.
  replace (d <? 10) with true by lia. rewrite u8_byte_of_Z, Z.mod_small; lia.
Qed.

Lemma show_fuel_digits n z : 0 <= z -> digits (show_fuel n z).
Proof.
  revert z. induction n as [|n IH]; intros z Hz; simpl; [constructor|].
  destruct (z <? 10) eqn:E.
  - constructor; [apply digit_char_digit; lia|constructor].
  - apply Forall_app. split; [apply IH, Z.div_pos; lia|].
    constructor; [apply digit_char_digit, Z.mod_pos_bound; lia|constructor].
Qed.

Lemma show_digits z : 0 <= z -> digits (show z).
Proof. apply show_fuel_digits. Qed.

Lemma digits_graphic s : digits s -> graphic s.
Proof.
  intros Hs. eapply Forall_impl; [exact Hs|]. intros b Hb. apply graphic_range.
  unfold is_ascii_digit, in_range in Hb. lia.
Qed.

Lemma show_nonempty z : show z <> [].
Proof.
  unfold show. simpl. destruct (z <? 10); [done|]. intros H%app_nil. naive_solver.
Qed.

(** [s.parse::<uN>()] on a printed number, and that it reads back what [Display] prints. *)
Lemma parse_show_eq max z :
  0 <= z -> parse_uint max (show z) = if z <=? max then Some z else None.
Proof.
  intros Hz. pose proof (show_digits z ltac:(lia)) as Hd.
  pose proof (parse_show_fuel _ z (show_fits z ltac:(lia))) as Hp. fold (show z) in Hp.
  pose proof (show_nonempty z) as Hn. unfold parse_uint, from_str_radix.
  assert (Hplus : match show z with
                  | b :: _ :: _ => if Byte.eqb b x2b then tail (show z) else show z
                  | _ => show z
                  end = show z).
  { destruct (show z) as [|b [|c r]]; [done..|]. inversion_clear Hd as [|?? Hb _].
    destruct (byte_eqb_spec b x2b) as [->|]; [|done]. done. }
  rewrite Hplus. destruct (show z) eqn:E; [done|]. by rewrite <- E, Hp in *.
Qed.
Lemma show_inj a b : 0 <= a -> 0 <= b -> show a = show b -> a = b.
Proof.
  intros Ha Hb E. pose proof (parse_show_eq (Z.max a b) a Ha) as H1. pose proof (parse_show_eq (Z.max a b) b Hb) as H2.
  rewrite E, H2 in H1. replace (a <=? _) with true in H1 by lia. replace (b <=? _) with true in H1 by lia. congruence.
Qed.

Lemma parse_show max z : 0 <= z <= max -> parse_uint max (show z) = Some z.
Proof. intros Hz. rewrite parse_show_eq by lia. by replace (z <=? max) with true by lia. Qed.

Lemma parse_uint_range max s v : parse_uint max s = Some v -> v <= max.
Proof. unfold parse_uint, from_str_radix. repeat case_match; naive_solver lia. Qed.

(** *** ASCII text is UTF-8 *)

Definition ascii (s : bytes) : Prop := Forall (fun b => is_ascii b = true) s.

Lemma utf8_valid_ascii s : ascii s -> utf8_valid s = true.
Proof.
  intros H. unfold utf8_valid. induction H as [|b s Hb Hs IH]; [done|]. simpl. by rewrite Hb.
Qed.

Lemma utf8_lossy_ascii_app a s : ascii a -> utf8_lossy (a ++ s) = a ++ utf8_lossy s.
Proof.
  intros H. unfold utf8_lossy. induction H as [|b a Hb Hs IH]; [done|].
  cbn [length app utf8_lossy_fuel utf8_step]. rewrite Hb. simpl. by rewrite drop_0, IH.
Qed.

Lemma utf8_lossy_ascii s : ascii s -> utf8_lossy s = s.
Proof. intros H. rewrite <- (app_nil_r s) at 1. rewrite utf8_lossy_ascii_app by done. apply app_nil_r. Qed.

Lemma chars_ascii s : ascii s -> chars s = map (fun b => [b]) s.
Proof.
  intros H. unfold chars. induction H as [|b s Hb Hs IH]; [done|].
  cbn [length chars_fuel utf8_step]. rewrite Hb. simpl. by rewrite drop_0, IH.
Qed.

Lemma graphic_ascii s : graphic s -> ascii s.
Proof.
  intros Hs. eapply Forall_impl; [exact Hs|]. intros b Hb%graphic_range. unfold is_ascii. lia.
Qed.

(** *** Lines *)

Lemma lines_first a s : x0a ∉ a -> lines (a ++ x0a :: s) = strip_cr a :: lines s.
Proof.
  intros Ha. unfold lines.
  assert (Hacc : forall cur, lines_acc cur (a ++ x0a :: s)
    = strip_cr (reverse cur ++ a) :: lines_acc [] s); [|by rewrite Hacc].
  induction a as [|b a IH]; intros cur; simpl.
  - by rewrite app_nil_r.
  - destruct (byte_eqb_spec b x0a); [set_solver|].
    rewrite IH by set_solver. by rewrite reverse_cons, <- app_assoc.
Qed.

Lemma strip_cr_app a : strip_cr (a ++ [x0d]) = a.
Proof. unfold strip_cr. by rewrite strip_suffix_app. Qed.

(** *** Searching past text that does not hold the first byte of the pattern *)

Lemma find_sub_skip c pat a s :
  c ∉ a -> find_sub (c :: pat) (a ++ s) = (fun i => zlen a + i) <$> find_sub (c :: pat) s.
Proof.
  intros Ha. induction a as [|b a IH].
  - simpl app. destruct (find_sub (c :: pat) s); simpl; [|done]. by rewrite zlen_nil.
  - cbn [app find_sub]. unfold starts_with at 1. simpl.
    destruct (byte_eqb_spec c b); [set_solver|]. rewrite IH by set_solver.
    destruct (find_sub (c :: pat) s); simpl; [|done]. f_equal. rewrite zlen_cons. lia.
Qed.

Lemma find_sub_here pat s : find_sub pat (pat ++ s) = Some 0.
Proof. pose proof (starts_with_app pat s) as H. by destruct (pat ++ s); simpl; rewrite H. Qed.

(** The index found is where the pattern is. *)
Lemma find_sub_Some pat s i :
  find_sub pat s = Some i -> exists a b, s = a ++ pat ++ b /\ i = zlen a.
Proof.
  revert i. induction s as [|x s IH]; intros i; cbn [find_sub].
  - destruct (starts_with pat []) eqn:E; [|done]. intros [= <-].
    apply starts_with_spec in E as [r Hr]. exists [], r. done.
  - destruct (starts_with pat (x :: s)) eqn:E.
    + intros [= <-]. apply starts_with_spec in E as [r Hr]. exists [], r. done.
    + intros (j & Hj & ->)%fmap_Some. destruct (IH j Hj) as (a & b & -> & ->).
      exists (x :: a), b. split; [done|]. rewrite zlen_cons. lia.
Qed.

Lemma position_skip {A} (f : A -> bool) a x s :
  Forall (fun y => f y = false) a -> f x = true -> position f (a ++ x :: s) = Some (zlen a).
Proof.
  intros Ha Hx. induction Ha as [|y a Hy Ha IH]; simpl.
  - by rewrite Hx.
  - rewrite Hy, IH. simpl. rewrite zlen_cons. f_equal. lia.
Qed.

(** Splitting at a pattern whose first byte is nowhere before it. *)
Lemma split_once_sub c pat a b :
  c ∉ a -> split_once (c :: pat) (a ++ (c :: pat) ++ b) = Some (a, b).
Proof.
  intros Ha. unfold split_once. rewrite find_sub_skip by done. rewrite find_sub_here.
  cbn [fmap option_fmap option_map mbind option_bind]. rewrite Z.add_0_r, ztake_app_exact by done.
  by rewrite app_assoc, zdrop_app_exact by (rewrite zlen_app; done).
Qed.

(** What is made of decimal digits holds no other byte. *)
Lemma not_in_digits c s : is_ascii_digit c = false -> digits s -> c ∉ s.
Proof. intros Hc Hs Hin. unfold digits in Hs. rewrite Forall_forall in Hs. apply Hs in Hin. congruence. Qed.

(** Splitting at the last occurrence of a pattern whose last byte is nowhere after it. *)
Lemma rsplit_once_find pat a b :
  find_sub (reverse pat) (reverse (a ++ pat ++ b)) = Some (zlen b) ->
  rsplit_once pat (a ++ pat ++ b) = Some (a, b).
Proof.
  intros H. unfold rsplit_once. rewrite H. bind_step. rewrite !reverse_app, <- app_assoc.
  rewrite ztake_app_exact by (by rewrite zlen_reverse). rewrite reverse_involutive.
  rewrite app_assoc, zdrop_app_exact by (by rewrite zlen_app, !zlen_reverse).
  by rewrite reverse_involutive.
Qed.

Lemma rsplit_once_sub pat c a b :
  c ∉ b -> rsplit_once (pat ++ [c]) (a ++ (pat ++ [c]) ++ b) = Some (a, b).
Proof.
  intros Hb. apply rsplit_once_find. rewrite !reverse_app, <- !app_assoc.
  change (reverse [c] ++ reverse pat) with (c :: reverse pat).
  change (reverse [c] ++ ?x) with (c :: x).
  rewrite find_sub_skip by (by rewrite elem_of_reverse).
  change (c :: reverse pat ++ reverse a) with ((c :: reverse pat) ++ reverse a).
  rewrite find_sub_here. cbn. by rewrite Z.add_0_r, zlen_reverse.
Qed.

(** A prefix without a byte is found before it or not at all. *)
Lemma starts_with_stop p a c s : c ∉ p -> starts_with p (a ++ c :: s) = starts_with p a.
Proof.
  unfold starts_with. revert a. induction p as [|x p IH]; intros a Hp; [done|].
  destruct a as [|y a]; cbn [app strip_prefix].
  - destruct (byte_eqb_spec x c); [set_solver|done].
  - destruct (byte_eqb_spec x y); [apply IH; set_solver|done].
Qed.
