(* ===== verification/Utf8.v ===== *)
(** * UTF-8 text as a sequence of characters

    A valid [str] is the concatenation of its characters, each a maximal well-formed sequence:
    a lead byte and its continuation bytes.  The file gives that view of [utf8_valid] and
    [chars], and what it says of the character boundaries [str] slicing and
    [String::replace_range] insist on. *)

From Stdlib Require Import Strings.Byte.
From S2P Require Import Prelude RustStr.

(** [s.is_char_boundary(i)]. *)
Definition is_char_boundary (s : bytes) (i : Z) : bool :=
  (i =? 0) || (i =? zlen s) || ((0 <=? i) && (i <? zlen s) && negb (cont (at_ s i))).

(** One well-formed character. *)
Definition is_char (c : bytes) : bool :=
  match utf8_step c with inl n => (n =? length c)%nat | inr _ => false end.

(** [char_indices()]: each character with the byte offset it starts at. *)
Fixpoint char_indices_from (i : Z) (cs : list bytes) : list (Z * bytes) :=
  match cs with
  | [] => []
  | c :: cs' => (i, c) :: char_indices_from (i + zlen c) cs'
  end.
Definition char_indices (s : bytes) : list (Z * bytes) := char_indices_from 0 (chars s).

(** [char::len_utf16]. *)
Definition len_utf16 (c : bytes) : Z := if scalar c <? 0x10000 then 1 else 2.

(** ** One step of decoding *)

(** Case analysis on every test of a decoding step. *)
Ltac step_cases :=
  repeat match goal with
         | H : context [match ?x with _ => _ end] |- _ => destruct x eqn:?
         end; try discriminate.

(** A decoded character is a prefix of the text, and decoding looks no further. *)
Lemma utf8_step_inv s n :
  utf8_step s = inl n ->
  exists c r, s = c ++ r /\ length c = n /\ n <> O /\ forall t, utf8_step (c ++ t) = inl n.
Proof.
  unfold utf8_step at 1. intros H. destruct s as [|a s]; [discriminate|].
  step_cases; injection H as <-; subst;
    match goal with |- exists c r, ?s = _ /\ length _ = ?n /\ _ => exists (take n s), (drop n s) end;
    (split; [symmetry; apply take_drop|]); (split; [reflexivity|]); (split; [done|]); intros t;
    cbn [take app utf8_step];
    repeat match goal with H : ?x = _ |- context [if ?x then _ else _] => rewrite H end;
    reflexivity.
Qed.

Lemma is_char_step c : is_char c = true -> utf8_step c = inl (length c).
Proof.
  unfold is_char. destruct (utf8_step c) eqn:E; [|done]. by intros ->%Nat.eqb_eq.
Qed.

Lemma is_char_step_app c t : is_char c = true -> utf8_step (c ++ t) = inl (length c).
Proof.
  intros H%is_char_step. destruct (utf8_step_inv c _ H) as (c' & r & Hc & Hl & _ & Hs).
  assert (r = []) as -> by (apply (f_equal length) in Hc; rewrite length_app in Hc;
    apply length_zero_iff_nil; lia).
  rewrite app_nil_r in Hc. subst c'. apply Hs.
Qed.

Lemma is_char_nonempty c : is_char c = true -> c <> [].
Proof. by destruct c. Qed.

Lemma utf8_step_char s n :
  utf8_step s = inl n -> exists c r, s = c ++ r /\ is_char c = true /\ length c = n.
Proof.
  intros H. destruct (utf8_step_inv s n H) as (c & r & -> & Hl & _ & Hs).
  exists c, r. split_and!; [done| |done].
  unfold is_char. rewrite <- (app_nil_r c), Hs, app_nil_r. by apply Nat.eqb_eq.
Qed.

(** The lead byte of a character is no continuation byte. *)
Lemma is_char_lead c : is_char c = true -> exists a r, c = a :: r /\ cont a = false.
Proof.
  intros H%is_char_step. destruct c as [|a r]; [done|]. exists a, r. split; [done|].
  unfold utf8_step in H. destruct (is_ascii a) eqn:E1; [unfold is_ascii in E1; unfold cont, in_range; lia|].
  destruct (in_range 0xC2 0xDF a) eqn:E2; [unfold cont, in_range in *; lia|].
  destruct (in_range 0xE0 0xEF a) eqn:E3; [unfold cont, in_range in *; lia|].
  destruct (in_range 0xF0 0xF4 a) eqn:E4; [unfold cont, in_range in *; lia|done].
Qed.

(** ASCII bytes are characters, and only ever on their own. *)
Lemma is_char_ascii a : is_ascii a = true -> is_char [a] = true.
Proof. intros H. unfold is_char, utf8_step. by rewrite H. Qed.

Lemma second_of_three_cont a b : second_of_three a b = true -> cont b = true.
Proof. unfold second_of_three, cont, in_range. repeat case_match; lia. Qed.
Lemma second_of_four_cont a b : second_of_four a b = true -> cont b = true.
Proof. unfold second_of_four, cont, in_range. repeat case_match; lia. Qed.

Lemma is_char_tail_cont c a r : is_char c = true -> c = a :: r -> Forall (fun b => cont b = true) r.
Proof.
  intros H%is_char_step ->. unfold utf8_step in H.
  step_cases; injection H as H; subst; cbn [length] in H;
    match type of H with
    | context [length ?l] => destruct l; [|cbn [length] in H; lia]
    end; repeat constructor;
    eauto using second_of_three_cont, second_of_four_cont.
Qed.

Lemma is_char_ascii_in c a : is_char c = true -> is_ascii a = true -> a ∈ c -> c = [a].
Proof.
  intros Hc Ha Hin. destruct c as [|b r]; [by apply not_elem_of_nil in Hin|].
  pose proof (is_char_tail_cont _ b r Hc eq_refl) as Ht.
  assert (Hbr : a ∈ r -> False).
  { intros Hr. rewrite Forall_forall in Ht. specialize (Ht a Hr).
    unfold is_ascii in Ha. unfold cont, in_range in Ht. lia. }
  apply elem_of_cons in Hin as [->|Hr]; [|by destruct Hbr].
  apply is_char_step in Hc. unfold utf8_step in Hc. rewrite Ha in Hc.
  injection Hc as Hc. destruct r; [done|]. cbn [length] in Hc. lia.
Qed.

(** ** Valid text is the concatenation of its characters *)

Lemma concat_length_ge (cs : list bytes) :
  Forall (fun c => is_char c = true) cs -> (length cs <= length (concat cs))%nat.
Proof.
  induction 1 as [|c cs Hc _ IH]; simpl; [lia|]. rewrite length_app.
  apply is_char_nonempty in Hc. destruct c; [done|]. simpl. lia.
Qed.

Lemma chars_fuel_concat fuel cs :
  Forall (fun c => is_char c = true) cs -> (length cs <= fuel)%nat ->
  chars_fuel fuel (concat cs) = cs /\ utf8_valid_fuel fuel (concat cs) = true.
Proof.
  intros Hcs. revert fuel. induction Hcs as [|c cs Hc Hcs IH]; intros fuel Hf.
  - simpl. by destruct fuel.
  - destruct fuel as [|fuel]; simpl in Hf; [lia|]. simpl concat.
    pose proof (is_char_nonempty c Hc). destruct (c ++ concat cs) as [|x s] eqn:E;
      [by apply app_nil in E as [? _]|].
    cbn [chars_fuel utf8_valid_fuel]. rewrite <- E, is_char_step_app by done.
    rewrite take_app_length, drop_app_length. destruct (IH fuel) as [-> ->]; [lia|done].
Qed.

Lemma chars_concat cs : Forall (fun c => is_char c = true) cs -> chars (concat cs) = cs.
Proof. intros H. apply chars_fuel_concat; [done|]. by apply concat_length_ge. Qed.
Lemma utf8_valid_concat cs : Forall (fun c => is_char c = true) cs -> utf8_valid (concat cs) = true.
Proof. intros H. apply chars_fuel_concat; [done|]. by apply concat_length_ge. Qed.

Lemma utf8_valid_fuel_inv fuel s :
  utf8_valid_fuel fuel s = true -> exists cs, s = concat cs /\ Forall (fun c => is_char c = true) cs.
Proof.
  revert s. induction fuel as [|fuel IH]; intros s H.
  - destruct s; [|discriminate]. exists []. by repeat constructor.
  - destruct s as [|x s]; [exists []; by repeat constructor|].
    cbn [utf8_valid_fuel] in H. destruct (utf8_step (x :: s)) as [n|] eqn:E; [|discriminate].
    destruct (utf8_step_char _ _ E) as (c & r & Hs & Hc & <-).
    rewrite Hs, drop_app_length in H. destruct (IH r H) as (cs & -> & Hcs).
    exists (c :: cs). split; [done|by constructor].
Qed.

Lemma utf8_valid_inv s :
  utf8_valid s = true -> exists cs, s = concat cs /\ Forall (fun c => is_char c = true) cs.
Proof. apply utf8_valid_fuel_inv. Qed.

Lemma concat_chars s : utf8_valid s = true -> concat (chars s) = s.
Proof. intros (cs & -> & H)%utf8_valid_inv. by rewrite chars_concat. Qed.
Lemma utf8_lossy_valid s : utf8_valid s = true -> utf8_lossy s = s.
Proof.
  unfold utf8_valid, utf8_lossy. generalize (length s) as fuel. intros fuel. revert s.
  induction fuel as [|fuel IH]; intros s; (destruct s as [|x s]; [done|]); [done|].
  cbn [utf8_valid_fuel utf8_lossy_fuel]. destruct (utf8_step (x :: s)) as [n|]; [|done].
  intros H. rewrite IH by done. apply take_drop.
Qed.
Lemma chars_is_char s : utf8_valid s = true -> Forall (fun c => is_char c = true) (chars s).
Proof. intros (cs & -> & H)%utf8_valid_inv. by rewrite chars_concat. Qed.

Lemma utf8_valid_app a b : utf8_valid a = true -> utf8_valid b = true -> utf8_valid (a ++ b) = true.
Proof.
  intros (ca & -> & Ha)%utf8_valid_inv (cb & -> & Hb)%utf8_valid_inv.
  rewrite <- concat_app. apply utf8_valid_concat. by apply Forall_app.
Qed.

Lemma chars_app a b : utf8_valid a = true -> utf8_valid b = true -> chars (a ++ b) = chars a ++ chars b.
Proof.
  intros (ca & -> & Ha)%utf8_valid_inv (cb & -> & Hb)%utf8_valid_inv.
  rewrite <- concat_app, !chars_concat; try done. by apply Forall_app.
Qed.

(** ** Boundaries *)

(** A valid text starts with a boundary wherever it is placed. *)
Lemma boundary_app a b : utf8_valid b = true -> is_char_boundary (a ++ b) (zlen a) = true.
Proof.
  intros (cs & -> & H)%utf8_valid_inv. unfold is_char_boundary. rewrite zlen_app.
  pose proof (zlen_nonneg a). destruct H as [|c cs Hc _].
  - change (zlen (concat [])) with 0. lia.
  - destruct (is_char_lead c Hc) as (x & r & -> & Hx). cbn [concat app].
    rewrite at_app_r by lia. rewrite Z.sub_diag, at_cons_0, Hx.
    rewrite zlen_cons. pose proof (zlen_nonneg (r ++ concat cs)). lia.
Qed.

(** Cutting a valid text at a boundary leaves two valid texts. *)
Lemma boundary_split s i :
  utf8_valid s = true -> is_char_boundary s i = true ->
  utf8_valid (ztake i s) = true /\ utf8_valid (zdrop i s) = true.
Proof.
  intros (cs & -> & H)%utf8_valid_inv. revert i. induction H as [|c cs Hc Hcs IH]; intros i Hi.
  - cbn [concat] in *. unfold ztake, zdrop. by rewrite take_nil, drop_nil.
  - cbn [concat] in *. destruct (decide (i <= 0)).
    + unfold ztake, zdrop. replace (Z.to_nat i) with 0%nat by lia.
      split; [done|]. apply (utf8_valid_concat (c :: cs)). by constructor.
    + destruct (decide (i < zlen c)).
      * exfalso. destruct (is_char_lead c Hc) as (a & r & Hcar & _).
        pose proof (is_char_tail_cont c a r Hc Hcar) as Ht. rewrite Forall_forall in Ht.
        unfold is_char_boundary in Hi. rewrite at_app_l, zlen_app in Hi by lia.
        pose proof (zlen_nonneg (concat cs)).
        assert (cont (at_ c i) = true) as Hcont; [|rewrite Hcont in Hi; lia].
        apply Ht. subst c. rewrite zlen_cons in *. unfold at_.
        replace (Z.to_nat i) with (S (Z.to_nat (i - 1))) by lia. cbn [nth].
        apply list_elem_of_In, nth_In. unfold zlen in *. lia.
      * assert (Hi' : is_char_boundary (concat cs) (i - zlen c) = true).
        { unfold is_char_boundary in *. rewrite zlen_app in Hi.
          destruct (decide (i - zlen c = 0)) as [|]; [lia|].
          rewrite at_app_r in Hi by lia. pose proof (zlen_nonneg c).
          destruct (cont (at_ (concat cs) (i - zlen c))); lia. }
        destruct (IH _ Hi') as [Ht Hd].
        unfold ztake, zdrop in *. rewrite take_app_ge, drop_app_ge by (unfold zlen in *; lia).
        replace (Z.to_nat i - length c)%nat with (Z.to_nat (i - zlen c)) by (unfold zlen; lia).
        split; [|done]. apply utf8_valid_app; [|done].
        rewrite <- (app_nil_r c). change (c ++ []) with (concat [c]).
        apply utf8_valid_concat. by constructor.
Qed.

(** An ASCII byte of a valid text is a character of it: the text splits there. *)
Lemma utf8_valid_ascii_split a x b :
  is_ascii x = true -> utf8_valid (a ++ x :: b) = true ->
  utf8_valid a = true /\ utf8_valid b = true.
Proof.
  intros Hx Hv.
  assert (Hnc : cont x = false) by (unfold is_ascii in Hx; unfold cont, in_range; lia).
  assert (Hb1 : is_char_boundary (a ++ x :: b) (zlen a) = true).
  { unfold is_char_boundary. rewrite at_app_r, Z.sub_diag, at_cons_0, Hnc by lia.
    rewrite zlen_app, zlen_cons. pose proof (zlen_nonneg a). pose proof (zlen_nonneg b). lia. }
  destruct (boundary_split _ _ Hv Hb1) as [Ha Hxb].
  rewrite ztake_app_exact in Ha by done. rewrite zdrop_app_exact in Hxb by done.
  split; [done|]. apply utf8_valid_inv in Hxb as (cs & Hcs & Hc).
  destruct Hc as [|c cs Hc Hcs']; [done|]. cbn [concat] in Hcs.
  destruct (is_char_lead c Hc) as (y & r & -> & _). injection Hcs as <- ->.
  assert (Hxr := is_char_ascii_in _ x Hc Hx ltac:(set_solver)). injection Hxr as ->.
  by apply utf8_valid_concat.
Qed.
