(* ===== verification/Net.v ===== *)
(** * Internet addresses of Rust's standard library

    [IpAddr] and [SocketAddr] with the parser and the [Display] of [core::net], the ordering the
    sources sort by, and the loopback test.  A parser takes the rest of the input and fails
    without consuming anything. *)

From Stdlib Require Import Strings.Byte.
From S2P Require Import Prelude RustStr.

(** ** Addresses *)

(** The four octets, or the eight 16-bit segments. *)
Inductive IpAddr :=
| V4 (a b c d : byte)
| V6 (segments : list Z).

(** [flowinfo] and [scope_id] are zero for an IPv4 address. *)
Record SocketAddr := mkSocket { ip : IpAddr; port : Z; flowinfo : Z; scope_id : Z }.

#[export] Instance IpAddr_eq_dec : EqDecision IpAddr.
Proof. solve_decision. Defined.
#[export] Instance SocketAddr_eq_dec : EqDecision SocketAddr.
Proof. solve_decision. Defined.

(** [SocketAddr::new]. *)
Definition socket_new (i : IpAddr) (p : Z) : SocketAddr := mkSocket i p 0 0.

Definition LOCALHOST : IpAddr := V4 x7f x00 x00 x01.

Definition is_loopback (i : IpAddr) : bool :=
  match i with
  | V4 a _ _ _ => u8 a =? 127
  | V6 segs => bool_decide (segs = [0; 0; 0; 0; 0; 0; 0; 1])
  end.

(** [Ord] is derived: the variant, then the fields in order. *)
Definition addr_key (s : SocketAddr) : list Z :=
  match ip s with
  | V4 a b c d => [0; u8 a; u8 b; u8 c; u8 d; port s]
  | V6 segs => 1 :: segs ++ [port s; flowinfo s; scope_id s]
  end.

Fixpoint lex_le (a b : list Z) : bool :=
  match a, b with
  | [], _ => true
  | _ :: _, [] => false
  | x :: a', y :: b' => (x <? y) || ((x =? y) && lex_le a' b')
  end.

Definition addr_le (s t : SocketAddr) : bool := lex_le (addr_key s) (addr_key t).

(** ** Display *)

Definition show_ipv4 (a b c d : byte) : bytes :=
  join (B ".") [show (u8 a); show (u8 b); show (u8 c); show (u8 d)].

(** [{:x}] of a 16-bit segment. *)
Fixpoint show_hex_fuel (fuel : nat) (z : Z) : bytes :=
  match fuel with
  | O => []
  | S fuel' => if z <? 16 then [digit_char z]
               else show_hex_fuel fuel' (z `div` 16) ++ [digit_char (z `mod` 16)]
  end.
Definition show_hex (z : Z) : bytes := show_hex_fuel 4 z.

(** The first longest run of zero segments: its start and length. *)
Fixpoint longest_zeros (i cur_start cur_len best_start best_len : Z) (segs : list Z) : Z * Z :=
  match segs with
  | [] => (best_start, best_len)
  | x :: rest =>
      if x =? 0 then
        let cs := if cur_len =? 0 then i else cur_start in
        let cl := cur_len + 1 in
        if best_len <? cl then longest_zeros (i + 1) cs cl cs cl rest
        else longest_zeros (i + 1) cs cl best_start best_len rest
      else longest_zeros (i + 1) 0 0 best_start best_len rest
  end.

Definition show_ipv6 (segs : list Z) : bytes :=
  match segs with
  | [0; 0; 0; 0; 0; 65535; ab; cd] =>
      B "::ffff:" ++ show_ipv4 (byte_of_Z (ab `div` 256)) (byte_of_Z ab)
                               (byte_of_Z (cd `div` 256)) (byte_of_Z cd)
  | _ =>
      let (start, len) := longest_zeros 0 0 0 0 0 segs in
      if 1 <? len then
        join (B ":") (map show_hex (ztake start segs)) ++ B "::"
        ++ join (B ":") (map show_hex (zdrop (start + len) segs))
      else join (B ":") (map show_hex segs)
  end.

Definition show_ip (i : IpAddr) : bytes :=
  match i with V4 a b c d => show_ipv4 a b c d | V6 segs => show_ipv6 segs end.

Definition show_addr (s : SocketAddr) : bytes :=
  match ip s with
  | V4 a b c d => show_ipv4 a b c d ++ B ":" ++ show (port s)
  | V6 segs =>
      B "[" ++ show_ipv6 segs ++ (if scope_id s =? 0 then [] else B "%" ++ show (scope_id s))
      ++ B "]:" ++ show (port s)
  end.

(** ** Parsing *)

Definition parser (A : Type) : Type := bytes -> option (A * bytes).

Definition read_given_char (c : byte) : parser unit := fun s =>
  match s with b :: r => if Byte.eqb b c then Some (tt, r) else None | [] => None end.

(** The digits at the front of the input: their value and number, and the rest.  [None] when
    the value passes [max] or the digits pass [max_digits]. *)
Fixpoint read_digits (radix max : Z) (max_digits : option Z) (acc count : Z) (s : bytes)
    : option (Z * Z * bytes) :=
  match s with
  | [] => Some (acc, count, [])
  | b :: r =>
      match digit_value b with
      | Some d =>
          if d <? radix then
            let acc' := acc * radix + d in
            if (max <? acc') || match max_digits with Some m => m <? count + 1 | None => false end
            then None
            else read_digits radix max max_digits acc' (count + 1) r
          else Some (acc, count, s)
      | None => Some (acc, count, s)
      end
  end.

Definition read_number (radix max : Z) (max_digits : option Z) (allow_zero_prefix : bool)
    : parser Z := fun s =>
  let has_leading_zero := match s with b :: _ => Byte.eqb b x30 | [] => false end in
  '(v, count, r) ← read_digits radix max max_digits 0 0 s;
  if count =? 0 then None
  else if negb allow_zero_prefix && has_leading_zero && (1 <? count) then None
  else Some (v, r).

Definition read_separator {A} (sep : byte) (index : Z) (inner : parser A) : parser A := fun s =>
  if 0 <? index then '(_, r) ← read_given_char sep s; inner r else inner s.

Definition read_octet : parser Z := read_number 10 255 (Some 3) false.

Definition read_ipv4_addr : parser (byte * byte * byte * byte) := fun s =>
  '(a, s) ← read_octet s; '(_, s) ← read_given_char x2e s;
  '(b, s) ← read_octet s; '(_, s) ← read_given_char x2e s;
  '(c, s) ← read_octet s; '(_, s) ← read_given_char x2e s;
  '(d, s) ← read_octet s;
  Some (byte_of_Z a, byte_of_Z b, byte_of_Z c, byte_of_Z d, s).

(** Up to [left] groups from index [i] on: the groups, whether they end in an embedded IPv4
    address, and the rest. *)
Fixpoint read_groups (left : nat) (i : Z) (s : bytes) : list Z * bool * bytes :=
  match left with
  | O => ([], false, s)
  | S left' =>
      let v4 := if (0 <? Z.of_nat left') then read_separator x3a i read_ipv4_addr s else None in
      match v4 with
      | Some (a, b, c, d, r) => ([u8 a * 256 + u8 b; u8 c * 256 + u8 d], true, r)
      | None =>
          match read_separator x3a i (read_number 16 65535 (Some 4) true) s with
          | Some (g, r) => let '(gs, v4, r') := read_groups left' (i + 1) r in (g :: gs, v4, r')
          | None => ([], false, s)
          end
      end
  end.

Definition read_ipv6_addr : parser (list Z) := fun s =>
  let '(head_, head_ipv4, s1) := read_groups 8 0 s in
  if zlen head_ =? 8 then Some (head_, s1)
  else if head_ipv4 : bool then None
  else
    '(_, s2) ← read_given_char x3a s1;
    '(_, s3) ← read_given_char x3a s2;
    let '(tail_, _, s4) := read_groups (Z.to_nat (7 - zlen head_)) 0 s3 in
    Some (head_ ++ replicate (Z.to_nat (8 - zlen head_ - zlen tail_)) 0 ++ tail_, s4).

Definition read_port : parser Z := fun s =>
  '(_, s) ← read_given_char x3a s; read_number 10 u16_max None true s.

Definition read_socket_addr_v4 : parser SocketAddr := fun s =>
  '(a, b, c, d, s) ← read_ipv4_addr s; '(p, s) ← read_port s; Some (socket_new (V4 a b c d) p, s).

Definition read_scope_id : parser Z := fun s =>
  '(_, s) ← read_given_char x25 s; read_number 10 u32_max None true s.

Definition read_socket_addr_v6 : parser SocketAddr := fun s =>
  '(_, s) ← read_given_char x5b s;
  '(segs, s) ← read_ipv6_addr s;
  let '(scope, s) := match read_scope_id s with Some (z, r) => (z, r) | None => (0, s) end in
  '(_, s) ← read_given_char x5d s;
  '(p, s) ← read_port s;
  Some (mkSocket (V6 segs) p 0 scope, s).

(** [s.parse::<SocketAddr>().ok()]: all of the input. *)
Definition parse_socket_addr (s : bytes) : option SocketAddr :=
  match read_socket_addr_v4 s with
  | Some (a, []) => Some a
  | Some (_, _ :: _) => None
  | None => match read_socket_addr_v6 s with Some (a, []) => Some a | _ => None end
  end.

(** ** Reading back what is printed *)

Lemma digit_value_digit b : is_ascii_digit b = true -> digit_value b = Some (u8 b - 48) /\ 0 <= u8 b - 48 < 10.
Proof.
  intros H. unfold digit_value. rewrite H. unfold is_ascii_digit, in_range in H. split; [done|lia].
Qed.

(** Input that does not go on with a digit. *)
Definition no_digit (s : bytes) : Prop :=
  match s with b :: _ => digit_value b = None | [] => True end.

Lemma read_digits_app max md acc count s t v :
  digits s -> parse_digits 10 acc s = Some v -> 0 <= acc -> v <= max -> no_digit t ->
  match md with Some m => count + zlen s <= m | None => True end ->
  read_digits 10 max md acc count (s ++ t) = Some (v, count + zlen s, t).
Proof.
  revert acc count. induction s as [|b s IH]; intros acc count Hd Hp Hacc Hv Ht Hm; simpl in *.
  - simplify_eq. change (zlen []) with 0. replace (count + 0) with count by lia.
    destruct t as [|b t]; [done|]. simpl in *. by rewrite Ht.
  - inversion_clear Hd as [|?? Hb Hs]. destruct (digit_value_digit b Hb) as [Hdv Hr].
    rewrite Hdv in *. replace (u8 b - 48 <? 10) with true in * by lia.
    assert (Hmono : forall acc s v, digits s -> parse_digits 10 acc s = Some v -> 0 <= acc -> acc <= v).
    { clear. intros acc s. revert acc. induction s as [|b s IH]; intros acc v Hd Hp H0; simpl in Hp.
      - simplify_eq. lia.
      - inversion_clear Hd as [|?? Hb Hs]. destruct (digit_value_digit b Hb) as [Hdv Hr].
        rewrite Hdv in Hp. replace (u8 b - 48 <? 10) with true in Hp by lia.
        apply IH in Hp; [lia|done|lia]. }
    pose proof (Hmono _ _ _ Hs Hp ltac:(lia)). rewrite zlen_cons in *.
    pose proof (zlen_nonneg s).
    replace (max <? acc * 10 + (u8 b - 48)) with false by lia.
    replace (match md with Some m => m <? count + 1 | None => false end) with false
      by (destruct md; [lia|done]). simpl.
    rewrite IH; [f_equal; f_equal; f_equal; lia|done|done|lia|done|done|destruct md; [lia|done]].
Qed.

Lemma show_parse_digits z : 0 <= z -> parse_digits 10 0 (show z) = Some z.
Proof. intros Hz. apply (parse_show_fuel _ z). by apply show_fits. Qed.

Lemma read_number_show max md azp z t :
  0 <= z <= max -> no_digit t ->
  match md with Some m => zlen (show z) <= m | None => True end ->
  (azp = false -> zlen (show z) = 1 \/ head (show z) <> Some x30) ->
  read_number 10 max md azp (show z ++ t) = Some (z, t).
Proof.
  intros Hz Ht Hm Hzero. unfold read_number.
  rewrite (read_digits_app max md 0 0 (show z) t z);
    [|by apply show_digits; lia|apply show_parse_digits; lia|lia|lia|done|destruct md; [lia|done]].
  bind_step. rewrite Z.add_0_l. pose proof (show_nonempty z) as Hne. pose proof (zlen_nonneg (show z)).
  destruct (zlen (show z) =? 0) eqn:E0; [apply Z.eqb_eq, zlen_0_inv in E0; done|].
  destruct azp; simpl; [done|]. destruct (Hzero eq_refl) as [->|Hh]; [by rewrite andb_false_r|].
  destruct (show z) as [|b r]; [done|]. simpl in *.
  destruct (byte_eqb_spec b x30) as [->|]; done.
Qed.

Lemma show_octet z : 0 <= z <= 255 ->
  zlen (show z) <= 3 /\ (zlen (show z) = 1 \/ head (show z) <> Some x30).
Proof.
  intros Hz.
  assert (Hall : forallb (fun n => let s := show (Z.of_nat n) in
    (zlen s <=? 3) && ((zlen s =? 1) || negb (bool_decide (head s = Some x30)))) (seq 0 256) = true)
    by (vm_compute; done).
  rewrite forallb_forall in Hall. specialize (Hall (Z.to_nat z)).
  rewrite in_seq, Z2Nat.id in Hall by lia. specialize (Hall ltac:(lia)). cbv zeta in Hall.
  apply andb_prop in Hall as [H1 H2]. apply orb_prop in H2 as [H2|H2];
    [split; [lia|left; lia]|].
  split; [lia|]. right. apply negb_true_iff, bool_decide_eq_false in H2. done.
Qed.

Lemma read_octet_show b t : no_digit t -> read_octet (show (u8 b) ++ t) = Some (u8 b, t).
Proof.
  intros Ht. pose proof (u8_range b). destruct (show_octet (u8 b) ltac:(lia)) as [H3 Hz].
  apply read_number_show; [lia|done|done|done].
Qed.

Lemma show_ipv4_app a b c d t :
  show_ipv4 a b c d ++ t
  = show (u8 a) ++ x2e :: show (u8 b) ++ x2e :: show (u8 c) ++ x2e :: show (u8 d) ++ t.
Proof.
  unfold show_ipv4. cbn [join]. change (B ".") with [x2e].
  by repeat (rewrite <- app_assoc || rewrite <- app_comm_cons || rewrite app_nil_l).
Qed.

Lemma read_ipv4_show a b c d t :
  no_digit t -> read_ipv4_addr (show_ipv4 a b c d ++ t) = Some (a, b, c, d, t).
Proof.
  intros Ht. rewrite show_ipv4_app. unfold read_ipv4_addr.
  rewrite read_octet_show by done. cbn [mbind option_bind read_given_char byte_eqb_refl].
  rewrite byte_eqb_refl. bind_step. rewrite read_octet_show by done.
  cbn [mbind option_bind read_given_char]. rewrite byte_eqb_refl. bind_step.
  rewrite read_octet_show by done. cbn [mbind option_bind read_given_char].
  rewrite byte_eqb_refl. bind_step. rewrite read_octet_show by done.
  bind_step. by rewrite !byte_of_Z_u8.
Qed.

(** An IPv4 socket address is read back from its text. *)
Lemma parse_show_v4 a b c d p :
  0 <= p <= u16_max ->
  parse_socket_addr (show_addr (socket_new (V4 a b c d) p)) = Some (socket_new (V4 a b c d) p).
Proof.
  intros Hp. unfold parse_socket_addr, read_socket_addr_v4, show_addr. simpl ip. simpl port.
  cbv iota. rewrite read_ipv4_show by done. bind_step. unfold read_port.
  change (B ":" ++ show p) with (x3a :: show p). cbn [read_given_char].
  rewrite byte_eqb_refl. bind_step. rewrite <- (app_nil_r (show p)).
  by rewrite read_number_show.
Qed.

(** A string of hexadecimal digits is no socket address. *)
Definition hex_digits (s : bytes) : Prop :=
  Forall (fun b => exists d, digit_value b = Some d /\ d < 16) s.

Lemma read_digits_rest radix max md acc count s v n r :
  read_digits radix max md acc count s = Some (v, n, r) -> exists k, s = k ++ r.
Proof.
  revert acc count. induction s as [|b s IH]; intros acc count; simpl.
  - intros [= <- <- <-]. by exists [].
  - repeat case_match; intros H'; simplify_eq; try (by exists []);
      apply IH in H' as [k ->]; by exists (b :: k).
Qed.

Lemma hex_no_addr s : hex_digits s -> parse_socket_addr s = None.
Proof.
  intros Hs. assert (Hno : forall r c, digit_value c = None -> (exists k, s = k ++ r) ->
    read_given_char c r = None).
  { intros r c Hc [k ->]. apply Forall_app in Hs as [_ Hr]. destruct r as [|b r]; [done|].
    simpl. destruct (byte_eqb_spec b c) as [->|]; [|done].
    inversion_clear Hr as [|?? (d & Hd & _) _]. congruence. }
  unfold parse_socket_addr, read_socket_addr_v4, read_socket_addr_v6, read_ipv4_addr, read_octet, read_number.
  rewrite (Hno s x5b) by (done || by exists []). simpl.
  destruct (read_digits 10 255 (Some 3) 0 0 s) as [[[v n] r]|] eqn:E; simpl; [|done].
  apply read_digits_rest in E. destruct (n =? 0); [done|].
  destruct (match s with b :: _ => Byte.eqb b x30 | [] => false end && (1 <? n)); [done|].
  bind_step. by rewrite (Hno r x2e).
Qed.

(** ** The ordering *)

Lemma map_u8_inj a b : map u8 a = map u8 b -> a = b.
Proof.
  revert b. induction a as [|x a IH]; intros [|y b]; simpl; try done.
  intros [= Hx Hr]. f_equal; [by apply u8_inj|auto].
Qed.

Lemma lex_le_total a b : lex_le a b = true \/ lex_le b a = true.
Proof.
  revert b. induction a as [|x a IH]; intros [|y b]; simpl; auto.
  destruct (IH b) as [->| ->]; destruct (Z.lt_trichotomy x y) as [|[->|]];
    [left|left|right|left|right|right]; lia.
Qed.

Lemma lex_le_trans a b c : lex_le a b = true -> lex_le b c = true -> lex_le a c = true.
Proof.
  revert b c. induction a as [|x a IH]; intros [|y b] [|z c]; simpl; try done.
  intros Hab Hbc. apply orb_true_iff in Hab, Hbc. apply orb_true_iff.
  destruct Hab as [Hab|[Hab Ha]%andb_prop], Hbc as [Hbc|[Hbc Hb]%andb_prop]; [left; lia..|].
  right. rewrite (IH b c Ha Hb). lia.
Qed.

Lemma lex_le_antisym a b : lex_le a b = true -> lex_le b a = true -> a = b.
Proof.
  revert b. induction a as [|x a IH]; intros [|y b]; simpl; try done.
  intros Hab Hba. apply orb_true_iff in Hab, Hba.
  destruct Hab as [Hab|[Hab Ha]%andb_prop], Hba as [Hba|[Hba Hb]%andb_prop]; try lia.
  f_equal; [lia|auto].
Qed.

(** The addresses that exist: an IPv4 one has no flow information and no scope. *)
Definition wf_addr (s : SocketAddr) : Prop :=
  0 <= port s <= u16_max
  /\ match ip s with
     | V4 _ _ _ _ => flowinfo s = 0 /\ scope_id s = 0
     | V6 segs => length segs = 8%nat /\ Forall (fun x => 0 <= x <= 65535) segs
     end.

Lemma addr_key_inj s t : wf_addr s -> wf_addr t -> addr_key s = addr_key t -> s = t.
Proof.
  destruct s as [[a b c d|u] p f z], t as [[a' b' c' d'|u'] p' f' z'];
    unfold wf_addr, addr_key; simpl; intros [_ Hs] [_ Ht] Hk; simplify_eq.
  - apply u8_inj in H, H0, H1, H2. destruct Hs, Ht. by subst.
  - destruct Hs as [Hs _], Ht as [Ht _].
    apply app_inj_1 in Hk as [-> Hk]; [by simplify_eq|]. lia.
Qed.

(** ** The length of a printed address *)

Lemma zlen_show_hex z : zlen (show_hex z) <= 4.
Proof.
  unfold show_hex. assert (Hg : forall n z, zlen (show_hex_fuel n z) <= Z.of_nat n); [|apply (Hg 4%nat)].
  induction n as [|n IH]; intros w; simpl show_hex_fuel; [done|].
  destruct (w <? 16); [unfold zlen; simpl; lia|].
  rewrite zlen_app. specialize (IH (w `div` 16)). change (zlen [digit_char (w `mod` 16)]) with 1. lia.
Qed.

Lemma zlen_join_hex l : zlen (join (B ":") (map show_hex l)) <= 5 * zlen l.
Proof.
  induction l as [|x l IH]; [done|]. destruct l as [|y l].
  - simpl. pose proof (zlen_show_hex x). unfold zlen in *. simpl in *. lia.
  - change (join (B ":") (map show_hex (x :: y :: l)))
      with (show_hex x ++ B ":" ++ join (B ":") (map show_hex (y :: l))).
    rewrite !zlen_app, (zlen_cons x). change (zlen (B ":")) with 1.
    pose proof (zlen_show_hex x). lia.
Qed.

Lemma zlen_show_ipv4 a b c d : zlen (show_ipv4 a b c d) <= 15.
Proof.
  pose proof (u8_range a). pose proof (u8_range b). pose proof (u8_range c). pose proof (u8_range d).
  destruct (show_octet (u8 a)) as [? _]; [lia|]. destruct (show_octet (u8 b)) as [? _]; [lia|].
  destruct (show_octet (u8 c)) as [? _]; [lia|]. destruct (show_octet (u8 d)) as [? _]; [lia|].
  rewrite <- (app_nil_r (show_ipv4 a b c d)), show_ipv4_app.
  repeat (rewrite zlen_app || rewrite zlen_cons). change (zlen []) with 0. lia.
Qed.

Lemma zlen_show_ip s : wf_addr s -> zlen (show_ip (ip s)) <= 42.
Proof.
  intros [_ Hs]. destruct (ip s) as [a b c d|segs]; unfold show_ip.
  - pose proof (zlen_show_ipv4 a b c d). lia.
  - destruct Hs as [Hl _]. unfold show_ipv6.
    assert (Hgen : zlen (let (start, len) := longest_zeros 0 0 0 0 0 segs in
      if 1 <? len then join (B ":") (map show_hex (ztake start segs)) ++ B "::"
        ++ join (B ":") (map show_hex (zdrop (start + len) segs))
      else join (B ":") (map show_hex segs)) <= 42).
    { destruct (longest_zeros 0 0 0 0 0 segs) as [start len]. destruct (1 <? len) eqn:E.
      - rewrite !zlen_app. change (zlen (B "::")) with 2.
        pose proof (zlen_join_hex (ztake start segs)). pose proof (zlen_join_hex (zdrop (start + len) segs)).
        assert (zlen (ztake start segs) + zlen (zdrop (start + len) segs) <= 8); [|lia].
        unfold ztake, zdrop, zlen. rewrite length_take, length_drop. lia.
      - pose proof (zlen_join_hex segs). unfold zlen in *. lia. }
    assert (Hv4 : forall a b c d, zlen (B "::ffff:" ++ show_ipv4 a b c d) <= 42).
    { intros. rewrite zlen_app. change (zlen (B "::ffff:")) with 7.
      pose proof (zlen_show_ipv4 a b c d). lia. }
    repeat case_match; try exact Hgen; apply Hv4.
Qed.

(** A printed address is printable. *)
Lemma show_hex_graphic z : 0 <= z <= 65535 -> graphic (show_hex z).
Proof.
  unfold show_hex. assert (Hg : forall n z, 0 <= z -> graphic (show_hex_fuel n z)); [|intros; apply Hg; lia].
  induction n as [|n IH]; intros w Hw; simpl; [constructor|].
  assert (Hd : forall d, 0 <= d < 16 -> is_ascii_graphic (digit_char d) = true).
  { intros d Hd. apply graphic_range. unfold digit_char. destruct (d <? 10) eqn:E;
      rewrite u8_byte_of_Z, Z.mod_small; lia. }
  destruct (w <? 16) eqn:E; [by constructor; [apply Hd; lia|constructor]|].
  apply graphic_app. split; [apply IH, Z.div_pos; lia|].
  constructor; [apply Hd, Z.mod_pos_bound; lia|constructor].
Qed.
