(* ===== verification/F64.v ===== *)
(** * Rust's [f64]

    Binary64 arithmetic on the Standard Library's [spec_float]: round to nearest, ties to even,
    53 bits of precision.  Besides the operations, the conversions the sources use: integers
    [as f64], saturating casts back, [round], fixed-precision [Display] and [FromStr]. *)

From Stdlib Require Import Strings.Byte Floats.SpecFloat.
From S2P Require Import Prelude RustStr.

Abbreviation f64 := spec_float.

#[export] Instance f64_eq_dec : EqDecision f64.
Proof. solve_decision. Defined.

(** ** Arithmetic *)

Definition fadd (x y : f64) : f64 := SFadd 53 1024 x y.
Definition fsub (x y : f64) : f64 := SFsub 53 1024 x y.
Definition fmul (x y : f64) : f64 := SFmul 53 1024 x y.
Definition fdiv (x y : f64) : f64 := SFdiv 53 1024 x y.
Definition flt (x y : f64) : bool := SFltb x y.
Definition fle (x y : f64) : bool := SFleb x y.
Definition fgt (x y : f64) : bool := SFltb y x.

(** [n as f64]. *)
Definition of_Z (z : Z) : f64 := binary_normalize 53 1024 z 0 false.

Definition fzero : f64 := S754_zero false.

(** A decimal literal [n / d] with both small enough to be exact, so that one division rounds
    it correctly. *)
Definition lit (n d : Z) : f64 := fdiv (of_Z n) (of_Z d).

(** The nearest [f64] of [n / d], with the sign apart: enough quotient bits and a sticky bit
    are kept that the final rounding is that of the exact value. *)
Definition of_ratio (neg : bool) (n d : Z) : f64 :=
  if n =? 0 then S754_zero neg
  else
    let s := Z.max 0 (56 + Z.log2 d - Z.log2 n) in
    let q := (n * 2 ^ s) `div` d in
    let sticky := if (n * 2 ^ s) `mod` d =? 0 then 0 else 1 in
    match 2 * q + sticky with
    | Zpos m => binary_round 53 1024 neg m (- s - 1)
    | _ => S754_zero neg
    end.

(** ** Casts *)

(** [x.round()], halves away from zero. *)
Definition fround (x : f64) : f64 :=
  match x with
  | S754_finite s m e =>
      if 0 <=? e then x
      else
        let d := 2 ^ (- e) in
        match (2 * Zpos m + d) `div` (2 * d) with
        | Zpos q => binary_round 53 1024 s q 0
        | _ => S754_zero s
        end
  | _ => x
  end.

(** [x as uN]: truncated, saturating, zero for NaN. *)
Definition to_uint (max : Z) (x : f64) : Z :=
  match x with
  | S754_finite true _ _ | S754_zero _ | S754_nan | S754_infinity true => 0
  | S754_infinity false => max
  | S754_finite false m e =>
      Z.min max (if 0 <=? e then Zpos m * 2 ^ e else Zpos m `div` 2 ^ (- e))
  end.

(** ** Text *)

(** [{:.k}]: the exact value rounded to [k] decimals, ties to even. *)
Definition scaled (k : Z) (m e : Z) : Z :=
  if 0 <=? e then m * 2 ^ e * 10 ^ k
  else
    let d := 2 ^ (- e) in
    let n := m * 10 ^ k in
    let q := n `div` d in
    let r := 2 * (n `mod` d) in
    if (d <? r) || ((r =? d) && Z.odd q) then q + 1 else q.

Definition pad_zeros (width : Z) (s : bytes) : bytes :=
  replicate (Z.to_nat (width - zlen s)) x30 ++ s.

Definition show_scaled (neg : bool) (k n : Z) : bytes :=
  (if neg then B "-" else []) ++ show (n `div` 10 ^ k)
  ++ (if k =? 0 then [] else B "." ++ pad_zeros k (show (n `mod` 10 ^ k))).

Definition fmt_fixed (k : Z) (x : f64) : bytes :=
  match x with
  | S754_nan => B "NaN"
  | S754_infinity s => (if s then B "-" else []) ++ B "inf"
  | S754_zero s => show_scaled s k 0
  | S754_finite s m e => show_scaled s k (scaled k (Zpos m) e)
  end.

Definition take_digits (s : bytes) : bytes * bytes :=
  match position (fun b => negb (is_ascii_digit b)) s with
  | Some i => (ztake i s, zdrop i s)
  | None => (s, [])
  end.

Definition digits_value (s : bytes) : Z := default 0 (parse_digits 10 0 s).

(** The exponent part: [None] when it is malformed. *)
Definition parse_exponent (s : bytes) : option Z :=
  match s with
  | [] => Some 0
  | b :: r =>
      if Byte.eqb (to_ascii_lowercase_byte b) x65 then
        let '(neg, r) := match r with
                         | c :: r' => if Byte.eqb c x2d then (true, r')
                                      else if Byte.eqb c x2b then (false, r') else (false, r)
                         | [] => (false, [])
                         end in
        match take_digits r with
        | ((_ :: _) as ds, []) => Some (if neg : bool then - digits_value ds else digits_value ds)
        | _ => None
        end
      else None
  end.

(** [s.parse::<f64>().ok()]. *)
Definition parse_f64 (s : bytes) : option f64 :=
  let '(neg, body) := match s with
                      | b :: r => if Byte.eqb b x2d then (true, r)
                                  else if Byte.eqb b x2b then (false, r) else (false, s)
                      | [] => (false, [])
                      end in
  let lower := to_ascii_lowercase body in
  if bool_decide (lower = B "nan") then Some S754_nan
  else if bool_decide (lower = B "inf") || bool_decide (lower = B "infinity") then
    Some (S754_infinity neg)
  else
    let (int_part, r) := take_digits body in
    let '(frac_part, r) := match r with
                           | b :: r' => if Byte.eqb b x2e then take_digits r' else ([], r)
                           | [] => ([], [])
                           end in
    match int_part ++ frac_part with
    | [] => None
    | ds =>
        e ← parse_exponent r;
        let k := e - zlen frac_part in
        Some (if 0 <=? k then of_ratio neg (digits_value ds * 10 ^ k) 1
              else of_ratio neg (digits_value ds) (10 ^ (- k)))
    end.

(** ** Printed numbers are printable *)

Lemma scaled_nonneg k m e : 0 <= m -> 0 <= k -> 0 <= scaled k m e.
Proof.
  intros Hm Hk. unfold scaled. pose proof (Z.pow_nonneg 10 k ltac:(lia)).
  assert (forall x, 0 <= 2 ^ x) by (intros; apply Z.pow_nonneg; lia).
  destruct (0 <=? e).
  - apply Z.mul_nonneg_nonneg; [apply Z.mul_nonneg_nonneg|]; auto.
  - assert (0 <= (m * 10 ^ k) `div` 2 ^ (- e)).
    { destruct (decide (2 ^ (- e) = 0)) as [->|]; [by rewrite Z.div_0_r|].
      apply Z.div_pos; [apply Z.mul_nonneg_nonneg; lia|]. specialize (H0 (- e)). lia. }
    destruct (_ || _); lia.
Qed.

Lemma pad_zeros_graphic w s : graphic s -> graphic (pad_zeros w s).
Proof. intros Hs. unfold pad_zeros. apply graphic_app. split; [|done]. by apply Forall_replicate. Qed.

Lemma show_scaled_graphic neg k n : 0 <= n -> 0 <= k -> graphic (show_scaled neg k n) /\ show_scaled neg k n <> [].
Proof.
  intros Hn Hk. unfold show_scaled. pose proof (Z.pow_pos_nonneg 10 k ltac:(lia) Hk).
  assert (Hq : 0 <= n `div` 10 ^ k) by (apply Z.div_pos; lia).
  pose proof (Z.mod_pos_bound n (10 ^ k) ltac:(lia)). split.
  - rewrite !graphic_app. split_and!; [by destruct neg; repeat constructor|by apply digits_graphic, show_digits|].
    destruct (k =? 0); [constructor|]. apply graphic_app. split; [by repeat constructor|].
    apply pad_zeros_graphic, digits_graphic, show_digits. lia.
  - intros [_ [Hs _]%app_nil]%app_nil. by apply show_nonempty in Hs.
Qed.

Lemma fmt_fixed_graphic k x : 0 <= k -> graphic (fmt_fixed k x) /\ fmt_fixed k x <> [].
Proof.
  intros Hk. destruct x as [s|s| |s m e]; simpl.
  - by apply show_scaled_graphic.
  - split; [destruct s; by repeat constructor|by destruct s].
  - split; [by repeat constructor|done].
  - apply show_scaled_graphic; [|done]. by apply scaled_nonneg.
Qed.

(** ** Checks *)

Example parse_f64_literal : parse_f64 (B "0.85") = Some (lit 85 100).
Proof. vm_compute. reflexivity. Qed.
Example fmt_fixed_examples :
  fmt_fixed 4 (lit 75 100) = B "0.7500" /\ fmt_fixed 1 (lit 25 100) = B "0.2"
  /\ fmt_fixed 1 (lit 35 100) = B "0.3" /\ fmt_fixed 0 (lit 5 2) = B "2"
  /\ fmt_fixed 4 (lit 1234567 100) = B "12345.6700".
Proof. vm_compute. split_and!; reflexivity. Qed.
Example parse_f64_examples :
  parse_f64 (B "1e3") = Some (of_Z 1000) /\ parse_f64 (B "-.5") = Some (SFopp (lit 1 2))
  /\ parse_f64 (B "1.2.3") = None /\ parse_f64 (B ".") = None
  /\ parse_f64 (B "Infinity") = Some (S754_infinity false).
Proof. vm_compute. split_and!; reflexivity. Qed.
Example fround_examples :
  fround (lit 5 2) = of_Z 3 /\ fround (lit 24 10) = of_Z 2 /\ to_uint 255 (of_Z 300) = 255.
Proof. vm_compute. split_and!; reflexivity. Qed.
