(* ===== verification/Codec.v ===== *)
(** * The wire codec (crates/prod-code-protocol/src/codec)

    [ProdCodeCodec] frames [WireMessage]s as a 4-byte big-endian length, that many bytes of JSON
    and an optional NUL completion marker, and recognises plain HTTP probes on the same port.
    The decoder does not know whether its peer writes the marker and finds out from the stream.

    JSON itself (serde_json) is a parameter: the class [WireSerde] has the two functions the
    codec calls, and [WireSerdeLaws] what it relies on. *)

From Stdlib Require Import Strings.Byte.
From S2P Require Import Prelude RustStr.

(** ** Messages *)

(** [WireMessage]: the codec itself looks at the two HTTP variants only; every other variant
    is [Structured] over a type [M] of payloads. *)
Inductive WireMessage (M : Type) : Type :=
| HttpProbe (method path : bytes)
| HttpResponse (status : Z) (content_type body : bytes)
| Structured (m : M).
Arguments HttpProbe {M} method path.
Arguments HttpResponse {M} status content_type body.
Arguments Structured {M} m.

(** serde_json as the codec uses it: [from_slice] parses a message, [to_writer] hands the
    writer a sequence of chunks and then succeeds or fails. *)
Class WireSerde (M : Type) := {
  from_slice : bytes -> option (WireMessage M);
  to_writer : WireMessage M -> list bytes * bool
}.

(** ** Codec state *)

Definition MAX_FRAME_SIZE : Z := 256 * 1024 * 1024.

Record ProdCodeCodec := mkCodec {
  nul_marker : bool;
  detected_nul_marker : bool;
  pending_trailing_nul : bool
}.

Definition new : ProdCodeCodec := mkCodec false false false.

Definition with_nul_marker (c : ProdCodeCodec) (enabled : bool) : ProdCodeCodec :=
  mkCodec enabled enabled false.

Definition has_nul_marker (c : ProdCodeCodec) : bool := nul_marker c || detected_nul_marker c.

Definition set_pending (c : ProdCodeCodec) (p : bool) : ProdCodeCodec :=
  mkCodec (nul_marker c) (detected_nul_marker c) p.
Definition set_detected (c : ProdCodeCodec) (d : bool) : ProdCodeCodec :=
  mkCodec (nul_marker c) d false.

(** The [io::Error]s of the codec, by their message. *)
Inductive codec_error :=
| HttpHeadersTooLong
| FrameTooLarge (frame_len : Z)
| MissingNulMarker
| ParseFailed
| SerializeFailed
| MessageTooLarge (frame_len : Z)
| UnexpectedEof (unparsed : Z).

Section codec.
Context {M : Type} `{!WireSerde M}.

(** ** Encoder *)

(** [BoundedWriter]: the inner buffer, the bytes written and the limit. *)
Record BoundedWriter := mkWriter { inner : bytes; written : Z; limit : Z }.

(** [BoundedWriter::write] into a growable buffer, which takes the whole chunk. *)
Definition bounded_write (w : BoundedWriter) (buf : bytes) : result BoundedWriter unit :=
  if limit w <? Z.min usize_max (written w + zlen buf) then Err tt
  else Ok (mkWriter (inner w ++ buf) (written w + zlen buf) (limit w)).

(** [serde_json::to_writer]: every chunk in turn, stopping at the first refused write; the
    buffer keeps what was written before a failure. *)
Fixpoint write_chunks (w : BoundedWriter) (chunks : list bytes) : BoundedWriter * bool :=
  match chunks with
  | [] => (w, true)
  | chunk :: rest =>
      match bounded_write w chunk with
      | Ok w' => write_chunks w' rest
      | Err _ => (w, false)
      end
  end.

Definition http_status_text (status : Z) : bytes :=
  if status =? 200 then B "OK"
  else if status =? 400 then B "Bad Request"
  else if status =? 404 then B "Not Found"
  else if status =? 426 then B "Upgrade Required"
  else B "OK".

Definition crlf : bytes := [x0d; x0a].

Definition http_response_text (status : Z) (content_type body : bytes) : bytes :=
  B "HTTP/1.1 " ++ show status ++ B " " ++ http_status_text status ++ crlf
  ++ B "Content-Type: " ++ content_type ++ crlf
  ++ B "Content-Length: " ++ show (zlen body) ++ crlf
  ++ B "Connection: close" ++ crlf
  ++ crlf
  ++ body.

(** [dst[header_offset..header_offset + 4].copy_from_slice(len)]. *)
Definition patch_length (dst : bytes) (header_offset frame_len : Z) : bytes :=
  ztake header_offset dst ++ to_be_bytes 4 frame_len ++ zdrop (header_offset + 4) dst.

Definition encode_ref_bounded (c : ProdCodeCodec) (item : WireMessage M) (dst : bytes)
    (max_frame_size : Z) : bytes * result unit codec_error :=
  match item with
  | HttpResponse status content_type body =>
      (dst ++ http_response_text status content_type body, Ok tt)
  | _ =>
      let header_offset := zlen dst in
      let dst1 := dst ++ to_be_bytes 4 0 in
      let (chunks, serializer_ok) := to_writer item in
      let (w, all_written) := write_chunks (mkWriter dst1 0 max_frame_size) chunks in
      let dst2 := inner w in
      if negb (all_written && serializer_ok) then (ztake header_offset dst2, Err SerializeFailed)
      else
        let frame_len := zlen dst2 - header_offset - 4 in
        if max_frame_size <? frame_len then
          (ztake header_offset dst2, Err (MessageTooLarge frame_len))
        else
          let dst3 := patch_length dst2 header_offset frame_len in
          (if nul_marker c then dst3 ++ [x00] else dst3, Ok tt)
  end.

Definition encode_ref (c : ProdCodeCodec) (item : WireMessage M) (dst : bytes)
    : bytes * result unit codec_error :=
  encode_ref_bounded c item dst MAX_FRAME_SIZE.

(** [Encoder::encode]. *)
Definition encode (c : ProdCodeCodec) (item : WireMessage M) (dst : bytes)
    : bytes * result unit codec_error := encode_ref c item dst.

(** ** Decoder *)

Definition is_rfc_token_byte (b : byte) : bool :=
  is_ascii_alphanumeric b
  || bool_decide (b ∈ B "!#$%&'*+-.^_`|~").

(** [serde_json::from_slice::<WireMessage>(s).is_ok()]. *)
Definition parses (s : bytes) : bool :=
  match from_slice s with Some _ => true | None => false end.

(** The first part of [decode]: what the byte after a frame already returned was.  [None] is
    the early [return Ok(None)]: more data is needed to tell. *)
Definition resolve_pending (c : ProdCodeCodec) (src : bytes) : option (ProdCodeCodec * bytes) :=
  if negb (pending_trailing_nul c) then Some (c, src)
  else match src with
       | [] => None
       | first :: _ =>
           if negb (u8 first =? 0) then Some (set_pending c false, src)
           else if zlen src <? 5 then None
           else
             let len_a := from_be_bytes [at_ src 1; at_ src 2; at_ src 3; at_ src 4] in
             let len_b := from_be_bytes [at_ src 0; at_ src 1; at_ src 2; at_ src 3] in
             if len_b <? 2 then Some (set_detected c true, zdrop 1 src)
             else if MAX_FRAME_SIZE <? len_a then Some (set_pending c false, src)
             else
               let hyp_a_valid :=
                 if 5 + len_a <=? zlen src then Some (parses (slice 5 (5 + len_a) src)) else None in
               let hyp_b_valid :=
                 if 4 + len_b <=? zlen src then Some (parses (slice 4 (4 + len_b) src)) else None in
               match hyp_a_valid, hyp_b_valid with
               | Some true, _ => Some (set_detected c true, zdrop 1 src)
               | _, Some true => Some (set_pending c false, src)
               | Some false, Some false => Some (set_pending c false, src)
               | Some false, None => Some (set_pending c false, src)
               | None, Some false => Some (set_detected c true, zdrop 1 src)
               | None, None => None
               end
       end.

(** Bytes an HTTP request target may hold. *)
Definition is_target_byte (b : byte) : bool := (0x20 <? u8 b) && (u8 b <? 0x7F).

(** The HTTP test of [decode]. *)
Definition is_http (src : bytes) : bool :=
  if starts_with (B "HTTP/") src then true
  else match position (fun b => u8 b =? 32) src with
       | Some first_space =>
           if (1 <=? first_space) && (first_space <=? 64)
              && forallb is_rfc_token_byte (ztake first_space src)
           then
             let rest := zdrop (first_space + 1) src in
             match rest with
             | [] => true
             | _ =>
                 match position (fun b => u8 b =? 32) rest with
                 | Some second_space =>
                     let target := ztake second_space rest in
                     let after_second := zdrop (second_space + 1) rest in
                     negb (bool_decide (target = []))
                     && forallb is_target_byte target
                     && (bool_decide (after_second = [])
                         || starts_with (B "HTTP/") after_second
                         || starts_with (ztake (Z.min (zlen after_second) 5) after_second)
                              (B "HTTP/"))
                 | None =>
                     match find_sub crlf rest with
                     | Some line_end =>
                         let target := ztake line_end rest in
                         negb (bool_decide (target = [])) && forallb is_target_byte target
                     | None =>
                         match position (fun b => u8 b =? 10) rest with
                         | Some line_end =>
                             let target := ztake line_end rest in
                             negb (bool_decide (target = [])) && forallb is_target_byte target
                         | None => forallb is_target_byte rest
                         end
                     end
                 end
             end
           else false
       | None => (zlen src <=? 64) && forallb is_rfc_token_byte src
       end.

(** Where the HTTP header block ends. *)
Definition header_end (src : bytes) : option Z :=
  match find_sub (crlf ++ crlf) src with
  | Some p => Some (p + 4)
  | None => (fun p => p + 2) <$> find_sub [x0a; x0a] src
  end.

Definition decode_result : Type :=
  ProdCodeCodec * bytes * result (option (WireMessage M)) codec_error.

(** The HTTP branch of [decode]. *)
Definition decode_http (c : ProdCodeCodec) (src : bytes) : decode_result :=
  match header_end src with
  | Some end_ =>
      let req_str := utf8_lossy (ztake end_ src) in
      let first_line := default [] (head (lines req_str)) in
      let parts := split_whitespace first_line in
      let method := default (B "GET") (head parts) in
      let path := default (B "/") (head (tail parts)) in
      (c, zdrop end_ src, Ok (Some (HttpProbe method path)))
  | None =>
      if 8192 <? zlen src then (c, src, Err HttpHeadersTooLong) else (c, src, Ok None)
  end.

(** [frame_data] without one trailing NUL, then parsed. *)
Definition parse_frame (frame_data : bytes) : result (option (WireMessage M)) codec_error :=
  let frame_data := default frame_data (strip_suffix [x00] frame_data) in
  match from_slice frame_data with
  | Some m => Ok (Some m)
  | None => Err ParseFailed
  end.

(** A frame from a peer known to write the completion marker. *)
Definition decode_marked (c : ProdCodeCodec) (src : bytes) (frame_len : Z) : decode_result :=
  if zlen src <? 4 + frame_len + 1 then (c, src, Ok None)
  else
    let src1 := zdrop 4 src in
    let frame_data := ztake frame_len src1 in
    let src2 := zdrop frame_len src1 in
    match src2 with
    | b :: src3 => if u8 b =? 0 then (c, src3, parse_frame frame_data)
                   else (c, src2, Err MissingNulMarker)
    | [] => (c, src2, Err MissingNulMarker)
    end.

(** The length test and parse of one hypothesis about the next frame: [off] bytes of header
    before a payload of [len] bytes. *)
Definition frame_hypothesis (src : bytes) (off len : Z) : option bool :=
  if negb ((2 <=? len) && (len <=? MAX_FRAME_SIZE)) then Some false
  else if off + len <=? zlen src then Some (parses (slice off (off + len) src))
  else None.

(** What follows a frame taken without a marker: the marker of the peer, the next frame, or
    not known yet. *)
Definition settle_trailing (c : ProdCodeCodec) (src : bytes) : ProdCodeCodec * bytes :=
  match src with
  | [] => (set_pending c true, src)
  | b :: _ =>
      if negb (u8 b =? 0) then (set_pending c false, src)
      else if 5 <=? zlen src then
        let hyp_a_valid :=
          frame_hypothesis src 4 (from_be_bytes [at_ src 0; at_ src 1; at_ src 2; at_ src 3]) in
        let hyp_b_valid :=
          frame_hypothesis src 5 (from_be_bytes [at_ src 1; at_ src 2; at_ src 3; at_ src 4]) in
        match hyp_a_valid, hyp_b_valid with
        | _, Some true | Some false, None => (set_detected c true, zdrop 1 src)
        | Some true, _ | None, Some false => (set_detected c false, src)
        | _, _ => (set_pending c true, src)
        end
      else (set_pending c true, src)
  end.

(** A frame from a peer not known to write the marker. *)
Definition decode_unmarked (c : ProdCodeCodec) (src : bytes) (frame_len : Z) : decode_result :=
  if zlen src <? 4 + frame_len then (c, src, Ok None)
  else
    let src1 := zdrop 4 src in
    let frame_data := ztake frame_len src1 in
    let (c', src') := settle_trailing c (zdrop frame_len src1) in
    (c', src', parse_frame frame_data).

(** [decode] once the byte after the previous frame is accounted for. *)
Definition decode_resolved (c : ProdCodeCodec) (src : bytes) : decode_result :=
  if zlen src <? 4 then (c, src, Ok None)
  else if is_http src then decode_http c src
  else
    let frame_len := from_be_bytes (ztake 4 src) in
    if MAX_FRAME_SIZE <? frame_len then (c, src, Err (FrameTooLarge frame_len))
    else if has_nul_marker c then decode_marked c src frame_len
    else decode_unmarked c src frame_len.

(** [Decoder::decode]. *)
Definition decode (c0 : ProdCodeCodec) (src0 : bytes) : decode_result :=
  match resolve_pending c0 src0 with
  | None => (c0, src0, Ok None)
  | Some (c, src) => decode_resolved c src
  end.

(** The end of [decode_eof]: leftover bytes are an error. *)
Definition eof_leftover (c : ProdCodeCodec) (src : bytes) : decode_result :=
  match src with
  | [] => (c, [], Ok None)
  | _ => (c, src, Err (UnexpectedEof (zlen src)))
  end.

(** [Decoder::decode_eof]. *)
Definition decode_eof (c0 : ProdCodeCodec) (src0 : bytes) : decode_result :=
  match decode c0 src0 with
  | (c, src, Err e) => (c, src, Err e)
  | (c, src, Ok (Some frame)) => (c, src, Ok (Some frame))
  | (c, src, Ok None) =>
      if pending_trailing_nul c && (zlen src =? 1) && (u8 (at_ src 0) =? 0) then
        eof_leftover (set_pending c false) (zdrop 1 src)
      else if negb (nul_marker c) && negb (detected_nul_marker c) && (4 <=? zlen src) then
        let frame_len := from_be_bytes (ztake 4 src) in
        if (frame_len <=? MAX_FRAME_SIZE) && (zlen src =? 4 + frame_len + 1)
           && (u8 (at_ src (4 + frame_len)) =? 0)
        then
          let frame_data := ztake frame_len (zdrop 4 src) in
          (c, zdrop 1 (zdrop frame_len (zdrop 4 src)), parse_frame frame_data)
        else eof_leftover c src
      else eof_leftover c src
  end.

End codec.

(** ** What the codec relies on in serde_json *)

(** [text m] is the JSON of a message.  It is an object (the adjacently tagged enum), written
    without white space, so it opens with a brace and a quote and closes with a brace; parsing
    it gives the message back; a JSON text that starts with a quote is a string and never a
    message; and a text cut short is never a message, whatever byte is put before it. *)
Class WireSerdeLaws (M : Type) `{!WireSerde M} := {
  text : M -> bytes;
  to_writer_text m :
    exists chunks, to_writer (Structured m) = (chunks, true) /\ concat chunks = text m;
  from_slice_text m : from_slice (text m) = Some (Structured m);
  text_open m : exists t, text m = x7b :: x22 :: t;
  text_close m : exists t, text m = t ++ [x7d];
  from_slice_quote s : from_slice (x22 :: s) = None;
  from_slice_cut m w p q :
    text m = p ++ q -> p <> [] -> q <> [] -> from_slice (w :: p) = None
}.

Section stream.
Context {M : Type} `{!WireSerde M} `{!WireSerdeLaws M}.

(** The frame of a message, without and with the completion marker. *)
Definition frame (m : M) : bytes := to_be_bytes 4 (zlen (text m)) ++ text m.
Definition frames (ms : list M) : bytes := concat (map frame ms).
Definition marked_frames (ms : list M) : bytes := concat (map (fun m => frame m ++ [x00]) ms).

Definition fits (m : M) : Prop := zlen (text m) <= MAX_FRAME_SIZE.

(** A reader over the decoder, as the framed transport drives it: every chunk is appended to
    the buffer, then messages are taken until the decoder asks for more. *)
Fixpoint drain (fuel : nat) (c : ProdCodeCodec) (src : bytes)
    : ProdCodeCodec * bytes * list (WireMessage M) * option codec_error :=
  match fuel with
  | O => (c, src, [], None)
  | S fuel' =>
      match decode c src with
      | (c', src', Ok (Some m)) =>
          let '(c'', src'', ms, e) := drain fuel' c' src' in (c'', src'', m :: ms, e)
      | (c', src', Ok None) => (c', src', [], None)
      | (c', src', Err e) => (c', src', [], Some e)
      end
  end.

Fixpoint feed (c : ProdCodeCodec) (src : bytes) (chunks : list bytes)
    : ProdCodeCodec * bytes * list (WireMessage M) * option codec_error :=
  match chunks with
  | [] => (c, src, [], None)
  | k :: ks =>
      match drain (S (length (src ++ k))) c (src ++ k) with
      | (c', src', ms, None) =>
          let '(c'', src'', ms', e) := feed c' src' ks in (c'', src'', ms ++ ms', e)
      | (c', src', ms, Some e) => (c', src', ms, Some e)
      end
  end.

(** *** Layout of one frame *)

Lemma zlen_text m : 3 <= zlen (text m).
Proof.
  destruct (text_open m) as [t Ht]. destruct (text_close m) as [u Hu].
  rewrite Ht. rewrite !zlen_cons. pose proof (zlen_nonneg t).
  destruct t; [|rewrite zlen_cons in *; pose proof (zlen_nonneg t); lia].
  rewrite Ht in Hu. destruct u as [|? [|? [|]]]; simplify_eq.
Qed.

Lemma zlen_frame m : zlen (frame m) = 4 + zlen (text m).
Proof. unfold frame. rewrite zlen_app, zlen_to_be_bytes. lia. Qed.

(** The four length bytes of a frame that fits. *)
Lemma frame_bytes m : fits m ->
  exists l0 l1 l2 l3 t,
    frame m = [l0; l1; l2; l3] ++ text m /\ text m = x7b :: x22 :: t
    /\ from_be_bytes [l0; l1; l2; l3] = zlen (text m) /\ u8 l0 <= 0x10.
Proof.
  unfold fits, MAX_FRAME_SIZE. intros Hf. destruct (text_open m) as [t Ht].
  pose proof (from_to_be_bytes_small 4 (zlen (text m))) as Hr.
  pose proof (length_to_be_bytes 4 (zlen (text m))) as Hl.
  pose proof (zlen_nonneg (text m)).
  unfold frame. destruct (to_be_bytes 4 (zlen (text m))) as [|l0 [|l1 [|l2 [|l3 [|]]]]]; try done.
  exists l0, l1, l2, l3, t. rewrite Hr by (simpl; lia). split_and!; try done.
  specialize (Hr ltac:(simpl; lia)). cbn in Hr.
  pose proof (u8_range l1). pose proof (u8_range l2). pose proof (u8_range l3).
  pose proof (u8_range l0). lia.
Qed.

(** No frame that fits is taken for HTTP: its first byte is at most [0x10]. *)
Lemma low_byte_not_token b : u8 b <= 0x10 -> is_rfc_token_byte b = false.
Proof. intros H. destruct b; try reflexivity; exfalso; vm_compute in H; apply H; reflexivity. Qed.

Lemma low_byte_not_http b src : u8 b <= 0x10 -> is_http (b :: src) = false.
Proof.
  intros Hb. pose proof (low_byte_not_token b Hb) as Ht. unfold is_http.
  assert (Hs : starts_with (B "HTTP/") (b :: src) = false).
  { destruct b; try reflexivity. by vm_compute in Hb. }
  rewrite Hs. simpl. destruct (u8 b =? 32) eqn:E; [lia|].
  destruct (position _ src) as [i|] eqn:Ei; simpl.
  - destruct (1 <=? Z.succ i) eqn:E1; simpl; [|done].
    destruct (Z.succ i <=? 64); simpl; [|done].
    unfold ztake. destruct (Z.to_nat (Z.succ i)) eqn:E2; [apply Z.leb_le in E1; lia|]. simpl. by rewrite Ht.
  - rewrite Ht. simpl. by rewrite andb_false_r.
Qed.

(** *** One frame at the start of the buffer *)

Lemma parse_frame_text m : parse_frame (text m) = Ok (Some (Structured m)).
Proof.
  unfold parse_frame. destruct (text_close m) as [t Ht].
  assert (strip_suffix [x00] (text m) = None) as ->.
  { apply strip_suffix_None. intros r Hr. rewrite Ht in Hr. by apply app_inj_tail in Hr as [_ ?]. }
  simpl. by rewrite from_slice_text.
Qed.

(** What [decode_resolved] sees of a buffer whose stream starts with a frame. *)
Lemma frame_header m src fut rest :
  fits m -> src ++ fut = frame m ++ rest -> 4 <= zlen src ->
  is_http src = false /\ from_be_bytes (ztake 4 src) = zlen (text m).
Proof.
  intros Hf HS H4. destruct (frame_bytes m Hf) as (l0 & l1 & l2 & l3 & t & Hfr & _ & Hlen & Hl0).
  rewrite (ztake_prefix src fut _ 4 eq_refl) by lia. rewrite HS, Hfr. split; [|done].
  destruct src as [|b src]; [rewrite zlen_nil in H4; lia|].
  rewrite Hfr in HS. simplify_eq/=. by apply low_byte_not_http.
Qed.

Lemma decode_resolved_short c m src fut rest :
  fits m -> src ++ fut = frame m ++ rest ->
  zlen src < zlen (frame m) + (if has_nul_marker c then 1 else 0) ->
  decode_resolved c src = (c, src, Ok None).
Proof.
  intros Hf HS Hlt. rewrite zlen_frame in Hlt. unfold decode_resolved.
  destruct (zlen src <? 4) eqn:E4; [done|].
  destruct (frame_header m src fut rest Hf HS) as [-> ->]; [lia|].
  unfold fits in Hf. replace (MAX_FRAME_SIZE <? zlen (text m)) with false by lia.
  unfold decode_marked, decode_unmarked. destruct (has_nul_marker c).
  - by replace (zlen src <? 4 + zlen (text m) + 1) with true by lia.
  - by replace (zlen src <? 4 + zlen (text m)) with true by lia.
Qed.

Lemma frame_parts m k :
  ztake (zlen (text m)) (zdrop 4 (frame m ++ k)) = text m
  /\ zdrop (zlen (text m)) (zdrop 4 (frame m ++ k)) = k.
Proof.
  unfold frame. rewrite <- app_assoc, zdrop_app_exact by (by rewrite zlen_to_be_bytes).
  by rewrite ztake_app_exact, zdrop_app_exact.
Qed.

Lemma decode_resolved_unmarked c m k :
  fits m -> has_nul_marker c = false ->
  decode_resolved c (frame m ++ k)
  = (let (c', src') := settle_trailing c k in (c', src', Ok (Some (Structured m)))).
Proof.
  intros Hf Hc. pose proof (zlen_text m). pose proof (zlen_nonneg k). unfold decode_resolved.
  assert (Hl : zlen (frame m ++ k) = 4 + zlen (text m) + zlen k)
    by (rewrite zlen_app, zlen_frame; lia).
  destruct (frame_header m (frame m ++ k) [] k Hf) as [-> ->]; [by rewrite app_nil_r|lia|].
  replace (zlen (frame m ++ k) <? 4) with false by lia.
  unfold fits in Hf. replace (MAX_FRAME_SIZE <? zlen (text m)) with false by lia.
  rewrite Hc. unfold decode_unmarked. destruct (frame_parts m k) as [-> ->].
  replace (zlen (frame m ++ k) <? 4 + zlen (text m)) with false by lia.
  by rewrite parse_frame_text.
Qed.

Lemma decode_resolved_marked c m k :
  fits m -> has_nul_marker c = true ->
  decode_resolved c (frame m ++ x00 :: k) = (c, k, Ok (Some (Structured m))).
Proof.
  intros Hf Hc. pose proof (zlen_text m). pose proof (zlen_nonneg k). unfold decode_resolved.
  assert (Hl : zlen (frame m ++ x00 :: k) = 5 + zlen (text m) + zlen k)
    by (rewrite zlen_app, zlen_frame, zlen_cons; lia).
  destruct (frame_header m (frame m ++ x00 :: k) [] (x00 :: k) Hf) as [-> ->];
    [by rewrite app_nil_r|lia|].
  replace (zlen (frame m ++ x00 :: k) <? 4) with false by lia.
  unfold fits in Hf. replace (MAX_FRAME_SIZE <? zlen (text m)) with false by lia.
  rewrite Hc. unfold decode_marked. destruct (frame_parts m (x00 :: k)) as [-> ->].
  replace (zlen (frame m ++ x00 :: k) <? 4 + zlen (text m) + 1) with false by lia.
  simpl. by rewrite parse_frame_text.
Qed.

(** *** Reading the bytes after a frame under both hypotheses *)

Lemma slice_app_exact {A} (a b c : list A) i j :
  i = zlen a -> j = i + zlen b -> slice i j (a ++ b ++ c) = b.
Proof.
  intros -> ->. unfold slice. rewrite zdrop_app_exact by done. apply ztake_app_exact. lia.
Qed.

(** The peer writes no marker: the buffer continues with the next frame. *)
Section next_is_frame.
Context (m : M) (Hf : fits m) (src fut rest : bytes) (HS : src ++ fut = frame m ++ rest).

Lemma next_frame_len :
  5 <= zlen src ->
  from_be_bytes [at_ src 0; at_ src 1; at_ src 2; at_ src 3] = zlen (text m)
  /\ 1 <= from_be_bytes [at_ src 1; at_ src 2; at_ src 3; at_ src 4].
Proof.
  intros H5. destruct (frame_bytes m Hf) as (l0 & l1 & l2 & l3 & t & Hfr & Ht & Hlen & Hl0).
  rewrite !(at_prefix src fut _ _ eq_refl) by lia. rewrite HS, Hfr. split; [exact Hlen|]. rewrite Ht.
  change (1 <= from_be_bytes [l1; l2; l3; x7b]). cbn.
  change (u8 x7b) with 123.
  pose proof (u8_range l1). pose proof (u8_range l2). pose proof (u8_range l3). lia.
Qed.

Lemma next_frame_parses :
  4 + zlen (text m) <= zlen src -> parses (slice 4 (4 + zlen (text m)) src) = true.
Proof.
  intros H. rewrite (slice_prefix src fut _ _ _ eq_refl) by (pose proof (zlen_text m); lia).
  rewrite HS. unfold frame. rewrite <- app_assoc, slice_app_exact;
    [|by rewrite zlen_to_be_bytes|done].
  unfold parses. by rewrite from_slice_text.
Qed.

Lemma next_frame_shifted n :
  1 <= n -> 5 + n <= zlen src -> parses (slice 5 (5 + n) src) = false.
Proof.
  intros Hn H. rewrite (slice_prefix src fut _ _ _ eq_refl) by lia. rewrite HS.
  destruct (frame_bytes m Hf) as (l0 & l1 & l2 & l3 & t & Hfr & Ht & _). rewrite Hfr, Ht.
  unfold slice, ztake. replace (5 + n - 5) with n by lia.
  destruct (Z.to_nat n) eqn:E; [lia|]. unfold parses. simpl. by rewrite from_slice_quote.
Qed.

Lemma resolve_pending_unmarked c :
  nul_marker c = false -> detected_nul_marker c = false ->
  match resolve_pending c src with
  | Some (c', src') => src' = src /\ nul_marker c' = false /\ detected_nul_marker c' = false
  | None => zlen src < zlen (frame m)
  end.
Proof.
  intros Hn Hd. rewrite zlen_frame. pose proof (zlen_text m) as Ht.
  pose proof next_frame_len as HL. pose proof next_frame_parses as HP.
  pose proof next_frame_shifted as HQ. unfold resolve_pending.
  destruct (pending_trailing_nul c); simpl; [|done].
  revert HL HP HQ. destruct src as [|b s] eqn:Es; intros HL HP HQ; [rewrite zlen_nil; lia|]. rewrite <- Es in *.
  destruct (u8 b =? 0) eqn:Eb; simpl; [|done].
  destruct (zlen src <? 5) eqn:E5; [lia|].
  destruct HL as [-> HA]; [lia|].
  replace (zlen (text m) <? 2) with false by lia.
  destruct (MAX_FRAME_SIZE <? _) eqn:EM; [done|].
  destruct (5 + _ <=? zlen src) eqn:EA; destruct (4 + _ <=? zlen src) eqn:EB.
  - rewrite HQ, HP by lia. done.
  - rewrite HQ by lia. done.
  - rewrite HP by lia. done.
  - lia.
Qed.

Lemma settle_trailing_unmarked c :
  nul_marker c = false -> detected_nul_marker c = false ->
  exists c', settle_trailing c src = (c', src)
    /\ nul_marker c' = false /\ detected_nul_marker c' = false.
Proof.
  intros Hn Hd. pose proof (zlen_text m) as Ht.
  pose proof next_frame_len as HL. pose proof next_frame_parses as HP.
  pose proof next_frame_shifted as HQ. unfold settle_trailing.
  revert HL HP HQ. destruct src as [|b s] eqn:Es; intros HL HP HQ; [eauto|]. rewrite <- Es in *.
  destruct (u8 b =? 0) eqn:Eb; simpl; [|eauto].
  destruct (5 <=? zlen src) eqn:E5; [|eauto].
  destruct HL as [-> HA]; [lia|]. unfold fits in Hf.
  unfold frame_hypothesis. replace (2 <=? zlen (text m)) with true by lia.
  replace (zlen (text m) <=? MAX_FRAME_SIZE) with true by lia. simpl.
  destruct (4 + zlen (text m) <=? zlen src) eqn:EB.
  - rewrite HP by lia.
    destruct (negb _); [eauto|]. destruct (5 + _ <=? zlen src) eqn:EA; [|eauto].
    rewrite HQ by lia. eauto.
  - destruct (negb _); [eauto|]. destruct (5 + _ <=? zlen src) eqn:EA; [|eauto].
    rewrite HQ by lia. eauto.
Qed.
End next_is_frame.

(** The peer writes the marker: the buffer continues with it and then the next frame. *)
Section next_is_marker.
Context (m : M) (Hf : fits m) (src fut rest : bytes) (HS : src ++ fut = x00 :: frame m ++ rest).

Lemma marker_len :
  5 <= zlen src ->
  from_be_bytes [at_ src 1; at_ src 2; at_ src 3; at_ src 4] = zlen (text m)
  /\ from_be_bytes [at_ src 0; at_ src 1; at_ src 2; at_ src 3] = zlen (text m) `div` 256.
Proof.
  intros H5. destruct (frame_bytes m Hf) as (l0 & l1 & l2 & l3 & t & Hfr & Ht & Hlen & Hl0).
  rewrite !(at_prefix src fut _ _ eq_refl) by lia. rewrite HS, Hfr. split; [exact Hlen|].
  change (from_be_bytes [x00; l0; l1; l2] = zlen (text m) `div` 256). rewrite <- Hlen.
  cbn. change (u8 x00) with 0. pose proof (u8_range l3).
  apply Z.div_unique_pos with (u8 l3); lia.
Qed.

Lemma marker_parses :
  5 + zlen (text m) <= zlen src -> parses (slice 5 (5 + zlen (text m)) src) = true.
Proof.
  intros H. rewrite (slice_prefix src fut _ _ _ eq_refl) by (pose proof (zlen_text m); lia).
  rewrite HS. unfold frame. rewrite <- app_assoc.
  change (x00 :: to_be_bytes 4 (zlen (text m)) ++ text m ++ rest)
    with ((x00 :: to_be_bytes 4 (zlen (text m))) ++ text m ++ rest).
  rewrite slice_app_exact; [|by rewrite zlen_cons, zlen_to_be_bytes|done].
  unfold parses. by rewrite from_slice_text.
Qed.

(** Read without the marker, the frame is the last length byte and a text cut short. *)
Lemma marker_shifted :
  2 <= zlen (text m) `div` 256 -> 4 + zlen (text m) `div` 256 <= zlen src ->
  parses (slice 4 (4 + zlen (text m) `div` 256) src) = false.
Proof.
  intros Hq H. set (q := zlen (text m) `div` 256) in *. pose proof (zlen_text m).
  assert (q < zlen (text m)) by (apply Z.div_lt; lia).
  rewrite (slice_prefix src fut _ _ _ eq_refl) by lia. rewrite HS.
  destruct (frame_bytes m Hf) as (l0 & l1 & l2 & l3 & t & Hfr & Ht & _). rewrite Hfr.
  unfold parses, slice. replace (4 + q - 4) with q by lia.
  change (zdrop 4 (x00 :: ([l0; l1; l2; l3] ++ text m) ++ rest)) with (l3 :: text m ++ rest).
  assert (Hcut : ztake q (l3 :: text m ++ rest) = l3 :: ztake (q - 1) (text m)).
  { unfold ztake. replace (Z.to_nat q) with (S (Z.to_nat (q - 1))) by lia. simpl.
    rewrite take_app_le; [done|]. unfold zlen in *. lia. }
  rewrite Hcut.
  rewrite (from_slice_cut m l3 (ztake (q - 1) (text m)) (zdrop (q - 1) (text m))); [done|..].
  - by rewrite ztake_zdrop.
  - intros E%(f_equal zlen). rewrite zlen_ztake, zlen_nil in E; lia.
  - intros E%(f_equal zlen). rewrite zlen_zdrop, zlen_nil in E; lia.
Qed.

Lemma marker_first : src <> [] -> exists s, src = x00 :: s.
Proof. destruct src as [|b s]; [done|]. simplify_eq/=. eauto. Qed.

Lemma resolve_pending_marked c :
  pending_trailing_nul c = true ->
  match resolve_pending c src with
  | Some (c', src') => c' = set_detected c true /\ src = x00 :: src'
  | None => zlen src < 1 + zlen (frame m)
  end.
Proof.
  intros Hp. rewrite zlen_frame. pose proof (zlen_text m) as Ht.
  pose proof marker_len as HL. pose proof marker_parses as HP. pose proof marker_shifted as HQ.
  pose proof marker_first as HF. unfold fits in *. unfold resolve_pending. rewrite Hp.
  simpl negb. cbv iota. revert HL HP HQ HF.
  destruct src as [|b s] eqn:Es; intros HL HP HQ HF; [rewrite zlen_nil; lia|].
  destruct HF as [s' [= -> ->]]; [done|]. rewrite <- Es in *. change (u8 x00 =? 0) with true.
  simpl negb. cbv iota. destruct (zlen src <? 5) eqn:E5; [lia|].
  destruct HL as [-> ->]; [lia|].
  destruct (zlen (text m) `div` 256 <? 2) eqn:E2; [by rewrite Es|].
  replace (MAX_FRAME_SIZE <? zlen (text m)) with false by lia.
  destruct (5 + _ <=? zlen src) eqn:EA; [rewrite HP by lia; by rewrite Es|].
  destruct (4 + _ <=? zlen src) eqn:EB; [|lia].
  rewrite HQ by lia. by rewrite Es.
Qed.

Lemma settle_trailing_marked c :
  nul_marker c = false -> detected_nul_marker c = false ->
  settle_trailing c src = (set_pending c true, src)
  \/ exists s, src = x00 :: s /\ settle_trailing c src = (set_detected c true, s).
Proof.
  intros Hn Hd. pose proof (zlen_text m) as Ht.
  pose proof marker_len as HL. pose proof marker_parses as HP. pose proof marker_shifted as HQ.
  pose proof marker_first as HF. unfold fits in *. unfold settle_trailing. revert HL HP HQ HF.
  destruct src as [|b s] eqn:Es; intros HL HP HQ HF; [by left|].
  destruct HF as [s' [= -> ->]]; [done|]. rewrite <- Es in *. change (u8 x00 =? 0) with true.
  simpl negb. cbv iota. destruct (5 <=? zlen src) eqn:E5; [|by left].
  destruct HL as [-> ->]; [lia|]. unfold frame_hypothesis.
  replace (2 <=? zlen (text m)) with true by lia.
  replace (zlen (text m) <=? MAX_FRAME_SIZE) with true by lia. change (negb (true && true)) with false. cbv iota.
  assert (Hright : exists s, src = x00 :: s /\ (set_detected c true, zdrop 1 src) = (set_detected c true, s))
    by (rewrite Es; eauto).
  destruct (5 + _ <=? zlen src) eqn:EA.
  - rewrite HP by lia. right. destruct (negb _); [exact Hright|].
    destruct (4 + _ <=? zlen src); [|exact Hright]. by destruct (parses (slice 4 _ _)).
  - destruct (negb _) eqn:EN; [right; exact Hright|].
    destruct (4 + _ <=? zlen src) eqn:EB; [|by left].
    rewrite HQ by lia. right. exact Hright.
Qed.
End next_is_marker.

(** *** Reading a stream in chunks *)

(** [R c ms S]: with codec state [c], the bytes [S] still to be seen hold the messages [ms].
    Whatever part [buf] of [S] has arrived, the decoder takes the next message or waits, and
    waits at the end of [S] only when no message is left. *)
Definition decodes (R : ProdCodeCodec -> list M -> bytes -> Prop) : Prop :=
  forall c ms buf fut, R c ms (buf ++ fut) ->
    (exists c' buf' m ms', ms = m :: ms'
       /\ decode c buf = (c', buf', Ok (Some (Structured m)))
       /\ (length buf' < length buf)%nat /\ R c' ms' (buf' ++ fut))
    \/ (exists c' buf', decode c buf = (c', buf', Ok None) /\ R c' ms (buf' ++ fut)
          /\ (fut = [] -> ms = [])).

Lemma drain_decodes R fuel c ms buf fut :
  decodes R -> R c ms (buf ++ fut) -> (length buf < fuel)%nat ->
  exists c' buf' got todo,
    drain fuel c buf = (c', buf', map Structured got, None)
    /\ ms = got ++ todo /\ R c' todo (buf' ++ fut) /\ (fut = [] -> todo = []).
Proof.
  intros HR. revert c ms buf. induction fuel as [|fuel IH]; intros c ms buf H Hlt; [lia|].
  simpl. destruct (HR c ms buf fut H)
    as [(c' & buf' & m & ms' & -> & -> & Hl & H')|(c' & buf' & -> & H' & Hend)].
  - destruct (IH c' ms' buf' H') as (c2 & buf2 & got & todo & -> & -> & H2 & Hend); [lia|].
    exists c2, buf2, (m :: got), todo. done.
  - exists c', buf', [], ms. done.
Qed.

Lemma feed_decodes R c ms buf chunks :
  decodes R -> R c ms (buf ++ concat chunks) -> (concat chunks = [] -> ms = []) ->
  exists c' rest, feed c buf chunks = (c', rest, map Structured ms, None) /\ R c' [] rest.
Proof.
  intros HR. revert c ms buf. induction chunks as [|k ks IH]; intros c ms buf H Hend.
  - simpl in *. rewrite app_nil_r in H. rewrite (Hend eq_refl) in *. eauto.
  - cbn [feed]. cbn [concat] in *. rewrite app_assoc in H.
    destruct (drain_decodes R (S (length (buf ++ k))) c ms (buf ++ k) (concat ks))
      as (c' & buf' & got & todo & -> & -> & H' & Hend'); [done..|lia|].
    destruct (IH c' todo buf' H' Hend') as (c2 & rest & -> & H2).
    exists c2, rest. by rewrite map_app.
Qed.

(** A peer that writes no markers. *)
Definition unmarked_state (c : ProdCodeCodec) (ms : list M) (stream : bytes) : Prop :=
  nul_marker c = false /\ detected_nul_marker c = false
  /\ Forall fits ms /\ stream = frames ms.

Lemma decode_empty c : decode c [] = (c, [], Ok None).
Proof. unfold decode, resolve_pending. by destruct (pending_trailing_nul c). Qed.

Lemma length_lt_app (a b : bytes) : a <> [] -> (length b < length (a ++ b))%nat.
Proof. rewrite length_app. destruct a; simpl; [done|lia]. Qed.

Lemma frame_nonempty m : frame m <> [].
Proof. intros H%(f_equal zlen). rewrite zlen_frame, zlen_nil in H. pose proof (zlen_text m). lia. Qed.

Lemma unmarked_settle c ms k fut :
  nul_marker c = false -> detected_nul_marker c = false -> Forall fits ms ->
  k ++ fut = frames ms ->
  exists c', settle_trailing c k = (c', k) /\ unmarked_state c' ms (k ++ fut).
Proof.
  intros Hn Hd Hfits HS. destruct ms as [|m ms].
  - apply app_nil in HS as [-> ->]. by exists (set_pending c true).
  - inversion_clear Hfits as [|?? Hm Hms].
    destruct (settle_trailing_unmarked m Hm k fut (frames ms) HS c Hn Hd) as (c' & Hc' & ? & ?).
    exists c'. split; [done|]. split_and!; [done..|by constructor|done].
Qed.

Lemma unmarked_decodes : decodes unmarked_state.
Proof.
  intros c ms buf fut (Hn & Hd & Hfits & HS). destruct ms as [|m ms].
  { right. apply app_nil in HS as [-> ->]. exists c, []. by rewrite decode_empty. }
  inversion_clear Hfits as [|?? Hm Hms]. change (frames (m :: ms)) with (frame m ++ frames ms) in HS.
  pose proof (resolve_pending_unmarked m Hm buf fut (frames ms) HS c Hn Hd) as Hr.
  unfold decode. destruct (app_split _ _ _ _ HS) as [(k & -> & Hk)|(k & Hk & -> & Hne)].
  - left. destruct (resolve_pending c (frame m ++ k)) as [[c1 src1]|].
    2: { rewrite zlen_app in Hr. pose proof (zlen_nonneg k). lia. }
    destruct Hr as (-> & Hn1 & Hd1).
    rewrite decode_resolved_unmarked by (done || by unfold has_nul_marker; rewrite Hn1, Hd1).
    destruct (unmarked_settle c1 ms k fut) as (c2 & -> & H2); [done..|].
    exists c2, k, m, ms. split_and!; [done..| |done]. apply length_lt_app, frame_nonempty.
  - right. assert (Hshort : zlen buf < zlen (frame m)).
    { rewrite Hk, zlen_app. destruct k; [done|]. rewrite zlen_cons. pose proof (zlen_nonneg k). lia. }
    assert (Hnone : k ++ frames ms = [] -> m :: ms = []) by (intros [-> _]%app_nil; done).
    destruct (resolve_pending c buf) as [[c1 src1]|]; [destruct Hr as (-> & Hn1 & Hd1)|].
    + rewrite (decode_resolved_short c1 m buf (k ++ frames ms) (frames ms)) by
        (done || (unfold has_nul_marker; rewrite Hn1, Hd1; simpl; lia)).
      exists c1, buf. split_and!; [done| |done]. split_and!; [done..|by constructor|done].
    + exists c, buf. split_and!; [done| |done]. split_and!; [done..|by constructor|done].
Qed.

(** A peer that writes markers, before and after the decoder has found out. *)
Definition knows_marker (c : ProdCodeCodec) : Prop :=
  has_nul_marker c = true /\ pending_trailing_nul c = false.
Definition undecided (c : ProdCodeCodec) (pending : bool) : Prop :=
  nul_marker c = false /\ detected_nul_marker c = false /\ pending_trailing_nul c = pending.

Definition marked_state (c : ProdCodeCodec) (ms : list M) (stream : bytes) : Prop :=
  Forall fits ms
  /\ ((knows_marker c /\ stream = marked_frames ms)
      \/ (undecided c false /\ stream = marked_frames ms)
      \/ (undecided c true /\ stream = x00 :: marked_frames ms)).

Lemma marked_frames_cons m ms : marked_frames (m :: ms) = frame m ++ x00 :: marked_frames ms.
Proof. unfold marked_frames. simpl. by rewrite <- app_assoc. Qed.

Lemma set_detected_knows c : knows_marker (set_detected c true).
Proof. split; [|done]. unfold has_nul_marker. simpl. apply orb_true_r. Qed.

Lemma resolve_pending_idle c buf :
  pending_trailing_nul c = false -> resolve_pending c buf = Some (c, buf).
Proof. intros H. unfold resolve_pending. by rewrite H. Qed.

(** Once the marker is known the buffer holds whole frames. *)
Lemma knows_marker_decodes c ms buf fut :
  knows_marker c -> Forall fits ms -> buf ++ fut = marked_frames ms ->
  (exists buf' m ms', ms = m :: ms'
     /\ decode_resolved c buf = (c, buf', Ok (Some (Structured m)))
     /\ (length buf' < length buf)%nat /\ buf' ++ fut = marked_frames ms')
  \/ (decode_resolved c buf = (c, buf, Ok None) /\ (fut = [] -> ms = [])).
Proof.
  intros [Hc _] Hfits HS. destruct ms as [|m ms].
  { right. by apply app_nil in HS as [-> ->]. }
  inversion_clear Hfits as [|?? Hm Hms]. rewrite marked_frames_cons in HS.
  replace (frame m ++ x00 :: marked_frames ms) with ((frame m ++ [x00]) ++ marked_frames ms) in HS
    by (by rewrite <- app_assoc).
  destruct (app_split _ _ _ _ HS) as [(k & -> & Hk)|(k & Hk & -> & Hne)].
  - left. exists k, m, ms. rewrite <- app_assoc.
    change ([x00] ++ k) with (x00 :: k). rewrite decode_resolved_marked by done.
    split_and!; [done..| |done]. rewrite length_app. simpl. lia.
  - right. assert (Hshort : zlen buf < zlen (frame m) + 1).
    { apply (f_equal zlen) in Hk. rewrite !zlen_app, zlen_cons, zlen_nil in Hk.
      destruct k; [done|]. rewrite zlen_cons in Hk. pose proof (zlen_nonneg k). lia. }
    rewrite <- app_assoc in HS. rewrite (decode_resolved_short c m buf _ _ Hm HS) by (rewrite Hc; lia).
    split; [done|]. by intros [-> _]%app_nil.
Qed.

(** After a frame taken without its marker. *)
Lemma marked_settle c ms k fut :
  nul_marker c = false -> detected_nul_marker c = false -> Forall fits ms ->
  k ++ fut = x00 :: marked_frames ms ->
  exists c' k', settle_trailing c k = (c', k') /\ (length k' <= length k)%nat
    /\ marked_state c' ms (k' ++ fut).
Proof.
  intros Hn Hd Hfits HS. destruct ms as [|m ms].
  - exists (set_pending c true), k. assert (settle_trailing c k = (set_pending c true, k)) as ->.
    { destruct k as [|b [|]]; simplify_eq/=; done. }
    split_and!; [done..|]. split; [done|]. right; right. done.
  - inversion_clear Hfits as [|?? Hm Hms]. pose proof HS as HS'. rewrite marked_frames_cons in HS'.
    destruct (settle_trailing_marked m Hm k fut _ HS' c Hn Hd) as [->|(s & -> & ->)].
    + exists (set_pending c true), k. split_and!; [done..|].
      split; [by constructor|]. right; right. done.
    + exists (set_detected c true), s. split_and!; [done|simpl; lia|].
      split; [by constructor|]. left. simplify_eq/=. split; [apply set_detected_knows|done].
Qed.

Lemma undecided_decodes c ms buf fut :
  undecided c false -> Forall fits ms -> buf ++ fut = marked_frames ms ->
  (exists c' buf' m ms', ms = m :: ms'
     /\ decode_resolved c buf = (c', buf', Ok (Some (Structured m)))
     /\ (length buf' < length buf)%nat /\ marked_state c' ms' (buf' ++ fut))
  \/ (decode_resolved c buf = (c, buf, Ok None) /\ (fut = [] -> ms = [])).
Proof.
  intros (Hn & Hd & Hp) Hfits HS. destruct ms as [|m ms].
  { right. by apply app_nil in HS as [-> ->]. }
  inversion_clear Hfits as [|?? Hm Hms]. rewrite marked_frames_cons in HS.
  assert (Hc : has_nul_marker c = false) by (unfold has_nul_marker; by rewrite Hn, Hd).
  destruct (app_split _ _ _ _ HS) as [(k & -> & Hk)|(k & Hk & -> & Hne)].
  - left. rewrite decode_resolved_unmarked by done.
    destruct (marked_settle c ms k fut Hn Hd Hms) as (c' & k' & -> & Hl & H'); [done|].
    exists c', k', m, ms. split_and!; [done..| |done]. pose proof (length_lt_app (frame m) k (frame_nonempty m)). lia.
  - right. rewrite (decode_resolved_short c m buf _ _ Hm HS).
    + split; [done|]. by intros [-> _]%app_nil.
    + rewrite Hc, Hk, zlen_app. destruct k; [done|]. rewrite zlen_cons.
      pose proof (zlen_nonneg k). lia.
Qed.

Lemma marked_decodes : decodes marked_state.
Proof.
  intros c ms buf fut [Hfits [[Hc HS]|[[Hc HS]|[Hc HS]]]]; unfold decode.
  - rewrite resolve_pending_idle by apply Hc.
    destruct (knows_marker_decodes c ms buf fut Hc Hfits HS)
      as [(buf' & m & ms' & -> & -> & Hl & H')|(-> & Hend)].
    + left. exists c, buf', m, ms'. inversion_clear Hfits. split_and!; [done..|].
      split; [done|]. by left.
    + right. exists c, buf. split_and!; [done| |done]. split; [done|]. by left.
  - rewrite resolve_pending_idle by apply Hc.
    destruct (undecided_decodes c ms buf fut Hc Hfits HS)
      as [(c' & buf' & m & ms' & H)|(-> & Hend)]; [left; eauto 10|].
    right. exists c, buf. split_and!; [done| |done]. split; [done|]. right; by left.
  - assert (Hwait : (fut = [] -> ms = []) -> exists c' buf', (c, buf, @Ok (option (WireMessage M)) codec_error None) = (c', buf', Ok None)
        /\ marked_state c' ms (buf' ++ fut) /\ (fut = [] -> ms = [])).
    { intros Hend. exists c, buf. split_and!; [done| |done]. split; [done|]. right; by right. }
    destruct ms as [|m ms].
    { right. destruct buf as [|b [|]]; simplify_eq/=.
      - unfold resolve_pending. rewrite (proj2 (proj2 Hc)). simpl. by apply Hwait.
      - unfold resolve_pending. rewrite (proj2 (proj2 Hc)). simpl. by apply Hwait. }
    pose proof Hfits as Hfits'. inversion_clear Hfits' as [|?? Hm Hms].
    pose proof HS as HS'. rewrite marked_frames_cons in HS'.
    pose proof (resolve_pending_marked m Hm buf fut _ HS' c (proj2 (proj2 Hc))) as Hr.
    destruct (resolve_pending c buf) as [[c1 src1]|].
    + destruct Hr as [-> ->]. pose proof (set_detected_knows c) as Hk. simplify_eq/=.
      destruct (knows_marker_decodes _ (m :: ms) src1 fut Hk Hfits HS)
        as [(buf' & m' & ms' & [= <- <-] & -> & Hl & H')|(-> & Hend)].
      * left. eexists _, buf', m, ms. split_and!; [done..|simpl; lia|]. split; [done|]. by left.
      * right. eexists _, src1. split_and!; [done| |done]. split; [done|]. by left.
    + right. apply Hwait. intros ->. rewrite app_nil_r in HS'. rewrite HS' in Hr.
      rewrite zlen_cons, zlen_app, zlen_cons in Hr. pose proof (zlen_nonneg (marked_frames ms)). lia.
Qed.
End stream.

(** ** The encoder *)

Section encoder.
Context {M : Type} `{!WireSerde M}.

Lemma write_chunks_inner w chunks w' b :
  write_chunks w chunks = (w', b) ->
  exists s, inner w' = inner w ++ s /\ limit w' = limit w
    /\ (0 <= written w -> written w' = written w + zlen s)
    /\ (b = true -> s = concat chunks).
Proof.
  revert w. induction chunks as [|k ks IH]; intros w; simpl.
  - intros [= <- <-]. exists []. split_and!; [by rewrite app_nil_r|done|unfold zlen; simpl; lia|done].
  - unfold bounded_write. destruct (limit w <? _).
    + intros [= <- <-]. exists []. split_and!; [by rewrite app_nil_r|done|unfold zlen; simpl; lia|done].
    + intros (s & Hi & Hl & Hw & Hs)%IH. simpl in *. exists (k ++ s).
      rewrite Hi, app_assoc, zlen_app. split_and!; [done..| |].
      * intros ?. pose proof (zlen_nonneg k). rewrite Hw; lia.
      * by intros ->%Hs.
Qed.

Lemma write_chunks_fits w chunks :
  0 <= written w -> written w + zlen (concat chunks) <= limit w ->
  exists w', write_chunks w chunks = (w', true) /\ inner w' = inner w ++ concat chunks.
Proof.
  revert w. induction chunks as [|k ks IH]; intros w H0 Hl; simpl in *.
  - exists w. by rewrite app_nil_r.
  - rewrite zlen_app in Hl. pose proof (zlen_nonneg k). pose proof (zlen_nonneg (concat ks)).
    unfold bounded_write. replace (limit w <? _) with false by lia.
    destruct (IH (mkWriter (inner w ++ k) (written w + zlen k) (limit w)))
      as (w' & -> & Hi); simpl in *; [lia..|].
    exists w'. split; [done|]. by rewrite Hi, app_assoc.
Qed.

Lemma encode_ref_bounded_frame c m dst max chunks :
  to_writer (Structured m) = (chunks, true) -> zlen (concat chunks) <= max ->
  encode_ref_bounded c (Structured m) dst max
  = (dst ++ to_be_bytes 4 (zlen (concat chunks)) ++ concat chunks
         ++ (if nul_marker c then [x00] else []), Ok tt).
Proof.
  intros Hw Hmax. unfold encode_ref_bounded. rewrite Hw.
  assert (Hz : zlen (to_be_bytes 4 0) = 4) by done. remember (to_be_bytes 4 0) as z4.
  destruct (write_chunks_fits (mkWriter (dst ++ z4) 0 max) chunks)
    as (w' & -> & Hi); [done|done|]. simpl in Hi. cbn [andb negb]. rewrite Hi.
  replace (zlen ((dst ++ z4) ++ concat chunks) - zlen dst - 4)
    with (zlen (concat chunks)) by (rewrite !zlen_app, Hz; lia).
  replace (max <? zlen (concat chunks)) with false by lia. unfold patch_length.
  rewrite zdrop_app_exact by (by rewrite zlen_app, Hz).
  rewrite <- (app_assoc dst), ztake_app_exact by done.
  destruct (nul_marker c); rewrite ?app_nil_r, <- ?app_assoc; done.
Qed.
End encoder.

(** The stream of a sender: its messages encoded one after another into one buffer. *)
Definition encode_stream {M} `{!WireSerde M} (c : ProdCodeCodec) (ms : list M) : bytes :=
  foldl (fun dst m => fst (encode c (Structured m) dst)) [] ms.

Lemma encode_stream_frames {M} `{!WireSerde M} `{!WireSerdeLaws M} c (ms : list M) dst :
  Forall fits ms ->
  foldl (fun dst m => fst (encode c (Structured m) dst)) dst ms
  = dst ++ (if nul_marker c then marked_frames ms else frames ms).
Proof.
  intros H. revert dst. induction H as [|m ms Hm Hms IH]; intros dst.
  { simpl. destruct (nul_marker c); by rewrite app_nil_r. }
  cbn [foldl]. destruct (to_writer_text m) as (chunks & Hw & Ht).
  unfold fits in Hm.
  assert (He : fst (encode c (Structured m) dst) = dst ++ to_be_bytes 4 (zlen (text m)) ++ text m
    ++ (if nul_marker c then [x00] else [])).
  { unfold encode, encode_ref. rewrite <- Ht.
  rewrite (encode_ref_bounded_frame c m dst _ chunks Hw) by (by rewrite Ht). done. }
  rewrite He, IH. destruct (nul_marker c).
  - rewrite marked_frames_cons. unfold frame. by rewrite <- !app_assoc.
  - rewrite app_nil_r. unfold frames. simpl. unfold frame. by rewrite <- !app_assoc.
Qed.

(** C3: a peer that writes no completion markers is read back exactly.  However the stream of
    its encoded messages is cut into reads, a fresh decoder returns these messages in order,
    reports no error, keeps no byte, and accepts the end of the stream. *)
Theorem unmarked_stream_decoded {M} `{!WireSerde M} `{!WireSerdeLaws M}
    (ms : list M) (chunks : list bytes) :
  Forall fits ms -> concat chunks = encode_stream new ms ->
  exists c', feed new [] chunks = (c', [], map Structured ms, None)
    /\ decode_eof c' [] = (c', [], @Ok (option (WireMessage M)) _ None).
Proof.
  intros Hf Hs. unfold encode_stream in Hs. rewrite encode_stream_frames in Hs by done.
  destruct (feed_decodes unmarked_state new ms [] chunks) as (c' & rest & -> & H).
  - apply unmarked_decodes.
  - done.
  - intros Hnil. rewrite Hnil in Hs. destruct ms as [|m ms]; [done|].
    symmetry in Hs. change (frame m ++ frames ms = []) in Hs.
    apply app_nil in Hs as [Hs _]. by apply frame_nonempty in Hs.
  - destruct H as (Hn & Hd & _ & ->). exists c'. split; [done|].
    unfold decode_eof. rewrite decode_empty. change (zlen [] =? 1) with false.
    rewrite andb_false_r. cbn [andb]. by rewrite Hn, Hd.
Qed.

(** C4: a peer that writes completion markers is read back exactly, both by a decoder told to
    expect them and by one that has to find out: whatever the cuts, the messages come out in
    order without an error, and what is left at the end is a clean end of stream. *)
Theorem marked_stream_decoded {M} `{!WireSerde M} `{!WireSerdeLaws M}
    (reader : ProdCodeCodec) (ms : list M) (chunks : list bytes) :
  reader = new \/ reader = with_nul_marker new true ->
  Forall fits ms -> concat chunks = encode_stream (with_nul_marker new true) ms ->
  exists c' rest c'', feed reader [] chunks = (c', rest, map Structured ms, None)
    /\ decode_eof c' rest = (c'', [], @Ok (option (WireMessage M)) _ None).
Proof.
  intros Hr Hf Hs. unfold encode_stream in Hs. rewrite encode_stream_frames in Hs by done.
  change (concat chunks = marked_frames ms) in Hs.
  destruct (feed_decodes marked_state reader ms [] chunks) as (c' & rest & -> & H).
  - apply marked_decodes.
  - split; [done|]. destruct Hr as [->| ->]; [right; left|left]; done.
  - intros Hnil. rewrite Hnil in Hs. destruct ms as [|m ms]; [done|].
    rewrite marked_frames_cons in Hs. symmetry in Hs.
    apply app_nil in Hs as [Hs _]. by apply frame_nonempty in Hs.
  - destruct H as [_ H]. assert (Hend : forall c, pending_trailing_nul c = false ->
      decode_eof c [] = (c, [], @Ok (option (WireMessage M)) _ None)).
    { intros c Hp. unfold decode_eof. rewrite decode_empty, Hp. cbn [andb].
      by destruct (negb _ && negb _). }
    destruct H as [[[Hc Hp] ->]|[[(Hn & Hd & Hp) ->]|[(Hn & Hd & Hp) ->]]].
    + exists c', [], c'. by rewrite Hend.
    + exists c', [], c'. by rewrite Hend.
    + exists c', [x00], (set_pending c' false). split; [done|]. unfold decode_eof, decode, resolve_pending.
      rewrite Hp. simpl. by rewrite Hp.
Qed.

(** C5: encoding is all or nothing.  A failed encode, whatever the serializer wrote before it
    failed or passed the limit, leaves the buffer as it was; a successful one appends the
    length, exactly the serializer's bytes, at most the limit of them, and the marker when the
    codec writes one. *)
Theorem encode_all_or_nothing {M} `{!WireSerde M} c (item : WireMessage M) dst max dst' r :
  encode_ref_bounded c item dst max = (dst', r) ->
  match r with
  | Err _ => dst' = dst
  | Ok _ =>
      (exists status ty body, item = HttpResponse status ty body
         /\ dst' = dst ++ http_response_text status ty body)
      \/ (exists payload, payload = concat (fst (to_writer item)) /\ zlen payload <= max
          /\ dst' = dst ++ to_be_bytes 4 (zlen payload) ++ payload
                        ++ (if nul_marker c then [x00] else []))
  end.
Proof.
  intros H. destruct (match item with HttpResponse _ _ _ => true | _ => false end) eqn:Ei.
  { destruct item; try done. simpl in H. simplify_eq. left. eauto. }
  assert (Hz : zlen (to_be_bytes 4 0) = 4) by done.
  unfold encode_ref_bounded in H. remember (to_be_bytes 4 0) as z4.
  destruct (to_writer item) as [chunks ok] eqn:Ew. cbn [fst].
  destruct (write_chunks (mkWriter (dst ++ z4) 0 max) chunks) as [w all] eqn:Ec.
  assert (Hw := write_chunks_inner _ _ _ _ Ec). destruct Hw as (s & Hi & Hl & _ & Hs). simpl in Hi.
  assert (Htake : ztake (zlen dst) (inner w) = dst)
    by (rewrite Hi, <- app_assoc; by apply ztake_app_exact).
  assert (Hlen : zlen (inner w) - zlen dst - 4 = zlen s) by (rewrite Hi, !zlen_app, Hz; lia).
  assert (Hcase : (if negb (all && ok) then (ztake (zlen dst) (inner w), Err SerializeFailed)
      else if max <? zlen (inner w) - zlen dst - 4
           then (ztake (zlen dst) (inner w), Err (MessageTooLarge (zlen (inner w) - zlen dst - 4)))
           else (if nul_marker c then patch_length (inner w) (zlen dst) (zlen (inner w) - zlen dst - 4) ++ [x00]
                 else patch_length (inner w) (zlen dst) (zlen (inner w) - zlen dst - 4), Ok tt)) = (dst', r))
    by (by destruct item). clear H. rewrite Htake, Hlen in Hcase.
  destruct all, ok; simpl in Hcase; simplify_eq; try done.
  destruct (max <? zlen s) eqn:Em; simplify_eq; [done|]. right. exists s.
  split_and!; [by apply Hs|lia|]. unfold patch_length. rewrite Htake, Hi.
  rewrite zdrop_app_exact by (by rewrite zlen_app, Hz).
  destruct (nul_marker c); by rewrite ?app_nil_r, <- ?app_assoc.
Qed.

(** ** Progress *)

Section progress.
Context {M : Type} `{!WireSerde M}.

(** [src'] is [src] without some bytes at its front. *)
Definition consumed (src src' : bytes) : Prop := exists k, src = k ++ src'.

Lemma consumed_refl s : consumed s s.
Proof. by exists []. Qed.
Lemma consumed_zdrop n s : consumed s (zdrop n s).
Proof. exists (ztake n s). by rewrite ztake_zdrop. Qed.
Lemma consumed_trans a b c : consumed a b -> consumed b c -> consumed a c.
Proof. intros [k ->] [k' ->]. exists (k ++ k'). by rewrite app_assoc. Qed.
Lemma consumed_tail b s : consumed (b :: s) s.
Proof. by exists [b]. Qed.
Lemma consumed_length a b : consumed a b -> (length b <= length a)%nat.
Proof. intros [k ->]. rewrite length_app. lia. Qed.

Lemma length_zdrop n (s : bytes) : 0 < n -> s <> [] -> (length (zdrop n s) < length s)%nat.
Proof.
  intros Hn Hs. unfold zdrop. rewrite length_drop. destruct s; [done|]. simpl. lia.
Qed.

Lemma settle_trailing_consumed c src : consumed src (snd (settle_trailing c src)).
Proof.
  unfold settle_trailing. destruct src as [|b src]; [apply consumed_refl|].
  repeat case_match; simpl; auto using consumed_refl, consumed_tail.
Qed.

Lemma resolve_pending_consumed c src c' src' :
  resolve_pending c src = Some (c', src') -> consumed src src'.
Proof.
  unfold resolve_pending. intros H. repeat case_match; simplify_eq;
    auto using consumed_refl, consumed_tail, consumed_zdrop.
Qed.

Lemma header_end_pos src e : header_end src = Some e -> 0 < e.
Proof.
  unfold header_end. destruct (find_sub (crlf ++ crlf) src) eqn:E.
  - apply find_sub_Some in E as (a & ? & _ & ->). intros [= <-]. pose proof (zlen_nonneg a). lia.
  - intros (p & Hp & ->)%fmap_Some. apply find_sub_Some in Hp as (a & ? & _ & ->).
    pose proof (zlen_nonneg a). lia.
Qed.

(** A step of the decoder on the buffer: a prefix is consumed, and a message costs a byte. *)
Definition step_ok (src src' : bytes) (r : result (option (WireMessage M)) codec_error) : Prop :=
  consumed src src' /\ (forall m, r = Ok (Some m) -> (length src' < length src)%nat).

Lemma decode_resolved_step c src c' src' r :
  decode_resolved c src = (c', src', r) -> step_ok src src' r.
Proof.
  unfold decode_resolved. destruct (zlen src <? 4) eqn:E4.
  { intros [= <- <- <-]. split; [apply consumed_refl|done]. }
  assert (Hne : src <> []) by (intros ->; done).
  assert (H4 : consumed src (zdrop 4 src) /\ (length (zdrop 4 src) < length src)%nat)
    by (split; [apply consumed_zdrop|by apply length_zdrop]).
  assert (Hd : forall n s, consumed (zdrop n (zdrop 4 src)) s ->
    consumed src s /\ (length s < length src)%nat).
  { intros n s Hs. pose proof (consumed_trans _ _ _ (consumed_zdrop n (zdrop 4 src)) Hs) as Ht.
    split; [by eapply consumed_trans; [apply H4|]|]. apply consumed_length in Ht. lia. }
  destruct (is_http src); [|destruct (MAX_FRAME_SIZE <? _); [|destruct (has_nul_marker c)]].
  - unfold decode_http. destruct (header_end src) as [e|] eqn:Ee.
    + intros [= <- <- <-]. apply header_end_pos in Ee.
      split; [apply consumed_zdrop|]. intros ? _. by apply length_zdrop.
    + case_match; intros [= <- <- <-]; (split; [apply consumed_refl|done]).
  - intros [= <- <- <-]. split; [apply consumed_refl|done].
  - unfold decode_marked. case_match.
    { intros [= <- <- <-]. split; [apply consumed_refl|done]. }
    destruct (zdrop _ (zdrop 4 src)) as [|b s3] eqn:Es.
    + intros [= <- <- <-]. edestruct Hd as [? ?]; [rewrite Es; apply consumed_refl|]. split; done.
    + case_match; intros [= <- <- <-]; edestruct Hd as [? ?]; try (split; [eassumption|done]);
        rewrite Es; auto using consumed_refl, consumed_tail.
  - unfold decode_unmarked. case_match.
    { intros [= <- <- <-]. split; [apply consumed_refl|done]. }
    destruct (settle_trailing c _) as [c1 s1] eqn:Es. intros [= <- <- <-].
    edestruct Hd as [? ?]; [|by split].
    match type of Es with settle_trailing c ?k = _ =>
      pose proof (settle_trailing_consumed c k) as Hs end. rewrite Es in Hs. exact Hs.
Qed.

Lemma decode_step c src c' src' r : decode c src = (c', src', r) -> step_ok src src' r.
Proof.
  unfold decode. destruct (resolve_pending c src) as [[c1 s1]|] eqn:E.
  - intros [Hc Hm]%decode_resolved_step. apply resolve_pending_consumed in E. split.
    + by eapply consumed_trans.
    + intros m Hr. specialize (Hm m Hr). apply consumed_length in E. lia.
  - intros [= <- <- <-]. split; [apply consumed_refl|done].
Qed.
End progress.

(** C12: the decoder makes progress and invents nothing.  Whatever bytes it is given, what it
    leaves is a suffix of its buffer, and each message it returns costs at least one byte; so
    taking messages until it asks for more always stops, within one step per byte. *)
Theorem decode_progress {M} `{!WireSerde M} (c : ProdCodeCodec) (src : bytes) :
  (forall c' src' r, decode c src = (c', src', r) ->
     consumed src src' /\ (forall m : WireMessage M, r = Ok (Some m) -> zlen src' < zlen src))
  /\ (forall n, (length src < n)%nat -> @drain M _ n c src = drain (S (length src)) c src).
Proof.
  split.
  - intros c' src' r H%decode_step. destruct H as [Hc Hm]. split; [done|].
    intros m Hr. specialize (Hm m Hr). unfold zlen. lia.
  - intros n. revert c src. assert (Hgen : forall k n c src, (length src < n)%nat ->
      (length src < k)%nat -> @drain M _ n c src = drain k c src); [|intros; apply Hgen; lia].
    induction k as [|k IH]; intros [|n'] c src Hn Hk; try lia. cbn [drain].
    destruct (decode c src) as [[c' s'] [[m|]|e]] eqn:E; [|done..].
    apply decode_step in E as [_ Hm]. specialize (Hm m eq_refl). by rewrite (IH n') by lia.
Qed.

(** ** HTTP probes *)

(** A header block: lines that are not empty and hold no carriage return, each ended by CRLF. *)
Definition header_lines (ls : list bytes) : bytes := concat (map (fun l => l ++ crlf) ls).
Definition header_line (l : bytes) : Prop := l <> [] /\ x0d ∉ l.

Lemma starts_with_other c p b s : c <> b -> starts_with (c :: p) (b :: s) = false.
Proof. intros H. unfold starts_with. simpl. by destruct (byte_eqb_spec c b). Qed.

(** The blank line after the header lines is the first CRLF CRLF. *)
Lemma find_blank_line ls rest :
  ls <> [] -> Forall header_line ls ->
  find_sub (crlf ++ crlf) (header_lines ls ++ crlf ++ rest) = Some (zlen (header_lines ls) - 2).
Proof.
  induction ls as [|l ls IH]; intros Hne Hls; [done|]. inversion_clear Hls as [|?? [Hl Hcr] Hls'].
  unfold header_lines. cbn [map concat]. fold (header_lines ls).
  rewrite <- !app_assoc. change (crlf ++ crlf) with (x0d :: [x0a; x0d; x0a]).
  rewrite (find_sub_skip x0d _ l) by done.
  destruct ls as [|l' ls].
  - change (header_lines [] ++ crlf ++ rest) with (crlf ++ rest).
    change (crlf ++ crlf ++ rest) with ((x0d :: [x0a; x0d; x0a]) ++ rest).
    rewrite find_sub_here. cbn [fmap option_fmap option_map]. rewrite !zlen_app.
    change (zlen crlf) with 2. change (zlen (header_lines [])) with 0. f_equal. lia.
  - assert (Hskip : forall s, (exists b s', s = b :: s' /\ x0d <> b) ->
      find_sub (x0d :: [x0a; x0d; x0a]) (crlf ++ s)
      = (fun i => 2 + i) <$> find_sub (x0d :: [x0a; x0d; x0a]) s).
    { intros s (b & s' & -> & Hb). change (crlf ++ b :: s') with (x0d :: x0a :: b :: s').
      assert (starts_with (x0d :: [x0a; x0d; x0a]) (x0d :: x0a :: b :: s') = false) as E.
      { unfold starts_with. simpl. by destruct (byte_eqb_spec x0d b). }
      cbn [find_sub]. rewrite E, starts_with_other by done.
      destruct (if starts_with _ _ then _ else _); simpl; [|done]. f_equal. lia. }
    rewrite Hskip.
    + change (x0d :: [x0a; x0d; x0a]) with (crlf ++ crlf). rewrite IH by done. cbn [fmap option_fmap option_map]. rewrite !zlen_app.
      change (zlen crlf) with 2. f_equal. lia.
    + inversion_clear Hls' as [|?? [Hl' Hcr'] _]. unfold header_lines. simpl.
      destruct l' as [|b l']; [done|]. eexists b, _. split; [done|]. set_solver.
Qed.

Lemma rfc_token_graphic b : is_rfc_token_byte b = true -> is_ascii_graphic b = true.
Proof. by destruct b. Qed.
Lemma target_graphic b : is_target_byte b = true -> is_ascii_graphic b = true.
Proof. unfold is_target_byte. rewrite graphic_range. lia. Qed.

Definition http_method (m : bytes) : Prop :=
  m <> [] /\ zlen m <= 64 /\ Forall (fun b => is_rfc_token_byte b = true) m.
Definition http_target (t : bytes) : Prop := t <> [] /\ Forall (fun b => is_target_byte b = true) t.

Definition request_line (method path version : bytes) : bytes :=
  method ++ x20 :: path ++ x20 :: B "HTTP/" ++ version.

Lemma graphic_no_space w : graphic w -> Forall (fun b => (u8 b =? 32) = false) w.
Proof.
  intros H. eapply Forall_impl; [exact H|]. intros b Hb%graphic_range. lia.
Qed.

Lemma forallb_Forall {A} (f : A -> bool) l : Forall (fun x => f x = true) l -> forallb f l = true.
Proof. intros H. apply forallb_forall. by apply List.Forall_forall. Qed.

Lemma request_line_app method path version rest :
  request_line method path version ++ rest
  = method ++ x20 :: path ++ x20 :: B "HTTP/" ++ version ++ rest.
Proof. unfold request_line. by repeat (rewrite <- app_assoc || rewrite <- app_comm_cons). Qed.

Lemma zdrop_past (a : bytes) b s : zdrop (zlen a + 1) (a ++ b :: s) = s.
Proof.
  change (a ++ b :: s) with (a ++ [b] ++ s). rewrite app_assoc. apply zdrop_app_exact.
  by rewrite zlen_app.
Qed.

Lemma request_is_http method path version rest :
  http_method method -> http_target path ->
  is_http (request_line method path version ++ rest) = true.
Proof.
  intros (Hm & Hlen & Hmt) [Hp Hpt]. unfold is_http. destruct (starts_with _ _); [done|].
  assert (Hmg : graphic method) by (eapply Forall_impl; [exact Hmt|apply rfc_token_graphic]).
  assert (Hpg : graphic path) by (eapply Forall_impl; [exact Hpt|apply target_graphic]).
  rewrite request_line_app, position_skip, zdrop_past by (auto using graphic_no_space).
  assert (1 <= zlen method)
    by (destruct method; [done|]; rewrite zlen_cons; pose proof (zlen_nonneg method); lia).
  replace (1 <=? zlen method) with true by lia. replace (zlen method <=? 64) with true by lia.
  rewrite ztake_app_exact, (forallb_Forall _ _ Hmt) by done. cbn [andb].
  rewrite position_skip, zdrop_past by (auto using graphic_no_space).
  rewrite ztake_app_exact, (forallb_Forall _ _ Hpt), bool_decide_eq_false_2 by done.
  rewrite starts_with_app, orb_true_r. by destruct (path ++ _) eqn:E.
Qed.

Lemma request_line_chars method path version :
  graphic method -> graphic path -> graphic version ->
  ascii (request_line method path version)
  /\ (forall z, u8 z < 32 -> z ∉ request_line method path version).
Proof.
  intros Hmg Hpg Hv.
  assert (Hsp : Forall (fun b => is_ascii_graphic b = true \/ b = x20)
    (request_line method path version)).
  { unfold request_line. apply Forall_app. split; [eapply Forall_impl; [exact Hmg|auto]|].
    constructor; [auto|]. apply Forall_app. split; [eapply Forall_impl; [exact Hpg|auto]|].
    constructor; [auto|]. apply Forall_app.
    split; [repeat constructor|eapply Forall_impl; [exact Hv|auto]]. }
  split.
  - eapply Forall_impl; [exact Hsp|].
    intros b [Hb%graphic_range| ->]; [unfold is_ascii; lia|done].
  - intros z Hz Hin. rewrite Forall_forall in Hsp.
    destruct (Hsp z Hin) as [Hb%graphic_range| ->]; [lia|done].
Qed.

(** An HTTP request is answered as such, on whatever connection it arrives.  A request whose
    method is a token of at most 64 characters and whose target is printable, with any header
    lines, decodes to the probe of that method and target, exactly its header block is consumed,
    and the codec's framing state is left alone. *)
Theorem http_request_decoded {M} `{!WireSerde M} (c : ProdCodeCodec)
    (method path version : bytes) (headers : list bytes) (rest : bytes) :
  pending_trailing_nul c = false ->
  http_method method -> http_target path -> graphic version -> Forall header_line headers ->
  decode c (header_lines (request_line method path version :: headers) ++ crlf ++ rest)
  = (c, rest, @Ok (option (WireMessage M)) _ (Some (HttpProbe method path))).
Proof.
  intros Hpend Hm Hp Hv Hh.
  assert (Hmg : graphic method)
    by (destruct Hm as (_ & _ & H); eapply Forall_impl; [exact H|apply rfc_token_graphic]).
  assert (Hpg : graphic path)
    by (destruct Hp as [_ H]; eapply Forall_impl; [exact H|apply target_graphic]).
  destruct (request_line_chars method path version Hmg Hpg Hv) as [Hascii Hno].
  set (line := request_line method path version) in *.
  set (hs := header_lines (line :: headers)).
  assert (Hhs : hs = line ++ crlf ++ header_lines headers) by (unfold hs, header_lines; cbn [map concat]; by rewrite <- app_assoc).
  assert (Hlines : Forall header_line (line :: headers)).
  { constructor; [|done]. split; [|by apply Hno]. unfold line, request_line.
    destruct method; [|done]. by destruct Hm. }
  assert (H2 : 2 <= zlen hs).
  { rewrite Hhs, !zlen_app. change (zlen crlf) with 2. pose proof (zlen_nonneg line).
    pose proof (zlen_nonneg (header_lines headers)). lia. }
  unfold decode, resolve_pending. rewrite Hpend. cbn [negb]. unfold decode_resolved.
  assert (Hfb := find_blank_line (line :: headers) rest ltac:(done) Hlines). fold hs in Hfb.
  replace (zlen (hs ++ crlf ++ rest) <? 4) with false
    by (rewrite !zlen_app; change (zlen crlf) with 2; pose proof (zlen_nonneg rest); lia).
  assert (is_http (hs ++ crlf ++ rest) = true) as ->.
  { rewrite Hhs, <- app_assoc. by apply request_is_http. }
  unfold decode_http, header_end. rewrite Hfb.
  assert (Hcut : zlen hs - 2 + 4 = zlen (hs ++ crlf)) by (rewrite zlen_app; change (zlen crlf) with 2; lia).
  rewrite app_assoc, Hcut, zdrop_app_exact, ztake_app_exact by done.
  assert (Hfirst : head (lines (utf8_lossy (hs ++ crlf))) = Some line).
  { rewrite Hhs, <- !app_assoc. change (crlf ++ ?x) with ([x0d; x0a] ++ x).
    rewrite (app_assoc line), utf8_lossy_ascii_app by (apply Forall_app; split; [done|by repeat constructor]).
    rewrite <- app_assoc. change (line ++ [x0d; x0a] ++ ?x) with (line ++ [x0d] ++ x0a :: x).
    rewrite app_assoc.
    rewrite lines_first, strip_cr_app; [done|]. rewrite elem_of_app.
    intros [Hin|Hin]; [by apply (Hno x0a)|]. set_solver. }
  rewrite Hfirst. simpl default. unfold line, request_line. destruct Hm as (Hne & _), Hp as (Hpne & _).
  rewrite split_whitespace_word, split_whitespace_word by done. done.
Qed.

(** ** A two-message protocol

    A concrete serializer that satisfies the laws, for the examples: the messages are booleans
    and their texts two JSON objects. *)

Definition bit_text (b : bool) : bytes := 
  [x7b; x22] ++ B "on" ++ [x22] ++ B ":" ++ (if b then B "1" else B "0") ++ [x7d].

#[export] Instance bit_serde : WireSerde bool := {
  from_slice s := if decide (s = bit_text true) then Some (Structured true)
                  else if decide (s = bit_text false) then Some (Structured false) else None;
  to_writer m := match m with
                 | Structured b => ([ztake 5 (bit_text b); zdrop 5 (bit_text b)], true)
                 | _ => ([B "{"], false)
                 end
}.

#[export] Program Instance bit_serde_laws : WireSerdeLaws bool := { text := bit_text }.
Next Obligation. intros m. eexists. split; [done|]. by destruct m. Qed.
Next Obligation. by intros []. Qed.
Next Obligation. intros []; by eexists. Qed.
Next Obligation. intros m. unfold bit_text. eexists. by rewrite !app_assoc. Qed.
Next Obligation. done. Qed.
Next Obligation.
  intros m w p q Ht Hp _. destruct p as [|b p]; [done|].
  assert (b = x7b) as -> by (by injection Ht).
  unfold from_slice, bit_serde. rewrite !decide_False; [done|intros H; cbv in H; congruence..].
Qed.

Lemma unmarked_stream_decoded_witness :
  let s := encode_stream new [true; false] in
  exists c', feed new [] [ztake 5 s; zdrop 5 s] = (c', [], map Structured [true; false], None)
    /\ decode_eof c' [] = (c', [], Ok None).
Proof.
  apply (unmarked_stream_decoded [true; false]).
  - repeat constructor; vm_compute; discriminate.
  - vm_compute. reflexivity.
Defined.

Lemma marked_stream_decoded_witness :
  let s := encode_stream (with_nul_marker new true) [true; false] in
  exists c' rest c'',
    feed new [] [ztake 13 s; zdrop 13 s] = (c', rest, map Structured [true; false], None)
    /\ decode_eof c' rest = (c'', [], Ok None).
Proof.
  apply (marked_stream_decoded new [true; false]).
  - left. reflexivity.
  - repeat constructor; vm_compute; discriminate.
  - vm_compute. reflexivity.
Defined.

Lemma encode_all_or_nothing_witness :
  B "old" = B "old" /\ encode_ref_bounded new (Structured true) (B "old") 4 = (B "old", Err SerializeFailed).
Proof.
  split; [|vm_compute; reflexivity].
  apply (encode_all_or_nothing new (Structured true) (B "old") 4 (B "old") (Err SerializeFailed)).
  vm_compute. reflexivity.
Defined.

Lemma http_request_decoded_witness :
  decode new (header_lines [request_line (B "GET") (B "/health") (B "1.1"); B "Host: a"] ++ crlf ++ B "x")
  = (new, B "x", @Ok (option (WireMessage bool)) _ (Some (HttpProbe (B "GET") (B "/health")))).
Proof.
  apply (http_request_decoded new (B "GET") (B "/health") (B "1.1") [B "Host: a"] (B "x")).
  - reflexivity.
  - split_and!; [discriminate|vm_compute; discriminate|repeat constructor].
  - split; [discriminate|repeat constructor].
  - repeat constructor.
  - repeat constructor; [discriminate|]. intros H. vm_compute in H. set_solver.
Defined.
