(* ===== verification/Negotiation.v ===== *)
(** * Version and capability negotiation (crates/prod-code-protocol/src/negotiation.rs)

    The gateway picks the highest protocol version both peers implement and intersects the
    capabilities the client offers with its own; the client checks the version it is handed
    before it sends anything else.  The handshake messages are those of messages/handshake.rs. *)

From Stdlib Require Import Strings.Byte.
From S2P Require Import Prelude RustStr.

(** ** Handshake messages *)

Record ClientCapabilities := mkClientCaps {
  c_direct_edit : bool; c_watch_files : bool; c_indexing_status : bool; c_shadow_runs : bool;
  c_multi_root : bool; c_sync_chunking : bool; c_unix_socket_local : bool; c_redirects : bool
}.

Record ServerCapabilities := mkServerCaps {
  direct_edit : bool; watch_files : bool; indexing_status : bool; shadow_runs : bool;
  multi_root : bool; sync_chunking : bool; unix_socket_local : bool
}.

(** [u32] fields are [Z]. *)
Record HandshakeRequest := mkHandshake {
  protocol_version : Z;
  supported_versions : option (list Z);
  capabilities : option ClientCapabilities;
  client_name : bytes;
  client_pid : Z;
  auth_token : option bytes;
  client_workspace_root : bytes;
  preferred_engine : option bytes;
  base_workspace_name : option bytes;
  engine_subpath : option bytes;
  client_agent : option bytes;
  client_host : option bytes;
  purpose : option bytes;
  redirect_count : Z;
  refused_by : list bytes
}.

(** ** Operations *)

Definition PROTOCOL_VERSION : Z := 1.
Definition SUPPORTED_PROTOCOL_VERSIONS : list Z := [PROTOCOL_VERSION].
Definition supported_protocol_versions : list Z := SUPPORTED_PROTOCOL_VERSIONS.

(** [cfg!(unix)] is the argument. *)
Definition default_server_capabilities (unix : bool) : ServerCapabilities := {|
  direct_edit := true;
  watch_files := true;
  indexing_status := true;
  shadow_runs := true;
  multi_root := true;
  sync_chunking := false;
  unix_socket_local := unix
|}.

Definition negotiate_capabilities (client_offer : option ClientCapabilities)
    (server_supported : ServerCapabilities) : ServerCapabilities :=
  match client_offer with
  | Some client => {|
      direct_edit := c_direct_edit client && direct_edit server_supported;
      watch_files := c_watch_files client && watch_files server_supported;
      indexing_status := c_indexing_status client && indexing_status server_supported;
      shadow_runs := c_shadow_runs client && shadow_runs server_supported;
      multi_root := c_multi_root client && multi_root server_supported;
      sync_chunking := c_sync_chunking client && sync_chunking server_supported;
      unix_socket_local := c_unix_socket_local client && unix_socket_local server_supported
    |}
  | None => server_supported
  end.

Inductive ProtocolNegotiationError :=
| EmptyOffer
| NoCommonVersion (offered supported : list Z)
| SelectedVersionNotOffered (selected : Z) (offered : list Z)
| SelectedVersionNotSupported (selected : Z) (supported : list Z).

(** [{:?}] of a [Vec<u32>]. *)
Definition debug_versions (vs : list Z) : bytes := B "[" ++ join (B ", ") (map show vs) ++ B "]".

(** [Display]. *)
Definition fmt (e : ProtocolNegotiationError) : bytes :=
  match e with
  | EmptyOffer => B "protocol version offer is empty"
  | NoCommonVersion offered supported =>
      B "no compatible protocol version (client offered " ++ debug_versions offered
      ++ B ", server supports " ++ debug_versions supported ++ B ")"
  | SelectedVersionNotOffered selected offered =>
      B "gateway selected protocol version " ++ show selected
      ++ B ", which the client did not offer " ++ debug_versions offered
  | SelectedVersionNotSupported selected supported =>
      B "gateway selected protocol version " ++ show selected
      ++ B ", which this client does not implement (supported " ++ debug_versions supported ++ B ")"
  end.

(** [Iterator::max]. *)
Definition iter_max (l : list Z) : option Z :=
  match l with [] => None | x :: l => Some (foldl Z.max x l) end.

Definition negotiate_protocol_version (request : HandshakeRequest)
    : result Z ProtocolNegotiationError :=
  let choose (offered : list Z) :=
    match iter_max (filter (fun version => version ∈ SUPPORTED_PROTOCOL_VERSIONS) offered) with
    | Some v => Ok v
    | None => Err (NoCommonVersion offered SUPPORTED_PROTOCOL_VERSIONS)
    end in
  match supported_versions request with
  | Some [] => Err EmptyOffer
  | Some offered => choose offered
  | None => choose [protocol_version request]
  end.

Definition validate_selected_protocol_version (selected : Z) (offered : list Z)
    : result unit ProtocolNegotiationError :=
  match offered with
  | [] => Err EmptyOffer
  | _ =>
      if negb (bool_decide (selected ∈ offered)) then Err (SelectedVersionNotOffered selected offered)
      else if negb (bool_decide (selected ∈ SUPPORTED_PROTOCOL_VERSIONS)) then
        Err (SelectedVersionNotSupported selected SUPPORTED_PROTOCOL_VERSIONS)
      else Ok tt
  end.

(** ** Properties *)

(** What a request offers: its list, or its single version when it has none. *)
Definition offer (request : HandshakeRequest) : list Z :=
  default [protocol_version request] (supported_versions request).

Lemma foldl_max_spec x l :
  foldl Z.max x l ∈ x :: l /\ (forall y, y ∈ x :: l -> y <= foldl Z.max x l).
Proof.
  revert x. induction l as [|z l IH]; intros x; simpl.
  - split; [set_solver|]. intros y Hy%list_elem_of_singleton. lia.
  - destruct (IH (Z.max x z)) as [Hin Hmax]. split.
    + apply elem_of_cons in Hin as [->|Hin]; [|set_solver].
      destruct (Z.max_spec x z) as [[_ ->]|[_ ->]]; set_solver.
    + intros y Hy. pose proof (Hmax (Z.max x z) ltac:(set_solver)).
      apply elem_of_cons in Hy as [->|Hy]; [lia|]. apply elem_of_cons in Hy as [->|Hy]; [lia|].
      apply Hmax. set_solver.
Qed.

Lemma iter_max_spec l :
  match iter_max l with
  | Some m => m ∈ l /\ (forall y, y ∈ l -> y <= m)
  | None => l = []
  end.
Proof. destruct l; [done|]. apply foldl_max_spec. Qed.

Lemma validate_ok selected offered :
  validate_selected_protocol_version selected offered = Ok tt
  <-> selected ∈ offered /\ selected ∈ SUPPORTED_PROTOCOL_VERSIONS.
Proof.
  unfold validate_selected_protocol_version. destruct offered as [|v offered]; [set_solver|].
  repeat case_bool_decide; simpl; naive_solver.
Qed.

(** Version negotiation is sound, optimal and complete.  A version the gateway picks is
    offered by the client, implemented by the gateway, at least every other common version, and
    passes the check the client makes on it; a refusal says the offer is empty or names the
    two version lists, which then really have nothing in common. *)
Theorem negotiate_protocol_version_correct (request : HandshakeRequest) :
  match negotiate_protocol_version request with
  | Ok v =>
      v ∈ offer request /\ v ∈ SUPPORTED_PROTOCOL_VERSIONS
      /\ (forall w, w ∈ offer request -> w ∈ SUPPORTED_PROTOCOL_VERSIONS -> w <= v)
      /\ validate_selected_protocol_version v (offer request) = Ok tt
  | Err EmptyOffer => offer request = []
  | Err (NoCommonVersion offered supported) =>
      offered = offer request /\ offered <> [] /\ supported = SUPPORTED_PROTOCOL_VERSIONS
      /\ (forall w, w ∈ offered -> w ∉ supported)
  | Err _ => False
  end.
Proof.
  assert (Hchoose : forall offered, offered <> [] ->
    match iter_max (filter (fun v => v ∈ SUPPORTED_PROTOCOL_VERSIONS) offered) with
    | Some v => v ∈ offered /\ v ∈ SUPPORTED_PROTOCOL_VERSIONS
        /\ (forall w, w ∈ offered -> w ∈ SUPPORTED_PROTOCOL_VERSIONS -> w <= v)
        /\ validate_selected_protocol_version v offered = Ok tt
    | None => forall w, w ∈ offered -> w ∉ SUPPORTED_PROTOCOL_VERSIONS
    end).
  { intros offered _. pose proof (iter_max_spec (filter (fun v => v ∈ SUPPORTED_PROTOCOL_VERSIONS) offered)) as H.
    destruct (iter_max _) as [v|].
    - destruct H as [[Hs Ho]%list_elem_of_filter Hmax]. split_and!; [done..| |by apply validate_ok].
      intros w Hw Hws. apply Hmax. by apply list_elem_of_filter.
    - intros w Hw Hws. assert (Hin : w ∈ filter (fun v => v ∈ SUPPORTED_PROTOCOL_VERSIONS) offered)
        by (by apply list_elem_of_filter). rewrite H in Hin. set_solver. }
  unfold negotiate_protocol_version, offer.
  destruct (supported_versions request) as [[|v vs]|]; cbn [default]; [done|..].
  - specialize (Hchoose (v :: vs) ltac:(done)). by destruct (iter_max _).
  - specialize (Hchoose [protocol_version request] ltac:(done)). by destruct (iter_max _).
Qed.

(** Capabilities ordered by what they grant. *)
Definition caps_le (a b : ServerCapabilities) : Prop :=
  (direct_edit a -> direct_edit b) /\ (watch_files a -> watch_files b)
  /\ (indexing_status a -> indexing_status b) /\ (shadow_runs a -> shadow_runs b)
  /\ (multi_root a -> multi_root b) /\ (sync_chunking a -> sync_chunking b)
  /\ (unix_socket_local a -> unix_socket_local b).

(** The capabilities a client offers, without the one that is not granted back. *)
Definition offered_caps (c : ClientCapabilities) : ServerCapabilities :=
  mkServerCaps (c_direct_edit c) (c_watch_files c) (c_indexing_status c) (c_shadow_runs c)
    (c_multi_root c) (c_sync_chunking c) (c_unix_socket_local c).

(** Capability negotiation grants the most both sides allow: never more than the client
    offers nor more than the server supports, and everything that is within both; a client
    that offers no list gets what the server supports. *)
Theorem negotiate_capabilities_greatest (client : ClientCapabilities) (server : ServerCapabilities) :
  (forall caps, caps_le caps (negotiate_capabilities (Some client) server)
     <-> caps_le caps (offered_caps client) /\ caps_le caps server)
  /\ negotiate_capabilities None server = server.
Proof.
  split; [|done]. intros caps. unfold caps_le, negotiate_capabilities, offered_caps; simpl.
  rewrite !andb_True. tauto.
Qed.
