(* ===== verification/Json.v ===== *)
(** * JSON values as the program handles them

    [serde_json::Value] with the accessors the sources call.  Objects are [BTreeMap]s: an
    association list here, looked up by key.  Printing a value back as text is serde_json's
    and stays a parameter where it is needed. *)

From Stdlib Require Import Strings.Byte.
From S2P Require Import Prelude RustStr.

#[local] Set Warnings "-register-all".

(** [serde_json::Number]: a [u64], a negative [i64] or a float, kept as its text. *)
Inductive JsonNumber :=
| PosInt (n : Z)
| NegInt (n : Z)
| Float (text : bytes).

Inductive Value :=
| Null
| Bool (b : bool)
| Number (n : JsonNumber)
| String (s : bytes)
| Array (items : list Value)
| Object (members : list (bytes * Value)).

#[export] Instance json_number_eq_decision : EqDecision JsonNumber.
Proof. solve_decision. Defined.

#[export] Instance value_eq_decision : EqDecision Value.
Proof.
  refine (fix go (v w : Value) : Decision (v = w) :=
    match v, w with
    | Null, Null => left eq_refl
    | Bool a, Bool b => cast_if (decide (a = b))
    | Number a, Number b => cast_if (decide (a = b))
    | String a, String b => cast_if (decide (a = b))
    | Array a, Array b => cast_if (@list_eq_dec _ go a b)
    | Object a, Object b => cast_if (@list_eq_dec _ (@prod_eq_dec bytes _ Value go) a b)
    | _, _ => right _
    end); try discriminate; congruence.
Defined.

Fixpoint assoc {A} (key : bytes) (members : list (bytes * A)) : option A :=
  match members with
  | [] => None
  | (k, v) :: rest => if bool_decide (k = key) then Some v else assoc key rest
  end.

(** [value.get(key)]. *)
Definition get (v : Value) (key : bytes) : option Value :=
  match v with Object members => assoc key members | _ => None end.

(** [value.pointer("/a/b")], for keys that are not array indices. *)
Definition pointer (v : Value) (keys : list bytes) : option Value :=
  foldl (fun o key => v ← o; get v key) (Some v) keys.

Definition as_str (v : Value) : option bytes :=
  match v with String s => Some s | _ => None end.

Definition as_u64 (v : Value) : option Z :=
  match v with Number (PosInt n) => Some n | _ => None end.

Definition as_i64 (v : Value) : option Z :=
  match v with
  | Number (PosInt n) => if n <=? 2 ^ 63 - 1 then Some n else None
  | Number (NegInt n) => if n <? 0 then Some n else None
  | _ => None
  end.

Definition as_array (v : Value) : option (list Value) :=
  match v with Array l => Some l | _ => None end.

Definition as_bool (v : Value) : option bool :=
  match v with Bool b => Some b | _ => None end.

(** [value.get(key).and_then(|v| v.as_str())]. *)
Definition get_str (v : Value) (key : bytes) : option bytes := get v key ≫= as_str.

(** Induction on a value through its arrays and objects. *)
Lemma Value_nested_ind (P : Value -> Prop) :
  P Null -> (forall b, P (Bool b)) -> (forall n, P (Number n)) -> (forall s, P (String s)) ->
  (forall l, Forall P l -> P (Array l)) ->
  (forall l, Forall (fun e => P e.2) l -> P (Object l)) ->
  forall v, P v.
Proof.
  intros Hn Hb Hnum Hs Ha Ho. fix IH 1. intros [|b|n|s|items|members].
  - exact Hn.
  - apply Hb.
  - apply Hnum.
  - apply Hs.
  - apply Ha. induction items as [|x l IHl]; constructor; [apply IH|exact IHl].
  - apply Ho. induction members as [|[k x] l IHl]; constructor; [apply IH|exact IHl].
Qed.
