(* ===== verification/TextEdits.v ===== *)
(** * Applying LSP text edits

    [refactor/edits.rs] of the MCP server: an analyzer's answer names ranges by line and
    character, the character counted in UTF-16 code units; the edits are turned into byte ranges
    of the text and applied from the end backwards.  The crate's own scanners count Unicode
    scalar values instead, so the width of a character is an argument. *)

From Stdlib Require Import Strings.Byte.
From S2P Require Import Prelude RustStr Utf8 Json.

(** ** The code *)

(** How an edit fails: the error the code returns, or the panic of [replace_range] on a range
    that cuts a character. *)
Inductive EditError :=
| OutOfBounds (start end_ : Z)
| Panic.

(** A byte range of the text and what replaces it. *)
Record span := Span { start : Z; end_ : Z; new_text : bytes }.

Definition range_at (edit : Value) (side part : bytes) : option Z :=
  pointer edit [B "range"; side; part] ≫= as_u64.

Definition newText (edit : Value) : bytes := default [] (get_str edit (B "newText")).

Definition columns (width : bytes -> Z) (s : bytes) : Z :=
  foldr (fun c n => width c + n) 0 (chars s).

Definition is_full_replacement (width : bytes -> Z) (text : bytes) (edits : list Value) : bool :=
  let line_count := zlen (lines text) in
  match edits with
  | [edit] =>
      bool_decide (range_at edit (B "start") (B "line") = Some 0)
      && bool_decide (range_at edit (B "start") (B "character") = Some 0)
      && (let end_line := default 0 (range_at edit (B "end") (B "line")) in
          let end_char := default 0 (range_at edit (B "end") (B "character")) in
          (line_count <=? end_line)
          || ((end_line =? Z.max 0 (line_count - 1))
              && (default 0 (columns width <$> last (lines text)) <=? end_char)))
  | _ => false
  end.

Definition line_starts (text : bytes) : list Z :=
  0 :: map (fun p => p.1 + 1) (filter (fun p => p.2 = [x0a]) (char_indices text)).

(** The loop of [offset]: the first character at or past the column. *)
Fixpoint column_offset (width : bytes -> Z) (character units : Z) (cs : list (Z * bytes))
    (end_of_line : Z) : Z :=
  match cs with
  | [] => end_of_line
  | (i, c) :: cs' =>
      if character <=? units then i
      else column_offset width character (units + width c) cs' end_of_line
  end.

Definition offset (width : bytes -> Z) (text : bytes) (line character : Z) : Z :=
  let start := default (zlen text) (line_starts text !! Z.to_nat line) in
  let rest := zdrop start text in
  let end_of_line := default (zlen rest) (find_sub [x0a] rest) in
  start + column_offset width character 0 (char_indices (ztake end_of_line rest)) end_of_line.

Definition edit_span (width : bytes -> Z) (text : bytes) (e : Value) : span :=
  let sl := default 0 (range_at e (B "start") (B "line")) in
  let sc := default 0 (range_at e (B "start") (B "character")) in
  let el := default sl (range_at e (B "end") (B "line")) in
  let ec := default sc (range_at e (B "end") (B "character")) in
  Span (offset width text sl sc) (offset width text el ec) (newText e).

(** [String::replace_range]: panics unless both ends are character boundaries. *)
Definition replace_range (out : bytes) (a b : Z) (new : bytes) : result bytes EditError :=
  if is_char_boundary out a && is_char_boundary out b
  then Ok (ztake a out ++ new ++ zdrop b out)
  else Err Panic.

Fixpoint apply_spans (out : bytes) (spans : list span) : result bytes EditError :=
  match spans with
  | [] => Ok out
  | Span a b new :: rest =>
      if (b <? a) || (zlen out <? b) then Err (OutOfBounds a b)
      else match replace_range out a b new with
           | Ok out' => apply_spans out' rest
           | Err e => Err e
           end
  end.

(** [sort_by_key(|span| Reverse(span.0))]. *)
Definition later_first (x y : span) : bool := start y <=? start x.

Definition apply_edits_counting (width : bytes -> Z) (text : bytes) (edits : list Value)
    : result bytes EditError :=
  if is_full_replacement width text edits
  then Ok (default [] (edits !! 0%nat ≫= (fun e => get_str e (B "newText"))))
  else apply_spans text (sort_by later_first (map (edit_span width text) edits)).

Definition apply_text_edits := apply_edits_counting len_utf16.
Definition apply_scalar_text_edits := apply_edits_counting (fun _ => 1).

(** ** What the edits should do: all of them at once, on the original text *)

(** The text from [from] on with ascending, disjoint spans replaced. *)
Fixpoint splice (from : Z) (text : bytes) (spans : list span) : bytes :=
  match spans with
  | [] => zdrop from text
  | Span a b new :: rest => slice from a text ++ new ++ splice b text rest
  end.

Definition earlier_first (x y : span) : bool := start x <=? start y.

(** [x] ends where [y] starts or before, and they do not start together. *)
Definition before (x y : span) : bool := (start x <? start y) && (end_ x <=? start y).

(** Two edits of a request: neither touches what the other replaces. *)
Fixpoint disjoint_spans (spans : list span) : bool :=
  match spans with
  | [] => true
  | x :: rest => forallb (fun y => before x y || before y x) rest && disjoint_spans rest
  end.

(** Every span of the text: in order, inside it, and on character boundaries. *)
Definition span_ok (text : bytes) (x : span) : Prop :=
  0 <= start x <= end_ x /\ end_ x <= zlen text
  /\ is_char_boundary text (start x) = true /\ is_char_boundary text (end_ x) = true
  /\ utf8_valid (new_text x) = true.

(** ** Offsets *)

(** A position of a valid text: what is before it and after it is valid. *)
Definition is_position (text : bytes) (i : Z) : Prop :=
  exists a b, text = a ++ b /\ i = zlen a /\ utf8_valid a = true /\ utf8_valid b = true.

Lemma is_position_boundary text i : is_position text i -> is_char_boundary text i = true.
Proof. intros (a & b & -> & -> & _ & Hb). by apply boundary_app. Qed.

Lemma is_position_range text i : is_position text i -> 0 <= i <= zlen text.
Proof.
  intros (a & b & -> & -> & _). rewrite zlen_app.
  pose proof (zlen_nonneg a). pose proof (zlen_nonneg b). lia.
Qed.

Lemma char_indices_from_shift i j cs :
  char_indices_from (i + j) cs = map (fun p => (i + p.1, p.2)) (char_indices_from j cs).
Proof.
  revert j. induction cs as [|c cs IH]; intros j; simpl; [done|].
  by rewrite <- Z.add_assoc, IH.
Qed.

(** Each index is where its character is. *)
Lemma char_indices_from_elem i cs p :
  p ∈ char_indices_from i cs ->
  exists cs1 cs2, cs = cs1 ++ p.2 :: cs2 /\ p.1 = i + zlen (concat cs1).
Proof.
  revert i. induction cs as [|c cs IH]; intros i; simpl; [by intros ?%not_elem_of_nil|].
  intros [->|Hp]%elem_of_cons.
  - exists [], cs. simpl. rewrite zlen_nil. split; [done|lia].
  - destruct (IH _ Hp) as (cs1 & cs2 & -> & Hi). exists (c :: cs1), cs2.
    simpl. rewrite zlen_app. split; [done|lia].
Qed.

Lemma char_position text cs1 cs2 :
  Forall (fun c => is_char c = true) (cs1 ++ cs2) -> text = concat (cs1 ++ cs2) ->
  is_position text (zlen (concat cs1)).
Proof.
  intros [H1 H2]%Forall_app ->. exists (concat cs1), (concat cs2).
  rewrite concat_app. auto using utf8_valid_concat.
Qed.

Lemma is_position_0 text : utf8_valid text = true -> is_position text 0.
Proof. intros. by exists [], text. Qed.
Lemma is_position_len text : utf8_valid text = true -> is_position text (zlen text).
Proof. intros. exists text, []. by rewrite app_nil_r. Qed.

Lemma line_starts_position text i : utf8_valid text = true -> i ∈ line_starts text -> is_position text i.
Proof.
  intros Hv. unfold line_starts. intros [->|H]%elem_of_cons; [by apply is_position_0|].
  apply list_elem_of_In, in_map_iff in H as ([j c] & <- & Hin). apply list_elem_of_In in Hin.
  apply list_elem_of_filter in Hin as [Hc Hin]. simpl in *. subst c.
  destruct (char_indices_from_elem _ _ _ Hin) as (cs1 & cs2 & Hcs & Hj). simpl in *.
  pose proof (concat_chars _ Hv) as Ht. pose proof (chars_is_char _ Hv) as Hch. rewrite Hcs in *.
  replace (j + 1) with (zlen (concat (cs1 ++ [[x0a]]))).
  - apply (char_position _ _ cs2); by rewrite <- app_assoc.
  - rewrite concat_app, zlen_app. change (zlen (concat [[x0a]])) with 1. lia.
Qed.

Lemma is_position_add text a i :
  is_position text a -> is_position (zdrop a text) i -> is_position text (a + i).
Proof.
  intros (p & q & -> & -> & Hp & Hq) (p' & q' & Hs & -> & Hp' & Hq').
  rewrite zdrop_app_exact in Hs by done. subst q. exists (p ++ p'), q'.
  rewrite <- app_assoc, zlen_app. auto using utf8_valid_app.
Qed.

(** The column loop returns the index of one of the characters, or the end. *)
Lemma column_offset_elem width character units cs e :
  column_offset width character units cs e = e
  \/ exists p, p ∈ cs /\ column_offset width character units cs e = p.1.
Proof.
  revert units. induction cs as [|[i c] cs IH]; intros units; simpl; [by left|].
  destruct (character <=? units); [right; exists (i, c); set_solver|].
  destruct (IH (units + width c)) as [->|(p & Hp & ->)]; [by left|right; exists p; set_solver].
Qed.

Lemma char_indices_position s p :
  utf8_valid s = true -> p ∈ char_indices s -> is_position s p.1.
Proof.
  intros Hv Hin. destruct (char_indices_from_elem _ _ _ Hin) as (cs1 & cs2 & Hcs & Hj).
  rewrite Hj, Z.add_0_l. apply (char_position _ _ (p.2 :: cs2)).
  - rewrite <- Hcs. by apply chars_is_char.
  - by rewrite <- Hcs, concat_chars.
Qed.

(** The first line of a valid text, and what is after it. *)
Lemma end_of_line_split s :
  utf8_valid s = true ->
  let e := default (zlen s) (find_sub [x0a] s) in
  is_position s e /\ utf8_valid (ztake e s) = true.
Proof.
  intros Hv e. subst e. destruct (find_sub [x0a] s) as [i|] eqn:E; cbn [default from_option].
  - apply find_sub_Some in E as (a & b & -> & ->). cbn [app] in *.
    destruct (utf8_valid_ascii_split a x0a b eq_refl Hv) as [Ha Hb].
    rewrite ztake_app_exact by done. split; [|done]. exists a, (x0a :: b).
    split_and!; [done|done|done|].
    destruct (boundary_split _ (zlen a) Hv) as [_ Hd]; [|by rewrite zdrop_app_exact in Hd].
    unfold is_char_boundary. rewrite at_app_r by lia. rewrite Z.sub_diag, at_cons_0.
    rewrite zlen_app, zlen_cons. pose proof (zlen_nonneg a). pose proof (zlen_nonneg b).
    change (cont x0a) with false. lia.
  - rewrite ztake_all by lia. split; [by apply is_position_len|done].
Qed.

Lemma is_position_prefix s e i :
  is_position s e -> is_position (ztake e s) i -> is_position s i.
Proof.
  intros (p & q & -> & -> & Hp & Hq) (p' & q' & Hs & -> & Hp' & Hq').
  rewrite ztake_app_exact in Hs by done. subst p. exists p', (q' ++ q).
  rewrite app_assoc. auto using utf8_valid_app.
Qed.

Lemma offset_position width text line character :
  utf8_valid text = true -> is_position text (offset width text line character).
Proof.
  intros Hv. unfold offset. cbv zeta. set (st := default (zlen text) _).
  assert (Hst : is_position text st).
  { subst st. destruct (line_starts text !! Z.to_nat line) eqn:E; simpl;
      [|by apply is_position_len]. apply line_starts_position; [done|].
    by eapply list_elem_of_lookup_2. }
  apply is_position_add; [done|].
  assert (Hr : utf8_valid (zdrop st text) = true).
  { destruct Hst as (a & b & -> & -> & _ & Hb). by rewrite zdrop_app_exact. }
  destruct (end_of_line_split _ Hr) as [He Hl].
  set (e := default (zlen (zdrop st text)) _) in *.
  destruct (column_offset_elem width character 0 (char_indices (ztake e (zdrop st text))) e)
    as [->|(p & Hp & ->)]; [done|].
  eapply is_position_prefix; [done|]. by apply char_indices_position.
Qed.

(** *** The offset of a line and column *)

Lemma no_newline_char s c : x0a ∉ s -> utf8_valid s = true -> c ∈ chars s -> c <> [x0a].
Proof.
  intros Hn Hv Hc ->. apply Hn. rewrite <- (concat_chars s Hv).
  apply list_elem_of_In, in_concat. exists [x0a]. split; [|by left]. by apply list_elem_of_In.
Qed.

Lemma char_indices_from_app i cs1 cs2 :
  char_indices_from i (cs1 ++ cs2)
  = char_indices_from i cs1 ++ char_indices_from (i + zlen (concat cs1)) cs2.
Proof.
  revert i. induction cs1 as [|c cs1 IH]; intros i; simpl.
  - by rewrite zlen_nil, Z.add_0_r.
  - by rewrite IH, zlen_app, Z.add_assoc.
Qed.

Lemma newlines_none i cs :
  (forall c, c ∈ cs -> c <> [x0a]) ->
  filter (fun p : Z * bytes => p.2 = [x0a]) (char_indices_from i cs) = [].
Proof.
  intros H. destruct (filter _ _) as [|p l] eqn:E; [done|].
  assert (Hp : p ∈ p :: l) by left. rewrite <- E in Hp.
  apply list_elem_of_filter in Hp as [Hp Hin].
  destruct (char_indices_from_elem _ _ _ Hin) as (cs1 & cs2 & -> & _). rewrite Hp in H.
  exfalso. apply (H [x0a]); set_solver.
Qed.

Lemma filter_shift d (l : list (Z * bytes)) :
  filter (fun p : Z * bytes => p.2 = [x0a]) (map (fun p => (d + p.1, p.2)) l)
  = map (fun p => (d + p.1, p.2)) (filter (fun p : Z * bytes => p.2 = [x0a]) l).
Proof.
  induction l as [|p l IH]; [done|]. cbn [map]. rewrite !filter_cons. simpl.
  destruct (decide (p.2 = [x0a])); simpl; by rewrite IH.
Qed.

(** The lines after the first start where they would in the rest of the text. *)
Lemma line_starts_cons l t :
  x0a ∉ l -> utf8_valid l = true -> utf8_valid t = true ->
  line_starts (l ++ x0a :: t) = 0 :: map (fun i => zlen l + 1 + i) (line_starts t).
Proof.
  intros Hn Hl Ht. unfold line_starts, char_indices at 1.
  change (x0a :: t) with ([x0a] ++ t).
  rewrite chars_app, chars_app by (done || by apply utf8_valid_app).
  change (chars [x0a]) with [[x0a]]. rewrite char_indices_from_app, filter_app, newlines_none
    by (intros; by eapply no_newline_char).
  cbn [app char_indices_from]. rewrite filter_cons_True by done. cbn [map fst].
  rewrite concat_chars by done. f_equal. f_equal; [lia|].
  replace (0 + zlen l + zlen [x0a]) with (zlen l + 1 + 0) by (change (zlen [x0a]) with 1; lia).
  rewrite char_indices_from_shift. fold (char_indices t). rewrite filter_shift, !map_map.
  apply map_ext. intros p. simpl. lia.
Qed.

Lemma offset_next width l t n character :
  0 <= n -> x0a ∉ l -> utf8_valid l = true -> utf8_valid t = true ->
  offset width (l ++ x0a :: t) (n + 1) character = zlen l + 1 + offset width t n character.
Proof.
  intros Hn0 Hn Hl Ht. unfold offset. cbv zeta. rewrite line_starts_cons by done.
  replace (Z.to_nat (n + 1)) with (S (Z.to_nat n)) by lia.
  change ((0 :: ?x) !! S ?k) with (x !! k).
  change (map (fun i => zlen l + 1 + i) (line_starts t)) with ((fun i => zlen l + 1 + i) <$> line_starts t).
  rewrite list_lookup_fmap.
  set (s := default (zlen t) (line_starts t !! Z.to_nat n)).
  assert (Hs : is_position t s).
  { subst s. destruct (line_starts t !! Z.to_nat n) eqn:E; simpl; [|by apply is_position_len].
    apply line_starts_position; [done|]. by eapply list_elem_of_lookup_2. }
  apply is_position_range in Hs. pose proof (zlen_nonneg l).
  replace (default (zlen (l ++ x0a :: t)) _) with (zlen l + 1 + s).
  - change (l ++ x0a :: t) with (l ++ [x0a] ++ t). rewrite app_assoc.
    rewrite <- (zdrop_zdrop s (zlen l + 1)) by lia. rewrite zdrop_app_exact; [lia|].
    rewrite zlen_app. done.
  - subst s. destruct (line_starts t !! Z.to_nat n); simpl; [done|].
    rewrite zlen_app, zlen_cons. lia.
Qed.

(** The column loop walks over the characters whose columns come before the one asked for. *)
Lemma column_offset_walk width cs1 cs2 i units e :
  (forall c, 0 < width c) -> e = i + zlen (concat (cs1 ++ cs2)) ->
  column_offset width (units + foldr (fun c n => width c + n) 0 cs1) units
    (char_indices_from i (cs1 ++ cs2)) e = i + zlen (concat cs1).
Proof.
  intros Hw. revert i units. induction cs1 as [|c cs1 IH]; intros i units He;
    cbn [foldr app concat char_indices_from column_offset] in *.
  - change (zlen []) with 0. rewrite !Z.add_0_r.
    destruct cs2 as [|c cs2]; cbn [char_indices_from column_offset].
    + subst e. change (zlen (concat [])) with 0. lia.
    + by replace (units <=? units) with true by lia.
  - pose proof (Hw c).
    assert (0 <= foldr (fun c n => width c + n) 0 cs1).
    { clear -Hw. induction cs1 as [|c cs1 IH]; simpl; [lia|]. pose proof (Hw c). lia. }
    match goal with |- context [if ?b then _ else _] => replace b with false by lia end.
    rewrite Z.add_assoc, IH.
    + rewrite zlen_app. lia.
    + subst e. rewrite zlen_app. lia.
Qed.

Lemma offset_first width col rest :
  (forall c, 0 < width c) -> x0a ∉ col -> utf8_valid col = true -> utf8_valid rest = true ->
  offset width (col ++ rest) 0 (columns width col) = zlen col.
Proof.
  intros Hw Hn Hc Hr. unfold offset. cbv zeta. cbn [line_starts lookup list_lookup Z.to_nat].
  cbn [default from_option]. rewrite zdrop_0, Z.add_0_l, find_sub_skip by done.
  destruct (end_of_line_split rest Hr) as [He Hv]. set (e := default (zlen rest) _) in *.
  replace (default (zlen (col ++ rest)) _) with (zlen col + e).
  - replace (ztake (zlen col + e) (col ++ rest)) with (col ++ ztake e rest).
    + unfold char_indices. rewrite chars_app by done.
      unfold columns. rewrite <- (Z.add_0_l (foldr _ _ _)).
      rewrite column_offset_walk; [by rewrite concat_chars|done|].
      rewrite <- chars_app, concat_chars, zlen_app by (done || by apply utf8_valid_app).
      apply is_position_range in He. rewrite zlen_ztake by lia. lia.
    + apply is_position_range in He. unfold ztake, zlen in *.
      rewrite take_app_ge by lia. do 2 f_equal. lia.
  - subst e. destruct (find_sub [x0a] rest); simpl; [done|]. by rewrite zlen_app.
Qed.

Lemma len_utf16_pos c : 0 < len_utf16 c.
Proof. unfold len_utf16. destruct (_ <? _); lia. Qed.

(** [offset] finds the byte a line and column name: after as many lines as the line
    number, a column that is the width of [col] is the end of [col], whatever follows on the
    line or after it; characters outside the basic plane count for two. *)
Theorem offset_exact (ls : list bytes) (col rest : bytes) :
  Forall (fun l => x0a ∉ l /\ utf8_valid l = true) ls ->
  x0a ∉ col -> utf8_valid col = true -> utf8_valid rest = true ->
  let before := concat (map (fun l => l ++ [x0a]) ls) in
  offset len_utf16 (before ++ col ++ rest) (zlen ls) (columns len_utf16 col)
  = zlen (before ++ col).
Proof.
  intros Hls Hn Hc Hr before. subst before. induction Hls as [|l ls [Hl Hv] Hls IH].
  - cbn [map concat app]. apply offset_first; auto using len_utf16_pos.
  - cbn [map concat]. rewrite <- !app_assoc. change ([x0a] ++ ?x) with (x0a :: x).
    rewrite zlen_cons, Z.add_comm, offset_next; [|apply zlen_nonneg|done|done|].
    + rewrite IH, !zlen_app, zlen_cons, zlen_app. lia.
    + assert (Hb : utf8_valid (concat (map (fun l => l ++ [x0a]) ls)) = true).
      { clear -Hls. induction Hls as [|l ls [_ Hv] _ IH]; [done|].
        cbn [map concat]. by repeat apply utf8_valid_app. }
      by repeat apply utf8_valid_app.
Qed.

(** A text of two lines, the second with a character of two UTF-16 units before the column. *)
Lemma offset_exact_witness :
  offset len_utf16 ((B "ab" ++ [x0a]) ++ [xf0; x9f; x98; x80; x63] ++ B "d") 1 3 = 8.
Proof.
  apply (offset_exact [B "ab"] [xf0; x9f; x98; x80; x63] (B "d")); try reflexivity; by_decide.
Defined.

(** ** Applying the spans *)

(** The spans follow one another from [from] on, inside the text. *)
Fixpoint chained (from : Z) (text : bytes) (spans : list span) : Prop :=
  match spans with
  | [] => from <= zlen text
  | x :: rest => from <= start x /\ span_ok text x /\ chained (end_ x) text rest
  end.

Lemma chained_le from text spans : chained from text spans -> from <= zlen text.
Proof. destruct spans as [|x r]; simpl; [done|]. unfold span_ok. lia. Qed.

Lemma splice_valid from text spans :
  utf8_valid text = true -> is_char_boundary text from = true -> 0 <= from ->
  chained from text spans -> utf8_valid (splice from text spans) = true.
Proof.
  intros Hv. revert from. induction spans as [|[a b w] r IH]; intros from Hb H0 Hc; simpl.
  - by apply boundary_split.
  - destruct Hc as (Hle & (Hr & Hl & Ha & Hbb & Hw) & Hrest). simpl in *.
    apply utf8_valid_app; [|apply utf8_valid_app; [done|apply IH; [done|lia|done]]].
    destruct (boundary_split text a Hv Ha) as [Hta _].
    rewrite slice_ztake by lia. apply boundary_split; [done|].
    unfold is_char_boundary in *. rewrite (zlen_ztake a) by lia.
    destruct (decide (from = a)) as [->|]; [lia|].
    rewrite at_ztake by lia. destruct (cont (at_ text from)); lia.
Qed.

Lemma apply_spans_app out s1 s2 :
  apply_spans out (s1 ++ s2)
  = match apply_spans out s1 with Ok out' => apply_spans out' s2 | Err e => Err e end.
Proof.
  revert out. induction s1 as [|[a b w] s1 IH]; intros out; simpl; [done|].
  destruct (_ || _); [done|]. by destruct (replace_range out a b w).
Qed.

(** One span applied to a text whose part before the span's end is still the original. *)
Lemma apply_span_prefix text x tail :
  utf8_valid text = true -> span_ok text x -> utf8_valid tail = true ->
  apply_spans (ztake (end_ x) text ++ tail) [x]
  = Ok (ztake (start x) text ++ new_text x ++ tail).
Proof.
  intros Hv (Hr & Hl & Ha & Hb & Hw) Ht. destruct x as [a b w]; simpl in *.
  rewrite zlen_app, zlen_ztake by lia. pose proof (zlen_nonneg tail).
  replace ((b <? a) || (b + zlen tail <? b)) with false by lia.
  assert (Hbound : is_char_boundary (ztake b text ++ tail) b = true).
  { rewrite <- (zlen_ztake b text) at 2 by lia. by apply boundary_app. }
  assert (Habound : is_char_boundary (ztake b text ++ tail) a = true).
  { unfold is_char_boundary in *. destruct (decide (a = b)) as [->|]; [done|].
    rewrite zlen_app, zlen_ztake by lia. rewrite at_app_l by (rewrite zlen_ztake; lia).
    rewrite at_ztake by lia. destruct (cont (at_ text a)); lia. }
  unfold replace_range. rewrite Hbound, Habound. cbn [andb].
  rewrite zdrop_app_exact by (rewrite zlen_ztake; lia). do 2 f_equal.
  rewrite <- (ztake_slice a b), <- app_assoc, ztake_app_exact; [done| |lia]. rewrite zlen_ztake; lia.
Qed.

(** From the end backwards, each span finds the text before it untouched. *)
Lemma apply_spans_chained from text spans :
  utf8_valid text = true -> 0 <= from -> chained from text spans ->
  apply_spans text (reverse spans) = Ok (ztake from text ++ splice from text spans).
Proof.
  intros Hv. revert from. induction spans as [|x r IH]; intros from H0 Hc.
  - simpl. by rewrite ztake_zdrop.
  - destruct Hc as (Hle & Hok & Hrest). pose proof Hok as (Hr & Hl & _ & Hb & _).
    rewrite reverse_cons, apply_spans_app, (IH (end_ x)); [|lia|done].
    rewrite apply_span_prefix; [|done|done|apply splice_valid; [done|done|lia|done]].
    f_equal. destruct x as [a b w]; simpl in *. rewrite !app_assoc. do 2 f_equal.
    by rewrite ztake_slice by lia.
Qed.

(** *** Sorting *)

Lemma earlier_first_total x y : earlier_first x y = true \/ earlier_first y x = true.
Proof. unfold earlier_first. lia. Qed.
Lemma earlier_first_trans x y z :
  earlier_first x y = true -> earlier_first y z = true -> earlier_first x z = true.
Proof. unfold earlier_first. lia. Qed.
Lemma later_first_total x y : later_first x y = true \/ later_first y x = true.
Proof. unfold later_first. lia. Qed.
Lemma later_first_trans x y z :
  later_first x y = true -> later_first y z = true -> later_first x z = true.
Proof. unfold later_first. lia. Qed.

Lemma disjoint_spans_perm l k : l ≡ₚ k -> disjoint_spans l = disjoint_spans k.
Proof.
  induction 1 as [|x l k Hp IH|x y l|l k m _ IH1 _ IH2]; simpl; [done| | |congruence].
  - rewrite IH. f_equal. apply eq_true_iff_eq. rewrite !forallb_forall.
    split; intros H y Hy; apply H; revert Hy; by rewrite <- !list_elem_of_In, Hp.
  - rewrite (orb_comm (before y x)), <- !andb_assoc. f_equal. rewrite !andb_assoc. f_equal.
    apply andb_comm.
Qed.

Lemma disjoint_spans_start l x y :
  disjoint_spans l = true -> x ∈ l -> y ∈ l -> start x = start y -> x = y.
Proof.
  induction l as [|z l IH]; simpl; [by intros _ ?%not_elem_of_nil|].
  intros [Hz Hl]%andb_prop Hx Hy Heq. rewrite forallb_forall in Hz.
  assert (Hne : forall w, w ∈ l -> start w <> start z).
  { intros w Hw%list_elem_of_In%Hz. unfold before in Hw. lia. }
  apply elem_of_cons in Hx as [->|Hx], Hy as [->|Hy]; [done| | |by apply IH].
  - by destruct (Hne y Hy).
  - by destruct (Hne x Hx).
Qed.

Lemma reverse_sorted (R : span -> span -> Prop) l :
  StronglySorted R l -> StronglySorted (fun x y => R y x) (reverse l).
Proof.
  induction 1 as [|x l Hl IH Hx]; [constructor|]. rewrite reverse_cons.
  clear Hl. apply Forall_reverse in Hx.
  revert IH Hx. generalize (reverse l). intros k IH Hx.
  induction IH as [|y k Hk IH' Hy]; simpl; [repeat constructor|].
  apply List.Forall_cons_iff in Hx as [Hxy Hx]. constructor; [by apply IH'|].
  apply Forall_app. split; [done|by constructor].
Qed.

(** Latest first is earliest first backwards, where no two edits start together. *)
Lemma sort_later_reverse l :
  disjoint_spans l = true -> sort_by later_first l = reverse (sort_by earlier_first l).
Proof.
  intros Hd. eapply StronglySorted_unique_strong.
  2: apply sort_by_sorted; [apply later_first_total|apply later_first_trans].
  2: apply (reverse_sorted (fun a b => earlier_first a b = true)), sort_by_sorted;
       [apply earlier_first_total|apply earlier_first_trans].
  - intros x y Hx Hy Hxy Hyx. rewrite sort_by_perm in Hx. rewrite reverse_Permutation, sort_by_perm in Hy.
    apply (disjoint_spans_start l); [done|done|done|]. unfold later_first in *. lia.
  - by rewrite reverse_Permutation, !sort_by_perm.
Qed.

Lemma chained_sorted from text l :
  StronglySorted (fun x y => earlier_first x y = true) l -> disjoint_spans l = true ->
  Forall (span_ok text) l -> Forall (fun x => from <= start x) l -> from <= zlen text ->
  chained from text l.
Proof.
  intros Hs. revert from. induction Hs as [|x l Hs IH Hx]; intros from Hd Hok Hf Hl; simpl; [done|].
  simpl in Hd. apply andb_prop in Hd as [Hxd Hd]. rewrite forallb_forall in Hxd.
  inversion_clear Hok as [|?? Hokx Hok']. inversion_clear Hf. split_and!; [done|done|].
  apply IH; [done|done| |unfold span_ok in Hokx; lia].
  rewrite Forall_forall in Hx |- *. intros y Hy. specialize (Hx y Hy).
  apply list_elem_of_In, Hxd in Hy. unfold before, earlier_first in *. lia.
Qed.

(** The byte ranges of a request, each from its start to its end. *)
Definition ordered_spans (spans : list span) : bool := forallb (fun x => start x <=? end_ x) spans.

Lemma edit_spans_ok width text edits :
  utf8_valid text = true -> Forall (fun e => utf8_valid (newText e) = true) edits ->
  ordered_spans (map (edit_span width text) edits) = true ->
  Forall (span_ok text) (map (edit_span width text) edits).
Proof.
  intros Hv Hn Ho. unfold ordered_spans in Ho. rewrite forallb_forall in Ho.
  rewrite Forall_forall. intros x Hx. specialize (Ho x). rewrite <- list_elem_of_In in Ho.
  specialize (Ho Hx). change (map ?f ?l) with (f <$> l) in Hx.
  apply list_elem_of_fmap in Hx as (e & -> & He). rewrite Forall_forall in Hn. specialize (Hn e He).
  unfold span_ok, edit_span in *. cbn [start end_ new_text] in *.
  match goal with |- context [is_char_boundary text (offset width text ?l ?c) = true /\
      is_char_boundary text (offset width text ?l' ?c') = true /\ _] =>
    pose proof (offset_position width text l c Hv) as Ha;
    pose proof (offset_position width text l' c' Hv) as Hb end.
  pose proof (is_position_range _ _ Ha). pose proof (is_position_range _ _ Hb).
  split_and!; try lia; auto using is_position_boundary.
Qed.

Lemma apply_disjoint width text edits :
  utf8_valid text = true -> Forall (fun e => utf8_valid (newText e) = true) edits ->
  ordered_spans (map (edit_span width text) edits) = true ->
  disjoint_spans (map (edit_span width text) edits) = true ->
  apply_spans text (sort_by later_first (map (edit_span width text) edits))
  = Ok (splice 0 text (sort_by earlier_first (map (edit_span width text) edits))).
Proof.
  intros Hv Hn Ho Hd. pose proof (edit_spans_ok width text edits Hv Hn Ho) as Hok.
  revert Hok Hd. generalize (map (edit_span width text) edits). intros l Hok Hd.
  rewrite sort_later_reverse by done. rewrite (apply_spans_chained 0); [done|done|done|].
  apply chained_sorted.
  - apply sort_by_sorted; [apply earlier_first_total|apply earlier_first_trans].
  - by rewrite (disjoint_spans_perm _ l) by apply sort_by_perm.
  - by rewrite sort_by_perm.
  - rewrite sort_by_perm. eapply Forall_impl; [exact Hok|]. intros x (Hx & _). lia.
  - apply zlen_nonneg.
Qed.

(** C13: the edits of a request, none touching what another replaces, are applied as if all at
    once to the original text, whatever order the analyzer lists them in: working from the end
    backwards never errs, never cuts a character and never shifts an edit's range. *)
Theorem apply_text_edits_splice (text : bytes) (edits listed : list Value) :
  utf8_valid text = true -> Forall (fun e => utf8_valid (newText e) = true) edits ->
  ordered_spans (map (edit_span len_utf16 text) edits) = true ->
  disjoint_spans (map (edit_span len_utf16 text) edits) = true ->
  is_full_replacement len_utf16 text edits = false -> listed ≡ₚ edits ->
  apply_text_edits text listed
  = Ok (splice 0 text (sort_by earlier_first (map (edit_span len_utf16 text) edits))).
Proof.
  intros Hv Hn Ho Hd Hf Hp. unfold apply_text_edits, apply_edits_counting.
  assert (Hf' : is_full_replacement len_utf16 text listed = false).
  { destruct listed as [|e [|e' l]]; [done| |done]. apply Permutation_singleton_l in Hp.
    by subst. }
  assert (Hm : map (edit_span len_utf16 text) listed ≡ₚ map (edit_span len_utf16 text) edits).
  { change (map ?f ?l) with (f <$> l). by rewrite Hp. }
  rewrite Hf', <- apply_disjoint by done. f_equal. apply sort_by_order_free; [apply later_first_total|apply later_first_trans|done|].
  intros x y Hx Hy Hxy Hyx. rewrite Hm in Hx, Hy.
  eapply disjoint_spans_start; [done|done|done|]. unfold later_first in *. lia.
Qed.

(** A request of an analyzer, as JSON. *)
Definition position_json (line character : Z) : Value :=
  Object [(B "line", Number (PosInt line)); (B "character", Number (PosInt character))].
Definition edit_json (sl sc el ec : Z) (new : bytes) : Value :=
  Object [(B "range", Object [(B "start", position_json sl sc); (B "end", position_json el ec)]);
          (B "newText", String new)].

(** The second line's [b] and the first line's [a] renamed, the later edit listed first. *)
Lemma apply_text_edits_splice_witness :
  apply_text_edits (B "fn a() {}" ++ [x0a] ++ B "fn b() {}" ++ [x0a])
    [edit_json 0 3 0 4 (B "alpha"); edit_json 1 3 1 4 (B "beta")]
  = Ok (B "fn alpha() {}" ++ [x0a] ++ B "fn beta() {}" ++ [x0a]).
Proof.
  rewrite (apply_text_edits_splice (B "fn a() {}" ++ [x0a] ++ B "fn b() {}" ++ [x0a])
    [edit_json 1 3 1 4 (B "beta"); edit_json 0 3 0 4 (B "alpha")]);
    first [vm_compute; reflexivity | apply Permutation_swap | by_decide].
Defined.

(** ** Where the code departs from the protocol *)

(** Two insertions at one position come out in the reverse of the order they are listed
    in, where the protocol has the order of the array be the order in the text. *)
Theorem same_position_inserts_reversed (text : bytes) (line character : Z) (a b : bytes) :
  utf8_valid text = true -> utf8_valid a = true -> utf8_valid b = true ->
  let p := offset len_utf16 text line character in
  apply_text_edits text
    [edit_json line character line character a; edit_json line character line character b]
  = Ok (ztake p text ++ b ++ a ++ zdrop p text).
Proof.
  intros Hv Ha Hb p. unfold apply_text_edits, apply_edits_counting. cbn [is_full_replacement].
  change (map _ _) with [Span p p a; Span p p b].
  assert (Hp : is_position text p) by (by apply offset_position).
  pose proof (is_position_range _ _ Hp) as Hr.
  unfold sort_by. cbn [foldr insert_by]. unfold later_first at 1. cbn [start].
  replace (p <=? p) with true by lia.
  destruct Hp as (x & y & -> & Hpx & Hx & Hy). rewrite Hpx.
  assert (Hs : forall w s, utf8_valid s = true ->
    replace_range (x ++ s) (zlen x) (zlen x) w = Ok (x ++ w ++ s)).
  { intros w s Hs. unfold replace_range. rewrite boundary_app by done. cbn [andb].
    by rewrite ztake_app_exact, zdrop_app_exact by done. }
  cbn [apply_spans]. rewrite zlen_app. pose proof (zlen_nonneg y).
  replace ((zlen x <? zlen x) || (zlen x + zlen y <? zlen x)) with false by lia.
  rewrite Hs by done. rewrite zlen_app. pose proof (zlen_nonneg (a ++ y)).
  replace ((zlen x <? zlen x) || (zlen x + zlen (a ++ y) <? zlen x)) with false by lia.
  rewrite Hs by (by apply utf8_valid_app). by rewrite ztake_app_exact, zdrop_app_exact by done.
Qed.

Lemma same_position_inserts_reversed_witness :
  apply_text_edits (B "use z;") [edit_json 0 0 0 0 (B "use x; "); edit_json 0 0 0 0 (B "use y; ")]
  = Ok (B "use y; use x; use z;").
Proof.
  rewrite (same_position_inserts_reversed (B "use z;") 0 0 (B "use x; ") (B "use y; "));
    vm_compute; reflexivity.
Defined.

(** An insertion listed with a replacement of the text after it is itself overwritten. *)
Lemma insert_and_replace_corrupts :
  apply_text_edits (B "xyz") [edit_json 0 0 0 0 (B "AB"); edit_json 0 0 0 1 (B "Q")]
  = Ok (B "QBxyz").
Proof. vm_compute. reflexivity. Qed.

(** An edit of exactly a file's only line takes the line's end with it. *)
Lemma full_replacement_drops_newline (l new : bytes) :
  x0a ∉ l -> utf8_valid l = true -> last l <> Some x0d ->
  apply_text_edits (l ++ [x0a]) [edit_json 0 0 0 (columns len_utf16 l) new] = Ok new.
Proof.
  intros Hn Hv Hcr. unfold apply_text_edits, apply_edits_counting, is_full_replacement.
  rewrite lines_first by done. change (lines []) with (@nil bytes).
  change (zlen [_]) with 1. cbn [last].
  assert (Hs : strip_cr l = l).
  { unfold strip_cr. destruct (strip_suffix [x0d] l) as [l'|] eqn:E; [|done].
    apply strip_suffix_Some in E. subst l. by rewrite last_snoc in Hcr. }
  rewrite Hs. change (range_at _ (B "start") (B "line")) with (Some 0).
  change (range_at _ (B "start") (B "character")) with (Some 0).
  change (range_at _ (B "end") (B "line")) with (Some 0).
  change (range_at _ (B "end") (B "character")) with (Some (columns len_utf16 l)).
  cbn [default from_option fmap option_fmap option_map].
  rewrite !bool_decide_eq_true_2 by done.
  by rewrite Z.leb_refl.
Qed.
