(* ===== verification/Fs.v ===== *)
(** * A file system without symbolic links

    What the MCP server's edits see of a disk: files with their bytes and directories, at
    absolute paths.  A path is its list of components, the root being the empty one.  Every
    operation of [std::fs] the sources call has its POSIX conditions; [None] is an [io::Error].
    A disk is well formed when everything on it sits in a directory, and every operation keeps
    it so. *)

From Stdlib Require Import Strings.Byte.
From stdpp Require Import gmap fin_maps.
From S2P Require Import Prelude RustStr.

(** ** Paths *)

Abbreviation path := (list bytes).

(** [path.strip_prefix(base)]: whole components only. *)
Fixpoint strip_path (base p : path) : option path :=
  match base, p with
  | [], _ => Some p
  | x :: base', y :: p' => if decide (x = y) then strip_path base' p' else None
  | _ :: _, [] => None
  end.

(** [path.starts_with(base)]. *)
Definition path_starts_with (p base : path) : bool :=
  match strip_path base p with Some _ => true | None => false end.

(** The components of a relative path written with slashes. *)
Definition components (rel : bytes) : path :=
  filter (fun c => c <> [] /\ c <> B ".") (split x2f rel).

(** [root.join(rel)]: an absolute [rel] replaces the root. *)
Definition path_join (root : path) (rel : bytes) : path :=
  match rel with
  | b :: _ => if Byte.eqb b x2f then components rel else root ++ components rel
  | [] => root
  end.

(** [path.parent()]. *)
Definition parent (p : path) : option path :=
  match p with [] => None | _ => Some (removelast p) end.

(** [path.file_name()]. *)
Definition file_name (p : path) : option bytes :=
  match last p with
  | Some c => if decide (c = B "..") then None else Some c
  | None => None
  end.

(** [path.with_file_name(name)]. *)
Definition with_file_name (p : path) (name : bytes) : path :=
  match file_name p with Some _ => removelast p ++ [name] | None => p ++ [name] end.

Definition comparable (a b : path) : bool := path_starts_with a b || path_starts_with b a.

(** The paths at or under [a] and those at or under [b] change places. *)
Definition swap_paths (a b p : path) : path :=
  match strip_path a p with
  | Some r => b ++ r
  | None => match strip_path b p with Some r => a ++ r | None => p end
  end.

(** ** The disk *)

Inductive node :=
| File (content : bytes)
| Dir.

#[export] Instance node_eq_decision : EqDecision node.
Proof. solve_decision. Defined.

Definition path_eq_decision : EqDecision path := list_eq_dec.
Definition path_countable : Countable path := list_countable.
Abbreviation disk := (@gmap path path_eq_decision path_countable node).

(** What is at or under [a] and what is at or under [b] change places. *)
Definition swap_disk (a b : path) (fs : disk) : disk := kmap (swap_paths a b) fs.

Definition is_dir_at (fs : disk) (p : path) : bool := bool_decide (fs !! p = Some Dir).

(** [symlink_metadata(p).is_ok()]. *)
Definition exists_at (fs : disk) (p : path) : bool := bool_decide (is_Some (fs !! p)).

Definition in_directory (fs : disk) (p : path) : bool :=
  match parent p with Some d => is_dir_at fs d | None => false end.

(** The names in a directory. *)
Definition entries (fs : disk) (d : path) : list bytes :=
  omap (fun p => match strip_path d p with Some [c] => Some c | _ => None end) (map fst (map_to_list fs)).

(** [std::fs::write]. *)
Definition write_at (fs : disk) (p : path) (content : bytes) : option disk :=
  if in_directory fs p && negb (is_dir_at fs p) then Some (<[p := File content]> fs) else None.

(** [std::fs::create_dir]. *)
Definition create_dir_at (fs : disk) (p : path) : option disk :=
  if in_directory fs p && negb (exists_at fs p) then Some (<[p := Dir]> fs) else None.

(** [std::fs::rename]: a directory does not move into itself nor over one that holds
    anything; a file replaces a file and an empty directory a directory. *)
Definition rename_at (fs : disk) (from to : path) : option disk :=
  if negb (exists_at fs from) || negb (in_directory fs to) then None
  else if decide (from = to) then Some fs
  else if comparable from to then None
  else match fs !! from, fs !! to with
       | _, None | Some (File _), Some (File _) =>
           Some (swap_disk from to (delete to fs))
       | Some Dir, Some Dir =>
           match entries fs to with
           | [] => Some (swap_disk from to (delete to fs))
           | _ => None
           end
       | _, _ => None
       end.

(** [std::fs::remove_file]. *)
Definition remove_file_at (fs : disk) (p : path) : option disk :=
  match fs !! p with Some (File _) => Some (delete p fs) | _ => None end.

(** [std::fs::remove_dir]: an empty directory. *)
Definition remove_dir_at (fs : disk) (p : path) : option disk :=
  match fs !! p, entries fs p, p with
  | Some Dir, [], _ :: _ => Some (delete p fs)
  | _, _, _ => None
  end.

(** Everything at or under [p] gone. *)
Definition without (p : path) (fs : disk) : disk :=
  filter (fun e => path_starts_with e.1 p = false) fs.

(** [std::fs::remove_dir_all]. *)
Definition remove_dir_all_at (fs : disk) (p : path) : option disk :=
  match fs !! p, p with
  | Some Dir, _ :: _ => Some (without p fs)
  | _, _ => None
  end.

(** Everything sits in a directory. *)
Definition disk_wf (fs : disk) : Prop :=
  fs !! [] = Some Dir /\ forall p c n, fs !! (p ++ [c]) = Some n -> fs !! p = Some Dir.

(** The same, on the entries of the disk. *)
Definition disk_wfb (fs : disk) : bool :=
  is_dir_at fs [] && forallb (fun e => match e.1 with [] => true | p => is_dir_at fs (removelast p) end)
    (map_to_list fs).

(** ** Paths: lemmas *)

Lemma strip_path_Some base p r : strip_path base p = Some r <-> p = base ++ r.
Proof.
  revert p. induction base as [|x base IH]; intros [|y p]; simpl; try naive_solver.
  destruct (decide (x = y)); [subst; rewrite IH|]; naive_solver.
Qed.
Lemma strip_path_app base r : strip_path base (base ++ r) = Some r.
Proof. by apply strip_path_Some. Qed.
Lemma strip_path_None base p : strip_path base p = None <-> forall r, p <> base ++ r.
Proof.
  destruct (strip_path base p) as [r|] eqn:E.
  - apply strip_path_Some in E. naive_solver.
  - split; [|done]. intros _ r Hr%strip_path_Some. congruence.
Qed.

Lemma path_starts_with_spec p base : path_starts_with p base = true <-> exists r, p = base ++ r.
Proof.
  unfold path_starts_with. destruct (strip_path base p) eqn:E.
  - apply strip_path_Some in E. naive_solver.
  - rewrite strip_path_None in E. naive_solver.
Qed.
Lemma path_starts_with_false p base : path_starts_with p base = false <-> forall r, p <> base ++ r.
Proof.
  rewrite <- strip_path_None. unfold path_starts_with. by destruct (strip_path base p).
Qed.
Lemma path_starts_with_refl p : path_starts_with p p = true.
Proof. apply path_starts_with_spec. exists []. by rewrite app_nil_r. Qed.

(** Neither path is above the other: nothing is under both. *)
Lemma comparable_false a b : comparable a b = false -> forall r s, a ++ r <> b ++ s.
Proof.
  unfold comparable. intros [Ha Hb]%orb_false_iff r s E.
  rewrite path_starts_with_false in Ha, Hb.
  destruct (app_split _ _ _ _ E) as [(k & H1 & _)|(k & H1 & _)]; [by apply (Ha k)|by apply (Hb k)].
Qed.
Lemma comparable_sym a b : comparable a b = comparable b a.
Proof. apply orb_comm. Qed.

Section swap.
Context (a b : path) (Hab : comparable a b = false).

Lemma swap_paths_l r : swap_paths a b (a ++ r) = b ++ r.
Proof. unfold swap_paths. by rewrite strip_path_app. Qed.
Lemma swap_paths_r r : swap_paths a b (b ++ r) = a ++ r.
Proof.
  unfold swap_paths. replace (strip_path a (b ++ r)) with (@None path).
  - by rewrite strip_path_app.
  - symmetry. apply strip_path_None. intros s. intros E. by eapply comparable_false.
Qed.
Lemma swap_paths_other p :
  path_starts_with p a = false -> path_starts_with p b = false -> swap_paths a b p = p.
Proof.
  unfold swap_paths, path_starts_with. by destruct (strip_path a p), (strip_path b p).
Qed.

Lemma swap_paths_involutive p : swap_paths a b (swap_paths a b p) = p.
Proof.
  destruct (path_starts_with p a) eqn:Ea.
  - apply path_starts_with_spec in Ea as [r ->]. by rewrite swap_paths_l, swap_paths_r.
  - destruct (path_starts_with p b) eqn:Eb.
    + apply path_starts_with_spec in Eb as [r ->]. by rewrite swap_paths_r, swap_paths_l.
    + by rewrite !(swap_paths_other p) by done.
Qed.

#[local] Instance swap_paths_inj : Inj (=) (=) (swap_paths a b).
Proof. intros p q H. by rewrite <- (swap_paths_involutive p), H, swap_paths_involutive. Qed.

Lemma kmap_swap_lookup (fs : disk) p : swap_disk a b fs !! p = fs !! swap_paths a b p.
Proof. unfold swap_disk. rewrite <- (swap_paths_involutive p) at 1. apply (lookup_kmap (M2 := gmap path)). apply _. Qed.

Lemma kmap_swap_swap (fs : disk) : swap_disk a b (swap_disk a b fs) = fs.
Proof. apply map_eq. intros p. by rewrite !kmap_swap_lookup, swap_paths_involutive. Qed.
End swap.

Lemma swap_paths_sym a b p : comparable a b = false -> swap_paths a b p = swap_paths b a p.
Proof.
  intros Hab. destruct (path_starts_with p a) eqn:Ea.
  - apply path_starts_with_spec in Ea as [r ->]. rewrite swap_paths_l, swap_paths_r; [done|].
    by rewrite comparable_sym.
  - destruct (path_starts_with p b) eqn:Eb.
    + apply path_starts_with_spec in Eb as [r ->]. by rewrite swap_paths_l, swap_paths_r.
    + by rewrite !swap_paths_other.
Qed.

(** ** The disk: lemmas *)

Lemma exists_at_false fs p : exists_at fs p = false <-> fs !! p = None.
Proof. unfold exists_at. rewrite bool_decide_eq_false, eq_None_not_Some. done. Qed.
Lemma exists_at_true fs p : exists_at fs p = true <-> is_Some (fs !! p).
Proof. unfold exists_at. apply bool_decide_eq_true. Qed.
Lemma is_dir_at_true fs p : is_dir_at fs p = true <-> fs !! p = Some Dir.
Proof. unfold is_dir_at. apply bool_decide_eq_true. Qed.
Lemma is_dir_at_exists fs p : is_dir_at fs p = true -> is_Some (fs !! p).
Proof. rewrite is_dir_at_true. intros ->. eauto. Qed.

(** A path other than the root is its directory and its name. *)
Lemma path_snoc (p : path) : p <> [] -> exists d c, p = d ++ [c] /\ parent p = Some d.
Proof.
  intros Hp. destruct (exists_last Hp) as (d & c & ->). exists d, c. split; [done|].
  unfold parent. rewrite removelast_last. by destruct d.
Qed.

Lemma in_directory_snoc fs d c : in_directory fs (d ++ [c]) = is_dir_at fs d.
Proof. unfold in_directory, parent. rewrite removelast_last. by destruct d. Qed.

Lemma in_directory_inv fs p :
  in_directory fs p = true -> exists d c, p = d ++ [c] /\ fs !! d = Some Dir.
Proof.
  destruct p as [|x p]; [done|]. destruct (path_snoc (x :: p)) as (d & c & -> & _); [done|].
  rewrite in_directory_snoc, is_dir_at_true. eauto.
Qed.

Lemma elem_of_entries fs d c : c ∈ entries fs d <-> is_Some (fs !! (d ++ [c])).
Proof.
  unfold entries. rewrite list_elem_of_omap. split.
  - intros (p & Hp & E). change (map ?f ?l) with (f <$> l) in Hp.
    apply list_elem_of_fmap in Hp as ([q n] & -> & Hq). apply elem_of_map_to_list in Hq.
    cbn [fst] in E. destruct (strip_path d q) as [[|x [|y r]]|] eqn:Es; try discriminate.
    injection E as ->. apply strip_path_Some in Es as ->. eauto.
  - intros [n Hn]. exists (d ++ [c]). rewrite strip_path_app. split; [|done].
    change (map ?f ?l) with (f <$> l). apply list_elem_of_fmap. exists (d ++ [c], n).
    split; [done|]. by apply elem_of_map_to_list.
Qed.

Lemma entries_nil fs d : (forall c, fs !! (d ++ [c]) = None) -> entries fs d = [].
Proof.
  intros H. destruct (entries fs d) as [|c l] eqn:E; [done|].
  assert (Hc : c ∈ entries fs d) by (rewrite E; left). apply elem_of_entries in Hc as [n Hn].
  by rewrite H in Hn.
Qed.

Lemma disk_wfb_sound fs : disk_wfb fs = true -> disk_wf fs.
Proof.
  unfold disk_wfb. intros [Hr Hall]%andb_prop. split; [by apply is_dir_at_true|].
  intros p c n H. rewrite forallb_forall in Hall. specialize (Hall (p ++ [c], n)).
  cbn [fst] in Hall. apply is_dir_at_true. rewrite <- (removelast_last p c).
  destruct (p ++ [c]) as [|x q] eqn:E; [by destruct p|]. apply Hall.
  apply list_elem_of_In. by apply elem_of_map_to_list.
Qed.

Section wf.
Context (fs : disk) (Hwf : disk_wf fs).

(** Everything above something on the disk is a directory. *)
Lemma wf_above p r n : fs !! (p ++ r) = Some n -> r <> [] -> fs !! p = Some Dir.
Proof.
  revert n. induction r as [|c r IH] using rev_ind; intros n H Hr; [done|].
  rewrite app_assoc in H. apply (proj2 Hwf) in H. destruct r as [|x r].
  - by rewrite app_nil_r in H.
  - eapply IH; [exact H|done].
Qed.

Lemma wf_absent p r : fs !! p = None -> fs !! (p ++ r) = None.
Proof.
  intros Hp. destruct (fs !! (p ++ r)) as [n|] eqn:E; [|done]. destruct r as [|c r].
  - rewrite app_nil_r in E. congruence.
  - apply wf_above in E; [congruence|done].
Qed.

(** The way from the root to a directory is not through an absent path. *)
Lemma wf_dir_not_under p d : fs !! p = None -> fs !! d = Some Dir -> path_starts_with d p = false.
Proof.
  intros Hp Hd. apply path_starts_with_false. intros r ->. by rewrite wf_absent in Hd.
Qed.
End wf.

(** *** Writing and creating *)

Lemma write_wf fs p b : disk_wf fs -> in_directory fs p = true -> is_dir_at fs p = false ->
  disk_wf (<[p := File b]> fs).
Proof.
  intros Hwf (d & c & -> & Hd)%in_directory_inv Hp. split.
  - rewrite lookup_insert_ne by (by destruct d). apply Hwf.
  - intros q x n H. destruct (decide (q = d ++ [c])) as [->|Hq].
    + exfalso. rewrite lookup_insert_ne in H.
      * apply (proj2 Hwf) in H. apply is_dir_at_true in H. congruence.
      * intros E. apply (f_equal length) in E. rewrite !length_app in E. simpl in E. lia.
    + rewrite lookup_insert_ne by done.
      destruct (decide (d ++ [c] = q ++ [x])) as [E|Hx].
      * apply app_inj_tail in E as [-> ->]. done.
      * rewrite lookup_insert_ne in H by done. by apply (proj2 Hwf) in H.
Qed.

Lemma create_dir_wf fs p : disk_wf fs -> in_directory fs p = true -> fs !! p = None ->
  disk_wf (<[p := Dir]> fs).
Proof.
  intros Hwf (d & c & -> & Hd)%in_directory_inv Hp. split.
  - rewrite lookup_insert_ne by (by destruct d). apply Hwf.
  - intros q x n H. destruct (decide (q = d ++ [c])) as [->|Hq]; [by rewrite lookup_insert_eq|].
    rewrite lookup_insert_ne by done. destruct (decide (d ++ [c] = q ++ [x])) as [E|Hx].
    + apply app_inj_tail in E as [-> ->]. done.
    + rewrite lookup_insert_ne in H by done. by apply (proj2 Hwf) in H.
Qed.

(** A directory just created is empty, and removing it is the way back. *)
Lemma create_remove_dir fs p : disk_wf fs -> p <> [] -> fs !! p = None ->
  remove_dir_at (<[p := Dir]> fs) p = Some fs.
Proof.
  intros Hwf Hp0 Hp. unfold remove_dir_at. rewrite lookup_insert_eq.
  rewrite entries_nil.
  - destruct p; [done|]. by rewrite delete_insert_id.
  - intros c. rewrite lookup_insert_ne.
    + by apply wf_absent.
    + intros E. apply (f_equal length) in E. rewrite length_app in E. simpl in E. lia.
Qed.

(** *** Moving *)

Lemma rename_at_fresh fs from to fs' :
  fs !! to = None -> from <> to -> rename_at fs from to = Some fs' ->
  comparable from to = false /\ is_Some (fs !! from) /\ in_directory fs to = true
  /\ fs' = swap_disk from to fs.
Proof.
  intros Hto Hne. unfold rename_at. destruct (exists_at fs from) eqn:Ef; [|done].
  destruct (in_directory fs to) eqn:Ed; [|done]. cbn [negb orb].
  destruct (decide (from = to)); [done|]. destruct (comparable from to); [done|].
  rewrite Hto. apply exists_at_true in Ef as [x Hx]. rewrite Hx. rewrite delete_id by done.
  destruct x; intros E; injection E as <-; split_and!; eauto.
Qed.

Lemma rename_at_ok fs from to :
  is_Some (fs !! from) -> fs !! to = None -> in_directory fs to = true ->
  comparable from to = false -> rename_at fs from to = Some (swap_disk from to fs).
Proof.
  intros Hf Hto Hd Hc. unfold rename_at. apply exists_at_true in Hf as Hf'. rewrite Hf', Hd.
  cbn [negb orb]. destruct (decide (from = to)) as [->|].
  - unfold comparable in Hc. by rewrite path_starts_with_refl in Hc.
  - destruct Hf as [x Hx]. rewrite Hc, Hx, Hto, delete_id by done. by destruct x.
Qed.

Section renamed.
Context (fs : disk) (from to : path).
Hypothesis Hwf : disk_wf fs.
Hypothesis Hto : fs !! to = None.
Hypothesis Hfrom : is_Some (fs !! from).
Hypothesis Hdir : in_directory fs to = true.
Hypothesis Hcmp : comparable from to = false.

Let fs' := swap_disk from to fs.

(** Directories that are not moved stay where they are. *)
Lemma renamed_other p :
  path_starts_with p from = false -> path_starts_with p to = false -> fs' !! p = fs !! p.
Proof. intros. subst fs'. by rewrite kmap_swap_lookup, swap_paths_other. Qed.
Lemma renamed_to r : fs' !! (to ++ r) = fs !! (from ++ r).
Proof. subst fs'. by rewrite kmap_swap_lookup, swap_paths_r. Qed.
Lemma renamed_from r : fs' !! (from ++ r) = None.
Proof. subst fs'. rewrite kmap_swap_lookup, swap_paths_l by done. by apply wf_absent. Qed.

Lemma parent_not_under_self p d c : p = d ++ [c] -> path_starts_with d p = false.
Proof.
  intros ->. apply path_starts_with_false. intros r E. apply (f_equal length) in E.
  rewrite !length_app in E. simpl in E. lia.
Qed.

Lemma renamed_to_dir : exists d c, to = d ++ [c] /\ fs !! d = Some Dir /\ fs' !! d = Some Dir.
Proof.
  destruct (in_directory_inv _ _ Hdir) as (d & c & Ht & Hd). exists d, c. split_and!; [done|done|].
  rewrite renamed_other; [done| |by eapply parent_not_under_self].
  apply path_starts_with_false. intros r E. unfold comparable in Hcmp.
  apply orb_false_iff in Hcmp as [_ Hc]. rewrite path_starts_with_false in Hc.
  apply (Hc (r ++ [c])). rewrite Ht, E. by rewrite <- app_assoc.
Qed.

Lemma renamed_wf : disk_wf fs'.
Proof.
  assert (Hroot : forall p, comparable p [] = true).
  { intros p. unfold comparable. apply orb_true_iff. left. apply path_starts_with_spec. by exists p. }
  split.
  - rewrite renamed_other; [apply Hwf| |]; apply path_starts_with_false; intros r E;
      symmetry in E; apply app_nil in E as [-> _].
    + by rewrite comparable_sym, Hroot in Hcmp.
    + by rewrite Hroot in Hcmp.
  - intros p c n H. destruct (path_starts_with p to) eqn:Et.
    { apply path_starts_with_spec in Et as [r ->]. rewrite <- app_assoc, renamed_to, app_assoc in H.
      apply (proj2 Hwf) in H. by rewrite renamed_to. }
    destruct (path_starts_with p from) eqn:Ef.
    { apply path_starts_with_spec in Ef as [r ->]. by rewrite <- app_assoc, renamed_from in H. }
    destruct (decide (p ++ [c] = to)) as [E|Hne].
    { destruct renamed_to_dir as (d & c' & Ht & _ & Hd). rewrite Ht in E.
      by apply app_inj_tail in E as [-> _]. }
    destruct (decide (p ++ [c] = from)) as [E|Hne'].
    { rewrite <- (app_nil_r (p ++ [c])), E, renamed_from in H. done. }
    assert (Hsnoc : forall q, path_starts_with p q = false -> p ++ [c] <> q ->
      path_starts_with (p ++ [c]) q = false).
    { intros q Hq Hq'. apply path_starts_with_false. intros r E.
      destruct r as [|x r] using rev_ind; [by rewrite app_nil_r in E|].
      rewrite app_assoc in E. apply app_inj_tail in E as [-> _].
      rewrite path_starts_with_false in Hq. by apply (Hq r). }
    rewrite renamed_other in H by (by apply Hsnoc). rewrite renamed_other by done.
    by apply (proj2 Hwf) in H.
Qed.

(** Moving back is possible and gives the disk as it was. *)
Lemma rename_back : rename_at fs' to from = Some fs.
Proof.
  rewrite rename_at_ok.
  - f_equal. subst fs'. rewrite <- (kmap_swap_swap from to) by done.
    apply map_eq. intros p. rewrite (kmap_swap_lookup to from), !(kmap_swap_lookup from to);
      try done; [|by rewrite comparable_sym]. by rewrite (swap_paths_sym to from); [|rewrite comparable_sym].
  - rewrite <- (app_nil_r to), renamed_to, app_nil_r. done.
  - rewrite <- (app_nil_r from). apply renamed_from.
  - assert (Hne : from <> []) by (intros E; by rewrite E in Hcmp; destruct to).
    destruct (path_snoc from Hne) as (d & c & Hd & Hp).
    unfold in_directory. rewrite Hp. apply is_dir_at_true.
    destruct Hfrom as [n Hn]. rewrite Hd in Hn. apply (proj2 Hwf) in Hn as Hdd.
    rewrite renamed_other; [done|by eapply parent_not_under_self|by eapply wf_dir_not_under].
  - by rewrite comparable_sym.
Qed.
End renamed.

(** *** Removing trees *)

Lemma without_lookup p fs q :
  without p fs !! q = if path_starts_with q p then None else fs !! q.
Proof.
  unfold without. destruct (path_starts_with q p) eqn:E.
  - apply map_lookup_filter_None. right. intros n _. simpl. by rewrite E.
  - destruct (fs !! q) as [n|] eqn:En.
    + by apply map_lookup_filter_Some.
    + apply map_lookup_filter_None. by left.
Qed.

Lemma without_absent p fs : disk_wf fs -> fs !! p = None -> without p fs = fs.
Proof.
  intros Hwf Hp. apply map_eq. intros q. rewrite without_lookup.
  destruct (path_starts_with q p) eqn:E; [|done].
  apply path_starts_with_spec in E as [r ->]. symmetry. by apply wf_absent.
Qed.

(** Two disks that differ only at or under [p]. *)
Definition same_outside (p : path) (fs fs' : disk) : Prop :=
  forall q, path_starts_with q p = false -> fs' !! q = fs !! q.

Lemma without_same_outside p fs fs' : same_outside p fs fs' -> without p fs' = without p fs.
Proof.
  intros H. apply map_eq. intros q. rewrite !without_lookup.
  destruct (path_starts_with q p) eqn:E; [done|]. by apply H.
Qed.

Lemma without_wf p fs : disk_wf fs -> p <> [] -> disk_wf (without p fs).
Proof.
  intros Hwf Hp. split.
  - rewrite without_lookup. replace (path_starts_with [] p) with false; [apply Hwf|].
    symmetry. apply path_starts_with_false. intros r E. symmetry in E. by apply app_nil in E as [-> _].
  - intros q c n. rewrite !without_lookup. destruct (path_starts_with (q ++ [c]) p) eqn:E; [done|]. intros H.
    replace (path_starts_with q p) with false; [by eapply (proj2 Hwf)|]. symmetry.
    apply path_starts_with_false. intros r ->. rewrite path_starts_with_false in E. apply (E (r ++ [c])).
    by rewrite app_assoc.
Qed.

(** Where nothing is under a path, deleting it is deleting its tree. *)
Lemma delete_without p fs : (forall c r, fs !! (p ++ c :: r) = None) -> delete p fs = without p fs.
Proof.
  intros H. apply map_eq. intros q. rewrite without_lookup. destruct (path_starts_with q p) eqn:E.
  - apply path_starts_with_spec in E as [[|c r] ->]; [rewrite app_nil_r; apply lookup_delete_eq|].
    rewrite lookup_delete_ne; [apply H|]. intros Eq. apply (f_equal length) in Eq.
    rewrite length_app in Eq. simpl in Eq. lia.
  - rewrite lookup_delete_ne; [done|]. intros ->. by rewrite path_starts_with_refl in E.
Qed.

Lemma file_nothing_under fs p b : disk_wf fs -> fs !! p = Some (File b) -> forall c r, fs !! (p ++ c :: r) = None.
Proof.
  intros Hwf Hp c r. destruct (fs !! (p ++ c :: r)) eqn:E; [|done].
  apply wf_above in E; [congruence|done|done].
Qed.
Lemma empty_nothing_under fs p : disk_wf fs -> entries fs p = [] -> forall c r, fs !! (p ++ c :: r) = None.
Proof.
  intros Hwf Hp c r. change (c :: r) with ([c] ++ r). rewrite app_assoc. apply wf_absent; [done|].
  destruct (fs !! (p ++ [c])) eqn:E; [|done].
  assert (Hc : c ∈ entries fs p) by (apply elem_of_entries; eauto). rewrite Hp in Hc. by apply not_elem_of_nil in Hc.
Qed.
Lemma file_not_root fs p b : disk_wf fs -> fs !! p = Some (File b) -> p <> [].
Proof. intros [Hr _] H ->. congruence. Qed.

Lemma remove_file_without fs p fs' :
  disk_wf fs -> remove_file_at fs p = Some fs' -> fs' = without p fs /\ p <> [].
Proof.
  unfold remove_file_at. destruct (fs !! p) as [[b|]|] eqn:E; try done. intros Hwf [= <-].
  split; [|by eapply file_not_root]. by eapply delete_without, file_nothing_under.
Qed.
Lemma remove_dir_without fs p fs' :
  disk_wf fs -> remove_dir_at fs p = Some fs' -> fs' = without p fs /\ p <> [].
Proof.
  unfold remove_dir_at. destruct (fs !! p) as [[b|]|]; try done.
  destruct (entries fs p) eqn:E; [|done]. destruct p as [|x p]; [done|]. intros Hwf [= <-].
  split; [|done]. by apply delete_without, empty_nothing_under.
Qed.
Lemma remove_dir_all_without fs p fs' :
  remove_dir_all_at fs p = Some fs' -> fs' = without p fs /\ p <> [].
Proof.
  unfold remove_dir_all_at. destruct (fs !! p) as [[b|]|]; try done.
  destruct p as [|x p]; [done|]. by intros [= <-].
Qed.

(** What a rename replaces is removed first. *)
Lemma rename_at_inv fs from to fs' :
  disk_wf fs -> rename_at fs from to = Some fs' -> from = to /\ fs' = fs
  \/ comparable from to = false /\ is_Some (fs !! from) /\ in_directory fs to = true
     /\ fs' = swap_disk from to (without to fs).
Proof.
  intros Hwf. unfold rename_at. destruct (exists_at fs from) eqn:Ef; [|done]. apply exists_at_true in Ef.
  destruct (in_directory fs to) eqn:Ed; [|done]. cbn [negb orb].
  destruct (decide (from = to)) as [->|Hne]; [intros [= <-]; by left|].
  destruct (comparable from to) eqn:Ec; [done|]. intros H. right. split_and!; [done..|].
  destruct (fs !! to) as [[b|]|] eqn:Et.
  - rewrite <- delete_without by (by eapply file_nothing_under). by destruct (fs !! from) as [[]|]; simplify_eq.
  - destruct (fs !! from) as [[]|]; try done. destruct (entries fs to) eqn:En; [|done].
    rewrite <- delete_without by (by apply empty_nothing_under). by injection H.
  - rewrite without_absent by done. rewrite delete_id in H by done. by destruct (fs !! from) as [[]|]; simplify_eq.
Qed.

Lemma rename_at_wf fs from to fs' : disk_wf fs -> rename_at fs from to = Some fs' -> disk_wf fs'.
Proof.
  intros Hwf [[_ ->]|(Hc & Hf & Hd & ->)]%rename_at_inv; [done| |done].
  assert (Hto : to <> []) by (by intros ->).
  assert (Hn : path_starts_with from to = false) by (unfold comparable in Hc; by apply orb_false_iff in Hc as [? _]).
  apply renamed_wf; [by apply without_wf| | | |done].
  - by rewrite without_lookup, path_starts_with_refl.
  - by rewrite without_lookup, Hn.
  - apply in_directory_inv in Hd as (d & c & -> & Hd). rewrite in_directory_snoc. apply is_dir_at_true.
    rewrite without_lookup. replace (path_starts_with d (d ++ [c])) with false; [done|].
    symmetry. by eapply parent_not_under_self.
Qed.
