(* ===== verification/Journal.v ===== *)
(** * The journal of a workspace edit

    [refactor/journal.rs] of the MCP server and the state [refactor/engine.rs] keeps while it
    applies an edit: each change to the disk records how to take it back, what an edit replaces
    or deletes is set aside next to its place, and a failure takes every step back, last first.

    The disk is [Fs]'s.  Every call that changes it may fail: the state carries the outcomes
    to come, one per call, and a failing write may leave any bytes behind.  A computation keeps
    the state it reached when it fails, which is what is rolled back. *)

From Stdlib Require Import Strings.Byte.
From stdpp Require Import gmap.
From S2P Require Import Prelude RustStr TextEdits Fs.

(** ** The state and its monad *)

(** The outcome the operating system has in store for a call. *)
Inductive Fault :=
| NoFault
| Fails (partial : option bytes)  (** an error; a write may have left these bytes *)
| Crosses.                        (** a rename across volumes *)

#[export] Instance fault_eq_decision : EqDecision Fault.
Proof. solve_decision. Defined.

(** One step of an edit taken back. *)
Inductive Undo :=
| UWrite (p : path) (content : bytes)
| URemoveFile (p : path)
| URemovePath (p : path)
| URemoveDir (p : path)
| UMove (from to : path).

Record Journal := MkJournal { undo : list Undo; aside_paths : list path }.

(** [MultiRun], with the disk it works on, the outcomes to come and the two sequence numbers
    the names of set-aside and transferred paths are made from. *)
Record MultiRun := Run {
  disk_of : disk;
  faults : list Fault;
  undo_seq : Z;
  transfer_seq : Z;
  journal : Journal;
  touched : list path;
  also_forget : list (path * bytes);
  originals : list (path * option bytes);
  vacated : list path;
}.

(** Why an edit stops. *)
Inductive EditFailure :=
| IoError
| NotUtf8
| AlreadyExists
| DoesNotExist
| NotEmpty
| MovedAway
| OutsideCheckout
| BadRange (start end_ : Z)
| Panicked.

Definition M (A : Type) : Type := MultiRun -> result A EditFailure * MultiRun.

#[export] Instance M_ret : MRet M := fun A a r => (Ok a, r).
#[export] Instance M_bind : MBind M := fun A C k m r =>
  match m r with
  | (Ok a, r') => k a r'
  | (Err e, r') => (Err e, r')
  end.

Definition fail {A : Type} (e : EditFailure) : M A := fun r => (Err e, r).
Definition get_run : M MultiRun := fun r => (Ok r, r).
Definition modify (f : MultiRun -> MultiRun) : M unit := fun r => (Ok tt, f r).
Definition get_disk : M disk := fun r => (Ok (disk_of r), r).

Definition set_disk (fs : disk) (r : MultiRun) : MultiRun :=
  Run fs (faults r) (undo_seq r) (transfer_seq r) (journal r) (touched r) (also_forget r)
    (originals r) (vacated r).
Definition set_faults (l : list Fault) (r : MultiRun) : MultiRun :=
  Run (disk_of r) l (undo_seq r) (transfer_seq r) (journal r) (touched r) (also_forget r)
    (originals r) (vacated r).
Definition set_seqs (u t : Z) (r : MultiRun) : MultiRun :=
  Run (disk_of r) (faults r) u t (journal r) (touched r) (also_forget r) (originals r) (vacated r).
Definition set_journal (j : Journal) (r : MultiRun) : MultiRun :=
  Run (disk_of r) (faults r) (undo_seq r) (transfer_seq r) j (touched r) (also_forget r)
    (originals r) (vacated r).
Definition set_report (t : list path) (a : list (path * bytes)) (o : list (path * option bytes))
    (v : list path) (r : MultiRun) : MultiRun :=
  Run (disk_of r) (faults r) (undo_seq r) (transfer_seq r) (journal r) t a o v.

(** [for x in l { body }], a failure ending the loop. *)
Fixpoint for_each {A : Type} (l : list A) (body : A -> M unit) : M unit :=
  match l with
  | [] => mret tt
  | x :: l' => body x ;; for_each l' body
  end.

(** ** Calls on the disk *)

Inductive IoKind := CrossesDevices | OtherIo.

(** A call with its outcome: what it does when it works and what it may leave when it fails. *)
Definition attempt (works : disk -> option disk) (leaves : bytes -> disk -> option disk)
    : M (result unit IoKind) := fun r =>
  let r' := set_faults (tail (faults r)) r in
  match hd NoFault (faults r) with
  | Fails (Some b) => (Ok (Err OtherIo), set_disk (default (disk_of r) (leaves b (disk_of r))) r')
  | Fails None => (Ok (Err OtherIo), r')
  | NoFault | Crosses =>
      match works (disk_of r) with
      | Some fs => (Ok (Ok tt), set_disk fs r')
      | None => (Ok (Err OtherIo), r')
      end
  end.

(** [result?]. *)
Definition check_io (x : result unit IoKind) : M unit :=
  match x with Ok _ => mret tt | Err _ => fail IoError end.

Definition leaves_nothing (b : bytes) (fs : disk) : option disk := Some fs.

Definition try_write (p : path) (content : bytes) : M (result unit IoKind) :=
  attempt (fun fs => write_at fs p content) (fun b fs => write_at fs p b).
Definition fs_write (p : path) (content : bytes) : M unit := try_write p content ≫= check_io.
Definition fs_create_dir (p : path) : M unit :=
  attempt (fun fs => create_dir_at fs p) leaves_nothing ≫= check_io.
Definition fs_set_permissions (p : path) : M unit :=
  attempt (fun fs => if exists_at fs p then Some fs else None) leaves_nothing ≫= check_io.

(** [std::fs::rename]: a path and one under it are on one volume. *)
Definition try_rename (from to : path) : M (result unit IoKind) := fun r =>
  match hd NoFault (faults r) with
  | Crosses =>
      if exists_at (disk_of r) from && in_directory (disk_of r) to && negb (comparable from to)
      then (Ok (Err CrossesDevices), set_faults (tail (faults r)) r)
      else attempt (fun fs => rename_at fs from to) leaves_nothing r
  | _ => attempt (fun fs => rename_at fs from to) leaves_nothing r
  end.
Definition fs_rename (from to : path) : M unit := try_rename from to ≫= check_io.

(** [read_existing]: [None] where there is no file and one could be created. *)
Definition read_existing_at (fs : disk) (abs : path) : result (option bytes) EditFailure :=
  match fs !! abs with
  | Some (File b) => Ok (Some b)
  | None => Ok None
  | Some Dir => Err IoError
  end.
Definition read_existing (abs : path) : M (option bytes) := fun r =>
  let r' := set_faults (tail (faults r)) r in
  match hd NoFault (faults r) with
  | Fails _ => (Err IoError, r')
  | _ => (read_existing_at (disk_of r) abs, r')
  end.

(** [read_existing(abs).ok().flatten()]. *)
Definition read_or_none (abs : path) : M (option bytes) := fun r =>
  match read_existing abs r with
  | (Ok b, r') => (Ok b, r')
  | (Err _, r') => (Ok None, r')
  end.

(** ** [journal.rs] *)

Definition remove_path_at (fs : disk) (p : path) : option disk :=
  match fs !! p with
  | None => Some fs
  | Some Dir => remove_dir_all_at fs p
  | Some (File _) => remove_file_at fs p
  end.

(** How deep the disk goes. *)
Definition depth (fs : disk) : nat := foldr (fun e n => Nat.max (length e.1) n) 0%nat (map_to_list fs).

(** [copy_path_without_following_links]; a level of recursion is a level of the source, so
    the depth of the disk is fuel enough. *)
Fixpoint copy_path (fuel : nat) (from to : path) : M unit :=
  match fuel with
  | O => fail IoError
  | S fuel' =>
      fs ← get_disk;
      match fs !! from with
      | None => fail IoError
      | Some Dir =>
          fs_create_dir to ;;
          for_each (entries fs from) (fun name => copy_path fuel' (from ++ [name]) (to ++ [name])) ;;
          fs_set_permissions to
      | Some (File b) => fs_write to b
      end
  end.

Definition copy_path_without_following_links (from to : path) : M unit :=
  fs ← get_disk; copy_path (S (depth fs)) from to.

Section journal.
Context (pid : Z).

(** [.name.prod-code-<what>-<pid>-<seq>] next to the path. *)
Definition candidate (what : bytes) (p : path) (seq : Z) : path :=
  let name := utf8_lossy (default [] (file_name p)) in
  with_file_name p (B "." ++ name ++ B ".prod-code-" ++ what ++ B "-" ++ show pid ++ B "-" ++ show seq).

(** [SEQ.fetch_add(1)] of an [AtomicU64]. *)
Definition next_seq (seq : Z) : Z := (seq + 1) `mod` 2 ^ 64.

(** The loop that looks for a name nothing has: the name and the sequence number after it. *)
Fixpoint free_name (fuel : nat) (what : bytes) (p : path) (fs : disk) (seq : Z) : option (path * Z) :=
  match fuel with
  | O => None
  | S fuel' =>
      if exists_at fs (candidate what p seq) then free_name fuel' what p fs (next_seq seq)
      else Some (candidate what p seq, next_seq seq)
  end.
(** One more name than there are entries on the disk. *)
Definition find_free_name (what : bytes) (p : path) (fs : disk) (seq : Z) : option (path * Z) :=
  free_name (S (size fs)) what p fs seq.

Definition unique_transfer_path (destination : path) : M path := fun r =>
  match find_free_name (B "transfer") destination (disk_of r) (transfer_seq r) with
  | Some (p, seq) => (Ok p, set_seqs (undo_seq r) seq r)
  | None => (Err IoError, r)
  end.

Definition push_undo (u : Undo) : M unit :=
  modify (fun r => set_journal (MkJournal (undo (journal r) ++ [u]) (aside_paths (journal r))) r).

(** [Journal::moved]: what was set aside inside [from] is inside [to] now. *)
Definition moved (from to : path) : M unit :=
  modify (fun r => set_journal (MkJournal (undo (journal r))
    (map (fun aside => match strip_path from aside with Some rest => to ++ rest | None => aside end)
       (aside_paths (journal r)))) r).

Definition push_aside (p : path) : M unit :=
  modify (fun r => set_journal (MkJournal (undo (journal r)) (aside_paths (journal r) ++ [p])) r).

(** The missing directories from [at] up, the lowest first. *)
Fixpoint missing_above (fuel : nat) (fs : disk) (at_ : path) : list path :=
  match fuel with
  | O => []
  | S fuel' =>
      if exists_at fs at_ then []
      else at_ :: match parent at_ with Some up => missing_above fuel' fs up | None => [] end
  end.

(** [Journal::create_parents]. *)
Definition create_parents (abs : path) : M unit :=
  match parent abs with
  | None => mret tt
  | Some par =>
      fs ← get_disk;
      for_each (reverse (missing_above (S (length par)) fs par))
        (fun dir => fs_create_dir dir ;; push_undo (URemoveDir dir))
  end.

(** [Journal::set_aside]. *)
Definition set_aside (abs : path) : M unit :=
  aside ← (fun r => match find_free_name (B "undo") abs (disk_of r) (undo_seq r) with
                    | Some (p, seq) => (Ok p, set_seqs seq (transfer_seq r) r)
                    | None => (Err IoError, r)
                    end);
  fs_rename abs aside ;;
  push_undo (UMove aside abs) ;;
  moved abs aside ;;
  push_aside aside.

(** [Journal::commit]: a removal that fails is only reported. *)
Definition commit : M unit :=
  r ← get_run;
  for_each (aside_paths (journal r)) (fun aside =>
    fs ← get_disk;
    (if is_dir_at fs aside then attempt (fun fs => remove_dir_all_at fs aside) leaves_nothing
     else attempt (fun fs => remove_file_at fs aside) leaves_nothing) ;; mret tt) ;;
  modify (set_journal (MkJournal [] [])).

(** What taking one step back does to the disk. *)
Definition undo_at (u : Undo) (fs : disk) : option disk :=
  match u with
  | UWrite p b => if decide (fs !! p = Some (File b)) then Some fs else write_at fs p b
  | URemoveFile p => if exists_at fs p then remove_file_at fs p else Some fs
  | URemovePath p => remove_path_at fs p
  | URemoveDir p => remove_dir_at fs p
  | UMove from to => rename_at fs from to
  end.

(** Whether a step is skipped, nothing being there to take back. *)
Definition undo_skips (u : Undo) (fs : disk) : bool :=
  match u with
  | UWrite p b => bool_decide (fs !! p = Some (File b))
  | URemoveFile p => negb (exists_at fs p)
  | _ => false
  end.

(** The path a failure to take a step back is reported for. *)
Definition undo_path (u : Undo) : path :=
  match u with
  | UWrite p _ | URemoveFile p | URemovePath p | URemoveDir p => p
  | UMove _ to => to
  end.

Definition undo_leaves (u : Undo) (b : bytes) (fs : disk) : option disk :=
  match u with UWrite p _ => write_at fs p b | _ => Some fs end.

(** The loop of [Journal::roll_back]: how many steps were taken back, and those that could
    not be. *)
Fixpoint roll_steps (steps : list Undo) (restored : Z) (failed : list path)
    : M (Z * list path) :=
  match steps with
  | [] => mret (restored, failed)
  | u :: rest =>
      fs ← get_disk;
      if undo_skips u fs then roll_steps rest restored failed
      else x ← attempt (undo_at u) (undo_leaves u);
           match x with
           | Ok _ => roll_steps rest (restored + 1) failed
           | Err _ => roll_steps rest restored (failed ++ [undo_path u])
           end
  end.

Definition roll_back : M (Z * list path) :=
  r ← get_run;
  x ← roll_steps (reverse (undo (journal r))) 0 [];
  modify (set_journal (MkJournal [] [])) ;;
  mret x.
End journal.

(** ** Every step can be taken back *)

(** Taking steps back, the first of the list first, all of them possible. *)
Fixpoint undo_all (steps : list Undo) (fs : disk) : option disk :=
  match steps with
  | [] => Some fs
  | u :: rest => undo_at u fs ≫= undo_all rest
  end.

(** The part of the state that decides what rolling back does. *)
Definition assertion : Type := disk -> list Undo -> Prop.
Definition holds (P : assertion) (r : MultiRun) : Prop := P (disk_of r) (undo (journal r)).

Definition on_disk (F : disk -> Prop) : assertion := fun fs _ => F fs.

(** From [r], taking the journal's steps back gives [fs0]. *)
Definition recoverable (fs0 : disk) : assertion := fun fs us =>
  disk_wf fs /\ undo_all (reverse us) fs = Some fs0.

(** [m] keeps the run recoverable however it ends; if it ends well, [Q] holds. *)
Definition triple {A : Type} (fs0 : disk) (P : assertion) (m : M A) (Q : A -> assertion) : Prop :=
  forall r, holds (recoverable fs0) r -> holds P r ->
    holds (recoverable fs0) (m r).2
    /\ forall a r', m r = (Ok a, r') -> holds (Q a) r'.

(** [m] leaves the disk and the undo steps alone. *)
Definition neutral {A : Type} (m : M A) : Prop :=
  forall r, disk_of (m r).2 = disk_of r /\ undo (journal (m r).2) = undo (journal r).

(** [m] keeps [J] however it ends. *)
Definition keeps {A : Type} (J : assertion) (m : M A) : Prop := forall r, holds J r -> holds J (m r).2.

Section rules.
Context (fs0 : disk).

Lemma triple_ret {A : Type} (a : A) (P : A -> assertion) : triple fs0 (P a) (mret a) P.
Proof. intros r Hr HP. split; [done|]. by intros ? ? [= <- <-]. Qed.

Lemma triple_fail {A : Type} e P (Q : A -> assertion) : triple fs0 P (fail e) Q.
Proof. intros r Hr HP. split; [done|]. by intros ? ? [=]. Qed.

Lemma triple_bind {A C : Type} (m : M A) (k : A -> M C) P Q R :
  triple fs0 P m Q -> (forall a, triple fs0 (Q a) (k a) R) -> triple fs0 P (m ≫= k) R.
Proof.
  intros Hm Hk r Hr HP. destruct (Hm r Hr HP) as [Hr1 HQ].
  unfold mbind, M_bind. destruct (m r) as [[a|e] r1]; simpl in *.
  - apply Hk; [done|]. by apply HQ.
  - by split.
Qed.

Lemma triple_conseq {A : Type} (m : M A) (P P' : assertion) (Q Q' : A -> assertion) :
  triple fs0 P m Q -> (forall fs us, P' fs us -> P fs us) ->
  (forall a fs us, Q a fs us -> Q' a fs us) -> triple fs0 P' m Q'.
Proof.
  intros Hm HP HQ r Hr H. destruct (Hm r Hr (HP _ _ H)) as [Hr1 H1].
  split; [done|]. intros a r' E. by apply HQ, H1.
Qed.

Lemma triple_neutral {A : Type} (m : M A) P : neutral m -> triple fs0 P m (fun _ => P).
Proof.
  intros Hn r Hr HP. destruct (Hn r) as [Hd Hu]. unfold holds. rewrite Hd, Hu.
  split; [done|]. intros a r' E. rewrite E in Hd, Hu. simpl in *. by rewrite Hd, Hu.
Qed.

(** What a computation that changes nothing returns may be used. *)
Lemma triple_neutral_res {A : Type} (m : M A) P (Q : A -> assertion) :
  neutral m -> (forall r a r', m r = (Ok a, r') -> holds P r -> holds (Q a) r) -> triple fs0 P m Q.
Proof.
  intros Hn HQ r Hr HP. destruct (Hn r) as [Hd Hu]. unfold holds. rewrite Hd, Hu.
  split; [done|]. intros a r' E. rewrite E in Hd, Hu. simpl in *. rewrite Hd, Hu. by eapply HQ.
Qed.

Lemma triple_for_each {A : Type} (l : list A) (body : A -> M unit) P :
  (forall x, x ∈ l -> triple fs0 P (body x) (fun _ => P)) ->
  triple fs0 P (for_each l body) (fun _ => P).
Proof.
  induction l as [|x l IH]; intros H; simpl; [apply (triple_ret tt (fun _ => P))|].
  eapply triple_bind; [apply H; left|]. intros []. apply IH. intros y Hy. apply H. by right.
Qed.
End rules.

Lemma keeps_ret {A : Type} J (a : A) : keeps J (mret a).
Proof. by intros r. Qed.
Lemma keeps_fail {A : Type} J e : keeps J (@fail A e).
Proof. by intros r. Qed.
Lemma keeps_bind {A C : Type} J (m : M A) (k : A -> M C) :
  keeps J m -> (forall a, keeps J (k a)) -> keeps J (m ≫= k).
Proof.
  intros Hm Hk r Hr. specialize (Hm r Hr). unfold mbind, M_bind.
  destruct (m r) as [[a|e] r1]; simpl in *; [|done]. by apply Hk.
Qed.
Lemma keeps_neutral {A : Type} J (m : M A) : neutral m -> keeps J m.
Proof. intros Hn r Hr. destruct (Hn r) as [Hd Hu]. unfold holds. by rewrite Hd, Hu. Qed.
Lemma keeps_for_each {A : Type} J (l : list A) body :
  (forall x, keeps J (body x)) -> keeps J (for_each l body).
Proof. intros H. induction l as [|x l IH]; simpl; [apply keeps_ret|]. by apply keeps_bind. Qed.

(** *** Computations that leave the disk alone *)

Lemma neutral_ret {A : Type} (a : A) : neutral (mret a).
Proof. by intros r. Qed.
Lemma neutral_fail {A : Type} e : neutral (@fail A e).
Proof. by intros r. Qed.
Lemma neutral_bind {A C : Type} (m : M A) (k : A -> M C) :
  neutral m -> (forall a, neutral (k a)) -> neutral (m ≫= k).
Proof.
  intros Hm Hk r. specialize (Hm r). unfold mbind, M_bind.
  destruct (m r) as [[a|e] r1]; simpl in *; [|done].
  destruct (Hk a r1), Hm. split; congruence.
Qed.
Lemma neutral_get_run : neutral get_run.
Proof. by intros r. Qed.
Lemma neutral_get_disk : neutral get_disk.
Proof. by intros r. Qed.
Lemma neutral_check_io x : neutral (check_io x).
Proof. by destruct x. Qed.
Lemma neutral_read_existing p : neutral (read_existing p).
Proof. intros r. unfold read_existing. by destruct (hd NoFault (faults r)). Qed.
Lemma neutral_read_or_none p : neutral (read_or_none p).
Proof.
  intros r. pose proof (neutral_read_existing p r). unfold read_or_none.
  by destruct (read_existing p r) as [[b|e] r'].
Qed.
Lemma neutral_for_each {A : Type} (l : list A) body : (forall x, neutral (body x)) -> neutral (for_each l body).
Proof. intros H. induction l; simpl; [apply neutral_ret|]. by apply neutral_bind. Qed.
Lemma neutral_moved a b : neutral (moved a b).
Proof. by intros r. Qed.
Lemma neutral_push_aside p : neutral (push_aside p).
Proof. by intros r. Qed.
Lemma neutral_unique_transfer_path pid p : neutral (unique_transfer_path pid p).
Proof. intros r. unfold unique_transfer_path. by destruct (find_free_name _ _ _ _ _) as [[? ?]|]. Qed.

Create HintDb neutral.
#[export] Hint Resolve neutral_ret neutral_fail neutral_bind neutral_get_run neutral_get_disk
  neutral_check_io neutral_read_existing neutral_read_or_none neutral_for_each neutral_moved
  neutral_push_aside neutral_unique_transfer_path : neutral.

Lemma triple_get_disk fs0 P : triple fs0 P get_disk (fun fs fs' us => P fs us /\ fs' = fs).
Proof. apply triple_neutral_res; [apply neutral_get_disk|]. by intros r a r' [= <- <-]. Qed.

(** *** Steps of the journal *)

Lemma undo_all_push us u fs : undo_all (reverse (us ++ [u])) fs = undo_at u fs ≫= undo_all (reverse us).
Proof. by rewrite reverse_app. Qed.

(** A step that has nothing to take back yet. *)
Definition armed (u : Undo) : assertion := fun fs us =>
  exists us', us = us' ++ [u] /\ undo_at u fs = Some fs.

Lemma triple_push_armed fs0 (u : Undo) P :
  (forall fs us, P fs us -> undo_at u fs = Some fs) ->
  triple fs0 P (push_undo u) (fun _ fs us => armed u fs us /\ exists us', P fs us').
Proof.
  intros HP r [Hwf Hu] H. specialize (HP _ _ H). split.
  - split; [done|]. cbn [push_undo modify snd set_journal disk_of journal undo].
    rewrite undo_all_push, HP. done.
  - intros a r' [= <- <-]. unfold holds. cbn. split; [|eauto]. eexists. split; [done|]. done.
Qed.

(** A call whose outcomes a step already recorded takes back. *)
Lemma triple_attempt_armed fs0 u works leaves (P : assertion) :
  (forall fs us, P fs us -> armed u fs us) ->
  (forall fs fs' us, P fs us -> disk_wf fs -> works fs = Some fs' ->
     disk_wf fs' /\ undo_at u fs' = Some fs) ->
  (forall fs fs' us b, P fs us -> disk_wf fs -> leaves b fs = Some fs' ->
     disk_wf fs' /\ undo_at u fs' = Some fs) ->
  triple fs0 P (attempt works leaves ≫= check_io) (fun _ => on_disk (fun _ => True)).
Proof.
  intros Harm Hw Hl r [Hwf Hu] HP. split; [|done].
  destruct (Harm _ _ HP) as (us' & Eus & Hnop).
  assert (Hgen : forall fs', disk_wf fs' /\ undo_at u fs' = Some (disk_of r) ->
    recoverable fs0 fs' (undo (journal r))).
  { intros fs' [Hwf' Hback]. split; [done|]. rewrite Eus, undo_all_push in *.
    rewrite Hnop in Hu. by rewrite Hback. }
  unfold mbind, M_bind, attempt, holds in *.
  destruct (hd NoFault (faults r)) as [|[b|]|];
    [destruct (works (disk_of r)) as [fs'|] eqn:E|destruct (leaves b (disk_of r)) as [fs'|] eqn:E
    | |destruct (works (disk_of r)) as [fs'|] eqn:E];
    cbn [snd check_io mret M_ret fail set_disk set_faults disk_of journal default from_option];
    try by split.
  all: apply Hgen; eauto.
Qed.

Lemma write_at_inv fs p b fs' :
  write_at fs p b = Some fs' ->
  in_directory fs p = true /\ is_dir_at fs p = false /\ fs' = <[p := File b]> fs.
Proof.
  unfold write_at. destruct (in_directory fs p); [|done]. destruct (is_dir_at fs p); [done|].
  cbn. by intros [= <-].
Qed.

(** Rewriting a file whose bytes are recorded. *)
Lemma write_back fs p old new fs' :
  disk_wf fs -> fs !! p = Some (File old) -> write_at fs p new = Some fs' ->
  disk_wf fs' /\ undo_at (UWrite p old) fs' = Some fs.
Proof.
  intros Hwf Hp (Hd & Hf & ->)%write_at_inv. split; [by apply write_wf|]. simpl.
  destruct (decide (_ = _)) as [E|_].
  - rewrite lookup_insert_eq in E. injection E as ->. by rewrite insert_id.
  - apply in_directory_inv in Hd as (d & c & -> & Hd). unfold write_at.
    rewrite in_directory_snoc. unfold is_dir_at. rewrite lookup_insert_eq, lookup_insert_ne
      by (intros E; apply (f_equal length) in E; rewrite length_app in E; simpl in E; lia).
    rewrite Hd, bool_decide_eq_true_2, bool_decide_eq_false_2 by done.
    cbn. by rewrite insert_insert_eq, insert_id.
Qed.

(** Creating a file where nothing is. *)
Lemma create_back fs p new fs' :
  disk_wf fs -> fs !! p = None -> write_at fs p new = Some fs' ->
  disk_wf fs' /\ undo_at (URemoveFile p) fs' = Some fs.
Proof.
  intros Hwf Hp (Hd & Hf & ->)%write_at_inv. split; [by apply write_wf|]. simpl.
  unfold remove_file_at. rewrite lookup_insert_eq.
  replace (exists_at _ _) with true; [by rewrite delete_insert_id|].
  symmetry. apply exists_at_true. rewrite lookup_insert_eq. eauto.
Qed.

Definition anything : assertion := fun _ _ => True.

Lemma triple_rewrite fs0 p old new (P : assertion) :
  (forall fs us, P fs us -> armed (UWrite p old) fs us /\ fs !! p = Some (File old)) ->
  triple fs0 P (fs_write p new) (fun _ => anything).
Proof.
  intros HP. apply (triple_attempt_armed fs0 (UWrite p old)).
  - intros fs us H. apply (HP _ _ H).
  - intros fs fs' us [_ H]%HP Hwf Hw. by eapply write_back.
  - intros fs fs' us b [_ H]%HP Hwf Hw. by eapply write_back.
Qed.

Lemma triple_create fs0 p new (P : assertion) :
  (forall fs us, P fs us -> armed (URemoveFile p) fs us /\ fs !! p = None) ->
  triple fs0 P (fs_write p new) (fun _ => anything).
Proof.
  intros HP. apply (triple_attempt_armed fs0 (URemoveFile p)).
  - intros fs us H. apply (HP _ _ H).
  - intros fs fs' us [_ H]%HP Hwf Hw. by eapply create_back.
  - intros fs fs' us b [_ H]%HP Hwf Hw. by eapply create_back.
Qed.

(** A call recorded after it worked. *)
Lemma triple_then_push fs0 (act : M unit) (works : disk -> option disk) (u : Undo) (P : assertion)
    (Q : disk -> Prop) :
  (forall r, (act r).1 = Ok tt /\ (exists fs', works (disk_of r) = Some fs' /\ disk_of (act r).2 = fs')
             /\ undo (journal (act r).2) = undo (journal r)
             \/ (exists e, (act r).1 = Err e) /\ disk_of (act r).2 = disk_of r
                /\ undo (journal (act r).2) = undo (journal r)) ->
  (forall fs fs' us, P fs us -> disk_wf fs -> works fs = Some fs' ->
     disk_wf fs' /\ undo_at u fs' = Some fs /\ Q fs') ->
  triple fs0 P (act ;; push_undo u) (fun _ => on_disk Q).
Proof.
  intros Hact Hw r [Hwf Hu] HP. unfold mbind, M_bind. specialize (Hact r).
  destruct (act r) as [[[]|e] r']; cbn [fst snd] in *.
  - destruct Hact as [(_ & (fs' & Hfs & Hd) & Hj)|((e & [=]) & _)].
    destruct (Hw _ _ _ HP Hwf Hfs) as (Hwf' & Hback & HQ).
    unfold holds, recoverable, on_disk.
    cbn [push_undo modify snd set_journal disk_of journal undo]. rewrite Hd, Hj. split.
    + split; [done|]. by rewrite undo_all_push, Hback.
    + intros a r2 [= <- <-]. cbn. by rewrite Hd.
  - destruct Hact as [([=] & _)|(_ & Hd & Hj)]. unfold holds, recoverable. rewrite Hd, Hj.
    by split.
Qed.

(** A call that leaves nothing behind when it fails. *)
Lemma attempt_clean works r :
  let act := attempt works leaves_nothing ≫= check_io in
  (act r).1 = Ok tt /\ (exists fs', works (disk_of r) = Some fs' /\ disk_of (act r).2 = fs')
    /\ undo (journal (act r).2) = undo (journal r)
  \/ (exists e, (act r).1 = Err e) /\ disk_of (act r).2 = disk_of r
    /\ undo (journal (act r).2) = undo (journal r).
Proof.
  unfold mbind, M_bind, attempt. destruct (hd NoFault (faults r)) as [|[b|]|]; cbn;
    try (destruct (works (disk_of r)) as [fs'|]; cbn); eauto 10.
Qed.

Lemma rename_clean from to r :
  let act := fs_rename from to in
  (act r).1 = Ok tt /\ (exists fs', rename_at (disk_of r) from to = Some fs' /\ disk_of (act r).2 = fs')
    /\ undo (journal (act r).2) = undo (journal r)
  \/ (exists e, (act r).1 = Err e) /\ disk_of (act r).2 = disk_of r
    /\ undo (journal (act r).2) = undo (journal r).
Proof.
  pose proof (attempt_clean (fun fs => rename_at fs from to) r) as H.
  cbv zeta in *. unfold fs_rename, mbind, M_bind in *. unfold try_rename.
  destruct (hd NoFault (faults r)) as [|f|]; [exact H..|].
  destruct (exists_at _ _ && _ && _); [|exact H]. right. cbn. eauto.
Qed.

(** *** [create_parents] *)

Lemma create_dir_at_inv fs p fs' :
  create_dir_at fs p = Some fs' -> in_directory fs p = true /\ fs !! p = None /\ fs' = <[p := Dir]> fs.
Proof.
  unfold create_dir_at. destruct (in_directory fs p); [|done].
  destruct (exists_at fs p) eqn:E; [done|]. apply exists_at_false in E. cbn. by intros [= <-].
Qed.

Lemma in_directory_nonroot fs p : in_directory fs p = true -> p <> [].
Proof. by destruct p. Qed.

Lemma removelast_length (p : path) : p <> [] -> (length (removelast p) < length p)%nat.
Proof.
  intros Hp. destruct (exists_last Hp) as (d & c & ->). rewrite removelast_last, length_app. simpl. lia.
Qed.

(** The directories created are all above the path, so shorter. *)
Lemma missing_above_length fuel fs p d :
  d ∈ missing_above fuel fs p -> (length d <= length p)%nat.
Proof.
  revert p. induction fuel as [|fuel IH]; intros p; simpl; [by intros ?%not_elem_of_nil|].
  destruct (exists_at fs p); [by intros ?%not_elem_of_nil|]. intros [->|H]%elem_of_cons; [lia|].
  destruct p as [|x p]; simpl in H; [by apply not_elem_of_nil in H|]. apply IH in H.
  pose proof (removelast_length (x :: p) ltac:(done)). simpl in *. lia.
Qed.

Lemma triple_create_dir fs0 d abs :
  d <> abs ->
  triple fs0 (on_disk (fun fs => fs !! abs = None)) (fs_create_dir d ;; push_undo (URemoveDir d))
    (fun _ => on_disk (fun fs => fs !! abs = None)).
Proof.
  intros Hne. apply (triple_then_push _ _ (fun fs => create_dir_at fs d)); [intros; apply attempt_clean|].
  intros fs fs' us Habs Hwf (Hd & Hn & ->)%create_dir_at_inv.
  split; [by apply create_dir_wf|]. split; [apply create_remove_dir; eauto using in_directory_nonroot|].
  by rewrite lookup_insert_ne.
Qed.

Lemma triple_create_parents fs0 abs :
  triple fs0 (on_disk (fun fs => fs !! abs = None)) (create_parents abs)
    (fun _ => on_disk (fun fs => fs !! abs = None)).
Proof.
  unfold create_parents. destruct abs as [|x p]; cbn [parent]; [by apply (triple_ret _ tt (fun _ => _))|].
  eapply triple_bind; [apply triple_get_disk|]. intros fs1. cbv beta.
  eapply (triple_conseq fs0 _ (on_disk (fun fs => fs !! (x :: p) = None)) _
    (fun _ => on_disk (fun fs => fs !! (x :: p) = None))); [|by intros ? ? [? ->]|done].
  apply triple_for_each. intros d Hd. apply triple_create_dir.
  rewrite elem_of_reverse in Hd. apply missing_above_length in Hd. intros ->.
  pose proof (removelast_length (x :: p) ltac:(done)). lia.
Qed.

(** *** [set_aside] *)

Lemma free_name_fresh pid fuel what p fs seq q seq' :
  free_name pid fuel what p fs seq = Some (q, seq') -> fs !! q = None.
Proof.
  revert seq. induction fuel as [|fuel IH]; intros seq; simpl; [done|].
  destruct (exists_at fs (candidate pid what p seq)) eqn:E; [apply IH|].
  intros H. injection H as <- _. by apply exists_at_false.
Qed.

(** Moving to a path where nothing is, and recording it. *)
Lemma triple_move fs0 from to :
  triple fs0 (on_disk (fun fs => fs !! to = None)) (fs_rename from to ;; push_undo (UMove to from))
    (fun _ => on_disk (fun fs => fs !! from = None)).
Proof.
  apply (triple_then_push _ _ (fun fs => rename_at fs from to)); [intros; apply rename_clean|].
  intros fs fs' us Hto Hwf Hr. cbn in Hto. destruct (decide (from = to)) as [->|Hne].
  { exfalso. unfold rename_at in Hr. rewrite (proj2 (exists_at_false fs to)) in Hr by done. done. }
  apply rename_at_fresh in Hr as (Hc & Hf & Hd & ->); [|done|done].
  split; [by apply renamed_wf|]. split; [by apply rename_back|].
  pose proof (renamed_from fs from to Hwf Hto Hc []) as H. by rewrite app_nil_r in H.
Qed.

Lemma bind_assoc {A C D : Type} (m : M A) (k : A -> M C) (l : C -> M D) r :
  ((m ≫= k) ≫= l) r = (m ≫= (fun a => k a ≫= l)) r.
Proof. unfold mbind, M_bind. by destruct (m r) as [[a|e] r']. Qed.

Lemma triple_ext {A : Type} fs0 P (m m' : M A) Q :
  (forall r, m r = m' r) -> triple fs0 P m Q -> triple fs0 P m' Q.
Proof. intros E H r. rewrite <- E. apply H. Qed.

Lemma triple_set_aside fs0 pid abs :
  triple fs0 anything (set_aside pid abs) (fun _ => on_disk (fun fs => fs !! abs = None)).
Proof.
  unfold set_aside.
  eapply (triple_bind fs0 _ _ _ (fun aside => on_disk (fun fs => fs !! aside = None))).
  - apply triple_neutral_res.
    + intros r. by destruct (find_free_name _ _ _ _ _) as [[? ?]|].
    + intros r a r'. destruct (find_free_name _ _ _ _ _) as [[q s]|] eqn:E; [|done].
      intros [= <- <-] _. by eapply free_name_fresh.
  - intros aside. eapply triple_ext; [intros r; apply bind_assoc|].
    eapply triple_bind; [apply triple_move|]. intros [].
    apply triple_neutral. auto with neutral.
Qed.

(** *** Moving across volumes *)

Lemma utf8_lossy_length s : (length s <= length (utf8_lossy s))%nat.
Proof.
  unfold utf8_lossy. assert (H : forall fuel s, (length s <= fuel)%nat ->
    (length s <= length (utf8_lossy_fuel fuel s))%nat); [|by apply H].
  clear s. induction fuel as [|fuel IH]; intros s Hs; [destruct s; simpl in *; lia|].
  destruct s as [|x s]; [simpl; lia|]. cbn [utf8_lossy_fuel].
  destruct (utf8_step (x :: s)) as [n|n] eqn:E.
  - assert (n <> O).
    { intros ->. unfold utf8_step in E. repeat case_match; discriminate. }
    rewrite length_app, length_take.
    specialize (IH (drop n (x :: s)) ltac:(rewrite length_drop; simpl in *; lia)).
    rewrite length_drop in IH. simpl in *. lia.
  - assert (n <= 3)%nat.
    { unfold utf8_step in E. repeat case_match; try discriminate; injection E as <-; lia. }
    rewrite length_app. specialize (IH (drop (Nat.max 1 n) (x :: s))
      ltac:(rewrite length_drop; simpl in *; lia)).
    rewrite length_drop in IH. cbn [length] in *. lia.
Qed.

(** The name made for a path is longer than the path's own. *)
Lemma candidate_other pid what p seq : candidate pid what p seq <> p /\ candidate pid what p seq <> [].
Proof.
  unfold candidate, with_file_name. destruct (file_name p) as [c|] eqn:E; cbn [default from_option].
  - split; [|by destruct (removelast p)]. intros H. unfold file_name in E.
    destruct (last p) as [c'|] eqn:El; [|done]. destruct (decide (c' = _)); [done|].
    injection E as <-. apply last_Some in El as [d ->]. rewrite removelast_last in H.
    apply app_inj_tail in H as [_ H]. apply (f_equal length) in H.
    rewrite !length_app in H. pose proof (utf8_lossy_length c').
    assert (length (B ".") = 1%nat) by reflexivity. unfold id in H. lia.
  - split; [|by destruct p]. intros H. apply (f_equal length) in H. rewrite length_app in H.
    simpl in H. lia.
Qed.

Lemma free_name_candidate pid fuel what p fs seq q seq' :
  free_name pid fuel what p fs seq = Some (q, seq') -> exists s, q = candidate pid what p s.
Proof.
  revert seq. induction fuel as [|fuel IH]; intros seq; simpl; [done|].
  destruct (exists_at fs (candidate pid what p seq)) eqn:E; [apply IH|].
  intros H. injection H as <- _. eauto.
Qed.

(** Removing what is at [p] from a disk that differs from another only there. *)
Lemma remove_path_back fs fs1 p :
  disk_wf fs -> disk_wf fs1 -> p <> [] -> fs1 !! p = None -> same_outside p fs1 fs ->
  remove_path_at fs p = Some fs1.
Proof.
  intros Hwf Hwf1 Hp Hn Hs.
  assert (Hw : without p fs = fs1).
  { rewrite (without_same_outside p fs1) by done. by apply without_absent. }
  unfold remove_path_at, remove_file_at, remove_dir_all_at.
  destruct (fs !! p) as [[b|]|] eqn:E.
  - rewrite <- Hw. f_equal. by eapply delete_without, file_nothing_under.
  - rewrite <- Hw. by destruct p.
  - rewrite <- Hw. f_equal. symmetry. by apply without_absent.
Qed.

(** While a tree is copied to [st]: only [st] differs from a disk the steps before it are
    taken back from. *)
Definition transferring (fs0 : disk) (st to : path) : assertion := fun fs us =>
  disk_wf fs /\ st <> [] /\ st <> to /\
  exists us1 fs1, us = us1 ++ [URemovePath st] /\ undo_all (reverse us1) fs1 = Some fs0
    /\ disk_wf fs1 /\ fs1 !! st = None /\ fs1 !! to = None /\ same_outside st fs1 fs.

Lemma transferring_recoverable fs0 st to fs us :
  transferring fs0 st to fs us -> recoverable fs0 fs us.
Proof.
  intros (Hwf & Hne & _ & us1 & fs1 & -> & Hu & Hwf1 & Hn & _ & Hs). split; [done|].
  rewrite undo_all_push. cbn [undo_at]. by rewrite (remove_path_back fs fs1).
Qed.

Lemma same_outside_insert st fs1 fs r n :
  same_outside st fs1 fs -> same_outside st fs1 (<[st ++ r := n]> fs).
Proof.
  intros H q Hq. rewrite lookup_insert_ne; [by apply H|]. intros <-.
  rewrite path_starts_with_false in Hq. by apply (Hq r).
Qed.

(** A call keeps [J] if what it does and what it may leave both do. *)
Lemma keeps_attempt (J : assertion) works leaves :
  (forall fs fs' us, J fs us -> works fs = Some fs' -> J fs' us) ->
  (forall fs fs' us b, J fs us -> leaves b fs = Some fs' -> J fs' us) ->
  keeps J (attempt works leaves ≫= check_io).
Proof.
  intros Hw Hl r HJ. unfold mbind, M_bind, attempt, holds in *.
  destruct (hd NoFault (faults r)) as [|[b|]|];
    [destruct (works (disk_of r)) as [fs'|] eqn:E|destruct (leaves b (disk_of r)) as [fs'|] eqn:E
    | |destruct (works (disk_of r)) as [fs'|] eqn:E];
    cbn [snd check_io mret M_ret fail set_disk set_faults disk_of journal default from_option]; eauto.
Qed.

Lemma keeps_copy_path fs0 st to fuel from r :
  keeps (transferring fs0 st to) (copy_path fuel from (st ++ r)).
Proof.
  assert (Hnop : forall (fs fs' : disk) us (b : bytes), transferring fs0 st to fs us ->
    leaves_nothing b fs = Some fs' -> transferring fs0 st to fs' us).
  { by intros fs fs' us b H [= <-]. }
  assert (Hwrite : forall fs fs' us q b, transferring fs0 st to fs us ->
    write_at fs (st ++ q) b = Some fs' -> transferring fs0 st to fs' us).
  { intros fs fs' us q b (Hwf & H1 & H2 & us1 & fs1 & H3 & H4 & H5 & H6 & H7 & H8)
      (Hd & Hf & ->)%write_at_inv.
    split_and!; [by apply write_wf|done|done|]. exists us1, fs1.
    split_and!; [done..|by apply same_outside_insert]. }
  assert (Hmkdir : forall fs fs' us q, transferring fs0 st to fs us ->
    create_dir_at fs (st ++ q) = Some fs' -> transferring fs0 st to fs' us).
  { intros fs fs' us q (Hwf & H1 & H2 & us1 & fs1 & H3 & H4 & H5 & H6 & H7 & H8)
      (Hd & Hf & ->)%create_dir_at_inv.
    split_and!; [by apply create_dir_wf|done|done|]. exists us1, fs1.
    split_and!; [done..|by apply same_outside_insert]. }
  revert from r. induction fuel as [|fuel IH]; intros from r; [apply keeps_fail|].
  cbn [copy_path]. apply keeps_bind; [apply keeps_neutral, neutral_get_disk|]. intros fs.
  destruct (fs !! from) as [[b|]|]; [| |apply keeps_fail].
  - apply keeps_attempt; intros; eapply Hwrite; eassumption.
  - apply keeps_bind.
    { apply keeps_attempt; intros; [eapply Hmkdir|eapply Hnop]; eassumption. }
    intros []. apply keeps_bind.
    + apply keeps_for_each. intros name. rewrite <- app_assoc. apply IH.
    + intros []. apply keeps_attempt; [|intros; eapply Hnop; eassumption].
      intros fs1 fs2 us H. by case_match; intros [= <-].
Qed.

(** The copy published at [to]. *)
Lemma publish_back fs0 st to fs us fs' :
  transferring fs0 st to fs us -> rename_at fs st to = Some fs' ->
  recoverable fs0 fs' (us ++ [URemovePath to]).
Proof.
  intros (Hwf & Hne & Hst & us1 & fs1 & -> & Hu & Hwf1 & Hn & Hto & Hs) Hr.
  assert (Hto' : fs !! to = None).
  { destruct (path_starts_with to st) eqn:E; [|by rewrite Hs].
    exfalso. unfold rename_at in Hr. destruct (_ || _); [done|].
    destruct (decide (st = to)); [done|]. unfold comparable in Hr. by rewrite E, orb_true_r in Hr. }
  apply rename_at_fresh in Hr as (Hc & Hf & Hd & ->); [|done|done].
  split; [by apply renamed_wf|]. rewrite undo_all_push. cbn [undo_at].
  assert (Hto0 : to <> []) by by eapply in_directory_nonroot.
  rewrite (remove_path_back _ fs1); [|by apply renamed_wf|done|done|done|].
  - cbn [mbind option_bind]. rewrite undo_all_push. cbn [undo_at]. unfold remove_path_at.
    by rewrite Hn.
  - intros q Hq. destruct (path_starts_with q st) eqn:E.
    + apply path_starts_with_spec in E as [x ->]. rewrite renamed_from by done.
      symmetry. by apply wf_absent.
    + rewrite renamed_other by done. by apply Hs.
Qed.

(** Copy, publish, record: the cross-volume arm of a rename. *)
Definition transfer (pid : Z) (from to : path) : M unit :=
  staging ← unique_transfer_path pid to;
  push_undo (URemovePath staging) ;;
  copy_path_without_following_links from staging ;;
  fs_rename staging to ;;
  push_undo (URemovePath to).

Lemma triple_keeps {A : Type} fs0 (J : assertion) (m : M A) :
  (forall fs us, J fs us -> recoverable fs0 fs us) -> keeps J m -> triple fs0 J m (fun _ => J).
Proof.
  intros HJ Hk r Hr H. specialize (Hk r H). split; [by apply HJ|].
  intros a r' E. by rewrite E in Hk.
Qed.

Lemma triple_transfer fs0 pid from to :
  triple fs0 (on_disk (fun fs => fs !! to = None)) (transfer pid from to) (fun _ => anything).
Proof.
  unfold transfer.
  eapply (triple_bind fs0 _ _ _ (fun st => on_disk (fun fs =>
    fs !! to = None /\ fs !! st = None /\ st <> [] /\ st <> to))).
  { apply triple_neutral_res; [apply neutral_unique_transfer_path|]. intros r a r'.
    unfold unique_transfer_path, find_free_name. destruct (free_name _ _ _ _ _ _) as [[q s]|] eqn:E; [|done].
    intros [= <- <-] Hto. unfold holds, on_disk in *.
    pose proof (free_name_fresh _ _ _ _ _ _ _ _ E).
    destruct (free_name_candidate _ _ _ _ _ _ _ _ E) as [s' ->].
    pose proof (candidate_other pid (B "transfer") to s'). naive_solver. }
  intros st. eapply (triple_bind fs0 _ _ _ (fun _ => transferring fs0 st to)).
  { intros r [Hwf Hu] (Hto & Hst & Hne & Hne'). unfold holds. cbn [push_undo modify snd set_journal disk_of journal undo].
    assert (Ht : transferring fs0 st to (disk_of r) (undo (journal r) ++ [URemovePath st])).
    { split_and!; [done|done|done|]. exists (undo (journal r)), (disk_of r). by split_and!. }
    split; [by eapply transferring_recoverable|]. by intros a r' [= <- <-]. }
  intros []. eapply (triple_bind fs0 _ _ _ (fun _ => transferring fs0 st to)).
  { apply triple_keeps; [apply transferring_recoverable|].
    apply keeps_bind; [apply keeps_neutral, neutral_get_disk|]. intros fs.
    rewrite <- (app_nil_r st) at 2. apply keeps_copy_path. }
  intros [] r Hr Ht. split; [|done]. unfold holds in *.
  pose proof (rename_clean st to r) as Hc. cbv zeta in Hc. unfold mbind, M_bind.
  destruct (fs_rename st to r) as [[[]|e] r']; cbn [fst snd] in *.
  - destruct Hc as [(_ & (fs' & Hfs & Hd) & Hj)|((e & [=]) & _)].
    cbn [push_undo modify snd set_journal disk_of journal undo].
    rewrite Hd, Hj. by eapply publish_back.
  - destruct Hc as [([=] & _)|(_ & Hd & Hj)]. by rewrite Hd, Hj.
Qed.

(** *** Rolling back *)

Lemma undo_skips_at u fs : undo_skips u fs = true -> undo_at u fs = Some fs.
Proof.
  destruct u; simpl; try done.
  - intros H%bool_decide_eq_true. by rewrite decide_True by done.
  - intros H%negb_true_iff. by rewrite H.
Qed.

(** Whatever the outcomes, a run of [roll_back] that reports no failure took every step back. *)
Lemma roll_steps_sound steps n failed r m failed' r' :
  roll_steps steps n failed r = (Ok (m, failed'), r') ->
  exists extra, failed' = failed ++ extra
    /\ (extra = [] -> undo_all steps (disk_of r) = Some (disk_of r')).
Proof.
  revert n failed r. induction steps as [|u steps IH]; intros n failed r H.
  - injection H as _ <- <-. exists []. by rewrite app_nil_r.
  - cbn [roll_steps] in H. unfold mbind, M_bind, get_disk in H. cbn [undo_all].
    destruct (undo_skips u (disk_of r)) eqn:Es.
    { destruct (IH _ _ _ H) as (extra & -> & Hx). exists extra. split; [done|].
      rewrite undo_skips_at by done. exact Hx. }
    assert (Hfail : forall r1, roll_steps steps n (failed ++ [undo_path u]) r1 = (Ok (m, failed'), r') ->
      exists extra, failed' = failed ++ extra
        /\ (extra = [] -> undo_at u (disk_of r) ≫= undo_all steps = Some (disk_of r'))).
    { intros r1 H1. destruct (IH _ _ _ H1) as (extra & -> & _).
      exists (undo_path u :: extra). by rewrite <- app_assoc. }
    unfold attempt in H. destruct (hd NoFault (faults r)) as [|[b|]|]; [|by eapply Hfail..|];
      (destruct (undo_at u (disk_of r)) as [fs'|] eqn:Eu; [|by eapply Hfail]);
      destruct (IH _ _ _ H) as (extra & -> & Hx); exists extra; (split; [done|]); exact Hx.
Qed.

(** Without further faults no step fails. *)
Lemma roll_steps_complete steps n failed r fs0 :
  undo_all steps (disk_of r) = Some fs0 -> Forall (fun f => f = NoFault) (faults r) ->
  exists m r', roll_steps steps n failed r = (Ok (m, failed), r') /\ disk_of r' = fs0.
Proof.
  revert n r. induction steps as [|u steps IH]; intros n r Hu Hf.
  - injection Hu as <-. by eexists _, _.
  - cbn [roll_steps undo_all] in *. unfold mbind, M_bind, get_disk.
    destruct (undo_skips u (disk_of r)) eqn:Es.
    { rewrite undo_skips_at in Hu by done. by apply IH. }
    assert (Hh : hd NoFault (faults r) = NoFault) by (by destruct Hf).
    unfold attempt. rewrite Hh. destruct (undo_at u (disk_of r)) as [fs'|] eqn:Eu; [|done].
    apply IH; [done|]. cbn [set_disk set_faults faults]. destruct Hf; [constructor|done].
Qed.

Lemma attempt_returns works leaves r : exists x r', attempt works leaves r = (Ok x, r').
Proof.
  unfold attempt. destruct (hd NoFault (faults r)) as [|[b|]|];
    try destruct (works (disk_of r)); eauto.
Qed.

Lemma roll_steps_returns steps n failed r :
  exists m failed' r', roll_steps steps n failed r = (Ok (m, failed'), r').
Proof.
  revert n failed r. induction steps as [|u steps IH]; intros n failed r; cbn [roll_steps].
  - by eexists _, _, _.
  - unfold mbind, M_bind, get_disk. destruct (undo_skips u (disk_of r)); [apply IH|].
    destruct (attempt_returns (undo_at u) (undo_leaves u) r) as ([?|?] & r1 & ->); apply IH.
Qed.

(** Every failure of a run that stays recoverable is taken back completely. *)
Lemma roll_back_recovers fs0 r :
  holds (recoverable fs0) r ->
  exists m failed r', roll_back r = (Ok (m, failed), r')
    /\ (failed = [] -> disk_of r' = fs0)
    /\ (Forall (fun f => f = NoFault) (faults r) -> failed = []).
Proof.
  intros [_ Hu]. unfold roll_back, mbind, M_bind, get_run.
  destruct (roll_steps_returns (reverse (undo (journal r))) 0 [] r) as (m & failed & r1 & E).
  rewrite E. eexists m, failed, _. split; [reflexivity|].
  destruct (roll_steps_sound _ _ _ _ _ _ _ E) as (extra & Hx & Hd). simpl in Hx. subst extra.
  cbn [modify snd set_journal disk_of]. split.
  - intros H. specialize (Hd H). rewrite Hu in Hd. by injection Hd.
  - intros Hf. destruct (roll_steps_complete _ 0 [] _ _ Hu Hf) as (m' & r' & E' & _).
    rewrite E in E'. by injection E'.
Qed.

(** *** The search for a free name ends *)

Lemma candidate_inj pid what p a b :
  0 <= a -> 0 <= b -> candidate pid what p a = candidate pid what p b -> a = b.
Proof.
  intros Ha Hb E. unfold candidate, with_file_name in E.
  apply show_inj; [done|done|]. destruct (file_name p); cbn [default from_option] in E;
    apply app_inj_tail in E as [_ E]; repeat apply app_inv_head in E; done.
Qed.

Lemma free_name_None pid fuel what p fs seq k :
  0 <= seq < 2 ^ 64 -> free_name pid fuel what p fs seq = None -> (k < fuel)%nat ->
  exists_at fs (candidate pid what p ((seq + Z.of_nat k) `mod` 2 ^ 64)) = true.
Proof.
  revert seq k. induction fuel as [|fuel IH]; intros seq k Hs H Hk; [lia|]. cbn [free_name] in H.
  destruct (exists_at fs (candidate pid what p seq)) eqn:E; [|done]. destruct k as [|k].
  - by rewrite Z.add_0_r, Z.mod_small.
  - specialize (IH (next_seq seq) k). unfold next_seq in *.
    rewrite <- IH; [|apply Z.mod_pos_bound; lia|done|lia].
    rewrite Zplus_mod_idemp_l. by replace (seq + 1 + Z.of_nat k) with (seq + Z.of_nat (S k)) by lia.
Qed.

(** The search for a name to set a path aside under ends, whatever is on the disk: among
    one more names than there are entries on it one is free. *)
Theorem free_name_found (pid : Z) (what : bytes) (p : path) (fs : disk) (seq : Z) :
  0 <= seq < 2 ^ 64 -> Z.of_nat (size fs) < 2 ^ 64 ->
  exists q seq', find_free_name pid what p fs seq = Some (q, seq') /\ fs !! q = None.
Proof.
  intros Hs Hsz. unfold find_free_name.
  destruct (free_name pid (S (size fs)) what p fs seq) as [[q seq']|] eqn:E.
  - exists q, seq'. split; [done|]. by eapply free_name_fresh.
  - exfalso. pose (names := (fun k => candidate pid what p ((seq + Z.of_nat k) `mod` 2 ^ 64))
      <$> List.seq 0 (S (size fs))).
    assert (Hnd : NoDup names).
    { apply NoDup_fmap_2_strong; [|apply NoDup_ListNoDup, seq_NoDup]. intros a b Ha Hb H.
      apply candidate_inj in H; try (apply Z.mod_pos_bound; lia).
      rewrite elem_of_seq in Ha, Hb. idtac.
      destruct (decide (a = b)) as [|Hne]; [done|]. exfalso.
      assert (Hd : ((Z.of_nat a - Z.of_nat b) `mod` 2 ^ 64) = 0).
      { replace (Z.of_nat a - Z.of_nat b) with ((seq + Z.of_nat a) - (seq + Z.of_nat b)) by lia.
        rewrite Zminus_mod, H, Z.sub_diag. done. }
      apply Z.mod_divide in Hd as [q Hq]; [|lia]. nia. }
    assert (Hsub : list_to_set names ⊆ dom (D := gset path) fs).
    { intros x Hx. apply elem_of_list_to_set, list_elem_of_fmap in Hx as (k & -> & Hk).
      rewrite elem_of_seq in Hk. apply elem_of_dom, exists_at_true.
      by eapply free_name_None; [done|done|lia]. }
    apply subseteq_size in Hsub. rewrite size_list_to_set, size_dom in Hsub by done.
    subst names. rewrite length_fmap, length_seq in Hsub. lia.
Qed.

(** The first name is taken. *)
Lemma free_name_found_witness :
  let fs : disk := {[ candidate 7 (B "undo") [B "a.rs"] 0 := Dir ]} in
  exists q seq', find_free_name 7 (B "undo") [B "a.rs"] fs 0 = Some (q, seq') /\ fs !! q = None.
Proof.
  apply (free_name_found 7 (B "undo") [B "a.rs"] {[ candidate 7 (B "undo") [B "a.rs"] 0 := Dir ]} 0);
    by_decide.
Defined.
