(* ===== verification/WorkspaceEdit.v ===== *)
(** * Applying a workspace edit

    [refactor/ops.rs], [refactor/uri.rs], [refactor/engine.rs] and [refactor/execute.rs] of the
    MCP server: an analyzer's [WorkspaceEdit] becomes a list of operations inside the
    checkouts, is checked where nothing before it can change the answer, and is applied one
    operation at a time on the journal of [Journal].  If any step fails, the journal is rolled
    back.  [Url::parse] and [Url::to_file_path] are the [url] crate's and stay a parameter. *)

From Stdlib Require Import Strings.Byte.
From stdpp Require Import gmap.
From S2P Require Import Prelude RustStr Utf8 Json TextEdits Fs Journal.

(** ** [ops.rs]: the operations of an edit *)

Inductive MultiOp :=
| OpText (root : path) (rel : bytes) (edits : list Value)
| OpCreate (root : path) (rel : bytes) (overwrite ignore_if_exists : bool)
| OpRename (from_root : path) (from_rel : bytes) (to_root : path) (to_rel : bytes)
    (overwrite ignore_if_exists : bool)
| OpDelete (root : path) (rel : bytes) (recursive : bool).

(** Why an edit is refused before anything is written. *)
Inductive Refusal :=
| NotAFileUri
| NamesCheckout
| OutsideRoots
| Unresolved
| UnsupportedOperation (kind : bytes)
| NoRoots
| RootMissing
| CheckFailed (e : EditFailure).

(** A path written as text, as [Path::to_string_lossy] and the replacement of backslashes
    leave it. *)
Definition rel_text (p : path) : bytes := replace_byte x5c [x2f] (utf8_lossy (join [x2f] p)).

(** [resolve]: the nearest existing path above and what is missing below it; without symbolic
    links an existing path is its own canonical form. *)
Fixpoint resolve_loop (fuel : nat) (fs : disk) (at_ : path) (missing : list bytes) : option path :=
  match fuel with
  | O => None
  | S fuel' =>
      if exists_at fs at_ then Some (at_ ++ reverse missing)
      else match parent at_, file_name at_ with
           | Some up, Some name => resolve_loop fuel' fs up (missing ++ [name])
           | _, _ => None
           end
  end.
Definition resolve (fs : disk) (p : path) : option path := resolve_loop (S (length p)) fs p [].

(** The length of a root as the operating system writes it. *)
Definition os_len (p : path) : Z := zlen (x2f :: join [x2f] p).

(** The loop of [uri_to_root_and_relative]: the longest root the path is in. *)
Fixpoint best_root (roots : list path) (p : path) (best : option (path * path))
    : result (option (path * path)) Refusal :=
  match roots with
  | [] => Ok best
  | root :: rest =>
      match strip_path root p with
      | None => best_root rest p best
      | Some [] => Err NamesCheckout
      | Some rel =>
          match best with
          | Some (best_r, _) =>
              if os_len root <=? os_len best_r then best_root rest p best
              else best_root rest p (Some (root, rel))
          | None => best_root rest p (Some (root, rel))
          end
      end
  end.

Section operations.
(** [Url::parse(uri).ok().and_then(|u| u.to_file_path().ok())]. *)
Context (to_file_path : bytes -> option path).

Definition uri_to_root_and_relative (fs : disk) (roots : list path) (uri : bytes)
    : result (path * bytes) Refusal :=
  match to_file_path uri with
  | None => Err NotAFileUri
  | Some p =>
      match resolve fs p with
      | None => Err Unresolved
      | Some p =>
          match best_root roots p None with
          | Err e => Err e
          | Ok None => Err OutsideRoots
          | Ok (Some (root, rel)) => Ok (root, rel_text rel)
          end
      end
  end.

(** [result?] in [result]. *)
Definition and_then {A C E : Type} (x : result A E) (k : A -> result C E) : result C E :=
  match x with Ok a => k a | Err e => Err e end.

(** The operation one element of [documentChanges] asks for. *)
Definition change_operation (fs : disk) (roots : list path) (change : Value)
    : result MultiOp Refusal :=
  let uri_at key := default [] (get_str change key) in
  let opt key := default false (pointer change [B "options"; key] ≫= as_bool) in
  match get_str change (B "kind") with
  | Some kind =>
      if bool_decide (kind = B "rename") then
        and_then (uri_to_root_and_relative fs roots (uri_at (B "oldUri"))) (fun '(from_root, from_rel) =>
        and_then (uri_to_root_and_relative fs roots (uri_at (B "newUri"))) (fun '(to_root, to_rel) =>
        Ok (OpRename from_root from_rel to_root to_rel (opt (B "overwrite")) (opt (B "ignoreIfExists")))))
      else if bool_decide (kind = B "create") then
        and_then (uri_to_root_and_relative fs roots (uri_at (B "uri"))) (fun '(root, rel) =>
        Ok (OpCreate root rel (opt (B "overwrite")) (opt (B "ignoreIfExists"))))
      else if bool_decide (kind = B "delete") then
        and_then (uri_to_root_and_relative fs roots (uri_at (B "uri"))) (fun '(root, rel) =>
        Ok (OpDelete root rel (opt (B "recursive"))))
      else Err (UnsupportedOperation kind)
  | None =>
      and_then (uri_to_root_and_relative fs roots
        (default [] (pointer change [B "textDocument"; B "uri"] ≫= as_str))) (fun '(root, rel) =>
      Ok (OpText root rel (default [] (get change (B "edits") ≫= as_array))))
  end.

Fixpoint collect_ops {A : Type} (f : A -> result MultiOp Refusal) (l : list A)
    : result (list MultiOp) Refusal :=
  match l with
  | [] => Ok []
  | x :: l' => and_then (f x) (fun op => and_then (collect_ops f l') (fun ops => Ok (op :: ops)))
  end.

Definition as_object (v : Value) : option (list (bytes * Value)) :=
  match v with Object members => Some members | _ => None end.

(** [multi_operations]: [documentChanges] wins over [changes]. *)
Definition multi_operations (fs : disk) (roots : list path) (edit : Value)
    : result (list MultiOp) Refusal :=
  match get edit (B "documentChanges") ≫= as_array with
  | Some changes => collect_ops (change_operation fs roots) changes
  | None =>
      match get edit (B "changes") ≫= as_object with
      | Some changes =>
          collect_ops (fun '(uri, edits) =>
            and_then (uri_to_root_and_relative fs roots uri) (fun '(root, rel) =>
            Ok (OpText root rel (default [] (as_array edits))))) changes
      | None => Ok []
      end
  end.
End operations.

(** [text_for_edit], the outcome of the read apart. *)
Definition text_of (b : option bytes) : result (option bytes * bytes) EditFailure :=
  match b with
  | Some b => if utf8_valid b then Ok (Some b, b) else Err NotUtf8
  | None => Ok (None, [])
  end.
Definition text_for_edit_at (fs : disk) (abs : path) : result (option bytes * bytes) EditFailure :=
  and_then (read_existing_at fs abs) text_of.

Definition op_paths (op : MultiOp) : list path :=
  match op with
  | OpText root rel _ | OpCreate root rel _ _ | OpDelete root rel _ => [path_join root rel]
  | OpRename from_root from_rel to_root to_rel _ _ =>
      [path_join from_root from_rel; path_join to_root to_rel]
  end.

(** What can be said of one operation on the disk as it is. *)
Definition check_op (fs : disk) (op : MultiOp) : result unit EditFailure :=
  match op with
  | OpText root rel _ => and_then (text_for_edit_at fs (path_join root rel)) (fun _ => Ok tt)
  | OpDelete root rel false =>
      let abs := path_join root rel in
      if is_dir_at fs abs && negb (bool_decide (entries fs abs = [])) then Err NotEmpty else Ok tt
  | _ => Ok tt
  end.

(** The loop of [check_multi_ops]. *)
Fixpoint check_loop (fs : disk) (changed : list path) (ops : list MultiOp) : result unit EditFailure :=
  match ops with
  | [] => Ok tt
  | op :: rest =>
      let paths := op_paths op in
      let affected := existsb (fun abs => existsb (fun prior =>
        path_starts_with abs prior || path_starts_with prior abs) changed) paths in
      if affected then check_loop fs (changed ++ paths) rest
      else and_then (check_op fs op) (fun _ => check_loop fs (changed ++ paths) rest)
  end.
Definition check_multi_ops (fs : disk) (ops : list MultiOp) : result unit EditFailure :=
  check_loop fs [] ops.

(** ** [engine.rs]: applying the operations *)

Definition touch (p : path) : M unit := modify (fun r =>
  if bool_decide (p ∈ touched r) then r
  else set_report (touched r ++ [p]) (also_forget r) (originals r) (vacated r) r).

Definition original (abs : path) (b : option bytes) : M unit := modify (fun r =>
  if existsb (fun e => bool_decide (e.1 = abs)) (originals r) then r
  else set_report (touched r) (also_forget r) (originals r ++ [(abs, b)]) (vacated r) r).

Definition forget (l : list (path * bytes)) : M unit := modify (fun r =>
  set_report (touched r) (also_forget r ++ l) (originals r) (vacated r) r).
Definition vacate (p : path) : M unit := modify (fun r =>
  set_report (touched r) (also_forget r) (originals r) (vacated r ++ [p]) r).
Definition set_originals (f : list (path * option bytes) -> list (path * option bytes)) : M unit :=
  modify (fun r => set_report (touched r) (also_forget r) (f (originals r)) (vacated r) r).

(** [contained]. *)
Definition contained (root : path) (rel : bytes) : M path :=
  fs ← get_disk;
  let abs := path_join root rel in
  match resolve fs abs with
  | None => fail OutsideCheckout
  | Some real => if path_starts_with real root then mret abs else fail OutsideCheckout
  end.

(** [files_under]: directories on a stack, the files relative to [dir]; each directory is
    taken once, so there are no more turns than entries on the disk. *)
Fixpoint files_loop (fuel : nat) (fs : disk) (dir : path) (stack : list path) (out : list bytes)
    : list bytes :=
  match fuel, stack with
  | S fuel', at_ :: stack' =>
      let names := entries fs at_ in
      let dirs := filter (fun p => is_dir_at fs p = true) (map (fun c => at_ ++ [c]) names) in
      let files := filter (fun p => is_dir_at fs p = false) (map (fun c => at_ ++ [c]) names) in
      files_loop fuel' fs dir (reverse dirs ++ stack')
        (out ++ omap (fun p => rel_text <$> strip_path dir p) files)
  | _, _ => out
  end.
Definition files_under (fs : disk) (dir : path) : list bytes :=
  files_loop (S (size fs)) fs dir [dir] [].

Definition text_for_edit (abs : path) : M (option bytes * bytes) :=
  b ← read_existing abs;
  match text_of b with Ok x => mret x | Err e => fail e end.

Definition is_abs_at_or_under (p under : path) : bool := bool_decide (p = under) || path_starts_with p under.

(** [MultiRun::text]. *)
Definition text (root : path) (rel : bytes) (edits : list Value) : M unit :=
  abs ← contained root rel;
  x ← text_for_edit abs;
  r ← get_run;
  if negb (bool_decide (is_Some x.1)) && existsb (is_abs_at_or_under abs) (vacated r)
  then fail MovedAway
  else match apply_text_edits x.2 edits with
       | Err (OutOfBounds a b) => fail (BadRange a b)
       | Err Panic => fail Panicked
       | Ok new_text =>
           touch abs ;;
           match x.1 with
           | Some bytes =>
               push_undo (UWrite abs bytes) ;;
               fs_write abs new_text ;;
               original abs (Some bytes)
           | None =>
               create_parents abs ;;
               push_undo (URemoveFile abs) ;;
               fs_write abs new_text ;;
               original abs None
           end
       end.

Section engine.
Context (pid : Z).

(** What is at [abs] makes way for a path that overwrites it: whether to go on. *)
Definition make_way (abs : path) (overwrite ignore_if_exists : bool) : M bool :=
  if overwrite then
    b ← read_or_none abs; original abs b ;; set_aside pid abs ;; mret true
  else if ignore_if_exists then mret false
  else fail AlreadyExists.

Definition create (root : path) (rel : bytes) (overwrite ignore_if_exists : bool) : M unit :=
  abs ← contained root rel;
  fs ← get_disk;
  go ← (if exists_at fs abs then make_way abs overwrite ignore_if_exists
        else original abs None ;; mret true);
  if (go : bool) then
    create_parents abs ;;
    push_undo (URemoveFile abs) ;;
    touch abs ;;
    fs_write abs [] ;;
    forget [(root, rel)]
  else mret tt.

(** The files a moved directory carried along. *)
Definition carry (from_root : path) (from_rel : bytes) (from to_root : path) (to_rel : bytes) (to : path)
    : M unit :=
  fs ← get_disk;
  if is_dir_at fs to then
    forget (files_under fs to ≫= (fun inner =>
      [(from_root, from_rel ++ B "/" ++ inner); (to_root, to_rel ++ B "/" ++ inner)])) ;;
    set_originals (map (fun e => match strip_path from e.1 with
                                 | Some rest => (to ++ rest, e.2)
                                 | None => e
                                 end))
  else mret tt.

(** A moved file carries its original text. *)
Definition carry_original (from to : path) : M unit :=
  fs ← get_disk;
  if is_dir_at fs to then mret tt
  else set_originals (fun l =>
    map (fun e => if decide (e.1 = from) then (to, e.2) else e) (filter (fun e => e.1 <> to) l)).

Definition rename (from_root : path) (from_rel : bytes) (to_root : path) (to_rel : bytes)
    (overwrite ignore_if_exists : bool) : M unit :=
  from_abs ← contained from_root from_rel;
  to_abs ← contained to_root to_rel;
  if decide (from_abs = to_abs) then mret tt
  else
    fs ← get_disk;
    if negb (exists_at fs from_abs) then fail DoesNotExist
    else
      go ← (if exists_at fs to_abs then make_way to_abs overwrite ignore_if_exists else mret true);
      if negb go then mret tt
      else
        touch from_abs ;;
        touch to_abs ;;
        b ← read_or_none from_abs;
        original from_abs b ;;
        original to_abs None ;;
        create_parents to_abs ;;
        x ← try_rename from_abs to_abs;
        copied_across_volumes ←
          match x with
          | Ok _ => push_undo (UMove to_abs from_abs) ;; moved from_abs to_abs ;; mret false
          | Err CrossesDevices =>
              transfer pid from_abs to_abs ;;
              moved from_abs to_abs ;;
              carry from_root from_rel from_abs to_root to_rel to_abs ;;
              set_aside pid from_abs ;;
              mret true
          | Err OtherIo => fail IoError
          end;
        (if (copied_across_volumes : bool) then mret tt
         else carry from_root from_rel from_abs to_root to_rel to_abs) ;;
        carry_original from_abs to_abs ;;
        vacate from_abs.

Definition delete_op (root : path) (rel : bytes) (recursive : bool) : M unit :=
  abs ← contained root rel;
  fs ← get_disk;
  (if exists_at fs abs then
     (if is_dir_at fs abs then
        if recursive || bool_decide (entries fs abs = [])
        then forget (map (fun inner => (root, rel ++ B "/" ++ inner)) (files_under fs abs))
        else fail NotEmpty
      else b ← read_existing abs; original abs b) ;;
     set_aside pid abs
   else mret tt) ;;
  vacate abs ;;
  touch abs.

Definition apply_op (op : MultiOp) : M unit :=
  match op with
  | OpText root rel edits => text root rel edits
  | OpCreate root rel overwrite ignore_if_exists => create root rel overwrite ignore_if_exists
  | OpRename from_root from_rel to_root to_rel overwrite ignore_if_exists =>
      rename from_root from_rel to_root to_rel overwrite ignore_if_exists
  | OpDelete root rel recursive => delete_op root rel recursive
  end.

(** [MultiRun::apply]. *)
Definition apply (ops : list MultiOp) : M unit := for_each ops apply_op.

(** ** [execute.rs] *)

(** How an edit that was started ends when it does not land. *)
Inductive ApplyFailure :=
| Refused (e : Refusal)                                          (** nothing was written *)
| Undone (e : EditFailure) (restored : Z)                        (** everything was put back *)
| PartlyUndone (e : EditFailure) (restored : Z) (failed : list path)
| Unwound.                                                       (** a panic passed through *)

(** [MultiRun::default()] on a disk. *)
Definition new_run (fs : disk) (outcomes : list Fault) (useq tseq : Z) : MultiRun :=
  Run fs outcomes useq tseq (MkJournal [] []) [] [] [] [].

(** The part of [apply_multi_repository_workspace_edit] after the checks. *)
Definition run_ops (ops : list MultiOp) (r : MultiRun) : result (list path) ApplyFailure * disk :=
  match apply ops r with
  | (Ok _, r1) => let r2 := (commit r1).2 in (Ok (touched r2), disk_of r2)
  | (Err Panicked, r1) => (Err Unwound, disk_of r1)
  | (Err e, r1) =>
      match roll_back r1 with
      | (Ok (restored, []), r2) => (Err (Undone e restored), disk_of r2)
      | (Ok (restored, failed), r2) => (Err (PartlyUndone e restored failed), disk_of r2)
      | (Err e', r2) => (Err (PartlyUndone e' 0 []), disk_of r2)
      end
  end.

(** [apply_multi_repository_workspace_edit]. *)
Definition apply_multi_repository_workspace_edit (to_file_path : bytes -> option path)
    (outcomes : list Fault) (useq tseq : Z) (roots : list path) (edit : Value) (fs : disk)
    : result (list path) ApplyFailure * disk :=
  if bool_decide (roots = []) then (Err (Refused NoRoots), fs)
  else if negb (forallb (is_dir_at fs) roots) then (Err (Refused RootMissing), fs)
  else match multi_operations to_file_path fs roots edit with
       | Err e => (Err (Refused e), fs)
       | Ok ops =>
           match check_multi_ops fs ops with
           | Err e => (Err (Refused (CheckFailed e)), fs)
           | Ok _ => run_ops ops (new_run fs outcomes useq tseq)
           end
       end.
End engine.

(** ** Every operation can be taken back *)

Lemma neutral_touch p : neutral (touch p).
Proof. intros r. unfold touch, modify. by destruct (bool_decide _). Qed.
Lemma neutral_original p b : neutral (original p b).
Proof. intros r. unfold original, modify. by destruct (existsb _ _). Qed.
Lemma neutral_forget l : neutral (forget l).
Proof. by intros r. Qed.
Lemma neutral_vacate p : neutral (vacate p).
Proof. by intros r. Qed.
Lemma neutral_set_originals f : neutral (set_originals f).
Proof. by intros r. Qed.
Lemma neutral_contained root rel : neutral (contained root rel).
Proof.
  apply neutral_bind; [apply neutral_get_disk|]. intros fs.
  cbv zeta. destruct (resolve fs (path_join root rel)) as [real|];
    [destruct (path_starts_with real root)|]; by intros r.
Qed.
Lemma neutral_text_for_edit p : neutral (text_for_edit p).
Proof.
  apply neutral_bind; [apply neutral_read_existing|]. intros b. destruct (text_of b); by intros r.
Qed.
Lemma neutral_carry a b c d e f : neutral (carry a b c d e f).
Proof.
  apply neutral_bind; [apply neutral_get_disk|]. intros fs.
  destruct (is_dir_at fs f); [apply neutral_bind|]; intros; by intros r.
Qed.
Lemma neutral_carry_original a b : neutral (carry_original a b).
Proof.
  apply neutral_bind; [apply neutral_get_disk|]. intros fs. destruct (is_dir_at fs b); by intros r.
Qed.
#[export] Hint Resolve neutral_touch neutral_original neutral_forget neutral_vacate
  neutral_set_originals neutral_contained neutral_text_for_edit neutral_carry
  neutral_carry_original : neutral.

(** The next computation of a sequence changes neither disk nor journal. *)
Ltac neutral_step :=
  eapply triple_bind; [apply triple_neutral; auto with neutral|]; cbv beta; intros ?.

Section safety.
Context (fs0 : disk) (pid : Z).

Abbreviation absent p := (on_disk (fun fs => fs !! p = None)).

Lemma triple_weaken {A : Type} (m : M A) P (Q : A -> assertion) :
  triple fs0 anything m Q -> triple fs0 P m Q.
Proof. intros H. eapply triple_conseq; [exact H|done|done]. Qed.
Lemma triple_done {A : Type} (m : M A) P Q : triple fs0 P m Q -> triple fs0 P m (fun _ => anything).
Proof. intros H. eapply triple_conseq; [exact H|done|done]. Qed.

(** Create the directories above, record the file to remove, and write it. *)
Lemma triple_create_file (abs : path) (b : bytes) (k l : M unit) :
  neutral k -> neutral l ->
  triple fs0 (absent abs)
    (create_parents abs ;; push_undo (URemoveFile abs) ;; k ;; fs_write abs b ;; l)
    (fun _ => anything).
Proof.
  intros Hk Hl. eapply triple_bind; [apply triple_create_parents|]. intros [].
  eapply triple_bind; [apply triple_push_armed|].
  { intros fs us H. cbn in *. by rewrite (proj2 (exists_at_false fs abs)). }
  intros []. eapply triple_bind; [by apply triple_neutral|]. intros []. cbv beta.
  eapply (triple_bind fs0 _ _ _ (fun _ => anything)); [|intros []; by apply triple_neutral].
  apply triple_create. by intros fs us [? [us' ?]].
Qed.

(** [text_for_edit] tells what is on the disk. *)
Lemma triple_text_for_edit abs P :
  triple fs0 P (text_for_edit abs)
    (fun x => on_disk (fun fs => fs !! abs = File <$> x.1)).
Proof.
  apply triple_neutral_res; [apply neutral_text_for_edit|]. intros r x r' E _.
  unfold text_for_edit, mbind, M_bind, read_existing, read_existing_at in E. unfold holds, on_disk.
  destruct (hd NoFault (faults r)); [|done|];
    (destruct (disk_of r !! abs) as [[b|]|] eqn:Ed; cbn [text_of] in E; [|done|]);
    try (destruct (utf8_valid b); [|done]); by injection E as <- _.
Qed.

Lemma triple_text root rel edits : triple fs0 anything (text root rel edits) (fun _ => anything).
Proof.
  unfold text. neutral_step.
  eapply triple_bind; [apply triple_text_for_edit|]. intros [b cur]. cbn [fst snd].
  neutral_step. destruct (_ && _); [apply triple_fail|].
  destruct (apply_text_edits cur edits) as [new|[? ?|]]; [|apply triple_fail..].
  neutral_step. destruct b as [b|]; cbn [fmap option_fmap option_map].
  - eapply triple_bind; [apply triple_push_armed|].
    { intros fs us H. cbn in *. by rewrite decide_True. }
    intros []. eapply (triple_bind fs0 _ _ _ (fun _ => anything));
      [|intros []; apply triple_neutral; auto with neutral].
    apply (triple_rewrite fs0 _ b). by intros fs us [? [us' ?]].
  - eapply triple_ext; [|apply (triple_create_file _ new (mret tt))]; auto with neutral.
Qed.

(** What [make_way] lets through, it cleared. *)
Lemma triple_make_way abs o i :
  triple fs0 anything (make_way pid abs o i)
    (fun go => on_disk (fun fs => go = true -> fs !! abs = None)).
Proof.
  unfold make_way. destruct o; [|destruct i; [|apply triple_fail]].
  - neutral_step. neutral_step. eapply triple_bind; [apply triple_set_aside|]. intros [].
    eapply triple_conseq; [apply (triple_ret _ true (fun _ => absent abs))|done|intros ? ? ? H _; exact H].
  - eapply triple_conseq;
      [apply (triple_ret _ false (fun go => on_disk (fun fs => go = true -> fs !! abs = None)))|done|done].
Qed.

Lemma triple_create_op root rel o i :
  triple fs0 anything (create pid root rel o i) (fun _ => anything).
Proof.
  unfold create. neutral_step. rename a into abs.
  eapply triple_bind; [apply triple_get_disk|]. intros fs1.
  eapply (triple_bind fs0 _ _ _ (fun go => on_disk (fun fs => go = true -> fs !! abs = None))).
  - destruct (exists_at fs1 abs) eqn:E.
    + apply triple_weaken, triple_make_way.
    + eapply (triple_conseq fs0 _ (absent abs) _ (fun _ => absent abs));
        [neutral_step; apply (triple_ret _ true (fun _ => absent abs))| |intros ? ? ? H _; exact H].
      intros fs us [_ ->]. by apply exists_at_false.
  - intros [|]; [|apply triple_weaken, (triple_ret _ tt (fun _ => anything))].
    eapply triple_conseq; [apply (triple_create_file abs [] (touch abs) (forget [(root, rel)]))|
      intros fs us H; by apply H|done]; auto with neutral.
Qed.

(** A rename tried where nothing is at the destination. *)
Lemma triple_try_rename {A : Type} from to (k : result unit IoKind -> M A) (rest : M A) Q :
  (forall r, k (Ok tt) r = (push_undo (UMove to from) ;; rest) r) ->
  triple fs0 (absent from) rest Q ->
  (forall e, triple fs0 (absent to) (k (Err e)) Q) ->
  triple fs0 (absent to) (try_rename from to ≫= k) Q.
Proof.
  intros Hok Hrest Herr r Hr HP.
  pose proof (rename_clean from to r) as Hc. cbv zeta in Hc.
  pose proof (triple_move fs0 from to r Hr HP) as [Hm1 Hm2].
  unfold fs_rename, mbind, M_bind in *.
  destruct (try_rename from to r) as [[[[]|e]|e] r1] eqn:E; cbn [check_io mret M_ret fail fst snd] in *.
  - rewrite Hok. cbn [push_undo modify] in *. apply Hrest; [done|]. by eapply Hm2.
  - destruct Hc as [([=] & _)|(_ & Hd & Hj)]. apply Herr; unfold holds; by rewrite Hd, Hj.
  - destruct Hc as [([=] & _)|(_ & Hd & Hj)]. unfold holds. rewrite Hd, Hj. by split.
Qed.

Lemma triple_rename_op a b c d o i :
  triple fs0 anything (rename pid a b c d o i) (fun _ => anything).
Proof.
  unfold rename. neutral_step. rename a0 into from. neutral_step. rename a0 into to.
  destruct (decide (from = to)); [apply (triple_ret _ tt (fun _ => anything))|].
  eapply triple_bind; [apply triple_get_disk|]. intros fs1.
  destruct (negb (exists_at fs1 from)); [apply triple_fail|].
  eapply (triple_bind fs0 _ _ _ (fun go => on_disk (fun fs => go = true -> fs !! to = None))).
  { destruct (exists_at fs1 to) eqn:E; [apply triple_weaken, triple_make_way|].
    eapply (triple_conseq fs0 _ (absent to) _ (fun _ => absent to));
      [apply (triple_ret _ true (fun _ => absent to))| |intros ? ? ? H _; exact H].
    intros fs us [_ ->]. by apply exists_at_false. }
  intros [|]; cbn [negb]; [|apply triple_weaken, (triple_ret _ tt (fun _ => anything))].
  eapply (triple_conseq fs0 _ (absent to) _ (fun _ => anything)); [|intros fs us H; by apply H|done].
  do 5 neutral_step. eapply triple_bind; [apply triple_create_parents|]. intros [].
  eapply triple_ext; [intros r; apply bind_assoc|].
  eapply (triple_bind fs0 _ _ _ (fun _ => anything)).
  - eapply triple_try_rename with (rest := moved from to ;; mret false).
    + done.
    + apply triple_done with (Q := fun _ => absent from), triple_neutral. auto with neutral.
    + intros [|]; [|apply triple_fail].
      eapply triple_bind; [apply triple_transfer|]. intros [].
      do 2 neutral_step. eapply triple_bind; [apply triple_set_aside|]. intros [].
      apply triple_weaken, (triple_ret _ true (fun _ => anything)).
  - intros x. apply triple_neutral. apply neutral_bind; [by destruct x; auto with neutral|].
    auto with neutral.
Qed.

Lemma triple_delete_op root rel rec :
  triple fs0 anything (delete_op pid root rel rec) (fun _ => anything).
Proof.
  unfold delete_op. neutral_step. eapply triple_bind; [apply triple_get_disk|]. intros fs1.
  eapply (triple_bind fs0 _ _ _ (fun _ => anything)); [|intros []; apply triple_neutral; auto with neutral].
  destruct (exists_at fs1 a); [|apply triple_weaken, (triple_ret _ tt (fun _ => anything))].
  eapply triple_bind.
  - apply triple_neutral. destruct (is_dir_at fs1 a); [destruct (_ || _)|]; auto with neutral.
  - intros []. apply triple_weaken. eapply triple_done, triple_set_aside.
Qed.

Lemma triple_apply ops : triple fs0 anything (apply pid ops) (fun _ => anything).
Proof.
  apply triple_for_each. intros op _. destruct op; cbn [apply_op].
  - apply triple_text.
  - apply triple_create_op.
  - apply triple_rename_op.
  - apply triple_delete_op.
Qed.
End safety.

(** ** All or nothing *)

Lemma new_run_recoverable fs outcomes u t :
  disk_wf fs -> holds (recoverable fs) (new_run fs outcomes u t).
Proof. by split. Qed.

Lemma apply_recoverable pid fs ops outcomes u t :
  disk_wf fs -> holds (recoverable fs) (apply pid ops (new_run fs outcomes u t)).2.
Proof. intros Hwf. apply triple_apply; [by apply new_run_recoverable|done]. Qed.

(** C1: when a step of a workspace edit fails, whatever failed and whatever a failing write
    left behind, the operations before it are all taken back: if the disk does not also fail
    while it is being restored, every path and byte of every checkout is as it was, and the
    failure is reported as undone. *)
Theorem failed_edit_restores_disk (pid : Z) (fs : disk) (ops : list MultiOp) (outcomes : list Fault)
    (u t : Z) (e : EditFailure) :
  let stopped := apply pid ops (new_run fs outcomes u t) in
  disk_wf fs -> stopped.1 = Err e -> e <> Panicked ->
  Forall (fun f => f = NoFault) (faults stopped.2) ->
  exists restored, run_ops pid ops (new_run fs outcomes u t) = (Err (Undone e restored), fs).
Proof.
  intros stopped Hwf E He Hf. subst stopped.
  pose proof (apply_recoverable pid fs ops outcomes u t Hwf) as Hr. unfold run_ops.
  destruct (apply pid ops (new_run fs outcomes u t)) as [x r]. cbn [fst snd] in *. subst x.
  destruct (roll_back_recovers fs r Hr) as (n & failed & r' & Eb & Hd & Hn).
  rewrite (Hn Hf) in *. rewrite Eb, (Hd eq_refl). exists n. by destruct e.
Qed.


(** *** A small checkout *)

Definition disk_of_list (l : list (path * node)) : disk := list_to_map l.

(** [/r] with [src/a.rs], [src/b.rs] and an empty directory. *)
Definition sample : disk := disk_of_list
  [([], Dir); ([B "r"], Dir); ([B "r"; B "src"], Dir); ([B "r"; B "empty"], Dir);
   ([B "r"; B "src"; B "a.rs"], File (B "mod a;")); ([B "r"; B "src"; B "b.rs"], File (B "xyz"))].

(** Moves a file over another into a new directory, deletes a tree, then rewrites a file. *)
Definition sample_ops : list MultiOp :=
  [OpRename [B "r"] (B "src/a.rs") [B "r"] (B "lib/deep/b.rs") false false;
   OpRename [B "r"] (B "lib") [B "r"] (B "empty") true false;
   OpDelete [B "r"] (B "empty/deep") true;
   OpText [B "r"] (B "src/b.rs") [edit_json 0 0 0 1 (B "Q")]].

Lemma sample_wf : disk_wf sample.
Proof. apply disk_wfb_sound. vm_compute. reflexivity. Qed.

(** The rename is across volumes, and the last write fails half way. *)
Definition sample_outcomes : list Fault :=
  [NoFault; NoFault; NoFault; Crosses; NoFault; NoFault; NoFault; NoFault; NoFault; NoFault;
   NoFault; NoFault; NoFault; Fails (Some (B "Q"))].

Lemma failed_edit_restores_disk_witness :
  exists restored,
    run_ops 7 sample_ops (new_run sample sample_outcomes 0 0) = (Err (Undone IoError restored), sample).
Proof.
  apply (failed_edit_restores_disk 7 sample sample_ops sample_outcomes 0 0 IoError).
  - exact sample_wf.
  - vm_compute. reflexivity.
  - discriminate.
  - by_decide.
Defined.

(** [file://] URIs with nothing to decode. *)
Definition plain_file_path (uri : bytes) : option path :=
  rest ← strip_prefix (B "file:///") uri; Some (components rest).

Definition uri_json (p : bytes) : Value := String (B "file:///r/" ++ p).
(** Renames a file and then edits it under its new name. *)
Definition sample_edit (kind : bytes) : Value := Object
  [(B "documentChanges", Array
     [Object [(B "kind", String (B "rename")); (B "oldUri", uri_json (B "src/a.rs"));
              (B "newUri", uri_json (B "src/c.rs"))];
      Object [(B "kind", String kind); (B "uri", uri_json (B "src/b.rs"))]])].


(** ** Where the journal does not reach *)

(** An analyzer's overlapping edits of a second file cut a character in two: the panic of
    [replace_range] passes through the engine without a rollback and leaves the first file
    rewritten. *)
Theorem overlapping_edits_leave_half_an_edit :
  let ops := [OpText [B "r"] (B "src/a.rs") [edit_json 0 4 0 5 (B "b")];
              OpText [B "r"] (B "src/b.rs") [edit_json 0 1 0 2 [xc3; xa9]; edit_json 0 0 0 2 (B "q")]] in
  (run_ops 7 ops (new_run sample [] 0 0)).1 = Err Unwound
  /\ sample !! [B "r"; B "src"; B "a.rs"] = Some (File (B "mod a;"))
  /\ (run_ops 7 ops (new_run sample [] 0 0)).2 !! [B "r"; B "src"; B "a.rs"] = Some (File (B "mod b;")).
Proof. split_and!; vm_compute; reflexivity. Qed.

(** A directory emptied by the edit itself cannot be deleted after it: what was deleted
    from it is set aside in it, under a hidden name, so it is not empty; deleting the same
    directory when it was empty from the start works. *)
Theorem emptied_directory_not_deleted :
  (run_ops 7 [OpDelete [B "r"] (B "src/a.rs") false; OpDelete [B "r"] (B "src/b.rs") false;
              OpDelete [B "r"] (B "src") false] (new_run sample [] 0 0)).1
    = Err (Undone NotEmpty 2)
  /\ (run_ops 7 [OpDelete [B "r"] (B "empty") false] (new_run sample [] 0 0)).1
    = Ok [[B "r"; B "empty"]].
Proof. split; vm_compute; reflexivity. Qed.
