(* ===== verification/EditSpec.v ===== *)
(** * What a workspace edit should do, and that it does

    The operations of [WorkspaceEdit] as plain functions on a disk: no journal, nothing set
    aside, nothing copied across volumes.  A run of the engine that succeeds and is committed
    leaves exactly the disk these functions give, whatever renames crossed volumes on the way:
    of the hidden files the engine works with nothing remains. *)

From Stdlib Require Import Strings.Byte.
From stdpp Require Import gmap.
From S2P Require Import Prelude RustStr Utf8 Json TextEdits Fs Journal WorkspaceEdit.

(** ** The specification *)

Fixpoint create_all (dirs : list path) (fs : disk) : option disk :=
  match dirs with
  | [] => Some fs
  | d :: rest => create_dir_at fs d ≫= create_all rest
  end.

(** The missing directories above a path, created from the top. *)
Definition spec_parents (fs : disk) (abs : path) : option disk :=
  match parent abs with
  | None => Some fs
  | Some par => create_all (reverse (missing_above (S (length par)) fs par)) fs
  end.

(** What is in the way of [abs]: [Some None] leaves everything as it is. *)
Definition spec_clear (fs : disk) (abs : path) (overwrite ignore_if_exists : bool)
    : option (option disk) :=
  if exists_at fs abs then
    if overwrite then Some (Some (without abs fs))
    else if ignore_if_exists then Some None else None
  else Some (Some fs).

Definition spec_text (fs : disk) (abs : path) (edits : list Value) : option disk :=
  match fs !! abs with
  | Some Dir => None
  | Some (File b) =>
      if utf8_valid b then
        match apply_text_edits b edits with Ok new => write_at fs abs new | Err _ => None end
      else None
  | None =>
      match apply_text_edits [] edits with
      | Ok new => fs1 ← spec_parents fs abs; write_at fs1 abs new
      | Err _ => None
      end
  end.

Definition spec_create (fs : disk) (abs : path) (overwrite ignore_if_exists : bool) : option disk :=
  c ← spec_clear fs abs overwrite ignore_if_exists;
  match c with
  | None => Some fs
  | Some fs1 => fs2 ← spec_parents fs1 abs; write_at fs2 abs []
  end.

Definition spec_rename (fs : disk) (from to : path) (overwrite ignore_if_exists : bool) : option disk :=
  if decide (from = to) then Some fs
  else if negb (exists_at fs from) then None
  else c ← spec_clear fs to overwrite ignore_if_exists;
       match c with
       | None => Some fs
       | Some fs1 => fs2 ← spec_parents fs1 to; rename_at fs2 from to
       end.

Definition spec_delete (fs : disk) (abs : path) (recursive : bool) : option disk :=
  if exists_at fs abs then
    if is_dir_at fs abs && negb (recursive || bool_decide (entries fs abs = [])) then None
    else Some (without abs fs)
  else Some fs.

Definition spec_op (op : MultiOp) (fs : disk) : option disk :=
  match op with
  | OpText root rel edits => spec_text fs (path_join root rel) edits
  | OpCreate root rel o i => spec_create fs (path_join root rel) o i
  | OpRename from_root from_rel to_root to_rel o i =>
      spec_rename fs (path_join from_root from_rel) (path_join to_root to_rel) o i
  | OpDelete root rel recursive => spec_delete fs (path_join root rel) recursive
  end.

Fixpoint spec_ops (ops : list MultiOp) (fs : disk) : option disk :=
  match ops with
  | [] => Some fs
  | op :: rest => spec_op op fs ≫= spec_ops rest
  end.

(** ** What is set aside is out of sight *)

Definition hidden (asides : list path) (q : path) : bool := existsb (path_starts_with q) asides.
Definition visible (asides : list path) (fs : disk) : disk :=
  filter (fun e => hidden asides e.1 = false) fs.

(** No component of the path looks like a name the engine sets something aside under. *)
Definition plain (p : path) : Prop := Forall (fun c => contains (B ".prod-code-undo-") c = false) p.
#[export] Instance plain_dec p : Decision (plain p).
Proof. apply _. Defined.

Definition plain_op (op : MultiOp) : Prop := Forall plain (op_paths op).

Lemma visible_lookup asides fs q : visible asides fs !! q = if hidden asides q then None else fs !! q.
Proof.
  unfold visible. destruct (hidden asides q) eqn:E.
  - apply map_lookup_filter_None. right. intros n _. simpl. by rewrite E.
  - destruct (fs !! q) as [n|] eqn:En.
    + by apply map_lookup_filter_Some.
    + apply map_lookup_filter_None. by left.
Qed.

Lemma hidden_spec asides q : hidden asides q = true <-> exists a r, a ∈ asides /\ q = a ++ r.
Proof.
  unfold hidden. rewrite existsb_exists. split.
  - intros (a & Ha & [r ->]%path_starts_with_spec). exists a, r. by rewrite list_elem_of_In.
  - intros (a & r & Ha & ->). exists a. rewrite <- list_elem_of_In. split; [done|].
    apply path_starts_with_spec. eauto.
Qed.

Lemma hidden_false asides q : hidden asides q = false <-> forall a r, a ∈ asides -> q <> a ++ r.
Proof.
  split.
  - intros H a r Ha Hq. assert (hidden asides q = true) by (apply hidden_spec; eauto). congruence.
  - intros H. destruct (hidden asides q) eqn:E; [|done]. apply hidden_spec in E as (a & r & Ha & Hq).
    by destruct (H a r).
Qed.

Lemma plain_app p q : plain (p ++ q) <-> plain p /\ plain q.
Proof. apply Forall_app. Qed.

Lemma plain_not_hidden asides q :
  Forall (fun a => ~ plain a) asides -> plain q -> hidden asides q = false.
Proof.
  intros Ha Hq. apply hidden_false. intros a r Hin ->. rewrite Forall_forall in Ha.
  apply (Ha a Hin). by apply plain_app in Hq as [? _].
Qed.

(** *** Names made for what is set aside *)

Lemma contains_mid pat a b : contains pat (a ++ pat ++ b) = true.
Proof.
  unfold contains. induction a as [|x a IH].
  - cbn [app]. by rewrite find_sub_here.
  - cbn [app find_sub]. destruct (starts_with pat (x :: a ++ pat ++ b)); [done|].
    by destruct (find_sub pat (a ++ pat ++ b)).
Qed.

Lemma candidate_shape pid what p seq :
  exists d c, candidate pid what p seq = d ++ [c] /\ (exists r, p = d ++ r)
    /\ contains (B ".prod-code-" ++ what ++ B "-") c = true.
Proof.
  unfold candidate. set (name := utf8_lossy _). set (rest := show pid ++ B "-" ++ show seq).
  assert (Hc : contains (B ".prod-code-" ++ what ++ B "-")
    (B "." ++ name ++ B ".prod-code-" ++ what ++ B "-" ++ rest) = true).
  { replace (B "." ++ name ++ B ".prod-code-" ++ what ++ B "-" ++ rest)
      with ((B "." ++ name) ++ (B ".prod-code-" ++ what ++ B "-") ++ rest) by (by rewrite <- !app_assoc).
    apply contains_mid. }
  unfold with_file_name. destruct (file_name p) as [c|] eqn:E.
  - eexists _, _. split; [reflexivity|]. split; [|exact Hc].
    unfold file_name in E. destruct (last p) as [c'|] eqn:El; [|done].
    apply last_Some in El as [d ->]. rewrite removelast_last. eauto.
  - eexists _, _. split; [reflexivity|]. split; [|exact Hc]. exists []. by rewrite app_nil_r.
Qed.

Lemma candidate_not_plain pid p seq : ~ plain (candidate pid (B "undo") p seq).
Proof.
  destruct (candidate_shape pid (B "undo") p seq) as (d & c & -> & _ & Hc). intros [_ Hp]%plain_app.
  inversion_clear Hp as [|?? Hf _]. change (B ".prod-code-undo-") with (B ".prod-code-" ++ B "undo" ++ B "-") in Hf.
  congruence.
Qed.

(** ** The state of a run and the disk it stands for *)

(** What the specification sees of a run: its disk and what it set aside. *)
Definition view : Type := disk -> list path -> Prop.
Definition sees (P : view) (r : MultiRun) : Prop := P (disk_of r) (aside_paths (journal r)).

(** The disk [a] is what remains in sight. *)
Definition stands_for (a : disk) : view := fun fs asides =>
  disk_wf fs
  /\ Forall (fun p => is_Some (fs !! p)) asides
  /\ Forall (fun p => ~ plain p) asides
  /\ visible asides fs = a.

(** [m] started in [P] ends, if it succeeds, in [Q]. *)
Definition succ {A : Type} (P : view) (m : M A) (Q : A -> view) : Prop :=
  forall r a r', sees P r -> m r = (Ok a, r') -> sees (Q a) r'.

(** [m] changes nothing the specification sees. *)
Definition quiet {A : Type} (m : M A) : Prop :=
  forall r, disk_of (m r).2 = disk_of r /\ aside_paths (journal (m r).2) = aside_paths (journal r).

Lemma succ_ret {A : Type} (a : A) (P : A -> view) : succ (P a) (mret a) P.
Proof. by intros r ? ? H [= <- <-]. Qed.
Lemma succ_fail {A : Type} e P (Q : A -> view) : succ P (fail e) Q.
Proof. by intros r ? ? H [=]. Qed.
Lemma succ_bind {A C : Type} (m : M A) (k : A -> M C) P Q R :
  succ P m Q -> (forall a, succ (Q a) (k a) R) -> succ P (m ≫= k) R.
Proof.
  intros Hm Hk r c r' HP. unfold mbind, M_bind. destruct (m r) as [[a|e] r1] eqn:E; [|done].
  apply Hk. by eapply Hm.
Qed.
Lemma succ_conseq {A : Type} (m : M A) (P P' : view) (Q Q' : A -> view) :
  succ P m Q -> (forall fs l, P' fs l -> P fs l) -> (forall a fs l, Q a fs l -> Q' a fs l) -> succ P' m Q'.
Proof. intros Hm HP HQ r a r' H E. apply HQ. by eapply Hm; [apply HP|]. Qed.
(** What holds of the value a quiet computation returns may be used. *)
Lemma succ_quiet_res {A : Type} (m : M A) P (Q : A -> view) :
  quiet m -> (forall r a r', m r = (Ok a, r') -> sees P r -> sees (Q a) r) -> succ P m Q.
Proof.
  intros Hq HQ r a r' HP E. destruct (Hq r) as [Hd Ha]. rewrite E in Hd, Ha. cbn [snd] in *.
  unfold sees. rewrite Hd, Ha. by eapply HQ.
Qed.
Lemma succ_quiet {A : Type} (m : M A) P : quiet m -> succ P m (fun _ => P).
Proof. intros Hq. by apply succ_quiet_res. Qed.
(** A hypothesis that does not depend on the state. *)
Lemma succ_pure {A : Type} (m : M A) (F : Prop) (P : view) Q :
  (F -> succ P m Q) -> succ (fun fs l => F /\ P fs l) m Q.
Proof. intros H r a r' [HF HP]. by apply H. Qed.

Lemma quiet_ret {A : Type} (a : A) : quiet (mret a).
Proof. by intros r. Qed.
Lemma quiet_fail {A : Type} e : quiet (@fail A e).
Proof. by intros r. Qed.
Lemma quiet_bind {A C : Type} (m : M A) (k : A -> M C) :
  quiet m -> (forall a, quiet (k a)) -> quiet (m ≫= k).
Proof.
  intros Hm Hk r. specialize (Hm r). unfold mbind, M_bind.
  destruct (m r) as [[a|e] r1]; simpl in *; [|done].
  destruct (Hk a r1), Hm. split; congruence.
Qed.
Lemma quiet_modify f :
  (forall r, disk_of (f r) = disk_of r /\ aside_paths (journal (f r)) = aside_paths (journal r)) ->
  quiet (modify f).
Proof. intros H r. apply H. Qed.
Lemma quiet_get_disk : quiet get_disk.
Proof. by intros r. Qed.
Lemma quiet_get_run : quiet get_run.
Proof. by intros r. Qed.
Lemma quiet_push_undo u : quiet (push_undo u).
Proof. by intros r. Qed.
Lemma quiet_read_existing p : quiet (read_existing p).
Proof. intros r. unfold read_existing. by destruct (hd NoFault (faults r)). Qed.
Lemma quiet_read_or_none p : quiet (read_or_none p).
Proof.
  intros r. pose proof (quiet_read_existing p r). unfold read_or_none.
  by destruct (read_existing p r) as [[b|e] r'].
Qed.
Lemma quiet_touch p : quiet (touch p).
Proof. intros r. unfold touch, modify. by destruct (bool_decide _). Qed.
Lemma quiet_original p b : quiet (original p b).
Proof. intros r. unfold original, modify. by destruct (existsb _ _). Qed.
Lemma quiet_forget l : quiet (forget l).
Proof. by intros r. Qed.
Lemma quiet_vacate p : quiet (vacate p).
Proof. by intros r. Qed.
Lemma quiet_set_originals f : quiet (set_originals f).
Proof. by intros r. Qed.
Lemma quiet_contained root rel : quiet (contained root rel).
Proof.
  apply quiet_bind; [apply quiet_get_disk|]. intros fs. cbv zeta.
  destruct (resolve fs (path_join root rel)) as [real|]; [destruct (path_starts_with real root)|]; by intros r.
Qed.
Lemma quiet_text_for_edit p : quiet (text_for_edit p).
Proof. apply quiet_bind; [apply quiet_read_existing|]. intros b. destruct (text_of b); by intros r. Qed.
Lemma quiet_carry a b c d e f : quiet (carry a b c d e f).
Proof.
  apply quiet_bind; [apply quiet_get_disk|]. intros fs.
  destruct (is_dir_at fs f); [apply quiet_bind|]; intros; by intros r.
Qed.
Lemma quiet_carry_original a b : quiet (carry_original a b).
Proof. apply quiet_bind; [apply quiet_get_disk|]. intros fs. destruct (is_dir_at fs b); by intros r. Qed.

Create HintDb quiet.
#[export] Hint Resolve quiet_ret quiet_fail quiet_bind quiet_get_disk quiet_get_run quiet_push_undo
  quiet_read_existing quiet_read_or_none quiet_touch quiet_original quiet_forget quiet_vacate
  quiet_set_originals quiet_contained quiet_text_for_edit quiet_carry quiet_carry_original : quiet.

(** The next computation of a sequence changes nothing the specification sees. *)
Ltac quiet_step := eapply succ_bind; [apply succ_quiet; auto with quiet|]; cbv beta; intros ?.

(** *** What a plain path looks like *)

Section stands.
Context (a fs : disk) (asides : list path) (Hst : stands_for a fs asides).

(** A plain path looks the same on both. *)
Lemma stands_lookup q : plain q -> a !! q = fs !! q.
Proof. destruct Hst as (_ & _ & Hp & <-). intros Hq. by rewrite visible_lookup, (plain_not_hidden _ _ Hp Hq). Qed.
Lemma stands_exists q : plain q -> exists_at a q = exists_at fs q.
Proof. intros Hq. unfold exists_at. by rewrite stands_lookup. Qed.
Lemma stands_is_dir q : plain q -> is_dir_at a q = is_dir_at fs q.
Proof. intros Hq. unfold is_dir_at. by rewrite stands_lookup. Qed.

Lemma plain_parent p d : plain p -> parent p = Some d -> plain d.
Proof.
  destruct p as [|x p]; [done|]. intros Hp Hd. destruct (path_snoc (x :: p)) as (d' & c & E & Hd'); [done|].
  rewrite Hd in Hd'. injection Hd' as <-. rewrite E in Hp. by apply plain_app in Hp as [? _].
Qed.

Lemma stands_in_directory q : plain q -> in_directory a q = in_directory fs q.
Proof.
  intros Hq. unfold in_directory. destruct (parent q) as [d|] eqn:E; [|done].
  by rewrite (stands_is_dir d (plain_parent _ _ Hq E)).
Qed.

(** An entry in sight is an entry. *)
Lemma stands_entries d : entries fs d = [] -> entries a d = [].
Proof.
  intros H. apply entries_nil. intros c. destruct Hst as (_ & _ & _ & <-). rewrite visible_lookup.
  destruct (hidden asides (d ++ [c])); [done|]. destruct (fs !! (d ++ [c])) eqn:E; [|done].
  assert (Hc : c ∈ entries fs d) by (apply elem_of_entries; eauto). rewrite H in Hc.
  by apply not_elem_of_nil in Hc.
Qed.

(** A change at one plain path is the same change on both. *)
Lemma stands_insert q n : plain q -> disk_wf (<[q := n]> fs) -> stands_for (<[q := n]> a) (<[q := n]> fs) asides.
Proof.
  destruct Hst as (Hwf & He & Hp & <-). intros Hq Hwf'. split_and!; [done| |done|].
  - eapply Forall_impl; [exact He|]. intros p Hs. cbn. apply lookup_insert_is_Some'. by right.
  - apply map_eq. intros p. rewrite visible_lookup. destruct (decide (p = q)) as [->|Hne].
    + by rewrite !lookup_insert_eq, plain_not_hidden.
    + by rewrite !lookup_insert_ne, visible_lookup.
Qed.

Lemma stands_write q b fs' :
  plain q -> write_at fs q b = Some fs' -> exists a', write_at a q b = Some a' /\ stands_for a' fs' asides.
Proof.
  intros Hq Hw. pose proof Hw as (Hd & Hf & ->)%write_at_inv.
  unfold write_at. rewrite stands_in_directory, stands_is_dir, Hd, Hf by done. eexists. split; [done|].
  apply stands_insert; [done|]. apply write_wf; [apply Hst|done..].
Qed.

Lemma stands_create_dir q fs' :
  plain q -> create_dir_at fs q = Some fs' -> exists a', create_dir_at a q = Some a' /\ stands_for a' fs' asides.
Proof.
  intros Hq Hw. pose proof Hw as (Hd & Hf & ->)%create_dir_at_inv.
  unfold create_dir_at. rewrite stands_in_directory, stands_exists, Hd by done.
  rewrite (proj2 (exists_at_false _ _) Hf). eexists. split; [done|].
  apply stands_insert; [done|]. apply create_dir_wf; [apply Hst|done..].
Qed.
End stands.

(** ** The steps of the engine *)

(** A call that succeeds did what it says. *)
Lemma attempt_ok works leaves r a r' :
  (attempt works leaves ≫= check_io) r = (Ok a, r') ->
  works (disk_of r) = Some (disk_of r') /\ journal r' = journal r.
Proof.
  unfold mbind, M_bind, attempt. destruct (hd NoFault (faults r)) as [|[b|]|]; cbn; try done;
    (destruct (works (disk_of r)); cbn; [|done]); by intros [= <- <-].
Qed.
Lemma fs_rename_ok from to r a r' :
  fs_rename from to r = (Ok a, r') ->
  rename_at (disk_of r) from to = Some (disk_of r') /\ journal r' = journal r.
Proof.
  pose proof (attempt_ok (fun fs => rename_at fs from to) leaves_nothing r a r') as H.
  unfold fs_rename, mbind, M_bind, try_rename in *.
  destruct (hd NoFault (faults r)); [exact H..|]. destruct (_ && _ && _); [done|exact H].
Qed.

Lemma succ_write a p b :
  plain p -> succ (stands_for a) (fs_write p b) (fun _ fs l => exists a', write_at a p b = Some a' /\ stands_for a' fs l).
Proof.
  intros Hp r [] r' Hs [Hw Hj]%attempt_ok. unfold sees. rewrite Hj. by eapply stands_write.
Qed.

(** [m] does what [f] does to the disk it stands for. *)
Definition implements (m : M unit) (f : disk -> option disk) : Prop :=
  forall a, succ (stands_for a) m (fun _ fs l => exists a', f a = Some a' /\ stands_for a' fs l).

Lemma implements_quiet m : quiet m -> implements m Some.
Proof. intros Hq a. eapply succ_conseq; [by apply (succ_quiet m (stands_for a))|done|]. eauto. Qed.

Lemma implements_bind (m k : M unit) (f g : disk -> option disk) :
  implements m f -> implements k g -> implements (m ;; k) (fun a => f a ≫= g).
Proof.
  intros Hm Hk a. eapply succ_bind; [apply Hm|]. intros [] r [] r' (a1 & Ha & Hs) E.
  cbv beta. rewrite Ha. cbn [mbind option_bind]. by eapply Hk.
Qed.

Lemma implements_ext m f g : (forall a, f a = g a) -> implements m f -> implements m g.
Proof. intros E H a. eapply succ_conseq; [apply H|done|]. intros [] fs l (a' & Ha & Hs). rewrite E in Ha. eauto. Qed.

(** A sequence that ends quietly. *)
Lemma implements_then_quiet (m k : M unit) f : implements m f -> quiet k -> implements (m ;; k) f.
Proof.
  intros Hm Hk. eapply implements_ext; [|apply implements_bind; [exact Hm|by apply implements_quiet]].
  intros a. cbv beta. by destruct (f a).
Qed.
Lemma implements_quiet_then (m k : M unit) f : quiet m -> implements k f -> implements (m ;; k) f.
Proof.
  intros Hm Hk. eapply implements_ext; [|apply implements_bind; [by apply implements_quiet|exact Hk]]. done.
Qed.

Lemma implements_write p b : plain p -> implements (fs_write p b) (fun a => write_at a p b).
Proof. intros Hp a. by apply succ_write. Qed.

Lemma implements_create_dir d :
  plain d -> implements (fs_create_dir d ;; push_undo (URemoveDir d)) (fun a => create_dir_at a d).
Proof.
  intros Hp. apply implements_then_quiet; [|apply quiet_push_undo].
  intros a r [] r' Hs [Hw Hj]%attempt_ok. unfold sees. rewrite Hj. by eapply stands_create_dir.
Qed.

Lemma implements_create_all dirs :
  Forall plain dirs ->
  implements (for_each dirs (fun dir => fs_create_dir dir ;; push_undo (URemoveDir dir))) (create_all dirs).
Proof.
  induction 1 as [|d dirs Hd Hds IH]; [apply implements_quiet, quiet_ret|].
  apply implements_bind; [by apply implements_create_dir|exact IH].
Qed.

Lemma missing_above_plain fuel fs p : plain p -> Forall plain (missing_above fuel fs p).
Proof.
  revert p. induction fuel as [|fuel IH]; intros p Hp; cbn [missing_above]; [constructor|].
  destruct (exists_at fs p); [constructor|]. constructor; [done|].
  destruct (parent p) eqn:E; [|constructor]. apply IH. by eapply plain_parent.
Qed.

Lemma stands_missing_above a fs l fuel p :
  stands_for a fs l -> plain p -> missing_above fuel a p = missing_above fuel fs p.
Proof.
  intros Hs. revert p. induction fuel as [|fuel IH]; intros p Hp; cbn [missing_above]; [done|].
  rewrite (stands_exists a fs l Hs p Hp). destruct (exists_at fs p); [done|]. f_equal.
  destruct (parent p) eqn:E; [|done]. apply IH. by eapply plain_parent.
Qed.

Lemma implements_create_parents abs :
  plain abs -> implements (create_parents abs) (fun a => spec_parents a abs).
Proof.
  intros Hp. unfold create_parents, spec_parents.
  destruct (parent abs) as [par|] eqn:E; [|apply implements_quiet, quiet_ret].
  intros a r [] r' Hs. pose proof (plain_parent _ _ Hp E) as Hpar.
  unfold mbind at 1, M_bind at 1, get_disk.
  rewrite <- (stands_missing_above a (disk_of r) _ _ par Hs Hpar).
  apply implements_create_all; [|exact Hs]. apply Forall_reverse, missing_above_plain, Hpar.
Qed.

(** *** Text *)

Lemma succ_contained P root rel :
  succ P (contained root rel) (fun abs fs l => abs = path_join root rel /\ P fs l).
Proof.
  apply succ_quiet_res; [apply quiet_contained|]. intros r abs r' E HP.
  unfold contained, mbind, M_bind, get_disk in E. destruct (resolve _ _) as [real|]; [|done].
  destruct (path_starts_with real root); [|done]. by injection E as <- <-.
Qed.

(** An operation starts where [contained] lets it. *)
Lemma implements_contained root rel (k : path -> M unit) f :
  implements (k (path_join root rel)) f -> implements (contained root rel ≫= k) f.
Proof.
  intros H a. eapply succ_bind; [apply succ_contained|]. intros abs. cbv beta.
  apply succ_pure. intros ->. apply H.
Qed.

Lemma succ_text_for_edit a abs :
  plain abs ->
  succ (stands_for a) (text_for_edit abs) (fun x fs l =>
    (a !! abs = File <$> x.1 /\ text_of x.1 = Ok x) /\ stands_for a fs l).
Proof.
  intros Hp. apply succ_quiet_res; [apply quiet_text_for_edit|]. intros r x r' E Hs.
  split; [|done]. rewrite (stands_lookup a _ _ Hs abs Hp).
  unfold text_for_edit, mbind, M_bind, read_existing, read_existing_at in E.
  destruct (hd NoFault (faults r)); [|done|];
    (destruct (disk_of r !! abs) as [[b|]|] eqn:Ed; cbn [text_of] in E; [|done|]);
    try (destruct (utf8_valid b) eqn:Eu; [|done]); injection E as <- _; cbn [fst text_of];
    rewrite ?Eu; done.
Qed.

Lemma implements_text root rel edits :
  plain (path_join root rel) ->
  implements (text root rel edits) (fun a => spec_text a (path_join root rel) edits).
Proof.
  intros Hp. apply implements_contained. intros a.
  eapply succ_bind; [by apply succ_text_for_edit|]. intros [b cur]. cbn [fst snd]. cbv beta.
  apply succ_pure. intros [Ha Ht]. quiet_step. unfold spec_text. rewrite Ha.
  destruct (_ && _); [apply succ_fail|].
  destruct b as [b|]; cbn [fmap option_fmap option_map text_of] in *.
  - destruct (utf8_valid b); [|done]. injection Ht as <-.
    destruct (apply_text_edits b edits) as [new|[? ?|]]; [|apply succ_fail..].
    apply (implements_quiet_then _ _ (fun a => write_at a _ new)); [auto with quiet|].
    apply implements_quiet_then; [auto with quiet|]. apply implements_then_quiet; [by apply implements_write|auto with quiet].
  - injection Ht as <-. destruct (apply_text_edits [] edits) as [new|[? ?|]]; [|apply succ_fail..].
    apply (implements_quiet_then _ _ (fun a => fs1 ← spec_parents a _; write_at fs1 _ new)); [auto with quiet|].
    apply implements_bind; [by apply implements_create_parents|].
    apply implements_quiet_then; [auto with quiet|].
    apply implements_then_quiet; [by apply implements_write|auto with quiet].
Qed.

(** *** Setting aside *)

(** Where what was at [p] is once [from] has moved to [to]. *)
Definition retarget (from to p : path) : path :=
  match strip_path from p with Some rest => to ++ rest | None => p end.

Lemma retarget_under from to r : retarget from to (from ++ r) = to ++ r.
Proof. unfold retarget. by rewrite strip_path_app. Qed.
Lemma retarget_other from to p : path_starts_with p from = false -> retarget from to p = p.
Proof. unfold retarget, path_starts_with. by destruct (strip_path from p). Qed.

(** A path is under the retargeted ones if it is under one that stayed or under one that moved. *)
Lemma hidden_retarget from to asides q :
  hidden (map (retarget from to) asides) q = true <->
  (exists p r, p ∈ asides /\ path_starts_with p from = false /\ q = p ++ r)
  \/ (exists s r, from ++ s ∈ asides /\ q = to ++ s ++ r).
Proof.
  rewrite hidden_spec. change (map ?f ?l) with (f <$> l). split.
  - intros (p' & r & (p & -> & Hp)%list_elem_of_fmap & ->). destruct (path_starts_with p from) eqn:E.
    + apply path_starts_with_spec in E as [s ->]. rewrite retarget_under. right. exists s, r.
      by rewrite <- app_assoc.
    + rewrite retarget_other by done. left. eauto.
  - intros [(p & r & Hp & E & ->)|(s & r & Hp & ->)].
    + exists p, r. split; [|done]. apply list_elem_of_fmap. exists p. by rewrite retarget_other.
    + exists (to ++ s), r. rewrite <- app_assoc. split; [|done]. apply list_elem_of_fmap.
      exists (from ++ s). by rewrite retarget_under.
Qed.

(** What is still there after a move, under its new path. *)
Lemma retarget_exists fs from to p :
  disk_wf fs -> fs !! to = None -> comparable from to = false ->
  is_Some (fs !! p) -> is_Some (swap_disk from to fs !! retarget from to p).
Proof.
  intros Hwf Hto Hc Hp. destruct (path_starts_with p from) eqn:E.
  - apply path_starts_with_spec in E as [s ->]. by rewrite retarget_under, renamed_to.
  - rewrite retarget_other, renamed_other; [done|done|done| |done].
    apply path_starts_with_false. intros r ->. rewrite wf_absent in Hp by done. by destruct Hp.
Qed.

Lemma retarget_not_plain from to asides :
  plain from -> Forall (fun p => ~ plain p) asides -> Forall (fun p => ~ plain p) (map (retarget from to) asides).
Proof.
  intros Hf H. apply Forall_map. eapply Forall_impl; [exact H|]. intros p Hp. cbn.
  unfold retarget. destruct (strip_path from p) as [r|] eqn:E; [|done].
  apply strip_path_Some in E as ->. rewrite !plain_app in *. naive_solver.
Qed.

Lemma stands_set_aside a fs asides abs q fs' :
  stands_for a fs asides -> plain abs -> ~ plain q -> fs !! q = None -> rename_at fs abs q = Some fs' ->
  stands_for (without abs a) fs' (map (retarget abs q) asides ++ [q]).
Proof.
  intros (Hwf & He & Hp & <-) Habs Hq Hn Hr.
  assert (Hne : abs <> q) by (by intros ->).
  apply rename_at_fresh in Hr as (Hc & Hf & Hd & ->); [|done|done].
  split_and!.
  - by apply renamed_wf.
  - apply Forall_app. split.
    + apply Forall_map. eapply Forall_impl; [exact He|]. intros p Hs. by apply retarget_exists.
    + constructor; [|constructor]. pose proof (renamed_to fs abs q Hc []) as H.
      rewrite !app_nil_r in H. by rewrite H.
  - apply Forall_app. split; [by apply retarget_not_plain|by constructor].
  - apply map_eq. intros p. rewrite without_lookup, !visible_lookup.
    unfold hidden at 1. rewrite existsb_app. cbn [existsb]. rewrite orb_false_r.
    fold (hidden (map (retarget abs q) asides) p).
    destruct (path_starts_with p q) eqn:Eq.
    { rewrite orb_true_r. apply path_starts_with_spec in Eq as [r ->]. rewrite (wf_absent fs Hwf q r Hn).
      by repeat case_match. }
    rewrite orb_false_r. destruct (path_starts_with p abs) eqn:Ea.
    { apply path_starts_with_spec in Ea as [r ->]. rewrite renamed_from by done. by case_match. }
    rewrite renamed_other by done.
    replace (hidden (map (retarget abs q) asides) p) with (hidden asides p); [done|].
    apply eq_true_iff_eq. rewrite hidden_retarget, hidden_spec. split.
    + intros (x & r & Hx & ->). left. exists x, r. split_and!; [done| |done].
      apply path_starts_with_false. intros s ->. rewrite path_starts_with_false in Ea.
      apply (Ea (s ++ r)). by rewrite app_assoc.
    + intros [(x & r & Hx & _ & ->)|(s & r & _ & ->)]; [eauto|].
      rewrite path_starts_with_false in Eq. by destruct (Eq (s ++ r)).
Qed.

(** [Journal::set_aside] takes the tree out of sight. *)
Lemma implements_set_aside pid abs :
  plain abs -> implements (set_aside pid abs) (fun a => Some (without abs a)).
Proof.
  intros Hp a r [] r' Hs. unfold set_aside, mbind, M_bind.
  destruct (find_free_name _ _ _ _ _) as [[q s]|] eqn:E; [|done].
  destruct (fs_rename abs q _) as [[[]|e] r1] eqn:Er; [|done].
  apply fs_rename_ok in Er as [Hr Hj]. cbn [push_undo moved push_aside modify]. intros [= <-].
  exists (without abs a). split; [done|]. cbn [set_journal disk_of journal aside_paths]. rewrite Hj.
  destruct (free_name_candidate _ _ _ _ _ _ _ _ E) as [s' Hq].
  eapply stands_set_aside; [exact Hs|done| |by eapply free_name_fresh|exact Hr].
  rewrite Hq. apply candidate_not_plain.
Qed.

Lemma implements_delete pid root rel rec :
  plain (path_join root rel) ->
  implements (delete_op pid root rel rec) (fun a => spec_delete a (path_join root rel) rec).
Proof.
  intros Hp. apply implements_contained. intros a r [] r' Hs.
  set (abs := path_join root rel) in *. unfold mbind at 1, M_bind at 1, get_disk.
  unfold spec_delete. rewrite (stands_exists a _ _ Hs abs Hp), (stands_is_dir a _ _ Hs abs Hp).
  destruct (exists_at (disk_of r) abs); [|apply (implements_then_quiet _ _ Some); [|auto with quiet|exact Hs];
    apply implements_quiet; auto with quiet].
  assert (Hgo : forall m : M unit, quiet m ->
    implements ((m ;; set_aside pid abs) ;; vacate abs ;; touch abs) (fun a => Some (without abs a))).
  { intros m Hm. apply implements_then_quiet; [|auto with quiet].
    apply implements_quiet_then; [done|by apply implements_set_aside]. }
  destruct (is_dir_at (disk_of r) abs); [|apply Hgo; [auto with quiet|exact Hs]].
  destruct (rec || bool_decide (entries (disk_of r) abs = [])) eqn:Er; [|done].
  replace (rec || bool_decide (entries a abs = [])) with true; [apply Hgo; [auto with quiet|exact Hs]|].
  symmetry. apply orb_true_iff in Er as [->|Er]; [done|]. apply orb_true_iff. right.
  apply bool_decide_eq_true in Er. apply bool_decide_eq_true. by eapply stands_entries.
Qed.

(** What [make_way] lets through, the specification clears. *)
Lemma make_way_clear pid a abs o i (m : M bool) r go r' :
  plain abs -> quiet m -> (forall r go r', m r = (Ok go, r') -> go = true) -> sees (stands_for a) r ->
  (if exists_at (disk_of r) abs then make_way pid abs o i else m) r = (Ok go, r') ->
  match spec_clear a abs o i with
  | Some (Some a1) => go = true /\ sees (stands_for a1) r' /\ a1 !! abs = None
  | Some None => go = false /\ sees (stands_for a) r'
  | None => False
  end.
Proof.
  intros Hp Hq Hm Hs. unfold spec_clear. rewrite (stands_exists a _ _ Hs abs Hp).
  destruct (exists_at (disk_of r) abs) eqn:Ee.
  - unfold make_way. destruct o; [|destruct i; [by intros [= <- <-]|done]].
    assert (H : succ (stands_for a) (b ← read_or_none abs; original abs b ;; set_aside pid abs ;; mret true)
      (fun go fs l => go = true /\ stands_for (without abs a) fs l)).
    { quiet_step. quiet_step. eapply succ_bind; [by apply implements_set_aside|].
      by intros [] r1 ? r2 (a' & [= <-] & Hs') [= <- <-]. }
    intros E. destruct (H _ _ _ Hs E) as [-> Hs']. split_and!; [done..|].
    by rewrite without_lookup, path_starts_with_refl.
  - intros E. specialize (Hm _ _ _ E). split_and!; [done|by eapply (succ_quiet m)|].
    rewrite (stands_lookup a _ _ Hs abs Hp). by apply exists_at_false.
Qed.

Lemma implements_create pid root rel o i :
  plain (path_join root rel) ->
  implements (create pid root rel o i) (fun a => spec_create a (path_join root rel) o i).
Proof.
  intros Hp. apply implements_contained. intros a r [] r' Hs.
  set (abs := path_join root rel) in *. unfold mbind at 1, M_bind at 1, get_disk.
  unfold mbind at 1, M_bind at 1.
  destruct (_ r) as [[go|e] r1] eqn:E; [|done].
  apply (make_way_clear pid a abs o i _ r) in E;
    [|done|auto with quiet|by intros ? ? ? [= <- _]|done].
  unfold spec_create. destruct (spec_clear a abs o i) as [[a1|]|]; [| |done].
  - destruct E as (-> & Hs1 & _). cbn [mbind option_bind]. revert Hs1.
    assert (Hi : implements (create_parents abs ;; push_undo (URemoveFile abs) ;; touch abs ;; fs_write abs [] ;;
      forget [(root, rel)]) (fun a => fs2 ← spec_parents a abs; write_at fs2 abs [])); [|intros; by eapply Hi].
    apply implements_bind; [by apply implements_create_parents|].
    do 2 (apply implements_quiet_then; [auto with quiet|]).
    apply implements_then_quiet; [by apply implements_write|auto with quiet].
  - destruct E as [-> Hs1]. intros [= <-]. by exists a.
Qed.

(** *** Moving *)

(** The directories above a path are not the path. *)
Lemma create_all_other dirs fs fs' p :
  Forall (fun d => d <> p) dirs -> create_all dirs fs = Some fs' -> fs' !! p = fs !! p.
Proof.
  intros Hd. revert fs. induction Hd as [|d dirs Hne _ IH]; intros fs; cbn [create_all]; [by intros [= <-]|].
  destruct (create_dir_at fs d) as [fs1|] eqn:E; [|done]. intros H. rewrite (IH _ H).
  apply create_dir_at_inv in E as (_ & _ & ->). by rewrite lookup_insert_ne.
Qed.

Lemma spec_parents_other fs abs fs' : spec_parents fs abs = Some fs' -> fs' !! abs = fs !! abs.
Proof.
  unfold spec_parents. destruct abs as [|x p]; [by intros [= <-]|]. cbn [parent]. apply create_all_other.
  apply Forall_reverse, Forall_forall. intros d Hd ->. apply missing_above_length in Hd.
  pose proof (removelast_length (x :: p) ltac:(done)). lia.
Qed.

(** What is set aside is not above a plain path. *)
Lemma not_above_plain asides x r p s :
  Forall (fun a => ~ plain a) asides -> x ∈ asides -> plain p -> p ++ s = x ++ r ->
  exists k, x = p ++ k /\ s = k ++ r.
Proof.
  intros Ha Hx Hp E. rewrite Forall_forall in Ha.
  destruct (app_split _ _ _ _ E) as [(k & -> & _)|(k & -> & -> & _)]; [|eauto].
  exfalso. apply (Ha x Hx). by apply plain_app in Hp as [? _].
Qed.

(** What a move takes out of sight is what was out of sight before it. *)
Lemma hidden_swap fs asides from to q :
  disk_wf fs -> Forall (fun p => is_Some (fs !! p)) asides -> Forall (fun p => ~ plain p) asides ->
  plain from -> plain to -> fs !! to = None -> comparable from to = false ->
  is_Some (fs !! swap_paths from to q) ->
  hidden (map (retarget from to) asides) q = hidden asides (swap_paths from to q).
Proof.
  intros Hwf He Hp Hf Ht Hto Hc En. symmetry. apply eq_true_iff_eq. rewrite hidden_retarget, hidden_spec. split.
  - intros (x & r & Hx & Hq). destruct (path_starts_with q from) eqn:Ef.
    { apply path_starts_with_spec in Ef as [s ->]. rewrite swap_paths_l, wf_absent in En by done. by destruct En. }
    destruct (path_starts_with q to) eqn:Et.
    + apply path_starts_with_spec in Et as [s ->]. rewrite swap_paths_r in Hq by done.
      destruct (not_above_plain asides x r from s) as (k & -> & ->); [done..|]. right. by exists k, r.
    + rewrite swap_paths_other in Hq by done. left. exists x, r. split_and!; [done| |done].
      apply path_starts_with_false. intros s ->. rewrite path_starts_with_false in Ef.
      apply (Ef (s ++ r)). by rewrite app_assoc.
  - intros [(x & r & Hx & Hnf & ->)|(s & r & Hx & ->)].
    + exists x, r. split; [done|]. apply swap_paths_other; apply path_starts_with_false; intros s Eq.
      * destruct (not_above_plain asides x r from s) as (k & -> & _); [done..|].
        rewrite path_starts_with_false in Hnf. by apply (Hnf k).
      * destruct (not_above_plain asides x r to s) as (k & -> & _); [done..|].
        rewrite Forall_forall in He. specialize (He _ Hx). rewrite wf_absent in He by done. by destruct He.
    + exists (from ++ s), r. split; [done|]. rewrite swap_paths_r by done. by rewrite app_assoc.
Qed.

(** The rename is possible on the disk in sight as well. *)
Lemma stands_rename_at a fs asides from to :
  stands_for a fs asides -> plain from -> plain to -> a !! to = None ->
  is_Some (fs !! from) -> in_directory fs to = true -> comparable from to = false ->
  rename_at a from to = Some (swap_disk from to a).
Proof.
  intros Hs Hf Ht Hn Hx Hd Hc. apply rename_at_ok; [by rewrite (stands_lookup a fs asides Hs)|done| |done].
  by rewrite (stands_in_directory a fs asides Hs).
Qed.

(** A rename on one volume, to a path where nothing is in sight. *)
Lemma stands_rename a fs asides from to fs' :
  stands_for a fs asides -> plain from -> plain to -> a !! to = None -> from <> to ->
  rename_at fs from to = Some fs' ->
  exists a', rename_at a from to = Some a' /\ stands_for a' fs' (map (retarget from to) asides).
Proof.
  intros Hs Hf Ht Hn Hne Hr. pose proof Hs as (Hwf & He & Hp & Ha).
  assert (Hto : fs !! to = None) by (by rewrite <- (stands_lookup a fs asides Hs)).
  apply rename_at_fresh in Hr as (Hc & Hx & Hd & ->); [|done|done].
  exists (swap_disk from to a). split; [by eapply stands_rename_at|]. split_and!.
  - by apply renamed_wf.
  - apply Forall_map. eapply Forall_impl; [exact He|]. intros p Hs'. by apply retarget_exists.
  - by apply retarget_not_plain.
  - apply map_eq. intros q. rewrite visible_lookup, !kmap_swap_lookup by done. rewrite <- Ha, visible_lookup.
    destruct (fs !! swap_paths from to q) as [n|] eqn:En; [|by repeat case_match].
    by rewrite (hidden_swap fs).
Qed.

(** *** Copying a tree *)

Lemma entries_nodup fs d : NoDup (entries fs d).
Proof.
  unfold entries. change (map fst ?l) with (fst <$> l). pose proof (NoDup_fst_map_to_list fs) as H.
  revert H. generalize (fst <$> map_to_list fs). intros l. induction 1 as [|p l Hp _ IH]; cbn [omap list_omap]; [constructor|].
  destruct (strip_path d p) as [[|c [|y s]]|] eqn:E; [done| |done..].
  constructor; [|done]. intros (q & Hq & Eq)%list_elem_of_omap.
  destruct (strip_path d q) as [[|c' [|y s]]|] eqn:E'; try done. injection Eq as ->.
  apply strip_path_Some in E, E'. congruence.
Qed.

(** [fs'] is [fs] with the tree at [from] copied to [st]. *)
Definition is_copy (fs fs' : disk) (from st : path) : Prop :=
  forall q, fs' !! q = match strip_path st q with Some s => fs !! (from ++ s) | None => fs !! q end.

(** The directory itself and the entries of it named in [done]. *)
Definition partly_copied (fs fs' : disk) (from st : path) (done : list bytes) : Prop :=
  forall q, fs' !! q = match strip_path st q with
                       | None => fs !! q
                       | Some [] => Some Dir
                       | Some (c :: s) => if decide (c ∈ done) then fs !! (from ++ c :: s) else None
                       end.

Section copying.
Context (fs : disk) (from st : path) (Hc : comparable from st = false).

Lemma strip_path_incomparable s : strip_path st (from ++ s) = None.
Proof. apply strip_path_None. intros r. by apply comparable_false. Qed.

Lemma comparable_app c : comparable (from ++ c) (st ++ c) = false.
Proof.
  unfold comparable. apply orb_false_iff. split; apply path_starts_with_false; intros r;
    rewrite <- !app_assoc; [|intros E; symmetry in E; revert E]; by apply comparable_false.
Qed.

(** One more entry copied. *)
Lemma copy_entry fs1 fs2 names c :
  partly_copied fs fs1 from st names -> is_copy fs1 fs2 (from ++ [c]) (st ++ [c]) ->
  partly_copied fs fs2 from st (c :: names).
Proof.
  intros H1 H2 q. rewrite H2. destruct (strip_path (st ++ [c]) q) as [s|] eqn:E.
  - apply strip_path_Some in E as ->. rewrite <- !app_assoc, strip_path_app. cbn [app].
    rewrite decide_True by (left).
    by rewrite H1, strip_path_incomparable.
  - rewrite H1. destruct (strip_path st q) as [[|x s]|] eqn:E'; [done| |done].
    apply strip_path_Some in E' as ->. rewrite strip_path_None in E.
    assert (x <> c) by (intros ->; apply (E s); by rewrite <- app_assoc).
    destruct (decide (x ∈ names)); [by rewrite decide_True by (by right)|].
    rewrite decide_False; [done|]. by intros [|]%elem_of_cons.
Qed.

Lemma partly_copied_absent fs1 names c :
  partly_copied fs fs1 from st names -> c ∉ names -> fs1 !! (st ++ [c]) = None.
Proof. intros H Hn. by rewrite H, strip_path_app, decide_False. Qed.

(** All entries copied: the whole tree is. *)
Lemma copied_all fs1 names :
  disk_wf fs -> fs !! from = Some Dir -> (forall c, c ∈ entries fs from -> c ∈ names) ->
  partly_copied fs fs1 from st names -> is_copy fs fs1 from st.
Proof.
  intros Hwf Hd Hall H q. rewrite H. destruct (strip_path st q) as [[|c s]|]; [by rewrite app_nil_r| |done].
  destruct (decide (c ∈ names)) as [|Hn]; [done|]. symmetry.
  change (c :: s) with ([c] ++ s). rewrite app_assoc. apply wf_absent; [done|].
  destruct (fs !! (from ++ [c])) eqn:E; [|done]. destruct Hn. apply Hall, elem_of_entries. eauto.
Qed.
End copying.

Lemma fs_set_permissions_ok p r x r' :
  fs_set_permissions p r = (Ok x, r') -> disk_of r' = disk_of r /\ journal r' = journal r.
Proof. intros [H Hj]%attempt_ok. destruct (exists_at _ _); [|done]. by injection H. Qed.

(** What is at and under a path where there was nothing. *)
Lemma insert_fresh_lookup (fs : disk) st n q :
  disk_wf fs -> fs !! st = None ->
  <[st := n]> fs !! q = match strip_path st q with
                        | None => fs !! q
                        | Some [] => Some n
                        | Some (_ :: _) => None
                        end.
Proof.
  intros Hwf Hst. destruct (strip_path st q) as [s|] eqn:Es.
  - apply strip_path_Some in Es as ->. destruct s as [|c s]; [by rewrite app_nil_r, lookup_insert_eq|].
    rewrite lookup_insert_ne by (intros H; apply (f_equal length) in H; rewrite length_app in H; simpl in H; lia).
    by apply wf_absent.
  - rewrite lookup_insert_ne; [done|]. intros <-. rewrite strip_path_None in Es. apply (Es []). by rewrite app_nil_r.
Qed.

(** What copying the entries of a directory does, if copying one does it. *)
Lemma copy_entries_ok fs from st (copy : bytes -> M unit) l names r x r' :
  comparable from st = false ->
  (forall c r x r', disk_wf (disk_of r) -> disk_of r !! (st ++ [c]) = None -> copy c r = (Ok x, r') ->
     disk_wf (disk_of r') /\ journal r' = journal r /\ is_copy (disk_of r) (disk_of r') (from ++ [c]) (st ++ [c])) ->
  NoDup l -> (forall c, c ∈ l -> c ∉ names) -> disk_wf (disk_of r) ->
  partly_copied fs (disk_of r) from st names -> for_each l copy r = (Ok x, r') ->
  disk_wf (disk_of r') /\ journal r' = journal r /\ partly_copied fs (disk_of r') from st (reverse l ++ names).
Proof.
  intros Hc Hcopy. revert names r. induction l as [|c l IH]; intros names r Hnd Hn Hwf Hp; [by intros [= _ <-]|].
  cbn [for_each]. unfold mbind, M_bind. destruct (copy c r) as [[[]|e] r1] eqn:E1; [|done].
  apply Hcopy in E1 as (Hwf1 & Hj1 & Hc1); [|done|by eapply partly_copied_absent; [done|apply Hn; left]].
  apply NoDup_cons in Hnd as [Hcl Hnd]. intros E.
  apply (IH (c :: names)) in E as (Hwf2 & Hj2 & Hp2); [|done| |done|by eapply copy_entry].
  - rewrite reverse_cons, <- app_assoc. split_and!; [done|congruence|exact Hp2].
  - intros c' Hc'. apply not_elem_of_cons. split; [by intros ->|]. apply Hn. by right.
Qed.

(** [copy_path_without_following_links] that succeeds copied the tree. *)
Lemma copy_path_ok fuel from st r x r' :
  disk_wf (disk_of r) -> comparable from st = false -> disk_of r !! st = None ->
  copy_path fuel from st r = (Ok x, r') ->
  disk_wf (disk_of r') /\ journal r' = journal r /\ is_copy (disk_of r) (disk_of r') from st.
Proof.
  revert from st r x r'. induction fuel as [|fuel IH]; intros from st r x r' Hwf Hc Hst; [done|].
  cbn [copy_path]. unfold mbind at 1, M_bind at 1, get_disk.
  destruct (disk_of r !! from) as [[b|]|] eqn:Ef; [| |done].
  - intros [Hw Hj]%attempt_ok. apply write_at_inv in Hw as (Hd & Hn & E). rewrite E.
    split_and!; [by apply write_wf|done|]. intros q. rewrite insert_fresh_lookup by done.
    destruct (strip_path st q) as [[|c s]|]; [by rewrite app_nil_r| |done].
    destruct (disk_of r !! (from ++ c :: s)) eqn:E2; [|done].
    apply wf_above in E2; [congruence|done|done].
  - unfold mbind at 1, M_bind at 1. destruct (fs_create_dir st r) as [[[]|e] r1] eqn:E1; [|done].
    apply attempt_ok in E1 as [Hw Hj1]. apply create_dir_at_inv in Hw as (Hd & _ & Hfs1).
    unfold mbind, M_bind. destruct (for_each _ _ r1) as [[[]|e] r2] eqn:E2; [|done].
    intros [Hd3 Hj3]%fs_set_permissions_ok.
    apply (copy_entries_ok (disk_of r) from st _ _ []) in E2 as (Hwf2 & Hj2 & Hp2).
    + rewrite Hd3. split_and!; [done|congruence|]. eapply copied_all; [done|done| |exact Hp2].
      intros c Hcc. rewrite app_nil_r. by apply elem_of_reverse.
    + done.
    + intros c r3 y r4 H3 H4. apply IH; [done|by apply comparable_app|done].
    + apply entries_nodup.
    + intros c _. apply not_elem_of_nil.
    + rewrite Hfs1. by apply create_dir_wf.
    + intros q. rewrite Hfs1, insert_fresh_lookup by done.
      by destruct (strip_path st q) as [[|c s]|].
Qed.

(** *** Moving across volumes *)

(** The copy is made next to the destination, so neither above nor under the source. *)
Lemma staging_incomparable pid from to seq fs :
  disk_wf fs -> comparable from to = false -> is_Some (fs !! from) ->
  fs !! candidate pid (B "transfer") to seq = None ->
  comparable from (candidate pid (B "transfer") to seq) = false.
Proof.
  intros Hwf Hc Hf. destruct (candidate_shape pid (B "transfer") to seq) as (d & c & -> & [k Hk] & _). intros E.
  unfold comparable in *. apply orb_false_iff in Hc as [_ Hc]. rewrite path_starts_with_false in Hc.
  apply orb_false_iff. split; apply path_starts_with_false; intros y Hy.
  - rewrite Hy, wf_absent in Hf by done. by destruct Hf.
  - destruct y as [|z y _] using rev_ind.
    + rewrite app_nil_r in Hy. rewrite <- Hy, E in Hf. by destruct Hf.
    + rewrite app_assoc in Hy. apply app_inj_tail in Hy as [-> _]. apply (Hc (y ++ k)). by rewrite app_assoc.
Qed.

(** [transfer] that succeeds copied the tree to its destination. *)
Lemma transfer_ok pid from to r x r' :
  disk_wf (disk_of r) -> comparable from to = false -> disk_of r !! to = None -> is_Some (disk_of r !! from) ->
  transfer pid from to r = (Ok x, r') ->
  disk_wf (disk_of r') /\ aside_paths (journal r') = aside_paths (journal r)
  /\ is_copy (disk_of r) (disk_of r') from to.
Proof.
  intros Hwf Hc Hto Hf. unfold transfer, unique_transfer_path, copy_path_without_following_links, mbind, M_bind, get_disk.
  destruct (find_free_name _ _ _ _ _) as [[st s]|] eqn:E; [|done].
  destruct (free_name_candidate _ _ _ _ _ _ _ _ E) as [s' Hq]. pose proof (free_name_fresh _ _ _ _ _ _ _ _ E) as Hfresh.
  clear E. rename Hfresh into E.
  pose proof (staging_incomparable pid from to s' _ Hwf Hc Hf ltac:(by rewrite <- Hq)) as Hcs. rewrite <- Hq in Hcs.
  cbn [push_undo modify set_journal set_seqs disk_of].
  destruct (copy_path _ _ _ _) as [[[]|e] r1] eqn:E1; [|done].
  apply copy_path_ok in E1 as (Hwf1 & Hj1 & Hcp); [|done..]. cbn [set_journal set_seqs disk_of journal] in *.
  destruct (fs_rename st to r1) as [[[]|e] r2] eqn:E2; [|done]. apply fs_rename_ok in E2 as [Hr Hj2].
  intros [= _ <-]. cbn [set_journal disk_of journal aside_paths]. rewrite Hj2, Hj1. cbn [aside_paths].
  assert (Hne : st <> to) by (rewrite Hq; apply candidate_other).
  assert (Hto1 : disk_of r1 !! to = None).
  { rewrite Hcp. destruct (strip_path st to) as [k|] eqn:Es; [|done]. exfalso. apply strip_path_Some in Es.
    unfold rename_at in Hr. destruct (_ || _); [done|]. destruct (decide (st = to)); [done|].
    unfold comparable in Hr. replace (path_starts_with to st) with true in Hr; [by rewrite orb_true_r in Hr|].
    symmetry. apply path_starts_with_spec. eauto. }
  apply rename_at_fresh in Hr as (Hc2 & Hx2 & Hd2 & ->); [|done|done].
  split_and!; [by apply renamed_wf|done|]. intros q. destruct (strip_path to q) as [k|] eqn:Ek.
  - apply strip_path_Some in Ek as ->. by rewrite renamed_to, Hcp, strip_path_app.
  - destruct (path_starts_with q st) eqn:Es.
    + apply path_starts_with_spec in Es as [k ->]. rewrite renamed_from by done. by rewrite wf_absent.
    + rewrite renamed_other; [|done|done|unfold path_starts_with; by rewrite Ek].
      rewrite Hcp. unfold path_starts_with in Es. by destruct (strip_path st q).
Qed.

(** With the copy in place, what is set aside is what it carries, and the source out of sight. *)
Lemma stands_copied a fs fs1 asides from to :
  stands_for a fs asides -> plain from -> plain to -> fs !! to = None -> comparable from to = false ->
  disk_wf fs1 -> is_copy fs fs1 from to ->
  exists a1, stands_for a1 fs1 (map (retarget from to) asides) /\ without from a1 = swap_disk from to a.
Proof.
  intros (Hwf & He & Hp & <-) Hf Ht Hto Hc Hwf1 Hcp.
  eexists. split; [split_and!; [done| |by apply retarget_not_plain|reflexivity]|].
  - apply Forall_map. eapply Forall_impl; [exact He|]. intros p Hs. cbn. rewrite Hcp.
    destruct (path_starts_with p from) eqn:E.
    + apply path_starts_with_spec in E as [s ->]. by rewrite retarget_under, strip_path_app.
    + rewrite retarget_other by done. destruct (strip_path to p) as [s|] eqn:Es; [|done].
      apply strip_path_Some in Es as ->. rewrite wf_absent in Hs by done. by destruct Hs.
  - apply map_eq. intros q. rewrite without_lookup, kmap_swap_lookup, !visible_lookup by done.
    destruct (path_starts_with q from) eqn:Ef.
    { apply path_starts_with_spec in Ef as [s ->]. rewrite swap_paths_l, (wf_absent fs Hwf to s Hto). by case_match. }
    assert (Hq : fs1 !! q = fs !! swap_paths from to q).
    { rewrite Hcp. unfold swap_paths. unfold path_starts_with in Ef. by destruct (strip_path from q), (strip_path to q). }
    rewrite Hq. destruct (fs !! swap_paths from to q) eqn:En; [|by repeat case_match].
    by rewrite (hidden_swap fs).
Qed.

(** How a rename can end that does not fail otherwise. *)
Lemma try_rename_cases from to r x r' :
  try_rename from to r = (Ok x, r') ->
  journal r' = journal r /\
  match x with
  | Ok _ => rename_at (disk_of r) from to = Some (disk_of r')
  | Err CrossesDevices =>
      disk_of r' = disk_of r /\ is_Some (disk_of r !! from) /\ in_directory (disk_of r) to = true
      /\ comparable from to = false
  | Err OtherIo => True
  end.
Proof.
  assert (Ha : attempt (fun fs => rename_at fs from to) leaves_nothing r = (Ok x, r') ->
    journal r' = journal r /\ match x with
      | Ok _ => rename_at (disk_of r) from to = Some (disk_of r') | Err CrossesDevices => False | Err OtherIo => True end).
  { unfold attempt. destruct (hd NoFault (faults r)) as [|[b|]|]; try (by intros [= <- <-]);
      (destruct (rename_at (disk_of r) from to); by intros [= <- <-]). }
  unfold try_rename. destruct (hd NoFault (faults r));
    [intros [Hj Hx]%Ha; split; [done|]; by destruct x as [|[]]..|].
  destruct (exists_at (disk_of r) from && in_directory (disk_of r) to && negb (comparable from to)) eqn:E;
    [|intros [Hj Hx]%Ha; split; [done|]; by destruct x as [|[]]].
  intros [= <- <-]. apply andb_prop in E as [[E1 E2]%andb_prop E3%negb_true_iff].
  apply exists_at_true in E1. done.
Qed.

(** The part of [MultiRun::rename] that moves, on one volume or across two. *)
Definition move_step (pid : Z) (from_root : path) (from_rel : bytes) (from to_root : path) (to_rel : bytes)
    (to : path) : M bool :=
  x ← try_rename from to;
  match x with
  | Ok _ => push_undo (UMove to from) ;; moved from to ;; mret false
  | Err CrossesDevices =>
      transfer pid from to ;; moved from to ;; carry from_root from_rel from to_root to_rel to ;;
      set_aside pid from ;; mret true
  | Err OtherIo => fail IoError
  end.

Lemma move_step_ok pid fr frel from tr trel to a :
  plain from -> plain to -> a !! to = None -> from <> to ->
  succ (stands_for a) (move_step pid fr frel from tr trel to)
    (fun _ fs l => exists a', rename_at a from to = Some a' /\ stands_for a' fs l).
Proof.
  intros Hf Ht Hn Hne r go r' Hs. unfold move_step, mbind at 1, M_bind at 1.
  destruct (try_rename from to r) as [[x|e] r1] eqn:E; [|done].
  apply try_rename_cases in E as [Hj Hx]. destruct x as [[]|[|]]; [| |done].
  - cbn [push_undo moved modify]. intros [= _ <-]. unfold sees. cbn [set_journal disk_of journal aside_paths].
    rewrite Hj. by eapply stands_rename.
  - destruct Hx as (Hd & Hx & Hdir & Hc).
    assert (Hto : disk_of r !! to = None) by (by rewrite <- (stands_lookup a _ _ Hs)).
    unfold mbind at 1, M_bind at 1. destruct (transfer pid from to r1) as [[[]|e] r2] eqn:E2; [|done].
    apply transfer_ok in E2 as (Hwf2 & Hj2 & Hcp); rewrite ?Hd; [|apply Hs|done..]. rewrite Hd, Hj in *.
    destruct (stands_copied a _ (disk_of r2) _ from to Hs) as (a1 & Hs1 & Hw); [done..|]. intros E.
    exists (swap_disk from to a). split; [by eapply stands_rename_at|]. rewrite <- Hw.
    assert (Hi : succ (stands_for a1) (carry fr frel from tr trel to ;; set_aside pid from ;; mret true)
      (fun _ => stands_for (without from a1))).
    { quiet_step. eapply succ_bind; [by apply implements_set_aside|].
      by intros [] r3 ? r4 (a' & [= <-] & Hs') [= _ <-]. }
    eapply Hi; [|exact E].
    unfold sees. cbn [set_journal disk_of journal aside_paths]. by rewrite Hj2.
Qed.

Lemma implements_rename pid fr frel tr trel o i :
  plain (path_join fr frel) -> plain (path_join tr trel) ->
  implements (rename pid fr frel tr trel o i)
    (fun a => spec_rename a (path_join fr frel) (path_join tr trel) o i).
Proof.
  intros Hf Ht. apply implements_contained, implements_contained. intros a.
  set (from := path_join fr frel) in *. set (to := path_join tr trel) in *. unfold spec_rename.
  destruct (decide (from = to)) as [|Hne]; [by apply implements_quiet, quiet_ret|].
  intros r [] r' Hs. unfold mbind at 1, M_bind at 1, get_disk. rewrite (stands_exists a _ _ Hs from Hf).
  destruct (negb (exists_at (disk_of r) from)); [done|]. unfold mbind at 1, M_bind at 1.
  destruct (_ r) as [[go|e] r1] eqn:E; [|done].
  apply (make_way_clear pid a to o i _ r) in E; [|done|auto with quiet|by intros ? ? ? [= <- _]|done].
  destruct (spec_clear a to o i) as [[a1|]|]; [| |done].
  - destruct E as (-> & Hs1 & Hn). cbn [negb mbind option_bind]. revert Hs1. generalize r1 r'.
    match goal with |- forall r r', _ -> ?m r = _ -> _ =>
      enough (Hi : succ (stands_for a1) m (fun _ fs l => exists a',
        (fs2 ← spec_parents a1 to; rename_at fs2 from to) = Some a' /\ stands_for a' fs l)) end.
    { intros r2 r3 H2 H3. by eapply Hi. }
    do 5 quiet_step. eapply succ_bind; [by apply implements_create_parents|]. intros [].
    intros r2 [] r3 (b2 & Ha2 & Hs2) E. rewrite Ha2. cbn [mbind option_bind].
    rewrite <- bind_assoc in E. revert Hs2 E.
    assert (Hi : succ (stands_for b2) (copied ← move_step pid fr frel from tr trel to;
      (if (copied : bool) then mret tt else carry fr frel from tr trel to) ;; carry_original from to ;; vacate from)
      (fun _ fs l => exists a', rename_at b2 from to = Some a' /\ stands_for a' fs l)); [|apply Hi].
    eapply succ_bind; [apply move_step_ok; try done; by rewrite (spec_parents_other _ _ _ Ha2)|].
    intros c. apply succ_quiet. apply quiet_bind; [by destruct c; auto with quiet|auto with quiet].
  - destruct E as [-> Hs1]. intros [= <-]. by exists a.
Qed.

Lemma implements_op pid op : plain_op op -> implements (apply_op pid op) (spec_op op).
Proof.
  unfold plain_op. destruct op; cbn [op_paths apply_op]; intros H; rewrite !Forall_cons in H;
    destruct_and!; auto using implements_text, implements_create, implements_delete, implements_rename.
Qed.

Lemma implements_apply pid ops : Forall plain_op ops -> implements (apply pid ops) (spec_ops ops).
Proof.
  induction 1 as [|op ops Hop _ IH]; [apply implements_quiet, quiet_ret|].
  apply implements_bind; [by apply implements_op|exact IH].
Qed.

(** ** Committing *)

Lemma visible_cons x l fs : visible (x :: l) fs = visible l (without x fs).
Proof.
  apply map_eq. intros q. rewrite !visible_lookup, without_lookup. cbn [hidden existsb].
  fold (hidden l q). destruct (path_starts_with q x), (hidden l q); done.
Qed.

(** A set-aside path is gone after its removal, if it was there. *)
Lemma removal_without fs x :
  disk_wf fs -> x <> [] ->
  default fs (if is_dir_at fs x then remove_dir_all_at fs x else remove_file_at fs x) = without x fs.
Proof.
  intros Hwf Hx. unfold is_dir_at, remove_dir_all_at, remove_file_at.
  destruct (fs !! x) as [[b|]|] eqn:E; cbn.
  - by eapply delete_without, file_nothing_under.
  - by destruct x.
  - symmetry. by apply without_absent.
Qed.

(** The loop of [Journal::commit]. *)
Definition remove_asides (l : list path) : M unit :=
  for_each l (fun aside =>
    fs ← get_disk;
    (if is_dir_at fs aside then attempt (fun fs => remove_dir_all_at fs aside) leaves_nothing
     else attempt (fun fs => remove_file_at fs aside) leaves_nothing) ;; mret tt).

(** An attempt without a fault does what it can. *)
Lemma attempt_no_fault works leaves r :
  Forall (fun f => f = NoFault) (faults r) ->
  exists x r', attempt works leaves r = (Ok x, r') /\ disk_of r' = default (disk_of r) (works (disk_of r))
    /\ Forall (fun f => f = NoFault) (faults r').
Proof.
  intros Hf. unfold attempt. assert (Hh : hd NoFault (faults r) = NoFault) by (by destruct Hf).
  assert (Ht : Forall (fun f => f = NoFault) (tail (faults r))) by (destruct Hf; [constructor|done]).
  rewrite Hh. destruct (works (disk_of r)); by eexists _, _.
Qed.

Lemma remove_asides_visible l r :
  disk_wf (disk_of r) -> Forall (fun p => p <> []) l -> Forall (fun f => f = NoFault) (faults r) ->
  exists r', remove_asides l r = (Ok tt, r') /\ disk_of r' = visible l (disk_of r).
Proof.
  intros Hwf Hl. revert r Hwf. induction Hl as [|x l Hx Hl IH]; intros r Hwf Hf.
  - exists r. split; [done|]. apply map_eq. intros q. by rewrite visible_lookup.
  - rewrite visible_cons, <- (removal_without _ x) by done. pose proof (removal_without _ x Hwf Hx) as Hr.
    unfold remove_asides. cbn [for_each]. unfold mbind, M_bind, get_disk.
    destruct (is_dir_at (disk_of r) x).
    1: destruct (attempt_no_fault (fun fs => remove_dir_all_at fs x) leaves_nothing r Hf) as (y & r1 & -> & Hd & Hf1).
    2: destruct (attempt_no_fault (fun fs => remove_file_at fs x) leaves_nothing r Hf) as (y & r1 & -> & Hd & Hf1).
    all: rewrite <- Hd in *; apply IH; [rewrite Hr; by apply without_wf|done].
Qed.

Lemma plain_nil : plain [].
Proof. constructor. Qed.

Lemma commit_visible r a :
  sees (stands_for a) r -> Forall (fun f => f = NoFault) (faults r) -> disk_of (commit r).2 = a.
Proof.
  intros (Hwf & _ & Hp & <-) Hf.
  destruct (remove_asides_visible (aside_paths (journal r)) r) as (r' & E & Hd); [done| |done|].
  - eapply Forall_impl; [exact Hp|]. intros p H ->. by apply H, plain_nil.
  - unfold remove_asides in E. unfold commit, mbind at 1, M_bind at 1, get_run.
    unfold mbind at 1, M_bind at 1. by rewrite E.
Qed.

(** C2: a workspace edit that is applied and committed leaves exactly the disk its operations
    describe, one after the other: what was overwritten or deleted is gone, what was moved
    across volumes is where it was moved to and nowhere else, and of the files the engine sets
    aside or copies on the way nothing remains. *)
Theorem edit_refines_operations (pid : Z) (fs fs' : disk) (ops : list MultiOp) (outcomes : list Fault)
    (u t : Z) (done : list path) :
  disk_wf fs -> Forall plain_op ops ->
  run_ops pid ops (new_run fs outcomes u t) = (Ok done, fs') ->
  Forall (fun f => f = NoFault) (faults (apply pid ops (new_run fs outcomes u t)).2) ->
  spec_ops ops fs = Some fs'.
Proof.
  intros Hwf Hops. unfold run_ops. destruct (apply pid ops (new_run fs outcomes u t)) as [x r] eqn:E.
  destruct x as [[]|e]; [|by destruct e, (roll_back r) as [[[? []]|] ?]].
  assert (H0 : sees (stands_for fs) (new_run fs outcomes u t)).
  { split_and!; [done|constructor|constructor|]. apply map_eq. intros q. by rewrite visible_lookup. }
  destruct (implements_apply pid ops Hops fs _ _ _ H0 E) as (a & Ha & Hs). cbn [snd].
  intros [= _ <-] Hf. by rewrite (commit_visible r a).
Qed.

(** The sample edit up to its last step, its first rename across volumes. *)
Lemma edit_refines_operations_witness :
  let r := run_ops 7 (take 3 sample_ops) (new_run sample (take 13 sample_outcomes) 0 0) in
  r.1 = Ok [[B "r"; B "src"; B "a.rs"]; [B "r"; B "lib"; B "deep"; B "b.rs"]; [B "r"; B "lib"];
            [B "r"; B "empty"]; [B "r"; B "empty"; B "deep"]]
  /\ spec_ops (take 3 sample_ops) sample = Some r.2.
Proof.
  intros r. assert (E : r.1 = Ok [[B "r"; B "src"; B "a.rs"]; [B "r"; B "lib"; B "deep"; B "b.rs"]; [B "r"; B "lib"];
            [B "r"; B "empty"]; [B "r"; B "empty"; B "deep"]]) by (vm_compute; reflexivity).
  split; [exact E|]. subst r.
  eapply (edit_refines_operations 7 sample _ (take 3 sample_ops) (take 13 sample_outcomes) 0 0).
  - exact sample_wf.
  - by_decide.
  - rewrite <- E. apply surjective_pairing.
  - by_decide.
Defined.

(** ** Whatever happens, a disk remains *)

Lemma undo_at_wf u fs fs' : disk_wf fs -> undo_at u fs = Some fs' -> disk_wf fs'.
Proof.
  intros Hwf. destruct u as [p b|p|p|p|from to]; cbn [undo_at].
  - destruct (decide _); [by intros [= <-]|]. intros (Hd & Hf & ->)%write_at_inv. by apply write_wf.
  - destruct (exists_at fs p); [|by intros [= <-]]. intros [-> ?]%remove_file_without; [by apply without_wf|done].
  - unfold remove_path_at. destruct (fs !! p) as [[b|]|]; [| |by intros [= <-]].
    + intros [-> ?]%remove_file_without; [by apply without_wf|done].
    + intros [-> ?]%remove_dir_all_without. by apply without_wf.
  - intros [-> ?]%remove_dir_without; [by apply without_wf|done].
  - by apply rename_at_wf.
Qed.

Lemma undo_leaves_wf u b fs fs' : disk_wf fs -> undo_leaves u b fs = Some fs' -> disk_wf fs'.
Proof.
  intros Hwf. destruct u; cbn [undo_leaves]; try (by intros [= <-]).
  intros (Hd & Hf & ->)%write_at_inv. by apply write_wf.
Qed.

(** An attempt keeps the disk well formed if what it does and what it may leave both do. *)
Lemma keeps_wf_attempt works leaves :
  (forall fs fs', disk_wf fs -> works fs = Some fs' -> disk_wf fs') ->
  (forall b fs fs', disk_wf fs -> leaves b fs = Some fs' -> disk_wf fs') ->
  keeps (on_disk disk_wf) (attempt works leaves).
Proof.
  intros Hw Hl r H. unfold holds, on_disk, attempt in *. destruct (hd NoFault (faults r)) as [|[b|]|];
    [destruct (works _) eqn:E|destruct (leaves b _) eqn:E| |destruct (works _) eqn:E]; cbn; eauto.
Qed.

Lemma keeps_wf_roll_steps steps n failed : keeps (on_disk disk_wf) (roll_steps steps n failed).
Proof.
  revert n failed. induction steps as [|u steps IH]; intros n failed; cbn [roll_steps]; [apply keeps_ret|].
  apply keeps_bind; [apply keeps_neutral, neutral_get_disk|]. intros fs.
  destruct (undo_skips u fs); [apply IH|]. apply keeps_bind; [|intros [?|?]; apply IH].
  apply keeps_wf_attempt; eauto using undo_at_wf, undo_leaves_wf.
Qed.

Lemma keeps_wf_roll_back : keeps (on_disk disk_wf) roll_back.
Proof.
  apply keeps_bind; [apply keeps_neutral, neutral_get_run|]. intros r0.
  apply keeps_bind; [apply keeps_wf_roll_steps|]. intros x.
  apply keeps_bind; [by intros r|]. intros []. apply keeps_ret.
Qed.

Lemma keeps_wf_commit : keeps (on_disk disk_wf) commit.
Proof.
  apply keeps_bind; [apply keeps_neutral, neutral_get_run|]. intros r0.
  apply keeps_bind; [|intros []; by intros r]. apply keeps_for_each. intros x.
  apply keeps_bind; [apply keeps_neutral, neutral_get_disk|]. intros fs1.
  apply keeps_bind; [|intros ?; apply keeps_ret].
  destruct (is_dir_at fs1 x); apply keeps_wf_attempt; try (by intros b fs fs' H [= <-]).
  - intros fs fs' Hwf [-> ?]%remove_dir_all_without. by apply without_wf.
  - intros fs fs' Hwf [-> ?]%remove_file_without; [by apply without_wf|done].
Qed.


