(* ===== verification/Preview.v ===== *)
(** * The preview of a workspace edit

    [planned_texts] and [planned_multi_texts] of [refactor/edits.rs]: what every file an edit
    rewrites would contain, computed in memory.  The preview is checked against [EditSpec], the
    disk the edit would leave: where the edit neither overwrites nor ignores what is in its way
    and moves single files only, the preview lists exactly the files whose content would change,
    with exactly that content. *)

From Stdlib Require Import Strings.Byte.
From stdpp Require Import gmap.
From S2P Require Import Prelude RustStr Utf8 Json TextEdits Fs Journal WorkspaceEdit EditSpec.

(** ** [planned_multi_texts] *)

(** Why there is no preview. *)
Inductive PreviewError :=
| PreviewRefused (e : Refusal)
| PreviewUnreadable (e : EditFailure)
| PreviewEdit (e : EditError).

(** Each path's proposed text, in the order the edit first names it, the paths it removed and
    whether it had a resource operation. *)
Record Planned := MkPlanned {
  out : list (path * bytes);
  gone : list path;
  moves_files : bool;
}.

Definition find_text (l : list (path * bytes)) (abs : path) : option bytes :=
  snd <$> List.find (fun e => bool_decide (e.1 = abs)) l.

(** The closure [current]. *)
Definition current_text (fs : disk) (s : Planned) (abs : path) : result bytes PreviewError :=
  match find_text (out s) abs with
  | Some text => Ok text
  | None =>
      if existsb (path_starts_with abs) (gone s) then Ok []
      else match text_for_edit_at fs abs with
           | Ok (_, text) => Ok text
           | Err e => Err (PreviewUnreadable e)
           end
  end.

(** The first slot of [abs] rewritten, or a new one. *)
Fixpoint set_slot (l : list (path * bytes)) (abs : path) (text : bytes) : list (path * bytes) :=
  match l with
  | [] => [(abs, text)]
  | e :: l' => if bool_decide (e.1 = abs) then (abs, text) :: l' else e :: set_slot l' abs text
  end.

(** The closure [set]. *)
Definition set_text (s : Planned) (abs : path) (text : bytes) : Planned :=
  MkPlanned (set_slot (out s) abs text) (filter (fun p => p <> abs) (gone s)) (moves_files s).

(** [out.retain(|(p, _)| keep(p))]. *)
Definition retain_paths (keep : path -> bool) (l : list (path * bytes)) : list (path * bytes) :=
  List.filter (fun e => keep e.1) l.

Definition mark_moves (s : Planned) : Planned := MkPlanned (out s) (gone s) true.

(** One turn of the loop. *)
Definition plan_op (fs : disk) (s : Planned) (op : MultiOp) : result Planned PreviewError :=
  match op with
  | OpText root rel edits =>
      let abs := path_join root rel in
      and_then (current_text fs s abs) (fun text =>
        match apply_text_edits text edits with
        | Ok text => Ok (set_text s abs text)
        | Err e => Err (PreviewEdit e)
        end)
  | OpCreate root rel _ _ =>
      let s := mark_moves s in
      let abs := path_join root rel in
      and_then (current_text fs s abs) (fun text => Ok (set_text s abs text))
  | OpRename from_root from_rel to_root to_rel _ _ =>
      let s := mark_moves s in
      let from := path_join from_root from_rel in
      and_then (current_text fs s from) (fun text =>
        let s1 := MkPlanned (retain_paths (fun p => negb (bool_decide (p = from))) (out s)) (gone s ++ [from]) (moves_files s) in
        Ok (set_text s1 (path_join to_root to_rel) text))
  | OpDelete root rel _ =>
      let abs := path_join root rel in
      Ok (MkPlanned (retain_paths (fun p => negb (path_starts_with p abs)) (out s)) (gone s ++ [abs]) true)
  end.

Fixpoint plan_ops (fs : disk) (s : Planned) (ops : list MultiOp) : result Planned PreviewError :=
  match ops with
  | [] => Ok s
  | op :: rest => and_then (plan_op fs s op) (fun s' => plan_ops fs s' rest)
  end.

Definition planned_multi_texts (to_file_path : bytes -> option path) (fs : disk) (roots : list path)
    (edit : Value) : result (list (path * bytes) * bool) PreviewError :=
  match multi_operations to_file_path fs roots edit with
  | Err e => Err (PreviewRefused e)
  | Ok ops => and_then (plan_ops fs (MkPlanned [] [] false) ops) (fun s => Ok (out s, moves_files s))
  end.

Definition planned_texts (to_file_path : bytes -> option path) (fs : disk) (root : path) (edit : Value) :=
  planned_multi_texts to_file_path fs [root] edit.

(** ** What the preview can be trusted with *)

(** Nothing is overwritten or passed over, and what is moved is a file: on the disk the
    operations before it leave. *)
Definition previewable_op (fs : disk) (op : MultiOp) : bool :=
  match op with
  | OpText _ _ _ | OpDelete _ _ _ => true
  | OpCreate _ _ o i => negb o && negb i
  | OpRename from_root from_rel _ _ o i =>
      let from := path_join from_root from_rel in
      negb o && negb i && exists_at fs from && negb (is_dir_at fs from)
  end.
Fixpoint previewable (ops : list MultiOp) (fs : disk) : bool :=
  match ops with
  | [] => true
  | op :: rest =>
      previewable_op fs op && match spec_op op fs with Some fs' => previewable rest fs' | None => true end
  end.

(** ** The texts of a preview *)

Lemma find_text_cons e l p : find_text (e :: l) p = if decide (e.1 = p) then Some e.2 else find_text l p.
Proof.
  unfold find_text. cbn [List.find]. destruct (decide (e.1 = p)) as [E|E].
  - by rewrite bool_decide_eq_true_2.
  - by rewrite bool_decide_eq_false_2.
Qed.

Lemma find_text_set l abs t p :
  find_text (set_slot l abs t) p = if decide (abs = p) then Some t else find_text l p.
Proof.
  induction l as [|e l IH]; cbn [set_slot]; [by rewrite find_text_cons|].
  case_bool_decide as E; rewrite !find_text_cons; cbn [fst snd].
  - subst. by destruct (decide (e.1 = p)).
  - rewrite IH. destruct (decide (e.1 = p)) as [Ep|]; [|done]. rewrite decide_False; [done|congruence].
Qed.

Lemma find_text_retain keep l p :
  find_text (retain_paths keep l) p = if keep p then find_text l p else None.
Proof.
  induction l as [|e l IH]; [by destruct (keep p)|]. cbn [retain_paths List.filter].
  fold (retain_paths keep l). destruct (keep e.1) eqn:Ek; rewrite !find_text_cons, IH;
    destruct (decide (e.1 = p)) as [<-|]; rewrite ?Ek; done.
Qed.

Lemma find_text_elem l p t : NoDup l.*1 -> find_text l p = Some t <-> (p, t) ∈ l.
Proof.
  induction l as [|[q u] l IH]; intros Hnd.
  - split; [done|by intros ?%not_elem_of_nil].
  - cbn in Hnd. apply NoDup_cons in Hnd as [Hq Hnd]. rewrite find_text_cons, elem_of_cons. cbn [fst snd].
    destruct (decide (q = p)) as [->|Hne].
    + split; [intros [= ->]; by left|]. intros [[= ->]|Hin]; [done|]. destruct Hq.
      apply list_elem_of_fmap. by exists (p, t).
    + rewrite IH by done. split; [by right|]. intros [[= -> ->]|]; done.
Qed.

Lemma set_slot_keys l abs t :
  (set_slot l abs t).*1 = if decide (abs ∈ l.*1) then l.*1 else l.*1 ++ [abs].
Proof.
  induction l as [|e l IH]; [done|]. cbn [set_slot]. case_bool_decide as E; cbn.
  - rewrite decide_True by (rewrite E; left). by rewrite E.
  - rewrite IH. destruct (decide (abs ∈ l.*1)) as [H|H].
    + by rewrite decide_True by (by right).
    + rewrite decide_False; [done|]. by intros [->|]%elem_of_cons.
Qed.

Lemma set_slot_nodup l abs t : NoDup l.*1 -> NoDup (set_slot l abs t).*1.
Proof.
  intros Hnd. rewrite set_slot_keys. destruct (decide (abs ∈ l.*1)); [done|].
  apply NoDup_app. split_and!; [done| |apply NoDup_singleton]. by intros p Hp ->%list_elem_of_singleton.
Qed.

Lemma retain_nodup keep l : NoDup l.*1 -> NoDup (retain_paths keep l).*1.
Proof.
  induction l as [|e l IH]; [done|]. rewrite fmap_cons. intros [He Hnd]%NoDup_cons.
  cbn [retain_paths List.filter]. fold (retain_paths keep l). destruct (keep e.1); [|by apply IH].
  rewrite fmap_cons. apply NoDup_cons. split; [|by apply IH].
  intros (x & Ex & Hx)%list_elem_of_fmap. apply He, list_elem_of_fmap. exists x. split; [done|].
  apply list_elem_of_In, filter_In in Hx as [Hx _]. by apply list_elem_of_In.
Qed.

(** ** The preview keeps up with the disk *)

Definition covered (s : Planned) (p : path) : bool := existsb (path_starts_with p) (gone s).

(** How a preview stands to the disk the edit found and the one its operations leave. *)
Record tracks (fs0 fs : disk) (s : Planned) : Prop := MkTracks {
  tracks_nodup : NoDup (out s).*1;
  tracks_out : forall p t, find_text (out s) p = Some t -> fs !! p = Some (File t);
  tracks_gone : forall p, find_text (out s) p = None -> covered s p = true ->
    fs !! p = None \/ fs !! p = Some Dir;
  tracks_same : forall p, find_text (out s) p = None -> covered s p = false ->
    fs !! p = fs0 !! p \/ (fs0 !! p = None /\ fs !! p = Some Dir)
    \/ (fs !! p = None /\ exists q r t, p = q ++ r /\ r <> [] /\ find_text (out s) q = Some t);
}.

(** A file is written at [abs], and only directories are created on the way. *)
Definition grown (fs fs' : disk) (abs : path) (b : bytes) : Prop :=
  disk_wf fs' /\ fs' !! abs = Some (File b)
  /\ forall p, p <> abs -> fs' !! p = fs !! p \/ (fs !! p = None /\ fs' !! p = Some Dir).

Lemma covered_set s abs t p :
  covered s p = true -> covered (set_text s abs t) p = true \/ exists r, p = abs ++ r.
Proof.
  unfold covered, set_text. cbn [gone]. rewrite !existsb_exists. intros (g & Hg & Hp).
  destruct (decide (g = abs)) as [->|Hne]; [right; by apply path_starts_with_spec|].
  left. exists g. split; [|done]. apply list_elem_of_In, list_elem_of_filter. by rewrite list_elem_of_In.
Qed.
Lemma covered_set_inv s abs t p : covered (set_text s abs t) p = true -> covered s p = true.
Proof.
  unfold covered, set_text. cbn [gone]. rewrite !existsb_exists. intros (g & Hg & Hp). exists g.
  split; [|done]. apply list_elem_of_In, list_elem_of_filter in Hg as [_ Hg]. by apply list_elem_of_In.
Qed.

Lemma under_file_absent (fs : disk) q r b : disk_wf fs -> fs !! q = Some (File b) -> r <> [] -> fs !! (q ++ r) = None.
Proof. intros Hwf Hq Hr. destruct r as [|c r]; [done|]. by eapply file_nothing_under. Qed.

(** Writing a text and setting it in the preview. *)
Lemma tracks_grown fs0 fs fs' s abs t :
  tracks fs0 fs s -> grown fs fs' abs t -> tracks fs0 fs' (set_text s abs t).
Proof.
  intros [Hnd Ho Hg Hs] (Hwf & Habs & Hgr). split; cbn [set_text out].
  - by apply set_slot_nodup.
  - intros p u. rewrite find_text_set. destruct (decide (abs = p)) as [<-|Hne]; [by intros [= <-]|].
    intros H%Ho. destruct (Hgr p) as [->|[E _]]; [done|done|congruence].
  - intros p. rewrite find_text_set. destruct (decide (abs = p)) as [<-|Hne]; [done|]. intros Hp Hc.
    apply covered_set_inv in Hc. destruct (Hgr p) as [->|[_ ->]]; [done| |by right]. by apply Hg.
  - intros p. rewrite find_text_set. destruct (decide (abs = p)) as [<-|Hne]; [done|]. intros Hp Hc.
    destruct (covered s p) eqn:Ec.
    { apply (covered_set s abs t) in Ec as [Ec|[r ->]]; [congruence|].
      assert (Hr : r <> []) by (intros ->; by rewrite app_nil_r in Hne).
      right. right. split; [by eapply under_file_absent|]. exists abs, r, t.
      by rewrite find_text_set, decide_True. }
    destruct (Hs p Hp Ec) as [E|[[E0 E]|(E & q & r & u & -> & Hr & Hq)]].
    + destruct (Hgr p) as [->|[E' ->]]; [done|by left|]. right. left. by rewrite <- E.
    + destruct (Hgr p) as [->|[E' _]]; [done|by right; left|congruence].
    + right. right. assert (Hq' : exists u', find_text (set_slot (out s) abs t) q = Some u').
      { rewrite find_text_set. destruct (decide (abs = q)); eauto. }
      destruct Hq' as [u' Hq']. split; [|by exists q, r, u'].
      assert (Hf : fs' !! q = Some (File u')).
      { rewrite find_text_set in Hq'. destruct (decide (abs = q)) as [<-|Hnq]; [congruence|].
        apply Ho in Hq'. destruct (Hgr q) as [->|[E' _]]; [done|done|congruence]. }
      by eapply under_file_absent.
Qed.

(** Removing a tree, and marking it gone. *)
Lemma tracks_without fs0 fs s abs l b :
  tracks fs0 fs s -> NoDup l.*1 ->
  (forall p t, find_text l p = Some t <-> find_text (out s) p = Some t /\ path_starts_with p abs = false) ->
  tracks fs0 (without abs fs) (MkPlanned l (gone s ++ [abs]) b).
Proof.
  intros [Hnd Ho Hg Hs] Hl Hf.
  assert (Hnone : forall p, path_starts_with p abs = false -> find_text l p = None -> find_text (out s) p = None).
  { intros p Hp Hn. destruct (find_text (out s) p) as [t|] eqn:E; [|done].
    assert (find_text l p = Some t) by by apply Hf. congruence. }
  assert (Hcov : forall p, covered (MkPlanned l (gone s ++ [abs]) b) p = covered s p || path_starts_with p abs).
  { intros p. unfold covered. cbn [gone]. rewrite existsb_app. cbn [existsb]. by rewrite orb_false_r. }
  split; cbn [out].
  - done.
  - intros p t [H Hp]%Hf. rewrite without_lookup, Hp. by apply Ho.
  - intros p Hp. rewrite Hcov, without_lookup. destruct (path_starts_with p abs) eqn:E; [by left|].
    rewrite orb_false_r. apply Hg. by apply Hnone.
  - intros p Hp. rewrite Hcov, without_lookup. intros [Hc Hu]%orb_false_iff. rewrite Hu.
    destruct (Hs p) as [E|[E|(E & q & r & t & -> & Hr & Hq)]]; [by apply Hnone|done|by left|by right; left|].
    right. right. split; [done|]. exists q, r, t. split_and!; [done|done|]. apply Hf. split; [done|].
    apply path_starts_with_false. intros x ->. rewrite path_starts_with_false in Hu. apply (Hu (x ++ r)).
    by rewrite app_assoc.
Qed.

(** *** The operations *)

Lemma create_all_grown dirs fs fs' :
  disk_wf fs -> create_all dirs fs = Some fs' ->
  disk_wf fs' /\ forall p, fs' !! p = fs !! p \/ (fs !! p = None /\ fs' !! p = Some Dir).
Proof.
  revert fs. induction dirs as [|d dirs IH]; intros fs Hwf; cbn [create_all].
  - intros [= <-]. split; [done|]. by left.
  - destruct (create_dir_at fs d) as [fs1|] eqn:E; [|done]. intros H.
    apply create_dir_at_inv in E as (Hd & Hn & ->).
    apply IH in H as [Hwf' H]; [|by apply create_dir_wf]. split; [done|]. intros p.
    destruct (H p) as [->|[Hp ->]]; destruct (decide (d = p)) as [->|Hne].
    + right. by rewrite lookup_insert_eq.
    + left. by rewrite lookup_insert_ne.
    + by rewrite lookup_insert_eq in Hp.
    + right. by rewrite lookup_insert_ne in Hp.
Qed.

Lemma spec_parents_grown fs abs fs' :
  disk_wf fs -> spec_parents fs abs = Some fs' ->
  disk_wf fs' /\ forall p, fs' !! p = fs !! p \/ (fs !! p = None /\ fs' !! p = Some Dir).
Proof.
  intros Hwf. unfold spec_parents. destruct (parent abs); [by apply create_all_grown|].
  intros [= <-]. split; [done|]. by left.
Qed.

(** Directories and then the file. *)
Lemma write_grown fs fs1 fs' abs b :
  disk_wf fs1 -> (forall p, fs1 !! p = fs !! p \/ (fs !! p = None /\ fs1 !! p = Some Dir)) ->
  write_at fs1 abs b = Some fs' -> grown fs fs' abs b.
Proof.
  intros Hwf H (Hd & Hf & ->)%write_at_inv. split_and!; [by apply write_wf|by rewrite lookup_insert_eq|].
  intros p Hp. by rewrite lookup_insert_ne.
Qed.

(** Nothing is written under a file. *)
Lemma grown_not_under fs fs' abs b q r u :
  grown fs fs' abs b -> abs = q ++ r -> r <> [] -> fs !! q = Some (File u) -> False.
Proof.
  intros (Hwf & Habs & Hgr) -> Hr Hq. apply wf_above in Habs; [|done|done].
  destruct (Hgr q) as [E|[E _]]; [|congruence..].
  intros E. apply (f_equal length) in E. rewrite length_app in E. destruct r; simpl in *; [done|lia].
Qed.

(** What [current] says of a path is what is there. *)
Lemma current_exact fs0 fs s abs t :
  tracks fs0 fs s -> current_text fs0 s abs = Ok t ->
  match fs !! abs with
  | Some (File b) => t = b
  | None => t = [] \/ exists q r u, abs = q ++ r /\ r <> [] /\ fs !! q = Some (File u)
  | Some Dir => True
  end.
Proof.
  intros [_ Ho Hg Hs]. unfold current_text. destruct (find_text (out s) abs) as [u|] eqn:Ef.
  { rewrite (Ho _ _ Ef). by intros [= <-]. }
  fold (covered s abs). destruct (covered s abs) eqn:Ec.
  { intros [= <-]. destruct (Hg abs Ef Ec) as [->| ->]; [by left|done]. }
  unfold text_for_edit_at, read_existing_at.
  destruct (Hs abs Ef Ec) as [->|[[E0 ->]|(-> & q & r & u & -> & Hr & Hq)]].
  - destruct (fs0 !! abs) as [[b|]|]; cbn [and_then text_of]; [|done|intros [= <-]; by left].
    destruct (utf8_valid b); [by intros [= <-]|done].
  - done.
  - intros _. right. exists q, r, u. auto.
Qed.

Lemma tracks_text fs0 fs fs' s s' root rel edits :
  disk_wf fs -> tracks fs0 fs s -> spec_text fs (path_join root rel) edits = Some fs' ->
  plan_op fs0 s (OpText root rel edits) = Ok s' -> disk_wf fs' /\ tracks fs0 fs' s'.
Proof.
  intros Hwf Ht Hspec. cbn [plan_op]. set (abs := path_join root rel) in *.
  destruct (current_text fs0 s abs) as [t|] eqn:Ec; [|done]. cbn [and_then].
  pose proof (current_exact _ _ _ _ _ Ht Ec) as Hc. unfold spec_text in Hspec.
  assert (Hdone : forall new, grown fs fs' abs new -> disk_wf fs' /\ tracks fs0 fs' (set_text s abs new)).
  { intros new Hg. split; [apply Hg|by eapply tracks_grown]. }
  destruct (fs !! abs) as [[b|]|]; [|done|].
  - subst t. destruct (utf8_valid b); [|done].
    destruct (apply_text_edits b edits) as [new|]; [|done]. intros [= <-]. apply Hdone.
    eapply write_grown; [exact Hwf| |exact Hspec]. by left.
  - destruct (apply_text_edits [] edits) as [new|] eqn:Ea; [|done].
    destruct (spec_parents fs abs) as [fs1|] eqn:Ep; [|done]. cbn [mbind option_bind] in Hspec.
    apply spec_parents_grown in Ep as [Hwf1 Hgr1]; [|done].
    pose proof (write_grown fs fs1 fs' abs new Hwf1 Hgr1 Hspec) as Hg.
    destruct Hc as [->|(q & r & u & Hq & Hr & Hu)]; [|by destruct (grown_not_under _ _ _ _ _ _ _ Hg Hq Hr Hu)].
    rewrite Ea. intros [= <-]. by apply Hdone.
Qed.

Lemma tracks_mark fs0 fs s : tracks fs0 fs s -> tracks fs0 fs (mark_moves s).
Proof. by intros []. Qed.

Lemma tracks_create fs0 fs fs' s s' root rel :
  disk_wf fs -> tracks fs0 fs s -> spec_create fs (path_join root rel) false false = Some fs' ->
  plan_op fs0 s (OpCreate root rel false false) = Ok s' -> disk_wf fs' /\ tracks fs0 fs' s'.
Proof.
  intros Hwf Ht%tracks_mark Hspec. cbn [plan_op]. set (abs := path_join root rel) in *.
  destruct (current_text fs0 (mark_moves s) abs) as [t|] eqn:Ec; [|done]. cbn [and_then]. intros [= <-].
  pose proof (current_exact _ _ _ _ _ Ht Ec) as Hc. unfold spec_create, spec_clear in Hspec.
  destruct (exists_at fs abs) eqn:Ee; [done|]. apply exists_at_false in Ee. rewrite Ee in Hc.
  cbn [mbind option_bind] in Hspec. destruct (spec_parents fs abs) as [fs1|] eqn:Ep; [|done].
  cbn [mbind option_bind] in Hspec. apply spec_parents_grown in Ep as [Hwf1 Hgr1]; [|done].
  pose proof (write_grown fs fs1 fs' abs [] Hwf1 Hgr1 Hspec) as Hg.
  destruct Hc as [->|(q & r & u & Hq & Hr & Hu)]; [|by destruct (grown_not_under _ _ _ _ _ _ _ Hg Hq Hr Hu)].
  split; [apply Hg|by eapply tracks_grown].
Qed.

Lemma tracks_delete fs0 fs fs' s s' root rel rec :
  disk_wf fs -> tracks fs0 fs s -> path_join root rel <> [] ->
  spec_delete fs (path_join root rel) rec = Some fs' ->
  plan_op fs0 s (OpDelete root rel rec) = Ok s' -> disk_wf fs' /\ tracks fs0 fs' s'.
Proof.
  intros Hwf Ht Hne Hspec [= <-]. set (abs := path_join root rel) in *.
  assert (E : fs' = without abs fs).
  { unfold spec_delete in Hspec. destruct (exists_at fs abs) eqn:Ee.
    - destruct (_ && _); [done|]. by injection Hspec.
    - injection Hspec as <-. symmetry. apply without_absent; [done|]. by apply exists_at_false. }
  subst fs'. split; [by apply without_wf|]. apply tracks_without; [done| |].
  - apply retain_nodup, Ht.
  - intros p t. rewrite find_text_retain. destruct (path_starts_with p abs); naive_solver.
Qed.

(** A file moved to a place where nothing is. *)
Lemma rename_file_lookup fs from to b p :
  disk_wf fs -> fs !! from = Some (File b) -> fs !! to = None -> comparable from to = false -> p <> to ->
  swap_disk from to fs !! p = without from fs !! p.
Proof.
  intros Hwf Hf Hto Hc Hp. rewrite without_lookup. destruct (path_starts_with p from) eqn:Ef.
  - apply path_starts_with_spec in Ef as [r ->]. by apply renamed_from.
  - destruct (path_starts_with p to) eqn:Et; [|by apply renamed_other].
    apply path_starts_with_spec in Et as [r ->]. rewrite renamed_to by done.
    rewrite (wf_absent fs Hwf to r Hto). eapply under_file_absent; [done|done|].
    intros ->. by rewrite app_nil_r in Hp.
Qed.

Lemma tracks_rename fs0 fs fs' s s' fr frel tr trel :
  disk_wf fs -> tracks fs0 fs s ->
  previewable_op fs (OpRename fr frel tr trel false false) = true ->
  spec_rename fs (path_join fr frel) (path_join tr trel) false false = Some fs' ->
  plan_op fs0 s (OpRename fr frel tr trel false false) = Ok s' -> disk_wf fs' /\ tracks fs0 fs' s'.
Proof.
  intros Hwf Ht%tracks_mark Hpre Hspec. cbn [plan_op previewable_op] in *.
  set (from := path_join fr frel) in *. set (to := path_join tr trel) in *.
  destruct (current_text fs0 (mark_moves s) from) as [t|] eqn:Ec; [|done]. cbn [and_then]. intros [= <-].
  apply andb_prop in Hpre as [Hex%exists_at_true Hdir%negb_true_iff].
  destruct Hex as [[b|] Hb]; [|unfold is_dir_at in Hdir; by rewrite Hb in Hdir].
  pose proof (current_exact _ _ _ _ _ Ht Ec) as Hc. rewrite Hb in Hc. subst t.
  set (s1 := MkPlanned _ _ _).
  assert (Hs1 : tracks fs0 (without from fs) s1).
  { apply (tracks_without fs0 fs (mark_moves s)); [done|apply retain_nodup, Ht|]. intros p u. rewrite find_text_retain.
    split.
    - case_bool_decide as E; [done|]. cbn. intros H. split; [done|]. apply (tracks_out _ _ _ Ht) in H.
      apply path_starts_with_false. intros r ->. rewrite (under_file_absent fs from r b) in H; [done|done|done|].
      intros ->. by rewrite app_nil_r in E.
    - intros [H Hp]. case_bool_decide as E; [|done]. subst p. by rewrite path_starts_with_refl in Hp. }
  assert (Hg : grown (without from fs) fs' to b); [|split; [apply Hg|by eapply tracks_grown]].
  unfold spec_rename in Hspec. destruct (decide (from = to)) as [E|Hne].
  { injection Hspec as <-. rewrite <- E. split_and!; [done|done|]. intros p Hp. left. rewrite without_lookup.
    destruct (path_starts_with p from) eqn:Ef; [|done]. apply path_starts_with_spec in Ef as [r ->].
    eapply under_file_absent; [done|done|]. intros ->. by rewrite app_nil_r in Hp. }
  rewrite (proj2 (exists_at_true fs from)) in Hspec by eauto. cbn [negb] in Hspec. unfold spec_clear in Hspec.
  destruct (exists_at fs to) eqn:Et; [done|]. apply exists_at_false in Et. cbn [mbind option_bind] in Hspec.
  destruct (spec_parents fs to) as [fs1|] eqn:Ep; [|done]. cbn [mbind option_bind] in Hspec.
  pose proof (spec_parents_other _ _ _ Ep) as Hto. rewrite Et in Hto.
  apply spec_parents_grown in Ep as [Hwf1 Hgr1]; [|done].
  assert (Hb1 : fs1 !! from = Some (File b)) by (destruct (Hgr1 from) as [->|[E _]]; [done|congruence]).
  apply rename_at_fresh in Hspec as (Hcmp & _ & Hd & ->); [|done|done].
  split_and!; [apply renamed_wf; eauto| |].
  - pose proof (renamed_to fs1 from to Hcmp []) as H. rewrite !app_nil_r in H. by rewrite H.
  - intros p Hp. rewrite (rename_file_lookup fs1 from to b), !without_lookup by done.
    destruct (path_starts_with p from); [by left|apply Hgr1].
Qed.

(** ** The preview is what the edit leaves *)

(** No operation names the root of the disk. *)
Definition below_root (op : MultiOp) : Prop := [] ∉ op_paths op.

Lemma tracks_op fs0 fs fs' s s' op :
  disk_wf fs -> tracks fs0 fs s -> below_root op -> previewable_op fs op = true ->
  spec_op op fs = Some fs' -> plan_op fs0 s op = Ok s' -> disk_wf fs' /\ tracks fs0 fs' s'.
Proof.
  intros Hwf Ht Hroot Hp. destruct op as [root rel edits|root rel o i|fr frel tr trel o i|root rel rec].
  - by apply tracks_text.
  - cbn [previewable_op] in Hp. destruct o, i; try done. by apply tracks_create.
  - pose proof Hp as Hp'. cbn [previewable_op] in Hp'. destruct o, i; try done. by apply tracks_rename.
  - apply tracks_delete; [done|done|]. intros E. apply Hroot. cbn [op_paths]. rewrite E. by left.
Qed.

Lemma tracks_ops fs0 ops fs fs' s s' :
  disk_wf fs -> tracks fs0 fs s -> Forall below_root ops -> previewable ops fs = true ->
  spec_ops ops fs = Some fs' -> plan_ops fs0 s ops = Ok s' -> tracks fs0 fs' s'.
Proof.
  revert fs s. induction ops as [|op ops IH]; intros fs s Hwf Ht Hr Hp Hspec Hplan.
  - injection Hspec as <-. by injection Hplan as <-.
  - cbn [spec_ops plan_ops previewable] in *. apply Forall_cons in Hr as [Hr Hrs].
    apply andb_prop in Hp as [Hp Hps]. destruct (spec_op op fs) as [fs1|] eqn:Es; [|done].
    destruct (plan_op fs0 s op) as [s1|] eqn:Eo; [|done].
    destruct (tracks_op fs0 fs fs1 s s1 op) as [Hwf1 Ht1]; [done..|]. by apply (IH fs1 s1).
Qed.

(** C14: where an edit neither overwrites nor passes over what is in its way and moves single
    files only, its preview is what the edit leaves: every text it lists is the content of that
    file afterwards, and every file it does not list has the content it had. *)
Theorem preview_exact (fs fs' : disk) (ops : list MultiOp) (s : Planned) :
  disk_wf fs -> Forall below_root ops -> previewable ops fs = true ->
  spec_ops ops fs = Some fs' -> plan_ops fs (MkPlanned [] [] false) ops = Ok s ->
  (forall p t, (p, t) ∈ out s -> fs' !! p = Some (File t))
  /\ (forall p b, fs' !! p = Some (File b) -> p ∉ (out s).*1 -> fs !! p = Some (File b)).
Proof.
  intros Hwf Hr Hp Hspec Hplan.
  assert (H0 : tracks fs fs (MkPlanned [] [] false)) by (split; [constructor|done|done|by left]).
  pose proof (tracks_ops _ _ _ _ _ _ Hwf H0 Hr Hp Hspec Hplan) as [Hnd Ho Hg Hs]. split.
  - intros p t Hin. by apply Ho, find_text_elem.
  - intros p b Hb Hn. assert (Hf : find_text (out s) p = None).
    { destruct (find_text (out s) p) as [t|] eqn:E; [|done]. apply find_text_elem in E; [|done].
      destruct Hn. apply list_elem_of_fmap. by exists (p, t). }
    destruct (covered s p) eqn:Ec; [destruct (Hg p Hf Ec); congruence|].
    destruct (Hs p Hf Ec) as [E|[[_ E]|[E _]]]; congruence.
Qed.

(** A file moved into a new directory and edited there, another deleted, a third created. *)
Definition preview_ops : list MultiOp :=
  [OpRename [B "r"] (B "src/a.rs") [B "r"] (B "lib/a.rs") false false;
   OpText [B "r"] (B "lib/a.rs") [edit_json 0 4 0 5 (B "q")];
   OpDelete [B "r"] (B "src") true;
   OpCreate [B "r"] (B "src/c.rs") false false].

Definition planned_ok (s : result Planned PreviewError) : list (path * bytes) :=
  match s with Ok s => out s | Err _ => [] end.

Lemma preview_exact_witness :
  exists fs' s, spec_ops preview_ops sample = Some fs'
    /\ plan_ops sample (MkPlanned [] [] false) preview_ops = Ok s
    /\ out s = [([B "r"; B "lib"; B "a.rs"], B "mod q;"); ([B "r"; B "src"; B "c.rs"], [])]
    /\ fs' !! [B "r"; B "lib"; B "a.rs"] = Some (File (B "mod q;")).
Proof.
  assert (E : is_Some (spec_ops preview_ops sample)) by by_decide. destruct E as [fs' E].
  assert (Ho : planned_ok (plan_ops sample (MkPlanned [] [] false) preview_ops)
    = [([B "r"; B "lib"; B "a.rs"], B "mod q;"); ([B "r"; B "src"; B "c.rs"], [])]) by (vm_compute; reflexivity).
  remember (plan_ops sample (MkPlanned [] [] false) preview_ops) as x eqn:Es. destruct x as [s|]; [|discriminate Ho].
  cbn [planned_ok] in Ho. exists fs', s. split; [exact E|]. split; [reflexivity|]. split; [exact Ho|].
  apply (preview_exact sample fs' preview_ops s);
    [exact sample_wf|by_decide|vm_compute; reflexivity|exact E|by symmetry|].
  rewrite Ho. left.
Defined.

(** The preview of a file created over an existing one shows the old text; the edit leaves it
    empty. *)
Lemma preview_ignores_overwrite :
  let ops := [OpCreate [B "r"] (B "src/a.rs") true false] in
  (exists s, plan_ops sample (MkPlanned [] [] false) ops = Ok s
     /\ out s = [([B "r"; B "src"; B "a.rs"], B "mod a;")])
  /\ (spec_ops ops sample ≫= (fun fs => fs !! [B "r"; B "src"; B "a.rs"])) = Some (File []).
Proof. split; [eexists; split; vm_compute; reflexivity|vm_compute; reflexivity]. Qed.
