(* ===== verification/Patch.v ===== *)
(** * Unified diffs applied in memory

    [patch.rs] and [patch/deletion.rs] of the MCP server: a proposed change given as a patch is
    parsed, each hunk is placed at the line it names or at the nearest place its old lines are
    found, and the files a patch would leave are returned without being written.  A deletion
    must match the whole live file.  The disk is [Fs]'s; [git show] is a parameter. *)

From Stdlib Require Import Strings.Byte.
From stdpp Require Import gmap.
From S2P Require Import Prelude RustStr Utf8 Fs.

(** ** Data *)

(** A line of a hunk with its tag: context, removed or added. *)
Inductive Tag := Context_ | Removed | Added.
#[export] Instance tag_eq_decision : EqDecision Tag.
Proof. solve_decision. Defined.

Record Hunk := MkHunk {
  old_start : Z;
  hunk_lines : list (Tag * bytes);
  new_ends_without_newline : bool;
}.

Record FilePatch := MkFilePatch {
  old_name : option bytes;
  new_name : option bytes;
  hunks : list Hunk;
  old_ends_without_newline : bool;
}.

Record Patched := MkPatched {
  texts : list (path * bytes);
  deleted : list path;
}.

Inductive PatchError :=
| NoPlusLine
| HunkBeforeFile
| BadHunkHeader
| NoFile
| DeletionAfterMarker
| BadDeletionHeader
| DeletionNotEmptyNew
| BadDeletionStart
| BadDeletionCount
| DeletionOutOfOrder
| DeletionTruncated
| MarkerWithoutLine
| EmptyDeletionMixed
| DoesNotApply (hunk : Z)
| Unreadable
| DeletionStale
| NamesNoFile.

(** ** Parsing *)

(** [split_inclusive('\n')]: the lines with their ends. *)
Fixpoint split_inclusive_acc (cur s : bytes) : list bytes :=
  match s with
  | [] => match cur with [] => [] | _ => [reverse cur] end
  | b :: s' => if Byte.eqb b x0a then reverse (b :: cur) :: split_inclusive_acc [] s'
               else split_inclusive_acc (b :: cur) s'
  end.
Definition split_inclusive (s : bytes) : list bytes := split_inclusive_acc [] s.

Definition diff_path (raw : bytes) : option bytes :=
  let p := trim (default raw (head (split x09 raw))) in
  if bool_decide (p = B "/dev/null") then None
  else Some (match strip_prefix (B "a/") p with
             | Some q => q
             | None => default p (strip_prefix (B "b/") p)
             end).

Definition range_count (range : bytes) : option Z :=
  match split_once [x2c] range with
  | None => Some 1
  | Some (_, count) => parse_uint usize_max (trim count)
  end.

Definition hunk_counts (header : bytes) : option (Z * Z) :=
  rest ← strip_prefix (B "@@ -") header;
  '(old, rest) ← split_once (B " +") rest;
  let new := match split_once (B " @@") rest with Some (new, _) => new | None => rest end in
  o ← range_count old;
  n ← range_count new;
  Some (o, n).

Fixpoint take_while (f : byte -> bool) (s : bytes) : bytes :=
  match s with
  | b :: s' => if f b then b :: take_while f s' else []
  | [] => []
  end.

Definition parse_old_start (header : bytes) : option Z :=
  rest ← strip_prefix (B "@@ -") header;
  parse_uint usize_max (take_while is_ascii_digit rest).

(** [diff_line]: without the line's end. *)
Definition diff_line (raw : bytes) : bytes :=
  match strip_suffix [x0a] raw with
  | Some line => strip_cr line
  | None => raw
  end.

Definition tag_of (b : byte) : option Tag :=
  if Byte.eqb b x20 then Some Context_
  else if Byte.eqb b x2d then Some Removed
  else if Byte.eqb b x2b then Some Added
  else None.

(** The lines of a hunk after its header: its lines, whether its last new line has no end, and
    what is left of the diff. *)
Fixpoint hunk_body (counts : option (Z * Z)) (old_lines new_lines : Z) (acc : list (Tag * bytes))
    (no_newline : bool) (lines : list bytes) : list (Tag * bytes) * bool * list bytes :=
  match lines with
  | [] => (acc, no_newline, [])
  | raw :: rest =>
      let next := diff_line raw in
      if bool_decide (counts = Some (old_lines, new_lines)) && negb (starts_with [x5c] next)
      then (acc, no_newline, lines)
      else match next with
           | [] => hunk_body counts (old_lines + 1) (new_lines + 1) (acc ++ [(Context_, [])]) no_newline rest
           | b :: text =>
               match tag_of b with
               | Some tag =>
                   hunk_body counts
                     (old_lines + (if decide (tag = Added) then 0 else 1))
                     (new_lines + (if decide (tag = Removed) then 0 else 1))
                     (acc ++ [(tag, text)]) no_newline rest
               | None =>
                   if Byte.eqb b x5c then
                     hunk_body counts old_lines new_lines acc
                       (match last acc with
                        | Some (t, _) => if decide (t = Removed) then no_newline else true
                        | None => no_newline
                        end) rest
                   else (acc, no_newline, lines)
               end
           end
  end.

(** *** Deletions *)

(** The [count] removed lines of a deletion hunk. *)
Fixpoint removed_lines (count : Z) (lines : list bytes) (acc : list bytes)
    : option (list bytes * list bytes) :=
  if count <=? 0 then Some (acc, lines)
  else match lines with
       | [] => None
       | raw :: rest =>
           let line := default raw (strip_suffix [x0a] raw) in
           match strip_prefix [x2d] line with
           | None => None
           | Some removed => removed_lines (count - 1) rest (acc ++ [removed])
           end
       end.

Definition NO_NEWLINE : bytes := [x5c] ++ B " No newline at end of file".

(** One header of a deletion: its start and count. *)
Definition deletion_header (line : bytes) : result (Z * Z) PatchError :=
  match strip_prefix (B "@@ -") line ≫= split_once (B " +") with
  | None => Err BadDeletionHeader
  | Some (old, new) =>
      match split_once (B " @@") new with
      | None => Err BadDeletionHeader
      | Some (new, _) =>
          if negb (bool_decide (new = B "0,0")) then Err DeletionNotEmptyNew
          else let '(start, count) := default (old, B "1") (split_once [x2c] old) in
               match parse_uint usize_max start, parse_uint usize_max count with
               | None, _ => Err BadDeletionStart
               | Some _, None => Err BadDeletionCount
               | Some s, Some c => Ok (s, c)
               end
      end
  end.

(** [deletion::parse_hunks]; every turn takes a line, so their number is fuel enough. *)
Fixpoint deletion_loop (fuel : nat) (lines : list bytes) (consumed : Z) (without_newline : bool)
    (acc : list Hunk) : result (list Hunk * bool * list bytes) PatchError :=
  match fuel, lines with
  | S fuel', raw :: rest =>
      let line := diff_line raw in
      if starts_with (B "--- ") line || starts_with (B "diff --git ") line
      then Ok (acc, without_newline, lines)
      else if bool_decide (line = []) then deletion_loop fuel' rest consumed without_newline acc
      else if without_newline then Err DeletionAfterMarker
      else match deletion_header line with
           | Err e => Err e
           | Ok (start, count) =>
               if negb (if count =? 0 then (start =? 0) && bool_decide (acc = [])
                        else start =? consumed + 1) then Err DeletionOutOfOrder
               else match removed_lines count rest [] with
                    | None => Err DeletionTruncated
                    | Some (body, rest) =>
                        let marker := bool_decide ((diff_line <$> head rest) = Some NO_NEWLINE) in
                        if marker && (count <=? 0) then Err MarkerWithoutLine
                        else deletion_loop fuel' (if marker then tail rest else rest)
                               (consumed + count) marker
                               (acc ++ [MkHunk start (map (pair Removed) body) false])
                    end
           end
  | _, _ => Ok (acc, without_newline, lines)
  end.
Definition parse_hunks (lines : list bytes) : result (list Hunk * bool * list bytes) PatchError :=
  match deletion_loop (S (length lines)) lines 0 false [] with
  | Err e => Err e
  | Ok (hs, without_newline, rest) =>
      if (zlen hs <=? 1) || forallb (fun h => negb (bool_decide (hunk_lines h = []))) hs
      then Ok (hs, without_newline, rest)
      else Err EmptyDeletionMixed
  end.

(** *** Files *)

(** The last file takes another hunk. *)
Definition push_hunk (files : list FilePatch) (h : Hunk) : option (list FilePatch) :=
  match reverse files with
  | [] => None
  | MkFilePatch o n hs w :: before => Some (reverse (MkFilePatch o n (hs ++ [h]) w :: before))
  end.

(** The loop of [parse]; every turn takes a line. *)
Fixpoint parse_loop (fuel : nat) (lines : list bytes) (files : list FilePatch)
    : result (list FilePatch) PatchError :=
  match fuel, lines with
  | S fuel', raw :: rest =>
      let line := diff_line raw in
      match strip_prefix (B "--- ") line with
      | Some old =>
          match rest with
          | [] => Err NoPlusLine
          | raw2 :: rest2 =>
              match strip_prefix (B "+++ ") (diff_line raw2) with
              | None => Err NoPlusLine
              | Some new =>
                  match diff_path new with
                  | None =>
                      match parse_hunks rest2 with
                      | Err e => Err e
                      | Ok (hs, w, rest3) =>
                          parse_loop fuel' rest3 (files ++ [MkFilePatch (diff_path old) None hs w])
                      end
                  | Some n =>
                      parse_loop fuel' rest2 (files ++ [MkFilePatch (diff_path old) (Some n) [] false])
                  end
              end
          end
      | None =>
          if starts_with (B "@@ ") line then
            match files with
            | [] => Err HunkBeforeFile
            | _ =>
                match parse_old_start line with
                | None => Err BadHunkHeader
                | Some start =>
                    let '(body, no_newline, rest) := hunk_body (hunk_counts line) 0 0 [] false rest in
                    match push_hunk files (MkHunk start body no_newline) with
                    | Some files => parse_loop fuel' rest files
                    | None => Err HunkBeforeFile
                    end
                end
            end
          else parse_loop fuel' rest files
      end
  | _, _ => Ok files
  end.
Definition parse (diff : bytes) : result (list FilePatch) PatchError :=
  let lines := split_inclusive diff in
  match parse_loop (length lines) lines [] with
  | Err e => Err e
  | Ok [] => Err NoFile
  | Ok files => Ok files
  end.

(** ** Applying *)

Definition old_of (ls : list (Tag * bytes)) : list bytes := map snd (filter (fun l => l.1 <> Added) ls).
Definition new_of (ls : list (Tag * bytes)) : list bytes := map snd (filter (fun l => l.1 <> Removed) ls).

(** [fits]: the old lines are at [at_], past what earlier hunks wrote. *)
Definition fits (lines old : list bytes) (floor at_ : Z) : bool :=
  (floor <=? at_) && (at_ + zlen old <=? zlen lines)
  && bool_decide (slice at_ (at_ + zlen old) lines = old).

(** [min_by_key] over a range: the first of the nearest. *)
Fixpoint nearest (expected : Z) (cands : list Z) (best : option Z) : option Z :=
  match cands with
  | [] => best
  | c :: cs =>
      nearest expected cs
        (match best with
         | Some b => if Z.abs (c - expected) <? Z.abs (b - expected) then Some c else best
         | None => Some c
         end)
  end.

Definition place (lines old : list bytes) (floor expected : Z) : option Z :=
  match old with
  | [] => Some (Z.min expected (zlen lines))
  | _ => nearest expected
           (filter (fun c => fits lines old floor c = true)
              (map Z.of_nat (seq 0 (S (length lines))))) None
  end.

(** The loop of [apply_hunks]: the lines, and whether the last has no end. *)
Fixpoint hunks_loop (n : Z) (lines : list bytes) (shift floor : Z) (no_newline : bool) (hs : list Hunk)
    : result (list bytes * bool) PatchError :=
  match hs with
  | [] => Ok (lines, no_newline)
  | h :: rest =>
      let old := old_of (hunk_lines h) in
      let new := new_of (hunk_lines h) in
      let expected := Z.max 0 (Z.max 1 (old_start h) - 1 + shift) in
      match place lines old floor expected with
      | None => Err (DoesNotApply (n + 1))
      | Some at_ =>
          let tail_touched := at_ + zlen old =? zlen lines in
          hunks_loop (n + 1) (ztake at_ lines ++ new ++ zdrop (at_ + zlen old) lines)
            (shift + (zlen new - zlen old)) (at_ + zlen new)
            (if tail_touched then new_ends_without_newline h else no_newline) rest
      end
  end.

Definition render (lines : list bytes) (no_newline : bool) : bytes :=
  let out := join [x0a] lines in
  if negb (bool_decide (lines = [])) && negb no_newline then out ++ [x0a] else out.

Definition apply_hunks (text : bytes) (hs : list Hunk) : result bytes PatchError :=
  let ended_with_newline := bool_decide (text = []) || ends_with [x0a] text in
  match hunks_loop 0 (lines text) 0 0 (negb ended_with_newline) hs with
  | Err e => Err e
  | Ok (ls, no_newline) => Ok (render ls no_newline)
  end.

(** [deletion::validate] on the contents of the live file. *)
Definition preimage (hs : list Hunk) (without_newline : bool) : bytes :=
  let full := hs ≫= (fun h => hunk_lines h ≫= (fun l => l.2 ++ [x0a])) in
  if without_newline then removelast full else full.

(** [std::fs::read_to_string]. *)
Definition read_to_string (fs : disk) (p : path) : option bytes :=
  match fs !! p with
  | Some (File b) => if utf8_valid b then Some b else None
  | _ => None
  end.

Definition validate (fs : disk) (p : path) (hs : list Hunk) (without_newline : bool)
    : result unit PatchError :=
  match read_to_string fs p with
  | None => Err Unreadable
  | Some current => if bool_decide (preimage hs without_newline = current) then Ok tt else Err DeletionStale
  end.

Section apply.
(** [git -C root show <spec>]: its output, where it succeeds. *)
Context (git_show : bytes -> option bytes).

(** [trim_start_matches("./")]. *)
Fixpoint trim_dot_slash (fuel : nat) (s : bytes) : bytes :=
  match fuel with
  | O => s
  | S fuel' => match strip_prefix (B "./") s with Some r => trim_dot_slash fuel' r | None => s end
  end.

Fixpoint first_blob (specs : list bytes) : option bytes :=
  match specs with
  | [] => None
  | spec :: rest =>
      match git_show spec with
      | Some s => if utf8_valid s then Some s else first_blob rest
      | None => first_blob rest
      end
  end.
Definition git_read_blob (rel : bytes) : option bytes :=
  let clean := trim_dot_slash (length rel) rel in
  first_blob [B ":./" ++ clean; B "HEAD:./" ++ clean; B ":" ++ clean; B "HEAD:" ++ clean].

(** One file of a patch. *)
Definition apply_file (fs : disk) (root : path) (file : FilePatch) (out : Patched)
    : result Patched PatchError :=
  match old_name file, new_name file with
  | Some old, None =>
      let p := path_join root old in
      match validate fs p (hunks file) (old_ends_without_newline file) with
      | Err e => Err e
      | Ok _ => Ok (MkPatched (texts out) (deleted out ++ [p]))
      end
  | old, Some new =>
      match (match old with
             | Some old => read_to_string fs (path_join root old)
             | None => Some []
             end) with
      | None => Err Unreadable
      | Some current =>
          let done text := Ok (MkPatched (texts out ++ [(path_join root new, text)]) (deleted out)) in
          match apply_hunks current (hunks file) with
          | Ok text => done text
          | Err orig_err =>
              match (old ≫= git_read_blob) ≫= (fun base =>
                       match apply_hunks base (hunks file) with Ok text => Some text | Err _ => None end) with
              | Some text => done text
              | None => Err orig_err
              end
          end
      end
  | None, None => Err NamesNoFile
  end.

Fixpoint apply_files (fs : disk) (root : path) (files : list FilePatch) (out : Patched)
    : result Patched PatchError :=
  match files with
  | [] => Ok out
  | f :: rest =>
      match apply_file fs root f out with
      | Err e => Err e
      | Ok out => apply_files fs root rest out
      end
  end.

(** [patch::apply]. *)
Definition apply_patch (fs : disk) (root : path) (diff : bytes) : result Patched PatchError :=
  match parse diff with
  | Err e => Err e
  | Ok files => apply_files fs root files (MkPatched [] [])
  end.
End apply.

(** ** A hunk whose old lines are where it says goes there *)

Lemma nearest_hit expected cands best :
  best = Some expected \/ expected ∈ cands -> nearest expected cands best = Some expected.
Proof.
  revert best. induction cands as [|c cs IH]; intros best H; simpl.
  - destruct H as [->|H]; [done|]. by apply not_elem_of_nil in H.
  - apply IH. rewrite elem_of_cons in H. destruct H as [->|[<-|H]]; [| |by right].
    + left. by replace (Z.abs (c - expected) <? Z.abs (expected - expected)) with false by lia.
    + left. destruct best as [b|]; [|done].
      destruct (decide (b = expected)) as [->|]; [by destruct (_ <? _)|].
      by replace (Z.abs (expected - expected) <? Z.abs (b - expected)) with true by lia.
Qed.

Lemma place_exact before old after floor expected :
  old <> [] -> expected = zlen before -> floor <= expected ->
  place (before ++ old ++ after) old floor expected = Some expected.
Proof.
  intros Hold -> Hf. unfold place. destruct old as [|o old]; [done|].
  apply nearest_hit. right. apply list_elem_of_filter. split.
  - unfold fits. rewrite !zlen_app. pose proof (zlen_nonneg after).
    assert (slice (zlen before) (zlen before + zlen (o :: old)) (before ++ (o :: old) ++ after) = o :: old).
    { unfold slice. rewrite zdrop_app_exact by done.
      replace (zlen before + zlen (o :: old) - zlen before) with (zlen (o :: old)) by lia.
      by apply ztake_app_exact. }
    rewrite bool_decide_eq_true_2 by done. lia.
  - change (map ?f ?l) with (f <$> l). apply list_elem_of_fmap. exists (length before).
    split; [done|]. apply elem_of_seq. rewrite length_app. lia.
Qed.

(** *** An edit as a script: kept lines, then a hunk, and so on to the end *)

Abbreviation script := (list (list bytes * Hunk)).

Fixpoint script_old (s : script) (tail : list bytes) : list bytes :=
  match s with
  | [] => tail
  | (gap, h) :: s' => gap ++ old_of (hunk_lines h) ++ script_old s' tail
  end.
Fixpoint script_new (s : script) (tail : list bytes) : list bytes :=
  match s with
  | [] => tail
  | (gap, h) :: s' => gap ++ new_of (hunk_lines h) ++ script_new s' tail
  end.

(** Each hunk names the line its first old line is, [n] old lines being before the script. *)
Fixpoint placed (n : Z) (s : script) : bool :=
  match s with
  | [] => true
  | (gap, h) :: s' =>
      (old_start h =? n + zlen gap + 1) && negb (bool_decide (old_of (hunk_lines h) = []))
      && placed (n + zlen gap + zlen (old_of (hunk_lines h))) s'
  end.

(** Whether the last line has no end: the hunk that rewrites the end of the file says so. *)
Fixpoint final_flag (s : script) (tail : list bytes) (no_newline : bool) : bool :=
  match s with
  | [] => no_newline
  | (_, h) :: s' =>
      final_flag s' tail
        (if bool_decide (script_old s' tail = []) then new_ends_without_newline h else no_newline)
  end.

Lemma hunks_loop_exact k n s tail finished no_newline :
  0 <= n -> placed n s = true ->
  hunks_loop k (finished ++ script_old s tail) (zlen finished - n) (zlen finished) no_newline (map snd s)
  = Ok (finished ++ script_new s tail, final_flag s tail no_newline).
Proof.
  revert k n finished no_newline. induction s as [|[gap h] s IH]; intros k n finished no_newline Hn Hp; [done|].
  cbn [placed] in Hp. apply andb_prop in Hp as [[Hs Hold]%andb_prop Hp].
  apply negb_true_iff, bool_decide_eq_false in Hold. apply Z.eqb_eq in Hs.
  pose proof (zlen_nonneg gap). pose proof (zlen_nonneg finished).
  cbn [map snd hunks_loop script_old script_new final_flag].
  set (old := old_of (hunk_lines h)) in *. set (new := new_of (hunk_lines h)) in *.
  replace (Z.max 0 (Z.max 1 (old_start h) - 1 + (zlen finished - n))) with (zlen (finished ++ gap))
    by (rewrite zlen_app; lia).
  rewrite (app_assoc finished gap), place_exact; [|done|done|rewrite zlen_app; lia].
  rewrite ztake_app_exact by done.
  rewrite (app_assoc (finished ++ gap) old), zdrop_app_exact by (by rewrite (zlen_app (finished ++ gap) old)).
  replace (zlen (finished ++ gap) + zlen old =? zlen (((finished ++ gap) ++ old) ++ script_old s tail))
    with (bool_decide (script_old s tail = [])).
  - pose proof (zlen_nonneg old).
    specialize (IH (k + 1) (n + zlen gap + zlen old) ((finished ++ gap) ++ new)
      (if bool_decide (script_old s tail = []) then new_ends_without_newline h else no_newline)
      ltac:(lia) Hp).
    rewrite (app_assoc finished gap), !(app_assoc (finished ++ gap) new), <- IH.
    f_equal; rewrite ?zlen_app; lia.
  - rewrite (zlen_app ((finished ++ gap) ++ old)), (zlen_app (finished ++ gap)).
    destruct (decide (script_old s tail = [])) as [E|E].
    + rewrite E, bool_decide_eq_true_2 by done. change (zlen []) with 0. lia.
    + rewrite bool_decide_eq_false_2 by done.
      assert (zlen (script_old s tail) <> 0) by (intros ?%zlen_0_inv; done). lia.
Qed.

Lemma apply_hunks_exact text s tail :
  lines text = script_old s tail -> placed 0 s = true ->
  apply_hunks text (map snd s)
  = Ok (render (script_new s tail)
          (final_flag s tail (negb (bool_decide (text = []) || ends_with [x0a] text)))).
Proof.
  intros Hl Hp. unfold apply_hunks. rewrite Hl.
  pose proof (hunks_loop_exact 0 0 s tail [] (negb (bool_decide (text = []) || ends_with [x0a] text))
    ltac:(lia) Hp) as H. cbn [app] in H. change (zlen [] - 0) with 0 in H. change (zlen []) with 0 in H.
  by rewrite H.
Qed.

(** ** A printed diff reads back *)

Definition tag_byte (t : Tag) : byte :=
  match t with Context_ => x20 | Removed => x2d | Added => x2b end.

Definition hunk_header (h : Hunk) (new_start : Z) : bytes :=
  B "@@ -" ++ show (old_start h) ++ [x2c] ++ show (zlen (old_of (hunk_lines h))) ++ B " +"
  ++ show new_start ++ [x2c] ++ show (zlen (new_of (hunk_lines h))) ++ B " @@".

Definition print_hunk (h : Hunk) (new_start : Z) : list bytes :=
  hunk_header h new_start :: map (fun l => tag_byte l.1 :: l.2) (hunk_lines h)
  ++ (if new_ends_without_newline h then [NO_NEWLINE] else []).

(** The hunks of a script, [m] new lines being before it. *)
Fixpoint print_script (m : Z) (s : script) : list bytes :=
  match s with
  | [] => []
  | (gap, h) :: s' =>
      print_hunk h (m + zlen gap + 1)
      ++ print_script (m + zlen gap + zlen (new_of (hunk_lines h))) s'
  end.

Definition print_file (f : bytes * script) : list bytes :=
  (B "--- a/" ++ f.1) :: (B "+++ b/" ++ f.1) :: print_script 0 f.2.

Definition unlines (ls : list bytes) : bytes := concat (map (fun l => l ++ [x0a]) ls).
Definition print_patch (files : list (bytes * script)) : bytes := unlines (files ≫= print_file).

Definition line_ok (l : bytes) : Prop := x0a ∉ l /\ last l <> Some x0d.

Definition hunk_ok (h : Hunk) : Prop :=
  0 <= old_start h <= usize_max
  /\ zlen (hunk_lines h) <= usize_max
  /\ Forall (fun l => line_ok l.2) (hunk_lines h)
  /\ (new_ends_without_newline h = true ->
      exists before t l, hunk_lines h = before ++ [(t, l)] /\ t <> Removed).

Definition file_ok (f : bytes * script) : Prop :=
  graphic f.1 /\ Forall (fun e => hunk_ok e.2) f.2.

(** *** Lines *)

Lemma split_inclusive_line l s :
  x0a ∉ l -> split_inclusive ((l ++ [x0a]) ++ s) = (l ++ [x0a]) :: split_inclusive s.
Proof.
  intros Hl. unfold split_inclusive.
  assert (Hacc : forall cur, split_inclusive_acc cur ((l ++ [x0a]) ++ s)
    = (reverse cur ++ l ++ [x0a]) :: split_inclusive_acc [] s); [|apply Hacc].
  induction l as [|b l IH]; intros cur; cbn [app split_inclusive_acc].
  - change (Byte.eqb x0a x0a) with true. by rewrite reverse_cons.
  - destruct (byte_eqb_spec b x0a); [set_solver|]. rewrite IH by set_solver.
    by rewrite reverse_cons, <- app_assoc.
Qed.

Lemma split_inclusive_unlines ls :
  Forall (fun l => x0a ∉ l) ls -> split_inclusive (unlines ls) = map (fun l => l ++ [x0a]) ls.
Proof.
  induction 1 as [|l ls Hl _ IH]; [done|]. unfold unlines in *. cbn [map concat].
  by rewrite split_inclusive_line, IH.
Qed.

Lemma strip_cr_ok l : last l <> Some x0d -> strip_cr l = l.
Proof.
  intros H. unfold strip_cr. destruct (strip_suffix [x0d] l) as [l'|] eqn:E; [|done].
  apply strip_suffix_Some in E. subst l. by rewrite last_snoc in H.
Qed.

Lemma diff_line_end l : last l <> Some x0d -> diff_line (l ++ [x0a]) = l.
Proof. intros H. unfold diff_line. rewrite strip_suffix_app. by apply strip_cr_ok. Qed.

Lemma lines_unlines ls : Forall line_ok ls -> lines (unlines ls) = ls.
Proof.
  induction 1 as [|l ls [Hl Hcr] _ IH]; [done|]. unfold unlines in *. cbn [map concat].
  rewrite <- app_assoc. change ([x0a] ++ ?x) with (x0a :: x).
  rewrite lines_first, IH, strip_cr_ok by done. done.
Qed.

(** *** Headers *)

Section header.
Context (h : Hunk) (new_start : Z) (Hok : hunk_ok h) (Hnew : 0 <= new_start).

Lemma zlen_old_new : 0 <= zlen (old_of (hunk_lines h)) <= usize_max
  /\ 0 <= zlen (new_of (hunk_lines h)) <= usize_max.
Proof.
  destruct Hok as (_ & Hl & _).
  assert (H : forall (P : Tag * bytes -> Prop) `{forall x, Decision (P x)},
    zlen (map snd (filter P (hunk_lines h))) <= zlen (hunk_lines h)).
  { intros P ?. rewrite zlen_map. unfold zlen. pose proof (length_filter P (hunk_lines h)). lia. }
  unfold old_of, new_of. split; (split; [apply zlen_nonneg|]); etrans; [apply H|done|apply H|done].
Qed.

Lemma range_count_print a b :
  0 <= a -> 0 <= b <= usize_max -> range_count (show a ++ [x2c] ++ show b) = Some b.
Proof.
  intros Ha Hb. unfold range_count. change ([x2c] ++ show b) with (x2c :: show b).
  rewrite split_once_byte by (eapply not_in_digits, show_digits; done).
  rewrite trim_word by (apply digits_graphic, show_digits; lia). by apply parse_show.
Qed.

Lemma hunk_counts_print :
  hunk_counts (hunk_header h new_start)
  = Some (zlen (old_of (hunk_lines h)), zlen (new_of (hunk_lines h))).
Proof.
  destruct zlen_old_new as [Ho Hn]. destruct Hok as (Hs & _). unfold hunk_counts, hunk_header.
  rewrite strip_prefix_app. bind_step.
  assert (Hsp : forall a b, 0 <= a -> 0 <= b -> x20 ∉ show a ++ [x2c] ++ show b).
  { intros a b Ha Hb. rewrite !not_elem_of_app. split_and!;
      try (eapply not_in_digits, show_digits; done). by_decide. }
  change (B " +") with [x20; x2b]. change (B " @@") with [x20; x40; x40].
  rewrite (app_assoc [x2c]), (app_assoc (show (old_start h))).
  rewrite split_once_sub by (apply Hsp; lia). bind_step.
  rewrite (app_assoc [x2c]), (app_assoc (show new_start)).
  rewrite (split_once_sub x20 [x40; x40] _ []) by (apply Hsp; lia). cbv beta iota zeta.
  rewrite range_count_print by lia. bind_step. rewrite range_count_print by lia. done.
Qed.

Lemma take_while_digits s c r :
  digits s -> is_ascii_digit c = false -> take_while is_ascii_digit (s ++ c :: r) = s.
Proof.
  intros Hs Hc. induction Hs as [|b s Hb _ IH]; cbn [app take_while]; [by rewrite Hc|].
  by rewrite Hb, IH.
Qed.

Lemma parse_old_start_print : parse_old_start (hunk_header h new_start) = Some (old_start h).
Proof.
  destruct Hok as (Hs & _). unfold parse_old_start, hunk_header.
  rewrite strip_prefix_app. bind_step. cbn [app].
  rewrite take_while_digits; [by apply parse_show|apply show_digits; lia|done].
Qed.

Lemma hunk_header_line : line_ok (hunk_header h new_start).
Proof.
  destruct zlen_old_new as [Ho Hn]. destruct Hok as (Hs & _). split.
  - unfold hunk_header. rewrite !not_elem_of_app. split_and!;
      try (eapply not_in_digits, show_digits; (done || lia)); by_decide.
  - unfold hunk_header. rewrite !app_assoc. rewrite last_app. change (last (B " @@")) with (Some x40). done.
Qed.
End header.

(** *** Bodies *)

Lemma tag_of_byte t : tag_of (tag_byte t) = Some t.
Proof. by destruct t. Qed.

(** A hunk ends at the counts of its header unless a marker follows. *)
Definition no_marker (rest : list bytes) : Prop :=
  match rest with raw :: _ => starts_with [x5c] (diff_line raw) = false | [] => True end.

Lemma hunk_body_stop O N acc flag rest :
  no_marker rest -> hunk_body (Some (O, N)) O N acc flag rest = (acc, flag, rest).
Proof.
  destruct rest as [|raw rest]; intros H; [done|]. cbn [hunk_body no_marker] in *.
  by rewrite bool_decide_eq_true_2, H by done.
Qed.

Lemma tagged_line t l : last l <> Some x0d -> last (tag_byte t :: l) <> Some x0d.
Proof. intros H. destruct l as [|x l]; [by destruct t|]. by rewrite last_cons_cons. Qed.

Lemma hunk_body_lines O N ls : forall o n acc flag rest,
  Forall (fun l => line_ok l.2) ls ->
  O = o + zlen (old_of ls) -> N = n + zlen (new_of ls) ->
  hunk_body (Some (O, N)) o n acc flag (map (fun l => (tag_byte l.1 :: l.2) ++ [x0a]) ls ++ rest)
  = hunk_body (Some (O, N)) O N (acc ++ ls) flag rest.
Proof.
  induction ls as [|[t l] ls IH]; intros o n acc flag rest Hok HO HN.
  - cbn [map app]. rewrite app_nil_r. unfold old_of, new_of in *. cbn in HO, HN.
    change (zlen []) with 0 in *. by rewrite HO, HN, !Z.add_0_r.
  - inversion_clear Hok as [|?? [Hnl Hcr] Hok']. cbn [map app fst snd]. cbn [hunk_body].
    change (tag_byte t :: l ++ [x0a]) with ((tag_byte t :: l) ++ [x0a]).
    rewrite (diff_line_end (tag_byte t :: l)) by (by apply tagged_line). rewrite tag_of_byte.
    assert (Hz : zlen (old_of ((t, l) :: ls)) = (if decide (t = Added) then 0 else 1) + zlen (old_of ls)
      /\ zlen (new_of ((t, l) :: ls)) = (if decide (t = Removed) then 0 else 1) + zlen (new_of ls)).
    { unfold old_of, new_of. rewrite !filter_cons. cbn [fst].
      destruct t; split; repeat case_decide; cbn [map]; rewrite ?zlen_cons; (done || lia). }
    destruct Hz as [Ho Hn]. rewrite Ho in HO. rewrite Hn in HN.
    pose proof (zlen_nonneg (old_of ls)). pose proof (zlen_nonneg (new_of ls)).
    rewrite bool_decide_eq_false_2 by (intros [= ? ?]; destruct t; repeat case_decide; (done || lia)).
    cbn [andb]. rewrite IH; [by rewrite <- app_assoc|done| |]; lia.
Qed.

Lemma hunk_body_print h rest :
  hunk_ok h -> no_marker rest ->
  hunk_body (Some (zlen (old_of (hunk_lines h)), zlen (new_of (hunk_lines h)))) 0 0 [] false
    (map (fun l => l ++ [x0a]) (map (fun l => tag_byte l.1 :: l.2) (hunk_lines h)
       ++ (if new_ends_without_newline h then [NO_NEWLINE] else [])) ++ rest)
  = (hunk_lines h, new_ends_without_newline h, rest).
Proof.
  intros (_ & _ & Hl & Hf) Hr. rewrite map_app, map_map, <- app_assoc.
  rewrite hunk_body_lines by (done || lia). cbn [app].
  destruct (new_ends_without_newline h); [|by apply hunk_body_stop].
  destruct (Hf eq_refl) as (before & t & l & E & Ht). cbn [map app hunk_body].
  rewrite (diff_line_end NO_NEWLINE) by (by_decide). change (starts_with [x5c] NO_NEWLINE) with true.
  rewrite andb_false_r. change (NO_NEWLINE) with (x5c :: B " No newline at end of file") at 1.
  cbv iota. change (tag_of x5c) with (@None Tag). change (Byte.eqb x5c x5c) with true. cbv iota.
  replace (last (hunk_lines h)) with (Some (t, l)) by (by rewrite E, last_snoc).
  rewrite decide_False by done. by apply hunk_body_stop.
Qed.

(** *** Files *)

Lemma push_hunk_snoc files f h :
  push_hunk (files ++ [f]) h
  = Some (files ++ [MkFilePatch (old_name f) (new_name f) (hunks f ++ [h]) (old_ends_without_newline f)]).
Proof.
  unfold push_hunk. rewrite reverse_snoc. destruct f. by rewrite reverse_cons, reverse_involutive.
Qed.

Lemma print_script_no_marker m s rest :
  Forall (fun e => hunk_ok e.2) s -> 0 <= m -> no_marker rest ->
  no_marker (map (fun l => l ++ [x0a]) (print_script m s) ++ rest).
Proof.
  intros Hs Hm Hr. destruct Hs as [|[gap h] s Hh _]; [done|].
  cbn [print_script print_hunk app map no_marker]. rewrite diff_line_end; [done|].
  apply hunk_header_line; [done|]. pose proof (zlen_nonneg gap). lia.
Qed.

Lemma parse_loop_script s : forall m fuel files f rest,
  Forall (fun e => hunk_ok e.2) s -> 0 <= m -> no_marker rest ->
  (length (map (fun l => l ++ [x0a]) (print_script m s) ++ rest) <= fuel)%nat ->
  exists fuel', (length rest <= fuel')%nat /\
  parse_loop fuel (map (fun l => l ++ [x0a]) (print_script m s) ++ rest) (files ++ [f])
  = parse_loop fuel' rest
      (files ++ [MkFilePatch (old_name f) (new_name f) (hunks f ++ map snd s) (old_ends_without_newline f)]).
Proof.
  induction s as [|[gap h] s IH]; intros m fuel files f rest Hs Hm Hr Hf.
  - exists fuel. cbn in *. split; [done|]. rewrite app_nil_r. by destruct f.
  - inversion_clear Hs as [|?? Hh Hs']. cbn [snd] in Hh. pose proof (zlen_nonneg gap) as Hg.
    cbn [print_script] in *. rewrite map_app, <- app_assoc in *.
    set (more := map (fun l => l ++ [x0a]) (print_script _ s) ++ rest) in *.
    assert (Hmore : no_marker more).
    { apply print_script_no_marker; [done| |done].
      pose proof (zlen_nonneg (new_of (hunk_lines h))). lia. }
    unfold print_hunk in *. cbn [map app] in *. destruct fuel as [|fuel]; [cbn in Hf; lia|].
    cbn [parse_loop].
    rewrite diff_line_end by (apply hunk_header_line; [done|lia]).
    change (strip_prefix (B "--- ") (hunk_header h (m + zlen gap + 1))) with (@None bytes).
    change (starts_with (B "@@ ") (hunk_header h (m + zlen gap + 1))) with true. cbv iota.
    rewrite parse_old_start_print, hunk_counts_print by (done || lia).
    rewrite hunk_body_print by done. rewrite push_hunk_snoc.
    destruct (files ++ [f]) eqn:E; [by destruct files|]. clear E.
    destruct h as [st ls fl]. cbn [old_start hunk_lines new_ends_without_newline] in *.
    edestruct (IH (m + zlen gap + zlen (new_of ls)) fuel files
      (MkFilePatch (old_name f) (new_name f) (hunks f ++ [MkHunk st ls fl]) (old_ends_without_newline f))
      rest) as (fuel' & Hf' & Hp); [done| |done| |].
    + pose proof (zlen_nonneg (new_of ls)). lia.
    + fold more. cbn in Hf. rewrite length_app in Hf. lia.
    + exists fuel'. split; [done|]. fold more in Hp. rewrite Hp.
      cbn [old_name new_name hunks old_ends_without_newline map snd]. by rewrite <- app_assoc.
Qed.

Lemma diff_path_print c name :
  c = x61 \/ c = x62 -> graphic name -> diff_path (c :: x2f :: name) = Some name.
Proof.
  intros Hc Hn. unfold diff_path.
  assert (Hg : graphic (c :: x2f :: name)).
  { apply graphic_cons. split; [by destruct Hc as [-> | ->]|]. by apply graphic_cons. }
  rewrite split_word; cbn [head default from_option id].
  - rewrite trim_word by done. rewrite bool_decide_eq_false_2 by (by destruct Hc as [-> | ->]).
    by destruct Hc as [-> | ->].
  - intros Hin. unfold graphic in Hg. rewrite Forall_forall in Hg. by apply Hg in Hin.
Qed.

Definition file_patch (f : bytes * script) : FilePatch :=
  MkFilePatch (Some f.1) (Some f.1) (map snd f.2) false.

Lemma name_line a name : graphic name -> a <> [] -> last a <> Some x0d -> last (a ++ name) <> Some x0d.
Proof.
  intros Hn Ha Hl. rewrite last_app. destruct (last name) as [x|] eqn:E; [|done].
  intros [= ->]. apply last_Some in E as [l ->]. apply graphic_app in Hn as [_ Hn].
  by apply graphic_cons in Hn as [Hn _].
Qed.

Lemma parse_loop_files files : forall fuel acc,
  Forall file_ok files ->
  (length (files ≫= print_file) <= fuel)%nat ->
  parse_loop fuel (map (fun l => l ++ [x0a]) (files ≫= print_file)) acc
  = Ok (acc ++ map file_patch files).
Proof.
  induction files as [|[name s] files IH]; intros fuel acc Hok Hf.
  - cbn. rewrite app_nil_r. by destruct fuel.
  - inversion_clear Hok as [|?? [Hn Hs] Hok']. cbn [fst snd] in *.
    change (((name, s) :: files) ≫= print_file) with (print_file (name, s) ++ (files ≫= print_file)) in *.
    rewrite map_app. unfold print_file at 1. unfold print_file at 1 in Hf. cbn [fst snd map app length] in *.
    destruct fuel as [|fuel]; [lia|]. cbn [parse_loop].
    rewrite (diff_line_end (B "--- a/" ++ name)) by (by apply name_line).
    rewrite (diff_line_end (B "+++ b/" ++ name)) by (by apply name_line).
    change (strip_prefix (B "--- ") (B "--- a/" ++ name)) with (Some (x61 :: x2f :: name)).
    change (strip_prefix (B "+++ ") (B "+++ b/" ++ name)) with (Some (x62 :: x2f :: name)). cbv iota.
    rewrite !diff_path_print by auto.
    edestruct (parse_loop_script s 0 fuel acc (MkFilePatch (Some name) (Some name) [] false)
      (map (fun l => l ++ [x0a]) (files ≫= print_file))) as (fuel' & Hf' & ->); [done|done| | |].
    + destruct files as [|[name2 s2] files]; [done|]. inversion_clear Hok' as [|?? [Hn2 _] _].
      change (((name2, s2) :: files) ≫= print_file)
        with (print_file (name2, s2) ++ (files ≫= print_file)).
      unfold print_file at 1. cbn [app map no_marker fst].
      rewrite (diff_line_end (B "--- a/" ++ name2)) by (by apply name_line). done.
    + rewrite length_app, !length_map. rewrite length_app in Hf. lia.
    + rewrite length_map in Hf'. rewrite IH by done. cbn [map app hunks old_name new_name].
      by rewrite <- app_assoc.
Qed.

Lemma print_file_lines f : file_ok f -> Forall (fun l => x0a ∉ l) (print_file f).
Proof.
  destruct f as [name s]. intros [Hn Hs]. cbn [fst snd] in *. unfold print_file. cbn [fst snd].
  assert (Hname : x0a ∉ name).
  { intros Hin. unfold graphic in Hn. rewrite Forall_forall in Hn. by apply Hn in Hin. }
  constructor; [rewrite not_elem_of_app; split; [by_decide|done]|].
  constructor; [rewrite not_elem_of_app; split; [by_decide|done]|].
  assert (H : forall m, 0 <= m -> Forall (fun l => x0a ∉ l) (print_script m s)); [|by apply H].
  induction Hs as [|[gap h] s Hh _ IH]; intros m Hm; cbn [print_script]; [constructor|].
  apply Forall_app. split; [|apply IH; pose proof (zlen_nonneg gap); pose proof (zlen_nonneg (new_of (hunk_lines h))); lia].
  cbn [snd] in Hh. unfold print_hunk. constructor.
  { apply hunk_header_line; [done|]. pose proof (zlen_nonneg gap). lia. }
  apply Forall_app. split.
  - destruct Hh as (_ & _ & Hl & _). change (map ?f ?l) with (f <$> l). apply Forall_fmap.
    eapply Forall_impl; [exact Hl|]. intros [t l] [Hnl _]. cbn in *.
    rewrite not_elem_of_cons. split; [by destruct t|done].
  - destruct (new_ends_without_newline h); [|constructor]. constructor; [by_decide|constructor].
Qed.

(** A diff with counts in its hunk headers reads back as what it was printed from. *)
Lemma parse_print_patch files :
  files <> [] -> Forall file_ok files -> parse (print_patch files) = Ok (map file_patch files).
Proof.
  intros Hne Hok. unfold parse, print_patch. rewrite split_inclusive_unlines.
  - rewrite parse_loop_files; [by destruct files|done|by rewrite length_map].
  - induction Hok as [|f files Hf Hok IH]; [constructor|].
    change ((f :: files) ≫= print_file) with (print_file f ++ (files ≫= print_file)).
    apply Forall_app. split; [by apply print_file_lines|]. destruct files; [constructor|]. by apply IH.
Qed.

(** ** A patch end to end *)

(** An edit of a file: its name, the changes and the lines after the last of them. *)
Record Edit := MkEdit { edited : bytes; changes : script; after : list bytes }.

Definition edit_old (e : Edit) : bytes := unlines (script_old (changes e) (after e)).
Definition edit_new (e : Edit) : bytes :=
  render (script_new (changes e) (after e)) (final_flag (changes e) (after e) false).

Definition edit_ok (e : Edit) : Prop :=
  file_ok (edited e, changes e) /\ placed 0 (changes e) = true
  /\ Forall line_ok (script_old (changes e) (after e)).

Lemma render_unlines ls : render ls false = unlines ls.
Proof.
  unfold render, unlines. destruct ls as [|l ls]; [done|].
  rewrite bool_decide_eq_false_2 by done. cbn [negb andb]. revert l.
  induction ls as [|l' ls IH]; intros l; [cbn [join map concat]; by rewrite app_nil_r|].
  change (join [x0a] (l :: l' :: ls)) with (l ++ [x0a] ++ join [x0a] (l' :: ls)).
  rewrite <- !app_assoc, IH. cbn [map concat]. by rewrite <- !app_assoc.
Qed.

Lemma unlines_ended ls : bool_decide (unlines ls = []) || ends_with [x0a] (unlines ls) = true.
Proof.
  destruct ls as [|l ls]; [done|]. destruct (exists_last (l := l :: ls)) as (k & x & ->); [done|].
  apply orb_true_iff. right. apply ends_with_spec. unfold unlines.
  rewrite map_app, concat_app. cbn [map concat]. rewrite app_nil_r, app_assoc. eauto.
Qed.

Section end_to_end.
Context (git_show : bytes -> option bytes) (fs : disk) (root : path).

Lemma apply_files_exact edits out :
  Forall (fun e => edit_ok e /\ read_to_string fs (path_join root (edited e)) = Some (edit_old e)) edits ->
  apply_files git_show fs root (map (fun e => file_patch (edited e, changes e)) edits) out
  = Ok (MkPatched (texts out ++ map (fun e => (path_join root (edited e), edit_new e)) edits) (deleted out)).
Proof.
  intros H. revert out. induction H as [|e edits [(_ & Hp & Hl) Hr] _ IH]; intros out.
  - cbn. rewrite app_nil_r. by destruct out.
  - cbn [map apply_files]. unfold apply_file. cbn [file_patch old_name new_name fst snd hunks].
    rewrite Hr. rewrite (apply_hunks_exact (edit_old e) (changes e) (after e));
      [|by apply lines_unlines|done].
    unfold edit_old at 1 2. rewrite unlines_ended. cbn [negb]. fold (edit_new e).
    rewrite IH. cbn [texts deleted]. by rewrite <- app_assoc.
Qed.

End end_to_end.

(** Two hunks of one file, the second at the end of a file that loses its last newline. *)
Definition sample_change : Edit := MkEdit (B "src/x.rs")
  [([B "one"], MkHunk 2 [(Context_, B "two"); (Removed, B "three"); (Added, B "3"); (Added, B "3b")] false);
   ([B "four"], MkHunk 5 [(Removed, B "five"); (Added, B "5")] true)] [].
Definition sample_disk : disk := list_to_map
  [([], Dir); ([B "r"], Dir); ([B "r"; B "src"], Dir);
   ([B "r"; B "src"; B "x.rs"], File (unlines [B "one"; B "two"; B "three"; B "four"; B "five"]))].


(** A hunk that only adds lines is put before the line its header names, where the format
    has it follow that line: a diff made without context comes out one line too early. *)
Theorem insertion_hunk_one_line_early (text : bytes) (before_ rest added : list bytes) (l : bytes) :
  lines text = before_ ++ l :: rest -> bool_decide (text = []) || ends_with [x0a] text = true ->
  apply_hunks text [MkHunk (zlen before_ + 1) (map (pair Added) added) false]
  = Ok (unlines (before_ ++ added ++ l :: rest)).
Proof.
  intros Hl He. unfold apply_hunks. rewrite Hl, He. cbn [negb hunks_loop hunk_lines old_start].
  assert (Ho : old_of (map (pair Added) added) = []).
  { unfold old_of. induction added as [|a added IH]; [done|]. cbn [map]. by rewrite filter_cons_False by (by intros []). }
  assert (Hn : new_of (map (pair Added) added) = added).
  { unfold new_of. clear. induction added as [|a added IH]; [done|]. cbn [map].
    rewrite filter_cons_True by done. cbn [map snd]. by rewrite IH. }
  rewrite Ho, Hn. cbn [place]. pose proof (zlen_nonneg before_). pose proof (zlen_nonneg rest).
  replace (Z.min _ _) with (zlen before_) by (rewrite zlen_app, zlen_cons; lia).
  rewrite ztake_app_exact by done. change (zlen (@nil bytes)) with 0.
  rewrite zdrop_app_exact by lia. cbn [new_ends_without_newline].
  rewrite <- render_unlines. by destruct (_ =? _).
Qed.

Lemma insertion_hunk_one_line_early_witness :
  apply_hunks (unlines [B "a"; B "b"]) [MkHunk 2 [(Added, B "new")] false]
  = Ok (unlines [B "a"; B "new"; B "b"]).
Proof. apply (insertion_hunk_one_line_early (unlines [B "a"; B "b"]) [B "a"] [] [B "new"] (B "b")); reflexivity. Defined.

(** ** Deletions *)

(** The deletion of a whole file of these lines, carriage returns and all. *)
Definition print_deletion (name : bytes) (ls : list bytes) : bytes :=
  unlines ([B "--- a/" ++ name; B "+++ /dev/null";
            B "@@ -" ++ show 1 ++ [x2c] ++ show (zlen ls) ++ B " +0,0 @@"]
           ++ map (cons x2d) ls).

Lemma removed_lines_print ls : forall acc,
  removed_lines (zlen ls) (map (fun l => l ++ [x0a]) (map (cons x2d) ls)) acc = Some (acc ++ ls, []).
Proof.
  induction ls as [|l ls IH]; intros acc; [by rewrite app_nil_r|].
  cbn [map removed_lines]. rewrite zlen_cons. pose proof (zlen_nonneg ls).
  replace (1 + zlen ls <=? 0) with false by lia. rewrite strip_suffix_app. cbn [default from_option id].
  change (strip_prefix [x2d] (x2d :: l)) with (Some l). cbv iota.
  replace (1 + zlen ls - 1) with (zlen ls) by lia. rewrite IH. by rewrite <- app_assoc.
Qed.

Lemma deletion_header_print n :
  0 <= n <= usize_max ->
  deletion_header (B "@@ -" ++ show 1 ++ [x2c] ++ show n ++ B " +0,0 @@") = Ok (1, n).
Proof.
  intros Hn. unfold deletion_header. rewrite strip_prefix_app. bind_step.
  change (B " +0,0 @@") with ([x20; x2b] ++ B "0,0 @@"). change (B " +") with [x20; x2b].
  rewrite (app_assoc [x2c]), (app_assoc (show 1)), split_once_sub.
  - change (split_once (B " @@") (B "0,0 @@")) with (Some (B "0,0", @nil byte)). cbv iota.
    rewrite bool_decide_eq_true_2 by done. cbn [negb]. cbv iota.
    change ([x2c] ++ show n) with (x2c :: show n).
    rewrite split_once_byte by (eapply not_in_digits, show_digits; done).
    cbn [default from_option id]. rewrite !parse_show by (unfold usize_max, u64_max in *; lia). done.
  - rewrite !not_elem_of_app. split_and!; [by_decide|by_decide|].
    eapply not_in_digits, show_digits; [done|lia].
Qed.

Lemma parse_print_deletion name ls :
  graphic name -> ls <> [] -> Forall (fun l => x0a ∉ l) ls -> zlen ls <= usize_max ->
  parse (print_deletion name ls)
  = Ok [MkFilePatch (Some name) None [MkHunk 1 (map (pair Removed) ls) false] false].
Proof.
  intros Hn Hne Hl Hz. pose proof (zlen_nonneg ls) as Hz0.
  assert (Hname : x0a ∉ name).
  { intros Hin. unfold graphic in Hn. rewrite Forall_forall in Hn. by apply Hn in Hin. }
  unfold parse, print_deletion. rewrite split_inclusive_unlines.
  2: { constructor; [rewrite not_elem_of_app; split; [by_decide|done]|].
       constructor; [by_decide|]. constructor.
       - rewrite !not_elem_of_app. split_and!; try by_decide. eapply not_in_digits, show_digits; done.
       - change (map ?f ?l) with (f <$> l). apply Forall_fmap. eapply Forall_impl; [exact Hl|].
         intros l H. cbn. rewrite not_elem_of_cons. by split. }
  set (hd := B "@@ -" ++ _). cbn [map app length parse_loop].
  rewrite (diff_line_end (B "--- a/" ++ name)) by (by apply name_line).
  rewrite (diff_line_end (B "+++ /dev/null")) by by_decide.
  change (strip_prefix (B "--- ") (B "--- a/" ++ name)) with (Some (x61 :: x2f :: name)).
  change (strip_prefix (B "+++ ") (B "+++ /dev/null")) with (Some (B "/dev/null")).
  change (diff_path (B "/dev/null")) with (@None bytes). cbv iota.
  rewrite diff_path_print by auto. unfold parse_hunks. cbn [length deletion_loop].
  assert (Hhd : diff_line (hd ++ [x0a]) = hd).
  { apply diff_line_end. subst hd. rewrite !app_assoc, last_app.
    change (last (B " +0,0 @@")) with (Some x40). done. }
  rewrite Hhd. change (starts_with (B "--- ") hd || starts_with (B "diff --git ") hd) with false.
  rewrite (bool_decide_eq_false_2 (hd = [])) by (subst hd; intros E; discriminate E). cbv iota.
  replace (deletion_header hd) with (@Ok _ PatchError (1, zlen ls))
    by (symmetry; by apply deletion_header_print).
  assert (zlen ls <> 0) by (intros ?%zlen_0_inv; done).
  replace (zlen ls =? 0) with false by lia. cbn [negb Z.eqb Z.add]. cbv iota.
  change (1 =? 0 + 1) with true. cbn [negb]. cbv iota.
  rewrite removed_lines_print. cbn [app].
  change (bool_decide ((diff_line <$> head []) = Some NO_NEWLINE)) with false. cbn [andb]. cbv iota.
  cbn [deletion_loop]. done.
Qed.

(** A deletion is accepted exactly when the live file is the deleted text, byte for byte:
    a stale diff, one with other line ends and one of a missing file are all refused, and what
    Git has of the file does not help. *)
Theorem deletion_needs_exact_file (git_show : bytes -> option bytes) (fs : disk) (root : path)
    (name : bytes) (ls : list bytes) :
  graphic name -> ls <> [] -> Forall (fun l => x0a ∉ l) ls -> zlen ls <= usize_max ->
  apply_patch git_show fs root (print_deletion name ls)
  = match read_to_string fs (path_join root name) with
    | None => Err Unreadable
    | Some current =>
        if bool_decide (current = unlines ls) then Ok (MkPatched [] [path_join root name])
        else Err DeletionStale
    end.
Proof.
  intros Hn Hne Hl Hz. unfold apply_patch. rewrite parse_print_deletion by done.
  cbn [apply_files apply_file old_name new_name hunks old_ends_without_newline]. unfold validate.
  destruct (read_to_string fs (path_join root name)) as [current|]; [|done].
  assert (Hpre : preimage [MkHunk 1 (map (pair Removed) ls) false] false = unlines ls).
  { unfold preimage, unlines. cbn [hunk_lines]. rewrite <- (app_nil_r (concat _)).
    change ([MkHunk 1 (map (pair Removed) ls) false] ≫= ?f) with (f (MkHunk 1 (map (pair Removed) ls) false) ++ []).
    cbn [hunk_lines]. f_equal. clear. induction ls as [|l ls IH]; [done|].
    change (map (pair Removed) (l :: ls)) with ((Removed, l) :: map (pair Removed) ls).
    change (((Removed, l) :: ?x) ≫= ?f) with ((l ++ [x0a]) ++ (x ≫= f)). by rewrite IH. }
  rewrite Hpre. destruct (decide (current = unlines ls)) as [->|Hd].
  - by rewrite !bool_decide_eq_true_2 by done.
  - by rewrite !bool_decide_eq_false_2 by congruence.
Qed.

(** A file with carriage returns, and the deletion of the same lines without them. *)
Lemma deletion_needs_exact_file_witness :
  apply_patch (fun _ => None) (list_to_map [([B "x"], File (B "a" ++ [x0d; x0a]))] : disk) []
    (print_deletion (B "x") [B "a"]) = Err DeletionStale.
Proof.
  rewrite (deletion_needs_exact_file (fun _ => None) (list_to_map [([B "x"], File (B "a" ++ [x0d; x0a]))])
    [] (B "x") [B "a"]); first [by_decide | vm_compute; reflexivity].
Defined.

(** A file with CRLF line ends comes out of any patch with LF ones. *)
Lemma patch_drops_carriage_returns :
  apply_hunks (B "a" ++ [x0d; x0a] ++ B "b" ++ [x0d; x0a])
    [MkHunk 2 [(Removed, B "b"); (Added, B "c")] false] = Ok (B "a" ++ [x0a] ++ B "c" ++ [x0a]).
Proof. vm_compute. reflexivity. Qed.
