(* ===== verification/ImpactDiff.v ===== *)
(** * Which lines a change touches

    [impact/diff.rs] of the MCP server: the working tree's changes read from three outputs of
    [git] ([diff --numstat -z], [diff -U0] and [status --porcelain -z], parameters here), as the
    hunks of every changed file placed in the new text.  A file whose hunks do not add up to the
    lines [git] counts for it is reported as unknown, never as unchanged. *)

From Stdlib Require Import Strings.Byte.
From stdpp Require Import gmap.
From S2P Require Import Prelude RustStr Utf8.

(** ** Hunks *)

Record Hunk := MkHunk { start : Z; added : Z; removed : Z }.
#[export] Instance hunk_eq_decision : EqDecision Hunk.
Proof. solve_decision. Defined.

Inductive Why :=
| PathNotUtf8
| BinaryFile
| OddCount
| BadHunkHeader
| Incomplete (want got : Z * Z)
| NotListed.

Inductive Change :=
| Hunks (hs : list Hunk)
| Unknown (why : Why).

Definition saturating_add (a b : Z) : Z := Z.min u32_max (a + b).

(** [Hunk::touches]. *)
Definition touches (h : Hunk) (from to : Z) : bool :=
  if added h =? 0 then (from <=? start h) && (start h <? to)
  else (start h <=? to) && (from <=? saturating_add (start h) (added h - 1)).

(** The integers from [a] to [b]. *)
Definition range_incl (a b : Z) : list Z := map (fun k => a + Z.of_nat k) (seq 0 (Z.to_nat (b - a + 1))).

(** [Hunk::inside]. *)
Definition inside (h : Hunk) (spans : list (Z * Z)) (lines : list bytes) : bool :=
  if added h =? 0 then existsb (fun s => touches h s.1 s.2) spans
  else
    let last := Z.min (saturating_add (start h) (added h - 1)) (zlen lines `mod` 2 ^ 32) in
    forallb (fun n =>
      let blank := match (if 1 <=? n then lines !! Z.to_nat (n - 1) else None) with
                   | Some l => bool_decide (trim l = [])
                   | None => false
                   end in
      ((removed h =? 0) && blank) || existsb (fun s => (s.1 <=? n) && (n <=? s.2)) spans)
      (range_incl (start h) last).

(** [changed_lines] of one file. *)
Definition line_ranges (c : Change) : list (Z * Z) :=
  match c with
  | Hunks hs => map (fun h => (Z.max 1 (start h),
                               Z.max 1 (saturating_add (start h) (Z.max 1 (added h) - 1)))) hs
  | Unknown _ => [(1, u32_max)]
  end.
Definition changed_lines (changes : gmap bytes Change) : gmap bytes (list (Z * Z)) :=
  line_ranges <$> changes.

(** ** Paths in diff headers *)

(** The lossy text of a path, and why its change cannot be placed. *)
Definition path_text (b : bytes) : bytes * option Why :=
  if utf8_valid b then (b, None) else (utf8_lossy b, Some PathNotUtf8).

Definition octal (b : byte) : option Z :=
  if in_range 48 55 b then Some (u8 b - 48) else None.

(** What a one-letter escape stands for. *)
Definition escape_value (b : byte) : option byte :=
  if Byte.eqb b x61 then Some x07
  else if Byte.eqb b x62 then Some x08
  else if Byte.eqb b x74 then Some x09
  else if Byte.eqb b x6e then Some x0a
  else if Byte.eqb b x76 then Some x0b
  else if Byte.eqb b x66 then Some x0c
  else if Byte.eqb b x72 then Some x0d
  else if Byte.eqb b x22 || Byte.eqb b x5c then Some b
  else None.

(** The loop over a quoted path; every turn takes a byte. *)
Fixpoint unquote (fuel : nat) (s : bytes) (out : bytes) : option bytes :=
  match fuel, s with
  | S fuel', b :: rest =>
      if Byte.eqb b x22 then Some out
      else if Byte.eqb b x5c then
        match rest with
        | [] => None
        | e :: rest =>
            match escape_value e with
            | Some v => unquote fuel' rest (out ++ [v])
            | None =>
                if in_range 48 51 e then
                  match rest with
                  | second :: third :: rest =>
                      o2 ← octal second;
                      o3 ← octal third;
                      unquote fuel' rest (out ++ [byte_of_Z ((u8 e - 48) * 64 + o2 * 8 + o3)])
                  | _ => None
                  end
                else None
            end
        end
      else unquote fuel' rest (out ++ [b])
  | _, _ => None
  end.

Definition git_path (field : bytes) : option bytes :=
  match strip_prefix [x22] field with
  | None => Some (trim_end_matches (fun b => Byte.eqb b x09) field)
  | Some quoted => unquote (S (length quoted)) quoted []
  end.

(** [Some None] for [/dev/null], [None] when it cannot be read. *)
Definition header_path (field prefix : bytes) : option (option bytes) :=
  p ← git_path field;
  if bool_decide (p = B "/dev/null") then Some None
  else p ← strip_prefix prefix p; Some (Some (utf8_lossy p)).

(** ** Hunk headers *)

Definition u32_digits (s : bytes) : option Z :=
  if negb (bool_decide (s = [])) && forallb is_ascii_digit s then parse_uint u32_max s else None.

Definition header_span (word : bytes) (sign : byte) : option (Z * Z) :=
  spec ← strip_prefix [sign] word;
  if negb (utf8_valid spec) then None
  else match split_once [x2c] spec with
       | Some (first, count) => a ← u32_digits first; c ← u32_digits count; Some (a, c)
       | None => a ← u32_digits spec; Some (a, 1)
       end.

Definition hunk_header (rest : bytes) : option Hunk :=
  match split x20 rest with
  | old :: new :: end_ :: _ =>
      if negb (bool_decide (end_ = B "@@")) then None
      else o ← header_span old x2d;
           n ← header_span new x2b;
           Some (MkHunk n.1 n.2 o.2)
  | _ => None
  end.

(** ** [diff_hunks] *)

Definition count_field (field : bytes) : option Z :=
  if utf8_valid field then parse_uint u64_max field else None.

Definition add_counts (a b : Z * Z) : Z * Z := (a.1 + b.1, a.2 + b.2).

(** [entry(key).or_default()] and what is added to it. *)
Definition add_total (m : gmap bytes (Z * Z)) (file : bytes) (c : Z * Z) : gmap bytes (Z * Z) :=
  <[file := add_counts (default (0, 0) (m !! file)) c]> m.

(** [entry(key).or_insert(v)]. *)
Definition or_insert {A : Type} (m : gmap bytes A) (key : bytes) (v : A) : gmap bytes A :=
  match m !! key with Some _ => m | None => <[key := v]> m end.

(** One record of [git diff --numstat -z]; [None] is the error that ends the scan. *)
Definition numstat_record (st : gmap bytes Change * gmap bytes (Z * Z)) (record : bytes)
    : option (gmap bytes Change * gmap bytes (Z * Z)) :=
  let '(changes, counted) := st in
  match splitn 3 x09 record with
  | [a; r; raw] =>
      if bool_decide (raw = []) then None
      else
        let '(p, unreadable) := path_text raw in
        match unreadable, count_field a, count_field r with
        | Some why, _, _ => Some (<[p := Unknown why]> changes, counted)
        | None, Some a, Some r => Some (or_insert changes p (Hunks []), add_total counted p (a, r))
        | None, _, _ =>
            Some (<[p := Unknown (if bool_decide (a = B "-") && bool_decide (r = B "-")
                                  then BinaryFile else OddCount)]> changes, counted)
        end
  | _ => None
  end.

Fixpoint numstat_loop (records : list bytes) (st : gmap bytes Change * gmap bytes (Z * Z))
    : option (gmap bytes Change * gmap bytes (Z * Z)) :=
  match records with
  | [] => Some st
  | r :: rest => if bool_decide (r = []) then numstat_loop rest st
                 else st' ← numstat_record st r; numstat_loop rest st'
  end.

(** The state of the scan of [git diff -U0]. *)
Record Scan := MkScan {
  changes : gmap bytes Change;
  hunks : gmap bytes (list Hunk);
  read : gmap bytes (Z * Z);
  current : option (bytes * bool);
  old : option bytes;
  in_header : bool;
}.

Definition scan_line (s : Scan) (line : bytes) : Scan :=
  if starts_with (B "diff --git ") line then
    MkScan (changes s) (hunks s) (read s) None None true
  else match (if in_header s then strip_prefix (B "--- ") line else None) with
  | Some field =>
      MkScan (changes s) (hunks s) (read s) (current s)
        (default None (header_path field (B "a/"))) (in_header s)
  | None =>
  match (if in_header s then strip_prefix (B "+++ ") line else None) with
  | Some field =>
      match header_path field (B "b/") with
      | Some (Some new) =>
          MkScan (changes s) (hunks s) (read s) (Some (new, true)) (old s) (in_header s)
      | Some None =>
          MkScan (changes s) (hunks s) (read s) ((fun o => (o, false)) <$> old s) None (in_header s)
      | None => MkScan (changes s) (hunks s) (read s) None (old s) (in_header s)
      end
  | None =>
  match strip_prefix (B "@@ ") line with
  | Some rest =>
      match current s with
      | None => MkScan (changes s) (hunks s) (read s) (current s) (old s) false
      | Some (file, placed) =>
          match hunk_header rest with
          | None =>
              MkScan (<[file := Unknown BadHunkHeader]> (changes s)) (hunks s) (read s) (current s)
                (old s) false
          | Some h =>
              MkScan (changes s)
                (if placed then <[file := default [] (hunks s !! file) ++ [h]]> (hunks s) else hunks s)
                (add_total (read s) file (added h, removed h)) (current s) (old s) false
          end
      end
  | None => s
  end end end.

(** A file is complete when its hunks add up to what [git] counts. *)
Definition account (counted : gmap bytes (Z * Z)) (s : Scan) (file : bytes) (c : Change) : Change :=
  match c with
  | Unknown why => Unknown why
  | Hunks _ =>
      let want := default (0, 0) (counted !! file) in
      let got := default (0, 0) (read s !! file) in
      if bool_decide (want = got) then Hunks (default [] (hunks s !! file))
      else Unknown (Incomplete want got)
  end.

(** The files with hunks that [git]'s list does not name. *)
Definition add_unlisted (read : gmap bytes (Z * Z)) (changes : gmap bytes Change) : gmap bytes Change :=
  changes ∪ ((fun _ => Unknown NotListed) <$> read).

Definition SCRATCH_DIRS : list bytes :=
  [B ".prod"; B ".scratch"; B ".tmp"; B ".cache"; B ".vscode"; B ".idea"; B ".claude"; B ".cursor"].

Definition is_scratch_path (p : bytes) : bool :=
  existsb (fun c => bool_decide (c ∈ SCRATCH_DIRS)) (split x2f p).

(** One entry of [git status -z], and what is left of them. *)
Fixpoint status_loop (fuel : nat) (entries : list bytes) (changes : gmap bytes Change) : gmap bytes Change :=
  match fuel, entries with
  | S fuel', entry :: rest =>
      match entry with
      | x :: y :: _ :: raw =>
          if existsb (fun b => Byte.eqb b x52 || Byte.eqb b x43) [x; y]
          then status_loop fuel' (tail rest) changes
          else if negb (bool_decide ([x; y] = B "??")) then status_loop fuel' rest changes
          else let '(p, unreadable) := path_text raw in
               if is_scratch_path p then status_loop fuel' rest changes
               else status_loop fuel' rest
                      (or_insert changes p
                         (match unreadable with
                          | Some why => Unknown why
                          | None => Hunks [MkHunk 1 u32_max 0]
                          end))
      | _ => status_loop fuel' rest changes
      end
  | _, _ => changes
  end.

(** [diff_hunks] on the three outputs of [git]. *)
Definition diff_hunks (numstat diff status : bytes) : option (gmap bytes Change) :=
  st ← numstat_loop (split x00 numstat) (∅, ∅);
  let s := foldl scan_line (MkScan st.1 ∅ ∅ None None false) (split x0a diff) in
  let accounted := map_imap (fun file c => Some (account st.2 s file c)) (changes s) in
  let listed := add_unlisted (read s) accounted in
  let entries := split x00 status in
  Some (status_loop (length entries) entries listed).

(** ** Quoted paths read back *)

(** A byte as [git] writes it in a quoted path. *)
Definition octal_escape (b : byte) : bytes :=
  [x5c; digit_char (u8 b `div` 64); digit_char (u8 b `div` 8 `mod` 8); digit_char (u8 b `mod` 8)].
Definition quote_byte (b : byte) : bytes :=
  if Byte.eqb b x07 then [x5c; x61]
  else if Byte.eqb b x08 then [x5c; x62]
  else if Byte.eqb b x09 then [x5c; x74]
  else if Byte.eqb b x0a then [x5c; x6e]
  else if Byte.eqb b x0b then [x5c; x76]
  else if Byte.eqb b x0c then [x5c; x66]
  else if Byte.eqb b x0d then [x5c; x72]
  else if Byte.eqb b x22 || Byte.eqb b x5c then [x5c; b]
  else if in_range 32 126 b then [b]
  else octal_escape b.

Lemma unquote_byte fuel b s out :
  unquote (S fuel) (quote_byte b ++ s) out = unquote fuel s (out ++ [b]).
Proof. destruct b; reflexivity. Qed.

Lemma unquote_path fuel p s out :
  (length p < fuel)%nat -> unquote fuel (concat (map quote_byte p) ++ x22 :: s) out = Some (out ++ p).
Proof.
  revert fuel out. induction p as [|b p IH]; intros fuel out Hf;
    (destruct fuel as [|fuel]; [cbn in Hf; lia|]).
  - cbn. by rewrite app_nil_r.
  - cbn [map concat]. rewrite <- app_assoc, unquote_byte, IH by (cbn in Hf; lia).
    by rewrite <- app_assoc.
Qed.

Lemma concat_quote_length p : (length p <= length (concat (map quote_byte p)))%nat.
Proof.
  induction p as [|b p IH]; cbn [map concat length]; [lia|]. rewrite length_app.
  assert (1 <= length (quote_byte b))%nat; [|lia]. unfold quote_byte.
  repeat case_match; cbn; lia.
Qed.

(** Every path [git] prints in a diff header is read back exactly, quoted with escapes or
    bare and followed by the tab it puts after a name with a space. *)
Theorem git_path_roundtrip (p : bytes) :
  git_path ([x22] ++ concat (map quote_byte p) ++ [x22]) = Some p
  /\ (starts_with [x22] p = false -> last p <> Some x09 ->
      git_path p = Some p /\ git_path (p ++ [x09]) = Some p).
Proof.
  split.
  - unfold git_path. rewrite strip_prefix_app. rewrite unquote_path; [done|].
    rewrite length_app. pose proof (concat_quote_length p). lia.
  - intros Hq Ht.
    assert (Hn : forall s, starts_with [x22] s = false -> strip_prefix [x22] s = None).
    { intros s. unfold starts_with. by destruct (strip_prefix [x22] s). }
    assert (Hstop : trim_end_matches (fun b => Byte.eqb b x09) p = p).
    { destruct (decide (p = [])) as [->|Hp]; [done|].
      destruct (exists_last Hp) as (a & z & ->). unfold trim_end_matches.
      rewrite reverse_snoc. cbn [trim_start_matches].
      rewrite last_snoc in Ht. destruct (byte_eqb_spec z x09) as [->|_]; [done|].
      by rewrite reverse_cons, reverse_involutive. }
    unfold git_path. rewrite Hn by done. split; [by rewrite Hstop|].
    rewrite Hn; [|by rewrite starts_with_stop by by_decide].
    unfold trim_end_matches in *. rewrite reverse_snoc. cbn [trim_start_matches].
    change (Byte.eqb x09 x09) with true. cbv iota. by rewrite Hstop.
Qed.

(** A name with a tab, a quote, a backslash and bytes outside ASCII. *)
Lemma git_path_roundtrip_witness :
  git_path ([x22; x5c; x74; x5c; x22; x5c; x5c] ++ B "\303\274" ++ [x22]) = Some [x09; x22; x5c; xc3; xbc]
  /\ git_path (B "a b" ++ [x09]) = Some (B "a b").
Proof.
  split; [apply (proj1 (git_path_roundtrip [x09; x22; x5c; xc3; xbc]))|].
  apply (proj2 (git_path_roundtrip (B "a b"))); by_decide.
Defined.

(** ** No changed line is lost *)

Definition total (hs : list Hunk) : Z * Z :=
  foldr (fun h t => add_counts (added h, removed h) t) (0, 0) hs.

Lemma total_snoc hs h : total (hs ++ [h]) = add_counts (total hs) (added h, removed h).
Proof.
  unfold total, add_counts. induction hs as [|x hs IH]; cbn [app foldr]; [cbn; f_equal; lia|].
  rewrite IH. cbn [fst snd]. f_equal; lia.
Qed.

(** No file of the diff is deleted. *)
Definition deletes_nothing (lines : list bytes) : Prop :=
  Forall (fun line => forall f, strip_prefix (B "+++ ") line = Some f -> header_path f (B "b/") <> Some None) lines.

(** What is read of a file is the sum of its hunks. *)
Definition balanced (s : Scan) : Prop :=
  (forall f, default (0, 0) (read s !! f) = total (default [] (hunks s !! f)))
  /\ (forall f b, current s = Some (f, b) -> b = true).

Lemma scan_line_balanced s line :
  (forall f, strip_prefix (B "+++ ") line = Some f -> header_path f (B "b/") <> Some None) ->
  balanced s -> balanced (scan_line s line).
Proof.
  intros Hd [Hr Hc]. unfold scan_line. destruct (starts_with (B "diff --git ") line); [by split|].
  destruct (if in_header s then strip_prefix (B "--- ") line else None); [by split|].
  destruct (if in_header s then strip_prefix (B "+++ ") line else None) as [f|] eqn:E.
  { assert (Hp : strip_prefix (B "+++ ") line = Some f) by (by destruct (in_header s)).
    specialize (Hd f Hp). destruct (header_path f (B "b/")) as [[n|]|]; [|done|by split].
    split; [done|]. cbn. by intros ? ? [= <- <-]. }
  destruct (strip_prefix (B "@@ ") line) as [rest|]; [|by split].
  destruct (current s) as [[file placed]|] eqn:Ec; [|by split]. rewrite (Hc _ _ eq_refl) in *.
  destruct (hunk_header rest) as [h|]; [|split; [done|]; cbn; by intros ? ? [= <- <-]].
  split; [|cbn; by intros ? ? [= <- <-]]. intros f. cbn [read hunks]. unfold add_total.
  destruct (decide (f = file)) as [->|Hne].
  - rewrite !lookup_insert_eq. cbn [default from_option id]. rewrite total_snoc. by rewrite Hr.
  - by rewrite !lookup_insert_ne.
Qed.

Lemma scan_balanced lines s : deletes_nothing lines -> balanced s -> balanced (foldl scan_line s lines).
Proof.
  intros Hd. revert s. induction Hd as [|l ls Hl _ IH]; intros s Hs; [done|]. cbn [foldl].
  apply IH. by apply scan_line_balanced.
Qed.

(** Untracked files never replace what is already known of a file. *)
Lemma status_loop_keeps fuel entries m file c :
  m !! file = Some c -> status_loop fuel entries m !! file = Some c.
Proof.
  revert entries m. induction fuel as [|fuel IH]; intros entries m H; [done|].
  destruct entries as [|entry rest]; [done|]. cbn [status_loop].
  destruct entry as [|x [|y [|z raw]]]; [by apply IH..|].
  destruct (existsb (fun b => Byte.eqb b x52 || Byte.eqb b x43) [x; y]); [by apply IH|].
  destruct (negb (bool_decide ([x; y] = B "??"))); [by apply IH|].
  destruct (path_text raw) as [p w]. destruct (is_scratch_path p); [by apply IH|]. apply IH.
  unfold or_insert. destruct (m !! p) eqn:E; [done|]. rewrite lookup_insert_ne by congruence. done.
Qed.

(** A file [git] counts is in the scan's changes from the start, and stays. *)
Lemma scan_line_changes s line f : is_Some (changes s !! f) -> is_Some (changes (scan_line s line) !! f).
Proof.
  intros H. unfold scan_line. repeat case_match; try done; cbn [changes];
    by apply lookup_insert_is_Some'; right.
Qed.

Lemma scan_changes lines s f : is_Some (changes s !! f) -> is_Some (changes (foldl scan_line s lines) !! f).
Proof.
  revert s. induction lines as [|l ls IH]; intros s H; [done|]. cbn [foldl].
  by apply IH, scan_line_changes.
Qed.

(** What [git] counts is listed. *)
Lemma numstat_counted records st st' :
  (forall f, is_Some (st.2 !! f) -> is_Some (st.1 !! f)) -> numstat_loop records st = Some st' ->
  forall f, is_Some (st'.2 !! f) -> is_Some (st'.1 !! f).
Proof.
  revert st. induction records as [|r rs IH]; intros st Hst H; [by injection H as <-|].
  cbn [numstat_loop] in H. destruct (bool_decide (r = [])); [by eapply IH|].
  destruct (numstat_record st r) as [st1|] eqn:E; [|done]. eapply IH; [|exact H]. clear H IH.
  unfold numstat_record in E. destruct st as [ch co].
  destruct (splitn 3 x09 r) as [|a [|b [|raw [|]]]]; try done.
  destruct (bool_decide (raw = [])); [done|]. destruct (path_text raw) as [p [why|]].
  - injection E as <-. intros f Hf. cbn in *. destruct (decide (f = p)) as [->|];
      [rewrite lookup_insert_eq; eauto|rewrite lookup_insert_ne by done; by apply Hst].
  - destruct (count_field a), (count_field b); injection E as <-; intros f Hf; cbn in *;
      try (destruct (decide (f = p)) as [->|];
        [rewrite lookup_insert_eq; eauto|rewrite lookup_insert_ne by done; by apply Hst]).
    unfold or_insert. destruct (decide (f = p)) as [->|Hne].
    + destruct (ch !! p) eqn:Ep; [by rewrite Ep|]. rewrite lookup_insert_eq. eauto.
    + unfold add_total in Hf. rewrite lookup_insert_ne in Hf by done. apply Hst in Hf. cbn in Hf.
      destruct (ch !! p) eqn:Ep; [done|]. by rewrite lookup_insert_ne.
Qed.

(** C16: no changed line is lost on the way: every file [git] counts lines for is reported, and
    one that is reported with its hunks has hunks that add up, added and removed, to exactly
    the lines [git] counts; anything else is reported as unknown. *)
Theorem changes_add_up (numstat diff status : bytes) (counted : gmap bytes (Z * Z))
    (known : gmap bytes Change) (m : gmap bytes Change) (file : bytes) (c : Z * Z) :
  numstat_loop (split x00 numstat) (∅, ∅) = Some (known, counted) ->
  diff_hunks numstat diff status = Some m -> deletes_nothing (split x0a diff) ->
  counted !! file = Some c ->
  exists change, m !! file = Some change
    /\ match change with Hunks hs => total hs = c | Unknown _ => True end.
Proof.
  intros Hn Hm Hd Hc. unfold diff_hunks in Hm. rewrite Hn in Hm. bind_step. cbn [mbind option_bind fst snd] in Hm.
  injection Hm as <-. set (s := foldl scan_line _ _).
  assert (Hb : balanced s) by (apply scan_balanced; [done|by split]).
  assert (Hs : is_Some (changes s !! file)).
  { apply scan_changes. cbn [changes].
    refine (numstat_counted _ _ _ _ Hn file _); [|cbn; eauto].
    intros f. cbn. rewrite lookup_empty. by intros [? [=]]. }
  destruct Hs as [ch Hch]. exists (account counted s file ch). split.
  - apply status_loop_keeps. unfold add_unlisted. apply lookup_union_Some_l.
    rewrite map_lookup_imap, Hch. done.
  - unfold account. destruct ch as [hs|why]; [|done]. rewrite Hc. cbn [default from_option id].
    destruct (bool_decide _) eqn:E; [|done]. apply bool_decide_eq_true in E.
    rewrite E. symmetry. apply Hb.
Qed.

(** Two hunks of one file, the counts of which agree. *)
Definition sample_numstat : bytes := B "3" ++ [x09] ++ B "1" ++ [x09] ++ B "src/x.rs" ++ [x00].
Definition sample_diff : bytes :=
  join [x0a] [B "diff --git a/src/x.rs b/src/x.rs"; B "--- a/src/x.rs"; B "+++ b/src/x.rs";
              B "@@ -2 +2,2 @@ fn f"; B "-old"; B "+new"; B "+new"; B "@@ -9,0 +11 @@"; B "+++ b/y"; []].

Definition sample_changes : gmap bytes Change := default ∅ (diff_hunks sample_numstat sample_diff []).

Lemma changes_add_up_witness :
  exists change, sample_changes !! B "src/x.rs" = Some change
    /\ match change with Hunks hs => total hs = (3, 1) | Unknown _ => True end.
Proof.
  apply (changes_add_up sample_numstat sample_diff []
    (<[B "src/x.rs" := (3, 1)]> ∅) (<[B "src/x.rs" := Hunks []]> ∅) sample_changes (B "src/x.rs") (3, 1)).
  - vm_cast_no_check (@eq_refl (option (gmap bytes Change * gmap bytes (Z * Z)))
      (Some (<[B "src/x.rs" := Hunks []]> ∅, <[B "src/x.rs" := (3, 1)]> ∅))).
  - vm_cast_no_check (@eq_refl (option (gmap bytes Change)) (Some sample_changes)).
  - repeat constructor; intros f Hf; vm_compute in Hf; try discriminate Hf;
      injection Hf as <-; vm_compute; discriminate.
  - vm_compute. reflexivity.
Defined.

(** Its two hunks are placed where they add lines. *)
Lemma sample_changes_hunks :
  sample_changes !! B "src/x.rs" = Some (Hunks [MkHunk 2 2 1; MkHunk 11 1 0]).
Proof. vm_compute. reflexivity. Qed.

(** A hunk that adds or rewrites lines touches a function exactly when one of those lines
    is one of the function's, and a removal exactly when it was between two of its lines. *)
Theorem touches_exact (h : Hunk) (from to : Z) :
  0 <= added h -> start h + added h - 1 <= u32_max -> from <= to ->
  touches h from to = true <->
  (if added h =? 0 then from <= start h < to
   else exists n, start h <= n < start h + added h /\ from <= n <= to).
Proof.
  intros Ha Hu Hft. unfold touches, saturating_add. destruct (added h =? 0) eqn:E; [lia|].
  apply Z.eqb_neq in E. rewrite Z.min_r by lia. split.
  - intros H. exists (Z.max (start h) from). lia.
  - intros (n & Hn & Hn'). lia.
Qed.

Lemma touches_exact_witness : touches (MkHunk 5 2 1) 6 9 = true.
Proof. apply (touches_exact (MkHunk 5 2 1) 6 9); [done|by_decide|lia|]. exists 6. cbn. lia. Defined.
