(* ===== verification/Tokenize.v ===== *)
(** * Tokens of a source text, whatever its language

    prod-code-mcp/src/extract_function_polyglot: [tokenize_polyglot] of [tokenize.rs], with
    [types.rs] and what of [lang.rs] it uses.

    Offsets are in bytes, and cutting a text anywhere but between two characters panics: the
    result [None] here.  Which characters outside ASCII are letters or digits is the Unicode
    table's: the parameter [is_alphanumeric]. *)

From stdpp Require Import list.
From Stdlib Require Import Strings.Byte.
From S2P Require Import Prelude RustStr Utf8 Json TextEdits.

#[local] Set Warnings "-register-all".

Inductive Language := Rust | Python | TypeScript | JavaScript | Go | C | Cpp | Swift | Java | Kotlin | Csharp | Zig.
#[export] Instance language_eq_decision : EqDecision Language.
Proof. solve_decision. Defined.

Inductive PolyTokenKind := Word | NumberToken | Str | Char | Punct.
#[export] Instance kind_eq_decision : EqDecision PolyTokenKind.
Proof. solve_decision. Defined.

Record PolyToken := MkToken { tk_kind : PolyTokenKind; tk_start : Z; tk_end : Z; tk_text : bytes }.

(** ** Cutting texts *)

(** [&text[i..]] and [&text[i..j]]. *)
Definition str_from (text : bytes) (i : Z) : option bytes :=
  if is_char_boundary text i then Some (zdrop i text) else None.
Definition str_slice (text : bytes) (i j : Z) : option bytes :=
  if (i <=? j) && is_char_boundary text i && is_char_boundary text j then Some (slice i j text) else None.

(** [chars().next()] of a text. *)
Definition first_char (s : bytes) : option bytes :=
  match utf8_step s with inl n => Some (take n s) | inr _ => None end.

(** [char::is_whitespace]. *)
Definition is_whitespace (c : bytes) : bool :=
  match c with [a] => ws1 a | [a; b] => ws2 a b | [a; b; c] => ws3 a b c | _ => false end.

Section tokenize.
Context (is_alphanumeric : bytes -> bool).

Definition is_ident (c : bytes) : bool := is_alphanumeric c || bool_decide (c = [x5f]).

Definition is_digit_char (c : bytes) : bool := match c with [b] => is_ascii_digit b | _ => false end.

(** ** The parts of the loop *)

(** The bytes of a number at the front of [s]. *)
Fixpoint number_len (s : bytes) : Z :=
  match s with
  | [] => 0
  | b :: rest =>
      if is_ascii_alphanumeric b || Byte.eqb b x5f || Byte.eqb b x2e then
        if Byte.eqb b x2e && match rest with d :: _ => Byte.eqb d x2e | [] => false end then 0
        else 1 + number_len rest
      else 0
  end.

(** The end of a quoted text: the offset of the closing quote, or of the end. *)
Fixpoint string_end (fuel : nat) (text quote : bytes) (j : Z) : option Z :=
  match fuel with
  | O => None
  | S fuel' =>
      if j <? zlen text then
        s ← str_from text j;
        c ← first_char s;
        if bool_decide (c = quote) then Some j
        else if Byte.eqb (at_ text j) x5c then
          if j + 1 <? zlen text then
            s' ← str_from text (j + 1);
            c' ← first_char s';
            string_end fuel' text quote (j + 1 + zlen c')
          else string_end fuel' text quote (j + 1)
        else string_end fuel' text quote (j + zlen c)
      else Some j
  end.

(** The same byte by byte, for a character literal. *)
Fixpoint char_end (fuel : nat) (text : bytes) (j : Z) : option Z :=
  match fuel with
  | O => None
  | S fuel' =>
      if (j <? zlen text) && negb (Byte.eqb (at_ text j) x27)
      then char_end fuel' text (j + if Byte.eqb (at_ text j) x5c then 2 else 1)
      else Some j
  end.

Fixpoint word_end (fuel : nat) (text : bytes) (j : Z) : option Z :=
  match fuel with
  | O => None
  | S fuel' =>
      s ← str_from text j;
      match first_char s with
      | Some c => if is_ident c then word_end fuel' text (j + zlen c) else Some j
      | None => Some j
      end
  end.

Definition two_byte_puncts : list bytes :=
  [B "->"; B "=>"; B "::"; B ":="; B "=="; B "!="; B "<="; B ">="; B "&&"; B "||"; B "++"; B "--"; B "+="; B "-="; B "*="; B "/="].

Definition punct_len (text : bytes) (i : Z) (c : bytes) : Z :=
  let two := if (i + 2 <=? zlen text) && forallb is_ascii c && is_ascii (at_ text (i + 1)) then slice i (i + 2) text else [] in
  if bool_decide (two ∈ two_byte_puncts) then 2 else zlen c.

(** Whether a quote begins a text, not a character. *)
Definition opens_string (lang : Language) (c : bytes) : bool :=
  bool_decide (c = [x22]) || bool_decide (c = [x60])
  || bool_decide (c = [x27]) && negb (bool_decide (lang ∈ [Rust; Cpp; C; Zig])).

Definition token (kind : PolyTokenKind) (text : bytes) (i j : Z) : option (Z * option PolyToken) :=
  s ← str_slice text i j; Some (j, Some (MkToken kind i j s)).

(** One round of the loop at [i]: where it goes on, and the token it found. *)
Definition lex_one (text : bytes) (lang : Language) (i : Z) : option (Z * option PolyToken) :=
  s ← str_from text i;
  let c := default [x20] (first_char s) in
  let fuel := S (length text) in
  if is_whitespace c then Some (i + zlen c, None)
  else if bool_decide (lang = Python) && starts_with (B "#") s then
    Some (match find_sub [x0a] s with Some n => i + n | None => zlen text end, None)
  else if negb (bool_decide (lang = Python)) && starts_with (B "//") s then
    Some (match find_sub [x0a] s with Some n => i + n | None => zlen text end, None)
  else if negb (bool_decide (lang = Python)) && starts_with (B "/*") s then
    Some (match find_sub (B "*/") s with Some n => i + n + 2 | None => zlen text end, None)
  else if is_digit_char c then token NumberToken text i (i + number_len s)
  else if opens_string lang c then
    j ← string_end fuel text c (i + 1);
    token Str text i (if j <? zlen text then j + 1 else zlen text)
  else if bool_decide (c = [x27]) then
    j ← char_end fuel text (i + 1);
    token Char text i (Z.min (j + 1) (zlen text))
  else if is_ident c && negb (is_digit_char c) then
    j ← word_end fuel text i;
    token Word text i j
  else token Punct text i (i + punct_len text i c).

Fixpoint tokenize_from (fuel : nat) (text : bytes) (lang : Language) (i : Z) : option (list PolyToken) :=
  match fuel with
  | O => None
  | S fuel' =>
      if i <? zlen text then
        '(j, t) ← lex_one text lang i;
        ts ← tokenize_from fuel' text lang j;
        Some (match t with Some t => t :: ts | None => ts end)
      else Some []
  end.

Definition tokenize_polyglot (text : bytes) (lang : Language) : option (list PolyToken) :=
  tokenize_from (S (length text)) text lang 0.
End tokenize.

(** ** Where a text may be cut *)

(** At [i] the text goes on with [s]. *)
Definition goes_on (text : bytes) (i : Z) (s : bytes) : Prop :=
  exists a, text = a ++ s /\ i = zlen a /\ utf8_valid a = true /\ utf8_valid s = true.

Lemma goes_on_0 text : utf8_valid text = true -> goes_on text 0 text.
Proof. intros H. by exists []. Qed.
Lemma goes_on_len text i s : goes_on text i s -> zlen text = i + zlen s /\ 0 <= i.
Proof. intros (a & -> & -> & _). rewrite zlen_app. pose proof (zlen_nonneg a). lia. Qed.
Lemma goes_on_from text i s : goes_on text i s -> str_from text i = Some s.
Proof.
  intros (a & -> & -> & Ha & Hs). unfold str_from. rewrite boundary_app by done. by rewrite zdrop_app_exact.
Qed.
Lemma goes_on_drop text i s : goes_on text i s -> zdrop i text = s.
Proof. intros (a & -> & -> & _). by rewrite zdrop_app_exact. Qed.
Lemma goes_on_at text i s b r : goes_on text i s -> s = b :: r -> at_ text i = b.
Proof. intros (a & -> & -> & _) ->. by rewrite at_app_r, Z.sub_diag, at_cons_0 by lia. Qed.

Lemma goes_on_app text i p s : goes_on text i (p ++ s) -> utf8_valid p = true -> utf8_valid s = true -> goes_on text (i + zlen p) s.
Proof.
  intros (a & -> & -> & Ha & _) Hp Hs. exists (a ++ p). rewrite zlen_app. split_and!; [by rewrite <- app_assoc|done|by apply utf8_valid_app|done].
Qed.

Lemma goes_on_slice text i j p s : goes_on text i (p ++ s) -> goes_on text j s -> j = i + zlen p ->
  str_slice text i j = Some p /\ slice i j text = p.
Proof.
  intros Hi Hj ->. assert (Hs : slice i (i + zlen p) text = p).
  { unfold slice. rewrite (goes_on_drop _ _ _ Hi). replace (i + zlen p - i) with (zlen p) by lia. by rewrite ztake_app_exact. }
  split; [|done]. unfold str_slice. pose proof (zlen_nonneg p). replace (i <=? i + zlen p) with true by lia.
  destruct Hi as (a & Et & Ei & Ha & Hps), Hj as (a' & Et' & Ej & Ha' & Hs'). rewrite Hs.
  rewrite Et at 1. rewrite Ei, boundary_app by done. rewrite Et', <- Ei, Ej, boundary_app by done. done.
Qed.

(** A text that is not at its end has a first character, and may be cut after it. *)
Lemma first_char_ok text i s : goes_on text i s -> s <> [] ->
  exists c r, s = c ++ r /\ is_char c = true /\ first_char s = Some c /\ goes_on text (i + zlen c) r.
Proof.
  intros Hg Hne. pose proof Hg as (_ & _ & _ & _ & Hs). apply utf8_valid_inv in Hs as (cs & -> & Hcs).
  destruct Hcs as [|c cs Hc Hcs]; [done|]. exists c, (concat cs). cbn [concat] in *. split_and!; [done|done| |].
  - unfold first_char. rewrite is_char_step_app by done. by rewrite take_app_length.
  - apply (goes_on_app _ _ _ _ Hg); [|by apply utf8_valid_concat]. rewrite <- (app_nil_r c). change (c ++ []) with (concat [c]).
    apply utf8_valid_concat. by constructor.
Qed.

(** An ASCII byte is a character. *)
Lemma goes_on_ascii text i b s : goes_on text i (b :: s) -> is_ascii b = true -> goes_on text (i + 1) s.
Proof.
  intros Hg Hb. pose proof Hg as (_ & _ & _ & _ & Hs). destruct (utf8_valid_ascii_split [] b s Hb Hs) as [_ Hs'].
  change 1 with (zlen [b]). apply (goes_on_app text i [b]); [done| |done]. by apply utf8_valid_ascii; constructor.
Qed.
Lemma goes_on_ascii_at text i a b s : goes_on text i (a ++ b :: s) -> is_ascii b = true ->
  goes_on text (i + zlen a) (b :: s) /\ goes_on text (i + zlen a + 1) s.
Proof.
  intros Hg Hb. pose proof Hg as (_ & _ & _ & _ & Hs). destruct (utf8_valid_ascii_split a b s Hb Hs) as [Ha Hs'].
  assert (Hbs : utf8_valid (b :: s) = true).
  { change (b :: s) with ([b] ++ s). apply utf8_valid_app; [|done]. by apply utf8_valid_ascii; constructor. }
  pose proof (goes_on_app _ _ _ _ Hg Ha Hbs) as H. split; [done|]. by eapply goes_on_ascii.
Qed.
Lemma ascii_prefix text i p s : goes_on text i (p ++ s) -> forallb is_ascii p = true -> goes_on text (i + zlen p) s.
Proof.
  revert i. induction p as [|b p IH]; intros i Hg; [rewrite zlen_nil, Z.add_0_r; done|]. cbn [forallb].
  intros [Hb Hp]%andb_true_iff. rewrite zlen_cons, Z.add_assoc. apply IH; [|done]. by eapply goes_on_ascii.
Qed.
Lemma goes_on_end text : utf8_valid text = true -> goes_on text (zlen text) [].
Proof. intros H. exists text. by rewrite app_nil_r. Qed.

(** ** What is between tokens, and what tokens are *)

Definition line_mark (lang : Language) : bytes := if bool_decide (lang = Python) then B "#" else B "//".

(** From [s] to [s'] there is white space and comments only.  A comment in slashes and stars
    ends with the first closing mark after its first byte, an open one with the text. *)
Inductive skips (lang : Language) : bytes -> bytes -> Prop :=
| skips_none s : skips lang s s
| skips_space c s s' : is_char c = true -> is_whitespace c = true -> skips lang s s' -> skips lang (c ++ s) s'
| skips_line body s s' : x0a ∉ body -> s = [] \/ (exists r, s = x0a :: r) ->
    skips lang s s' -> skips lang (line_mark lang ++ body ++ s) s'
| skips_block comment s s' : lang <> Python -> starts_with (B "/*") comment = true ->
    s = [] \/ ends_with (B "*/") comment = true -> skips lang s s' -> skips lang (comment ++ s) s'.

Lemma find_sub_none b s : find_sub [b] s = None -> b ∉ s.
Proof.
  induction s as [|x s IH]; [intros _ ?%not_elem_of_nil; done|]. cbn [find_sub]. unfold starts_with. cbn [strip_prefix].
  destruct (byte_eqb_spec b x) as [->|Hne]; [done|]. destruct (find_sub [b] s); [done|]. intros _ [->|Hin]%elem_of_cons; [done|by apply IH].
Qed.
Lemma find_sub_first b s n : find_sub [b] s = Some n -> exists a r, s = a ++ [b] ++ r /\ n = zlen a /\ b ∉ a.
Proof.
  revert n. induction s as [|x s IH]; intros n; cbn [find_sub]; unfold starts_with; cbn [strip_prefix]; [done|].
  destruct (byte_eqb_spec b x) as [->|Hne]; [intros [= <-]; exists [], s; split_and!; [done|done|apply not_elem_of_nil]|].
  intros (m & Hm & ->)%fmap_Some. destruct (IH m Hm) as (a & r & -> & -> & Ha). exists (x :: a), r.
  split_and!; [done|rewrite zlen_cons; lia|]. by intros [?|?]%elem_of_cons.
Qed.

Section tile.
Context (is_alphanumeric : bytes -> bool).

(** [to_end]: the token goes to the end of the text. *)
Definition shaped (lang : Language) (to_end : Prop) (t : PolyToken) : Prop :=
  match tk_kind t with
  | Word => Forall (fun c => is_ident is_alphanumeric c = true) (chars (tk_text t))
  | NumberToken => exists d r, tk_text t = d :: r /\ is_ascii_digit d = true /\ forallb is_ascii r = true
  | Str => exists quote body, opens_string lang quote = true
      /\ (tk_text t = quote ++ body ++ quote \/ tk_text t = quote ++ body /\ to_end)
  | Char => exists body, tk_text t = x27 :: body ++ [x27] \/ tk_text t = x27 :: body /\ to_end
  | Punct => is_char (tk_text t) = true \/ tk_text t ∈ two_byte_puncts
  end.

(** From [i] on, the text is these tokens with only white space and comments around them. *)
Inductive tiled (lang : Language) (text : bytes) : Z -> list PolyToken -> Prop :=
| tiled_end i : skips lang (zdrop i text) [] -> tiled lang text i []
| tiled_token i t ts : skips lang (zdrop i text) (zdrop (tk_start t) text) -> i <= tk_start t < tk_end t ->
    tk_text t = slice (tk_start t) (tk_end t) text -> shaped lang (tk_end t = zlen text) t ->
    is_position text (tk_start t) -> is_position text (tk_end t) ->
    tiled lang text (tk_end t) ts -> tiled lang text i (t :: ts).
(** ** The parts of the loop *)

Lemma char_head c b r : is_char c = true -> is_ascii b = true -> c = b :: r -> c = [b].
Proof. intros Hc Hb ->. by apply (is_char_ascii_in _ b); [done|done|left]. Qed.

Lemma string_end_ok fuel text q j s : goes_on text j s -> (length s < fuel)%nat -> is_ascii q = true ->
  exists e p r, string_end fuel text [q] j = Some e /\ s = p ++ r /\ e = j + zlen p /\ goes_on text e r
    /\ (r = [] \/ exists r', r = q :: r').
Proof.
  intros Hg Hf Hq. revert j s Hg Hf. induction fuel as [|fuel IH]; intros j s Hg Hf; [lia|]. cbn [string_end].
  destruct (goes_on_len _ _ _ Hg) as [Hlen Hj]. destruct s as [|b0 s0] eqn:Es.
  { rewrite zlen_nil in Hlen. replace (j <? zlen text) with false by lia. exists j, [], []. rewrite zlen_nil, Z.add_0_r. auto 6. }
  pose proof (zlen_nonneg s0). rewrite zlen_cons in Hlen. replace (j <? zlen text) with true by lia. rewrite <- Es in *.
  rewrite (goes_on_from _ _ _ Hg). cbn [mbind option_bind].
  destruct (first_char_ok _ _ _ Hg) as (c & r & Ecr & Hc & -> & Hr); [by rewrite Es|]. cbn [mbind option_bind].
  destruct (bool_decide_reflect (c = [q])) as [->|Hne].
  { exists j, [], s. rewrite zlen_nil, Z.add_0_r. split_and!; [done|done|done|done|]. right. exists r. by rewrite Ecr. }
  assert (Hstep : forall k s1 pre, s = pre ++ s1 -> pre <> [] -> k = j + zlen pre -> goes_on text k s1 ->
            exists e p r, string_end fuel text [q] k = Some e /\ s = p ++ r /\ e = j + zlen p /\ goes_on text e r /\ (r = [] \/ exists r', r = q :: r')).
  { intros k s1 pre E Hp -> Hg1. destruct (IH (j + zlen pre) s1 Hg1) as (e & p1 & r1 & H1 & -> & -> & H4 & H5).
    - rewrite E, length_app in Hf. destruct pre; [done|]. cbn in Hf. lia.
    - exists (j + zlen pre + zlen p1), (pre ++ p1), r1. rewrite zlen_app. split_and!; [done|by rewrite E, <- app_assoc|lia|done|done]. }
  destruct (Byte.eqb (at_ text j) x5c) eqn:Eb.
  - apply byte_eqb_eq in Eb. rewrite (goes_on_at _ _ _ b0 s0 Hg Es) in Eb. subst b0.
    assert (c = [x5c]) as ->.
    { destruct c as [|b c']; [done|]. rewrite Es in Ecr. injection Ecr as <- _. by apply (char_head _ x5c c'). }
    change (zlen [x5c]) with 1 in Hr. destruct r as [|b1 r1] eqn:Er.
    + destruct (goes_on_len _ _ _ Hr) as [Hl1 _]. rewrite zlen_nil in Hl1. replace (j + 1 <? zlen text) with false by lia.
      by apply (Hstep _ [] [x5c]).
    + destruct (goes_on_len _ _ _ Hr) as [Hl1 _]. rewrite zlen_cons in Hl1. pose proof (zlen_nonneg r1).
      replace (j + 1 <? zlen text) with true by lia. rewrite (goes_on_from _ _ _ Hr). cbn [mbind option_bind].
      destruct (first_char_ok _ _ _ Hr) as (c' & r' & Ecr' & Hc' & -> & Hr'); [done|]. cbn [mbind option_bind].
      apply (Hstep _ r' ([x5c] ++ c')); [by rewrite Ecr, Ecr', <- app_assoc|done|rewrite zlen_app; change (zlen [x5c]) with 1; lia|done].
  - apply (Hstep _ r c); [done|by apply is_char_nonempty|done|done].
Qed.

Lemma char_end_ok fuel text j : 0 <= j -> (Z.to_nat (zlen text - j) < fuel)%nat ->
  exists e, char_end fuel text j = Some e /\ j <= e /\ (zlen text <= e \/ e < zlen text /\ at_ text e = x27).
Proof.
  revert j. induction fuel as [|fuel IH]; intros j Hj Hf; [lia|]. cbn [char_end].
  destruct (Z.ltb_spec j (zlen text)); cbn [andb]; [|exists j; split_and!; [done|lia|by left]].
  destruct (Byte.eqb (at_ text j) x27) eqn:E; cbn [negb].
  - exists j. split_and!; [done|lia|]. right. split; [done|]. by apply byte_eqb_eq.
  - set (d := if Byte.eqb (at_ text j) x5c then 2 else 1). assert (d = 2 \/ d = 1) by (unfold d; destruct (Byte.eqb (at_ text j) x5c); auto).
    destruct (IH (j + d)) as (e & -> & He & Hq); [lia|lia|]. exists e. split_and!; [done|lia|done].
Qed.

Lemma word_end_ok fuel text j s : goes_on text j s -> (length s < fuel)%nat ->
  exists e p r, word_end is_alphanumeric fuel text j = Some e /\ s = p ++ r /\ e = j + zlen p /\ goes_on text e r
    /\ utf8_valid p = true /\ Forall (fun c => is_ident is_alphanumeric c = true) (chars p)
    /\ (forall c, first_char s = Some c -> is_ident is_alphanumeric c = true -> p <> []).
Proof.
  revert j s. induction fuel as [|fuel IH]; intros j s Hg Hf; [lia|]. cbn [word_end].
  rewrite (goes_on_from _ _ _ Hg). cbn [mbind option_bind].
  assert (Hstop : (forall c, first_char s = Some c -> is_ident is_alphanumeric c = false) ->
     exists e p r, Some j = Some e /\ s = p ++ r /\ e = j + zlen p /\ goes_on text e r
       /\ utf8_valid p = true /\ Forall (fun c => is_ident is_alphanumeric c = true) (chars p)
       /\ (forall c, first_char s = Some c -> is_ident is_alphanumeric c = true -> p <> [])).
  { intros Hno. exists j, [], s. rewrite zlen_nil, Z.add_0_r. split_and!; try done.
    intros c Hc Hi. rewrite (Hno c Hc) in Hi. done. }
  destruct (decide (s = [])) as [->|Hne]; [by apply Hstop|].
  destruct (first_char_ok _ _ _ Hg Hne) as (c & r & -> & Hc & Hf1 & Hr). rewrite Hf1 in *.
  destruct (is_ident is_alphanumeric c) eqn:Ei; [|apply Hstop; by intros c' [= <-]].
  assert (Hcv : utf8_valid c = true).
  { rewrite <- (app_nil_r c). change (c ++ []) with (concat [c]). apply utf8_valid_concat. by constructor. }
  destruct (IH (j + zlen c) r Hr) as (e & p & r' & -> & -> & -> & Hg' & Hp & Hall & _).
  { rewrite length_app in Hf. pose proof (is_char_nonempty c Hc). destruct c; [done|]. cbn in Hf. lia. }
  exists (j + zlen c + zlen p), (c ++ p), r'. split_and!; [done|by rewrite app_assoc|rewrite zlen_app; lia|done|by apply utf8_valid_app| |].
  - rewrite chars_app by done. apply Forall_app. split; [|done].
    assert (chars c = [c]) as -> by (rewrite <- (app_nil_r c) at 1; change (c ++ []) with (concat [c]); apply chars_concat; by constructor).
    by constructor.
  - intros _ _ _. pose proof (is_char_nonempty c Hc). by destruct c.
Qed.

Lemma number_byte_ascii b : is_ascii_alphanumeric b || Byte.eqb b x5f || Byte.eqb b x2e = true -> is_ascii b = true.
Proof.
  apply (byte_forall (fun b => is_ascii_alphanumeric b || Byte.eqb b x5f || Byte.eqb b x2e = true -> is_ascii b = true)).
  vm_compute. reflexivity.
Qed.

Lemma number_len_ok s : exists p r, s = p ++ r /\ number_len s = zlen p /\ forallb is_ascii p = true.
Proof.
  induction s as [|b s (p & r & E & Hn & Ha)]; [by exists [], []|]. cbn [number_len].
  destruct (is_ascii_alphanumeric b || Byte.eqb b x5f || Byte.eqb b x2e) eqn:Eb; [|by exists [], (b :: s)].
  destruct (_ && _); [by exists [], (b :: s)|]. exists (b :: p), r. split_and!; [by rewrite E|rewrite zlen_cons; lia|].
  cbn [forallb]. rewrite Ha, andb_true_r. by apply number_byte_ascii.
Qed.

(** One round at [i], where the text goes on with [s], takes [p] of it. *)
Definition round_ok (lang : Language) (text : bytes) (i : Z) (s : bytes) (res : option (Z * option PolyToken)) : Prop :=
  exists p r o, res = Some (i + zlen p, o) /\ s = p ++ r /\ p <> [] /\ goes_on text (i + zlen p) r
    /\ match o with
       | None => forall s', skips lang r s' -> skips lang s s'
       | Some t => tk_start t = i /\ tk_end t = i + zlen p /\ tk_text t = p /\ shaped lang (i + zlen p = zlen text) t
       end.

Lemma token_round lang text i s kind p r j : goes_on text i s -> s = p ++ r -> p <> [] -> goes_on text (i + zlen p) r -> j = i + zlen p ->
  shaped lang (i + zlen p = zlen text) (MkToken kind i (i + zlen p) p) -> round_ok lang text i s (token kind text i j).
Proof.
  intros Hg -> Hne Hr -> Hs. exists p, r, (Some (MkToken kind i (i + zlen p) p)). split_and!; try done.
  unfold token. destruct (goes_on_slice _ _ _ _ _ Hg Hr eq_refl) as [-> _]. done.
Qed.

(** A comment up to the end of its line. *)
Lemma line_round lang text i s body : goes_on text i s -> s = line_mark lang ++ body ->
  round_ok lang text i s (Some (match find_sub [x0a] s with Some n => i + n | None => zlen text end, None)).
Proof.
  intros Hg Es. assert (Hm : x0a ∉ line_mark lang) by (unfold line_mark; destruct (bool_decide _); by_decide).
  assert (Hma : line_mark lang <> []) by (unfold line_mark; by destruct (bool_decide _)).
  destruct (find_sub [x0a] s) as [n|] eqn:Ef.
  - destruct (find_sub_first _ _ _ Ef) as (a & b & Eab & -> & Hna). change ([x0a] ++ b) with (x0a :: b) in Eab.
    assert (exists a', a = line_mark lang ++ a') as [a' ->].
    { rewrite Es in Eab. apply app_eq_inv in Eab as [(k & E1 & E2)|(k & E1 & E2)]; [|by exists k].
      destruct k as [|x k]; [exists []; rewrite app_nil_r in *; done|]. exfalso. injection E2 as <- E2. apply Hm. rewrite E1. apply elem_of_app. right. left. }
    destruct (goes_on_ascii_at text i (line_mark lang ++ a') x0a b) as [H1 _]; [by rewrite <- Eab|done|].
    exists (line_mark lang ++ a'), (x0a :: b), None. split_and!; [done|done| |done|].
    + intros E. apply app_eq_nil in E as [E _]. done.
    + intros s' H. rewrite Eab, <- app_assoc. apply skips_line; [|right; by eexists|done].
      intros Hin. apply Hna. apply elem_of_app. by right.
  - assert (Hno : x0a ∉ s) by (by apply find_sub_none). destruct (goes_on_len _ _ _ Hg) as [Hlen _].
    assert (Ht : utf8_valid text = true) by (destruct Hg as (a & -> & _ & Ha & Hs); by apply utf8_valid_app).
    exists s, [], None. rewrite app_nil_r, <- Hlen. split_and!; [done|done|rewrite Es; intros E; apply app_eq_nil in E as [E _]; done|by apply goes_on_end|].
    intros s' H. rewrite Es, <- (app_nil_r body). apply skips_line; [|by left|done]. intros Hin. apply Hno. rewrite Es. apply elem_of_app. by right.
Qed.

Lemma block_round lang text i s : goes_on text i s -> lang <> Python -> starts_with (B "/*") s = true ->
  round_ok lang text i s (Some (match find_sub (B "*/") s with Some n => i + n + 2 | None => zlen text end, None)).
Proof.
  intros Hg Hl Hs. destruct (find_sub (B "*/") s) as [n|] eqn:Ef.
  - destruct (find_sub_Some _ _ _ Ef) as (a & b & Eab & ->). change (B "*/" ++ b) with (x2a :: x2f :: b) in Eab.
    assert (Hopen : starts_with (B "/*") (a ++ B "*/") = true).
    { rewrite Eab in Hs. unfold starts_with in *. change (B "/*") with [x2f; x2a] in *. change (B "*/") with [x2a; x2f].
      destruct a as [|x [|y a]]; cbn [app strip_prefix] in *; [done|by destruct (Byte.eqb x2f x)|].
      destruct (Byte.eqb x2f x); [|done]. by destruct (Byte.eqb x2a y). }
    destruct (goes_on_ascii_at text i a x2a (x2f :: b)) as [_ H1]; [by rewrite <- Eab|done|].
    apply goes_on_ascii in H1; [|done]. assert (Hlen : zlen (a ++ B "*/") = zlen a + 2) by (by rewrite zlen_app).
    exists (a ++ B "*/"), b, None. rewrite Hlen. replace (i + (zlen a + 2)) with (i + zlen a + 1 + 1) by lia. split_and!.
    + f_equal. f_equal. lia.
    + by rewrite Eab, <- app_assoc.
    + intros E. apply app_eq_nil in E as [_ E]. done.
    + done.
    + intros s' H. rewrite Eab. replace (a ++ x2a :: x2f :: b) with ((a ++ B "*/") ++ b) by (by rewrite <- app_assoc).
      apply skips_block; [done|done|right; apply ends_with_spec; by exists a|done].
  - destruct (goes_on_len _ _ _ Hg) as [Hlen _].
    assert (Ht : utf8_valid text = true) by (destruct Hg as (a & -> & _ & Ha & Hv); by apply utf8_valid_app).
    exists s, [], None. rewrite app_nil_r, <- Hlen. split_and!; [done|done|by intros ->|by apply goes_on_end|].
    intros s' H. rewrite <- (app_nil_r s). apply skips_block; [done|done|by left|done].
Qed.

Lemma quote_ascii lang c : opens_string lang c = true -> exists q, c = [q] /\ is_ascii q = true.
Proof.
  unfold opens_string. rewrite !orb_true_iff, andb_true_iff, !bool_decide_eq_true. intros [[-> | ->]|[-> _]]; by eexists.
Qed.

Lemma string_round lang text i q s1 : goes_on text i (q :: s1) -> is_ascii q = true -> opens_string lang [q] = true ->
  round_ok lang text i (q :: s1)
    (j ← string_end (S (length text)) text [q] (i + 1); token Str text i (if j <? zlen text then j + 1 else zlen text)).
Proof.
  intros Hg Hq Ho. pose proof (goes_on_ascii _ _ _ _ Hg Hq) as Hg1.
  destruct (string_end_ok (S (length text)) text q (i + 1) s1 Hg1) as (e & p & r & -> & -> & -> & Hr & Hend); [|done|].
  { destruct (goes_on_len _ _ _ Hg1) as [Hl Hi]. unfold zlen in Hl. lia. }
  cbn [mbind option_bind]. destruct (goes_on_len _ _ _ Hr) as [Hlen _]. destruct Hend as [->|[r' ->]].
  - rewrite zlen_nil in Hlen. replace (_ <? _) with false by lia.
    apply (token_round lang text i _ Str (q :: p) []); [done|done|done| | |].
    + rewrite zlen_cons. replace (i + (1 + zlen p)) with (i + 1 + zlen p) by lia. done.
    + rewrite zlen_cons. lia.
    + exists [q], p. split; [done|]. right. cbn. rewrite zlen_cons. split; [done|]. change (zlen [q]) with 1 in *. lia.
  - rewrite zlen_cons in Hlen. pose proof (zlen_nonneg r'). replace (_ <? _) with true by lia.
    pose proof (goes_on_ascii _ _ _ _ Hr Hq) as Hr'. assert (Hz : zlen (q :: p ++ [q]) = zlen p + 2) by (rewrite zlen_cons, zlen_app; change (zlen [q]) with 1; lia).
    apply (token_round lang text i _ Str (q :: p ++ [q]) r'); [done|cbn; by rewrite <- app_assoc|done| | |].
    + rewrite Hz. replace (i + (zlen p + 2)) with (i + 1 + zlen p + 1) by lia. done.
    + rewrite Hz. lia.
    + exists [q], p. split; [done|]. by left.
Qed.

Lemma quoted_split text i s1 e : goes_on text i s1 -> i <= e < zlen text -> at_ text e = x27 ->
  exists p r, s1 = p ++ x27 :: r /\ e = i + zlen p.
Proof.
  intros (a & -> & -> & _) He Hat. rewrite zlen_app in He. rewrite at_app_r in Hat by lia.
  set (k := Z.to_nat (e - zlen a)). assert (Hk : (k < length s1)%nat) by (unfold k, zlen in *; lia).
  destruct (lookup_lt_is_Some_2 s1 k Hk) as [y Hy]. unfold at_ in Hat. fold k in Hat. rewrite nth_lookup, Hy in Hat. cbn in Hat. subst y.
  exists (take k s1), (drop (S k) s1). split; [by rewrite take_drop_middle|]. unfold zlen in *. rewrite length_take. unfold k in *. lia.
Qed.

Lemma char_round lang text i s1 : goes_on text i (x27 :: s1) ->
  round_ok lang text i (x27 :: s1) (j ← char_end (S (length text)) text (i + 1); token Char text i (Z.min (j + 1) (zlen text))).
Proof.
  intros Hg. pose proof (goes_on_ascii _ _ _ _ Hg eq_refl) as Hg1. destruct (goes_on_len _ _ _ Hg1) as [Hl Hi].
  destruct (char_end_ok (S (length text)) text (i + 1)) as (e & -> & He & Hend); [lia|unfold zlen; lia|].
  cbn [mbind option_bind]. destruct Hend as [Hend|[Hlt Hat]].
  - rewrite Z.min_r by lia. apply (token_round lang text i _ Char (x27 :: s1) []); [done|by rewrite app_nil_r|done| | |].
    + rewrite zlen_cons. replace (i + (1 + zlen s1)) with (zlen text) by lia. apply goes_on_end.
      destruct Hg as (a & -> & _ & Ha & Hv). by apply utf8_valid_app.
    + rewrite zlen_cons. lia.
    + exists s1. right. cbn [tk_text]. rewrite zlen_cons. split; [done|lia].
  - destruct (quoted_split text (i + 1) s1 e Hg1) as (p & r & -> & ->); [lia|done|]. rewrite Z.min_l by lia.
    destruct (goes_on_ascii_at text (i + 1) p x27 r Hg1) as [_ Hr]; [done|].
    assert (Hz : zlen (x27 :: p ++ [x27]) = zlen p + 2) by (rewrite zlen_cons, zlen_app; change (zlen [x27]) with 1; lia).
    apply (token_round lang text i _ Char (x27 :: p ++ [x27]) r); [done|cbn; by rewrite <- app_assoc|done| | |].
    + rewrite Hz. replace (i + (zlen p + 2)) with (i + 1 + zlen p + 1) by lia. done.
    + rewrite Hz. lia.
    + exists p. by left.
Qed.

Lemma punct_round lang text i c r : goes_on text i (c ++ r) -> is_char c = true -> goes_on text (i + zlen c) r ->
  round_ok lang text i (c ++ r) (token Punct text i (i + punct_len text i c)).
Proof.
  intros Hg Hc Hr. unfold punct_len.
  set (two := if (i + 2 <=? zlen text) && forallb is_ascii c && is_ascii (at_ text (i + 1)) then slice i (i + 2) text else []).
  destruct (bool_decide_reflect (two ∈ two_byte_puncts)) as [Htwo|_].
  - destruct ((i + 2 <=? zlen text) && forallb is_ascii c && is_ascii (at_ text (i + 1))) eqn:E; unfold two in Htwo;
      [|exfalso; revert Htwo; by_decide].
    rewrite !andb_true_iff, Z.leb_le in E. destruct E as [[Hlen Ha] Hb].
    assert (Es : exists p r', c ++ r = p ++ r' /\ zlen p = 2 /\ forallb is_ascii p = true /\ slice i (i + 2) text = p).
    { destruct (goes_on_len _ _ _ Hg) as [Hl Hi]. exists (ztake 2 (c ++ r)), (zdrop 2 (c ++ r)). rewrite ztake_zdrop, zlen_ztake by lia.
      split_and!; [done|done| |unfold slice; rewrite (goes_on_drop _ _ _ Hg); f_equal; lia].
      destruct c as [|x c]; [done|]. cbn [forallb] in Ha. apply andb_true_iff in Ha as [Hx _].
      pose proof (char_head (x :: c) x c Hc Hx eq_refl) as E. injection E as ->. cbn [app] in *. destruct r as [|y r]; [rewrite !zlen_cons, zlen_nil in Hl; lia|].
      change (ztake 2 (x :: y :: r)) with [x; y]. cbn [forallb]. rewrite Hx. change (zlen [x]) with 1 in Hr.
      rewrite (goes_on_at _ _ _ y r Hr eq_refl) in Hb. by rewrite Hb. }
    destruct Es as (p & r' & E & Hz & Hp & Hsl). rewrite E in *. rewrite Hsl in Htwo.
    apply (token_round lang text i _ Punct p r'); [done|done|by intros ->|by apply ascii_prefix|lia|]. by right.
  - apply (token_round lang text i _ Punct c r); [done|done|by apply is_char_nonempty|done|done|]. by left.
Qed.

Lemma lex_one_ok lang text i s : goes_on text i s -> s <> [] -> round_ok lang text i s (lex_one is_alphanumeric text lang i).
Proof.
  intros Hg Hne. unfold lex_one. rewrite (goes_on_from _ _ _ Hg). cbn [mbind option_bind].
  destruct (first_char_ok _ _ _ Hg Hne) as (c & r & Es & Hc & Hf & Hr). rewrite Hf. change (default [x20] (Some c)) with c. subst s.
  pose proof (is_char_nonempty c Hc) as Hcne.
  destruct (is_whitespace c) eqn:Ew.
  { exists c, r, None. split_and!; try done. intros s' H. by apply skips_space. }
  destruct (bool_decide (lang = Python) && starts_with (B "#") (c ++ r)) eqn:E1.
  { apply andb_true_iff in E1 as [El [body E]%starts_with_spec]. apply (line_round lang text i _ body); [done|].
    unfold line_mark. by rewrite El. }
  destruct (negb (bool_decide (lang = Python)) && starts_with (B "//") (c ++ r)) eqn:E2.
  { apply andb_true_iff in E2 as [El%negb_true_iff [body E]%starts_with_spec]. apply (line_round lang text i _ body); [done|].
    unfold line_mark. by rewrite El. }
  destruct (negb (bool_decide (lang = Python)) && starts_with (B "/*") (c ++ r)) eqn:E3.
  { apply andb_true_iff in E3 as [El%negb_true_iff%bool_decide_eq_false Hs]. by apply block_round. }
  destruct (is_digit_char c) eqn:Ed.
  { destruct c as [|d [|]]; try done. cbn [is_digit_char app] in *. destruct (number_len_ok (d :: r)) as (p & r' & E & Hn & Ha).
    assert (Hnum : number_len (d :: r) = 1 + number_len r).
    { cbn [number_len]. unfold is_ascii_alphanumeric. rewrite Ed, orb_true_r. cbn [orb].
      destruct (byte_eqb_spec d x2e) as [->|]; [done|]. done. }
    destruct (number_len_ok r) as (p1 & r1 & _ & Hn1 & _). pose proof (zlen_nonneg p1).
    destruct p as [|b p]; [rewrite zlen_nil in Hn; lia|]. injection E as <- E. cbn [forallb] in Ha. apply andb_true_iff in Ha as [Hb Ha].
    apply (token_round lang text i _ NumberToken (d :: p) r'); [done|cbn; by rewrite E|done| |by rewrite Hn|by exists d, p].
    apply ascii_prefix; [cbn [app]; by rewrite <- E|]. cbn [forallb]. by rewrite Hb. }
  destruct (opens_string lang c) eqn:Eo.
  { destruct (quote_ascii lang c Eo) as (q & -> & Hq). by apply string_round. }
  destruct (bool_decide_reflect (c = [x27])) as [->|_]; [by apply char_round|].
  destruct (is_ident is_alphanumeric c) eqn:Ei; cbn [andb negb]; [|by apply punct_round].
  destruct (word_end_ok (S (length text)) text i (c ++ r) Hg) as (e & p & r' & -> & E & -> & Hr' & Hp & Hall & Hpne).
  { destruct (goes_on_len _ _ _ Hg) as [Hl Hi]. unfold zlen in Hl. lia. }
  cbn [mbind option_bind]. apply (token_round lang text i _ Word p r'); [done|done|by apply (Hpne c)|done|done|done].
Qed.

Lemma tokenize_from_ok lang text fuel i s : goes_on text i s -> (length s < fuel)%nat ->
  exists ts, tokenize_from is_alphanumeric fuel text lang i = Some ts /\ tiled lang text i ts.
Proof.
  revert i s. induction fuel as [|fuel IH]; intros i s Hg Hf; [lia|]. cbn [tokenize_from].
  destruct (goes_on_len _ _ _ Hg) as [Hl Hi]. pose proof (goes_on_drop _ _ _ Hg) as Hd.
  destruct (decide (s = [])) as [->|Hne].
  { rewrite zlen_nil in Hl. replace (i <? zlen text) with false by lia. exists []. split; [done|]. constructor. rewrite Hd. constructor. }
  assert (0 < zlen s) by (destruct s; [done|]; rewrite zlen_cons; pose proof (zlen_nonneg s); lia).
  replace (i <? zlen text) with true by lia.
  destruct (lex_one_ok lang text i s Hg Hne) as (p & r & o & -> & -> & Hp & Hr & Ho). cbn [mbind option_bind].
  assert (Hzp : 0 < zlen p) by (destruct p; [done|]; rewrite zlen_cons; pose proof (zlen_nonneg p); lia).
  destruct (IH (i + zlen p) r Hr) as (ts & -> & Ht); [rewrite length_app in Hf; unfold zlen in Hzp; lia|]. cbn [mbind option_bind].
  pose proof (goes_on_drop _ _ _ Hr) as Hdr. destruct o as [t|].
  - exists (t :: ts). split; [done|]. destruct Ho as (E1 & E2 & E3 & Hsh). rewrite <- E2 in Ht, Hsh, Hr.
    destruct (goes_on_slice _ _ _ _ _ Hg Hr E2) as [_ Hsl].
    apply tiled_token; [rewrite E1; constructor|lia|by rewrite E1, E3, Hsl|done| | |done].
    + rewrite E1. destruct Hg as (a & -> & -> & Ha & Hv). by exists a, (p ++ r).
    + destruct Hr as (a & -> & Ea & Ha & Hv). rewrite Ea. by exists a, r.
  - exists ts. split; [done|]. remember (i + zlen p) as k eqn:Ek. destruct Ht as [j Hs|j t ts' Hs Hj Htx Hsh Hp1 Hp2 Ht'].
    + constructor. rewrite Hd. apply Ho. by rewrite <- Hdr.
    + apply tiled_token; [rewrite Hd; apply Ho; by rewrite <- Hdr|lia|done..].
Qed.
End tile.


(** A text of ASCII. *)
Definition ascii_alphanumeric (c : bytes) : bool := match c with [b] => is_ascii_alphanumeric b | _ => false end.


(** The search for the end of a comment begins at its opening mark, so the star of that mark can
    be taken for the closing one: a comment that begins with a slash ends there, and its words
    are tokens. *)
Theorem slash_ends_comment :
  option_map (map tk_text) (tokenize_polyglot ascii_alphanumeric (B "/*/ word */ x") JavaScript) = Some [B "word"; B "*"; B "/"; B "x"].
Proof. vm_compute. reflexivity. Qed.
