(* ===== verification/Extract.v ===== *)
(** * Copies of a selection, and the rewriting of a text

    prod-code-mcp/src/extract_function_polyglot: [find_duplicates_in_text] of [duplicates.rs],
    the boundaries of [scope.rs], the arguments of [arguments.rs] and
    [apply_edits] of [execute.rs].

    Extracting a function replaces the selection, and every other place with the same tokens,
    by a call.  Where two places may differ in a literal, the literal becomes an argument. *)

From stdpp Require Import list.
From Stdlib Require Import Strings.Byte.
From S2P Require Import Prelude RustStr Utf8 Json TextEdits Tokenize.

#[local] Set Warnings "-register-all".

(** ** [scope.rs] *)

Definition left_marks : list bytes := [[x28]; [x5b]; [x7b]; [x2c]; [x3a]; [x3d]; [x3b]].
Definition right_marks : list bytes := [[x29]; [x5d]; [x7d]; [x2c]; [x3b]; [x3a]; [x0a]; [x0d]].

Definition has_complete_expression_boundaries (text : bytes) (start end_ : Z) : option bool :=
  before ← trim_end <$> str_slice text 0 start;
  after ← str_from text end_;
  let left_ok := match last (chars before) with None => true | Some c => bool_decide (c ∈ left_marks) end
                 || ends_with (B "return") before || ends_with (B "=>") before in
  let rest := trim_start_matches (fun b => Byte.eqb b x20 || Byte.eqb b x09) after in
  let right_ok := match first_char rest with None => true | Some c => bool_decide (c ∈ right_marks) end
                  || starts_with (B "//") rest || starts_with (B "#") rest in
  Some (left_ok && right_ok).

(** ** [duplicates.rs] *)

Record PolyOccurrence := MkOccurrence { oc_start : Z; oc_end : Z; oc_differs : list (Z * bytes) }.

Definition is_literal (k : PolyTokenKind) : bool := match k with NumberToken | Str | Char => true | Word | Punct => false end.

(** The literals in which a window differs from what is wanted, or [None] where it does not
    match. *)
Fixpoint compare_tokens (parameterize : bool) (idx : Z) (wanted window : list PolyToken) : option (list (Z * bytes)) :=
  match wanted, window with
  | w :: wanted', h :: window' =>
      if bool_decide (tk_text w = tk_text h) then compare_tokens parameterize (idx + 1) wanted' window'
      else if parameterize && bool_decide (tk_kind w = tk_kind h) && is_literal (tk_kind w) then
        cons (idx, tk_text h) <$> compare_tokens parameterize (idx + 1) wanted' window'
      else None
  | _, _ => Some []
  end.

Definition overlaps (exclude : option (Z * Z)) (from to : Z) : bool :=
  match exclude with Some (s, e) => (from <? e) && (s <? to) | None => false end.

(** The window at the front of [have], if it is a copy. *)
Definition copy_here (text : bytes) (wanted : list PolyToken) (exclude : option (Z * Z)) (parameterize : bool)
    (have : list PolyToken) : option (option PolyOccurrence) :=
  let window := take (length wanted) have in
  match window, last window, compare_tokens parameterize 0 wanted window with
  | first :: _, Some final, Some differs =>
      if overlaps exclude (tk_start first) (tk_end final) then Some None
      else
        (fun ok : bool => if ok then Some (MkOccurrence (tk_start first) (tk_end final) differs) else None)
          <$> has_complete_expression_boundaries text (tk_start first) (tk_end final)
  | _, _, _ => Some None
  end.

Fixpoint find_copies (fuel : nat) (text : bytes) (wanted : list PolyToken) (exclude : option (Z * Z)) (parameterize : bool)
    (have : list PolyToken) : option (list PolyOccurrence) :=
  match fuel with
  | O => None
  | S fuel' =>
      if (length have <? length wanted)%nat then Some []
      else
        here ← copy_here text wanted exclude parameterize have;
        match here with
        | Some copy => cons copy <$> find_copies fuel' text wanted exclude parameterize (drop (length wanted) have)
        | None => find_copies fuel' text wanted exclude parameterize (drop 1 have)
        end
  end.

Section extract.
Context (is_alphanumeric : bytes -> bool).

Definition find_duplicates_in_text (selection text : bytes) (exclude : option (Z * Z)) (parameterize : bool) (lang : Language)
    : option (list PolyOccurrence) :=
  wanted ← tokenize_polyglot is_alphanumeric selection lang;
  have ← tokenize_polyglot is_alphanumeric text lang;
  if bool_decide (wanted = []) || (length have <? length wanted)%nat then Some []
  else find_copies (S (length have)) text wanted exclude parameterize have.
End extract.

(** ** [arguments.rs] *)

Record ExtractedParam := MkParam { pm_name : bytes; pm_ty : option bytes }.

(** A literal that becomes a parameter: its token, the parameter's name and the literal of the
    selection. *)
Abbreviation literal_param := (Z * bytes * bytes)%type.

Definition name_taken (inputs : list ExtractedParam) (params : list literal_param) (name : bytes) : bool :=
  existsb (fun p => bool_decide (pm_name p = name)) inputs || existsb (fun p => bool_decide (p.1.2 = name)) params.

Fixpoint fresh_from (fuel : nat) (inputs : list ExtractedParam) (params : list literal_param) (base candidate : bytes) (suffix : Z)
    : option bytes :=
  match fuel with
  | O => None
  | S fuel' =>
      if name_taken inputs params candidate
      then fresh_from fuel' inputs params base (base ++ B "_" ++ show suffix) (suffix + 1)
      else Some candidate
  end.
Definition fresh_literal_parameter_name (inputs : list ExtractedParam) (params : list literal_param) (ordinal total : Z) : option bytes :=
  let base := if total =? 1 then B "value" else B "value" ++ show ordinal in
  fresh_from (length inputs + length params + 2) inputs params base base 1.

Definition param_named (params : list literal_param) (name : bytes) : option literal_param :=
  List.find (fun p => bool_decide (p.1.2 = name)) params.

(** The arguments a copy's call passes. *)
Definition copy_arg (params : list literal_param) (differs : list (Z * bytes)) (input : ExtractedParam) : bytes :=
  match param_named params (pm_name input) with
  | None => pm_name input
  | Some (idx, _, original) =>
      match List.find (fun d => bool_decide (d.1 = idx)) differs with Some (_, literal) => literal | None => original end
  end.
Definition copy_args (inputs : list ExtractedParam) (params : list literal_param) (differs : list (Z * bytes)) : list bytes :=
  map (copy_arg params differs) inputs.

(** ** [execute.rs] *)

Fixpoint apply_in_order (out : bytes) (edits : list span) : result bytes EditError :=
  match edits with
  | [] => Ok out
  | Span from to replacement :: rest =>
      if (from <=? to) && (to <=? zlen out) then
        match replace_range out from to replacement with
        | Ok out' => apply_in_order out' rest
        | Err e => Err e
        end
      else apply_in_order out rest
  end.
Definition apply_edits (text : bytes) (edits : list span) : result bytes EditError :=
  apply_in_order text (sort_by later_first edits).

(** [dedup]: of equal neighbours, the first stays. *)
Fixpoint dedup (l : list Z) : list Z :=
  match l with
  | [] => []
  | x :: rest => match rest with y :: _ => if x =? y then dedup rest else x :: dedup rest | [] => [x] end
  end.

(** The tokens in which some copy differs; the copies of the file come first. *)
Definition differing_token_indices (copies : list (list PolyOccurrence)) : list Z :=
  dedup (sort_by Z.leb (c ← concat copies; fst <$> oc_differs c)).

Definition literal_type (lang : Language) (lit : bytes) : bytes :=
  if starts_with [x22] lit then match lang with Zig => B "[]const u8" | _ => B "string" end
  else if starts_with [x27] lit then match lang with Zig => B "u8" | _ => B "char" end
  else match lang with
       | Go | Cpp | C | Csharp => B "int"
       | Swift | Kotlin => B "Int"
       | Zig => B "usize"
       | _ => B "number"
       end.

(** What the loop over the differing tokens builds. *)
Record lifted := Lifted { lf_inputs : list ExtractedParam; lf_params : list literal_param; lf_descriptions : list bytes }.

Fixpoint lift_literals (lang : Language) (total n : Z) (sel_tokens : list PolyToken) (indices : list Z) (acc : lifted) : option lifted :=
  match indices with
  | [] => Some acc
  | idx :: rest =>
      match sel_tokens !! Z.to_nat idx with
      | Some t =>
          name ← fresh_literal_parameter_name (lf_inputs acc) (lf_params acc) (n + 1) total;
          let ty := literal_type lang (tk_text t) in
          lift_literals lang total (n + 1) sel_tokens rest
            (Lifted (lf_inputs acc ++ [MkParam name (Some ty)]) (lf_params acc ++ [(idx, name, tk_text t)])
                    (lf_descriptions acc ++ [name ++ B ": " ++ ty]))
      | None => lift_literals lang total (n + 1) sel_tokens rest acc
      end
  end.

Definition lift_parameters (parameterize : bool) (lang : Language) (sel_tokens : list PolyToken)
    (inputs : list ExtractedParam) (copies : list (list PolyOccurrence)) : option lifted :=
  let indices := differing_token_indices copies in
  if parameterize then lift_literals lang (zlen indices) 0 sel_tokens indices (Lifted inputs [] []) else Some (Lifted inputs [] []).

(** The selection with the parameters in place of their literals. *)
Definition body_edit (sel_tokens : list PolyToken) (p : literal_param) : option span :=
  (fun t => Span (tk_start t) (tk_end t) p.1.2) <$> sel_tokens !! Z.to_nat p.1.1.
Definition fn_selection_body (selection : bytes) (sel_tokens : list PolyToken) (params : list literal_param) : result bytes EditError :=
  match params with [] => Ok selection | _ => apply_edits selection (omap (body_edit sel_tokens) params) end.

(** The arguments of the call in place of the selection. *)
Definition orig_args (inputs : list ExtractedParam) (params : list literal_param) : list bytes :=
  map (fun p => match param_named params (pm_name p) with Some (_, _, lit) => lit | None => pm_name p end) inputs.

(** ** The tokens of a text, in order *)

Definition token_before (a b : PolyToken) : Prop := tk_end a <= tk_start b.
Definition token_placed (text : bytes) (t : PolyToken) : Prop :=
  tk_start t < tk_end t /\ is_position text (tk_start t) /\ is_position text (tk_end t).

Definition placed (text : bytes) (ts : list PolyToken) : Prop :=
  StronglySorted token_before ts /\ Forall (token_placed text) ts.

Lemma tiled_from f lang text i ts : tiled f lang text i ts -> Forall (fun t => i <= tk_start t) ts.
Proof.
  induction 1 as [|i t ts _ Hi _ _ _ _ _ IH]; [constructor|]. constructor; [lia|]. eapply Forall_impl; [exact IH|]. cbn. lia.
Qed.
Lemma tiled_placed f lang text i ts : tiled f lang text i ts -> placed text ts.
Proof.
  induction 1 as [|i t ts Hs Hi Ht Hsh Hp1 Hp2 Hr [IH1 IH2]]; [repeat constructor|]. split.
  - constructor; [done|]. by apply (tiled_from _ _ _ _ _ Hr).
  - constructor; [|done]. split_and!; [lia|done|done].
Qed.

Lemma placed_app text a b : placed text (a ++ b) ->
  placed text a /\ placed text b /\ forall x y, x ∈ a -> y ∈ b -> token_before x y.
Proof.
  intros [Hs Hp]. apply Forall_app in Hp as [Ha Hb]. apply StronglySorted_app in Hs as (Hx & Hsa & Hsb). done.
Qed.
Lemma boundaries_total text a b : is_position text a -> is_position text b ->
  exists v, has_complete_expression_boundaries text a b = Some v.
Proof.
  intros Ha Hb. assert (Hv : utf8_valid text = true) by (destruct Ha as (x & y & -> & _ & Hx & Hy); by apply utf8_valid_app).
  pose proof (is_position_range _ _ Ha). unfold has_complete_expression_boundaries, str_slice, str_from.
  rewrite (is_position_boundary _ _ (is_position_0 text Hv)), (is_position_boundary _ _ Ha), (is_position_boundary _ _ Hb).
  replace (0 <=? a) with true by lia. cbn [andb]. by eexists.
Qed.

(** ** What a copy is *)

(** What a copy has at a token of the selection. *)
Definition literal_at (differs : list (Z * bytes)) (idx : Z) (original : bytes) : bytes :=
  match List.find (fun d => bool_decide (d.1 = idx)) differs with Some (_, literal) => literal | None => original end.

Lemma compare_indices p idx w h d : compare_tokens p idx w h = Some d -> Forall (fun x => idx <= x.1 /\ p = true) d.
Proof.
  revert idx h d. induction w as [|t w IH]; intros idx [|u h] d; cbn [compare_tokens]; try (intros [= <-]; constructor).
  destruct (bool_decide_reflect (tk_text t = tk_text u)) as [E|E].
  - intros H. eapply Forall_impl; [exact (IH _ _ _ H)|]. cbn. intros x [Hx ?]. split; [lia|done].
  - destruct p; [|done]. cbn [andb]. destruct (_ && _); [|done]. intros (d' & Hd & ->)%fmap_Some. constructor; [cbn; split; [lia|done]|].
    eapply Forall_impl; [exact (IH _ _ _ Hd)|]. cbn. intros x [Hx ?]. split; [lia|done].
Qed.

Lemma literal_at_outside d idx original : Forall (fun x => idx + 1 <= x.1) d -> literal_at d idx original = original.
Proof.
  intros H. unfold literal_at. destruct (List.find _ d) as [[i l]|] eqn:E; [|done]. apply find_some in E as [Hin Hi].
  apply bool_decide_eq_true in Hi. rewrite Forall_forall in H. apply list_elem_of_In in Hin. specialize (H _ Hin). cbn in *. lia.
Qed.

(** The texts of the window are those of the selection but for the literals listed. *)
Lemma compare_texts p idx w h d : compare_tokens p idx w h = Some d -> length w = length h ->
  forall k t u, w !! k = Some t -> h !! k = Some u -> tk_text u = literal_at d (idx + Z.of_nat k) (tk_text t).
Proof.
  revert idx h d. induction w as [|t0 w IH]; intros idx [|u0 h] d Hc Hl k t u Hk Hu; try done. cbn [compare_tokens] in Hc.
  injection Hl as Hl. destruct (bool_decide_reflect (tk_text t0 = tk_text u0)) as [E|E].
  - destruct k as [|k].
    + injection Hk as <-. injection Hu as <-. rewrite Z.add_0_r, literal_at_outside; [done|].
      eapply Forall_impl; [exact (compare_indices _ _ _ _ _ Hc)|]. cbn. intros x [Hx ?]. lia.
    + cbn in Hk, Hu. rewrite (IH _ _ _ Hc Hl k t u Hk Hu). f_equal. lia.
  - destruct (_ && _); [|done]. apply fmap_Some in Hc as (d' & Hc & ->). destruct k as [|k].
    + injection Hk as <-. injection Hu as <-. unfold literal_at. cbn [List.find fst]. rewrite bool_decide_eq_true_2 by lia. done.
    + cbn in Hk, Hu. rewrite (IH _ _ _ Hc Hl k t u Hk Hu). unfold literal_at. cbn [List.find fst].
      rewrite bool_decide_eq_false_2 by lia. replace (idx + Z.of_nat (S k)) with (idx + 1 + Z.of_nat k) by lia. done.
Qed.

(** [c] is the copy that a window of tokens makes. *)
Record copy_of (text : bytes) (wanted : list PolyToken) (exclude : option (Z * Z)) (parameterize : bool)
    (window : list PolyToken) (c : PolyOccurrence) : Prop := {
  co_length : length window = length wanted;
  co_first : exists t, head window = Some t /\ oc_start c = tk_start t;
  co_last : exists t, last window = Some t /\ oc_end c = tk_end t;
  co_matches : compare_tokens parameterize 0 wanted window = Some (oc_differs c);
  co_outside : overlaps exclude (oc_start c) (oc_end c) = false;
  co_bounded : has_complete_expression_boundaries text (oc_start c) (oc_end c) = Some true }.

Section copies.
Context (text : bytes) (wanted : list PolyToken) (exclude : option (Z * Z)) (parameterize : bool).
Context (Hwanted : wanted <> []).

Abbreviation is_copy := (copy_of text wanted exclude parameterize).

Lemma head_last {A} (l : list A) : l <> [] -> exists x y, head l = Some x /\ last l = Some y /\ x ∈ l /\ y ∈ l.
Proof.
  intros Hne. destruct l as [|x l]; [done|]. destruct (last (x :: l)) as [y|] eqn:E; [|apply last_None in E; done].
  exists x, y. split_and!; [done|done|left|]. by apply last_Some_elem_of.
Qed.

(** The tokens at the ends of a copy's window. *)
Lemma copy_ends window c : is_copy window c ->
  exists x y, x ∈ window /\ y ∈ window /\ oc_start c = tk_start x /\ oc_end c = tk_end y.
Proof.
  intros [Hl (x & Hx & Ex) (y & Hy & Ey) _ _ _]. exists x, y. split_and!; [|by apply last_Some_elem_of|done|done].
  destruct window; [done|]. injection Hx as ->. left.
Qed.
(** Every token of it is inside. *)
Lemma copy_spans window c t : placed text window -> is_copy window c -> t ∈ window ->
  oc_start c <= tk_start t /\ tk_end t <= oc_end c.
Proof.
  intros [Hs Hp] [Hl (x & Hx & ->) (y & Hy & ->) _ _ _] Ht. rewrite Forall_forall in Hp.
  destruct window as [|x' w]; [done|]. injection Hx as ->. split.
  - apply elem_of_cons in Ht as [->|Ht]; [done|]. inversion_clear Hs as [|?? _ Hx]. rewrite Forall_forall in Hx.
    specialize (Hx t Ht). destruct (Hp x) as (? & _); [left|]. unfold token_before in Hx. lia.
  - apply last_Some in Hy as [l' E]. rewrite E in *. apply elem_of_app in Ht as [Ht|Ht%list_elem_of_singleton]; [|by subst].
    apply StronglySorted_app in Hs as (Hb & _). specialize (Hb t y Ht ltac:(by apply list_elem_of_singleton)).
    destruct (Hp y) as (? & _); [apply elem_of_app; right; left|]. unfold token_before in Hb. lia.
Qed.

Lemma copy_here_spec have : placed text have -> (length wanted <= length have)%nat ->
  (exists c, copy_here text wanted exclude parameterize have = Some (Some c) /\ is_copy (take (length wanted) have) c)
  \/ (copy_here text wanted exclude parameterize have = Some None /\ forall c, ~ is_copy (take (length wanted) have) c).
Proof.
  intros Hp Hl. unfold copy_here. set (window := take (length wanted) have).
  assert (Hlen : length window = length wanted) by (unfold window; rewrite length_take; lia).
  destruct window as [|x w'] eqn:Ew; [by destruct wanted|]. rewrite <- Ew in *.
  destruct (head_last window) as (x' & y & Hx & Hy & Hxin & Hyin); [by rewrite Ew|]. rewrite Hy.
  assert (x' = x) as -> by (rewrite Ew in Hx; by injection Hx).
  assert (Hin : forall t, t ∈ window -> token_placed text t).
  { intros t Ht. destruct Hp as [_ Hp]. rewrite Forall_forall in Hp. apply Hp. unfold window in Ht. apply elem_of_take in Ht as (i & Hi & _). by apply list_elem_of_lookup_2 in Hi. }
  destruct (compare_tokens parameterize 0 wanted window) as [d|] eqn:Ec.
  2: { right. split; [done|]. intros c [_ _ _ Hc _ _]. congruence. }
  destruct (Hin x Hxin) as (_ & Hxs & _), (Hin y Hyin) as (_ & _ & Hye).
  assert (Hends : forall c, is_copy window c -> oc_start c = tk_start x /\ oc_end c = tk_end y).
  { intros c [_ (x1 & H1 & ->) (y1 & H2 & ->) _ _ _]. rewrite Hx in H1. rewrite Hy in H2. by injection H1 as ->; injection H2 as ->. }
  destruct (overlaps exclude (tk_start x) (tk_end y)) eqn:Eo.
  { right. split; [done|]. intros c Hc. destruct (Hends c Hc) as [E1 E2]. destruct Hc as [_ _ _ _ Ho _]. rewrite E1, E2 in Ho. congruence. }
  destruct (boundaries_total text (tk_start x) (tk_end y) Hxs Hye) as [[] Hb]; rewrite Hb; cbn [fmap option_fmap option_map].
  - left. eexists. split; [done|]. constructor; cbn; [done|by exists x|by exists y|done|done|done].
  - right. split; [done|]. intros c Hc. destruct (Hends c Hc) as [E1 E2]. destruct Hc as [_ _ _ _ _ Ho]. rewrite E1, E2 in Ho. congruence.
Qed.

Definition copy_before (a b : PolyOccurrence) : Prop := oc_end a <= oc_start b.
Definition touches (a b : PolyOccurrence) : Prop := oc_start a < oc_end b /\ oc_start b < oc_end a.

(** The copies are in order, each is one, and every window that is a copy touches one of them. *)
Definition copies_of (have : list PolyToken) (copies : list PolyOccurrence) : Prop :=
  StronglySorted copy_before copies
  /\ Forall (fun c => exists before window after, have = before ++ window ++ after /\ is_copy window c) copies
  /\ forall before window after c, have = before ++ window ++ after -> is_copy window c -> exists c', c' ∈ copies /\ touches c' c.

Lemma copies_skip t have copies : (forall c, ~ is_copy (take (length wanted) (t :: have)) c) ->
  copies_of have copies -> copies_of (t :: have) copies.
Proof.
  intros Hno (Hs & Hf & Hm). split_and!; [done| |].
  - eapply Forall_impl; [exact Hf|]. cbn. intros c (a & w & b & -> & Hc). by exists (t :: a), w, b.
  - intros [|t' a] w b c E Hc.
    + exfalso. apply (Hno c). cbn [app] in E. rewrite E, <- (co_length _ _ _ _ _ _ Hc), take_app_length. done.
    + injection E as <- E. by apply (Hm a w b).
Qed.
Lemma copies_take first rest c copies : placed text (first ++ rest) -> is_copy first c ->
  copies_of rest copies -> copies_of (first ++ rest) (c :: copies).
Proof.
  intros Hp Hc (Hs & Hf & Hm). pose proof Hp as (Hp1 & _ & Hb)%placed_app. split_and!.
  - constructor; [done|]. eapply Forall_impl; [exact Hf|]. cbn. intros c' (a & w & b & -> & Hc').
    destruct (copy_ends _ _ Hc) as (_ & y & _ & Hy & _ & Ey), (copy_ends _ _ Hc') as (x & _ & Hx & _ & Ex & _).
    unfold copy_before. rewrite Ey, Ex. apply Hb; [done|]. rewrite !elem_of_app. auto.
  - constructor; [by exists [], first, rest|]. eapply Forall_impl; [exact Hf|]. cbn. intros c' (a & w & b & -> & Hc').
    exists (first ++ a), w, b. by rewrite <- app_assoc.
  - intros a w b c' E Hc'. destruct (decide (length a < length first)%nat) as [Hlt|Hge].
    + exists c. split; [left|]. rewrite E in Hp. pose proof Hp as (_ & (Hw & _ & _)%placed_app & _)%placed_app.
      pose proof (co_first _ _ _ _ _ _ Hc') as (x & Hx & _). destruct w as [|x' w]; [done|]. injection Hx as ->.
      assert (Hxf : x ∈ first).
      { apply (list_elem_of_lookup_2 first (length a)). rewrite <- (lookup_app_l first rest) by done. rewrite E.
        change ((x :: w) ++ b) with (x :: w ++ b). by rewrite list_lookup_middle. }
      destruct (copy_spans _ _ x Hp1 Hc Hxf), (copy_spans _ _ x Hw Hc' ltac:(left)).
      destruct Hw as [_ Hw]. inversion_clear Hw as [|?? (Hlen & _) _]. unfold touches. lia.
    + apply app_eq_inv in E as [(k & E1 & E2)|(k & -> & E)]; [rewrite E1, length_app in Hge; destruct k as [|]|].
      * rewrite app_nil_r in E1. subst. cbn [app] in E2. destruct (Hm [] w b c' ltac:(done) Hc') as (c1 & Hin & Ht). exists c1. split; [by right|done].
      * cbn in Hge. lia.
      * destruct (Hm k w b c' E Hc') as (c1 & Hin & Ht). exists c1. split; [by right|done].
Qed.

Lemma find_copies_ok fuel have : placed text have -> (length have < fuel)%nat ->
  exists copies, find_copies fuel text wanted exclude parameterize have = Some copies /\ copies_of have copies.
Proof.
  revert have. induction fuel as [|fuel IH]; intros have Hp Hf; [lia|]. cbn [find_copies].
  assert (Hw : (0 < length wanted)%nat) by (destruct wanted; [done|cbn; lia]).
  destruct (Nat.ltb_spec (length have) (length wanted)) as [Hlt|Hge].
  { exists []. split; [done|]. split_and!; [constructor|constructor|]. intros a w b c -> Hc. exfalso.
    rewrite !length_app, (co_length _ _ _ _ _ _ Hc) in Hlt. lia. }
  destruct (copy_here_spec have Hp Hge) as [(c & -> & Hc)|[-> Hno]]; cbn [mbind option_bind].
  - pose proof (take_drop (length wanted) have) as E. set (w := take _ have) in *. set (r := drop _ have) in *. rewrite <- E in Hp.
    pose proof Hp as (_ & Hr & _)%placed_app. destruct (IH r Hr) as (cs & -> & Hcs); [unfold r; rewrite length_drop; lia|].
    exists (c :: cs). split; [done|]. rewrite <- E. by apply copies_take.
  - destruct have as [|t have]; [cbn in Hge; lia|]. cbn [drop]. rewrite drop_0. cbn in Hf.
    destruct (placed_app text [t] have Hp) as (_ & Hr & _). destruct (IH have Hr) as (cs & -> & Hcs); [lia|].
    exists cs. split; [done|]. by apply copies_skip.
Qed.
End copies.

Lemma no_copies text wanted exclude p have : wanted = [] \/ (length have < length wanted)%nat -> copies_of text wanted exclude p have [].
Proof.
  intros H. split_and!; [constructor|constructor|]. intros a w b c -> [Hl (x & Hx & _) _ _ _ _]. exfalso.
  destruct H as [->|H]; [by destruct w|]. rewrite !length_app in H. lia.
Qed.

Lemma find_duplicates_ok f selection text exclude p lang wanted have :
  tokenize_polyglot f selection lang = Some wanted -> tokenize_polyglot f text lang = Some have -> placed text have ->
  exists copies, find_duplicates_in_text f selection text exclude p lang = Some copies /\ copies_of text wanted exclude p have copies.
Proof.
  intros Hw Hh Hp. unfold find_duplicates_in_text. rewrite Hw, Hh. cbn [mbind option_bind].
  destruct (bool_decide_reflect (wanted = [])) as [E|Hne]; cbn [orb]; [exists []; split; [done|]; by apply no_copies; left|].
  destruct (Nat.ltb_spec (length have) (length wanted)); [exists []; split; [done|]; by apply no_copies; right|].
  apply find_copies_ok; [done|done|lia].
Qed.

(** ** The names of the parameters *)

Lemma name_taken_elem inputs params name : name_taken inputs params name = true <-> name ∈ (pm_name <$> inputs) ++ ((fun p => p.1.2) <$> params).
Proof.
  unfold name_taken. rewrite orb_true_iff, !existsb_exists, elem_of_app, !list_elem_of_fmap. split.
  - intros [(x & Hx%list_elem_of_In & E%bool_decide_eq_true)|(x & Hx%list_elem_of_In & E%bool_decide_eq_true)]; [left|right]; exists x; auto.
  - intros [(x & E & Hx%list_elem_of_In)|(x & E & Hx%list_elem_of_In)]; [left|right]; exists x; split; [done|by rewrite bool_decide_eq_true|done|by rewrite bool_decide_eq_true].
Qed.

Definition nth_name (base : bytes) (n : Z) : bytes := if n =? 0 then base else base ++ B "_" ++ show n.

Lemma nth_name_inj base a b : 0 <= a -> 0 <= b -> nth_name base a = nth_name base b -> a = b.
Proof.
  intros Ha Hb. unfold nth_name. destruct (Z.eqb_spec a 0) as [->|], (Z.eqb_spec b 0) as [->|]; [done| | |].
  - intros E. rewrite <- (app_nil_r base) in E at 1. apply app_inv_head in E. done.
  - intros E. rewrite <- (app_nil_r base) in E at 2. apply app_inv_head in E. done.
  - intros E. apply app_inv_head, app_inv_head in E. by apply show_inj.
Qed.

(** Some name among the first ones is free. *)
Lemma fresh_from_ok inputs params base fuel n (tried : list bytes) : 1 <= n ->
  tried ≡ₚ (fun i => nth_name base (Z.of_nat i)) <$> seq 0 (Z.to_nat (n - 1)) ->
  tried ⊆ (pm_name <$> inputs) ++ ((fun p => p.1.2) <$> params) ->
  (length inputs + length params + 1 < fuel + Z.to_nat n)%nat ->
  exists i, fresh_from fuel inputs params base (nth_name base (n - 1)) n = Some (nth_name base i) /\ 0 <= i
    /\ name_taken inputs params (nth_name base i) = false.
Proof.
  revert n tried. induction fuel as [|fuel IH]; intros n tried Hn Ht Hsub Hf.
  { exfalso. assert (Hd : NoDup tried).
    { rewrite Ht. apply NoDup_fmap_2_strong; [|apply NoDup_seq]. intros i j _ _ E. apply nth_name_inj in E; lia. }
    apply (NoDup_submseteq tried) in Hsub; [|done]. apply submseteq_length in Hsub.
    rewrite Ht, length_app, !length_fmap, length_seq in Hsub. lia. }
  cbn [fresh_from]. destruct (name_taken inputs params (nth_name base (n - 1))) eqn:E; [|exists (n - 1); split_and!; [done|lia|done]].
  replace (base ++ B "_" ++ show n) with (nth_name base (n + 1 - 1)).
  2: { unfold nth_name. replace (n + 1 - 1) with n by lia. by replace (n =? 0) with false by lia. }
  apply (IH (n + 1) (tried ++ [nth_name base (n - 1)])); [lia| | |lia].
  - replace (Z.to_nat (n + 1 - 1)) with (S (Z.to_nat (n - 1))) by lia. rewrite seq_S, fmap_app, <- Ht. cbn. by rewrite Z2Nat.id by lia.
  - intros x [Hx|Hx%list_elem_of_singleton]%elem_of_app; [by apply Hsub|]. subst x. by apply name_taken_elem.
Qed.
Lemma show_valid z : 0 <= z -> utf8_valid (show z) = true.
Proof.
  intros Hz. apply utf8_valid_ascii. eapply Forall_impl; [exact (show_digits z Hz)|].
  cbn. intros b Hb. apply number_byte_ascii. unfold is_ascii_alphanumeric. by rewrite Hb, orb_true_r.
Qed.
Lemma fresh_name_ok inputs params ordinal total : 0 <= ordinal ->
  exists name, fresh_literal_parameter_name inputs params ordinal total = Some name /\ name_taken inputs params name = false
    /\ utf8_valid name = true.
Proof.
  intros Ho. unfold fresh_literal_parameter_name. set (base := if total =? 1 then _ else _).
  destruct (fresh_from_ok inputs params base (length inputs + length params + 2) 1 []) as (i & E & Hi & Hn);
    [lia|done|intros x Hx%not_elem_of_nil; done|lia|].
  exists (nth_name base i). split_and!; [exact E|done|]. assert (Hb : utf8_valid base = true).
  { unfold base. destruct (total =? 1); [done|]. apply utf8_valid_app; [done|by apply show_valid]. }
  unfold nth_name. destruct (i =? 0); [done|]. apply utf8_valid_app; [done|]. apply utf8_valid_app; [done|by apply show_valid].
Qed.

(** ** The loop over the differing tokens *)

Lemma dedup_elem l x : x ∈ dedup l <-> x ∈ l.
Proof.
  induction l as [|a [|b l] IH]; [done|done|]. cbn [dedup] in *. destruct (Z.eqb_spec a b) as [->|].
  - rewrite IH, !elem_of_cons. tauto.
  - rewrite !(elem_of_cons _ x a), IH. done.
Qed.
Lemma dedup_sorted l : StronglySorted (fun a b => (a <=? b) = true) l -> StronglySorted Z.lt (dedup l).
Proof.
  induction 1 as [|a [|b l] Hl IH Ha]; [constructor|repeat constructor|]. cbn [dedup] in *. destruct (Z.eqb_spec a b) as [->|Hne]; [done|].
  constructor; [done|]. rewrite Forall_forall. intros x Hx. change (x ∈ dedup (b :: l)) in Hx. rewrite dedup_elem in Hx.
  inversion_clear Hl as [|?? _ Hb]. rewrite Forall_forall in Ha, Hb. pose proof (Ha b ltac:(left)).
  apply elem_of_cons in Hx as [->|Hx]; [lia|]. specialize (Hb x Hx). cbn in *. lia.
Qed.
Lemma differing_sorted copies : StronglySorted Z.lt (differing_token_indices copies).
Proof. apply dedup_sorted, sort_by_sorted; intros; lia. Qed.
Lemma differing_elem copies c d : c ∈ concat copies -> d ∈ oc_differs c -> d.1 ∈ differing_token_indices copies.
Proof.
  intros Hc Hd. unfold differing_token_indices. rewrite dedup_elem, sort_by_perm. apply list_elem_of_bind. exists c. split; [|done].
  by apply list_elem_of_fmap_2.
Qed.

Section lift.
Context (sel_tokens : list PolyToken) (inputs : list ExtractedParam).

(** What holds after a part of the tokens: the names are new and differ from each other, each
    stands for the literal of its token, and the tokens are those of the part. *)
Record lift_ok (indices : list Z) (l : lifted) : Prop := {
  lo_names : pm_name <$> lf_inputs l = (pm_name <$> inputs) ++ ((fun p => p.1.2) <$> lf_params l);
  lo_fresh : NoDup ((fun p => p.1.2) <$> lf_params l);
  lo_new : forall p, p ∈ lf_params l -> p.1.2 ∉ pm_name <$> inputs;
  lo_valid : forall p, p ∈ lf_params l -> utf8_valid p.1.2 = true;
  lo_literal : forall p, p ∈ lf_params l -> exists t, sel_tokens !! Z.to_nat p.1.1 = Some t /\ p.2 = tk_text t;
  lo_indices : sublist ((fun p => p.1.1) <$> lf_params l) indices;
  lo_all : forall idx, idx ∈ indices -> is_Some (sel_tokens !! Z.to_nat idx) -> idx ∈ (fun p => p.1.1) <$> lf_params l }.

Lemma lift_start : lift_ok [] (Lifted inputs [] []).
Proof.
  constructor; cbn; [by rewrite app_nil_r|constructor|by intros p ?%not_elem_of_nil..|constructor|].
  by intros idx ?%not_elem_of_nil.
Qed.

Lemma lift_skip indices idx l : lift_ok indices l -> sel_tokens !! Z.to_nat idx = None -> lift_ok (indices ++ [idx]) l.
Proof.
  intros [H1 H2 H3 Hv H4 H5 H6] Hn. constructor; [done|done|done|done|done|by apply sublist_inserts_r|].
  intros i [Hi|Hi%list_elem_of_singleton]%elem_of_app Hs; [by apply H6|]. subst i. destruct Hs as [t Ht]. congruence.
Qed.

Lemma lift_one indices idx l t name ty text : lift_ok indices l -> sel_tokens !! Z.to_nat idx = Some t ->
  name_taken (lf_inputs l) (lf_params l) name = false -> utf8_valid name = true ->
  lift_ok (indices ++ [idx]) (Lifted (lf_inputs l ++ [MkParam name ty]) (lf_params l ++ [(idx, name, tk_text t)]) text).
Proof.
  intros [H1 H2 H3 Hv H4 H5 H6] Ht Hn Hname. assert (Hno : name ∉ (pm_name <$> lf_inputs l) ++ ((fun p => p.1.2) <$> lf_params l)).
  { rewrite <- name_taken_elem. by rewrite Hn. }
  rewrite elem_of_app in Hno. constructor; cbn [lf_inputs lf_params]; rewrite ?fmap_app.
  - by rewrite H1, <- app_assoc.
  - apply NoDup_app. split_and!; [done|intros x Hx Hy%list_elem_of_singleton; cbn in Hy; subst x; tauto|apply NoDup_singleton].
  - intros p [Hp|Hp%list_elem_of_singleton]%elem_of_app; [by apply H3|]. subst p. cbn. rewrite H1, elem_of_app in Hno. tauto.
  - intros p [Hp|Hp%list_elem_of_singleton]%elem_of_app; [by apply Hv|]. by subst p.
  - intros p [Hp|Hp%list_elem_of_singleton]%elem_of_app; [by apply H4|]. subst p. by exists t.
  - by apply sublist_app.
  - intros i [Hi|Hi%list_elem_of_singleton]%elem_of_app Hs; apply elem_of_app; [left; by apply H6|right]. subst i. by apply list_elem_of_singleton.
Qed.

Lemma lift_literals_ok lang total n indices done_ l : 0 <= n -> lift_ok done_ l ->
  exists l', lift_literals lang total n sel_tokens indices l = Some l' /\ lift_ok (done_ ++ indices) l'.
Proof.
  revert n done_ l. induction indices as [|idx rest IH]; intros n done_ l H0 Hl; cbn [lift_literals].
  { exists l. by rewrite app_nil_r. }
  replace (done_ ++ idx :: rest) with ((done_ ++ [idx]) ++ rest) by (by rewrite <- app_assoc).
  destruct (sel_tokens !! Z.to_nat idx) as [t|] eqn:E; [|apply IH; [lia|by apply lift_skip]].
  destruct (fresh_name_ok (lf_inputs l) (lf_params l) (n + 1) total) as (name & -> & Hn & Hname); [lia|]. cbn [mbind option_bind].
  apply IH; [lia|by apply lift_one].
Qed.

(** The parameters of an extraction, and that every literal in which a copy differs has one. *)
Lemma lift_parameters_ok p lang copies : Forall (fun c => p = false -> oc_differs c = []) (concat copies) ->
  exists l, lift_parameters p lang sel_tokens inputs copies = Some l /\ lift_ok (differing_token_indices copies) l.
Proof.
  intros Hc. unfold lift_parameters. destruct p; [apply (lift_literals_ok lang _ 0 _ [] _ ltac:(done) lift_start)|].
  exists (Lifted inputs [] []). split; [done|]. replace (differing_token_indices copies) with (@nil Z); [apply lift_start|].
  unfold differing_token_indices. replace (_ ≫= _) with (@nil Z); [done|]. symmetry. induction Hc as [|c cs E Hc IH]; [done|].
  rewrite bind_cons, IH, E by done. done.
Qed.
End lift.

(** ** What a call stands for *)

(** The argument passed for a name. *)
Definition bound (inputs : list ExtractedParam) (args : list bytes) (name : bytes) : option bytes :=
  snd <$> List.find (fun q => bool_decide (pm_name q.1 = name)) (zip inputs args).

(** The tokens of the function's body, which has parameters for literals, with the arguments of
    a call in their place. *)
Definition called (l : lifted) (wanted : list PolyToken) (args : list bytes) : list bytes :=
  imap (fun k w => match List.find (fun p => bool_decide (p.1.1 = Z.of_nat k)) (lf_params l) with
                   | Some p => default p.1.2 (bound (lf_inputs l) args p.1.2)
                   | None => tk_text w
                   end) wanted.

Definition named_arg (params : list literal_param) (differs : list (Z * bytes)) (name : bytes) : bytes :=
  match param_named params name with Some (idx, _, original) => literal_at differs idx original | None => name end.

Lemma copy_args_names inputs params differs : copy_args inputs params differs = named_arg params differs <$> (pm_name <$> inputs).
Proof.
  unfold copy_args. rewrite <- list_fmap_compose. apply map_ext. intros i. unfold copy_arg, named_arg, literal_at. cbn.
  by destruct (param_named params (pm_name i)) as [[[? ?] ?]|].
Qed.
Lemma orig_args_copy inputs params : orig_args inputs params = copy_args inputs params [].
Proof. apply map_ext. intros i. unfold copy_arg. by destruct (param_named params (pm_name i)) as [[[? ?] ?]|]. Qed.

Lemma bound_named inputs g name : name ∈ pm_name <$> inputs -> bound inputs (g <$> (pm_name <$> inputs)) name = Some (g name).
Proof.
  induction inputs as [|i inputs IH]; [by intros ?%not_elem_of_nil|]. rewrite fmap_cons. unfold bound in *. cbn.
  destruct (bool_decide_reflect (pm_name i = name)) as [<-|Hne]; [done|]. intros [->|H]%elem_of_cons; [done|]. by apply IH.
Qed.

Lemma param_named_unique params p : NoDup ((fun p => p.1.2) <$> params) -> p ∈ params -> param_named params p.1.2 = Some p.
Proof.
  induction params as [|q params IH]; [by intros _ ?%not_elem_of_nil|]. cbn. intros [Hq Hn]%NoDup_cons Hp. unfold param_named in *. cbn.
  apply elem_of_cons in Hp as [->|Hp]; [by rewrite bool_decide_eq_true_2|]. rewrite bool_decide_eq_false_2; [by apply IH|].
  intros E. apply Hq. rewrite E. by apply (list_elem_of_fmap_2 (fun p : literal_param => p.1.2)).
Qed.

(** A call passes what its copy has: the body with the arguments of the call is the copy. *)
Lemma called_copy wanted inputs indices l differs : lift_ok wanted inputs indices l ->
  (forall d, d ∈ differs -> d.1 ∈ indices) ->
  called l wanted (copy_args (lf_inputs l) (lf_params l) differs) = imap (fun k w => literal_at differs (Z.of_nat k) (tk_text w)) wanted.
Proof.
  intros Hl Hd. unfold called. apply list_eq. intros k. rewrite !list_lookup_imap. destruct (wanted !! k) as [w|] eqn:Ew; [|done].
  cbn. f_equal. rewrite copy_args_names. destruct (List.find _ (lf_params l)) as [p|] eqn:Ep.
  - apply find_some in Ep as [Hp%list_elem_of_In Ek%bool_decide_eq_true]. rewrite bound_named.
    + cbn. unfold named_arg. rewrite param_named_unique by (apply Hl || done). destruct (lo_literal _ _ _ _ Hl p Hp) as (t & Ht & E).
      rewrite Ek, Nat2Z.id, Ew in Ht. injection Ht as <-. destruct p as [[idx name] lit]. cbn in *. by subst.
    + rewrite (lo_names _ _ _ _ Hl). apply elem_of_app. right. by apply (list_elem_of_fmap_2 (fun p : literal_param => p.1.2)).
  - unfold literal_at. destruct (List.find _ differs) as [[i lit]|] eqn:Ei; [|done]. exfalso.
    apply find_some in Ei as [Hin%list_elem_of_In E%bool_decide_eq_true]. cbn in E. subst i. specialize (Hd _ Hin). cbn in Hd.
    apply (lo_all _ _ _ _ Hl) in Hd; [|rewrite Nat2Z.id, Ew; done]. apply list_elem_of_fmap in Hd as (p & E & Hp%list_elem_of_In).
    pose proof (find_none _ _ Ep p Hp) as H. apply bool_decide_eq_false in H. congruence.
Qed.

(** What the call passes for the other inputs is the inputs. *)
Lemma called_inputs wanted inputs indices l differs : lift_ok wanted inputs indices l ->
  take (length inputs) (copy_args (lf_inputs l) (lf_params l) differs) = pm_name <$> inputs.
Proof.
  intros Hl. rewrite copy_args_names, (lo_names _ _ _ _ Hl), fmap_app. rewrite take_app_length' by (by rewrite !length_fmap).
  apply list_eq. intros k. rewrite list_lookup_fmap. destruct ((pm_name <$> inputs) !! k) as [n|] eqn:En; [|done]. cbn. f_equal.
  unfold named_arg. destruct (param_named _ _) as [p|] eqn:Ep; [|done]. apply find_some in Ep as [Hp%list_elem_of_In E%bool_decide_eq_true].
  apply (lo_new _ _ _ _ Hl) in Hp. exfalso. apply Hp. rewrite E. by apply list_elem_of_lookup_2 in En.
Qed.

Lemma copy_texts text wanted exclude p window c : copy_of text wanted exclude p window c ->
  tk_text <$> window = imap (fun k w => literal_at (oc_differs c) (Z.of_nat k) (tk_text w)) wanted.
Proof.
  intros [Hl _ _ Hm _ _]. apply list_eq. intros k. rewrite list_lookup_fmap, list_lookup_imap.
  destruct (window !! k) as [u|] eqn:Eu, (wanted !! k) as [t|] eqn:Et; cbn; [|exfalso|exfalso|done].
  - f_equal. by apply (compare_texts _ _ _ _ _ Hm (eq_sym Hl)).
  - apply lookup_lt_Some in Eu. apply lookup_ge_None in Et. lia.
  - apply lookup_lt_Some in Et. apply lookup_ge_None in Eu. lia.
Qed.

(** ** Replacing in a text *)

Definition span_before (x y : span) : Prop := end_ x <= start y.
Definition apart (x y : span) : Prop := span_before x y \/ span_before y x.

Lemma apply_in_order_spans out l r : apply_spans out l = Ok r -> apply_in_order out l = Ok r.
Proof.
  revert out. induction l as [|[a b w] l IH]; intros out; cbn; [done|]. destruct (_ || _) eqn:E; [done|].
  replace ((a <=? b) && (b <=? zlen out)) with true by lia. destruct (replace_range out a b w); [|done]. apply IH.
Qed.

Lemma insert_apart x l : start x < end_ x -> Forall (fun y => start y <= end_ y /\ apart x y) l ->
  StronglySorted (fun a b => span_before b a) l -> StronglySorted (fun a b => span_before b a) (insert_by later_first x l).
Proof.
  intros Hx Ha. unfold apart, span_before in *. induction 1 as [|y l Hs IH Hy]; [repeat constructor|]. inversion_clear Ha as [|?? Hxy Ha'].
  cbn [insert_by]. unfold later_first at 1. destruct (Z.leb_spec (start y) (start x)).
  - constructor; [by constructor|]. constructor; [lia|]. eapply Forall_impl; [exact Hy|]. cbn. lia.
  - constructor; [by apply IH|]. rewrite Forall_forall in Hy |- *. intros z Hz. rewrite insert_by_perm in Hz.
    apply elem_of_cons in Hz as [->|Hz]; [lia|by apply Hy].
Qed.

Lemma sort_apart edits base : (length base <= 1)%nat -> Forall (fun x => start x < end_ x) edits ->
  Forall (fun x => start x <= end_ x) base -> StronglySorted apart (edits ++ base) ->
  StronglySorted (fun a b => span_before b a) (sort_by later_first (edits ++ base)).
Proof.
  intros Hl Hne Hb. induction Hne as [|x edits Hx Hne IH]; cbn [app].
  - intros _. destruct base as [|y [|]]; cbn in Hl; [constructor|repeat constructor|lia].
  - intros Hs. inversion_clear Hs as [|?? Hs' Hxa]. unfold sort_by in *. cbn [foldr]. apply insert_apart; [done| |by apply IH].
    fold (sort_by later_first (edits ++ base)). rewrite sort_by_perm. rewrite Forall_forall in *. intros y Hy. split; [|by apply Hxa].
    apply elem_of_app in Hy as [Hy|Hy]; [specialize (Hne y Hy); cbn in Hne; lia|by apply Hb].
Qed.

Lemma chained_before from text l : StronglySorted span_before l -> Forall (span_ok text) l ->
  Forall (fun x => from <= start x) l -> from <= zlen text -> chained from text l.
Proof.
  intros Hs. revert from. induction Hs as [|x l Hs IH Hx]; intros from Hok Hf Hl; cbn; [done|].
  inversion_clear Hok as [|?? Hokx Hok']. inversion_clear Hf. split_and!; [done|done|]. apply IH; [done|done|unfold span_ok in Hokx; lia].
Qed.

(** Edits that touch no text of each other are made as if at once; at most one of them, the
    last, may insert without replacing. *)
Lemma apply_apart text edits base : utf8_valid text = true -> (length base <= 1)%nat ->
  Forall (fun x => start x < end_ x) edits -> Forall (span_ok text) (edits ++ base) -> StronglySorted apart (edits ++ base) ->
  exists l, l ≡ₚ edits ++ base /\ StronglySorted span_before l /\ apply_edits text (edits ++ base) = Ok (splice 0 text l).
Proof.
  intros Hv Hl Hne Hok Ha. exists (reverse (sort_by later_first (edits ++ base))).
  assert (Hp : reverse (sort_by later_first (edits ++ base)) ≡ₚ edits ++ base) by (by rewrite reverse_Permutation, sort_by_perm).
  assert (Hs : StronglySorted span_before (reverse (sort_by later_first (edits ++ base)))).
  { apply (reverse_sorted (fun a b => span_before b a)), sort_apart; [done|done| |done].
    apply Forall_app in Hok as [_ Hok]. eapply Forall_impl; [exact Hok|]. intros x (Hx & _). lia. }
  split_and!; [done|done|]. unfold apply_edits. apply apply_in_order_spans. rewrite <- (reverse_involutive (sort_by _ _)) at 1.
  rewrite (apply_spans_chained 0); [done|done|done|]. apply chained_before; [done|by rewrite Hp| |apply zlen_nonneg].
  rewrite Hp. eapply Forall_impl; [exact Hok|]. intros x (Hx & _). lia.
Qed.

(** *** The body of the function *)

Lemma placed_lookup text ts i j a b : placed text ts -> (i < j)%nat -> ts !! i = Some a -> ts !! j = Some b -> token_before a b.
Proof.
  intros Hp Hij Ha Hb. rewrite <- (take_drop_middle _ _ _ Hb) in Hp. apply placed_app in Hp as (_ & _ & H). apply H; [|left].
  apply elem_of_take. by exists i.
Qed.

Lemma body_edits_apart text sel_tokens params : placed text sel_tokens -> StronglySorted Z.lt ((fun p => p.1.1) <$> params) ->
  Forall (fun p => 0 <= p.1.1) params -> StronglySorted span_before (omap (body_edit sel_tokens) params).
Proof.
  intros Hp. induction params as [|p params IH]; intros Hs Hn; [constructor|]. cbn in Hs. inversion_clear Hs as [|?? Hs' Hlt].
  inversion_clear Hn as [|?? H0 Hn']. cbn. specialize (IH Hs' Hn'). unfold body_edit at 1. destruct (sel_tokens !! Z.to_nat p.1.1) as [t|] eqn:Et; [|done].
  cbn. constructor; [done|]. rewrite Forall_forall. rewrite Forall_forall in Hlt. rewrite Forall_forall in Hn'. intros x (q & Hq & Ex)%list_elem_of_omap.
  unfold body_edit in Ex. apply fmap_Some in Ex as (u & Eu & ->). unfold span_before. cbn.
  apply (placed_lookup _ _ (Z.to_nat p.1.1) (Z.to_nat q.1.1) _ _ Hp); [|done|done].
  specialize (Hlt q.1.1). rewrite list_elem_of_fmap in Hlt. specialize (Hlt ltac:(by exists q)). lia.
Qed.

Lemma sublist_in {A} (l k : list A) x : sublist l k -> x ∈ l -> x ∈ k.
Proof.
  induction 1 as [|y l k _ IH|y l k _ IH]; [done| |intros H; right; by apply IH].
  intros [->|H]%elem_of_cons; [left|right; by apply IH].
Qed.
Lemma sublist_sorted {A} (R : A -> A -> Prop) (l k : list A) : sublist l k -> StronglySorted R k -> StronglySorted R l.
Proof.
  induction 1 as [|y l k Hs IH|y l k _ IH]; [done| |]; intros H; inversion_clear H as [|?? Hk Hy]; [|by apply IH].
  constructor; [by apply IH|]. rewrite Forall_forall in Hy |- *. intros x Hx. apply Hy. by apply (sublist_in _ _ _ Hs).
Qed.

Lemma sorted_apart l : StronglySorted span_before l -> StronglySorted apart l.
Proof. induction 1 as [|x l _ IH Hx]; constructor; [done|]. eapply Forall_impl; [exact Hx|]. intros y ?. by left. Qed.

Lemma fn_body_ok selection sel_tokens inputs indices l : utf8_valid selection = true -> placed selection sel_tokens ->
  lift_ok sel_tokens inputs indices l -> StronglySorted Z.lt indices -> Forall (Z.le 0) indices ->
  fn_selection_body selection sel_tokens (lf_params l) = Ok (splice 0 selection (omap (body_edit sel_tokens) (lf_params l))).
Proof.
  intros Hv Hp Hl Hs Hn. set (edits := omap (body_edit sel_tokens) (lf_params l)).
  assert (Hok : Forall (fun x => start x < end_ x /\ span_ok selection x) edits).
  { rewrite Forall_forall. intros x (p & Hpin & Ex)%list_elem_of_omap. unfold body_edit in Ex. apply fmap_Some in Ex as (t & Et & ->).
    destruct Hp as [_ Hp]. rewrite Forall_forall in Hp. destruct (Hp t) as (Hlt & Hs1 & He1); [by apply list_elem_of_lookup_2 in Et|].
    pose proof (is_position_range _ _ Hs1). pose proof (is_position_range _ _ He1). cbn. split; [done|].
    split_and!; cbn; [lia|lia|lia|by apply is_position_boundary|by apply is_position_boundary|by apply (lo_valid _ _ _ _ Hl)]. }
  assert (Hsort : StronglySorted span_before edits).
  { apply (body_edits_apart selection); [done|by eapply sublist_sorted; [apply Hl|]|].
    rewrite Forall_forall. intros p Hpin. rewrite Forall_forall in Hn. apply Hn.
    eapply sublist_in; [apply Hl|]. by apply (list_elem_of_fmap_2 (fun p : literal_param => p.1.1)). }
  assert (Hspans : Forall (span_ok selection) edits) by (eapply Forall_impl; [exact Hok|]; by intros x [_ ?]).
  destruct (apply_apart selection edits []) as (k & Hperm & Hk & E); [done|cbn; lia|eapply Forall_impl; [exact Hok|]; by intros x [? _]| | |].
  { by rewrite app_nil_r. }
  { rewrite app_nil_r. by apply sorted_apart. }
  rewrite app_nil_r in E, Hperm. assert (k = edits) as ->.
  { eapply StronglySorted_unique_strong; [|exact Hk|exact Hsort|exact Hperm]. intros x y Hx Hy Hxy Hyx. exfalso.
    rewrite Hperm in Hx. rewrite Forall_forall in Hok. destruct (Hok x Hx) as [? _], (Hok y Hy) as [? _]. unfold span_before in *. lia. }
  unfold fn_selection_body. destruct (lf_params l) eqn:El; [|done]. unfold edits. cbn. by rewrite zdrop_0.
Qed.

(** ** Extraction *)

Lemma tokenize_placed f text lang : utf8_valid text = true ->
  exists ts, tokenize_polyglot f text lang = Some ts /\ placed text ts.
Proof.
  intros Hv. destruct (tokenize_from_ok f lang text (S (length text)) 0 text (goes_on_0 _ Hv)) as (ts & E & Ht); [lia|].
  exists ts. split; [exact E|]. by apply (tiled_placed _ _ _ _ _ Ht).
Qed.

(** A file to look for copies in, with the range that is no copy. *)
Abbreviation searched := (bytes * option (Z * Z))%type.

Lemma find_all f selection wanted p lang (files : list searched) : tokenize_polyglot f selection lang = Some wanted ->
  Forall (fun x => utf8_valid x.1 = true) files ->
  exists copies, mapM (fun x => find_duplicates_in_text f selection x.1 x.2 p lang) files = Some copies
    /\ Forall2 (fun x cs => exists have, tokenize_polyglot f x.1 lang = Some have /\ copies_of x.1 wanted x.2 p have cs) files copies.
Proof.
  intros Hw. induction 1 as [|x files Hx _ (copies & E & IH)]; [exists []; by split|].
  destruct (tokenize_placed f x.1 lang Hx) as (have & Hh & Hp).
  destruct (find_duplicates_ok f selection x.1 x.2 p lang wanted have Hw Hh Hp) as (cs & Ec & Hcs).
  exists (cs :: copies). split; [apply mapM_Some_2; constructor; [exact Ec|by apply mapM_Some_1]|]. constructor; [by exists have|done].
Qed.

(** The literals of the copies of any files. *)
Lemma copies_differ f wanted p lang (files : list searched) copies :
  Forall2 (fun x cs => exists have, tokenize_polyglot f x.1 lang = Some have /\ copies_of x.1 wanted x.2 p have cs) files copies ->
  Forall (fun c => Forall (fun d => 0 <= d.1 /\ p = true) (oc_differs c)) (concat copies).
Proof.
  induction 1 as [|x cs files copies (have & _ & _ & Hc & _) _ IH]; [constructor|]. cbn. apply Forall_app. split; [|done].
  eapply Forall_impl; [exact Hc|]. cbn. intros c (a & w & b & _ & [_ _ _ Hm _ _]). by apply (compare_indices _ _ _ _ _ Hm).
Qed.

Lemma differing_in copies i : i ∈ differing_token_indices copies -> exists c d, c ∈ concat copies /\ d ∈ oc_differs c /\ i = d.1.
Proof.
  unfold differing_token_indices. rewrite dedup_elem, sort_by_perm. intros (c & H & Hc)%list_elem_of_bind.
  apply list_elem_of_fmap in H as (d & -> & Hd). by exists c, d.
Qed.


(** *** The rewritten file *)

Definition call_edits (copies : list PolyOccurrence) (calls : list bytes) : list span :=
  zip_with (fun c call => Span (oc_start c) (oc_end c) call) copies calls.

Lemma call_edits_in copies calls x : x ∈ call_edits copies calls ->
  exists c call, c ∈ copies /\ call ∈ calls /\ x = Span (oc_start c) (oc_end c) call.
Proof.
  revert calls. induction copies as [|c copies IH]; intros [|call calls]; try (by intros ?%not_elem_of_nil).
  intros [->|H]%elem_of_cons; [exists c, call; split_and!; [left|left|done]|].
  destruct (IH calls H) as (c' & call' & ? & ? & ->). exists c', call'. split_and!; [by right|by right|done].
Qed.

Lemma call_edits_sorted copies calls : StronglySorted copy_before copies -> StronglySorted span_before (call_edits copies calls).
Proof.
  intros Hs. revert calls. induction Hs as [|c copies Hs IH Hc]; intros [|call calls]; try constructor; [apply IH|].
  rewrite Forall_forall. rewrite Forall_forall in Hc. intros x (c' & w & Hc' & _ & ->)%call_edits_in. by apply Hc.
Qed.

Lemma copy_position text wanted exclude p have c : placed text have ->
  (exists before window after, have = before ++ window ++ after /\ copy_of text wanted exclude p window c) ->
  oc_start c < oc_end c /\ is_position text (oc_start c) /\ is_position text (oc_end c).
Proof.
  intros Hp (a & w & b & -> & Hc). apply placed_app in Hp as (_ & (Hw & _ & _)%placed_app & _).
  destruct (copy_ends _ _ _ _ _ _ Hc) as (x & y & Hx & Hy & Ex & Ey).
  pose proof (copy_spans _ _ _ _ _ _ x Hw Hc Hx). destruct Hw as [_ Hw]. rewrite Forall_forall in Hw.
  destruct (Hw x Hx) as (? & ? & _), (Hw y Hy) as (_ & _ & ?). rewrite Ex, Ey in *. split_and!; [lia|done|done].
Qed.

Lemma position_span text a b w : is_position text a -> is_position text b -> a <= b -> utf8_valid w = true -> span_ok text (Span a b w).
Proof.
  intros Ha Hb Hle Hw. pose proof (is_position_range _ _ Ha). pose proof (is_position_range _ _ Hb).
  split_and!; cbn; [lia|lia|lia|by apply is_position_boundary|by apply is_position_boundary|done].
Qed.

(** C33: The file is rewritten where it should be and nowhere else.  The copies found are in
    order, do not overlap each other or the selection, and none is missed but for one that
    overlaps a copy found; and with the function put anywhere but inside one of these ranges,
    the new text is the old one with exactly the selection and the copies replaced by their
    calls and the function inserted, the function before what starts at its place. *)
Theorem calls_placed (is_alphanumeric : bytes -> bool) (selection text : bytes) (from to at_ : Z)
    (parameterize : bool) (lang : Language) :
  utf8_valid selection = true -> is_position text from -> is_position text to -> is_position text at_ -> from < to ->
  exists wanted have copies,
    tokenize_polyglot is_alphanumeric selection lang = Some wanted
    /\ tokenize_polyglot is_alphanumeric text lang = Some have
    /\ find_duplicates_in_text is_alphanumeric selection text (Some (from, to)) parameterize lang = Some copies
    /\ copies_of text wanted (Some (from, to)) parameterize have copies
    /\ forall call function calls, Forall (fun s => utf8_valid s = true) (call :: function :: calls) ->
         ~ (from < at_ < to) -> Forall (fun c => ~ (oc_start c < at_ < oc_end c)) copies ->
         let edits := Span from to call :: call_edits copies calls ++ [Span at_ at_ function] in
         exists l, l ≡ₚ edits /\ StronglySorted span_before l /\ apply_edits text edits = Ok (splice 0 text l).
Proof.
  intros Hs Hfrom Hto Hat Hlt. assert (Hv : utf8_valid text = true) by (destruct Hat as (a & b & -> & _ & Ha & Hb); by apply utf8_valid_app).
  destruct (tokenize_placed is_alphanumeric selection lang Hs) as (wanted & Hw & _), (tokenize_placed is_alphanumeric text lang Hv) as (have & Hh & Hp).
  destruct (find_duplicates_ok _ selection text (Some (from, to)) parameterize lang wanted have Hw Hh Hp) as (copies & Hd & Hc).
  exists wanted, have, copies. split_and!; [done..|]. intros call function calls Hval Hin Hout.
  destruct Hc as (Hsort & Hfound & _). inversion_clear Hval as [|?? Hcall Hval']. inversion_clear Hval' as [|?? Hfun Hcalls].
  rewrite Forall_forall in Hfound. rewrite Forall_forall in Hout. rewrite Forall_forall in Hcalls. cbn zeta.
  assert (Hedit : forall x, x ∈ call_edits copies calls -> start x < end_ x /\ span_ok text x /\ apart (Span from to call) x /\ apart x (Span at_ at_ function)).
  { intros x (c & w & Hcin & Hwin & ->)%call_edits_in. destruct (copy_position _ _ _ _ _ _ Hp (Hfound c Hcin)) as (Hlt' & Hcs & Hce).
    destruct (Hfound c Hcin) as (_ & _ & _ & _ & [_ _ _ _ Ho _]). cbn in Ho. specialize (Hout c Hcin). cbn in Hout.
    split_and!; [done|apply position_span; [done|done|lia|by apply Hcalls]| |]; unfold apart, span_before; cbn; lia. }
  apply (apply_apart text (Span from to call :: call_edits copies calls) [Span at_ at_ function] Hv); [done| | |].
  - constructor; [done|]. rewrite Forall_forall. intros x Hx. by apply Hedit.
  - constructor; [apply position_span; [done|done|lia|done]|]. apply Forall_app. split; [rewrite Forall_forall; intros x Hx; by apply Hedit|].
    constructor; [|done]. by apply position_span.
  - cbn [app]. constructor; [|rewrite Forall_app; split; [rewrite Forall_forall; intros x Hx; by apply Hedit|constructor; [|done]]].
    + apply StronglySorted_app. split_and!; [|by apply sorted_apart, call_edits_sorted|repeat constructor].
      intros x y Hx ->%list_elem_of_singleton. by apply Hedit.
    + unfold apart, span_before. cbn. lia.
Qed.

(** ** Examples *)

Module Example.
Definition nl : bytes := [x0a].
Definition text : bytes := B "x = area(w, 2);" ++ nl ++ B "y = area( w, 3 );" ++ nl.
Definition selection : bytes := B "area(w, 2)".
Definition inputs : list ExtractedParam := [MkParam (B "w") None].
End Example.


Lemma calls_placed_witness :
  exists copies, find_duplicates_in_text ascii_alphanumeric Example.selection Example.text (Some (4, 14)) true JavaScript = Some copies
    /\ exists l, l ≡ₚ Span 4 14 (B "f(w, 2)") :: call_edits copies [B "f(w, 3)"] ++ [Span 0 0 (B "function f(w, value) {}")]
         /\ apply_edits Example.text (Span 4 14 (B "f(w, 2)") :: call_edits copies [B "f(w, 3)"] ++ [Span 0 0 (B "function f(w, value) {}")])
            = Ok (splice 0 Example.text l).
Proof.
  assert (Hp : forall i, (i <= 34)%nat -> is_position Example.text (Z.of_nat i)).
  { intros i Hi. exists (take i Example.text), (drop i Example.text). rewrite take_drop. split_and!; [done| | |].
    - unfold zlen. rewrite length_take. change (length Example.text) with 34%nat. lia.
    - apply utf8_valid_ascii, Forall_take. by_decide.
    - apply utf8_valid_ascii, Forall_drop. by_decide. }
  destruct (calls_placed ascii_alphanumeric Example.selection Example.text 4 14 0 true JavaScript)
    as (wanted & have & copies & _ & _ & Hd & (_ & Hf & _) & H);
    [vm_compute; reflexivity|apply (Hp 4%nat); lia|apply (Hp 14%nat); lia|apply (Hp 0%nat); lia|lia|].
  exists copies. split; [done|]. destruct (H (B "f(w, 2)") (B "function f(w, value) {}") [B "f(w, 3)"]) as (l & Hl & _ & E);
    [repeat (constructor; [vm_compute; reflexivity|]); constructor|lia| |exists l; split; [exact Hl|exact E]].
  clear -Hd. vm_compute in Hd. injection Hd as <-. constructor; [cbn; lia|constructor].
Defined.

(** The call for the second line passes its own literal. *)
Lemma second_line_passes_3 :
  option_map (map oc_differs) (find_duplicates_in_text ascii_alphanumeric Example.selection Example.text (Some (4, 14)) true JavaScript)
  = Some [[(4, B "3")]].
Proof. vm_compute. reflexivity. Qed.

(** The name for a literal is compared with the inputs only, so a variable that the selection
    itself declares may have it: the parameter's uses in the body then mean that variable. *)
Theorem literal_name_captured :
  let selection := B "const value = g(); h(value, 1)" in
  let text := selection ++ B "; " ++ B "const value = g(); h(value, 2)" in
  (wanted ← tokenize_polyglot ascii_alphanumeric selection JavaScript;
   copies ← find_duplicates_in_text ascii_alphanumeric selection text (Some (0, zlen selection)) true JavaScript;
   l ← lift_parameters true JavaScript wanted [] [copies];
   Some (fn_selection_body selection wanted (lf_params l))) = Some (Ok (B "const value = g(); h(value, value)")).
Proof. vm_compute. reflexivity. Qed.
