(* ===== verification/PathMap.v ===== *)
(** * Moving paths and URIs between the client's and the node's copy of a workspace

    [path/uri.rs], [path/windows.rs] and [path/translator.rs] of the protocol crate.  A session's
    messages name files under the client's root; the node holds them under its own.  An LSP
    message is translated as JSON: only strings in places that hold a location are mapped, and
    only when they name something under the root at a whole path component.

    The [url] crate is a parameter: encoding a path as a [file:] URL and parsing one.  Slicing a
    [str] inside a character panics, which [rest_under] can do; a panic is [Err tt]. *)

From Stdlib Require Import Strings.Byte.
From S2P Require Import Prelude RustStr Utf8 Json.

(** ** [windows.rs] *)

Definition separator (b : byte) : bool := Byte.eqb b x5c || Byte.eqb b x2f.

Definition is_drive_absolute (p : bytes) : bool :=
  match p with
  | a :: c :: rest =>
      is_ascii_alphabetic a && Byte.eqb c x3a
      && match rest with [] => true | s :: _ => separator s end
  | _ => false
  end.

Definition normalize_root (root : bytes) : bytes := replace_byte x2f [x5c] (trim_end_matches separator root).

(** [eq_ignore_ascii_case] of two characters, or two separators. *)
Definition same_char (a b : bytes) : bool :=
  eq_ignore_ascii_case a b
  || match a, b with [x], [y] => separator x && separator y | _, _ => false end.

Fixpoint zip_all {A : Type} (f : A -> A -> bool) (l k : list A) : bool :=
  match l, k with
  | x :: l', y :: k' => f x y && zip_all f l' k'
  | _, _ => true
  end.

(** [rest_under]; [split_at] panics inside a character. *)
Definition rest_under (root value : bytes) : result (option bytes) unit :=
  if negb (is_drive_absolute value) || (zlen value <? zlen root) then Ok None
  else if negb (is_char_boundary value (zlen root)) then Err tt
  else let head := ztake (zlen root) value in
       let rest := zdrop (zlen root) value in
       Ok (if zip_all same_char (chars head) (chars root)
              && match rest with [] => true | b :: _ => separator b end
           then Some (replace_byte x5c [x2f] rest) else None).

Definition windows_join (root rest : bytes) : bytes := root ++ replace_byte x2f [x5c] rest.

(** [percent_decode]: each escape is three bytes, so the length is fuel enough. *)
Fixpoint percent_decode_loop (fuel : nat) (s : bytes) : bytes :=
  match fuel, s with
  | S fuel', b :: rest =>
      let plain := b :: percent_decode_loop fuel' rest in
      if Byte.eqb b x25 then
        match rest with
        | h :: l :: rest' =>
            match (if utf8_valid [h; l] then from_str_radix 16 255 [h; l] else None) with
            | Some v => byte_of_Z v :: percent_decode_loop fuel' rest'
            | None => plain
            end
        | _ => plain
        end
      else plain
  | _, _ => []
  end.
Definition percent_decode (s : bytes) : bytes := utf8_lossy (percent_decode_loop (length s) s).

(** What [Url::parse] tells of a URL. *)
Record Url := MkUrl {
  scheme : bytes;
  url_path : bytes;
  query : option bytes;
  fragment : option bytes;
  to_file_path : option bytes;
}.

(** One side's workspace root. *)
Record Root := MkRoot { root_path : bytes; root_uri : bytes; windows : bool }.

Section translator.
(** [Url::from_file_path(path).map(String::from)], [Url::parse], and [set_path] on
    [file:///]. *)
Context (from_file_path : bytes -> option bytes) (url_parse : bytes -> option Url)
  (with_path : bytes -> bytes).

(** [uri.rs] *)

Definition file_uri (p : bytes) : bytes := default (B "file://" ++ p) (from_file_path p).

Definition file_uri_path (uri : bytes) : option bytes :=
  url ← url_parse uri;
  if bool_decide (scheme url = B "file") then to_file_path url else None.

(** [trim_start_matches("file://")]. *)
Fixpoint trim_file_scheme (fuel : nat) (s : bytes) : bytes :=
  match fuel with
  | O => s
  | S fuel' => match strip_prefix (B "file://") s with Some r => trim_file_scheme fuel' r | None => s end
  end.

Definition uri_or_path (text : bytes) : bytes :=
  if starts_with (B "file:") text
  then default (trim_file_scheme (length text) text) (file_uri_path text)
  else text.

Definition uri_of (p : bytes) : bytes := with_path (x2f :: replace_byte x5c [x2f] p).

Definition path_of (uri : bytes) : option (bytes * option bytes * option bytes) :=
  url ← url_parse uri;
  if negb (bool_decide (scheme url = B "file")) then None
  else let decoded := percent_decode (url_path url) in
       let p := default decoded (strip_prefix [x2f] decoded) in
       if is_drive_absolute p then Some (replace_byte x2f [x5c] p, query url, fragment url) else None.

(** [translator.rs] *)

Definition slash (b : byte) : bool := Byte.eqb b x2f.

(** [Root::new]. *)
Definition new_root (root : bytes) : Root :=
  if is_drive_absolute root then
    let p := normalize_root root in MkRoot p (uri_of p) true
  else
    let trimmed := trim_end_matches slash root in
    let p := if bool_decide (trimmed = []) && starts_with [x2f] root then [x2f] else trimmed in
    let encoded := file_uri p in
    MkRoot p (if bool_decide (p = [x2f]) then encoded else trim_end_matches slash encoded) false.

Definition usable (r : Root) : bool := windows r || starts_with [x2f] (root_path r).

Definition rest_of_path (r : Root) (value : bytes) : result (option bytes) unit :=
  if negb (usable r) then Ok None
  else if windows r then rest_under (root_path r) value
  else if bool_decide (root_path r = [x2f]) then
    Ok (if starts_with [x2f] value then Some value else None)
  else Ok (rest ← strip_prefix (root_path r) value;
           if bool_decide (rest = []) || starts_with [x2f] rest then Some rest else None).

Definition rest_of_uri (r : Root) (value : bytes) : option bytes :=
  if negb (usable r) then None
  else if bool_decide (root_path r = [x2f]) then
    rest ← strip_prefix (B "file://") value;
    if starts_with [x2f] rest then Some rest else None
  else
    rest ← strip_prefix (root_uri r) value;
    if match rest with [] => true | b :: _ => Byte.eqb b x2f || Byte.eqb b x3f || Byte.eqb b x23 end
    then Some rest else None.

Definition join_path (r : Root) (rest : bytes) : bytes :=
  if windows r then windows_join (root_path r) rest
  else if bool_decide (root_path r = [x2f]) then
    match rest with [] => [x2f] | _ => rest end
  else root_path r ++ rest.

(** Under a result and an option. *)
Definition lift_map {A C : Type} (f : A -> C) (x : result (option A) unit) : result (option C) unit :=
  match x with Ok o => Ok (f <$> o) | Err e => Err e end.

Definition map_path (value : bytes) (from to : Root) : result (option bytes) unit :=
  if negb (usable to) then Ok None
  else lift_map (join_path to) (rest_of_path from value).

(** [value.split(['?', '#']).next()]. *)
Definition without_extras (value : bytes) : bytes :=
  default value (head (split_byte (fun b => Byte.eqb b x3f || Byte.eqb b x23) value)).

Definition map_windows_uri (value : bytes) (from to : Root) : result (option bytes) unit :=
  match (if windows from then path_of value
         else url ← url_parse value;
              if negb (bool_decide (scheme url = B "file")) then None
              else p ← to_file_path url; Some (utf8_lossy p, query url, fragment url)) with
  | None => Ok None
  | Some (p, q, f) =>
      lift_map (fun rest =>
        let target := join_path to rest in
        let uri := if windows to then uri_of target else file_uri target in
        let uri := if ends_with [x2f] (without_extras value) && negb (ends_with [x2f] uri)
                   then uri ++ [x2f] else uri in
        let uri := match q with Some q => uri ++ [x3f] ++ q | None => uri end in
        match f with Some f => uri ++ [x23] ++ f | None => uri end) (rest_of_path from p)
  end.

(** The path below a root, as [Path::strip_prefix] gives it where neither has empty or [.]
    components. *)
Definition strip_root (root p : bytes) : option bytes :=
  if bool_decide (root = [x2f]) then
    if starts_with [x2f] p then Some (trim_start_matches slash p) else None
  else rest ← strip_prefix root p;
       match rest with
       | [] => Some []
       | b :: _ => if slash b then Some (trim_start_matches slash rest) else None
       end.

(** A root encoded another way than this side writes it: the URL is decoded and encoded again. *)
Definition map_decoded_uri (value : bytes) (from to : Root) : option bytes :=
  url ← url_parse value;
  if negb (bool_decide (scheme url = B "file")) then None
  else
    p ← to_file_path url;
    rel ← strip_root (root_path from) p;
    let target := if bool_decide (rel = []) then root_path to
                  else if ends_with [x2f] (root_path to) then root_path to ++ rel
                  else root_path to ++ [x2f] ++ rel in
    mapped ← from_file_path target;
    let mapped := if ends_with [x2f] (url_path url) && negb (ends_with [x2f] mapped)
                  then mapped ++ [x2f] else mapped in
    let mapped := match query url with Some q => mapped ++ [x3f] ++ q | None => mapped end in
    Some (match fragment url with Some f => mapped ++ [x23] ++ f | None => mapped end).

Definition map_uri (value : bytes) (from to : Root) : result (option bytes) unit :=
  if negb (starts_with (B "file:") value) || negb (usable from) || negb (usable to) then Ok None
  else if windows from || windows to then map_windows_uri value from to
  else match rest_of_uri from value with
       | Some rest =>
           Ok (Some (if bool_decide (root_path to = [x2f])
                     then B "file:///" ++ trim_start_matches slash rest
                     else root_uri to ++ rest))
       | None => Ok (map_decoded_uri value from to)
       end.

Definition map_location (value : bytes) (from to : Root) : result (option bytes) unit :=
  if starts_with (B "file:") value then map_uri value from to else map_path value from to.

(** *** LSP payloads *)

(** Fields whose strings are text, never a location. *)
Definition TEXT_FIELDS : list bytes :=
  [B "text"; B "newText"; B "insertText"; B "filterText"; B "sortText"; B "documentation";
   B "contents"; B "value"; B "message"; B "label"; B "detail"; B "title"; B "tooltip"].

Definition is_array (v : Value) : bool := match v with Array _ => true | _ => false end.

(** Whether a member is searched for locations. *)
Definition searched (key : bytes) (item : Value) : bool :=
  negb (bool_decide (key ∈ TEXT_FIELDS)) || (bool_decide (key = B "label") && is_array item).

(** The order of the keys of a [BTreeMap]. *)
Fixpoint bytes_ltb (a b : bytes) : bool :=
  match a, b with
  | [], _ :: _ => true
  | x :: a', y :: b' => (u8 x <? u8 y) || ((u8 x =? u8 y) && bytes_ltb a' b')
  | _, [] => false
  end.

(** [map.insert(key, item)] and [map.remove(&key)]. *)
Fixpoint obj_insert {A : Type} (key : bytes) (item : A) (l : list (bytes * A)) : list (bytes * A) :=
  match l with
  | [] => [(key, item)]
  | (k, x) :: l' =>
      if bool_decide (k = key) then (key, item) :: l'
      else if bytes_ltb key k then (key, item) :: l
      else (k, x) :: obj_insert key item l'
  end.
Definition obj_remove {A : Type} (key : bytes) (l : list (bytes * A)) : list (bytes * A) :=
  filter (fun e => e.1 <> key) l.

(** The [file:] keys a mapper owns, with what they become. *)
Fixpoint uri_keys {A : Type} (mapper : bytes -> result (option bytes) unit) (l : list (bytes * A))
    : result (list (bytes * bytes)) unit :=
  match l with
  | [] => Ok []
  | (k, _) :: l' =>
      if starts_with (B "file:") k then
        match mapper k with
        | Err e => Err e
        | Ok o =>
            match uri_keys mapper l' with
            | Err e => Err e
            | Ok ks => Ok (match o with Some m => (k, m) :: ks | None => ks end)
            end
        end
      else uri_keys mapper l'
  end.

Fixpoint rename_keys {A : Type} (ks : list (bytes * bytes)) (l : list (bytes * A)) (changed : bool)
    : list (bytes * A) * bool :=
  match ks with
  | [] => (l, changed)
  | (k, m) :: ks' =>
      match assoc k l with
      | Some item => rename_keys ks' (obj_insert m item (obj_remove k l)) true
      | None => rename_keys ks' l changed
      end
  end.

(** The results of a list of computations, and whether any changed its value. *)
Fixpoint collect {A : Type} (l : list (result (A * bool) unit)) : result (list A * bool) unit :=
  match l with
  | [] => Ok ([], false)
  | Ok (a, c) :: l' =>
      match collect l' with Ok (r, c') => Ok (a :: r, c || c') | Err e => Err e end
  | Err e :: _ => Err e
  end.

(** [map_lsp_locations]: the value and whether anything changed.  The members are mapped
    before their keys are renamed; the mapper is a function, so the order does not show. *)
Fixpoint map_lsp_locations (mapper : bytes -> result (option bytes) unit) (v : Value)
    : result (Value * bool) unit :=
  match v with
  | String text =>
      match mapper text with
      | Ok (Some mapped) => Ok (String mapped, true)
      | Ok None => Ok (v, false)
      | Err e => Err e
      end
  | Array items =>
      match collect (map (map_lsp_locations mapper) items) with
      | Ok (items, changed) => Ok (Array items, changed)
      | Err e => Err e
      end
  | Object members =>
      let pairs := map (fun e => let '(k, x) := e in (k, (x, map_lsp_locations mapper x))) members in
      match uri_keys mapper pairs with
      | Err e => Err e
      | Ok ks =>
          let '(renamed, moved) := rename_keys ks pairs false in
          match collect (map (fun e => if searched e.1 e.2.1 then
                                         match e.2.2 with
                                         | Ok (x, c) => Ok ((e.1, x), c)
                                         | Err u => Err u
                                         end
                                       else Ok ((e.1, e.2.1), false)) renamed) with
          | Ok (members, changed) => Ok (Object members, moved || changed)
          | Err e => Err e
          end
      end
  | _ => Ok (v, false)
  end.

(** [translate_json] on a parsed payload; [None] passes the text on as it was. *)
Definition translate_value (v : Value) (from to : Root) : result (option Value) unit :=
  match map_lsp_locations (fun text => map_location text from to) v with
  | Ok (v', true) => Ok (Some v')
  | Ok (_, false) => Ok None
  | Err e => Err e
  end.

Record PathTranslator := MkTranslator { client : Root; server : Root }.

Definition new_translator (client_root server_root : bytes) : PathTranslator :=
  MkTranslator (new_root client_root) (new_root server_root).

(** [translate_json]: [from_str] and [to_string] are serde_json's; [None] is its error. *)
Definition translate_json (from_str : bytes -> option Value) (to_string : Value -> bytes)
    (json : bytes) (from to : Root) : result (option bytes) unit :=
  match from_str json with
  | None => Ok None
  | Some v =>
      match translate_value v from to with
      | Ok (Some v') => Ok (Some (to_string v'))
      | Ok None => Ok (Some json)
      | Err e => Err e
      end
  end.

(** [translate_lsp_to_server] and [translate_lsp_to_client]: what is not JSON passes on. *)
Definition translate_lsp (from_str : bytes -> option Value) (to_string : Value -> bytes)
    (json : bytes) (from to : Root) : result bytes unit :=
  match translate_json from_str to_string json from to with
  | Ok o => Ok (default json o)
  | Err e => Err e
  end.

Definition or_same (value : bytes) (x : result (option bytes) unit) : result bytes unit :=
  match x with Ok o => Ok (default value o) | Err e => Err e end.

Definition to_server_path (t : PathTranslator) (p : bytes) := or_same p (map_path p (client t) (server t)).
Definition to_client_path (t : PathTranslator) (p : bytes) := or_same p (map_path p (server t) (client t)).
Definition to_server_uri (t : PathTranslator) (u : bytes) := or_same u (map_uri u (client t) (server t)).
Definition to_client_uri (t : PathTranslator) (u : bytes) := or_same u (map_uri u (server t) (client t)).
End translator.

(** ** Paths and URIs there and back *)

(** What may follow a root at a whole component. *)
Definition path_rest (rest : bytes) : bool := bool_decide (rest = []) || starts_with [x2f] rest.
Definition uri_rest (rest : bytes) : bool :=
  match rest with [] => true | b :: _ => Byte.eqb b x2f || Byte.eqb b x3f || Byte.eqb b x23 end.

(** A POSIX root other than [/], with the URI the [url] crate gives it. *)
Definition posix_root (r : Root) : Prop :=
  windows r = false /\ starts_with [x2f] (root_path r) = true /\ root_path r <> [x2f]
  /\ starts_with (B "file:") (root_uri r) = true.

Section posix.
Context (from_file_path : bytes -> option bytes) (url_parse : bytes -> option Url)
  (with_path : bytes -> bytes).
Context (a b : Root) (Ha : posix_root a) (Hb : posix_root b).

Lemma posix_usable r : posix_root r -> usable r = true.
Proof. intros (_ & H & _). unfold usable. by rewrite H, orb_true_r. Qed.

Lemma rest_of_path_app rest :
  rest_of_path a (root_path a ++ rest) = Ok (if path_rest rest then Some rest else None).
Proof.
  destruct Ha as (Hw & _ & Hn & _). unfold rest_of_path. rewrite posix_usable by done.
  rewrite Hw, bool_decide_eq_false_2 by done. cbn [negb]. by rewrite strip_prefix_app.
Qed.

Lemma rest_of_path_foreign p :
  (forall rest, path_rest rest = true -> p <> root_path a ++ rest) -> rest_of_path a p = Ok None.
Proof.
  intros H. destruct Ha as (Hw & _ & Hn & _). unfold rest_of_path. rewrite posix_usable by done.
  rewrite Hw, bool_decide_eq_false_2 by done. cbn [negb].
  destruct (strip_prefix (root_path a) p) as [rest|] eqn:E; [|done]. apply strip_prefix_Some in E.
  bind_step. fold (path_rest rest). destruct (path_rest rest) eqn:Er; [|done]. by destruct (H rest Er).
Qed.

Lemma map_path_under rest :
  path_rest rest = true -> map_path (root_path a ++ rest) a b = Ok (Some (root_path b ++ rest)).
Proof.
  intros Hr. destruct Hb as (Hw & _ & Hn & _). unfold map_path. rewrite posix_usable by done.
  cbn [negb]. rewrite rest_of_path_app, Hr. cbn [lift_map fmap option_fmap option_map].
  unfold join_path. by rewrite Hw, bool_decide_eq_false_2.
Qed.

Lemma map_uri_under rest :
  uri_rest rest = true ->
  map_uri from_file_path url_parse with_path (root_uri a ++ rest) a b = Ok (Some (root_uri b ++ rest)).
Proof.
  intros Hr. pose proof Ha as (Hw & _ & Hn & Hu). pose proof Hb as (Hw' & _ & Hn' & _).
  unfold map_uri, rest_of_uri. rewrite !posix_usable, Hw, Hw' by done.
  apply starts_with_spec in Hu as [t Ht]. rewrite Ht, <- app_assoc, starts_with_app.
  cbn [negb orb]. rewrite !bool_decide_eq_false_2 by done.
  rewrite app_assoc, strip_prefix_app. bind_step. fold (uri_rest rest). by rewrite Hr.
Qed.
End posix.


(** Roots with a plain encoding. *)
Definition plain_url (p : bytes) : option bytes := Some (B "file://" ++ p).
Definition sample_translator : PathTranslator :=
  new_translator plain_url (fun p => B "file://" ++ p) (B "/home/me/app/") (B "/srv/ws/1").


(** ** Payloads *)

(** The text of a payload: what is under its text fields, in order. *)
Fixpoint text_values (v : Value) : list Value :=
  match v with
  | Array items => concat (map text_values items)
  | Object members =>
      concat (map (fun e => let '(k, x) := e in if searched k x then text_values x else [x]) members)
  | _ => []
  end.

(** The strings a mapper is asked about, keys apart. *)
Fixpoint locations (v : Value) : list bytes :=
  match v with
  | String s => [s]
  | Array items => concat (map locations items)
  | Object members =>
      concat (map (fun e => let '(k, x) := e in if searched k x then locations x else []) members)
  | _ => []
  end.

(** No object of the payload is keyed by URIs. *)
Fixpoint no_uri_keys (v : Value) : bool :=
  match v with
  | Array items => forallb no_uri_keys items
  | Object members =>
      forallb (fun e => let '(k, x) := e in negb (starts_with (B "file:") k) && no_uri_keys x) members
  | _ => true
  end.

(** One member of an object without URI keys. *)
Definition map_member (mapper : bytes -> result (option bytes) unit) (e : bytes * Value)
    : result ((bytes * Value) * bool) unit :=
  if searched e.1 e.2 then
    match map_lsp_locations mapper e.2 with Ok (x, c) => Ok ((e.1, x), c) | Err u => Err u end
  else Ok (e, false).

(** Without URI keys an object is mapped member by member. *)
Lemma map_object mapper members :
  no_uri_keys (Object members) = true ->
  map_lsp_locations mapper (Object members)
  = match collect (map (map_member mapper) members) with
    | Ok (members, changed) => Ok (Object members, changed)
    | Err e => Err e
    end.
Proof.
  intros Hk. cbn [map_lsp_locations].
  set (pairs := map (fun e => let '(k, x) := e in (k, (x, map_lsp_locations mapper x))) members).
  assert (Hu : uri_keys mapper pairs = Ok []).
  { subst pairs. cbn [no_uri_keys] in Hk. clear -Hk. induction members as [|[k x] l IH]; [done|].
    cbn [map forallb uri_keys] in *. apply andb_prop in Hk as [[Hk _]%andb_prop Hl].
    apply negb_true_iff in Hk. rewrite Hk. by apply IH. }
  rewrite Hu. cbn [rename_keys orb]. subst pairs. rewrite map_map.
  replace (map _ members) with (map (map_member mapper) members); [done|].
  apply map_ext. by intros [k x].
Qed.

Lemma map_array mapper v v' c : map_lsp_locations mapper v = Ok (v', c) -> is_array v' = is_array v.
Proof.
  destruct v; cbn [map_lsp_locations]; intros H.
  1-3: by injection H as <- _.
  - destruct (mapper s) as [[m|]|]; [..|done]; by injection H as <- _.
  - destruct (collect _) as [[? ?]|]; [|done]; by injection H as <- _.
  - destruct (uri_keys _ _) as [ks|]; [|done]. destruct (rename_keys _ _ _) as [r m].
    destruct (collect _) as [[? ?]|]; [|done]; by injection H as <- _.
Qed.

(** A searched member stays one. *)
Lemma searched_mapped mapper k x x' c :
  map_lsp_locations mapper x = Ok (x', c) -> searched k x' = searched k x.
Proof. intros H. unfold searched. by rewrite (map_array _ _ _ _ H). Qed.

(** What the elements of a collected list are. *)
Lemma collect_Ok {A : Type} (l : list (result (A * bool) unit)) r c :
  collect l = Ok (r, c) -> Forall2 (fun x a => exists c, x = Ok (a, c)) l r.
Proof.
  revert r c. induction l as [|[[a ca]|[]] l IH]; intros r c H; cbn [collect] in H.
  - injection H as <- _. constructor.
  - destruct (collect l) as [[r' c']|]; [|done]. injection H as <- _.
    constructor; [eauto|]. by eapply IH.
  - done.
Qed.

Lemma map_member_Ok mapper e e' c :
  map_member mapper e = Ok (e', c) ->
  e'.1 = e.1 /\ (if searched e.1 e.2 then exists c', map_lsp_locations mapper e.2 = Ok (e'.2, c')
                 else e'.2 = e.2).
Proof.
  unfold map_member. destruct (searched e.1 e.2).
  - destruct (map_lsp_locations mapper e.2) as [[x cx]|]; [|done]. intros [= <- <-]. simpl. eauto.
  - by intros [= <- <-].
Qed.

(** Whatever is mapped, the text of an LSP payload (source, edits, labels, documentation)
    is passed on exactly as it was written, in every nested object. *)
Theorem texts_untouched (mapper : bytes -> result (option bytes) unit) (v v' : Value) (changed : bool) :
  no_uri_keys v = true -> map_lsp_locations mapper v = Ok (v', changed) ->
  text_values v' = text_values v.
Proof.
  revert v' changed. induction v as [|b|n|s|items IH|members IH] using Value_nested_ind; intros v' c Hk H.
  1-3: by injection H as <- _.
  - cbn [map_lsp_locations] in H. destruct (mapper s) as [[m|]|]; [..|done]; by injection H as <- _.
  - cbn [map_lsp_locations] in H. destruct (collect _) as [[r cr]|] eqn:E; [|done].
    injection H as <- _. cbn [text_values]. f_equal. apply collect_Ok in E.
    cbn [no_uri_keys] in Hk. clear -E IH Hk. revert r E.
    induction items as [|x l IHl]; intros r E; cbn [map] in E; inversion E as [|? y ? r' [c Hy] Hr]; [done|].
    subst. inversion_clear IH as [|?? Hx IHx]. cbn [forallb] in Hk. apply andb_prop in Hk as [Hkx Hk].
    cbn [map]. rewrite (Hx _ _ Hkx Hy). f_equal. by apply IHl.
  - rewrite map_object in H by done. destruct (collect _) as [[r cr]|] eqn:E; [|done].
    injection H as <- _. cbn [text_values]. f_equal. apply collect_Ok in E.
    cbn [no_uri_keys] in Hk. clear -E IH Hk. revert r E.
    induction members as [|[k x] l IHl]; intros r E; cbn [map] in E;
      inversion E as [|? [k' x'] ? r' [c Hy] Hr]; [done|].
    subst. inversion_clear IH as [|?? Hx IHx]. cbn [forallb] in Hk.
    apply andb_prop in Hk as [[_ Hkx]%andb_prop Hk]. apply map_member_Ok in Hy as [E1 E2].
    cbn [fst snd] in *. subst k'. cbn [map]. f_equal; [|by apply IHl].
    destruct (searched k x) eqn:Es.
    + destruct E2 as [c' E2]. rewrite (searched_mapped _ _ _ _ _ E2), Es. by eapply Hx.
    + subst x'. by rewrite Es.
Qed.

Definition didOpen : Value := Object
  [(B "method", String (B "textDocument/didOpen"));
   (B "params", Object [(B "textDocument", Object
      [(B "text", String (B "/home/me/app/x")); (B "uri", String (B "file:///home/me/app/x"))])])].

Lemma texts_untouched_witness :
  exists v', translate_value plain_url (fun _ => None) (fun p => p) didOpen
      (client sample_translator) (server sample_translator) = Ok (Some v')
    /\ text_values v' = [String (B "/home/me/app/x")] /\ v' <> didOpen.
Proof.
  eexists. split; [vm_compute; reflexivity|]. split; [|discriminate].
  apply (texts_untouched (fun text => map_location plain_url (fun _ => None) (fun p => p) text
    (client sample_translator) (server sample_translator)) didOpen _ true); vm_compute; reflexivity.
Defined.

(** *** There and back *)

(** [g] takes back what [f] does to [s]. *)
Definition inverse_at (f g : bytes -> result (option bytes) unit) (s : bytes) : Prop :=
  match f s with
  | Ok (Some s') => g s' = Ok (Some s)
  | Ok None => g s = Ok None
  | Err _ => False
  end.

Lemma locations_member k x l :
  locations (Object ((k, x) :: l)) = (if searched k x then locations x else []) ++ locations (Object l).
Proof. done. Qed.

(** A payload comes back, its keys and the places it can hold a URI in being the same. *)
Lemma map_back f g v :
  no_uri_keys v = true -> Forall (inverse_at f g) (locations v) ->
  exists v' c c', map_lsp_locations f v = Ok (v', c) /\ map_lsp_locations g v' = Ok (v, c')
    /\ no_uri_keys v' = true.
Proof.
  induction v as [|b|n|s|items IH|members IH] using Value_nested_ind; intros Hk Hl.
  1-3: eexists _, _, _; done.
  - cbn [locations] in Hl. inversion_clear Hl as [|?? H _]. unfold inverse_at in H.
    cbn [map_lsp_locations]. destruct (f s) as [[s'|]|] eqn:E; [| |done].
    + eexists (String s'), true, true. cbn [map_lsp_locations]. by rewrite H.
    + eexists (String s), false, false. cbn [map_lsp_locations]. by rewrite H.
  - assert (H : exists r c c', collect (map (map_lsp_locations f) items) = Ok (r, c)
      /\ collect (map (map_lsp_locations g) r) = Ok (items, c') /\ forallb no_uri_keys r = true).
    { cbn [no_uri_keys locations] in *. clear -IH Hk Hl.
      induction IH as [|x l Hx _ IHl]; [by exists [], false, false|].
      cbn [map concat forallb] in *. apply andb_prop in Hk as [Hkx Hk]. apply Forall_app in Hl as [Hlx Hl].
      destruct (Hx Hkx Hlx) as (x' & c & c' & H1 & H2 & H3).
      destruct (IHl Hk Hl) as (r & cr & cr' & H4 & H5 & H6).
      exists (x' :: r), (c || cr), (c' || cr'). cbn [map collect forallb]. by rewrite H1, H2, H3, H4, H5, H6. }
    destruct H as (r & c & c' & H1 & H2 & H3). exists (Array r), c, c'. cbn [map_lsp_locations no_uri_keys].
    by rewrite H1, H2.
  - assert (H : exists r c c', collect (map (map_member f) members) = Ok (r, c)
      /\ collect (map (map_member g) r) = Ok (members, c') /\ no_uri_keys (Object r) = true).
    { clear -IH Hk Hl. induction IH as [|[k x] l Hx _ IHl]; [by exists [], false, false|].
      rewrite locations_member in Hl. apply Forall_app in Hl as [Hlx Hl].
      cbn [no_uri_keys forallb snd] in *. apply andb_prop in Hk as [[Hkk Hkx]%andb_prop Hk].
      destruct (IHl Hk Hl) as (r & cr & cr' & H4 & H5 & H6).
      destruct (searched k x) eqn:Es.
      - destruct (Hx Hkx Hlx) as (x' & c & c' & H1 & H2 & H3).
        exists ((k, x') :: r), (c || cr), (c' || cr'). cbn [map collect forallb].
        unfold map_member at 1 3. cbn [fst snd]. rewrite (searched_mapped _ _ _ _ _ H1), Es, H1, H2, H4, H5.
        by rewrite Hkk, H3, H6.
      - exists ((k, x) :: r), cr, cr'. cbn [map collect forallb].
        unfold map_member at 1 3. cbn [fst snd]. rewrite Es, H4, H5. by rewrite Hkk, Hkx, H6. }
    destruct H as (r & c & c' & H1 & H2 & H3). exists (Object r), c, c'.
    rewrite map_object, H1, map_object, H2 by done. done.
Qed.

Section payload.
Context (from_file_path : bytes -> option bytes) (url_parse : bytes -> option Url)
  (with_path : bytes -> bytes).
Abbreviation location := (map_location from_file_path url_parse with_path).

(** [s] names something under the root, as a path or as the URI this side writes. *)
Definition under_root (r : Root) (s : bytes) : Prop :=
  exists rest, (path_rest rest = true /\ s = root_path r ++ rest)
            \/ (uri_rest rest = true /\ s = root_uri r ++ rest).

Lemma location_under a b s :
  posix_root a -> posix_root b -> under_root a s -> inverse_at (fun x => location x a b) (fun x => location x b a) s.
Proof.
  intros Ha Hb (rest & [[Hr ->]|[Hr ->]]); unfold inverse_at, map_location.
  - assert (Hf : forall r, posix_root r -> starts_with (B "file:") (root_path r ++ rest) = false).
    { intros r (_ & Hs & _). apply starts_with_spec in Hs as [p ->]. done. }
    rewrite Hf by done. rewrite map_path_under by done. rewrite Hf by done. by apply map_path_under.
  - assert (Hf : forall r, posix_root r -> starts_with (B "file:") (root_uri r ++ rest) = true).
    { intros r (_ & _ & _ & Hs). apply starts_with_spec in Hs as [p ->].
      rewrite <- app_assoc. apply starts_with_app. }
    rewrite Hf by done. rewrite map_uri_under by done. rewrite Hf by done. by apply map_uri_under.
Qed.

(** An LSP payload whose locations are under the client's root, or are not workspace
    locations on either side, goes to the node and comes back as it was. *)
Theorem payload_roundtrip (t : PathTranslator) (v : Value) :
  posix_root (client t) -> posix_root (server t) -> no_uri_keys v = true ->
  Forall (fun s => under_root (client t) s
    \/ (location s (client t) (server t) = Ok None /\ location s (server t) (client t) = Ok None))
    (locations v) ->
  exists v' there back,
    map_lsp_locations (fun s => location s (client t) (server t)) v = Ok (v', there)
    /\ map_lsp_locations (fun s => location s (server t) (client t)) v' = Ok (v, back).
Proof.
  intros Hc Hs Hk Hl.
  destruct (map_back (fun s => location s (client t) (server t)) (fun s => location s (server t) (client t)) v)
    as (v' & c & c' & H1 & H2 & _); [done| |by exists v', c, c'].
  eapply Forall_impl; [exact Hl|]. intros s [Hu|[H1 H2]]; [by apply location_under|].
  unfold inverse_at. by rewrite H1.
Qed.
End payload.

Lemma payload_roundtrip_witness :
  exists v' there back,
    map_lsp_locations (fun s => map_location plain_url (fun _ => None) (fun p => p) s
      (client sample_translator) (server sample_translator)) didOpen = Ok (v', there)
    /\ map_lsp_locations (fun s => map_location plain_url (fun _ => None) (fun p => p) s
      (server sample_translator) (client sample_translator)) v' = Ok (didOpen, back).
Proof.
  apply (payload_roundtrip plain_url (fun _ => None) (fun p => p) sample_translator didOpen);
    [by_decide|by_decide|reflexivity|].
  constructor; [right; split; vm_compute; reflexivity|].
  constructor; [|constructor]. left. exists (B "/x"). right. split; reflexivity.
Defined.

(** ** A panic *)

(** A Windows client's root can end inside a character of another path of the message:
    [split_at] then panics, and the translation of the whole message with it. *)
Theorem windows_root_inside_character :
  let t := new_translator plain_url (fun p => B "file://" ++ p) (B "C:" ++ [x5c] ++ B "ab") (B "/srv/ws/1") in
  to_server_path t (B "C:" ++ [x5c] ++ B "a" ++ [xe2; x82; xac] ++ B ".rs") = Err tt
  /\ translate_value plain_url (fun _ => None) (fun p => p)
       (Object [(B "path", String (B "C:" ++ [x5c] ++ B "a" ++ [xe2; x82; xac] ++ B ".rs"))])
       (client t) (server t) = Err tt.
Proof. split; vm_compute; reflexivity. Qed.
