(* ===== verification/RemoteExec.v ===== *)
(** * Remote build and test execution

    [messages/remote_exec] of the protocol crate: a typed request becomes the toolchain's command
    line, and the lines the toolchain prints become diagnostics and test events.
    [serde_json::from_str] is a parameter. *)

From Stdlib Require Import Strings.Byte.
From S2P Require Import Prelude RustStr F64 Json.

(** ** [types.rs] *)

Inductive RemoteExecLanguage := Rust | Go | Cpp | TypeScript | Python | Swift | Generic.

Definition language_as_str (l : RemoteExecLanguage) : bytes :=
  match l with
  | Rust => B "rust"
  | Go => B "go"
  | Cpp => B "cpp"
  | TypeScript => B "typescript"
  | Python => B "python"
  | Swift => B "swift"
  | Generic => B "generic"
  end.

Inductive RemoteExecCommand := CmdCheck | CmdTest | CmdLint | CmdBench | CmdCustom (c : bytes).

Definition command_as_str (c : RemoteExecCommand) : bytes :=
  match c with
  | CmdCheck => B "check"
  | CmdTest => B "test"
  | CmdLint => B "lint"
  | CmdBench => B "bench"
  | CmdCustom s => s
  end.

Inductive RemoteExecFormat := RawFormat | JsonFormat.
#[export] Instance format_eq_decision : EqDecision RemoteExecFormat.
Proof. solve_decision. Defined.

Definition format_as_str (f : RemoteExecFormat) : bytes :=
  match f with RawFormat => B "raw" | JsonFormat => B "json" end.

Record RemoteExecRequest := MkRequest {
  r_client_workspace_root : bytes;
  r_base_workspace_name : option bytes;
  language : RemoteExecLanguage;
  command : RemoteExecCommand;
  args : list bytes;
  r_env : list (bytes * bytes);
  format : RemoteExecFormat;
  r_timeout_secs : Z;
  r_pull_changes : bool;
  r_subdir : option bytes;
  r_client_agent : option bytes;
  r_client_host : option bytes;
}.

(** [messages/exec.rs]. *)
Record ExecRequest := MkExecRequest {
  client_workspace_root : bytes;
  base_workspace_name : option bytes;
  exec_command : list bytes;
  env : list (bytes * bytes);
  timeout_secs : Z;
  pull_changes : bool;
  subdir : option bytes;
  client_agent : option bytes;
  client_host : option bytes;
}.

Record RemoteExecSpan := MkSpan {
  file : bytes;
  line_start : Z;
  line_end : option Z;
  col_start : Z;
  col_end : option Z;
  is_primary : bool;
  label : option bytes;
}.

Record RemoteExecDiagnostic := MkDiagnostic {
  level : bytes;
  code : option bytes;
  message : bytes;
  spans : list RemoteExecSpan;
  rendered : option bytes;
  suggestion : option bytes;
}.

Inductive RemoteExecTestEvent :=
| Started (name : bytes)
| Passed (name : bytes) (duration_ms : option Z)
| Failed (name : bytes) (duration_ms : option Z) (message assertion_diff backtrace output : option bytes)
| Skipped (name : bytes) (reason : option bytes)
| Bench (name estimate : bytes) (range : option bytes).

Definition event_name (e : RemoteExecTestEvent) : bytes :=
  match e with
  | Started name | Passed name _ | Failed name _ _ _ _ _ | Skipped name _ | Bench name _ _ => name
  end.

Inductive RemoteExecStream :=
| Diagnostic (d : RemoteExecDiagnostic)
| TestEvent (e : RemoteExecTestEvent).

(** ** [argv.rs] *)

(** An argument only the JSON format has. *)
Definition when_json (f : RemoteExecFormat) (arg : list bytes) : list bytes :=
  if decide (f = JsonFormat) then arg else [].

(** The toolchain's part of the command line. *)
Definition base_argv (req : RemoteExecRequest) : list bytes :=
  let json := when_json (format req) in
  match language req, command req with
  | Rust, CmdCheck =>
      [B "cargo"; B "check"; B "--workspace"; B "--all-targets"] ++ json [B "--message-format=json"]
  | Rust, CmdTest => [B "cargo"; B "test"; B "--workspace"] ++ json [B "--message-format=json"]
  | Rust, CmdLint =>
      [B "cargo"; B "clippy"; B "--workspace"; B "--all-targets"] ++ json [B "--message-format=json"]
  | Rust, CmdBench => [B "cargo"; B "bench"; B "--workspace"] ++ json [B "--message-format=json"]
  | Go, CmdCheck => [B "go"; B "vet"; B "./..."]
  | Go, CmdTest =>
      [B "go"; B "test"] ++ (if decide (format req = JsonFormat) then [B "-json"] else [B "-v"])
      ++ [B "./..."]
  | Go, CmdLint => [B "golangci-lint"; B "run"] ++ json [B "--out-format=json"]
  | Go, CmdBench => [B "go"; B "test"; B "-run=^$"; B "-bench=."; B "./..."]
  | TypeScript, CmdCheck => [B "npx"; B "--no-install"; B "tsc"; B "--noEmit"]
  | TypeScript, CmdTest =>
      [B "npx"; B "--no-install"; B "vitest"; B "run"] ++ json [B "--reporter=json"]
  | TypeScript, CmdLint =>
      [B "npx"; B "--no-install"; B "eslint"; B "."] ++ json [B "--format=json"]
  | TypeScript, CmdBench => [B "npx"; B "--no-install"; B "vitest"; B "bench"; B "run"]
  | Python, CmdCheck =>
      [B "python3"; B "-m"; B "compileall"; B "-q"]
      ++ (if bool_decide (args req = []) then [B "."] else [])
  | Python, CmdTest => [B "pytest"] ++ json [B "--json-report"]
  | Python, CmdLint => [B "ruff"; B "check"; B "."] ++ json [B "--output-format=json"]
  | Python, CmdBench => [B "pytest"; B "--benchmark-only"]
  | Cpp, CmdCheck => [B "ninja"; B "-k"; B "0"]
  | Cpp, CmdTest => [B "ctest"; B "--output-on-failure"]
  | Cpp, CmdLint => [B "clang-tidy"; B "-p"; B "build"]
  | Cpp, CmdBench => [B "ninja"; B "bench"]
  | Swift, CmdCheck => [B "swift"; B "build"]
  | Swift, CmdTest => [B "swift"; B "test"]
  | Swift, CmdLint => [B "swiftlint"] ++ json [B "--reporter"; B "json"]
  | Swift, CmdBench => [B "swift"; B "run"; B "-c"; B "release"; B "bench"]
  | _, CmdCustom c => split_whitespace c
  | Generic, cmd => [command_as_str cmd]
  end.

Definition build_argv (req : RemoteExecRequest) : list bytes := base_argv req ++ args req.

Definition into_exec_request (req : RemoteExecRequest) : ExecRequest :=
  MkExecRequest (r_client_workspace_root req) (r_base_workspace_name req) (build_argv req)
    (r_env req) (r_timeout_secs req) (r_pull_changes req) (r_subdir req) (r_client_agent req)
    (r_client_host req).

(** [RemoteExecResult::ok] on its exit code, timeout and error. *)
Definition result_ok (exit_code : option Z) (timed_out : bool) (error : option bytes) : bool :=
  bool_decide (exit_code = Some 0) && negb timed_out && bool_decide (error = None).

(** ** Durations *)

(** [value.as_f64()]. *)
Definition as_f64 (v : Value) : option f64 :=
  match v with
  | Number (PosInt n) | Number (NegInt n) => Some (of_Z n)
  | Number (Float text) => parse_f64 text
  | _ => None
  end.

(** [(s * 1000.0) as u64]. *)
Definition to_ms (s : f64) : Z := to_uint u64_max (fmul s (of_Z 1000)).

Section parsers.
(** [serde_json::from_str(_).ok()]. *)
Context (from_str : bytes -> option Value).

(** ** [go.rs] *)

Definition parse_go_raw_test_suffix (rest : bytes) : bytes * option Z :=
  let rest := trim rest in
  match rsplit_once (B " (") rest with
  | Some (name, dur_part) =>
      let text := match strip_suffix (B "s)") dur_part with
                  | Some s => Some s
                  | None => strip_suffix (B ")") dur_part
                  end in
      (trim name, to_ms <$> (text ≫= (fun s => parse_f64 (trim s))))
  | None => (rest, None)
  end.

Definition failed_event (name : bytes) (ms : option Z) (output : option bytes) : RemoteExecTestEvent :=
  Failed name ms None None None output.

(** A line of [go test -json]. *)
Definition go_json_event (value : Value) : option RemoteExecStream :=
  action ← get_str value (B "Action");
  test ← get_str value (B "Test");
  let pkg := default [] (get_str value (B "Package")) in
  let name := if bool_decide (pkg = []) then test else pkg ++ B "." ++ test in
  let duration_ms := to_ms <$> (get value (B "Elapsed") ≫= as_f64) in
  if bool_decide (action = B "run") then Some (TestEvent (Started name))
  else if bool_decide (action = B "pass") then Some (TestEvent (Passed name duration_ms))
  else if bool_decide (action = B "fail") then Some (TestEvent (failed_event name duration_ms None))
  else if bool_decide (action = B "skip") then Some (TestEvent (Skipped name None))
  else None.

(** A line of plain [go test]. *)
Definition go_text_event (trimmed : bytes) : option RemoteExecStream :=
  match strip_prefix (B "=== RUN") trimmed with
  | Some rest =>
      let name := trim rest in
      if bool_decide (name = []) then None else Some (TestEvent (Started name))
  | None =>
  match strip_prefix (B "--- PASS:") trimmed with
  | Some rest => let '(name, ms) := parse_go_raw_test_suffix rest in Some (TestEvent (Passed name ms))
  | None =>
  match strip_prefix (B "--- FAIL:") trimmed with
  | Some rest => let '(name, ms) := parse_go_raw_test_suffix rest in Some (TestEvent (failed_event name ms None))
  | None =>
  match strip_prefix (B "--- SKIP:") trimmed with
  | Some rest => let '(name, _) := parse_go_raw_test_suffix rest in Some (TestEvent (Skipped name None))
  | None =>
  match strip_prefix (B "--- BENCH:") trimmed with
  | Some rest => let '(name, _) := parse_go_raw_test_suffix rest in Some (TestEvent (Bench name (B "bench") None))
  | None => None
  end end end end end.

Definition parse_go_test_json_event (line : bytes) : option RemoteExecStream :=
  let trimmed := trim line in
  if bool_decide (trimmed = []) then None
  else match (if starts_with (B "{") trimmed then from_str trimmed else None) with
       | Some value => go_json_event value
       | None => go_text_event trimmed
       end.

(** ** [cargo.rs] *)

(** [n as u32]. *)
Definition as_u32 (n : Z) : Z := n `mod` 2 ^ 32.

Definition cargo_span (s : Value) : option RemoteExecSpan :=
  file ← get_str s (B "file_name");
  Some (MkSpan file
    (as_u32 (default 0 (get s (B "line_start") ≫= as_u64)))
    (as_u32 <$> (get s (B "line_end") ≫= as_u64))
    (as_u32 (default 0 (get s (B "column_start") ≫= as_u64)))
    (as_u32 <$> (get s (B "column_end") ≫= as_u64))
    (default false (get s (B "is_primary") ≫= as_bool))
    (get_str s (B "label"))).

Definition cargo_diagnostic (msg : Value) : RemoteExecDiagnostic :=
  MkDiagnostic (default (B "error") (get_str msg (B "level")))
    (get msg (B "code") ≫= (fun c => get_str c (B "code")))
    (default [] (get_str msg (B "message")))
    (omap cargo_span (default [] (get msg (B "spans") ≫= as_array)))
    (get_str msg (B "rendered"))
    None.

(** A JSON record of the test runner. *)
Definition cargo_test_record (value : Value) : option RemoteExecStream :=
  let event := default [] (get_str value (B "event")) in
  let name := default [] (get_str value (B "name")) in
  let duration_ms := to_ms <$> (get value (B "exec_time") ≫= as_f64) in
  if bool_decide (event = B "started") then Some (TestEvent (Started name))
  else if bool_decide (event = B "ok") then Some (TestEvent (Passed name duration_ms))
  else if bool_decide (event = B "failed")
  then Some (TestEvent (failed_event name duration_ms (get_str value (B "stdout"))))
  else if bool_decide (event = B "ignored") then Some (TestEvent (Skipped name None))
  else if bool_decide (event = B "bench") then
    Some (TestEvent (Bench name
      (fmt_fixed 2 (default fzero (get value (B "median") ≫= as_f64)) ++ B " ns/iter") None))
  else None.

Definition cargo_json_event (value : Value) : option RemoteExecStream :=
  match (if bool_decide (get_str value (B "reason") = Some (B "compiler-message"))
         then get value (B "message") else None) with
  | Some msg => Some (Diagnostic (cargo_diagnostic msg))
  | None =>
      if bool_decide (get_str value (B "type") = Some (B "test")) then cargo_test_record value else None
  end.

(** [outcome == word || outcome.starts_with("word ")]. *)
Definition outcome_is (word outcome : bytes) : bool :=
  bool_decide (outcome = word) || starts_with (word ++ B " ") outcome.

(** The time of a passed test, in parentheses. *)
Definition ok_duration (outcome : bytes) : option Z :=
  opening ← find_sub (B "(") outcome;
  closing ← find_sub (B "s") (zdrop opening outcome);
  to_ms <$> parse_f64 (trim (slice (opening + 1) (opening + closing) outcome)).

(** A line [test <name> ... <outcome>] of the test runner. *)
Definition cargo_text_event (trimmed : bytes) : option RemoteExecStream :=
  rest ← strip_prefix (B "test ") trimmed;
  if starts_with (B "result:") rest then None
  else
    '(name, outcome_part) ← rsplit_once (B " ... ") rest;
    let test_name := trim name in
    let outcome := trim outcome_part in
    if outcome_is (B "ok") outcome then Some (TestEvent (Passed test_name (ok_duration outcome)))
    else if outcome_is (B "FAILED") outcome then Some (TestEvent (failed_event test_name None None))
    else if outcome_is (B "ignored") outcome then Some (TestEvent (Skipped test_name None))
    else match strip_prefix (B "bench:") outcome with
         | Some bench_str => Some (TestEvent (Bench test_name (trim bench_str) None))
         | None => None
         end.

Definition parse_cargo_json_event (line : bytes) : option RemoteExecStream :=
  let trimmed := trim line in
  match (if starts_with (B "{") trimmed then from_str trimmed else None) ≫= cargo_json_event with
  | Some event => Some event
  | None => cargo_text_event trimmed
  end.
End parsers.

(** ** Command lines *)

(** The toolchain's command line comes first and the caller's arguments follow it as they
    are, last; a command of a known toolchain never has an empty line, and asking for JSON only
    ever adds the tool's flag (or, for [go test], replaces its verbose one). *)
Theorem build_argv_extends (req : RemoteExecRequest) :
  (exists base, build_argv req = base ++ args req)
  /\ ((forall c, command req <> CmdCustom c) -> build_argv req <> [])
  /\ (language req <> Go -> forall raw,
       raw = MkRequest (r_client_workspace_root req) (r_base_workspace_name req) (language req)
               (command req) (args req) (r_env req) RawFormat (r_timeout_secs req)
               (r_pull_changes req) (r_subdir req) (r_client_agent req) (r_client_host req) ->
       base_argv raw `prefix_of` base_argv req).
Proof.
  split_and!.
  - unfold build_argv. eauto.
  - intros Hc. unfold build_argv, base_argv, when_json.
    destruct (language req), (command req); try (by destruct (Hc c)); cbn; try done;
      repeat case_decide; done.
  - intros Hgo raw ->. unfold base_argv, when_json. cbn [language command format args].
    destruct (language req), (command req); try done; destruct (format req); cbn;
      try done; try (eexists; reflexivity); by exists [].
Qed.

(** A request in JSON for the Python linter. *)
Lemma build_argv_extends_witness :
  let req := MkRequest (B "/w") None Python CmdLint [B "src"] [] JsonFormat 60 false None None None in
  build_argv req = [B "ruff"; B "check"; B "."; B "--output-format=json"; B "src"]
  /\ build_argv req <> [].
Proof.
  split; [reflexivity|].
  apply (build_argv_extends (MkRequest (B "/w") None Python CmdLint [B "src"] [] JsonFormat 60 false None None None)).
  discriminate.
Defined.

(** ** Lines of the test runner *)

Section text_lines.
Context (from_str : bytes -> option Value).

(** A line of the form [test <name> ... <outcome>]. *)
Definition test_line (name outcome : bytes) : bytes := B "test " ++ name ++ B " ... " ++ outcome.

Lemma test_line_event name outcome a z :
  graphic name -> name <> [] -> starts_with (B "result:") name = false ->
  outcome = a ++ [z] -> is_ascii_graphic z = true ->
  find_sub (reverse (B " ... ")) (reverse (name ++ B " ... " ++ outcome)) = Some (zlen outcome) ->
  parse_cargo_json_event from_str (test_line name outcome)
  = (let o := trim outcome in
     if outcome_is (B "ok") o then Some (TestEvent (Passed name (ok_duration o)))
     else if outcome_is (B "FAILED") o then Some (TestEvent (failed_event name None None))
     else if outcome_is (B "ignored") o then Some (TestEvent (Skipped name None))
     else match strip_prefix (B "bench:") o with
          | Some bench_str => Some (TestEvent (Bench name (trim bench_str) None))
          | None => None
          end).
Proof.
  intros Hn Hne Hres Ho Hz Hf. unfold parse_cargo_json_event.
  assert (Ht : trim (test_line name outcome) = test_line name outcome).
  { unfold trim, test_line. change (B "test ") with (x74 :: B "est ").
    cbn [app]. rewrite trim_start_graphic by done.
    rewrite Ho, !app_assoc. change (x74 :: ((?x ++ ?y))) with ((x74 :: x) ++ y).
    by apply trim_end_graphic. }
  rewrite Ht. change (starts_with (B "{") (test_line name outcome)) with false. bind_step.
  unfold cargo_text_event, test_line. rewrite strip_prefix_app. bind_step.
  replace (starts_with (B "result:") (name ++ B " ... " ++ outcome)) with false.
  - rewrite rsplit_once_find by done. bind_step. by rewrite (trim_word name) by done.
  - symmetry. change (B " ... ") with (x20 :: B "... "). cbn [app].
    rewrite starts_with_stop; [done|]. by_decide.
Qed.

(** The lines the Rust test runner prints for a passed, a failed and an ignored test are
    read as the event they report, with the test's name. *)
Theorem libtest_lines_read (name : bytes) :
  graphic name -> name <> [] -> starts_with (B "result:") name = false ->
  parse_cargo_json_event from_str (test_line name (B "ok")) = Some (TestEvent (Passed name None))
  /\ parse_cargo_json_event from_str (test_line name (B "FAILED"))
     = Some (TestEvent (Failed name None None None None None))
  /\ parse_cargo_json_event from_str (test_line name (B "ignored"))
     = Some (TestEvent (Skipped name None)).
Proof.
  intros Hn Hne Hres.
  assert (Hf : forall o, x20 ∉ o ->
    find_sub (reverse (B " ... ")) (reverse (name ++ B " ... " ++ o)) = Some (zlen o)).
  { intros o Ho. rewrite !reverse_app, <- app_assoc.
    change (reverse (B " ... ")) with (x20 :: B "... ") at 1.
    rewrite find_sub_skip by (by rewrite elem_of_reverse).
    change (x20 :: B "... ") with (reverse (B " ... ")). rewrite find_sub_here.
    cbn. by rewrite Z.add_0_r, zlen_reverse. }
  split_and!.
  - rewrite (test_line_event name (B "ok") (B "o") x6b); [reflexivity|done..|]. apply Hf. by_decide.
  - rewrite (test_line_event name (B "FAILED") (B "FAILE") x44); [reflexivity|done..|]. apply Hf. by_decide.
  - rewrite (test_line_event name (B "ignored") (B "ignore") x64); [reflexivity|done..|]. apply Hf. by_decide.
Qed.

(** A test ignored with a reason, which the runner prints after a comma, is not reported at
    all: neither as skipped nor as anything else. *)
Theorem ignored_with_reason_lost (name reason : bytes) :
  graphic name -> name <> [] -> starts_with (B "result:") name = false ->
  graphic reason -> reason <> [] ->
  parse_cargo_json_event from_str (test_line name (B "ignored, " ++ reason)) = None.
Proof.
  intros Hn Hne Hres Hr Hrne. destruct (exists_last Hrne) as (r & z & Er).
  assert (Hz : is_ascii_graphic z = true).
  { rewrite Er in Hr. apply graphic_app in Hr as [_ Hr]. by apply graphic_cons in Hr as [? _]. }
  assert (Hsp : x20 ∉ reason).
  { intros Hin. unfold graphic in Hr. rewrite Forall_forall in Hr. by apply Hr in Hin. }
  rewrite (test_line_event name (B "ignored, " ++ reason) (B "ignored, " ++ r) z).
  - assert (Ht : trim (B "ignored, " ++ reason) = B "ignored, " ++ reason).
    { unfold trim. change (B "ignored, ") with (x69 :: B "gnored, "). cbn [app].
      rewrite trim_start_graphic by done. rewrite Er, !app_assoc.
      change (x69 :: (?x ++ ?y)) with ((x69 :: x) ++ y). by apply trim_end_graphic. }
    cbv zeta. rewrite Ht. reflexivity.
  - done.
  - done.
  - done.
  - by rewrite Er, app_assoc.
  - done.
  - rewrite !reverse_app, <- !app_assoc.
    change (reverse (B " ... ")) with (x20 :: B "... ") at 1.
    rewrite find_sub_skip by (by rewrite elem_of_reverse).
    change (reverse (B "ignored, ")) with (B " ,derongi").
    assert (Hc : forall s, find_sub (x20 :: B "... ") (B " ,derongi" ++ (x20 :: B "... ") ++ s) = Some 9).
    { intros s. reflexivity. }
    change (reverse (B " ... ")) with (x20 :: B "... "). rewrite Hc.
    cbn [fmap option_fmap option_map]. rewrite zlen_app, zlen_reverse.
    change (zlen (B "ignored, ")) with 9. f_equal. lia.
Qed.
End text_lines.

Lemma libtest_lines_read_witness :
  parse_cargo_json_event (fun _ => None) (B "test codec::reads ... ok")
  = Some (TestEvent (Passed (B "codec::reads") None)).
Proof. apply (libtest_lines_read (fun _ => None) (B "codec::reads")); by_decide. Defined.

Lemma ignored_with_reason_lost_witness :
  parse_cargo_json_event (fun _ => None) (B "test codec::slow ... ignored, flaky") = None.
Proof. apply (ignored_with_reason_lost (fun _ => None) (B "codec::slow") (B "flaky")); by_decide. Defined.
