(* ===== verification/Sync.v ===== *)
(** * File transfer (crates/prod-code-protocol/src/messages/sync.rs)

    The messages that carry a client's files to the gateway, the base64 text file contents
    travel as, and the FNV-1a hash both sides compare files by. *)

From Stdlib Require Import Strings.Byte.
From S2P Require Import Prelude RustStr.

(** ** Messages *)

Record FileDelta := mkDelta {
  relative_path : bytes;
  content : option bytes;
  is_executable : bool
}.

Record SyncSymlink := mkSymlink { link_path : bytes; link_target : bytes }.

Record SyncRequest := mkSyncRequest {
  client_workspace_root : bytes;
  files : list FileDelta;
  symlinks : option (list SyncSymlink);
  clean_others : bool;
  base_workspace_name : option bytes
}.

Record SyncResponse := mkSyncResponse {
  files_updated : Z;
  files_deleted : Z;
  bytes_transferred : Z;
  duration_ms : Z;
  server_workspace_root : bytes;
  workspace_was_fresh : bool;
  stale_paths : list bytes
}.

Record FileStamp := mkStamp {
  stamp_path : bytes;
  size : Z;
  hash : Z;
  stamp_executable : option bool
}.

Record SyncProbeRequest := mkProbeRequest {
  probe_workspace_root : bytes;
  probe_base_name : option bytes;
  seed_from : option bytes;
  probe_files : list FileStamp
}.

Record SyncProbeResponse := mkProbeResponse {
  probe_server_root : bytes;
  seeded : bool;
  probe_files_deleted : Z;
  missing : list bytes
}.

(** ** [content_hash] *)

(** FNV-1a on [u64]. *)
Definition content_hash (s : bytes) : Z :=
  foldl (fun hash b => (Z.lxor hash (u8 b) * 0x100000001b3) `mod` 2 ^ 64) 0xcbf29ce484222325 s.

(** ** base64 *)

Definition TABLE : bytes :=
  B "ABCDEFGHIJKLMNOPQRSTUVWXYZabcdefghijklmnopqrstuvwxyz0123456789+/".
Definition table_at (i : Z) : byte := at_ TABLE i.
Definition pad_char : byte := x3d.

(** One chunk of one to three bytes. *)
Definition encode_chunk (chunk : bytes) : bytes :=
  let b0 := u8 (at_ chunk 0) in
  let b1 := if 1 <? zlen chunk then u8 (at_ chunk 1) else 0 in
  let b2 := if 2 <? zlen chunk then u8 (at_ chunk 2) else 0 in
  let n := Z.lor (Z.lor (Z.shiftl b0 16) (Z.shiftl b1 8)) b2 in
  [table_at (Z.land (Z.shiftr n 18) 63); table_at (Z.land (Z.shiftr n 12) 63);
   if 1 <? zlen chunk then table_at (Z.land (Z.shiftr n 6) 63) else pad_char;
   if 2 <? zlen chunk then table_at (Z.land n 63) else pad_char].

Fixpoint encode (s : bytes) : bytes :=
  match s with
  | [] => []
  | [b0] => encode_chunk [b0]
  | [b0; b1] => encode_chunk [b0; b1]
  | b0 :: b1 :: b2 :: rest => encode_chunk [b0; b1; b2] ++ encode rest
  end.

Definition value (c : byte) : option Z :=
  if is_ascii_uppercase c then Some (u8 c - 65)
  else if is_ascii_lowercase c then Some (u8 c - 97 + 26)
  else if is_ascii_digit c then Some (u8 c - 48 + 52)
  else if Byte.eqb c x2b then Some 62
  else if Byte.eqb c x2f then Some 63
  else None.

Inductive Base64Error := LengthNotMultipleOf4 | InvalidPadding | InvalidCharacter (c : byte).

(** [chunk.iter().rev().take_while(|c| **c == b'=').count()]. *)
Fixpoint leading_pads (s : bytes) : Z :=
  match s with c :: r => if Byte.eqb c pad_char then 1 + leading_pads r else 0 | [] => 0 end.

(** The value of the chunk's characters from index [i] on. *)
Fixpoint chunk_value (i pad n : Z) (chunk : bytes) : result Z Base64Error :=
  match chunk with
  | [] => Ok n
  | c :: rest =>
      match (if 4 - pad <=? i then Some 0 else value c) with
      | Some v => chunk_value (i + 1) pad (Z.lor (Z.shiftl n 6 `mod` 2 ^ 32) v) rest
      | None => Err (InvalidCharacter c)
      end
  end.

Definition decode_chunk (chunk : bytes) : result bytes Base64Error :=
  let pad := leading_pads (reverse chunk) in
  if (2 <? pad) || ((0 <? pad) && bool_decide (pad_char ∈ ztake (4 - pad) chunk)) then
    Err InvalidPadding
  else
    match chunk_value 0 pad 0 chunk with
    | Err e => Err e
    | Ok n =>
        Ok (byte_of_Z (Z.shiftr n 16)
            :: (if pad <? 2 then [byte_of_Z (Z.shiftr n 8)] else [])
            ++ (if pad <? 1 then [byte_of_Z n] else []))
    end.

Fixpoint decode_chunks (s : bytes) : result bytes Base64Error :=
  match s with
  | c0 :: c1 :: c2 :: c3 :: rest =>
      match decode_chunk [c0; c1; c2; c3] with
      | Ok out => match decode_chunks rest with Ok more => Ok (out ++ more) | Err e => Err e end
      | Err e => Err e
      end
  | _ => Ok []
  end.

Definition decode (text : bytes) : result bytes Base64Error :=
  if negb (zlen text `mod` 4 =? 0) then Err LengthNotMultipleOf4 else decode_chunks text.

(** ** Bits *)

Lemma lor_shiftl_add a b k : 0 <= k -> 0 <= b < 2 ^ k -> Z.lor (Z.shiftl a k) b = a * 2 ^ k + b.
Proof.
  intros Hk Hb. rewrite <- Z.shiftl_mul_pow2 by done.
  assert (H0 : Z.land (Z.shiftl a k) b = 0).
  { apply Z.bits_inj'. intros i Hi. rewrite Z.land_spec, Z.bits_0.
    destruct (Z.lt_ge_cases i k).
    - by rewrite Z.shiftl_spec_low.
    - destruct (Z.eq_dec b 0) as [->|]; [by rewrite Z.bits_0, andb_false_r|].
      assert (Hlog : Z.log2 b < i).
      { apply Z.log2_lt_pow2; [lia|].
        eapply Z.lt_le_trans; [apply Hb|]. apply Z.pow_le_mono_r; lia. }
      rewrite (Z.bits_above_log2 b) by (done || lia).
      apply andb_false_r. }
  rewrite <- Z.lxor_lor by done. symmetry. by apply Z.add_nocarry_lxor.
Qed.

Lemma land_63 n : Z.land n 63 = n `mod` 64.
Proof. change 63 with (Z.ones 6). by rewrite Z.land_ones. Qed.

Lemma value_table i : 0 <= i < 64 -> value (table_at i) = Some i /\ table_at i <> pad_char.
Proof.
  intros Hi.
  assert (Hall : forallb (fun k => bool_decide (value (table_at (Z.of_nat k)) = Some (Z.of_nat k)
    /\ table_at (Z.of_nat k) <> pad_char)) (seq 0 64) = true) by (vm_compute; reflexivity).
  rewrite forallb_forall in Hall. specialize (Hall (Z.to_nat i)).
  rewrite in_seq, Z2Nat.id in Hall by lia. eapply bool_decide_eq_true_1, Hall. lia.
Qed.

(** Four sextets of a 24-bit value. *)
Definition sextet (n k : Z) : Z := n `div` 2 ^ (6 * k) `mod` 64.

Lemma sextet_range n k : 0 <= sextet n k < 64.
Proof. apply Z.mod_pos_bound. lia. Qed.

Lemma chunk_bits b0 b1 b2 :
  Z.lor (Z.lor (Z.shiftl (u8 b0) 16) (Z.shiftl (u8 b1) 8)) (u8 b2)
  = u8 b0 * 65536 + u8 b1 * 256 + u8 b2.
Proof.
  pose proof (u8_range b0). pose proof (u8_range b1). pose proof (u8_range b2).
  rewrite <- Z.lor_assoc, (lor_shiftl_add (u8 b1)) by lia.
  rewrite lor_shiftl_add by lia. lia.
Qed.

Lemma push_sextet n v :
  0 <= n < 2 ^ 18 -> 0 <= v < 64 -> Z.lor (Z.shiftl n 6 `mod` 2 ^ 32) v = n * 64 + v.
Proof.
  intros Hn Hv. rewrite Z.mod_small.
  - rewrite lor_shiftl_add; [done|done|]. simpl. lia.
  - rewrite Z.shiftl_mul_pow2 by done. simpl in *. lia.
Qed.

Lemma sextets_value n :
  0 <= n < 2 ^ 24 -> ((sextet n 3 * 64 + sextet n 2) * 64 + sextet n 1) * 64 + sextet n 0 = n.
Proof.
  intros Hn. unfold sextet. simpl (2 ^ (6 * _)). simpl in Hn.
  change (2 ^ 18) with 262144. change (2 ^ 12) with 4096. change (2 ^ 6) with 64.
  change (2 ^ 0) with 1. Z.to_euclidean_division_equations. lia.
Qed.

(** The characters of a chunk of [len] bytes with bits [n]. *)
Lemma encode_chunk_sextets chunk n :
  n = Z.lor (Z.lor (Z.shiftl (u8 (at_ chunk 0)) 16)
        (Z.shiftl (if 1 <? zlen chunk then u8 (at_ chunk 1) else 0) 8))
        (if 2 <? zlen chunk then u8 (at_ chunk 2) else 0) ->
  0 <= n ->
  encode_chunk chunk
  = [table_at (sextet n 3); table_at (sextet n 2);
     if 1 <? zlen chunk then table_at (sextet n 1) else pad_char;
     if 2 <? zlen chunk then table_at (sextet n 0) else pad_char].
Proof.
  intros Hn H0. unfold encode_chunk. rewrite <- Hn, !land_63, !Z.shiftr_div_pow2 by done.
  unfold sextet. change (2 ^ (6 * 0)) with 1. by rewrite Z.div_1_r.
Qed.

Lemma leading_pads_other c s : c <> pad_char -> leading_pads (c :: s) = 0.
Proof. intros H. simpl. by destruct (byte_eqb_spec c pad_char). Qed.

Lemma leading_pads_pad s : leading_pads (pad_char :: s) = 1 + leading_pads s.
Proof. reflexivity. Qed.

Lemma chunk_value_char i pad n c v rest :
  value c = Some v -> i < 4 - pad -> 0 <= n < 2 ^ 18 -> 0 <= v < 64 ->
  chunk_value i pad n (c :: rest) = chunk_value (i + 1) pad (n * 64 + v) rest.
Proof.
  intros Hc Hi Hn Hv. cbn [chunk_value]. replace (4 - pad <=? i) with false by lia.
  by rewrite Hc, push_sextet.
Qed.
Lemma chunk_value_pad i pad n c rest :
  4 - pad <= i -> 0 <= n < 2 ^ 18 ->
  chunk_value i pad n (c :: rest) = chunk_value (i + 1) pad (n * 64 + 0) rest.
Proof.
  intros Hi Hn. cbn [chunk_value]. replace (4 - pad <=? i) with true by lia.
  by rewrite push_sextet.
Qed.

(** Reading the characters of a chunk back: [pad] of them are padding and stand for zero. *)
Lemma decode_chunk_sextets n pad c2 c3 :
  0 <= n < 2 ^ 24 ->
  (pad = 0 /\ c2 = table_at (sextet n 1) /\ c3 = table_at (sextet n 0)
   \/ pad = 1 /\ c2 = table_at (sextet n 1) /\ c3 = pad_char /\ sextet n 0 = 0
   \/ pad = 2 /\ c2 = pad_char /\ c3 = pad_char /\ sextet n 1 = 0 /\ sextet n 0 = 0) ->
  decode_chunk [table_at (sextet n 3); table_at (sextet n 2); c2; c3]
  = Ok (byte_of_Z (n `div` 65536)
        :: (if pad <? 2 then [byte_of_Z (n `div` 256)] else [])
        ++ (if pad <? 1 then [byte_of_Z n] else [])).
Proof.
  intros Hn Hcase.
  destruct (value_table _ (sextet_range n 3)) as [Hv3 Hp3], (value_table _ (sextet_range n 2)) as [Hv2 Hp2],
    (value_table _ (sextet_range n 1)) as [Hv1 Hp1], (value_table _ (sextet_range n 0)) as [Hv0 Hp0].
  pose proof (sextet_range n 3). pose proof (sextet_range n 2). pose proof (sextet_range n 1).
  pose proof (sextet_range n 0). pose proof (sextets_value n Hn) as Hsum.
  assert (Hpad : leading_pads (reverse [table_at (sextet n 3); table_at (sextet n 2); c2; c3]) = pad
    /\ pad <= 2 /\ pad_char ∉ ztake (4 - pad) [table_at (sextet n 3); table_at (sextet n 2); c2; c3]
    /\ chunk_value 0 pad 0 [table_at (sextet n 3); table_at (sextet n 2); c2; c3] = Ok n).
  { change (reverse [table_at (sextet n 3); table_at (sextet n 2); c2; c3])
      with [c3; c2; table_at (sextet n 2); table_at (sextet n 3)].
    destruct Hcase as [(-> & -> & ->)|[(-> & -> & -> & Hz)|(-> & -> & -> & Hz1 & Hz0)]].
    - rewrite leading_pads_other by done. split_and!; [done|done|unfold ztake; set_solver|].
      rewrite (chunk_value_char _ _ _ _ _ _ Hv3), (chunk_value_char _ _ _ _ _ _ Hv2),
        (chunk_value_char _ _ _ _ _ _ Hv1), (chunk_value_char _ _ _ _ _ _ Hv0) by lia.
      cbn [chunk_value]. f_equal. lia.
    - rewrite !leading_pads_pad, leading_pads_other by done.
      split_and!; [done|done|unfold ztake; set_solver|].
      rewrite (chunk_value_char _ _ _ _ _ _ Hv3), (chunk_value_char _ _ _ _ _ _ Hv2),
        (chunk_value_char _ _ _ _ _ _ Hv1), chunk_value_pad by lia.
      cbn [chunk_value]. f_equal. lia.
    - rewrite !leading_pads_pad, leading_pads_other by done.
      split_and!; [done|done|unfold ztake; set_solver|].
      rewrite (chunk_value_char _ _ _ _ _ _ Hv3), (chunk_value_char _ _ _ _ _ _ Hv2),
        !chunk_value_pad by lia.
      cbn [chunk_value]. f_equal. lia. }
  destruct Hpad as (Hpad & Hle & Hnotin & Hval). unfold decode_chunk. rewrite Hpad, Hval.
  replace (2 <? pad) with false by lia. rewrite bool_decide_eq_false_2 by done.
  rewrite andb_false_r. cbn [orb]. by rewrite !Z.shiftr_div_pow2.
Qed.

Lemma byte_of_Z_mod z b : z `mod` 256 = u8 b -> byte_of_Z z = b.
Proof. intros H. apply u8_inj. by rewrite u8_byte_of_Z. Qed.

Lemma decode_encode_chunk chunk :
  1 <= zlen chunk <= 3 -> decode_chunk (encode_chunk chunk) = Ok chunk.
Proof.
  intros Hlen. set (b2 := if 2 <? zlen chunk then at_ chunk 2 else x00).
  set (b1 := if 1 <? zlen chunk then at_ chunk 1 else x00). set (b0 := at_ chunk 0).
  pose proof (u8_range b0). pose proof (u8_range b1). pose proof (u8_range b2).
  set (n := u8 b0 * 65536 + u8 b1 * 256 + u8 b2). 
  assert (Hn : 0 <= n < 2 ^ 24) by (unfold n; simpl; lia).
  assert (Hbytes : byte_of_Z (n `div` 65536) = b0 /\ byte_of_Z (n `div` 256) = b1 /\ byte_of_Z n = b2).
  { split_and!; apply byte_of_Z_mod; unfold n; Z.to_euclidean_division_equations; lia. }
  destruct Hbytes as (E0 & E1 & E2).
  rewrite (encode_chunk_sextets chunk n); [|unfold n; rewrite <- chunk_bits;
    unfold b0, b1, b2; destruct (1 <? zlen chunk), (2 <? zlen chunk); done|lia].
  assert (Hs : forall k, sextet n k = n `div` 2 ^ (6 * k) `mod` 64) by done.
  destruct chunk as [|x0 [|x1 [|x2 [|]]]]; try (unfold zlen in Hlen; simpl in Hlen; lia); simpl in *.
  - rewrite (decode_chunk_sextets n 2); [simpl; by rewrite E0|done|].
    change (u8 b1) with 0 in *. change (u8 b2) with 0 in *. right; right.
    split_and!; [done..| |]; rewrite Hs; [change (2 ^ (6 * 1)) with 64|change (2 ^ (6 * 0)) with 1];
      clear -H; subst n; Z.to_euclidean_division_equations; lia.
  - rewrite (decode_chunk_sextets n 1); [simpl; by rewrite E0, E1|done|].
    change (u8 b2) with 0 in *. right; left. split_and!; [done..|]; rewrite Hs.
    change (2 ^ (6 * 0)) with 1. clear -H H0. subst n. Z.to_euclidean_division_equations. lia.
  - rewrite (decode_chunk_sextets n 0); [simpl; by rewrite E0, E1, E2|done|]. by left.
Qed.

Lemma encode_ind (P : bytes -> Prop) :
  P [] -> (forall a, P [a]) -> (forall a b, P [a; b]) ->
  (forall a b c s, P s -> P (a :: b :: c :: s)) -> forall s, P s.
Proof.
  intros H0 H1 H2 H3. fix IH 1. intros [|a [|b [|c s]]]; [done..|]. apply H3, IH.
Qed.

(** File contents survive the wire.  The base64 text of any bytes decodes to these bytes,
    whatever their length; the text is four characters per started group of three bytes. *)
Theorem base64_roundtrip (s : bytes) :
  decode (encode s) = Ok s /\ zlen (encode s) = 4 * ((zlen s + 2) `div` 3).
Proof.
  assert (Hlen : zlen (encode s) = 4 * ((zlen s + 2) `div` 3)).
  { induction s as [| | |a b c s IH] using encode_ind; [done..|].
    change (encode (a :: b :: c :: s)) with (encode_chunk [a; b; c] ++ encode s).
    rewrite zlen_app, IH, !zlen_cons. change (zlen (encode_chunk [a; b; c])) with 4.
    replace (1 + (1 + (1 + zlen s)) + 2) with (zlen s + 2 + 1 * 3) by lia.
    rewrite Z.div_add by lia. lia. }
  split; [|done]. unfold decode. rewrite Hlen, Z.mul_comm, Z.mod_mul by lia. cbn [Z.eqb negb].
  clear Hlen. induction s as [|a|a b|a b c s IH] using encode_ind; [done|..].
  - change (encode [a]) with (encode_chunk [a]).
    assert (Hd := decode_encode_chunk [a] ltac:(unfold zlen; simpl; lia)).
    unfold encode_chunk in *. cbn [decode_chunks]. by rewrite Hd.
  - change (encode [a; b]) with (encode_chunk [a; b]).
    assert (Hd := decode_encode_chunk [a; b] ltac:(unfold zlen; simpl; lia)).
    unfold encode_chunk in *. cbn [decode_chunks]. by rewrite Hd.
  - change (encode (a :: b :: c :: s)) with (encode_chunk [a; b; c] ++ encode s).
    assert (Hd := decode_encode_chunk [a; b; c] ltac:(unfold zlen; simpl; lia)).
    unfold encode_chunk in *. cbn [decode_chunks app]. by rewrite Hd, IH.
Qed.
