(* ===== verification/NodeDisk.v ===== *)
(** * The gateway's disk and the files a sync writes

    [sync/file_write.rs], [sync/config_meta.rs], the path check and the pruning of
    [sync/sync_fs.rs], [coordinate_tsconfig_content] of [ts_cache/seed.rs], and the records of
    [workspace/stale.rs] that live in memory: a client's file is written to a temporary file
    beside its target, which then replaces it.

    The disk is [Fs]'s.  Every call that changes it or reads a file's content may fail, the
    outcomes to come being part of the state; a failing write may leave any bytes.  serde_json
    is a parameter, and there are no symbolic links. *)

From Stdlib Require Import Strings.Byte.
From stdpp Require Import gmap.
From S2P Require Import Prelude RustStr Json Sync Fs Journal.

(** ** The state *)

Abbreviation path_set := (@gset path path_eq_decision path_countable).
Abbreviation path_map := (@gmap path path_eq_decision path_countable).

(** [ActiveExec]: a command that runs, with the size and hash of the files before it. *)
Record ActiveExec := MkActiveExec {
  exec_id : Z;
  exec_started : Z;
  exec_stamps : gmap bytes (Z * Z);
}.

(** What the gateway remembers: the files syncs delivered to each workspace and when, and the
    commands that run in each. *)
Record Memory := MkMemory {
  synced_files : path_map (gmap bytes (Z * option Z));
  active_execs : path_map (list ActiveExec);
  next_exec_id : Z;
}.

(** The disk, the files with an executable bit, the outcomes to come, the number the next
    temporary file is named with, and the memory. *)
Record Node := MkNode {
  node_fs : disk;
  executables : path_set;
  node_faults : list Fault;
  next_temp : Z;
  memory : Memory;
}.

Definition IO (A : Type) : Type := Node -> result A unit * Node.
#[export] Instance IO_ret : MRet IO := fun A a n => (Ok a, n).
#[export] Instance IO_bind : MBind IO := fun A C k m n =>
  match m n with (Ok a, n') => k a n' | (Err e, n') => (Err e, n') end.
Definition io_fail {A : Type} : IO A := fun n => (Err tt, n).
Definition io_disk : IO disk := fun n => (Ok (node_fs n), n).
Definition io_memory : IO Memory := fun n => (Ok (memory n), n).
Definition io_remember (f : Memory -> Memory) : IO unit := fun n =>
  (Ok tt, MkNode (node_fs n) (executables n) (node_faults n) (next_temp n) (f (memory n))).

(** ** Calls on the disk *)

Definition settle (n : Node) (fs : disk) (ex : path_set) : Node :=
  MkNode fs ex (tail (node_faults n)) (next_temp n) (memory n).

(** A call: what it does when it works, what a failure may leave, what becomes of the bits. *)
Definition syscall (works : disk -> option disk) (leaves : bytes -> disk -> option disk)
    (bits : disk -> path_set -> path_set) : IO unit := fun n =>
  let changed fs := settle n fs (bits (node_fs n) (executables n)) in
  let same := settle n (node_fs n) (executables n) in
  match hd NoFault (node_faults n) with
  | Fails partial =>
      (Err tt, match partial ≫= (fun b => leaves b (node_fs n)) with Some fs => changed fs | None => same end)
  | NoFault | Crosses =>
      match works (node_fs n) with
      | Some fs => (Ok tt, changed fs)
      | None => (Err tt, same)
      end
  end.

Definition keep_bits (_ : disk) (ex : path_set) : path_set := ex.
Definition no_leftover (_ : bytes) (_ : disk) : option disk := None.

(** A path with a zero byte is no path to the operating system. *)
Definition no_nul (p : path) : bool := forallb (fun c => negb (bool_decide (x00 ∈ c))) p.

(** A new file has no executable bit; writing to an existing one keeps its mode. *)
Definition fs_write_file (p : path) (b : bytes) : IO unit :=
  let write b fs := if no_nul p then write_at fs p b else None in
  syscall (write b) write (fun fs ex => if exists_at fs p then ex else ex ∖ {[p]}).
Definition fs_chmod_exec (p : path) : IO unit :=
  syscall (fun fs => if exists_at fs p then Some fs else None) no_leftover (fun _ ex => {[p]} ∪ ex).
Definition fs_mkdir (p : path) : IO unit :=
  syscall (fun fs => if no_nul p then create_dir_at fs p else None) no_leftover keep_bits.
Definition fs_rename_file (from to : path) : IO unit :=
  syscall (fun fs => rename_at fs from to) no_leftover
    (fun _ ex => if decide (from ∈ ex) then {[to]} ∪ (ex ∖ {[from]}) else ex ∖ {[to]}).
Definition fs_unlink (p : path) : IO unit :=
  syscall (fun fs => remove_file_at fs p) no_leftover (fun _ ex => ex ∖ {[p]}).
Definition fs_rmdir (p : path) : IO unit := syscall (fun fs => remove_dir_at fs p) no_leftover keep_bits.

(** [std::fs::read]. *)
Definition fs_read (p : path) : IO bytes := fun n =>
  let n' := settle n (node_fs n) (executables n) in
  match hd NoFault (node_faults n), node_fs n !! p with
  | (NoFault | Crosses), Some (File b) => (Ok b, n')
  | _, _ => (Err tt, n')
  end.

(** [std::fs::read_to_string]. *)
Definition fs_read_text (p : path) : IO bytes :=
  b ← fs_read p; if utf8_valid b then mret b else io_fail.

(** [result.ok()]. *)
Definition attempt_io {A : Type} (m : IO A) : IO (option A) := fun n =>
  match m n with (Ok a, n') => (Ok (Some a), n') | (Err _, n') => (Ok None, n') end.

(** [let _ = call]. *)
Definition ignore {A : Type} (m : IO A) : IO unit := fun n => (Ok tt, (m n).2).

Fixpoint io_each {A : Type} (l : list A) (body : A -> IO unit) : IO unit :=
  match l with
  | [] => mret tt
  | x :: l' => body x ;; io_each l' body
  end.

(** [create_dir_all]. *)
Definition create_dir_all (p : path) : IO unit :=
  fs ← io_disk;
  if is_dir_at fs p then mret tt
  else match reverse (missing_above (S (length p)) fs p) with
       | [] => io_fail
       | dirs => io_each dirs fs_mkdir
       end.

(** [is_executable]. *)
Definition is_executable_at (n : Node) (p : path) : bool :=
  exists_at (node_fs n) p && bool_decide (p ∈ executables n).

(** ** [config_meta.rs] *)

Definition METADATA_DIR : bytes := B ".prod-code-sync-meta".

Definition is_ts_config (name : bytes) : bool :=
  bool_decide (name = B "tsconfig.json") || bool_decide (name = B "jsconfig.json").

(** [path.set_extension("prod-code-sync-stamp")] of one of the two names. *)
Definition stamp_name (name : bytes) : bytes :=
  if bool_decide (name = B "tsconfig.json") then B "tsconfig.prod-code-sync-stamp"
  else B "jsconfig.prod-code-sync-stamp".

Definition metadata_path (workspace_root config_path : path) : option path :=
  relative ← strip_path workspace_root config_path;
  name ← file_name config_path;
  if is_ts_config name && negb (bool_decide (B ".." ∈ relative)) then
    workspace_name ← file_name workspace_root;
    storage_root ← parent workspace_root;
    Some (storage_root ++ [METADATA_DIR; workspace_name] ++ removelast relative ++ [stamp_name name])
  else None.

Fixpoint parse_all (ls : list bytes) : option (list Z) :=
  match ls with
  | [] => Some []
  | l :: rest => v ← parse_uint u64_max l; vs ← parse_all rest; Some (v :: vs)
  end.

(** [config_meta::matches]. *)
Definition meta_matches (workspace_root config_path : path) (client_size client_hash server_size server_hash : Z)
    : IO bool :=
  match metadata_path workspace_root config_path with
  | None => mret false
  | Some p =>
      content ← attempt_io (fs_read_text p);
      mret match content with
           | Some text => bool_decide (parse_all (lines text) = Some [client_size; client_hash; server_size; server_hash])
           | None => false
           end
  end.

(** [config_meta::record]. *)
Definition meta_record (workspace_root config_path : path) (client_size client_hash server_size server_hash : Z)
    : IO unit :=
  match metadata_path workspace_root config_path with
  | None => mret tt
  | Some p =>
      match parent p with
      | None => io_fail
      | Some par =>
          create_dir_all par ;;
          fs_write_file p (concat (map (fun v => show v ++ [x0a]) [client_size; client_hash; server_size; server_hash]))
      end
  end.

(** [config_meta::forget]: a file that is not there is forgotten. *)
Definition meta_forget (workspace_root config_path : path) : IO unit :=
  match metadata_path workspace_root config_path with
  | None => mret tt
  | Some p => fs ← io_disk; if exists_at fs p then fs_unlink p else mret tt
  end.

(** ** [file_write.rs] *)

Section files.
Context (pid : Z).
(** [serde_json::from_slice] and [serde_json::to_vec_pretty]. *)
Context (from_slice : bytes -> option Value) (to_vec_pretty : Value -> bytes).

(** A root that already reaches [node_modules/@types]. *)
Definition is_types_root (v : Value) : bool :=
  match as_str v with
  | Some root => bool_decide (root = B "node_modules/@types") || bool_decide (root = B "./node_modules/@types")
                 || ends_with (B "/node_modules/@types") root
  | None => false
  end.

(** A member of an object replaced. *)
Fixpoint set_member (key : bytes) (v : Value) (l : list (bytes * Value)) : list (bytes * Value) :=
  match l with
  | [] => []
  | e :: l' => if bool_decide (e.1 = key) then (key, v) :: l' else e :: set_member key v l'
  end.

(** [coordinate_tsconfig_content] of [ts_cache/seed.rs]: without [typeRoots] there is nothing
    to coordinate. *)
Definition coordinate_tsconfig_content (content : bytes) : option bytes :=
  val ← from_slice content;
  match val with
  | Object obj =>
      match assoc (B "compilerOptions") obj with
      | Some (Object options) =>
          match assoc (B "typeRoots") options with
          | Some (Array type_roots) =>
              if existsb is_types_root type_roots then None
              else Some (to_vec_pretty (Object (set_member (B "compilerOptions")
                (Object (set_member (B "typeRoots")
                  (Array (type_roots ++ [String (B "node_modules/@types")])) options)) obj)))
          | _ => None
          end
      | _ => None
      end
  | _ => None
  end.

Definition is_config_path (target : path) : bool :=
  match file_name target with Some name => is_ts_config name | None => false end.

(** What is committed for a file's content. *)
Definition coordinated (target : path) (content : bytes) : bytes :=
  if is_config_path target then default content (coordinate_tsconfig_content content) else content.

Definition temp_path (target : path) (n : Z) : path :=
  let name := match file_name target with Some c => utf8_lossy c | None => [] end in
  with_file_name target (B "." ++ name ++ B ".prod-code-sync-" ++ show pid ++ B "-" ++ show n).

(** [NEXT.fetch_add(1)]. *)
Definition fresh_temp (target : path) : IO path := fun n =>
  (Ok (temp_path target (next_temp n)),
   MkNode (node_fs n) (executables n) (node_faults n) ((next_temp n + 1) `mod` 2 ^ 64) (memory n)).

(** The block that writes the temporary file and moves it into place. *)
Definition commit_temp (temp target : path) (content : bytes) (executable : bool) : IO unit :=
  fs_write_file temp content ;;
  (if executable then fs_chmod_exec temp else mret tt) ;;
  fs_rename_file temp target.

(** [result], with the temporary file removed on failure. *)
Definition or_unlink (m : IO unit) (temp : path) : IO unit := fun n =>
  match m n with
  | (Ok x, n') => (Ok x, n')
  | (Err e, n') => (Err e, (fs_unlink temp n').2)
  end.

(** A coordinated config file's stamps are recorded; whether that works changes nothing. *)
Definition record_config (workspace_root target : path) (content committed : bytes) : IO unit :=
  if is_config_path target then
    ignore (if bool_decide (committed = content) then meta_forget workspace_root target
            else meta_record workspace_root target (zlen content) (content_hash content)
                   (zlen committed) (content_hash committed))
  else mret tt.

(** [write_synced_file_for_workspace]: the hash of what was committed. *)
Definition write_synced_file (workspace_root target : path) (content : bytes) (executable : bool) : IO Z :=
  match parent target with Some par => create_dir_all par | None => mret tt end ;;
  temp ← fresh_temp target;
  let committed := coordinated target content in
  or_unlink (commit_temp temp target committed executable) temp ;;
  record_config workspace_root target content committed ;;
  mret (content_hash committed).

(** ** [sync_fs.rs] *)

(** [safe_sync_target], after the checks of the text: the way down. *)
Fixpoint target_walk (fs : disk) (current : path) (components : list bytes) : bool :=
  match components with
  | [] => true
  | c :: rest =>
      let current := current ++ [c] in
      if bool_decide (x00 ∈ c) then false
      else match fs !! current with
           | None => true
           | Some node =>
               if negb (bool_decide (rest = [])) && negb (bool_decide (node = Dir)) then false
               else target_walk fs current rest
           end
  end.

Definition normal_component (c : bytes) : bool :=
  negb (bool_decide (c = [])) && negb (bool_decide (c = B ".")) && negb (bool_decide (c = B "..")).

Definition safe_sync_target (fs : disk) (server_workspace : path) (relative : bytes) : option path :=
  let comps := split x2f relative in
  if bool_decide (relative = []) || bool_decide (x5c ∈ relative) || starts_with [x2f] relative then None
  else if negb (forallb normal_component comps) then None
  else if target_walk fs server_workspace comps then Some (server_workspace ++ comps) else None.

(** [prune_empty_parents]: up to but not including the root. *)
Fixpoint prune_climb (fuel : nat) (root dir : path) : IO unit :=
  match fuel with
  | O => mret tt
  | S fuel' =>
      if bool_decide (dir = root) || negb (path_starts_with dir root) then mret tt
      else
        removed ← attempt_io (fs_rmdir dir);
        match removed, parent dir with
        | Some _, Some up => prune_climb fuel' root up
        | _, _ => mret tt
        end
  end.
Definition prune_empty_parents (root : path) (dir : option path) : IO unit :=
  match dir with Some d => prune_climb (S (length d)) root d | None => mret tt end.
End files.

(** ** What a computation keeps *)

(** [m] keeps [J] of the disk however it ends. *)
Definition preserves {A : Type} (J : disk -> Prop) (m : IO A) : Prop :=
  forall n, J (node_fs n) -> J (node_fs (m n).2).

(** If [m] ends well from a disk with [P], the disk has [Q]. *)
Definition ensures {A : Type} (P : disk -> Prop) (m : IO A) (Q : A -> disk -> Prop) : Prop :=
  forall n a n', P (node_fs n) -> m n = (Ok a, n') -> Q a (node_fs n').

Section rules.
Context (J : disk -> Prop).

Lemma preserves_ret {A : Type} (a : A) : preserves J (mret a).
Proof. by intros n. Qed.
Lemma preserves_fail {A : Type} : preserves J (@io_fail A).
Proof. by intros n. Qed.
Lemma preserves_disk : preserves J io_disk.
Proof. by intros n. Qed.
Lemma preserves_memory : preserves J io_memory.
Proof. by intros n. Qed.
Lemma preserves_remember f : preserves J (io_remember f).
Proof. by intros n. Qed.
Lemma preserves_bind {A C : Type} (m : IO A) (k : A -> IO C) :
  preserves J m -> (forall a, preserves J (k a)) -> preserves J (m ≫= k).
Proof.
  intros Hm Hk n Hn. specialize (Hm n Hn). unfold mbind, IO_bind.
  destruct (m n) as [[a|e] n1]; simpl in *; [|done]. by apply Hk.
Qed.
Lemma preserves_ignore {A : Type} (m : IO A) : preserves J m -> preserves J (ignore m).
Proof. intros Hm n Hn. by apply Hm. Qed.
Lemma preserves_attempt {A : Type} (m : IO A) : preserves J m -> preserves J (attempt_io m).
Proof.
  intros Hm n Hn. specialize (Hm n Hn). unfold attempt_io. by destruct (m n) as [[a|e] n1].
Qed.
Lemma preserves_each {A : Type} (l : list A) body :
  (forall x, x ∈ l -> preserves J (body x)) -> preserves J (io_each l body).
Proof.
  induction l as [|x l IH]; intros H; simpl; [apply preserves_ret|].
  apply preserves_bind; [apply H; left|]. intros []. apply IH. intros y Hy. apply H. by right.
Qed.
Lemma preserves_syscall works leaves bits :
  (forall fs fs', J fs -> works fs = Some fs' -> J fs') ->
  (forall b fs fs', J fs -> leaves b fs = Some fs' -> J fs') ->
  preserves J (syscall works leaves bits).
Proof.
  intros Hw Hl n Hn. unfold syscall.
  destruct (hd NoFault (node_faults n)) as [|[b|]|]; simpl; try done.
  - destruct (works (node_fs n)) eqn:E; simpl; [|done]. by eapply Hw.
  - destruct (leaves b (node_fs n)) eqn:E; simpl; [|done]. by eapply Hl.
  - destruct (works (node_fs n)) eqn:E; simpl; [|done]. by eapply Hw.
Qed.
Lemma preserves_read p : preserves J (fs_read p).
Proof.
  intros n Hn. unfold fs_read.
  by destruct (hd NoFault (node_faults n)), (node_fs n !! p) as [[?|]|].
Qed.
Lemma preserves_read_text p : preserves J (fs_read_text p).
Proof.
  apply preserves_bind; [apply preserves_read|]. intros b.
  destruct (utf8_valid b); [apply preserves_ret|apply preserves_fail].
Qed.

(** The calls, from what they do to a disk with [J]. *)
Lemma preserves_write p c :
  (forall b fs fs', J fs -> write_at fs p b = Some fs' -> J fs') -> preserves J (fs_write_file p c).
Proof.
  intros H. apply preserves_syscall; intros *; destruct (no_nul p); intros; simplify_eq; eauto.
Qed.
Lemma preserves_mkdir p :
  (forall fs fs', J fs -> create_dir_at fs p = Some fs' -> J fs') -> preserves J (fs_mkdir p).
Proof.
  intros H. apply preserves_syscall; [|done]. intros *; destruct (no_nul p); intros; simplify_eq; eauto.
Qed.
Lemma preserves_chmod p : preserves J (fs_chmod_exec p).
Proof. apply preserves_syscall; [|done]. intros fs fs' HJ. destruct (exists_at fs p); by intros [= <-]. Qed.
Lemma preserves_rename from to :
  (forall fs fs', J fs -> rename_at fs from to = Some fs' -> J fs') -> preserves J (fs_rename_file from to).
Proof. intros H. by apply preserves_syscall. Qed.
Lemma preserves_unlink p :
  (forall fs fs', J fs -> remove_file_at fs p = Some fs' -> J fs') -> preserves J (fs_unlink p).
Proof. intros H. by apply preserves_syscall. Qed.
Lemma preserves_rmdir p :
  (forall fs fs', J fs -> remove_dir_at fs p = Some fs' -> J fs') -> preserves J (fs_rmdir p).
Proof. intros H. by apply preserves_syscall. Qed.

Lemma missing_above_prefix fuel fs p d : d ∈ missing_above fuel fs p -> exists r, p = d ++ r.
Proof.
  revert p. induction fuel as [|fuel IH]; intros p; simpl; [by intros ?%not_elem_of_nil|].
  destruct (exists_at fs p); [by intros ?%not_elem_of_nil|].
  intros [->|H]%elem_of_cons; [exists []; by rewrite app_nil_r|].
  destruct (decide (p = [])) as [->|Hne]; [by apply not_elem_of_nil in H|].
  destruct (path_snoc p Hne) as (d' & c & -> & Hp). rewrite Hp in H.
  destruct (IH _ H) as [r ->]. exists (r ++ [c]). by rewrite app_assoc.
Qed.

Lemma preserves_create_dir_all p :
  (forall d r fs fs', p = d ++ r -> J fs -> create_dir_at fs d = Some fs' -> J fs') ->
  preserves J (create_dir_all p).
Proof.
  intros H n Hn. unfold create_dir_all, io_disk. unfold mbind, IO_bind at 1.
  destruct (is_dir_at (node_fs n) p); [done|].
  destruct (reverse _) as [|d0 dirs] eqn:E; [done|]. rewrite <- E.
  apply preserves_each; [|done]. intros d [r ->]%elem_of_reverse%missing_above_prefix.
  apply preserves_mkdir. intros fs fs'. by apply (H d r).
Qed.

Lemma preserves_prune root dir :
  (forall d fs fs', d <> root -> path_starts_with d root = true -> J fs -> remove_dir_at fs d = Some fs' -> J fs') ->
  preserves J (prune_empty_parents root dir).
Proof.
  intros H. destruct dir as [d|]; [|apply preserves_ret]. cbn [prune_empty_parents].
  generalize (S (length d)) as fuel. intros fuel. revert d. induction fuel as [|fuel IH]; intros d; [apply preserves_ret|].
  simpl. destruct (bool_decide (d = root)) eqn:E1; [apply preserves_ret|].
  destruct (path_starts_with d root) eqn:E2; [|apply preserves_ret]. simpl.
  apply bool_decide_eq_false in E1. apply preserves_bind.
  - apply preserves_attempt, preserves_rmdir. intros fs fs'. by apply H.
  - intros [[]|]; [|apply preserves_ret]. destruct (parent d); [apply IH|apply preserves_ret].
Qed.
End rules.

Create HintDb node.
#[export] Hint Resolve preserves_ret preserves_fail preserves_disk preserves_memory preserves_remember
  preserves_ignore preserves_attempt preserves_read preserves_read_text preserves_chmod : node.

(** ** What is kept of the disk *)

(** A well-formed disk with something true of what is, or is not, at each path. *)
Definition kept (R : path -> option node -> Prop) (fs : disk) : Prop :=
  disk_wf fs /\ forall p, R p (fs !! p).

(** Some paths have what they have on [fs0]. *)
Definition as_on (S : path -> Prop) (fs0 : disk) : path -> option node -> Prop :=
  fun p x => S p -> x = fs0 !! p.

(** Files may come and go at [q]. *)
Definition free_at (R : path -> option node -> Prop) (q : path) : Prop :=
  R q None /\ forall b, R q (Some (File b)).
(** A directory may come, or go, at [d]. *)
Definition may_come (R : path -> option node -> Prop) (d : path) : Prop := R d None -> R d (Some Dir).
Definition may_go (R : path -> option node -> Prop) (d : path) : Prop := R d (Some Dir) -> R d None.

(** The file [q] may be written, with the directories it lacks. *)
Definition spares (R : path -> option node -> Prop) (q : path) : Prop :=
  free_at R q /\ forall d r, q = d ++ r -> r <> [] -> may_come R d.

Lemma free_as_on S fs0 q : ~ S q -> free_at (as_on S fs0) q.
Proof. intros H. by split; [intros Hq|intros b Hq]. Qed.
Lemma may_come_as_on S fs0 d : (S d -> is_Some (fs0 !! d)) -> may_come (as_on S fs0) d.
Proof. intros H Hd Hs. destruct (H Hs) as [x Hx]. specialize (Hd Hs). congruence. Qed.

Section kept.
Context (R : path -> option node -> Prop).

Lemma kept_write p b fs fs' : free_at R p -> kept R fs -> write_at fs p b = Some fs' -> kept R fs'.
Proof.
  intros [_ Hp] [Hwf HR] Hw. destruct (write_at_inv _ _ _ _ Hw) as (Hin & Hd & ->).
  split; [by apply write_wf|]. intros q. rewrite lookup_insert. case_decide; subst; auto.
Qed.
Lemma kept_mkdir d fs fs' : may_come R d -> kept R fs -> create_dir_at fs d = Some fs' -> kept R fs'.
Proof.
  intros Hd [Hwf HR] Hc. destruct (create_dir_at_inv _ _ _ Hc) as (Hin & Hn & ->).
  split; [by apply create_dir_wf|]. intros q. rewrite lookup_insert. case_decide; subst; [|done].
  apply Hd. by rewrite <- Hn.
Qed.
Lemma kept_unlink p fs fs' : free_at R p -> kept R fs -> remove_file_at fs p = Some fs' -> kept R fs'.
Proof.
  intros [Hp _] [Hwf HR] Hr. unfold remove_file_at in Hr.
  destruct (fs !! p) as [[b|]|] eqn:E; try done. injection Hr as <-. split.
  - rewrite delete_without by (by eapply file_nothing_under).
    apply without_wf; [done|]. by eapply file_not_root.
  - intros q. rewrite lookup_delete. by case_decide; subst.
Qed.
Lemma kept_rmdir d fs fs' : may_go R d -> kept R fs -> remove_dir_at fs d = Some fs' -> kept R fs'.
Proof.
  intros Hd [Hwf HR] Hr. unfold remove_dir_at in Hr.
  destruct (fs !! d) as [[b|]|] eqn:E; try done.
  destruct (entries fs d) eqn:Ee; [|done]. destruct d as [|c d]; [done|]. injection Hr as <-. split.
  - rewrite delete_without by (by apply empty_nothing_under). by apply without_wf.
  - intros q. rewrite lookup_delete. case_decide; subst; [|done]. apply Hd. by rewrite <- E.
Qed.
End kept.

(** A file moved over a file or to a free name. *)
Lemma rename_file_at fs from to b fs' :
  disk_wf fs -> fs !! from = Some (File b) -> rename_at fs from to = Some fs' -> from <> to ->
  fs' = <[to := File b]> (delete from fs).
Proof.
  intros Hwf Hf Hr Hne. unfold rename_at in Hr.
  destruct (negb _ || negb _); [done|]. rewrite decide_False in Hr by done.
  destruct (comparable from to) eqn:Hc; [done|]. rewrite Hf in Hr.
  assert (Hto : forall c r, fs !! (to ++ c :: r) = None /\ fs' = swap_disk from to (delete to fs)).
  { destruct (fs !! to) as [[b'|]|] eqn:Et; try done; injection Hr as <-; intros c r; (split; [|done]).
    - by eapply file_nothing_under.
    - by apply wf_absent. }
  destruct (Hto [] []) as [_ ->]. apply map_eq. intros p. rewrite kmap_swap_lookup by done.
  destruct (strip_path from p) as [r|] eqn:E1.
  - apply strip_path_Some in E1 as ->. rewrite swap_paths_l by done.
    rewrite lookup_insert_ne by (intros ->; pose proof (comparable_false _ _ Hc r []) as H; by rewrite app_nil_r in H).
    destruct r as [|c r].
    + by rewrite !app_nil_r, !lookup_delete_eq.
    + rewrite lookup_delete_ne by (intros H%(f_equal length); rewrite length_app in H; simpl in H; lia).
      rewrite lookup_delete_ne by (intros H%(f_equal length); rewrite length_app in H; simpl in H; lia).
      rewrite (proj1 (Hto c r)). symmetry. by eapply file_nothing_under.
  - destruct (strip_path to p) as [r|] eqn:E2.
    + apply strip_path_Some in E2 as ->. rewrite swap_paths_r by done. destruct r as [|c r].
      * rewrite !app_nil_r, lookup_insert_eq. by rewrite lookup_delete_ne.
      * rewrite lookup_insert_ne by (intros H%(f_equal length); rewrite length_app in H; simpl in H; lia).
        rewrite lookup_delete_ne by (intros H; by apply (comparable_false _ _ Hc (c :: r) []); rewrite app_nil_r).
        rewrite lookup_delete_ne by (intros H; by apply (comparable_false _ _ Hc [] (c :: r)); rewrite app_nil_r).
        rewrite (proj1 (Hto c r)). by eapply file_nothing_under.
    + pose proof (proj1 (strip_path_None _ _) E1) as H1. pose proof (proj1 (strip_path_None _ _) E2) as H2.
      rewrite swap_paths_other by (by apply path_starts_with_false).
      assert (p <> from) by (intros ->; apply (H1 []); by rewrite app_nil_r).
      assert (p <> to) by (intros ->; apply (H2 []); by rewrite app_nil_r).
      by rewrite lookup_insert_ne, !lookup_delete_ne by done.
Qed.

(** ** Endings *)

(** [m] keeps [J] when it fails. *)
Definition on_error {A : Type} (J : disk -> Prop) (m : IO A) : Prop :=
  forall n e n', J (node_fs n) -> m n = (Err e, n') -> J (node_fs n').

Lemma preserves_on_error {A : Type} J (m : IO A) : preserves J m -> on_error J m.
Proof. intros H n e n' Hn E. specialize (H n Hn). by rewrite E in H. Qed.
Lemma on_error_bind {A C : Type} J (m : IO A) (k : A -> IO C) :
  preserves J m -> (forall a, on_error J (k a)) -> on_error J (m ≫= k).
Proof.
  intros Hm Hk n e n' Hn. specialize (Hm n Hn). unfold mbind, IO_bind.
  destruct (m n) as [[a|e'] n1]; simpl in *; [by apply Hk|]. by intros [= _ <-].
Qed.
Lemma on_error_then {A C : Type} J (m : IO A) (k : A -> IO C) :
  on_error J m -> (forall a n, exists c n', k a n = (Ok c, n')) -> on_error J (m ≫= k).
Proof.
  intros Hm Hk n e n' Hn. unfold mbind, IO_bind. destruct (m n) as [[a|e'] n1] eqn:E; simpl.
  - destruct (Hk a n1) as (c & n2 & ->). done.
  - intros [= _ <-]. by eapply Hm.
Qed.

Lemma ensures_bind {A C : Type} P (m : IO A) (k : A -> IO C) Q R :
  ensures P m Q -> (forall a, ensures (Q a) (k a) R) -> ensures P (m ≫= k) R.
Proof.
  intros Hm Hk n c n' Hn. unfold mbind, IO_bind. destruct (m n) as [[a|e'] n1] eqn:E; [|done].
  apply Hk. by eapply Hm.
Qed.
Lemma ensures_preserves {A : Type} J (m : IO A) : preserves J m -> ensures J m (fun _ => J).
Proof. intros H n a n' Hn E. specialize (H n Hn). by rewrite E in H. Qed.
Lemma preserves_bind_ensures {A C : Type} J (m : IO A) (k : A -> IO C) Q :
  preserves J m -> ensures J m Q ->
  (forall a n, J (node_fs n) -> Q a (node_fs n) -> J (node_fs (k a n).2)) -> preserves J (m ≫= k).
Proof.
  intros Hm HQ Hk n Hn. pose proof (Hm n Hn) as H1. pose proof (HQ n) as H2. unfold mbind, IO_bind.
  destruct (m n) as [[a|e] n1]; simpl in *; [|done]. apply Hk; [done|]. by eapply H2.
Qed.
Lemma ensures_syscall P works leaves bits (Q : disk -> Prop) :
  (forall fs fs', P fs -> works fs = Some fs' -> Q fs') ->
  ensures P (syscall works leaves bits) (fun _ => Q).
Proof.
  intros H n [] n' Hn. unfold syscall.
  destruct (hd NoFault (node_faults n)) as [|[b|]|]; try done;
    destruct (works (node_fs n)) eqn:E; try done; intros [= <-]; by eapply H.
Qed.
Lemma ensures_conseq {A : Type} (P P' : disk -> Prop) (m : IO A) (Q Q' : A -> disk -> Prop) :
  ensures P m Q -> (forall fs, P' fs -> P fs) -> (forall a fs, Q a fs -> Q' a fs) -> ensures P' m Q'.
Proof. intros H HP HQ n a n' Hn E. apply HQ. eapply H; [by apply HP|done]. Qed.

(** ** A synced file *)

Lemma contains_app pat a b : contains pat (a ++ pat ++ b) = true.
Proof.
  unfold contains. enough (is_Some (find_sub pat (a ++ pat ++ b))) as [i ->] by done.
  induction a as [|x a IH].
  - simpl. rewrite find_sub_here. eauto.
  - destruct IH as [i Hi]. cbn [app find_sub]. destruct (starts_with pat _); [eauto|]. rewrite Hi. eauto.
Qed.

(** The name of a temporary file. *)
Definition temp_like (p : path) : bool :=
  match last p with Some c => contains (B ".prod-code-sync-") c | None => false end.

Lemma temp_path_like pid t k : temp_like (temp_path pid t k) = true.
Proof.
  unfold temp_like, temp_path, with_file_name.
  destruct (file_name t); rewrite last_snoc; rewrite app_assoc; apply contains_app.
Qed.

Lemma temp_path_other pid t k : temp_path pid t k <> t.
Proof.
  unfold temp_path, with_file_name. destruct (file_name t) as [c|] eqn:Ef.
  - unfold file_name in Ef. destruct (last t) as [c'|] eqn:El; [|done].
    destruct (decide (c' = B "..")); [done|]. injection Ef as ->. intros H. apply (f_equal last) in H.
    rewrite last_snoc, El in H.
    apply (f_equal (fun o => match o with Some c => length c | None => 0%nat end)) in H. cbv beta iota in H.
    rewrite !length_app in H. pose proof (utf8_lossy_length c). simpl in H. lia.
  - intros H%(f_equal length). rewrite length_app in H. simpl in H. lia.
Qed.

Section synced_file.
Context (pid : Z) (from_slice : bytes -> option Value) (to_vec_pretty : Value -> bytes).

Lemma ensures_write (J : disk -> Prop) p b :
  (forall fs, J fs -> disk_wf fs) -> 
  ensures J (fs_write_file p b) (fun _ fs => disk_wf fs /\ fs !! p = Some (File b)).
Proof.
  intros HJ. apply ensures_syscall. intros fs fs' H. destruct (no_nul p); [|done]. intros Hw.
  destruct (write_at_inv _ _ _ _ Hw) as (? & ? & ->). split; [apply write_wf; auto|].
  by rewrite lookup_insert_eq.
Qed.

Lemma ensures_commit temp t b x :
  temp <> t ->
  ensures disk_wf (commit_temp temp t b x) (fun _ fs => disk_wf fs /\ fs !! t = Some (File b)).
Proof.
  intros Hne. unfold commit_temp.
  eapply ensures_bind; [by apply ensures_write|]. intros [].
  apply (ensures_bind _ _ _ (fun _ fs => disk_wf fs /\ fs !! temp = Some (File b))).
  { apply ensures_preserves. destruct x; auto with node. }
  intros []. apply ensures_syscall. intros fs fs' [Hwf Hf] Hr. split; [by eapply rename_at_wf|].
  rewrite (rename_file_at _ _ _ _ _ Hwf Hf Hr Hne). by rewrite lookup_insert_eq.
Qed.

Section commit.
Context (R : path -> option node -> Prop).

(** The temporary file replaces the target. *)
Lemma preserves_put temp t b (m : IO unit) :
  temp <> t -> free_at R temp -> free_at R t -> (forall J, preserves J m) ->
  preserves (kept R) (fs_write_file temp b ;; m ;; fs_rename_file temp t).
Proof.
  intros Hne Htemp Ht Hm.
  assert (Hw : preserves (kept R) (fs_write_file temp b)).
  { apply preserves_write. intros b' fs fs'. by apply kept_write. }
  eapply preserves_bind_ensures; [done|by apply (ensures_write _ temp b); intros fs []|].
  enough (preserves (fun fs => kept R fs /\ (fs !! temp = Some (File b) \/ fs !! temp = None))
    (m ;; fs_rename_file temp t)) as H.
  { intros [] n HJ [_ Hf]. apply H. auto. }
  apply preserves_bind; [done|]. intros [].
  apply preserves_rename. intros fs fs' [[Hwf HR] [Hf|Hf]] Hr.
  - rewrite (rename_file_at _ _ _ _ _ Hwf Hf Hr Hne). split; [split|].
    + rewrite <- (rename_file_at _ _ _ _ _ Hwf Hf Hr Hne). by eapply rename_at_wf.
    + intros q. rewrite lookup_insert. case_decide; subst; [by apply Ht|].
      rewrite lookup_delete. case_decide; subst; [by apply Htemp|done].
    + right. by rewrite lookup_insert_ne, lookup_delete_eq.
  - unfold rename_at in Hr. replace (exists_at fs temp) with false in Hr; [done|].
    symmetry. by apply exists_at_false.
Qed.
Lemma preserves_commit temp t b x :
  temp <> t -> free_at R temp -> free_at R t -> preserves (kept R) (commit_temp temp t b x).
Proof. intros Hne Htemp Ht. apply preserves_put; [done..|]. intros J. destruct x; auto with node. Qed.

Lemma on_error_commit temp t b x : free_at R temp -> on_error (kept R) (commit_temp temp t b x).
Proof.
  intros Htemp. apply on_error_bind.
  { apply preserves_write. intros b' fs fs'. by apply kept_write. }
  intros []. apply on_error_bind; [destruct x; auto with node|]. intros [] n e n' HJ.
  unfold fs_rename_file, syscall.
  destruct (hd NoFault (node_faults n)) as [|[b'|]|]; simpl; try (by intros [= _ <-]);
    destruct (rename_at _ _ _); by intros [= _ <-].
Qed.

(** The directories of a file that may be written. *)
Lemma preserves_parents q :
  (forall d r, q = d ++ r -> r <> [] -> may_come R d) ->
  preserves (kept R) (match parent q with Some par => create_dir_all par | None => mret tt end).
Proof.
  intros Hs. destruct (parent q) as [par|] eqn:Hp; [|auto with node].
  apply preserves_create_dir_all. intros e r fs fs' -> HJ. apply kept_mkdir; [|done].
  destruct (decide (q = [])) as [->|Hne]; [done|].
  destruct (path_snoc q Hne) as (d' & c & -> & Hd). rewrite Hd in Hp. injection Hp as ->.
  apply (Hs e (r ++ [c])); [by rewrite app_assoc|by destruct r].
Qed.

Lemma preserves_or_unlink m temp : free_at R temp -> preserves (kept R) m -> preserves (kept R) (or_unlink m temp).
Proof.
  intros Ht Hm n Hn. specialize (Hm n Hn). unfold or_unlink. destruct (m n) as [[[]|e] n']; simpl in *; [done|].
  apply preserves_unlink; [|done]. intros fs fs'. by apply kept_unlink.
Qed.
Lemma on_error_or_unlink m temp : free_at R temp -> on_error (kept R) m -> on_error (kept R) (or_unlink m temp).
Proof.
  intros Ht Hm n e n' Hn. unfold or_unlink. destruct (m n) as [[[]|e'] n1] eqn:E; [done|].
  intros [= _ <-]. apply preserves_unlink; [intros fs fs'; by apply kept_unlink|]. by eapply Hm.
Qed.

Section metadata.
Context (ws t : path) (Hmeta : forall mp, metadata_path ws t = Some mp -> spares R mp).

Lemma preserves_meta_forget : preserves (kept R) (meta_forget ws t).
Proof.
  unfold meta_forget. destruct (metadata_path ws t) as [mp|] eqn:E; [|auto with node].
  apply preserves_bind; [auto with node|]. intros fs. destruct (exists_at fs mp); [|auto with node].
  apply preserves_unlink. intros fs1 fs2. apply kept_unlink. by apply Hmeta.
Qed.
Lemma preserves_meta_record a b c d : preserves (kept R) (meta_record ws t a b c d).
Proof.
  unfold meta_record. destruct (metadata_path ws t) as [mp|] eqn:E; [|auto with node].
  pose proof (preserves_parents mp (proj2 (Hmeta mp eq_refl))) as Hpar.
  destruct (parent mp) as [par|] eqn:Ep; [|auto with node].
  apply preserves_bind; [done|]. intros [].
  apply preserves_write. intros b' fs fs'. apply kept_write. by apply Hmeta.
Qed.

(** What follows the commit keeps it, and does not fail. *)
Lemma preserves_record_config content committed : preserves (kept R) (record_config ws t content committed).
Proof.
  unfold record_config. destruct (is_config_path t); [|auto with node]. apply preserves_ignore.
  case_bool_decide; [apply preserves_meta_forget|apply preserves_meta_record].
Qed.
End metadata.
End commit.

Lemma record_config_returns ws t content committed n :
  exists n', record_config ws t content committed n = (Ok tt, n').
Proof. unfold record_config, ignore. destruct (is_config_path t); eexists; reflexivity. Qed.

(** Whatever number the temporary file gets. *)
Lemma preserves_fresh {A : Type} J t (f : path -> IO A) :
  (forall k, preserves J (f (temp_path pid t k))) -> preserves J (fresh_temp pid t ≫= f).
Proof. intros H n Hn. unfold mbind, IO_bind. cbn [fresh_temp]. by apply H. Qed.
Lemma on_error_fresh {A : Type} J t (f : path -> IO A) :
  (forall k, on_error J (f (temp_path pid t k))) -> on_error J (fresh_temp pid t ≫= f).
Proof. intros H n e n' Hn. unfold mbind, IO_bind. cbn [fresh_temp]. by apply H. Qed.
Lemma ensures_fresh {A : Type} P t (f : path -> IO A) Q :
  (forall k, ensures P (f (temp_path pid t k)) Q) -> ensures P (fresh_temp pid t ≫= f) Q.
Proof. intros H n e n' Hn. unfold mbind, IO_bind. cbn [fresh_temp]. by apply H. Qed.

Section write.
Context (R : path -> option node -> Prop) (ws t : path).
Context (Htemp : forall k, free_at R (temp_path pid t k)).
Context (Hdirs : forall d r, t = d ++ r -> r <> [] -> may_come R d).

Lemma preserves_write_synced content x :
  free_at R t -> (forall mp, metadata_path ws t = Some mp -> spares R mp) ->
  preserves (kept R) (write_synced_file pid from_slice to_vec_pretty ws t content x).
Proof using Htemp Hdirs.
  intros Ht Hmeta. apply preserves_bind; [by apply preserves_parents|]. intros [].
  apply preserves_fresh. intros k. apply preserves_bind.
  - apply preserves_or_unlink; [done|]. by apply preserves_commit; [apply temp_path_other|..].
  - intros []. apply preserves_bind; [by apply preserves_record_config|auto with node].
Qed.

(** A write that fails leaves its target, too. *)
Lemma on_error_write_synced content x :
  on_error (kept R) (write_synced_file pid from_slice to_vec_pretty ws t content x).
Proof using Htemp Hdirs.
  apply on_error_bind; [by apply preserves_parents|]. intros [].
  apply on_error_fresh. intros k. apply on_error_then.
  - apply on_error_or_unlink; [done|]. by apply on_error_commit.
  - intros [] n. unfold mbind at 1, IO_bind at 1.
    destruct (record_config_returns ws t content (coordinated from_slice to_vec_pretty t content) n) as [n' ->].
    by eexists _, n'.
Qed.
End write.

Lemma metadata_path_name ws t mp : metadata_path ws t = Some mp -> mp <> t.
Proof.
  unfold metadata_path. destruct (strip_path ws t) as [rel|]; [|done]. bind_step.
  destruct (file_name t) as [name|] eqn:Ef; [|done]. bind_step.
  destruct (is_ts_config name) eqn:Ec; [|done]. destruct (bool_decide _); [done|]. cbn [negb andb].
  destruct (file_name ws) as [wn|]; [|done]. bind_step. destruct (parent ws) as [st|]; [|done]. bind_step.
  intros [= <-] Ht. unfold file_name in Ef. destruct (last t) as [c|] eqn:El; [|done].
  rewrite <- Ht in El. rewrite (app_assoc st (METADATA_DIR :: wn :: removelast rel) [stamp_name name] : st ++ METADATA_DIR :: wn :: removelast rel ++ [stamp_name name] = _), last_snoc in El.
  injection El as <-.
  destruct (decide _); [done|]. injection Ef as Ef. unfold is_ts_config, stamp_name in *.
  repeat case_bool_decide; simplify_eq; try done; by vm_compute in Ef.
Qed.

Lemma ensures_write_synced ws t content x :
  ensures disk_wf (write_synced_file pid from_slice to_vec_pretty ws t content x) (fun h fs =>
    disk_wf fs /\ fs !! t = Some (File (coordinated from_slice to_vec_pretty t content))
    /\ h = content_hash (coordinated from_slice to_vec_pretty t content)).
Proof.
  set (b := coordinated from_slice to_vec_pretty t content).
  apply (ensures_bind _ _ _ (fun _ => disk_wf)).
  { eapply ensures_conseq; [apply (ensures_preserves (kept (fun _ _ => True))), preserves_parents| |].
    - done.
    - by intros fs Hwf.
    - by intros [] fs []. }
  intros []. apply ensures_fresh. intros k.
  apply (ensures_bind _ _ _ (fun _ fs => disk_wf fs /\ fs !! t = Some (File b))).
  { intros n [] n' Hn. unfold or_unlink. destruct (commit_temp _ _ _ _ n) as [[[]|e] n1] eqn:E; [|done].
    intros [= <-]. by eapply (ensures_commit _ t b x (temp_path_other pid t k)). }
  intros []. apply (ensures_bind _ _ _ (fun _ fs => disk_wf fs /\ fs !! t = Some (File b)));
    [|intros [] n h n' [] [= <- <-]; by split_and!].
  intros n [] n' [Hwf Ht] E.
  assert (Hk : kept (as_on (fun p => p = t) (node_fs n)) (node_fs n')) by
    (eapply (ensures_preserves _ _ (preserves_record_config _ ws t _ content b)); [by split; [|intros p _]|exact E]).
  destruct Hk as [Hwf' Hk]. split; [done|]. by rewrite (Hk t).
Unshelve.
  intros mp Hmp. split; [by apply free_as_on, (metadata_path_name ws t)|].
  intros d r _ _. apply may_come_as_on. by intros ->.
Qed.
End synced_file.

(** ** The mode of a synced file *)

Lemma mkdir_bits p n : executables (fs_mkdir p n).2 = executables n /\ next_temp (fs_mkdir p n).2 = next_temp n.
Proof.
  unfold fs_mkdir, syscall. destruct (hd NoFault (node_faults n)) as [|[b|]|]; try done;
    destruct (no_nul p); try done; by destruct (create_dir_at (node_fs n) p).
Qed.
Lemma create_dir_all_eq p n :
  create_dir_all p n =
  (if is_dir_at (node_fs n) p then mret tt
   else match reverse (missing_above (S (length p)) (node_fs n) p) with
        | [] => io_fail
        | dirs => io_each dirs fs_mkdir
        end) n.
Proof. done. Qed.
Lemma create_dir_all_bits p n :
  executables (create_dir_all p n).2 = executables n /\ next_temp (create_dir_all p n).2 = next_temp n.
Proof.
  rewrite create_dir_all_eq.
  destruct (is_dir_at (node_fs n) p); [by split|]. destruct (reverse _) as [|d0 dirs]; [by split|].
  generalize (d0 :: dirs). intros l. revert n. induction l as [|d l IH]; intros n; [by split|].
  cbn [io_each]. unfold mbind, IO_bind. pose proof (mkdir_bits d n) as [H1 H2].
  destruct (fs_mkdir d n) as [[[]|e] n1]; simpl in *; [|done].
  destruct (IH n1) as [Hx Ht]. split; [by etransitivity|by etransitivity].
Qed.

(** A call that works, with its effect on the bits. *)
Lemma syscall_ok works leaves bits n n' :
  syscall works leaves bits n = (Ok tt, n') ->
  exists fs, works (node_fs n) = Some fs /\ node_fs n' = fs
    /\ executables n' = bits (node_fs n) (executables n).
Proof.
  unfold syscall. destruct (hd NoFault (node_faults n)) as [|[b|]|]; try done;
    destruct (works (node_fs n)) eqn:E; try done; intros [= <-]; eauto.
Qed.

Lemma commit_bits temp t b x n n' :
  temp <> t -> node_fs n !! temp = None -> commit_temp temp t b x n = (Ok tt, n') ->
  (t ∈ executables n' <-> x = true).
Proof.
  intros Hne Hfree. unfold commit_temp, mbind, IO_bind at 1.
  destruct (fs_write_file temp b n) as [[[]|e] n1] eqn:E1; [|done].
  apply syscall_ok in E1 as (fs1 & _ & _ & Hex1).
  replace (exists_at (node_fs n) temp) with false in Hex1 by (symmetry; by apply exists_at_false).
  unfold IO_bind at 1. destruct ((if x then fs_chmod_exec temp else mret tt) n1) as [[[]|e] n2] eqn:E2; [|done].
  assert (temp ∈ executables n2 <-> x = true) as Hx.
  { destruct x.
    - apply syscall_ok in E2 as (? & _ & _ & ->). set_solver.
    - injection E2 as <-. rewrite Hex1. set_solver. }
  intros E3. apply syscall_ok in E3 as (? & _ & _ & ->). case_decide; set_solver.
Qed.

(** ** Theorems *)

Section theorems.
Context (pid : Z) (from_slice : bytes -> option Value) (to_vec_pretty : Value -> bytes).

Lemma is_config_path_metadata ws t : is_config_path t = false -> metadata_path ws t = None.
Proof.
  unfold is_config_path, metadata_path. intros Hc. destruct (strip_path ws t); [|done]. bind_step.
  destruct (file_name t) as [name|]; [|done]. bind_step. by rewrite Hc.
Qed.

Lemma temp_path_length t k : (length t <= length (temp_path pid t k))%nat.
Proof.
  unfold temp_path, with_file_name. destruct (file_name t) as [c|] eqn:E; rewrite length_app; simpl; [|lia].
  destruct t as [|c0 t0] using rev_ind; [done|]. rewrite removelast_last, length_app. simpl. lia.
Qed.

(** Making the directories of a target does not make its temporary file. *)
Lemma parents_free t k n :
  disk_wf (node_fs n) -> node_fs n !! temp_path pid t k = None ->
  node_fs (match parent t with Some par => create_dir_all par | None => mret tt end n).2
    !! temp_path pid t k = None.
Proof.
  intros Hwf Hfree. destruct (parent t) as [par|] eqn:Ep; [|done].
  enough (kept (as_on (fun p => p = temp_path pid t k) (node_fs n)) (node_fs (create_dir_all par n).2)) as [_ H]
    by (by rewrite (H (temp_path pid t k))).
  apply preserves_create_dir_all; [|by split; [|intros p _]].
  intros d r fs fs' Hpar HJ. apply kept_mkdir; [|done]. apply may_come_as_on. intros ->. exfalso.
  destruct (decide (t = [])) as [->|Hne]; [done|]. destruct (path_snoc t Hne) as (d' & c & Et & Hd).
  rewrite Hd in Ep. injection Ep as ->. pose proof (temp_path_length t k) as Hl.
  apply (f_equal length) in Et, Hpar. rewrite length_app in Et, Hpar. simpl in Et. lia.
Qed.

Lemma write_synced_bits ws t content x n h n' :
  is_config_path t = false -> disk_wf (node_fs n) ->
  node_fs n !! temp_path pid t (next_temp n) = None ->
  write_synced_file pid from_slice to_vec_pretty ws t content x n = (Ok h, n') ->
  (t ∈ executables n' <-> x = true).
Proof.
  intros Hc Hwf Hfree. unfold write_synced_file, mbind, IO_bind at 1.
  pose proof (parents_free t (next_temp n) n Hwf Hfree) as Hf.
  set (parents := match parent t with Some par => create_dir_all par | None => mret tt end) in *.
  assert (Hn : next_temp (parents n).2 = next_temp n)
    by (unfold parents; destruct (parent t); [apply create_dir_all_bits|done]).
  destruct (parents n) as [[[]|e] n1]; simpl in Hf, Hn; [|done].
  unfold IO_bind at 1. cbn [fresh_temp]. unfold IO_bind at 1, or_unlink. rewrite Hn.
  destruct (commit_temp _ _ _ _ _) as [[[]|e] n2] eqn:E; [|done].
  apply commit_bits in E; [|apply temp_path_other|done].
  unfold record_config. rewrite Hc. by intros [= _ <-].
Qed.

Lemma write_synced_wf ws t content x : preserves disk_wf (write_synced_file pid from_slice to_vec_pretty ws t content x).
Proof.
  intros n Hn. eapply (proj1 (A := disk_wf _)).
  by apply (preserves_write_synced pid from_slice to_vec_pretty (fun _ _ => True) ws t).
Qed.

Lemma preserves_others ws t content x fs0 p :
  p <> t -> temp_like p = false -> metadata_path ws t <> Some p -> is_Some (fs0 !! p) ->
  preserves (kept (as_on (fun q => q = p) fs0)) (write_synced_file pid from_slice to_vec_pretty ws t content x).
Proof.
  intros Ht Htemp Hmeta Hp. apply preserves_write_synced.
  - intros k. apply free_as_on. intros Hk. by rewrite <- Hk, temp_path_like in Htemp.
  - intros d r _ _. apply may_come_as_on. by intros ->.
  - apply free_as_on. congruence.
  - intros mp Hmp. split; [apply free_as_on; congruence|]. intros d r _ _. apply may_come_as_on. by intros ->.
Qed.
End theorems.

(** C21: A file a client sends replaces the copy's whole or not at all.  Whatever calls fail and
    whatever bytes a failing write leaves: a write that succeeds has the content (of a
    [tsconfig.json], the coordinated content) at the target and returns its hash, one that
    fails leaves the target what it was; nothing else that existed changes, temporary files and
    the config's record apart; and when the temporary file's name was free, the file that
    arrived is executable exactly when the client's is. *)
Theorem synced_write_atomic (pid : Z) (from_slice : bytes -> option Value) (to_vec_pretty : Value -> bytes)
    (ws t : path) (content : bytes) (x : bool) (n n' : Node) (r : result Z unit) :
  disk_wf (node_fs n) ->
  write_synced_file pid from_slice to_vec_pretty ws t content x n = (r, n') ->
  disk_wf (node_fs n')
  /\ match r with
     | Ok h =>
         node_fs n' !! t = Some (File (coordinated from_slice to_vec_pretty t content))
         /\ h = content_hash (coordinated from_slice to_vec_pretty t content)
         /\ (is_config_path t = false -> node_fs n !! temp_path pid t (next_temp n) = None ->
             (t ∈ executables n' <-> x = true))
     | Err _ => node_fs n' !! t = node_fs n !! t
     end
  /\ forall p, p <> t -> temp_like p = false -> metadata_path ws t <> Some p -> is_Some (node_fs n !! p) ->
     node_fs n' !! p = node_fs n !! p.
Proof.
  intros Hwf E. assert (En : (write_synced_file pid from_slice to_vec_pretty ws t content x n).2 = n') by (by rewrite E).
  split_and!.
  - rewrite <- En. by apply write_synced_wf.
  - destruct r as [h|[]].
    + destruct (ensures_write_synced _ _ _ _ _ _ _ _ _ _ Hwf E) as (_ & Ht & ->). split_and!; [done..|].
      intros Hc Hfree. by eapply write_synced_bits.
    + enough (kept (as_on (fun p => p = t) (node_fs n)) (node_fs n')) as [_ H] by (by apply (H t)).
      eapply on_error_write_synced; [| |split; [exact Hwf|by intros p _]|exact E].
      * intros k. apply free_as_on, temp_path_other.
      * intros d r Hd Hr. apply may_come_as_on. intros ->. exfalso.
        apply Hr, (app_inv_head t). by rewrite app_nil_r.
  - intros p Ht Htemp Hmeta Hp. rewrite <- En.
    apply (preserves_others pid from_slice to_vec_pretty ws t content x (node_fs n) p Ht Htemp Hmeta Hp);
      [by split; [|intros q _]|done].
Qed.

(** ** The record of a coordinated config *)

Definition stamp_text (vs : list Z) : bytes := concat (map (fun v => show v ++ [x0a]) vs).

Lemma stamp_text_lines vs : Forall (fun v => 0 <= v) vs -> lines (stamp_text vs) = map show vs.
Proof.
  induction 1 as [|v vs Hv Hvs IH]; [done|]. unfold stamp_text in *. cbn [map concat].
  rewrite <- app_assoc. cbn [app]. rewrite lines_first, IH.
  - f_equal. unfold strip_cr. destruct (strip_suffix [x0d] (show v)) as [r|] eqn:E; [|done].
    apply strip_suffix_Some in E. exfalso. apply (not_in_digits x0d (show v)); [done|by apply show_digits|].
    rewrite E. set_solver.
  - apply not_in_digits; [done|by apply show_digits].
Qed.

Lemma stamp_text_parses vs : Forall (fun v => 0 <= v <= u64_max) vs -> parse_all (map show vs) = Some vs.
Proof.
  induction 1 as [|v vs Hv Hvs IH]; [done|]. cbn [map parse_all]. rewrite parse_show by done. bind_step.
  by rewrite IH.
Qed.

Lemma stamp_text_ascii vs : Forall (fun v => 0 <= v) vs -> ascii (stamp_text vs).
Proof.
  induction 1 as [|v vs Hv Hvs IH]; [constructor|]. unfold stamp_text in *. cbn [map concat].
  apply Forall_app. split; [|done]. apply Forall_app. split; [|by repeat constructor].
  apply graphic_ascii, digits_graphic, show_digits. lia.
Qed.

Lemma meta_record_text ws t mp a b c d n n' :
  metadata_path ws t = Some mp -> meta_record ws t a b c d n = (Ok tt, n') ->
  node_fs n' !! mp = Some (File (stamp_text [a; b; c; d])).
Proof.
  intros Hmp. unfold meta_record. rewrite Hmp. destruct (parent mp); [|done].
  unfold mbind, IO_bind at 1. destruct (create_dir_all _ n) as [[[]|e] n1]; [|done].
  intros E. apply syscall_ok in E as (fs & Hw & -> & _). destruct (no_nul mp); [|done].
  apply write_at_inv in Hw as (_ & _ & ->). by rewrite lookup_insert_eq.
Qed.

(** The record of a coordinated config reads back.  After the stamps of a [tsconfig.json]
    or [jsconfig.json] were recorded, a probe finds the copy to be the client's exactly for the
    client's size and hash and the copy's size and hash that were recorded. *)
Theorem config_stamps_roundtrip (ws t mp : path) (a b c d a' b' c' d' : Z) (n n' : Node) :
  Forall (fun v => 0 <= v <= u64_max) [a; b; c; d] -> metadata_path ws t = Some mp ->
  meta_record ws t a b c d n = (Ok tt, n') -> node_faults n' = [] ->
  (meta_matches ws t a' b' c' d' n').1 = Ok (bool_decide ([a; b; c; d] = [a'; b'; c'; d'])).
Proof.
  intros Hv Hmp E Hnf. pose proof (meta_record_text _ _ _ _ _ _ _ _ _ Hmp E) as Ht.
  assert (Hv0 : Forall (fun v => 0 <= v) [a; b; c; d]) by (eapply Forall_impl; [exact Hv|simpl; lia]).
  unfold meta_matches. rewrite Hmp. unfold fs_read_text, fs_read, attempt_io, mbind, IO_bind.
  rewrite Hnf, Ht. cbn [hd]. rewrite utf8_valid_ascii by (by apply stamp_text_ascii).
  cbn [mret IO_ret fst]. f_equal. rewrite stamp_text_lines, stamp_text_parses by done.
  apply bool_decide_ext. split; [by intros [=]; simplify_eq|by intros [=]; simplify_eq].
Qed.
