(* ===== verification/GatewaySync.v ===== *)
(** * The gateway's side of a sync

    [sync/apply.rs], [sync/manifest.rs] and the probe of [sync/sync_fs.rs] of the gateway, the
    workspace names of [workspace/paths.rs], the lists of [workspace/stale.rs] and
    [workspace/exec_created.rs], and the walk of [seed_cache/build_cache.rs]: a client's files
    are written to the gateway's copy of its workspace, and a manifest probe compares the copy
    with what the client has.

    A sync here carries no symbolic links; a probe is modelled from the point where the copy
    was seeded, if it was.  The engines' notifications are part of what a sync returns.  The
    order [read_dir] lists a directory in is the disk's own. *)

From Stdlib Require Import Strings.Byte.
From stdpp Require Import gmap.
From S2P Require Import Prelude RustStr Utf8 Net Json Sync Fs Journal NodeDisk.

(** ** Sorted sets of strings *)

(** [str]'s order. *)
Definition bytes_leb (a b : bytes) : bool := lex_le (map u8 a) (map u8 b).

(** [Vec::dedup]. *)
Fixpoint dedup (l : list bytes) : list bytes :=
  match l with
  | [] => []
  | x :: l' => match l' with
               | [] => [x]
               | y :: _ => if bool_decide (x = y) then dedup l' else x :: dedup l'
               end
  end.

(** The elements of a [BTreeSet<String>], in order. *)
Definition btree_set (l : list bytes) : list bytes := dedup (sort_by bytes_leb l).

(** ** Workspace names ([workspace/paths.rs]) *)

Definition is_name_char (c : bytes) : bool :=
  match c with
  | [b] => is_ascii_alphanumeric b || Byte.eqb b x2d || Byte.eqb b x5f || Byte.eqb b x2e
  | _ => false
  end.

Definition sanitize_identifier (s : bytes) : bytes :=
  let sanitized := concat (map (fun c => if is_name_char c then c else [x5f]) (chars s)) in
  let sanitized :=
    match sanitized with
    | x2e :: _ => B "dot-" ++ trim_start_matches (Byte.eqb x2e) sanitized
    | x5f :: _ => B "under-" ++ trim_start_matches (Byte.eqb x5f) sanitized
    | _ => sanitized
    end in
  match sanitized with [] => B "workspace" | _ => sanitized end.

(** [--wt-{hash:08x}] of the low half of the FNV hash. *)
Definition worktree_suffix (client_root : bytes) : bytes :=
  B "--wt-" ++ concat (map hex_lower (to_be_bytes 4 (content_hash client_root `mod` 2 ^ 32))).

(** The names [Path::iter] gives for a text, without the root and a lone backslash: a [.] only
    counts at the start of a relative path. *)
Definition path_names (s : bytes) : list bytes :=
  filter (fun c => c <> [x5c])
    ((match split x2f s with first :: _ => if bool_decide (first = B ".") then [first] else [] | [] => [] end)
     ++ components s).

Definition is_run_name (c : bytes) : bool := starts_with (B "task-") c || starts_with (B "attempt-") c.

(** The name after a [worktrees] that a run follows. *)
Fixpoint runner_worktree (cs : list bytes) : option bytes :=
  match cs with
  | [] => None
  | seg :: rest =>
      match rest with
      | next :: run :: _ =>
          if bool_decide (seg = B "worktrees") && is_run_name run then Some next else runner_worktree rest
      | _ => runner_worktree rest
      end
  end.

Definition generic_prefixes : list bytes := [B "Volumes"; B "mnt"; B "srv"; B "home"; B "var"].

(** The name before a [.worktrees] or [worktrees]. *)
Fixpoint local_worktree (cs : list bytes) : option bytes :=
  match cs with
  | [] => None
  | prev :: rest =>
      match rest with
      | seg :: _ =>
          if (bool_decide (seg = B ".worktrees") || bool_decide (seg = B "worktrees"))
             && negb (bool_decide (prev ∈ generic_prefixes)) then Some prev
          else local_worktree rest
      | [] => None
      end
  end.

Definition is_plain_name (c : bytes) : bool :=
  negb (is_run_name c) && negb (bool_decide (c = B "worktree")) && negb (bool_decide (c = B "worktrees")).

Definition extract_workspace_identifier (client_root : bytes) : bytes :=
  let cs := path_names client_root in
  match runner_worktree cs with
  | Some next => sanitize_identifier next ++ worktree_suffix client_root
  | None =>
      match local_worktree cs with
      | Some prev => sanitize_identifier prev ++ worktree_suffix client_root
      | None =>
          match filter (fun c => is_plain_name c = true) (reverse cs) with
          | name :: _ => sanitize_identifier name
          | [] => sanitize_identifier (default (B "default") (file_name (components client_root)))
          end
      end
  end.

(** [server_workspace_path]: the copy of a client's workspace. *)
Definition candidate_name (client_root : bytes) (explicit_base_name : option bytes) : bytes :=
  match explicit_base_name with
  | Some name => match trim name with
                 | [] => extract_workspace_identifier client_root
                 | trimmed => sanitize_identifier trimmed
                 end
  | None => extract_workspace_identifier client_root
  end.
Definition server_workspace_path (storage_root : path) (client_root : bytes) (base : option bytes) : path :=
  storage_root ++ [candidate_name client_root base].

(** [resolve_server_workspace]. *)
Definition resolve_server_workspace (storage_root : path) (client_root : bytes) (base : option bytes) : IO path :=
  let target := server_workspace_path storage_root client_root base in
  ignore (create_dir_all target) ;; mret target.

(** ** The lists kept in the copy *)

Definition LAST_USED_MARKER : bytes := B ".prod-code-last-used".
Definition STALE_MARKER : bytes := B ".prod-code-stale".
Definition EXEC_CREATED_MARKER : bytes := B ".prod-code-exec-created".
Definition manifest_dir (ws : path) : path := ws ++ [B ".prod"].
Definition manifest_path (ws : path) : path := manifest_dir ws ++ [B "client-sync-manifest.json"].
Definition manifest_temp (ws : path) : path := manifest_dir ws ++ [B "client-sync-manifest.json.tmp"].

Definition touch_last_used (ws : path) (unix_now : Z) : IO unit :=
  ignore (fs_write_file (ws ++ [LAST_USED_MARKER]) (show unix_now)).

(** A list of paths, one to a line. *)
Definition read_list (marker : path) : IO (list bytes) :=
  text ← attempt_io (fs_read_text marker);
  mret match text with
       | Some t => btree_set (filter (fun l => l <> []) (lines t))
       | None => []
       end.
Definition write_list (marker : path) (paths : list bytes) : IO unit :=
  match paths with
  | [] => ignore (fs_unlink marker)
  | _ => ignore (fs_write_file marker (concat (map (fun p => p ++ [x0a]) paths)))
  end.

(** [stale_paths], [write_stale_paths], [record_stale_paths], [forget_stale_paths] and
    [clear_stale_paths]. *)
Definition read_stale_paths (ws : path) : IO (list bytes) := read_list (ws ++ [STALE_MARKER]).
Definition write_stale_paths (ws : path) (paths : list bytes) : IO unit := write_list (ws ++ [STALE_MARKER]) paths.
Definition record_stale_paths (ws : path) (paths : list bytes) : IO unit :=
  match paths with
  | [] => mret tt
  | _ => all ← read_stale_paths ws; write_stale_paths ws (btree_set (all ++ paths))
  end.
Definition forget_stale_paths (ws : path) : IO unit := ignore (fs_unlink (ws ++ [STALE_MARKER])).
Definition clear_stale_paths (ws : path) (arrived : list bytes) : IO (list bytes) :=
  all ← read_stale_paths ws;
  match all with
  | [] => mret []
  | _ =>
      let rest := filter (fun p => p ∉ arrived) all in
      (if bool_decide (length rest = length all) then mret tt else write_stale_paths ws rest) ;;
      mret rest
  end.

(** [record_synced] and [synced_since]. *)
Definition record_synced (ws : path) (files : list (bytes * option Z)) (now : Z) : IO unit :=
  match files with
  | [] => mret tt
  | _ => io_remember (fun m =>
      MkMemory (<[ws := foldl (fun known f => <[f.1 := (now, f.2)]> known)
                          (default ∅ (synced_files m !! ws)) files]> (synced_files m))
        (active_execs m) (next_exec_id m))
  end.
Definition synced_since (m : Memory) (ws : path) (since : Z) : gmap bytes (option Z) :=
  match synced_files m !! ws with
  | Some known => omap (fun e => if since <=? e.1 then Some e.2 else None) known
  | None => ∅
  end.

(** [register_active_exec], what dropping its guard does, and [active_exec_snapshot]. *)
Definition register_active_exec (ws : path) (started : Z) (stamps : gmap bytes (Z * Z)) (m : Memory) : Z * Memory :=
  (next_exec_id m,
   MkMemory (synced_files m)
     (<[ws := default [] (active_execs m !! ws) ++ [MkActiveExec (next_exec_id m) started stamps]]> (active_execs m))
     ((next_exec_id m + 1) `mod` 2 ^ 64)).
Definition drop_exec_guard (ws : path) (id : Z) (m : Memory) : Memory :=
  match active_execs m !! ws with
  | None => m
  | Some execs =>
      let rest := filter (fun e => exec_id e <> id) execs in
      MkMemory (synced_files m)
        (if bool_decide (rest = []) then delete ws (active_execs m) else <[ws := rest]> (active_execs m))
        (next_exec_id m)
  end.
Definition active_exec_snapshot (m : Memory) (ws : path) : option (Z * gmap bytes (Z * Z)) :=
  execs ← active_execs m !! ws;
  first ← head execs;
  Some (exec_started first, exec_stamps first).

(** ** The walk ([seed_cache/build_cache.rs]) *)

Definition node_caches : list bytes :=
  [B ".git"; B ".prod"; B "target"; B "node_modules"; B ".venv"; B "venv"; B "__pycache__"; B ".pytest_cache";
   B ".mypy_cache"; B ".ruff_cache"; B ".tox"; B ".nox"; B "build"; B ".build"; B "dist"; B ".cache"; B ".next";
   B ".turbo"; B "coverage"; B "DerivedData"; B ".swiftpm"; B ".gradle";
   LAST_USED_MARKER; STALE_MARKER; EXEC_CREATED_MARKER].
Definition is_node_cache (name : bytes) : bool := bool_decide (name ∈ node_caches).

(** The text of a path below the root. *)
Definition relative_text (r : path) : bytes := join [x2f] (map utf8_lossy r).

(** [walk_files], with fuel for the depth: the files below [dir], whose path below the root is
    [below]. *)
Fixpoint walk_files (fuel : nat) (fs : disk) (root below : path) : list (bytes * path) :=
  match fuel with
  | O => []
  | S fuel' =>
      concat (map (fun c =>
        let r := below ++ [c] in
        if is_node_cache (utf8_lossy c) then []
        else match fs !! (root ++ r) with
             | Some Dir => walk_files fuel' fs root r
             | Some (File _) => [(relative_text r, root ++ r)]
             | None => []
             end) (entries fs (root ++ below)))
  end.
Definition walk (fs : disk) (root : path) : list (bytes * path) := walk_files (S (depth fs)) fs root [].

(** [exec_created_paths], [present_paths] and [record_exec_created]. *)
Definition exec_created_paths (ws : path) : IO (list bytes) := read_list (ws ++ [EXEC_CREATED_MARKER]).
Definition present_paths (fs : disk) (ws : path) : list bytes := btree_set (map fst (walk fs ws)).
Definition record_exec_created (ws : path) (before : list bytes) : IO unit :=
  fs ← io_disk;
  let now := present_paths fs ws in
  all ← exec_created_paths ws;
  write_list (ws ++ [EXEC_CREATED_MARKER])
    (filter (fun p => p ∈ now) (btree_set (all ++ filter (fun p => p ∉ before) now))).

(** [prune_empty_dirs]: whether [dir] is now empty. *)
Fixpoint prune_entries (prune : path -> IO bool) (dir : path) (names : list bytes) : IO bool :=
  match names with
  | [] => mret true
  | c :: rest =>
      fs ← io_disk;
      gone ← (if is_dir_at fs (dir ++ [c]) && negb (is_node_cache (utf8_lossy c)) then
                empty ← prune (dir ++ [c]);
                (if empty then ignore (fs_rmdir (dir ++ [c])) else mret tt) ;; mret (empty : bool)
              else mret false);
      others ← prune_entries prune dir rest;
      mret (gone && others)
  end.
Fixpoint prune_empty_dirs (fuel : nat) (root dir : path) : IO bool :=
  match fuel with
  | O => mret false
  | S fuel' =>
      fs ← io_disk;
      if is_dir_at fs dir then
        empty ← prune_entries (prune_empty_dirs fuel' root) dir (entries fs dir);
        mret (empty && negb (bool_decide (dir = root)))
      else mret false
  end.

(** ** The manifest ([sync/manifest.rs]) *)

Section sync.
Context (pid : Z).
(** serde_json: the TypeScript configs, and the set of paths the manifest holds. *)
Context (from_slice : bytes -> option Value) (to_vec_pretty : Value -> bytes).
Context (set_from_slice : bytes -> option (list bytes)) (set_to_vec : list bytes -> bytes).

Definition manifest_load (ws : path) : IO (list bytes) :=
  text ← attempt_io (fs_read (manifest_path ws));
  mret (default [] (text ≫= set_from_slice)).
Definition manifest_save (ws : path) (paths : list bytes) : IO unit :=
  create_dir_all (manifest_dir ws) ;;
  fs_write_file (manifest_temp ws) (set_to_vec paths) ;;
  fs_rename_file (manifest_temp ws) (manifest_path ws).

(** The command that runs in the copy, if one does: the stamps before it, and what syncs
    delivered since. *)
Definition running (ws : path) : IO (option (gmap bytes (Z * Z)) * gmap bytes (option Z)) :=
  m ← io_memory;
  mret match active_exec_snapshot m ws with
       | Some (started, stamps) => (Some stamps, synced_since m ws started)
       | None => (None, ∅)
       end.

(** The stamp a [HashMap] of the manifest has for a path: the last one. *)
Definition wanted (stamps : list FileStamp) (rel : bytes) : option FileStamp :=
  head (filter (fun s => stamp_path s = rel) (reverse stamps)).

(** Whether a file is the one the stamp describes. *)
Definition same_content (ws p : path) (rel : bytes) (stamp : FileStamp)
    (before : option (gmap bytes (Z * Z))) (synced : gmap bytes (option Z)) : IO bool :=
  content ← attempt_io (fs_read p);
  match content with
  | None => mret false
  | Some b =>
      if (zlen b =? size stamp) && (content_hash b =? hash stamp) then mret true
      else if match before with
              | Some stamps => bool_decide (stamps !! rel = Some (size stamp, hash stamp)) && negb (bool_decide (is_Some (synced !! rel)))
              | None => false
              end then mret true
      else meta_matches ws p (size stamp) (hash stamp) (zlen b) (content_hash b)
  end.
Definition same_mode (n : Node) (p : path) (stamp : FileStamp) : bool :=
  match stamp_executable stamp with
  | Some x => eqb (is_executable_at n p) x
  | None => true
  end.
Definition io_same_mode (p : path) (stamp : FileStamp) : IO bool := fun n => (Ok (same_mode n p stamp), n).

Record Reconciled := MkReconciled {
  rec_missing : list bytes;
  rec_deleted : list bytes;
  rec_seen : list bytes;
}.

(** What keeps an unlisted file. *)
Definition keeps_unlisted (managed made : list bytes) (before : option (gmap bytes (Z * Z)))
    (synced : gmap bytes (option Z)) (rel : bytes) : bool :=
  negb (bool_decide (rel ∈ managed)) || bool_decide (rel ∈ made)
  || match before with
     | Some stamps => negb (bool_decide (is_Some (stamps !! rel))) && negb (bool_decide (is_Some (synced !! rel)))
     | None => false
     end.

(** The body of the loop over the files present. *)
Definition reconcile_file (ws : path) (stamps : list FileStamp) (managed made : list bytes)
    (before : option (gmap bytes (Z * Z))) (synced : gmap bytes (option Z))
    (file : bytes * path) (r : Reconciled) : IO Reconciled :=
  let '(rel, p) := file in
  match wanted stamps rel with
  | None =>
      if keeps_unlisted managed made before synced rel then mret r
      else
        removed ← attempt_io (fs_unlink p);
        match removed with
        | Some _ => ignore (meta_forget ws p) ;; mret (MkReconciled (rec_missing r) (rec_deleted r ++ [rel]) (rec_seen r))
        | None => mret r
        end
  | Some stamp =>
      same ← same_content ws p rel stamp before synced;
      mode ← io_same_mode p stamp;
      mret (MkReconciled (if negb same || negb mode then rec_missing r ++ [rel] else rec_missing r)
              (rec_deleted r) (stamp_path stamp :: rec_seen r))
  end.
Fixpoint reconcile_files (ws : path) (stamps : list FileStamp) (managed made : list bytes)
    (before : option (gmap bytes (Z * Z))) (synced : gmap bytes (option Z))
    (present : list (bytes * path)) (r : Reconciled) : IO Reconciled :=
  match present with
  | [] => mret r
  | file :: rest =>
      r' ← reconcile_file ws stamps managed made before synced file r;
      reconcile_files ws stamps managed made before synced rest r'
  end.

(** [reconcile_manifest_with_ownership]. *)
Definition reconcile_manifest_with_ownership (ws : path) (stamps : list FileStamp) (managed : list bytes)
    : IO (list bytes * list bytes) :=
  run ← running ws;
  fs ← io_disk;
  made ← exec_created_paths ws;
  r ← reconcile_files ws stamps managed made run.1 run.2 (walk fs ws) (MkReconciled [] [] []);
  let unseen := filter (fun rel => rel ∉ rec_seen r) (map stamp_path stamps) in
  fs' ← io_disk;
  _ ← prune_empty_dirs (S (depth fs')) ws ws;
  mret (btree_set (rec_missing r ++ unseen), rec_deleted r).

(** [reconcile_manifest]: every file present is the client's. *)
Definition reconcile_manifest (ws : path) (stamps : list FileStamp) : IO (list bytes * list bytes) :=
  fs ← io_disk; reconcile_manifest_with_ownership ws stamps (present_paths fs ws).

(** ** A probe ([apply_sync_probe] from the seeding on) *)

Definition root_configs : list bytes := [B "tsconfig.json"; B "jsconfig.json"].

(** The root's configs that are as the client has them are coordinated; what that fails for is
    missing. *)
Fixpoint coordinate_configs (target : path) (stamps : list FileStamp) (missing : list bytes) : IO (list bytes) :=
  match stamps with
  | [] => mret missing
  | stamp :: rest =>
      let rel := stamp_path stamp in
      if bool_decide (rel ∈ missing) then coordinate_configs target rest missing
      else
        content ← attempt_io (fs_read (target ++ [rel]));
        match content with
        | Some b =>
            if negb ((zlen b =? size stamp) && (content_hash b =? hash stamp)) then coordinate_configs target rest missing
            else
              written ← attempt_io (write_synced_file pid from_slice to_vec_pretty target (target ++ [rel]) b false);
              coordinate_configs target rest (match written with Some _ => missing | None => missing ++ [rel] end)
        | None => coordinate_configs target rest missing
        end
  end.

Definition path_text (p : path) : bytes := concat (map (fun c => x2f :: utf8_lossy c) p).

Definition probe_seeded (target : path) (stamps : list FileStamp) (fresh was_seeded : bool) (unix_now : Z)
    : IO SyncProbeResponse :=
  ignore (create_dir_all target) ;;
  previously_managed ← manifest_load target;
  reconciled ← reconcile_manifest_with_ownership target stamps previously_managed;
  ignore (manifest_save target (btree_set (map stamp_path stamps))) ;;
  forget_stale_paths target ;;
  missing ← coordinate_configs target (filter (fun s => stamp_path s ∈ root_configs) stamps) reconciled.1;
  let missing := btree_set missing in
  (if negb fresh || was_seeded || bool_decide (missing = []) then touch_last_used target unix_now else mret tt) ;;
  mret (mkProbeResponse (path_text target) was_seeded (zlen reconciled.2) missing).

(** ** A sync ([sync/apply.rs]) *)

Inductive WatchedChange := Created | Changed | Deleted.

(** What the loop over the files counts and collects. *)
Record Tally := MkTally {
  t_updated : Z;
  t_deleted : Z;
  t_bytes : Z;
  t_config_changed : bool;
  t_watched : list (path * WatchedChange);
  t_failed : list bytes;
  t_synced : list (bytes * option Z);
  t_base_paths : list path;
}.

Definition config_names : list bytes :=
  [B "tsconfig.json"; B "jsconfig.json"; B "package.json"; B "deno.json"; B "pyproject.toml"; B "setup.cfg";
   B "setup.py"; B "pyrightconfig.json"; B "uv.lock"; B "CMakeLists.txt"; B "compile_commands.json"; B ".clangd";
   B "meson.build"; B "Package.swift"; B "Package.resolved"; B "project.pbxproj"; B "go.mod"; B "go.work";
   B "Cargo.toml"; B "Cargo.lock"; B "rust-toolchain.toml"; B "prod-code.toml"].
Definition is_project_config_file (rel_path : bytes) : bool :=
  let name := default rel_path (last (split x2f rel_path)) in
  bool_decide (name ∈ config_names) || starts_with (B "requirements") name.

Definition tally_failed (rel : bytes) (t : Tally) : Tally :=
  MkTally (t_updated t) (t_deleted t) (t_bytes t) (t_config_changed t) (t_watched t) (t_failed t ++ [rel])
    (t_synced t) (t_base_paths t).

(** The arm of a file with content. *)
Definition apply_content (ws target : path) (rel content : bytes) (executable : bool)
    (before : option (gmap bytes (Z * Z))) (synced : gmap bytes (option Z)) (t : Tally) : IO Tally :=
  fs ← io_disk;
  if exists_at fs target
     && match before with
        | Some stamps => bool_decide (stamps !! rel = Some (zlen content, content_hash content))
        | None => false
        end
     && negb (bool_decide (is_Some (synced !! rel)))
  then mret t
  else
    let bytes := t_bytes t + zlen content in
    written ← attempt_io (write_synced_file pid from_slice to_vec_pretty ws target content executable);
    mret match written with
         | None => MkTally (t_updated t) (t_deleted t) bytes (t_config_changed t) (t_watched t) (t_failed t ++ [rel])
                     (t_synced t) (t_base_paths t)
         | Some digest =>
             MkTally (t_updated t + 1) (t_deleted t) bytes (t_config_changed t)
               (t_watched t ++ [(target, if exists_at fs target then Changed else Created)]) (t_failed t)
               (t_synced t ++ [(rel, Some digest)]) (t_base_paths t ++ [target])
         end.

(** The arm of a deletion. *)
Definition apply_deletion (ws target : path) (rel : bytes) (t : Tally) : IO Tally :=
  let done_ deleted watched :=
    MkTally (t_updated t) (t_deleted t + deleted) (t_bytes t) (t_config_changed t) (t_watched t ++ watched)
      (t_failed t) (t_synced t ++ [(rel, None)]) (t_base_paths t ++ [target]) in
  fs ← io_disk;
  if exists_at fs target then
    removed ← attempt_io (fs_unlink target);
    match removed with
    | Some _ =>
        ignore (meta_forget ws target) ;;
        prune_empty_parents ws (parent target) ;;
        mret (done_ 1 [(target, Deleted)])
    | None => mret (tally_failed rel t)
    end
  else mret (done_ 0 []).

Definition apply_delta (ws : path) (before : option (gmap bytes (Z * Z))) (synced : gmap bytes (option Z))
    (delta : FileDelta) (t : Tally) : IO Tally :=
  fs ← io_disk;
  let rel := relative_path delta in
  match safe_sync_target fs ws rel with
  | None => mret (tally_failed rel t)
  | Some target =>
      let t := MkTally (t_updated t) (t_deleted t) (t_bytes t) (t_config_changed t || is_project_config_file rel)
                 (t_watched t) (t_failed t) (t_synced t) (t_base_paths t) in
      match content delta with
      | Some content => apply_content ws target rel content (is_executable delta) before synced t
      | None => apply_deletion ws target rel t
      end
  end.
Fixpoint apply_deltas (ws : path) (before : option (gmap bytes (Z * Z))) (synced : gmap bytes (option Z))
    (deltas : list FileDelta) (t : Tally) : IO Tally :=
  match deltas with
  | [] => mret t
  | delta :: rest => t' ← apply_delta ws before synced delta t; apply_deltas ws before synced rest t'
  end.

(** The client's manifest after a sync. *)
Definition manifest_after (manifest : list bytes) (synced : list (bytes * option Z)) : list bytes :=
  foldl (fun m e => match e.2 with Some _ => btree_set (m ++ [e.1]) | None => filter (fun p => p <> e.1) m end)
    manifest synced.

(** The failed paths the answer does not name yet. *)
Definition report_failed (stale failed : list bytes) : list bytes :=
  foldl (fun s p => if bool_decide (p ∈ s) then s else s ++ [p]) stale failed.

Record SyncOutcome := MkOutcome {
  outcome_response : SyncResponse;
  outcome_watched : list (path * WatchedChange);
  outcome_base_paths : list path;
  outcome_config_changed : bool;
}.

(** What follows the loop: the records, and the answer. *)
Definition finish_sync (ws : path) (deltas : list FileDelta) (unix_now now duration : Z) (was_fresh : bool)
    (t : Tally) : IO SyncOutcome :=
  record_synced ws (t_synced t) now ;;
  manifest ← manifest_load ws;
  ignore (manifest_save ws (manifest_after manifest (t_synced t))) ;;
  touch_last_used ws unix_now ;;
  stale ← clear_stale_paths ws (map relative_path deltas);
  record_stale_paths ws (t_failed t) ;;
  mret (MkOutcome
    (mkSyncResponse (t_updated t) (t_deleted t) (t_bytes t) duration (path_text ws) was_fresh
       (report_failed stale (t_failed t)))
    (t_watched t) (t_base_paths t) (t_config_changed t)).

(** [apply_sync_with_metrics] of a request without symbolic links, up to the engines. *)
Definition apply_sync (storage_root : path) (client_root : bytes) (base : option bytes) (deltas : list FileDelta)
    (unix_now now duration : Z) : IO SyncOutcome :=
  ws ← resolve_server_workspace storage_root client_root base;
  fs ← io_disk;
  let was_fresh := negb (exists_at fs (ws ++ [LAST_USED_MARKER])) in
  (if was_fresh then mret tt else touch_last_used ws unix_now) ;;
  run ← running ws;
  t ← apply_deltas ws run.1 run.2 deltas (MkTally 0 0 0 false [] [] [] []);
  finish_sync ws deltas unix_now now duration was_fresh t.
End sync.
