(* ===== verification/SyncCorrect.v ===== *)
(** * What a sync and a probe do to the copy

    Theorems about [GatewaySync]: where a client's copy is and that nothing else changes, that
    a sync leaves no path between the client's content and a report, that a probe deletes only
    what the client's manifest gave it, and that a probe and the sync that answers it leave the
    copy as the client's manifest describes, or say which paths are not. *)

From Stdlib Require Import Strings.Byte.
From stdpp Require Import gmap.
From S2P Require Import Prelude RustStr Utf8 Net Json Sync Fs Journal NodeDisk GatewaySync.

(** ** Names *)

Definition name_byte (b : byte) : Prop :=
  (is_ascii_alphanumeric b || Byte.eqb b x2d || Byte.eqb b x5f || Byte.eqb b x2e) = true.

(** A name for a copy: one component, not hidden from Go's tools. *)
Definition copy_name (s : bytes) : Prop :=
  Forall name_byte s /\ exists b r, s = b :: r /\ b <> x2e /\ b <> x5f.

Lemma trim_start_matches_Forall (P : byte -> Prop) f s : Forall P s -> Forall P (trim_start_matches f s).
Proof. induction 1 as [|b s Hb Hs IH]; simpl; [done|]. destruct (f b); [done|by constructor]. Qed.

Lemma sanitize_identifier_name s : copy_name (sanitize_identifier s).
Proof.
  unfold sanitize_identifier.
  set (l := concat (map (fun c => if is_name_char c then c else [x5f]) (chars s))).
  assert (Hl : Forall name_byte l).
  { unfold l. induction (chars s) as [|c cs IH]; simpl; [constructor|]. apply Forall_app. split; [|done].
    destruct (is_name_char c) eqn:E; [|by repeat constructor]. destruct c as [|b [|]]; try done.
    constructor; [done|constructor]. }
  clearbody l. destruct l as [|b l]; [split; [by repeat constructor|by eexists _, _]|].
  assert (Hdot : Forall name_byte (B "dot-") /\ Forall name_byte (B "under-")) by (split; by repeat constructor).
  destruct (byte_eqb_spec b x2e) as [->|H1].
  { split; [apply Forall_app; split; [apply Hdot|by apply trim_start_matches_Forall]|by eexists _, _]. }
  destruct (byte_eqb_spec b x5f) as [->|H2].
  { split; [apply Forall_app; split; [apply Hdot|by apply trim_start_matches_Forall]|by eexists _, _]. }
  assert (E : match b :: l with
              | x2e :: _ => B "dot-" ++ trim_start_matches (Byte.eqb x2e) (b :: l)
              | x5f :: _ => B "under-" ++ trim_start_matches (Byte.eqb x5f) (b :: l)
              | _ => b :: l
              end = b :: l) by (destruct b; done).
  rewrite E. split; [done|by eexists _, _].
Qed.

Lemma copy_name_app a b : copy_name a -> Forall name_byte b -> copy_name (a ++ b).
Proof.
  intros [Ha (x & r & -> & Hx)] Hb. split; [by apply Forall_app|]. by eexists x, (r ++ b).
Qed.

Lemma hex_lower_name b : Forall name_byte (hex_lower b).
Proof. unfold name_byte. destruct b; by repeat constructor. Qed.

Lemma worktree_suffix_name s : Forall name_byte (worktree_suffix s).
Proof.
  apply Forall_app. split; [by repeat constructor|].
  induction (to_be_bytes 4 _) as [|b l IH]; simpl; [constructor|].
  change (Forall name_byte (hex_lower b ++ concat (map hex_lower l))). apply Forall_app. split; [|done]. apply hex_lower_name.
Qed.

Lemma extract_workspace_identifier_name s : copy_name (extract_workspace_identifier s).
Proof.
  unfold extract_workspace_identifier.
  pose proof (worktree_suffix_name s). pose proof sanitize_identifier_name.
  destruct (runner_worktree _); [by apply copy_name_app|].
  destruct (local_worktree _); [by apply copy_name_app|].
  by destruct (filter _ _).
Qed.

Lemma candidate_name_copy client_root base : copy_name (candidate_name client_root base).
Proof.
  unfold candidate_name. pose proof (extract_workspace_identifier_name client_root).
  destruct base as [s|]; [|done]. destruct (trim s); [done|]. apply sanitize_identifier_name.
Qed.

(** A client's copy is a directory of its own right under the storage root, whatever the
    client calls its workspace: the name is one non-empty component of letters, digits, [-],
    [_] and [.], begins with neither [.] nor [_], and so is neither [..] nor the directory the
    config records are in. *)
Theorem workspace_confined (storage_root : path) (client_root : bytes) (base : option bytes) :
  exists name,
    server_workspace_path storage_root client_root base = storage_root ++ [name]
    /\ Forall (fun b => (is_ascii_alphanumeric b || Byte.eqb b x2d || Byte.eqb b x5f || Byte.eqb b x2e) = true) name
    /\ name <> [] /\ head name <> Some x2e /\ head name <> Some x5f
    /\ name <> METADATA_DIR.
Proof.
  exists (candidate_name client_root base). split; [done|].
  assert (copy_name (candidate_name client_root base)) as [Hall (b & r & E & H1 & H2)] by apply candidate_name_copy.
  split; [done|]. rewrite E. split_and!; [done|simpl; congruence..|].
  intros Hm. by injection Hm as ->.
Qed.

(** ** The gateway's own files of a copy *)

Definition own_files (ws : path) : list path :=
  [ws ++ [LAST_USED_MARKER]; ws ++ [STALE_MARKER]; manifest_temp ws; manifest_path ws].

Lemma own_last_used ws : ws ++ [LAST_USED_MARKER] ∈ own_files ws.
Proof. unfold own_files. left. Qed.
Lemma own_stale ws : ws ++ [STALE_MARKER] ∈ own_files ws.
Proof. unfold own_files. right. left. Qed.
Lemma own_manifest_temp ws : manifest_temp ws ∈ own_files ws.
Proof. unfold own_files. do 2 right. left. Qed.
Lemma own_manifest ws : manifest_path ws ∈ own_files ws.
Proof. unfold own_files. do 3 right. left. Qed.

Section own.
Context (R : path -> option node -> Prop) (ws : path).
Context (Hown : forall q, q ∈ own_files ws -> spares R q).

Lemma own_dirs d r : ws = d ++ r -> may_come R d.
Proof using Hown.
  intros ->. apply (proj2 (Hown _ (own_last_used (d ++ r))) d (r ++ [LAST_USED_MARKER])).
  - by rewrite app_assoc.
  - by destruct r.
Qed.
Lemma preserves_create_ws : preserves (kept R) (create_dir_all ws).
Proof using Hown.
  apply preserves_create_dir_all. intros d r fs fs' E. apply kept_mkdir. by eapply own_dirs.
Qed.
Lemma preserves_touch now : preserves (kept R) (touch_last_used ws now).
Proof using Hown.
  apply preserves_ignore, preserves_write. intros b fs fs'. apply kept_write, Hown, own_last_used.
Qed.
Lemma preserves_read_list m : preserves (kept R) (read_list m).
Proof. apply preserves_bind; auto with node. Qed.
Lemma preserves_write_list m l : free_at R m -> preserves (kept R) (write_list m l).
Proof.
  intros Hm. unfold write_list. destruct l.
  - apply preserves_ignore, preserves_unlink. intros fs fs'. by apply kept_unlink.
  - apply preserves_ignore, preserves_write. intros b fs fs'. by apply kept_write.
Qed.
Lemma stale_free : free_at R (ws ++ [STALE_MARKER]).
Proof using Hown. apply Hown, own_stale. Qed.
Lemma preserves_forget_stale : preserves (kept R) (forget_stale_paths ws).
Proof using Hown.
  apply preserves_ignore, preserves_unlink. intros fs fs'. apply kept_unlink, stale_free.
Qed.
Lemma preserves_record_stale l : preserves (kept R) (record_stale_paths ws l).
Proof using Hown.
  unfold record_stale_paths. destruct l; [auto with node|]. apply preserves_bind; [apply preserves_read_list|].
  intros all. apply preserves_write_list, stale_free.
Qed.
Lemma preserves_clear_stale l : preserves (kept R) (clear_stale_paths ws l).
Proof using Hown.
  apply preserves_bind; [apply preserves_read_list|]. intros all. destruct all; [auto with node|].
  apply preserves_bind; [|auto with node]. case_bool_decide; [auto with node|].
  apply preserves_write_list, stale_free.
Qed.
Lemma preserves_record_synced files now : preserves (kept R) (record_synced ws files now).
Proof. unfold record_synced. destruct files; auto with node. Qed.
Lemma preserves_running : preserves (kept R) (running ws).
Proof. apply preserves_bind; auto with node. Qed.
Lemma preserves_manifest_load set_from_slice : preserves (kept R) (manifest_load set_from_slice ws).
Proof. apply preserves_bind; auto with node. Qed.
Lemma preserves_manifest_save set_to_vec l : preserves (kept R) (manifest_save set_to_vec ws l).
Proof using Hown.
  apply preserves_bind.
  - apply preserves_create_dir_all. intros d r fs fs' E. apply kept_mkdir.
    apply (proj2 (Hown _ (own_manifest_temp ws)) d (r ++ [B "client-sync-manifest.json.tmp"])).
    + unfold manifest_temp. by rewrite E, app_assoc.
    + by destruct r.
  - intros [] n Hn. apply (preserves_commit R (manifest_temp ws) (manifest_path ws) (set_to_vec l) false); [| | |done].
    + unfold manifest_temp, manifest_path. by intros ?%app_inv_head.
    + apply Hown, own_manifest_temp.
    + apply Hown, own_manifest.
Qed.
End own.

(** ** One file of a sync *)

Lemma safe_sync_target_eq fs ws rel t :
  safe_sync_target fs ws rel = Some t -> t = ws ++ split x2f rel.
Proof.
  unfold safe_sync_target. destruct (_ || _); [done|]. destruct (negb _); [done|].
  destruct (target_walk _ _ _); [|done]. by intros [= <-].
Qed.

Lemma split_no_sep sep s : Forall (fun c => sep ∉ c) (split sep s).
Proof.
  unfold split. induction s as [|b s IH]; cbn [split_byte]; [by repeat constructor; apply not_elem_of_nil|].
  destruct (Byte.eqb sep b) eqn:E; [constructor; [apply not_elem_of_nil|done]|].
  apply byte_eqb_neq in E. destruct IH as [|w ws Hw Hws]; constructor; try done; set_solver.
Qed.
Lemma safe_sync_target_plain ws fs rel t :
  safe_sync_target fs ws rel = Some t ->
  exists comps, t = ws ++ comps /\ comps <> []
    /\ Forall (fun c => c <> [] /\ c <> B "." /\ c <> B ".." /\ x2f ∉ c) comps.
Proof.
  intros H. exists (split x2f rel). split; [by eapply safe_sync_target_eq|]. split; [apply split_nil_inv|].
  unfold safe_sync_target in H. destruct (_ || _ || _); [done|].
  destruct (forallb normal_component (split x2f rel)) eqn:Hn; [|done]. rewrite forallb_forall in Hn.
  pose proof (split_no_sep x2f rel) as Hsep. rewrite Forall_forall in Hsep |- *.
  intros c Hc. specialize (Hn c (proj1 (list_elem_of_In _ _) Hc)). unfold normal_component in Hn.
  rewrite !andb_true_iff, !negb_true_iff, !bool_decide_eq_false in Hn. destruct Hn as [[? ?] ?]. split_and!; try done. by apply Hsep.
Qed.

(** The target [t] may be written or removed, with what goes with it. *)
Definition delta_free (pid : Z) (R : path -> option node -> Prop) (ws t : path) : Prop :=
  (forall k, free_at R (temp_path pid t k))
  /\ spares R t
  /\ (forall mp, metadata_path ws t = Some mp -> spares R mp)
  /\ forall d, d <> ws -> path_starts_with d ws = true -> may_go R d.

Section delta.
Context (pid : Z) (from_slice : bytes -> option Value) (to_vec_pretty : Value -> bytes).
Context (R : path -> option node -> Prop) (ws : path).

Lemma preserves_apply_content t rel content x before synced tally :
  delta_free pid R ws t ->
  preserves (kept R) (apply_content pid from_slice to_vec_pretty ws t rel content x before synced tally).
Proof.
  intros (Htemp & [Ht Hdirs] & Hmeta & _). apply preserves_bind; [auto with node|]. intros fs.
  destruct (_ && _ && _); [auto with node|]. apply preserves_bind; [|auto with node].
  apply preserves_attempt. by apply preserves_write_synced.
Qed.
Lemma preserves_apply_deletion t rel tally :
  delta_free pid R ws t -> preserves (kept R) (apply_deletion ws t rel tally).
Proof.
  intros (_ & [Ht Hdirs] & Hmeta & Hgo). apply preserves_bind; [auto with node|]. intros fs.
  destruct (exists_at fs t); [|auto with node]. apply preserves_bind.
  { apply preserves_attempt, preserves_unlink. intros fs1 fs2. by apply kept_unlink. }
  intros [[]|]; [|auto with node]. apply preserves_bind; [by apply preserves_ignore, preserves_meta_forget|].
  intros []. apply preserves_bind; [|auto with node]. apply preserves_prune.
  intros d fs1 fs2 Hd Hws. apply kept_rmdir. by apply Hgo.
Qed.
Lemma preserves_apply_delta before synced delta tally :
  delta_free pid R ws (ws ++ split x2f (relative_path delta)) ->
  preserves (kept R) (apply_delta pid from_slice to_vec_pretty ws before synced delta tally).
Proof.
  intros H. apply preserves_bind; [auto with node|]. intros fs. cbv zeta.
  destruct (safe_sync_target fs ws (relative_path delta)) as [t|] eqn:E; [|auto with node].
  apply safe_sync_target_eq in E as ->.
  destruct (content delta); [by apply preserves_apply_content|by apply preserves_apply_deletion].
Qed.
Lemma preserves_apply_deltas before synced deltas tally :
  (forall delta, delta ∈ deltas -> delta_free pid R ws (ws ++ split x2f (relative_path delta))) ->
  preserves (kept R) (apply_deltas pid from_slice to_vec_pretty ws before synced deltas tally).
Proof.
  revert tally. induction deltas as [|delta deltas IH]; intros tally H; cbn [apply_deltas]; [auto with node|].
  apply preserves_bind; [apply preserves_apply_delta, H; left|]. intros t. apply IH.
  intros d Hd. apply H. by right.
Qed.
End delta.

(** ** What is outside of a copy *)

Definition meta_root (ws : path) : path := removelast ws ++ [METADATA_DIR].

Lemma metadata_path_under ws t mp : metadata_path ws t = Some mp -> exists r, r <> [] /\ mp = meta_root ws ++ r.
Proof.
  unfold metadata_path. destruct (strip_path ws t) as [rel|]; [|done]. bind_step.
  destruct (file_name t) as [name|]; [|done]. bind_step. destruct (_ && _); [|done].
  destruct (file_name ws) as [wn|]; [|done]. bind_step. destruct (parent ws) as [st|] eqn:Ep; [|done]. bind_step.
  intros [= <-]. exists (wn :: removelast rel ++ [stamp_name name]). split; [done|].
  unfold meta_root. unfold parent in Ep. destruct ws; [done|]. injection Ep as <-. by rewrite <- app_assoc.
Qed.

(** Outside of the copy and the config records. *)
Definition outside (ws p : path) : Prop :=
  path_starts_with p ws = false /\ path_starts_with p (meta_root ws) = false.

Section outside.
Context (pid : Z) (fs0 : disk) (storage : path) (name : bytes).
Context (Hwf : disk_wf fs0) (Hstorage : fs0 !! storage = Some Dir).
Local Abbreviation ws := (storage ++ [name]).
Local Abbreviation R := (as_on (outside ws) fs0).

Lemma meta_root_eq : meta_root ws = storage ++ [METADATA_DIR].
Proof. unfold meta_root. by rewrite removelast_last. Qed.

(** The directories on the way to something right under the storage root. *)
Lemma way_exists c r d s : storage ++ c :: r = d ++ s -> path_starts_with d (storage ++ [c]) = false ->
  is_Some (fs0 !! d).
Proof using Hwf Hstorage.
  intros E Hd. change (storage ++ c :: r) with (storage ++ [c] ++ r) in E. rewrite app_assoc in E.
  apply app_eq_app in E as [l [[E ->]|[-> _]]].
  - destruct l as [|x l _] using rev_ind.
    + rewrite app_nil_r in E. subst d. by rewrite path_starts_with_refl in Hd.
    + rewrite app_assoc in E. apply app_inj_tail in E as [-> _].
      destruct l as [|y l]; [rewrite app_nil_r in Hstorage; eauto|].
      exists Dir. by eapply wf_above.
  - by destruct (proj1 (path_starts_with_false _ _) Hd l).
Qed.

Lemma inside_spares c r :
  c = name \/ c = METADATA_DIR -> spares R (storage ++ c :: r).
Proof using Hwf Hstorage.
  intros Hc. assert (Hin : forall p, outside ws p -> path_starts_with p (storage ++ [c]) = false).
  { intros p [H1 H2]. rewrite meta_root_eq in H2. by destruct Hc as [->| ->]. }
  split.
  - apply free_as_on. intros Ho%Hin. apply (proj1 (path_starts_with_false _ _) Ho r). by rewrite <- app_assoc.
  - intros d s E _. apply may_come_as_on. intros Ho%Hin. by eapply way_exists.
Qed.

Lemma outside_own q : q ∈ own_files ws -> spares R q.
Proof using Hwf Hstorage.
  unfold own_files, manifest_temp, manifest_path, manifest_dir. rewrite !elem_of_cons, elem_of_nil.
  intros [->|[->|[->|[->|[]]]]]; rewrite <- ?app_assoc; by apply inside_spares; left.
Qed.

Lemma outside_delta comps : comps <> [] -> delta_free pid R ws (ws ++ comps).
Proof using Hwf Hstorage.
  intros Hc. split_and!.
  - intros k. unfold temp_path, with_file_name.
    destruct (file_name (ws ++ comps)).
    + destruct comps as [|c comps _] using rev_ind; [done|]. rewrite (app_assoc ws), removelast_last, <- !app_assoc.
      by apply inside_spares; left.
    + rewrite <- !app_assoc. by apply inside_spares; left.
  - rewrite <- app_assoc. by apply inside_spares; left.
  - intros mp (r & _ & ->)%metadata_path_under. rewrite meta_root_eq, <- app_assoc. by apply inside_spares; right.
  - intros d _ Hd. intros _ [Ho _]. congruence.
Qed.
End outside.

(** ** A whole sync and a whole probe *)

Lemma resolve_is J storage client base :
  ensures J (resolve_server_workspace storage client base) (fun a _ => a = server_workspace_path storage client base).
Proof. intros n a n' _. by intros [= <- _]. Qed.

Section whole.
Context (pid : Z) (from_slice : bytes -> option Value) (to_vec_pretty : Value -> bytes).
Context (set_from_slice : bytes -> option (list bytes)) (set_to_vec : list bytes -> bytes).
Context (R : path -> option node -> Prop).

Lemma preserves_finish_sync ws deltas unix_now now duration was_fresh t :
  (forall q, q ∈ own_files ws -> spares R q) ->
  preserves (kept R) (finish_sync set_from_slice set_to_vec ws deltas unix_now now duration was_fresh t).
Proof.
  intros Hown. apply preserves_bind; [apply preserves_record_synced|]. intros [].
  apply preserves_bind; [apply preserves_manifest_load|]. intros manifest.
  apply preserves_bind; [by apply preserves_ignore, preserves_manifest_save|]. intros [].
  apply preserves_bind; [by apply preserves_touch|]. intros [].
  apply preserves_bind; [by apply preserves_clear_stale|]. intros stale.
  apply preserves_bind; [by apply preserves_record_stale|]. auto with node.
Qed.

Lemma preserves_apply_sync storage client base deltas unix_now now duration :
  (forall q, q ∈ own_files (server_workspace_path storage client base) -> spares R q) ->
  (forall delta, delta ∈ deltas ->
     delta_free pid R (server_workspace_path storage client base)
       (server_workspace_path storage client base ++ split x2f (relative_path delta))) ->
  preserves (kept R) (apply_sync pid from_slice to_vec_pretty set_from_slice set_to_vec
    storage client base deltas unix_now now duration).
Proof.
  intros Hown Hdeltas. eapply preserves_bind_ensures.
  - apply preserves_bind; [by apply preserves_ignore, preserves_create_ws|auto with node].
  - by apply resolve_is.
  - intros ws n Hn ->. revert n Hn. apply preserves_bind; [auto with node|]. intros fs.
    apply preserves_bind; [destruct (negb _); [auto with node|by apply preserves_touch]|]. intros [].
    apply preserves_bind; [apply preserves_running|]. intros run.
    apply preserves_bind; [by apply preserves_apply_deltas|]. intros t. by apply preserves_finish_sync.
Qed.

(** A file the probe finds and the manifest does not list is forgotten with its record. *)
Definition unlisted_free (ws : path) (stamps : list FileStamp) (managed made : list bytes)
    (before : option (gmap bytes (Z * Z))) (synced : gmap bytes (option Z)) (file : bytes * path) : Prop :=
  wanted stamps file.1 = None -> keeps_unlisted managed made before synced file.1 = false ->
  free_at R file.2 /\ forall mp, metadata_path ws file.2 = Some mp -> spares R mp.

Lemma preserves_same_content ws p rel stamp before synced :
  preserves (kept R) (same_content ws p rel stamp before synced).
Proof.
  apply preserves_bind; [auto with node|]. intros [b|]; [|auto with node].
  destruct (_ && _); [auto with node|]. destruct (match before with Some _ => _ | None => _ end); [auto with node|].
  unfold meta_matches. destruct (metadata_path ws p); [|auto with node]. apply preserves_bind; auto with node.
Qed.

Lemma preserves_reconcile_files ws stamps managed made before synced present r :
  Forall (unlisted_free ws stamps managed made before synced) present ->
  preserves (kept R) (reconcile_files ws stamps managed made before synced present r).
Proof.
  intros H. revert r. induction H as [|[rel p] present Hfile _ IH]; intros r; cbn [reconcile_files]; [auto with node|].
  apply preserves_bind; [|done]. unfold reconcile_file. destruct (wanted stamps rel) as [stamp|] eqn:Ew.
  - apply preserves_bind; [apply preserves_same_content|]. intros same.
    apply preserves_bind; [by intros n|]. auto with node.
  - destruct (keeps_unlisted managed made before synced rel) eqn:Ek; [auto with node|].
    destruct (Hfile Ew Ek) as [Hp Hmeta]. apply preserves_bind.
    { apply preserves_attempt, preserves_unlink. intros fs fs'. by apply kept_unlink. }
    intros [[]|]; [|auto with node]. apply preserves_bind; [by apply preserves_ignore, preserves_meta_forget|].
    auto with node.
Qed.

Lemma preserves_prune_empty_dirs fuel root dir :
  (forall d, d <> root -> path_starts_with d root = true -> may_go R d) ->
  path_starts_with dir root = true -> preserves (kept R) (prune_empty_dirs fuel root dir).
Proof.
  intros Hgo. revert dir. induction fuel as [|fuel IH]; intros dir Hdir; cbn [prune_empty_dirs]; [auto with node|].
  apply preserves_bind; [auto with node|]. intros fs. destruct (is_dir_at fs dir); [|auto with node].
  apply preserves_bind; [|auto with node]. induction (entries fs dir) as [|c names IHn]; cbn [prune_entries]; [auto with node|].
  apply preserves_bind; [auto with node|]. intros fs'.
  apply path_starts_with_spec in Hdir as [r ->].
  assert (Hc : path_starts_with ((root ++ r) ++ [c]) root = true)
    by (apply path_starts_with_spec; exists (r ++ [c]); by rewrite app_assoc).
  apply preserves_bind.
  - destruct (_ && _); [|auto with node]. apply preserves_bind; [by apply IH|]. intros [|].
    + apply preserves_bind; [|auto with node]. apply preserves_ignore, preserves_rmdir.
      intros fs1 fs2. apply kept_rmdir. apply Hgo; [|done].
      intros E%(f_equal length). rewrite !length_app in E. simpl in E. lia.
    + apply preserves_bind; auto with node.
  - intros gone. apply preserves_bind; [apply IHn|]. auto with node.
Qed.

Lemma preserves_coordinate_configs target stamps missing :
  (forall s, s ∈ stamps -> delta_free pid R target (target ++ [stamp_path s])) ->
  preserves (kept R) (coordinate_configs pid from_slice to_vec_pretty target stamps missing).
Proof.
  revert missing. induction stamps as [|s stamps IH]; intros missing H; cbn [coordinate_configs]; [auto with node|].
  assert (IH' : forall m, preserves (kept R) (coordinate_configs pid from_slice to_vec_pretty target stamps m))
    by (intros m; apply IH; intros s' Hs'; apply H; by right).
  case_bool_decide; [done|]. apply preserves_bind; [auto with node|]. intros [b|]; [|done].
  destruct (negb _); [done|]. destruct (H s ltac:(left)) as (Htemp & [Ht Hd] & Hm & _).
  apply preserves_bind; [|by intros [?|]]. apply preserves_attempt. by apply preserves_write_synced.
Qed.
End whole.

(** ** The files the walk finds *)

Lemma walk_files_sound fuel fs root below rel p :
  (rel, p) ∈ walk_files fuel fs root below ->
  exists r b, r <> [] /\ p = root ++ below ++ r /\ rel = relative_text (below ++ r) /\ fs !! p = Some (File b)
    /\ Forall (fun c => is_node_cache (utf8_lossy c) = false) r.
Proof.
  revert below. induction fuel as [|fuel IH]; intros below; cbn [walk_files]; [by intros ?%not_elem_of_nil|].
  intros (l & Hl & Hin)%list_elem_of_In%in_concat. apply in_map_iff in Hl as (c & <- & _).
  apply list_elem_of_In in Hin. destruct (is_node_cache (utf8_lossy c)) eqn:Ec; [by apply not_elem_of_nil in Hin|].
  destruct (fs !! (root ++ below ++ [c])) as [[b|]|] eqn:E; [| |by apply not_elem_of_nil in Hin].
  - apply list_elem_of_singleton in Hin. injection Hin as -> ->. exists [c], b. by repeat constructor.
  - destruct (IH _ Hin) as (r & b & Hr & -> & -> & Hf & Hall). exists (c :: r), b.
    rewrite <- !app_assoc. split_and!; [done..| |by constructor]. by rewrite <- !app_assoc in Hf.
Qed.

Lemma walk_sound fs root rel p :
  (rel, p) ∈ walk fs root ->
  exists r b, r <> [] /\ p = root ++ r /\ rel = relative_text r /\ fs !! p = Some (File b)
    /\ Forall (fun c => is_node_cache (utf8_lossy c) = false) r.
Proof. apply walk_files_sound. Qed.

(** One path of the disk. *)
Definition only_at (p : path) (X : option node -> Prop) : path -> option node -> Prop := fun q x => q = p -> X x.
(** What is true of a path stays so when directories come and go. *)
Definition steady (X : option node -> Prop) : Prop := X None <-> X (Some Dir).

Lemma only_at_free p X q : q <> p -> free_at (only_at p X) q.
Proof. intros H. by split; [intros ?|intros b ?]. Qed.
Lemma only_at_spares p X q : steady X -> q <> p -> spares (only_at p X) q.
Proof. intros HX H. split; [by apply only_at_free|]. intros d r _ _ Hd E. apply HX. by apply Hd. Qed.
Lemma only_at_may_go p X d : steady X -> may_go (only_at p X) d.
Proof. intros HX Hd E. apply HX. by apply Hd. Qed.
Lemma kept_only_at p X fs : disk_wf fs -> X (fs !! p) -> kept (only_at p X) fs.
Proof. intros Hwf HX. split; [done|]. by intros q ->. Qed.

Section one_path.
Context (pid : Z) (storage : path) (name : bytes) (r : path) (X : option node -> Prop).
Context (HX : steady X) (Hname : name <> METADATA_DIR).
Local Abbreviation ws := (storage ++ [name]).
Local Abbreviation p := (ws ++ r).

Lemma metadata_elsewhere t mp : metadata_path ws t = Some mp -> mp <> p.
Proof using Hname.
  intros (s & _ & ->)%metadata_path_under E. rewrite meta_root_eq in E. apply Hname.
  rewrite <- !app_assoc in E. apply app_inv_head in E. by injection E.
Qed.

Lemma one_path_delta t : temp_like p = false -> t <> p -> delta_free pid (only_at p X) ws t.
Proof using HX Hname.
  intros Htemp Ht. split_and!.
  - intros k. apply only_at_free. intros E. by rewrite <- E, temp_path_like in Htemp.
  - by apply only_at_spares.
  - intros mp Hmp. apply only_at_spares; [done|]. by eapply metadata_elsewhere.
  - intros d _ _. by apply only_at_may_go.
Qed.
Lemma one_path_own q : p ∉ own_files ws -> q ∈ own_files ws -> spares (only_at p X) q.
Proof using HX. intros Hp Hq. apply only_at_spares; [done|]. by intros ->. Qed.
End one_path.

Lemma steady_file b : steady (fun x => x = Some (File b)).
Proof. by split. Qed.
Lemma steady_no_file : steady (fun x => forall b, x <> Some (File b)).
Proof. by split. Qed.

(** The gateway's own files have names the walk skips. *)
Lemma own_are_caches ws r : ws ++ r ∈ own_files ws -> Exists (fun c => is_node_cache (utf8_lossy c) = true) r.
Proof.
  unfold own_files, manifest_temp, manifest_path, manifest_dir. rewrite !elem_of_cons, elem_of_nil.
  intros H. assert (r = [LAST_USED_MARKER] \/ r = [STALE_MARKER]
    \/ exists s, r = B ".prod" :: s) as Hr.
  { destruct H as [H|[H|[H|[H|[]]]]]; rewrite <- ?app_assoc in H; apply app_inv_head in H; eauto. }
  destruct Hr as [->|[->|[s ->]]]; left; vm_compute; reflexivity.
Qed.
Lemma walked_not_own ws r : Forall (fun c => is_node_cache (utf8_lossy c) = false) r -> ws ++ r ∉ own_files ws.
Proof.
  intros Hall (c & Hc & E)%own_are_caches%Exists_exists. rewrite Forall_forall in Hall.
  specialize (Hall c Hc). congruence.
Qed.

(** ** Computations that always answer *)

Definition total {A : Type} (m : IO A) : Prop := forall n, exists a n', m n = (Ok a, n').

Lemma total_ret {A : Type} (a : A) : total (mret a).
Proof. intros n. by eexists _, _. Qed.
Lemma total_bind {A C : Type} (m : IO A) (k : A -> IO C) : total m -> (forall a, total (k a)) -> total (m ≫= k).
Proof.
  intros Hm Hk n. destruct (Hm n) as (a & n1 & E). destruct (Hk a n1) as (c & n2 & E2).
  exists c, n2. unfold mbind, IO_bind. by rewrite E.
Qed.
Lemma total_disk : total io_disk.
Proof. intros n. by eexists _, _. Qed.
Lemma total_memory : total io_memory.
Proof. intros n. by eexists _, _. Qed.
Lemma total_remember f : total (io_remember f).
Proof. intros n. by eexists _, _. Qed.
Lemma total_ignore {A : Type} (m : IO A) : total (ignore m).
Proof. intros n. by eexists _, _. Qed.
Lemma total_attempt {A : Type} (m : IO A) : total (attempt_io m).
Proof. intros n. unfold attempt_io. destruct (m n) as [[a|e] n']; by eexists _, _. Qed.
Create HintDb total.
#[export] Hint Resolve total_ret total_disk total_memory total_remember total_ignore total_attempt : total.
#[export] Hint Extern 1 (total (_ ≫= _)) => apply total_bind; [|intros ?] : total.
#[export] Hint Extern 2 (total (match ?x with _ => _ end)) => destruct x : total.

Lemma total_prune root dir : total (prune_empty_parents root dir).
Proof.
  destruct dir as [d|]; [|apply total_ret]. cbn [prune_empty_parents]. generalize (S (length d)) as fuel. intros fuel.
  revert d. induction fuel as [|fuel IH]; intros d; cbn [prune_climb]; [auto with total|].
  destruct (_ || _); [auto with total|]. apply total_bind; [auto with total|].
  intros [[]|]; [|auto with total]. destruct (parent d); [apply IH|auto with total].
Qed.
Lemma total_write_list m l : total (write_list m l).
Proof. unfold write_list. auto with total. Qed.
Lemma total_read_list m : total (read_list m).
Proof. unfold read_list. auto with total. Qed.
#[export] Hint Resolve total_prune total_write_list total_read_list : total.

Section total.
Context (pid : Z) (from_slice : bytes -> option Value) (to_vec_pretty : Value -> bytes).
Context (set_from_slice : bytes -> option (list bytes)) (set_to_vec : list bytes -> bytes).

Lemma total_apply_delta ws before synced delta t :
  total (apply_delta pid from_slice to_vec_pretty ws before synced delta t).
Proof.
  unfold apply_delta, apply_content, apply_deletion. apply total_bind; [auto with total|]. intros fs. cbv zeta.
  destruct (safe_sync_target _ _ _); [|auto with total]. destruct (content delta).
  - apply total_bind; [auto with total|]. intros fs'. destruct (_ && _ && _); auto 8 with total.
  - apply total_bind; [auto with total|]. intros fs'. destruct (exists_at _ _); auto 8 with total.
Qed.
Lemma total_apply_deltas ws before synced deltas t :
  total (apply_deltas pid from_slice to_vec_pretty ws before synced deltas t).
Proof.
  revert t. induction deltas as [|d deltas IH]; intros t; cbn [apply_deltas]; [auto with total|].
  apply total_bind; [apply total_apply_delta|done].
Qed.
Lemma total_finish_sync ws deltas unix_now now duration was_fresh t :
  total (finish_sync set_from_slice set_to_vec ws deltas unix_now now duration was_fresh t).
Proof.
  unfold finish_sync, record_synced, manifest_load, touch_last_used, clear_stale_paths, record_stale_paths,
    read_stale_paths, write_stale_paths. auto 20 with total.
Qed.
Lemma total_apply_sync storage client base deltas unix_now now duration :
  total (apply_sync pid from_slice to_vec_pretty set_from_slice set_to_vec storage client base deltas
    unix_now now duration).
Proof.
  unfold apply_sync, resolve_server_workspace, touch_last_used, running.
  do 3 (apply total_bind; [auto with total|intros ?]). cbv zeta. apply total_bind; [auto with total|]. intros run.
  apply total_bind; [apply total_apply_deltas|]. intros t. apply total_finish_sync.
Qed.

Lemma total_reconcile_files ws stamps managed made before synced present r :
  total (reconcile_files ws stamps managed made before synced present r).
Proof.
  revert r. induction present as [|[rel p] present IH]; intros r; cbn [reconcile_files]; [auto with total|].
  apply total_bind; [|done]. unfold reconcile_file. destruct (wanted stamps rel); [|auto 10 with total].
  apply total_bind; [unfold same_content, meta_matches; auto 10 with total|]. intros same.
  apply total_bind; [|auto with total]. intros n. by eexists _, _.
Qed.
Lemma total_prune_empty_dirs fuel root dir : total (prune_empty_dirs fuel root dir).
Proof.
  revert dir. induction fuel as [|fuel IH]; intros dir; cbn [prune_empty_dirs]; [auto with total|].
  apply total_bind; [auto with total|]. intros fs. destruct (is_dir_at fs dir); [|auto with total].
  apply total_bind; [|auto with total]. induction (entries fs dir) as [|c names IHn]; cbn [prune_entries]; [auto with total|].
  apply total_bind; [auto with total|]. intros fs'. apply total_bind.
  - destruct (_ && _); [|auto with total]. apply total_bind; [apply IH|]. auto with total.
  - intros gone. apply total_bind; [done|auto with total].
Qed.
Lemma total_coordinate_configs target stamps missing :
  total (coordinate_configs pid from_slice to_vec_pretty target stamps missing).
Proof.
  revert missing. induction stamps as [|s stamps IH]; intros missing; cbn [coordinate_configs]; [auto with total|].
  cbv zeta. destruct (bool_decide _); [done|]. apply total_bind; [auto with total|]. intros [b|]; [|done].
  destruct (negb _); [done|]. apply total_bind; [auto with total|done].
Qed.
Lemma total_probe target stamps fresh was_seeded unix_now :
  total (probe_seeded pid from_slice to_vec_pretty set_from_slice set_to_vec target stamps fresh was_seeded unix_now).
Proof.
  unfold probe_seeded, manifest_load, reconcile_manifest_with_ownership, running, forget_stale_paths, touch_last_used,
    exec_created_paths.
  apply total_bind; [auto with total|]. intros []. apply total_bind; [auto with total|]. intros managed.
  apply total_bind.
  - do 3 (apply total_bind; [auto with total|intros ?]). apply total_bind; [apply total_reconcile_files|]. intros r.
    cbv zeta. apply total_bind; [auto with total|]. intros fs'.
    apply total_bind; [apply total_prune_empty_dirs|]. auto with total.
  - intros rec. do 2 (apply total_bind; [auto with total|intros []]).
    apply total_bind; [apply total_coordinate_configs|]. auto with total.
Qed.
End total.

(** ** What a sync delivers *)

(** The file at a path is what the client sent: its content, or no file. *)
Definition delivered (from_slice : bytes -> option Value) (to_vec_pretty : Value -> bytes)
    (t : path) (sent : option bytes) (x : option node) : Prop :=
  match sent with
  | Some c => x = Some (File (coordinated from_slice to_vec_pretty t c))
  | None => forall b, x <> Some (File b)
  end.

Section deliver.
Context (pid : Z) (from_slice : bytes -> option Value) (to_vec_pretty : Value -> bytes).

Lemma steady_delivered t sent : steady (delivered from_slice to_vec_pretty t sent).
Proof. destruct sent; [apply steady_file|apply steady_no_file]. Qed.

Lemma apply_content_delivers ws t rel c x tally n tally' n' :
  disk_wf (node_fs n) ->
  apply_content pid from_slice to_vec_pretty ws t rel c x None ∅ tally n = (Ok tally', n') ->
  (forall q, q ∈ t_failed tally -> q ∈ t_failed tally')
  /\ (rel ∈ t_failed tally' \/ node_fs n' !! t = Some (File (coordinated from_slice to_vec_pretty t c))).
Proof.
  intros Hwf. unfold apply_content, mbind, IO_bind, io_disk, attempt_io. rewrite andb_false_r, andb_false_l.
  destruct (write_synced_file _ _ _ _ _ _ _ n) as [[h|e] n1] eqn:E; cbn [mret IO_ret]; intros [= <- <-]; simpl.
  - split; [done|right]. by eapply ensures_write_synced in E as (_ & Ht & _).
  - split; [|left]; set_solver.
Qed.

Lemma apply_deletion_delivers ws t rel tally n tally' n' :
  disk_wf (node_fs n) -> apply_deletion ws t rel tally n = (Ok tally', n') ->
  (forall q, q ∈ t_failed tally -> q ∈ t_failed tally')
  /\ (rel ∈ t_failed tally' \/ forall b, node_fs n' !! t <> Some (File b)).
Proof.
  intros Hwf. unfold apply_deletion. cbv zeta. unfold mbind, IO_bind at 1. cbn [io_disk].
  destruct (exists_at (node_fs n) t) eqn:Ee.
  - unfold IO_bind at 1, attempt_io. destruct (fs_unlink t n) as [[[]|e] n1] eqn:E.
    + set (X := fun x : option node => forall b, x <> Some (File b)).
      assert (Hk : kept (only_at t X) (node_fs n1)).
      { assert (Hu : preserves disk_wf (fs_unlink t)).
        { apply preserves_unlink. intros fs fs' Hfs Hr. eapply (kept_unlink (fun _ _ => True)); [done| |done]. by split. }
        apply kept_only_at; [by specialize (Hu n Hwf); rewrite E in Hu|].
        apply syscall_ok in E as (fs & Hr & <- & _). unfold remove_file_at in Hr.
        destruct (node_fs n !! t) as [[b|]|]; try done. injection Hr as <-. intros b'. by rewrite lookup_delete_eq. }
      revert Hk. generalize n1. clear E n1. 
      match goal with |- forall n1, _ -> ?m n1 = _ -> _ => intros n1 Hk Em; assert (Hp : preserves (kept (only_at t X)) m) end.
      { apply preserves_bind.
        - apply preserves_ignore, preserves_meta_forget. intros mp Hmp. apply only_at_spares; [apply steady_no_file|].
          by eapply metadata_path_name.
        - intros []. apply preserves_bind; [|auto with node]. apply preserves_prune. intros d fs fs' _ _.
          apply kept_rmdir, only_at_may_go, steady_no_file. }
      specialize (Hp n1 Hk). rewrite Em in Hp. split; [|right; by apply (proj2 Hp t)].
      revert Em. unfold mbind, IO_bind, ignore. destruct (total_prune ws (parent t) (meta_forget ws t n1).2) as ([] & n2 & ->).
      by intros [= <- <-].
    + intros [= <- <-]. simpl. split; [|left]; set_solver.
  - intros [= <- <-]. simpl. split; [done|right]. apply exists_at_false in Ee. by rewrite Ee.
Qed.

Lemma apply_delta_delivers ws delta tally n tally' n' :
  disk_wf (node_fs n) ->
  apply_delta pid from_slice to_vec_pretty ws None ∅ delta tally n = (Ok tally', n') ->
  (forall q, q ∈ t_failed tally -> q ∈ t_failed tally')
  /\ (relative_path delta ∈ t_failed tally'
      \/ delivered from_slice to_vec_pretty (ws ++ split x2f (relative_path delta)) (content delta)
           (node_fs n' !! (ws ++ split x2f (relative_path delta)))).
Proof.
  intros Hwf. unfold apply_delta, mbind, IO_bind at 1. cbn [io_disk]. cbv zeta.
  destruct (safe_sync_target _ _ _) as [t|] eqn:Et.
  - apply safe_sync_target_eq in Et as ->. intros E. destruct (content delta) as [c|].
    + by apply apply_content_delivers in E.
    + by apply apply_deletion_delivers in E.
  - intros [= <- <-]. simpl. split; [|left]; set_solver.
Qed.

Lemma split_inj a b : split x2f a = split x2f b -> a = b.
Proof.
  enough (forall s, join [x2f] (split x2f s) = s) as H by (intros E; by rewrite <- (H a), <- (H b), E).
  intros s. unfold split. induction s as [|c s IH]; [done|]. cbn [split_byte].
  pose proof (split_nil_inv (Byte.eqb x2f) s) as Hne.
  destruct (Byte.eqb x2f c) eqn:Ec.
  - apply byte_eqb_eq in Ec as <-. destruct (split_byte _ s) as [|w ws']; [done|]. simpl in *. by rewrite IH.
  - destruct (split_byte _ s) as [|w ws']; [done|]. rewrite <- IH. by destruct ws'.
Qed.

(** The last file sent for a path is there, or the path failed. *)
Lemma apply_deltas_delivers storage name rel deltas tally n tally' n' (X : option node -> Prop) :
  let ws := storage ++ [name] in
  let p := ws ++ split x2f rel in
  name <> METADATA_DIR -> temp_like p = false -> steady X ->
  (forall d, d ∈ deltas -> relative_path d = rel ->
     forall x, delivered from_slice to_vec_pretty p (content d) x -> X x) ->
  disk_wf (node_fs n) ->
  apply_deltas pid from_slice to_vec_pretty ws None ∅ deltas tally n = (Ok tally', n') ->
  rel ∈ t_failed tally \/ X (node_fs n !! p) \/ (exists d, d ∈ deltas /\ relative_path d = rel) ->
  disk_wf (node_fs n') /\ (rel ∈ t_failed tally' \/ X (node_fs n' !! p)).
Proof.
  intros ws p Hname Htemp HX Hsent. revert tally n.
  induction deltas as [|d deltas IH]; intros tally n Hwf E Hstart; cbn [apply_deltas] in E.
  { injection E as <- <-. split; [done|]. destruct Hstart as [?|[?|(d & Hd & _)]]; [by left|by right|].
    by apply not_elem_of_nil in Hd. }
  unfold mbind, IO_bind in E.
  destruct (total_apply_delta pid from_slice to_vec_pretty ws None ∅ d tally n) as (tally1 & n1 & E1). rewrite E1 in E.
  destruct (apply_delta_delivers _ _ _ _ _ _ Hwf E1) as [Hmono Hd].
  assert (Hwf1 : disk_wf (node_fs n1)).
  { pose proof (preserves_apply_delta pid from_slice to_vec_pretty (fun _ _ => True) ws None ∅ d tally) as H.
    specialize (H ltac:(done) n ltac:(by split)). rewrite E1 in H. apply H. }
  apply (IH ltac:(intros d' Hd'; apply Hsent; by right) tally1 n1 Hwf1 E).
  destruct (decide (relative_path d = rel)) as [Hrel|Hrel].
  - rewrite Hrel in Hd. destruct Hd as [Hd|Hd]; [by left|]. right; left. eapply Hsent; [left|done|done].
  - destruct Hstart as [Hs|[Hs|(d' & Hd' & Hr)]]; [left; by apply Hmono| |].
    + right; left. pose proof (preserves_apply_delta pid from_slice to_vec_pretty (only_at p X) ws None ∅ d tally) as H.
      specialize (H ltac:(apply one_path_delta; [done|done|done|intros E'; apply app_inv_head, split_inj in E'; done])
        n ltac:(by apply kept_only_at)). rewrite E1 in H. by apply H.
    + right; right. apply elem_of_cons in Hd' as [->|Hd']; [done|]. eauto.
Qed.
End deliver.

(** ** The memory *)

Lemma syscall_memory works leaves bits n : memory (syscall works leaves bits n).2 = memory n.
Proof.
  unfold syscall. destruct (hd NoFault (node_faults n)) as [|[b|]|]; try done.
  - by destruct (works (node_fs n)).
  - cbn [mbind option_bind]. by destruct (leaves b (node_fs n)).
  - by destruct (works (node_fs n)).
Qed.
Lemma each_memory {A : Type} (l : list A) body n :
  (forall x n, memory (body x n).2 = memory n) -> memory (io_each l body n).2 = memory n.
Proof.
  intros H. revert n. induction l as [|x l IH]; intros n; [done|]. cbn [io_each]. unfold mbind, IO_bind.
  specialize (H x n). destruct (body x n) as [[[]|e] n1]; simpl in *; [|done]. by rewrite IH.
Qed.
Lemma create_dir_all_memory p n : memory (create_dir_all p n).2 = memory n.
Proof.
  rewrite create_dir_all_eq. destruct (is_dir_at _ p); [done|]. destruct (reverse _); [done|].
  apply each_memory. intros x n'. apply syscall_memory.
Qed.
Lemma touch_memory ws now n : memory (touch_last_used ws now n).2 = memory n.
Proof. apply syscall_memory. Qed.

(** The state a sync's loop starts from. *)
Lemma apply_sync_start pid from_slice to_vec_pretty set_from_slice set_to_vec storage client base deltas
    unix_now now duration n :
  let ws := server_workspace_path storage client base in
  active_exec_snapshot (memory n) ws = None ->
  exists n1 was_fresh,
    (forall J, preserves J (create_dir_all ws) -> preserves J (touch_last_used ws unix_now) ->
       J (node_fs n) -> J (node_fs n1))
    /\ apply_sync pid from_slice to_vec_pretty set_from_slice set_to_vec storage client base deltas
         unix_now now duration n =
       (t ← apply_deltas pid from_slice to_vec_pretty ws None ∅ deltas (MkTally 0 0 0 false [] [] [] []);
        finish_sync set_from_slice set_to_vec ws deltas unix_now now duration was_fresh t) n1.
Proof.
  intros ws Hexec. set (n0 := (create_dir_all ws n).2).
  assert (Hm0 : memory n0 = memory n) by apply create_dir_all_memory.
  set (fresh := negb (exists_at (node_fs n0) (ws ++ [LAST_USED_MARKER]))).
  exists (if fresh then n0 else (touch_last_used ws unix_now n0).2), fresh. split.
  - intros J H1 H2 Hn. assert (J (node_fs n0)) by (by apply H1). destruct fresh; [done|by apply H2].
  - unfold apply_sync, resolve_server_workspace, mbind, IO_bind, ignore, io_disk. fold ws. fold n0.
    cbn [mret IO_ret]. fold fresh.
    assert (Ht : (if fresh then mret tt else touch_last_used ws unix_now) n0
      = (Ok tt, if fresh then n0 else (touch_last_used ws unix_now n0).2)) by (by destruct fresh).
    rewrite Ht. unfold running, mbind, IO_bind, io_memory. cbn [mret IO_ret].
    assert (Hm1 : memory (if fresh then n0 else (touch_last_used ws unix_now n0).2) = memory n).
    { destruct fresh; [done|]. by rewrite touch_memory. }
    by rewrite Hm1, Hexec.
Qed.

Lemma apply_deltas_app pid from_slice to_vec_pretty ws before synced l k t n :
  apply_deltas pid from_slice to_vec_pretty ws before synced (l ++ k) t n =
  (t' ← apply_deltas pid from_slice to_vec_pretty ws before synced l t;
   apply_deltas pid from_slice to_vec_pretty ws before synced k t') n.
Proof.
  revert t n. induction l as [|d l IH]; intros t n; [done|]. cbn [app apply_deltas]. unfold mbind, IO_bind.
  destruct (apply_delta _ _ _ _ _ _ _ _ _) as [[t1|e] n1]; [|done]. rewrite IH. done.
Qed.

Lemma report_failed_in stale failed q : q ∈ failed -> q ∈ report_failed stale failed.
Proof.
  assert (Hmono : forall failed stale, q ∈ stale -> q ∈ report_failed stale failed).
  { clear. unfold report_failed. intros failed. induction failed as [|f failed IH]; intros stale H; simpl; [done|].
    apply IH. case_bool_decide; [done|]. set_solver. }
  revert stale. unfold report_failed in *. induction failed as [|f failed IH]; intros stale; [by intros ?%not_elem_of_nil|].
  intros [->|H]%elem_of_cons; cbn [foldl]; [|by apply IH]. apply Hmono. case_bool_decide; [done|set_solver].
Qed.

Lemma finish_sync_stale set_from_slice set_to_vec ws deltas unix_now now duration fresh t n out n' q :
  finish_sync set_from_slice set_to_vec ws deltas unix_now now duration fresh t n = (Ok out, n') ->
  q ∈ t_failed t -> q ∈ stale_paths (outcome_response out).
Proof.
  unfold finish_sync. intros E Hq.
  assert (Hb : forall {A C : Type} (m : IO A) (k : A -> IO C) n c n', (m ≫= k) n = (Ok c, n') ->
    exists a n1, k a n1 = (Ok c, n')).
  { intros A C m k n1 c n2. unfold mbind, IO_bind. destruct (m n1) as [[a|e] n3]; [|done]. eauto. }
  do 4 (apply Hb in E as (? & ? & E)). apply Hb in E as (stale & ? & E). apply Hb in E as (? & ? & E).
  injection E as <- _. by apply report_failed_in.
Qed.

Lemma candidate_not_metadata client base : candidate_name client base <> METADATA_DIR.
Proof.
  destruct (candidate_name_copy client base) as [_ (b & r & -> & Hdot & _)]. intros Hm. by injection Hm as ->.
Qed.

Section sync_run.
Context (pid : Z) (from_slice : bytes -> option Value) (to_vec_pretty : Value -> bytes).
Context (set_from_slice : bytes -> option (list bytes)) (set_to_vec : list bytes -> bytes).
Context (storage : path) (client : bytes) (base : option bytes) (unix_now now duration : Z).
Local Abbreviation ws := (server_workspace_path storage client base).

(** A path after a sync, from its state before or the last part of what was sent. *)
Lemma sync_reaches earlier later rel (X : option node -> Prop) n out n' :
  let p := ws ++ split x2f rel in
  disk_wf (node_fs n) -> active_exec_snapshot (memory n) ws = None ->
  p ∉ own_files ws -> temp_like p = false -> steady X ->
  (forall d, d ∈ later -> relative_path d = rel ->
     forall x, delivered from_slice to_vec_pretty p (content d) x -> X x) ->
  earlier = [] /\ X (node_fs n !! p) \/ (exists d, d ∈ later /\ relative_path d = rel) ->
  apply_sync pid from_slice to_vec_pretty set_from_slice set_to_vec storage client base (earlier ++ later)
    unix_now now duration n = (Ok out, n') ->
  rel ∈ stale_paths (outcome_response out) \/ X (node_fs n' !! p).
Proof.
  intros p Hwf Hexec Hown Htemp HX Hsent Hstart E.
  destruct (apply_sync_start pid from_slice to_vec_pretty set_from_slice set_to_vec storage client base
    (earlier ++ later) unix_now now duration n Hexec) as (n1 & fresh & Hn1 & Es).
  rewrite Es in E. unfold mbind, IO_bind in E. rewrite apply_deltas_app in E. unfold mbind, IO_bind in E.
  destruct (total_apply_deltas pid from_slice to_vec_pretty ws None ∅ earlier (MkTally 0 0 0 false [] [] [] []) n1)
    as (t2 & n2 & E2). rewrite E2 in E.
  destruct (total_apply_deltas pid from_slice to_vec_pretty ws None ∅ later t2 n2) as (t3 & n3 & E3). rewrite E3 in E.
  assert (Hspares : forall q, q ∈ own_files ws -> spares (only_at p X) q) by (intros q; by apply one_path_own).
  assert (Hwf2 : disk_wf (node_fs n2)).
  { eapply (ensures_preserves (kept (fun _ _ => True))); [by apply preserves_apply_deltas| |exact E2].
    apply (Hn1 (kept (fun _ _ => True))); [by apply preserves_create_ws|by apply preserves_touch|by split]. }
  destruct (apply_deltas_delivers pid from_slice to_vec_pretty storage (candidate_name client base) rel later t2 n2 t3 n3
    X (candidate_not_metadata client base) Htemp HX Hsent Hwf2 E3) as [Hwf3 [Hf|Hx]].
  - destruct Hstart as [[-> Hx]|Hd]; [|by right; right]. right; left. injection E2 as <- <-.
    apply (Hn1 (kept (only_at p X))); [by apply preserves_create_ws|by apply preserves_touch|by apply kept_only_at|done].
  - left. by eapply finish_sync_stale.
  - right. assert (kept (only_at p X) (node_fs n')) as [_ H]; [|by apply H].
    eapply (ensures_preserves (kept _)); [|by apply (kept_only_at p X _ Hwf3)|exact E]. by apply preserves_finish_sync.
Qed.
End sync_run.


(** ** A probe, step by step *)

(** What the lists on a disk say. *)
Definition listed (fs : disk) (marker : path) : list bytes :=
  match fs !! marker with
  | Some (File b) => if utf8_valid b then btree_set (filter (fun l => l <> []) (lines b)) else []
  | _ => []
  end.
Definition managed_on (set_from_slice : bytes -> option (list bytes)) (fs : disk) (ws : path) : list bytes :=
  match fs !! manifest_path ws with
  | Some (File b) => default [] (set_from_slice b)
  | _ => []
  end.

(** A read changes neither disk nor memory, and fails only by a fault. *)
Definition reads_as {A : Type} (m : IO A) (value : disk -> A) (otherwise : A) : Prop := forall n,
  exists a n', m n = (Ok a, n') /\ node_fs n' = node_fs n /\ memory n' = memory n
    /\ executables n' = executables n /\ (node_faults n = [] -> node_faults n' = [])
    /\ (a = value (node_fs n) \/ node_faults n <> [] /\ a = otherwise).

Lemma read_list_reads m : reads_as (read_list m) (fun fs => listed fs m) [].
Proof.
  intros n. unfold read_list, attempt_io, fs_read_text, fs_read, listed, mbind, IO_bind.
  destruct (node_faults n) as [|[|o|] l] eqn:E; cbn [hd];
    destruct (node_fs n !! m) as [[b|]|]; try destruct (utf8_valid b);
    eexists _, _; (split; [reflexivity|]); simpl; rewrite E; split_and!; try done; first [by left|by right].
Qed.
Lemma manifest_load_reads set_from_slice ws :
  reads_as (manifest_load set_from_slice ws) (fun fs => managed_on set_from_slice fs ws) [].
Proof.
  intros n. unfold manifest_load, attempt_io, fs_read, managed_on, mbind, IO_bind.
  destruct (node_faults n) as [|[|o|] l] eqn:E; cbn [hd];
    destruct (node_fs n !! manifest_path ws) as [[b|]|];
    eexists _, _; (split; [reflexivity|]); simpl; rewrite E; split_and!; try done; first [by left|by right].
Qed.

Section probe.
Context (pid : Z) (from_slice : bytes -> option Value) (to_vec_pretty : Value -> bytes).
Context (set_from_slice : bytes -> option (list bytes)) (set_to_vec : list bytes -> bytes).

(** What follows the loop over the files present. *)
Definition finish_probe (ws : path) (stamps : list FileStamp) (fresh was_seeded : bool) (unix_now : Z)
    (r : Reconciled) : IO SyncProbeResponse :=
  reconciled ← (fs' ← io_disk;
                _ ← prune_empty_dirs (S (depth fs')) ws ws;
                mret (btree_set (rec_missing r ++ filter (fun rel => rel ∉ rec_seen r) (map stamp_path stamps)),
                      rec_deleted r));
  ignore (manifest_save set_to_vec ws (btree_set (map stamp_path stamps))) ;;
  forget_stale_paths ws ;;
  missing ← coordinate_configs pid from_slice to_vec_pretty ws
              (filter (fun s => stamp_path s ∈ root_configs) stamps) reconciled.1;
  let missing := btree_set missing in
  (if negb fresh || was_seeded || bool_decide (missing = []) then touch_last_used ws unix_now else mret tt) ;;
  mret (mkProbeResponse (path_text ws) was_seeded (zlen reconciled.2) missing).

(** The command running in a copy, as the probe sees it. *)
Definition run_of (m : Memory) (ws : path) : option (gmap bytes (Z * Z)) * gmap bytes (option Z) :=
  match active_exec_snapshot m ws with
  | Some (started, stamps) => (Some stamps, synced_since m ws started)
  | None => (None, ∅)
  end.

Lemma probe_start ws stamps fresh was_seeded unix_now n :
  let n0 := (create_dir_all ws n).2 in
  let run := run_of (memory n) ws in
  exists managed made n2 r n3,
    node_fs n2 = node_fs n0
    /\ (managed = managed_on set_from_slice (node_fs n0) ws \/ node_faults n0 <> [] /\ managed = [])
    /\ (made = listed (node_fs n0) (ws ++ [EXEC_CREATED_MARKER]) \/ node_faults n0 <> [] /\ made = [])
    /\ reconcile_files ws stamps managed made run.1 run.2 (walk (node_fs n0) ws) (MkReconciled [] [] []) n2 = (Ok r, n3)
    /\ probe_seeded pid from_slice to_vec_pretty set_from_slice set_to_vec ws stamps fresh was_seeded unix_now n
       = finish_probe ws stamps fresh was_seeded unix_now r n3.
Proof.
  intros n0 run. assert (Hm0 : memory n0 = memory n) by apply create_dir_all_memory.
  destruct (manifest_load_reads set_from_slice ws n0) as (managed & n1 & E1 & Hfs1 & Hm1 & _ & Hnf1 & Hmanaged).
  destruct (read_list_reads (ws ++ [EXEC_CREATED_MARKER]) n1) as (made & n2 & E2 & Hfs2 & Hm2 & _ & Hnf2 & Hmade).
  destruct (total_reconcile_files ws stamps managed made run.1 run.2 (walk (node_fs n0) ws) (MkReconciled [] [] []) n2)
    as (r & n3 & E3).
  exists managed, made, n2, r, n3. split; [congruence|]. split; [done|]. split.
  { rewrite Hfs1 in Hmade. destruct Hmade as [?|[Hn ?]]; [by left|right]. split; [|done].
    intros Hnf. by apply Hn, Hnf1. }
  split; [done|].
  assert (Erun : running ws n1 = (Ok run, n1)).
  { unfold running, mbind, IO_bind, io_memory. by rewrite Hm1, Hm0. }
  unfold probe_seeded, finish_probe, ignore, mbind, IO_bind. fold n0. rewrite E1.
  unfold reconcile_manifest_with_ownership, mbind, IO_bind. rewrite Erun. unfold io_disk at 1.
  unfold exec_created_paths. rewrite E2, Hfs1, E3. done.
Qed.

Lemma preserves_finish_probe R ws stamps fresh was_seeded unix_now r :
  (forall q, q ∈ own_files ws -> spares R q) ->
  (forall d, d <> ws -> path_starts_with d ws = true -> may_go R d) ->
  (forall c, c ∈ root_configs -> delta_free pid R ws (ws ++ [c])) ->
  preserves (kept R) (finish_probe ws stamps fresh was_seeded unix_now r).
Proof.
  intros Hown Hgo Hconf. apply preserves_bind.
  { apply preserves_bind; [auto with node|]. intros fs.
    apply preserves_bind; [apply preserves_prune_empty_dirs; [done|apply path_starts_with_refl]|]. auto with node. }
  intros rec. apply preserves_bind; [by apply preserves_ignore, preserves_manifest_save|]. intros [].
  apply preserves_bind; [by apply preserves_forget_stale|]. intros [].
  apply preserves_bind.
  { apply preserves_coordinate_configs. intros s [Hs _]%list_elem_of_filter. by apply Hconf. }
  intros missing. apply preserves_bind; [|auto with node].
  destruct (_ || _); [by apply preserves_touch|auto with node].
Qed.
End probe.


Section outside_theorems.
Context (pid : Z) (from_slice : bytes -> option Value) (to_vec_pretty : Value -> bytes).
Context (set_from_slice : bytes -> option (list bytes)) (set_to_vec : list bytes -> bytes).
Context (storage : path) (name : bytes) (fs0 : disk).
Context (Hwf : disk_wf fs0) (Hstorage : fs0 !! storage = Some Dir).
Local Abbreviation ws := (storage ++ [name]).

Lemma probe_outside stamps fresh was_seeded unix_now n :
  node_fs n = fs0 ->
  kept (as_on (outside ws) fs0) (node_fs
    (probe_seeded pid from_slice to_vec_pretty set_from_slice set_to_vec ws stamps fresh was_seeded unix_now n).2).
Proof using Hwf Hstorage.
  intros Hn. set (R := as_on (outside ws) fs0).
  assert (Hown : forall q, q ∈ own_files ws -> spares R q) by (by apply outside_own).
  assert (H0 : kept R (node_fs n)) by (split; [by rewrite Hn|by rewrite Hn; intros p _]).
  destruct (probe_start pid from_slice to_vec_pretty set_from_slice set_to_vec ws stamps fresh was_seeded unix_now n)
    as (managed & made & n2 & r & n3 & Hfs & _ & _ & Er & ->).
  apply preserves_finish_probe; [done| | |].
  - intros d _ Hd _ [Ho _]. congruence.
  - intros c _. by apply outside_delta.
  - pose proof (preserves_reconcile_files R ws stamps managed made (run_of (memory n) ws).1 (run_of (memory n) ws).2
      (walk (node_fs (create_dir_all ws n).2) ws) (MkReconciled [] [] [])) as H. specialize (H ltac:(
        apply Forall_forall; intros [rel p] (q & b & _ & -> & _ & _ & _)%walk_sound _ _; simpl; split;
        [rewrite <- app_assoc; apply (inside_spares fs0 storage name Hwf Hstorage name q); by left
        |intros mp (s & _ & ->)%metadata_path_under; rewrite meta_root_eq, <- app_assoc;
         apply (inside_spares fs0 storage name Hwf Hstorage); by right]) n2).
    rewrite Er in H. apply H. rewrite Hfs. by apply preserves_create_ws.
Qed.
End outside_theorems.

(** C22: A sync and a probe stay in their copy.  A path the gateway accepts is one or more plain
    components below the copy, none of them empty, [.] or [..] and none with a slash, so that
    it names something in the copy; and whatever the client asks for and whatever calls fail,
    everything on the node's disk outside the client's copy and the directory the config
    records are in is after a sync, and after a probe, what it was before. *)
Theorem sync_stays_in_copy (pid : Z) (from_slice : bytes -> option Value) (to_vec_pretty : Value -> bytes)
    (set_from_slice : bytes -> option (list bytes)) (set_to_vec : list bytes -> bytes)
    (storage : path) (client : bytes) (base : option bytes) (n : Node) :
  let ws := server_workspace_path storage client base in
  (forall fs rel t, safe_sync_target fs ws rel = Some t ->
     exists comps, t = ws ++ comps /\ comps <> []
       /\ Forall (fun c => c <> [] /\ c <> B "." /\ c <> B ".." /\ x2f ∉ c) comps)
  /\ (disk_wf (node_fs n) -> node_fs n !! storage = Some Dir ->
  forall p, path_starts_with p ws = false -> path_starts_with p (storage ++ [METADATA_DIR]) = false ->
  (forall deltas unix_now now duration,
     node_fs (apply_sync pid from_slice to_vec_pretty set_from_slice set_to_vec storage client base deltas
                unix_now now duration n).2 !! p = node_fs n !! p)
  /\ (forall stamps fresh was_seeded unix_now,
     node_fs (probe_seeded pid from_slice to_vec_pretty set_from_slice set_to_vec ws stamps fresh was_seeded
                unix_now n).2 !! p = node_fs n !! p)).
Proof.
  intros ws. split; [apply safe_sync_target_plain|]. intros Hwf Hst p H1 H2. assert (Ho : outside ws p) by (split; [done|unfold ws, server_workspace_path; by rewrite meta_root_eq]).
  split.
  - intros deltas unix_now now duration.
    pose proof (preserves_apply_sync pid from_slice to_vec_pretty set_from_slice set_to_vec
      (as_on (outside ws) (node_fs n)) storage client base deltas unix_now now duration) as H.
    apply H; [by apply outside_own| |by split; [|intros q _]|done].
    intros d _. apply outside_delta; [done|done|]. apply split_nil_inv.
  - intros. by apply probe_outside.
Qed.

(** ** What a probe keeps and asks for *)

Lemma wanted_Some stamps rel s : wanted stamps rel = Some s -> s ∈ stamps /\ stamp_path s = rel.
Proof.
  unfold wanted. destruct (filter _ (reverse stamps)) as [|x l] eqn:E; [done|]. intros [= ->].
  assert (s ∈ filter (fun s => stamp_path s = rel) (reverse stamps)) as [? H]%list_elem_of_filter by (rewrite E; left).
  by rewrite elem_of_reverse in H.
Qed.
Lemma wanted_listed stamps s : s ∈ stamps -> is_Some (wanted stamps (stamp_path s)).
Proof.
  intros Hs. unfold wanted. destruct (filter _ (reverse stamps)) as [|x l] eqn:E; [|by eexists].
  exfalso. apply (not_elem_of_nil s). rewrite <- E. apply list_elem_of_filter. split; [done|by apply elem_of_reverse].
Qed.

Lemma create_dir_all_exists p n : is_Some (node_fs n !! p) -> (create_dir_all p n).2 = n.
Proof.
  intros Hp. rewrite create_dir_all_eq. destruct (is_dir_at (node_fs n) p); [done|].
  cbn [missing_above]. by rewrite (proj2 (exists_at_true _ _) Hp).
Qed.
Lemma above_exists fs p r x : disk_wf fs -> fs !! (p ++ r) = Some x -> is_Some (fs !! p).
Proof.
  intros Hwf H. destruct r as [|c r]; [rewrite app_nil_r in H; eauto|]. exists Dir. by eapply wf_above.
Qed.

(** The form of what the walk finds. *)
Definition walked (ws : path) (file : bytes * path) : Prop := exists q, file = (relative_text q, ws ++ q).
Lemma walk_walked fs ws : Forall (walked ws) (walk fs ws).
Proof. apply Forall_forall. intros [rel p] (q & b & _ & -> & -> & _)%walk_sound. by exists q. Qed.

(** A file the manifest no longer lists that may not be deleted. *)
Lemma walk_spares_file storage name r X stamps managed made before synced present :
  steady X -> name <> METADATA_DIR -> Forall (walked (storage ++ [name])) present ->
  is_Some (wanted stamps (relative_text r)) \/ keeps_unlisted managed made before synced (relative_text r) = true ->
  Forall (unlisted_free (only_at ((storage ++ [name]) ++ r) X) (storage ++ [name]) stamps managed made before synced)
    present.
Proof.
  intros HX Hname Hall Hkeep. eapply Forall_impl; [exact Hall|]. intros ? (q & ->) Hw Hk.
  simpl in *. split.
  - apply only_at_free. intros ->%app_inv_head. destruct Hkeep as [[s Hs]|Hs]; congruence.
  - intros mp Hmp. apply only_at_spares; [done|]. by eapply metadata_elsewhere.
Qed.

Section probe_file.
Context (pid : Z) (from_slice : bytes -> option Value) (to_vec_pretty : Value -> bytes).
Context (set_to_vec : list bytes -> bytes).
Context (storage : path) (name : bytes) (r : path) (X : option node -> Prop).
Context (Hname : name <> METADATA_DIR) (HX : steady X).
Local Abbreviation ws := (storage ++ [name]).
Context (Hown : ws ++ r ∉ own_files ws) (Htemp : temp_like (ws ++ r) = false).
Context (Hconf : forall c, c ∈ root_configs -> r <> [c]).

Lemma finish_probe_file stamps fresh was_seeded unix_now rec n :
  disk_wf (node_fs n) -> X (node_fs n !! (ws ++ r)) ->
  kept (only_at (ws ++ r) X) (node_fs
    (finish_probe pid from_slice to_vec_pretty set_to_vec ws stamps fresh was_seeded unix_now rec n).2).
Proof using Hname HX Hown Htemp Hconf.
  intros Hwf Hn. apply preserves_finish_probe; [| | |by apply kept_only_at].
  - intros q. by apply one_path_own.
  - intros d _ _. by apply only_at_may_go.
  - intros c Hc. apply one_path_delta; [done..|]. intros E%app_inv_head. by apply (Hconf c).
Qed.
End probe_file.

(** C20: A probe deletes only the client's files.  A file of the copy (not one of the gateway's
    own, not a temporary file, and not a config at the root, which is rewritten) is after a
    probe what it was, whatever calls fail, if the client's new manifest lists it, or no
    earlier sync delivered it, or it is one that appeared while a command runs and no sync
    brought it since; and, when reads work, if a command created it. *)
Theorem probe_deletes_only_managed (pid : Z) (from_slice : bytes -> option Value) (to_vec_pretty : Value -> bytes)
    (set_from_slice : bytes -> option (list bytes)) (set_to_vec : list bytes -> bytes)
    (storage : path) (client : bytes) (base : option bytes) (stamps : list FileStamp)
    (fresh was_seeded : bool) (unix_now : Z) (n : Node) (r : path) (b : bytes) :
  let ws := server_workspace_path storage client base in
  disk_wf (node_fs n) -> node_fs n !! (ws ++ r) = Some (File b) ->
  ws ++ r ∉ own_files ws -> temp_like (ws ++ r) = false -> (forall c, c ∈ root_configs -> r <> [c]) ->
  (exists s, s ∈ stamps /\ stamp_path s = relative_text r)
  \/ relative_text r ∉ managed_on set_from_slice (node_fs n) ws
  \/ (exists started before, active_exec_snapshot (memory n) ws = Some (started, before)
        /\ before !! relative_text r = None /\ synced_since (memory n) ws started !! relative_text r = None)
  \/ (node_faults n = [] /\ relative_text r ∈ listed (node_fs n) (ws ++ [EXEC_CREATED_MARKER])) ->
  exists response n',
    probe_seeded pid from_slice to_vec_pretty set_from_slice set_to_vec ws stamps fresh was_seeded unix_now n
      = (Ok response, n')
    /\ node_fs n' !! (ws ++ r) = Some (File b).
Proof.
  intros ws Hwf Hf Hown Htemp Hconf Hwhy. set (X := fun x : option node => x = Some (File b)).
  destruct (total_probe pid from_slice to_vec_pretty set_from_slice set_to_vec ws stamps fresh was_seeded unix_now n)
    as (response & n' & E). exists response, n'. split; [done|].
  destruct (probe_start pid from_slice to_vec_pretty set_from_slice set_to_vec ws stamps fresh was_seeded unix_now n)
    as (managed & made & n2 & rec & n3 & Hfs & Hmanaged & Hmade & Er & Ep).
  assert (Hn0 : (create_dir_all ws n).2 = n) by (apply create_dir_all_exists; by eapply above_exists).
  rewrite Hn0 in Hfs, Hmanaged, Hmade, Er.
  assert (Hkeep : is_Some (wanted stamps (relative_text r))
    \/ keeps_unlisted managed made (run_of (memory n) ws).1 (run_of (memory n) ws).2 (relative_text r) = true).
  { unfold keeps_unlisted, run_of. destruct Hwhy as [(s & Hs & <-)|[Hm|[(started & before & -> & Hb & Hsy)|[Hnf Hm]]]].
    - left. by apply wanted_listed.
    - right. rewrite bool_decide_eq_false_2; [done|]. destruct Hmanaged as [->|[_ ->]]; [done|apply not_elem_of_nil].
    - right. simpl. rewrite Hb, Hsy. by rewrite orb_true_r.
    - right. destruct Hmade as [->|[H _]]; [|done]. by rewrite (bool_decide_eq_true_2 _ Hm), orb_true_r. }
  pose proof (preserves_reconcile_files (only_at (ws ++ r) X) ws stamps managed made (run_of (memory n) ws).1
    (run_of (memory n) ws).2 (walk (node_fs n) ws) (MkReconciled [] [] [])
    (walk_spares_file _ _ _ X _ _ _ _ _ _ (steady_file b) (candidate_not_metadata client base)
      (walk_walked _ _) Hkeep) n2) as H.
  rewrite Er, Hfs in H. specialize (H (kept_only_at _ X _ Hwf Hf)). destruct H as [Hwf3 H3].
  rewrite Ep in E. pose proof (finish_probe_file pid from_slice to_vec_pretty set_to_vec storage
    (candidate_name client base) r X (candidate_not_metadata client base) (steady_file b) Hown Htemp Hconf
    stamps fresh was_seeded unix_now rec n3 Hwf3 (H3 _ eq_refl)) as [_ H].
  unfold ws, server_workspace_path in *. rewrite E in H. by apply H.
Qed.

(** ** What a probe does not ask for *)

Lemma same_content_sound ws p rel s n res n' :
  is_config_path p = false -> same_content ws p rel s None ∅ n = (Ok res, n') ->
  node_fs n' = node_fs n
  /\ (res = true -> exists b, node_fs n !! p = Some (File b) /\ zlen b = size s /\ content_hash b = hash s).
Proof.
  intros Hc. unfold same_content, meta_matches. rewrite (is_config_path_metadata _ _ Hc).
  unfold mbind, IO_bind, attempt_io, fs_read.
  destruct (hd NoFault (node_faults n)), (node_fs n !! p) as [[b|]|];
    try (intros [= <- <-]; split; [done|by intros [=]]);
    (destruct ((zlen b =? size s) && (content_hash b =? hash s)) eqn:E; intros [= <- <-]; (split; [done|]); [|by intros [=]]);
    intros _; apply andb_true_iff in E as [?%Z.eqb_eq ?%Z.eqb_eq]; by exists b.
Qed.

Section reconcile.
Context (ws : path) (stamps : list FileStamp) (managed made : list bytes).
Context (before : option (gmap bytes (Z * Z))) (synced : gmap bytes (option Z)).

(** One file: what is noted grows, by its own path. *)
Lemma reconcile_file_notes rel p r n r' n' :
  reconcile_file ws stamps managed made before synced (rel, p) r n = (Ok r', n') ->
  (forall x, x ∈ rec_missing r -> x ∈ rec_missing r')
  /\ (forall x, x ∈ rec_seen r' -> x ∈ rec_seen r \/ x = rel /\ is_Some (wanted stamps rel)).
Proof.
  unfold reconcile_file. destruct (wanted stamps rel) as [s|] eqn:Ew.
  - unfold mbind, IO_bind. destruct (same_content _ _ _ _ _ _ n) as [[same|e] n1]; [|done].
    cbn [io_same_mode mret IO_ret]. intros [= <- <-]. simpl. apply wanted_Some in Ew as [_ <-].
    split; [destruct (_ || _); set_solver|]. intros x [->|H]%elem_of_cons; [right; eauto|by left].
  - destruct (keeps_unlisted _ _ _ _ _); [intros [= <- <-]; by split; [|left]|].
    unfold mbind, IO_bind, attempt_io. destruct (fs_unlink p n) as [[[]|e] n1]; [|intros [= <- <-]; by split; [|left]].
    cbn [ignore mret IO_ret]. intros [= <- <-]. by split; [|left].
Qed.

Lemma reconcile_files_notes present r n r' n' :
  reconcile_files ws stamps managed made before synced present r n = (Ok r', n') ->
  (forall x, x ∈ rec_missing r -> x ∈ rec_missing r')
  /\ (forall x, x ∈ rec_seen r' -> x ∈ rec_seen r \/ is_Some (wanted stamps x) /\ exists p, (x, p) ∈ present).
Proof.
  revert r n. induction present as [|[rel p] present IH]; intros r n; cbn [reconcile_files].
  { intros [= <- <-]. by split; [|left]. }
  unfold mbind, IO_bind. destruct (reconcile_file _ _ _ _ _ _ _ _ n) as [[r1|e] n1] eqn:E1; [|done].
  intros E. destruct (reconcile_file_notes _ _ _ _ _ _ E1) as [Hm1 Hs1]. destruct (IH _ _ E) as [Hm2 Hs2].
  split; [auto|]. intros x Hx. destruct (Hs2 x Hx) as [Hx1|(Hw & q & Hq)].
  - destruct (Hs1 x Hx1) as [?|[-> Hw]]; [by left|]. right. split; [done|]. exists p. left.
  - right. split; [done|]. exists q. by right.
Qed.
End reconcile.

Section reconcile_matches.
Context (storage : path) (name : bytes) (stamps : list FileStamp) (managed made : list bytes).
Context (Hname : name <> METADATA_DIR).
Local Abbreviation ws := (storage ++ [name]).

(** A file the loop looked at and did not note is as its stamp says when the loop ends. *)
Lemma reconcile_files_match present r n r' n' q s :
  disk_wf (node_fs n) -> Forall (walked ws) present ->
  reconcile_files ws stamps managed made None ∅ present r n = (Ok r', n') ->
  (relative_text q, ws ++ q) ∈ present -> wanted stamps (relative_text q) = Some s ->
  is_config_path (ws ++ q) = false -> relative_text q ∉ rec_missing r' ->
  disk_wf (node_fs n') /\ exists b, node_fs n' !! (ws ++ q) = Some (File b) /\ zlen b = size s /\ content_hash b = hash s.
Proof using Hname.
  intros Hwf Hall. revert r n Hwf. induction Hall as [|[rel p] present Hfile Hall IH]; intros r n Hwf E Hin Hw Hc Hm.
  { by apply not_elem_of_nil in Hin. }
  cbn [reconcile_files] in E. unfold mbind, IO_bind in E.
  destruct (reconcile_file _ _ _ _ _ _ _ _ n) as [[r1|e] n1] eqn:E1; [|done].
  assert (Hwf1 : disk_wf (node_fs n1)).
  { pose proof (preserves_reconcile_files (fun _ _ => True) ws stamps managed made None ∅ [(rel, p)] r
      ltac:(by repeat constructor) n ltac:(by split)) as H.
    cbn [reconcile_files] in H. unfold mbind, IO_bind in H. rewrite E1 in H. apply H. }
  apply elem_of_cons in Hin as [[= <- <-]|Hin]; [|by eapply IH].
  unfold reconcile_file in E1. rewrite Hw in E1. unfold mbind, IO_bind in E1.
  destruct (same_content _ _ _ _ _ _ n) as [[same|e] n0] eqn:Es; [|done].
  cbn [io_same_mode mret IO_ret] in E1. injection E1 as <- <-.
  destruct (same_content_sound _ _ _ _ _ _ _ Hc Es) as [Hfs Hsame].
  destruct same; cycle 1.
  { exfalso. apply Hm. eapply reconcile_files_notes; [exact E|]. simpl. set_solver. }
  destruct (Hsame eq_refl) as (b & Hb & Hsize & Hhash).
  assert (kept (only_at (ws ++ q) (fun x => x = Some (File b))) (node_fs n')) as [Hwf' H].
  { eapply (ensures_preserves (kept _)); [|apply kept_only_at; [exact Hwf1|by rewrite Hfs]|exact E].
    apply preserves_reconcile_files, walk_spares_file; [apply steady_file|done..|]. left. by rewrite Hw. }
  split; [done|]. exists b. by split; [apply H|].
Qed.
End reconcile_matches.

(** ** A probe and the sync that answers it *)

(** The file at a path is the one a stamp describes. *)
Definition matches (s : FileStamp) (x : option node) : Prop :=
  exists b, x = Some (File b) /\ zlen b = size s /\ content_hash b = hash s.
Lemma steady_matches s : steady (matches s).
Proof. split; by intros (b & H & _). Qed.

(** Names a client's manifest can spell. *)
Definition plain_name (c : bytes) : Prop := utf8_valid c = true /\ x2f ∉ c.
Definition plain_names (ws : path) (fs : disk) : Prop :=
  forall r, is_Some (fs !! (ws ++ r)) -> Forall plain_name r.

Lemma relative_text_split r : r <> [] -> Forall plain_name r -> split x2f (relative_text r) = r.
Proof.
  intros Hne Hr. unfold relative_text. replace (map utf8_lossy r) with r.
  - apply split_join; [done|]. eapply Forall_impl; [exact Hr|]. by intros c [].
  - clear Hne. induction Hr as [|c r [Hc _] _ IH]; simpl; [done|]. by rewrite utf8_lossy_valid, <- IH.
Qed.

Lemma plain_names_create ws n :
  disk_wf (node_fs n) -> plain_names ws (node_fs n) -> disk_wf (node_fs (create_dir_all ws n).2)
  /\ plain_names ws (node_fs (create_dir_all ws n).2).
Proof.
  intros Hwf Hp.
  set (R := fun (p : path) (x : option node) => forall r, p = ws ++ r -> is_Some x -> Forall plain_name r).
  assert (kept R (node_fs (create_dir_all ws n).2)) as [Hwf' H].
  { apply preserves_create_dir_all; [|split; [done|intros p r -> Hs; by apply Hp]].
    intros d r fs fs' Hd. apply kept_mkdir. intros _ r' Hr' _.
    rewrite Hr' in Hd. rewrite <- app_assoc in Hd. rewrite <- (app_nil_r ws) in Hd at 1.
    apply app_inv_head in Hd. symmetry in Hd. apply app_nil in Hd as [-> _]. constructor. }
  split; [done|]. intros r Hr. by apply (H (ws ++ r) r).
Qed.

Lemma elem_of_dedup x l : x ∈ dedup l <-> x ∈ l.
Proof.
  induction l as [|y [|z l] IH]; [done..|].
  change (dedup (y :: z :: l)) with (if bool_decide (y = z) then dedup (z :: l) else y :: dedup (z :: l)).
  case_bool_decide as H; [subst; rewrite IH; set_solver|]. rewrite !(elem_of_cons _ x y), IH. done.
Qed.
Lemma elem_of_btree_set x l : x ∈ btree_set l <-> x ∈ l.
Proof. unfold btree_set. rewrite elem_of_dedup. by rewrite (sort_by_perm bytes_leb). Qed.

Lemma coordinate_configs_missing pid from_slice to_vec_pretty target stamps missing n missing' n' x :
  coordinate_configs pid from_slice to_vec_pretty target stamps missing n = (Ok missing', n') ->
  x ∈ missing -> x ∈ missing'.
Proof.
  revert missing n. induction stamps as [|s stamps IH]; intros missing n; cbn [coordinate_configs]; [by intros [= <- _]|].
  case_bool_decide; [apply IH|]. unfold mbind, IO_bind, attempt_io.
  destruct (fs_read _ n) as [[b|e] n1]; [|apply IH]. destruct (negb _); [apply IH|].
  destruct (write_synced_file _ _ _ _ _ _ _ n1) as [[h|e] n2]; intros E Hx; (eapply IH; [exact E|]); set_solver.
Qed.

Lemma finish_probe_missing pid from_slice to_vec_pretty set_to_vec ws stamps fresh was_seeded unix_now r n
    response n' x :
  finish_probe pid from_slice to_vec_pretty set_to_vec ws stamps fresh was_seeded unix_now r n = (Ok response, n') ->
  x ∈ rec_missing r \/ x ∈ map stamp_path stamps /\ x ∉ rec_seen r -> x ∈ missing response.
Proof.
  intros E Hx. unfold finish_probe in E. unfold mbind at 1, IO_bind at 1 in E.
  unfold mbind at 1, IO_bind at 1 in E. cbn [io_disk] in E. unfold mbind at 1, IO_bind at 1 in E.
  destruct (prune_empty_dirs _ _ _ n) as [[b|e] n1]; [|done]. cbn [mret IO_ret fst snd] in E.
  unfold mbind, IO_bind, forget_stale_paths, ignore in E.
  match type of E with context [coordinate_configs ?a ?b ?c ?d ?e ?f ?g] =>
    destruct (coordinate_configs a b c d e f g) as [[m|e'] n2] eqn:Ec; [|done] end.
  match type of E with (let '(_, _) := ?t in _) = _ => destruct t as [[[]|e'] n3]; [|done] end.
  injection E as <- _. cbn [missing].
  apply elem_of_btree_set. eapply coordinate_configs_missing; [exact Ec|]. apply elem_of_btree_set, elem_of_app.
  destruct Hx as [Hx|[Hx Hns]]; [by left|right]. by apply list_elem_of_filter.
Qed.

Lemma config_name ws r : is_config_path (ws ++ r) = false -> forall c, c ∈ root_configs -> r <> [c].
Proof.
  intros Hc c Hin ->. unfold root_configs in Hin. rewrite !elem_of_cons, elem_of_nil in Hin.
  unfold is_config_path, file_name in Hc. rewrite last_snoc in Hc.
  destruct Hin as [->|[->|[]]]; vm_compute in Hc; done.
Qed.

Lemma stamp_unique (stamps : list FileStamp) s s' :
  NoDup (map stamp_path stamps) -> s ∈ stamps -> s' ∈ stamps -> stamp_path s' = stamp_path s -> s' = s.
Proof.
  induction stamps as [|x stamps IH]; intros Hnd; [by intros ?%not_elem_of_nil|].
  cbn [map] in Hnd. apply NoDup_cons in Hnd as [Hx Hnd].
  intros [->|Hs]%elem_of_cons [->|Hs']%elem_of_cons E; [done| | |by apply IH].
  - exfalso. apply Hx. rewrite <- E. by apply list_elem_of_fmap_2.
  - exfalso. apply Hx. rewrite E. by apply list_elem_of_fmap_2.
Qed.

(** A path the probe does not ask for has the file of its stamp when the probe ends. *)
Lemma probe_asks pid from_slice to_vec_pretty set_from_slice set_to_vec storage client base stamps fresh was_seeded
    unix_now n response n' s :
  let ws := server_workspace_path storage client base in
  let p := ws ++ split x2f (stamp_path s) in
  disk_wf (node_fs n) -> plain_names ws (node_fs n) -> active_exec_snapshot (memory n) ws = None ->
  NoDup (map stamp_path stamps) -> s ∈ stamps -> temp_like p = false -> is_config_path p = false ->
  probe_seeded pid from_slice to_vec_pretty set_from_slice set_to_vec ws stamps fresh was_seeded unix_now n
    = (Ok response, n') ->
  stamp_path s ∈ missing response \/ matches s (node_fs n' !! p).
Proof.
  intros ws p Hwf Hplain Hexec Hnd Hs Htemp Hconf E.
  destruct (decide (stamp_path s ∈ missing response)) as [?|Hmiss]; [by left|right].
  destruct (plain_names_create ws n Hwf Hplain) as [Hwf0 Hplain0].
  destruct (probe_start pid from_slice to_vec_pretty set_from_slice set_to_vec ws stamps fresh was_seeded unix_now n)
    as (managed & made & n2 & r & n3 & Hfs & _ & _ & Er & Ep). rewrite Ep in E.
  unfold run_of in Er. rewrite Hexec in Er. cbn [fst snd] in Er.
  assert (Hseen : stamp_path s ∈ rec_seen r).
  { destruct (decide (stamp_path s ∈ rec_seen r)) as [?|Hns]; [done|]. exfalso. apply Hmiss.
    eapply finish_probe_missing; [exact E|]. right. split; [|done]. by apply list_elem_of_fmap_2. }
  destruct (reconcile_files_notes _ _ _ _ _ _ _ _ _ _ _ Er) as [_ Hnotes].
  destruct (Hnotes _ Hseen) as [?%not_elem_of_nil|([s' Hw] & p' & Hin)]; [done|].
  assert (s' = s) as ->.
  { apply wanted_Some in Hw as [Hs' Hpath]. by eapply stamp_unique. }
  destruct (walk_sound _ _ _ _ Hin) as (q & b & Hq & -> & Hrel & Hf & Hcache).
  assert (Hsplit : split x2f (stamp_path s) = q).
  { rewrite Hrel. apply relative_text_split; [done|]. apply Hplain0. by rewrite Hf. }
  unfold p in *. rewrite Hsplit in *.
  destruct (reconcile_files_match storage (candidate_name client base) stamps managed made
    (candidate_not_metadata client base) (walk (node_fs (create_dir_all ws n).2) ws) (MkReconciled [] [] []) n2 r n3 q s) as [Hwf3 Hm];
    [by rewrite Hfs|apply walk_walked|exact Er|by rewrite <- Hrel|by rewrite <- Hrel|done| |].
  { rewrite <- Hrel. intros Hx. apply Hmiss. eapply finish_probe_missing; [exact E|by left]. }
  pose proof (finish_probe_file pid from_slice to_vec_pretty set_to_vec storage (candidate_name client base) q (matches s)
    (candidate_not_metadata client base) (steady_matches s) (walked_not_own _ _ Hcache) Htemp (config_name _ _ Hconf)
    stamps fresh was_seeded unix_now r n3 Hwf3 Hm) as [_ H].
  unfold ws, server_workspace_path in *. rewrite E in H. by apply H.
Qed.

(** A file of the client under a name the walk skips (a directory called [build] in its
    sources, say) is asked for by every probe, whatever the copy has. *)
Lemma cache_named_always_asked pid from_slice to_vec_pretty set_from_slice set_to_vec ws stamps fresh was_seeded
    unix_now n response n' s :
  disk_wf (node_fs n) -> plain_names ws (node_fs n) -> s ∈ stamps ->
  Exists (fun c => is_node_cache c = true) (split x2f (stamp_path s)) ->
  probe_seeded pid from_slice to_vec_pretty set_from_slice set_to_vec ws stamps fresh was_seeded unix_now n
    = (Ok response, n') ->
  stamp_path s ∈ missing response.
Proof.
  intros Hwf Hplain Hs Hcache E.
  destruct (plain_names_create ws n Hwf Hplain) as [_ Hplain0].
  destruct (probe_start pid from_slice to_vec_pretty set_from_slice set_to_vec ws stamps fresh was_seeded unix_now n)
    as (managed & made & n2 & r & n3 & Hfs & _ & _ & Er & Ep). rewrite Ep in E.
  eapply finish_probe_missing; [exact E|]. right. split; [by apply list_elem_of_fmap_2|].
  intros Hseen. destruct (reconcile_files_notes _ _ _ _ _ _ _ _ _ _ _ Er) as [_ Hnotes].
  destruct (Hnotes _ Hseen) as [?%not_elem_of_nil|(_ & p & Hin)]; [done|].
  destruct (walk_sound _ _ _ _ Hin) as (q & b & Hq & -> & Hrel & Hf & Hall).
  assert (Hnames : Forall plain_name q) by (apply Hplain0; by rewrite Hf).
  rewrite Hrel, relative_text_split in Hcache by done.
  apply Exists_exists in Hcache as (c & Hc & Ec). rewrite Forall_forall in Hall, Hnames.
  specialize (Hall c Hc). destruct (Hnames c Hc) as [Hv _]. rewrite utf8_lossy_valid in Hall by done. congruence.
Qed.

Lemma probe_wf pid from_slice to_vec_pretty set_from_slice set_to_vec ws stamps fresh was_seeded unix_now :
  preserves disk_wf
    (probe_seeded pid from_slice to_vec_pretty set_from_slice set_to_vec ws stamps fresh was_seeded unix_now).
Proof.
  intros n Hwf.
  destruct (probe_start pid from_slice to_vec_pretty set_from_slice set_to_vec ws stamps fresh was_seeded unix_now n)
    as (managed & made & n2 & r & n3 & Hfs & _ & _ & Er & ->).
  eapply (proj1 (A := disk_wf _)). apply (preserves_finish_probe _ _ _ _ (fun _ _ => True)); [done..|].
  eapply (ensures_preserves (kept (fun _ _ => True))); [apply preserves_reconcile_files| |exact Er].
  - by apply Forall_true.
  - rewrite Hfs. by apply (preserves_create_ws (fun _ _ => True)).
Qed.

Lemma coordinated_plain from_slice to_vec_pretty t c :
  is_config_path t = false -> coordinated from_slice to_vec_pretty t c = c.
Proof. unfold coordinated. by intros ->. Qed.


(** ** A file arrives when no call fails *)

Lemma syscall_clean works leaves bits n fs :
  node_faults n = [] -> works (node_fs n) = Some fs ->
  syscall works leaves bits n = (Ok tt, MkNode fs (bits (node_fs n) (executables n)) [] (next_temp n) (memory n)).
Proof. intros Hf Hw. unfold syscall, settle. by rewrite Hf, Hw. Qed.

(** Nothing on the way to a directory is a file. *)
Definition way_open (fs : disk) (p : path) : Prop :=
  forall d r, p = d ++ r -> fs !! d = None \/ fs !! d = Some Dir.

Lemma way_open_above fs p c : way_open fs (p ++ [c]) -> way_open fs p.
Proof. intros H d r ->. apply (H d (r ++ [c])). by rewrite app_assoc. Qed.

Lemma io_each_app {A : Type} (l k : list A) body n :
  io_each (l ++ k) body n = (io_each l body ;; io_each k body) n.
Proof.
  revert n. induction l as [|x l IH]; intros n; [done|]. cbn [app io_each]. unfold mbind, IO_bind.
  destruct (body x n) as [[[]|e] n1]; [|done]. rewrite IH. done.
Qed.

Lemma no_nul_app p q : no_nul (p ++ q) = no_nul p && no_nul q.
Proof. unfold no_nul. apply forallb_app. Qed.

(** The missing directories are made one below the other. *)
Lemma make_missing p n :
  node_faults n = [] -> disk_wf (node_fs n) -> no_nul p = true -> way_open (node_fs n) p ->
  exists n', io_each (reverse (missing_above (S (length p)) (node_fs n) p)) fs_mkdir n = (Ok tt, n')
    /\ node_faults n' = [] /\ disk_wf (node_fs n') /\ node_fs n' !! p = Some Dir /\ next_temp n' = next_temp n
    /\ (forall q, node_fs n !! q <> None -> node_fs n' !! q = node_fs n !! q)
    /\ forall q r, q = p ++ r -> r <> [] -> node_fs n' !! q = node_fs n !! q.
Proof.
  intros Hnf Hwf. induction p as [|c p IH] using rev_ind; intros Hnul Hopen.
  - assert (node_fs n !! [] = Some Dir) as Hroot by apply Hwf.
    cbn [missing_above]. replace (exists_at (node_fs n) []) with true by (symmetry; apply exists_at_true; eauto).
    exists n. by split_and!.
  - rewrite no_nul_app in Hnul. apply andb_true_iff in Hnul as [Hnulp Hnulc].
    destruct (Hopen (p ++ [c]) [] ltac:(by rewrite app_nil_r)) as [Hn|Hd].
    + replace (missing_above (S (length (p ++ [c]))) (node_fs n) (p ++ [c])) with
        ((p ++ [c]) :: missing_above (S (length p)) (node_fs n) p).
      2: { rewrite length_app, Nat.add_comm. cbn [missing_above length Nat.add].
           rewrite (proj2 (exists_at_false _ _) Hn). destruct (path_snoc (p ++ [c])) as (d & c' & E & ->); [by destruct p|].
           by apply app_inj_tail in E as [<- _]. }
      rewrite reverse_cons, io_each_app. unfold mbind, IO_bind at 1.
      destruct (IH Hnulp (way_open_above _ _ _ Hopen)) as (n1 & -> & Hnf1 & Hwf1 & Hdir & Htemp & Hkept & Hbelow).
      assert (Hn1 : node_fs n1 !! (p ++ [c]) = None) by (by rewrite (Hbelow _ [c])).
      assert (Hmk : (if no_nul (p ++ [c]) then create_dir_at (node_fs n1) (p ++ [c]) else None)
        = Some (<[p ++ [c] := Dir]> (node_fs n1))).
      { rewrite no_nul_app, Hnulp, Hnulc. unfold create_dir_at. rewrite in_directory_snoc.
        rewrite (proj2 (is_dir_at_true _ _) Hdir). by rewrite (proj2 (exists_at_false _ _) Hn1). }
      cbn [io_each]. unfold mbind, IO_bind, fs_mkdir. rewrite (syscall_clean _ _ _ _ _ Hnf1 Hmk).
      eexists. split; [reflexivity|]. cbn [node_faults node_fs next_temp]. split_and!; [done| | |done| |].
      * apply create_dir_wf; [done| |done]. rewrite in_directory_snoc. by apply is_dir_at_true.
      * by rewrite lookup_insert_eq.
      * intros q Hq. rewrite lookup_insert_ne by congruence. by apply Hkept.
      * intros q r -> Hr. rewrite lookup_insert_ne by (intros E%(f_equal length); rewrite !length_app in E; destruct r; simpl in E; [done|lia]).
        apply (Hbelow _ ([c] ++ r)); [by rewrite app_assoc|done].
    + rewrite length_app, Nat.add_comm. cbn [missing_above length Nat.add].
      rewrite (proj2 (exists_at_true _ _) (mk_is_Some _ _ Hd)). exists n. by split_and!.
Qed.

Lemma create_dir_all_clean p n :
  node_faults n = [] -> disk_wf (node_fs n) -> no_nul p = true -> way_open (node_fs n) p ->
  exists n', create_dir_all p n = (Ok tt, n')
    /\ node_faults n' = [] /\ disk_wf (node_fs n') /\ node_fs n' !! p = Some Dir /\ next_temp n' = next_temp n
    /\ (forall q, node_fs n !! q <> None -> node_fs n' !! q = node_fs n !! q)
    /\ forall q r, q = p ++ r -> r <> [] -> node_fs n' !! q = node_fs n !! q.
Proof.
  intros Hnf Hwf Hnul Hopen. rewrite create_dir_all_eq. destruct (is_dir_at (node_fs n) p) eqn:Ed.
  - apply is_dir_at_true in Ed. exists n. by split_and!.
  - destruct (make_missing p n Hnf Hwf Hnul Hopen) as (n' & E & Hrest). exists n'. split; [|done].
    destruct (reverse _) as [|d l] eqn:El; [|done]. exfalso. injection E as <-.
    destruct Hrest as (_ & _ & Hd & _). by rewrite (proj2 (is_dir_at_true _ _) Hd) in Ed.
Qed.

Lemma target_walk_open fs cur comps a b :
  disk_wf fs -> target_walk fs cur comps = true -> comps = a ++ b -> a <> [] -> b <> [] ->
  fs !! (cur ++ a) = None \/ fs !! (cur ++ a) = Some Dir.
Proof.
  intros Hwf. revert cur a. induction comps as [|c comps IH]; intros cur a H E Ha Hb; [by destruct a|].
  destruct a as [|c' a]; [done|]. injection E as -> ->. cbn [target_walk] in H.
  destruct (bool_decide (x00 ∈ c')); [done|]. change (cur ++ c' :: a) with (cur ++ [c'] ++ a). rewrite app_assoc.
  destruct (fs !! (cur ++ [c'])) as [nd|] eqn:Ec; [|left; by apply wf_absent].
  destruct (negb (bool_decide (a ++ b = [])) && negb (bool_decide (nd = Dir))) eqn:Ed; [done|].
  assert (nd = Dir) as ->.
  { apply andb_false_iff in Ed as [E|E]; apply negb_false_iff, bool_decide_eq_true in E; [by destruct a|done]. }
  destruct a as [|c2 a]; [rewrite app_nil_r; by right|]. by apply IH.
Qed.

Lemma safe_target_parent fs ws rel t :
  disk_wf fs -> way_open fs ws -> safe_sync_target fs ws rel = Some t ->
  exists par c, t = par ++ [c] /\ file_name t = Some c /\ way_open fs par.
Proof.
  intros Hwf Hws H. pose proof (safe_sync_target_eq _ _ _ _ H) as ->. unfold safe_sync_target in H.
  destruct (_ || _ || _); [done|]. destruct (forallb normal_component (split x2f rel)) eqn:Hn; [|done]. cbn [negb] in H.
  destruct (target_walk fs ws (split x2f rel)) eqn:Hw; [|done]. clear H.
  pose proof (split_nil_inv (Byte.eqb x2f) rel) as Hne. fold (split x2f rel) in Hne.
  destruct (split x2f rel) as [|c comps _] using rev_ind; [done|].
  exists (ws ++ comps), c. rewrite app_assoc. split; [done|]. split.
  - unfold file_name. rewrite last_snoc. rewrite forallb_app in Hn. apply andb_true_iff in Hn as [_ Hc].
    cbn [forallb] in Hc. unfold normal_component in Hc. destruct (decide (c = B "..")) as [->|]; [|done].
    by rewrite (bool_decide_eq_true_2 (B ".." = B ".."%string)), !andb_false_r in Hc.
  - intros d r E. apply app_eq_app in E as [l [[-> ->]|[-> ->]]].
    + by apply (Hws d l).
    + destruct l as [|x l]; [rewrite app_nil_r; apply (Hws ws []); by rewrite app_nil_r|].
      eapply (target_walk_open fs ws _ (x :: l) (r ++ [c]) Hwf Hw); [by rewrite app_assoc|done|by destruct r].
Qed.

Lemma comparable_siblings (par : path) c c' : c <> c' -> comparable (par ++ [c]) (par ++ [c']) = false.
Proof.
  intros H. unfold comparable. apply orb_false_iff. split; apply path_starts_with_false; intros r E;
    rewrite <- app_assoc in E; apply app_inv_head in E; by injection E.
Qed.

Lemma temp_path_sibling pid par c k :
  file_name (par ++ [c]) = Some c -> exists c', temp_path pid (par ++ [c]) k = par ++ [c'] /\ c' <> c.
Proof.
  intros Hf. pose proof (temp_path_other pid (par ++ [c]) k) as Hne. revert Hne.
  unfold temp_path, with_file_name. rewrite Hf, removelast_last. intros Hne.
  eexists. split; [reflexivity|]. intros E. by rewrite E in Hne.
Qed.

Section arrives.
Context (pid : Z) (from_slice : bytes -> option Value) (to_vec_pretty : Value -> bytes).

Lemma commit_clean par c c' b x n :
  node_faults n = [] -> disk_wf (node_fs n) -> node_fs n !! par = Some Dir -> c' <> c ->
  no_nul (par ++ [c']) = true -> node_fs n !! (par ++ [c]) <> Some Dir -> node_fs n !! (par ++ [c']) <> Some Dir ->
  exists n', commit_temp (par ++ [c']) (par ++ [c]) b x n = (Ok tt, n').
Proof.
  intros Hnf Hwf Hpar Hne Hnul Ht Htemp. unfold commit_temp, fs_write_file, mbind, IO_bind at 1.
  set (fs1 := <[par ++ [c'] := File b]> (node_fs n)).
  rewrite (syscall_clean _ _ _ _ fs1 Hnf); cycle 1.
  { rewrite Hnul. unfold write_at. rewrite in_directory_snoc, (proj2 (is_dir_at_true _ _) Hpar).
    destruct (is_dir_at (node_fs n) (par ++ [c'])) eqn:E; [by apply is_dir_at_true in E|done]. }
  set (ex := if exists_at (node_fs n) (par ++ [c']) then _ else _).
  set (n1 := MkNode fs1 ex [] (next_temp n) (memory n)).
  assert (Hfile : fs1 !! (par ++ [c']) = Some (File b)) by apply lookup_insert_eq.
  assert (exists n2, (if x then fs_chmod_exec (par ++ [c']) else mret tt) n1 = (Ok tt, n2)
    /\ node_fs n2 = fs1 /\ node_faults n2 = []) as (n2 & E2 & Hfs2 & Hnf2).
  { destruct x; [|by exists n1]. unfold fs_chmod_exec. rewrite (syscall_clean _ _ _ _ fs1); [by eexists|done|].
    simpl. by rewrite (proj2 (exists_at_true _ _) (mk_is_Some _ _ Hfile)). }
  unfold IO_bind. rewrite E2. unfold fs_rename_file.
  assert (exists fs3, rename_at (node_fs n2) (par ++ [c']) (par ++ [c]) = Some fs3) as [fs3 E3].
  { rewrite Hfs2. unfold rename_at. rewrite (proj2 (exists_at_true _ _) (mk_is_Some _ _ Hfile)), in_directory_snoc.
    assert (Hp1 : fs1 !! par = Some Dir).
    { unfold fs1. rewrite lookup_insert_ne; [done|]. intros E%(f_equal length). rewrite length_app in E. simpl in E. lia. }
    rewrite (proj2 (is_dir_at_true _ _) Hp1). cbn [negb orb].
    rewrite decide_False by (intros E%app_inj_tail; by destruct E). rewrite comparable_siblings by done. rewrite Hfile.
    assert (Ht1 : fs1 !! (par ++ [c]) = node_fs n !! (par ++ [c])).
    { unfold fs1. rewrite lookup_insert_ne; [done|]. intros E%app_inj_tail. by destruct E. }
    rewrite Ht1. destruct (node_fs n !! (par ++ [c])) as [[?|]|]; [by eexists|done|by eexists]. }
  rewrite (syscall_clean _ _ _ _ fs3 Hnf2 E3). by eexists.
Qed.

Lemma write_synced_clean ws par c content x n :
  file_name (par ++ [c]) = Some c ->
  node_faults n = [] -> disk_wf (node_fs n) -> way_open (node_fs n) par -> no_nul (par ++ [c]) = true ->
  node_fs n !! (par ++ [c]) <> Some Dir ->
  no_nul (temp_path pid (par ++ [c]) (next_temp n)) = true ->
  node_fs n !! temp_path pid (par ++ [c]) (next_temp n) <> Some Dir ->
  exists h n', write_synced_file pid from_slice to_vec_pretty ws (par ++ [c]) content x n = (Ok h, n').
Proof.
  intros Hname Hnf Hwf Hopen Hnul Ht Hnult Htemp.
  unfold write_synced_file. destruct (path_snoc (par ++ [c])) as (d & c1 & E & ->); [by destruct par|].
  apply app_inj_tail in E as [<- <-]. unfold mbind, IO_bind at 1.
  assert (Hnulp : no_nul par = true) by (rewrite no_nul_app in Hnul; by apply andb_true_iff in Hnul as [? _]).
  destruct (create_dir_all_clean par n Hnf Hwf Hnulp Hopen) as (n1 & -> & Hnf1 & Hwf1 & Hd & Hk & _ & Hbelow).
  unfold IO_bind at 1. cbn [fresh_temp]. rewrite Hk.
  destruct (temp_path_sibling pid par c (next_temp n) Hname) as (c' & Et & Hne). rewrite Et in Hnult, Htemp |- *.
  set (n2 := MkNode _ _ _ _ _).
  destruct (commit_clean par c c' (coordinated from_slice to_vec_pretty (par ++ [c]) content) x n2) as [n3 E3];
    [done|done|done|done|done| | |].
  - simpl. by rewrite (Hbelow _ [c]).
  - simpl. by rewrite (Hbelow _ [c']).
  - unfold IO_bind at 1, or_unlink. rewrite E3.
    unfold IO_bind. destruct (record_config_returns ws (par ++ [c]) content
      (coordinated from_slice to_vec_pretty (par ++ [c]) content) n3) as [n4 ->]. by eexists _, n4.
Qed.
End arrives.

(** A file the gateway accepts arrives.  When no call fails, a delta with content whose
    path the gateway accepts, with nothing but directories on the way to the copy, no directory
    at the target or its temporary name, and no zero byte in either, is written: the copy has
    the content, the path does not fail, and it is counted and noted as synced with the hash of
    what was written. *)
Theorem accepted_file_arrives (pid : Z) (from_slice : bytes -> option Value) (to_vec_pretty : Value -> bytes)
    (ws t : path) (delta : FileDelta) (c : bytes) (tally : Tally) (n : Node) :
  node_faults n = [] -> disk_wf (node_fs n) -> way_open (node_fs n) ws ->
  content delta = Some c -> safe_sync_target (node_fs n) ws (relative_path delta) = Some t ->
  no_nul t = true -> no_nul (temp_path pid t (next_temp n)) = true ->
  node_fs n !! t <> Some Dir -> node_fs n !! temp_path pid t (next_temp n) <> Some Dir ->
  exists tally' n',
    apply_delta pid from_slice to_vec_pretty ws None ∅ delta tally n = (Ok tally', n')
    /\ node_fs n' !! t = Some (File (coordinated from_slice to_vec_pretty t c))
    /\ t_failed tally' = t_failed tally
    /\ t_updated tally' = t_updated tally + 1
    /\ t_synced tally' = t_synced tally
         ++ [(relative_path delta, Some (content_hash (coordinated from_slice to_vec_pretty t c)))].
Proof.
  intros Hnf Hwf Hopen Hc Ht Hnul Hnult Hnd Hndt.
  destruct (safe_target_parent _ _ _ _ Hwf Hopen Ht) as (par & c0 & -> & Hname & Hpar).
  destruct (write_synced_clean pid from_slice to_vec_pretty ws par c0 c (is_executable delta) n) as (h & n' & E);
    [done..|].
  unfold apply_delta, mbind, IO_bind at 1. cbn [io_disk]. cbv zeta. rewrite Ht, Hc.
  unfold apply_content, mbind, IO_bind, io_disk, attempt_io. rewrite andb_false_r, andb_false_l, E.
  destruct (ensures_write_synced _ _ _ _ _ _ _ _ _ _ Hwf E) as (_ & Hfile & ->).
  eexists _, n'. by split_and!.
Qed.

(** ** Witnesses *)

Module Example.
Definition from_slice (_ : bytes) : option Value := None.
Definition to_vec_pretty (_ : Value) : bytes := [].
Definition set_from_slice (b : bytes) : option (list bytes) := Some (lines b).
Definition set_to_vec (l : list bytes) : bytes := concat (map (fun p => p ++ [x0a]) l).
Definition storage : path := [B "srv"].
Definition client : bytes := B "/home/a/app".
Definition ws : path := server_workspace_path storage client None.

(** A copy with a synced file, a file a command made, and a neighbour. *)
Definition disk0 : disk :=
  list_to_map [([], Dir); (storage, Dir); (ws, Dir); (ws ++ [B "old.rs"], File (B "old"));
               (ws ++ [B "made.txt"], File (B "made"));
               (ws ++ [B ".prod"], Dir); (manifest_path ws, File (B "old.rs" ++ [x0a]));
               (storage ++ [B "other"], Dir); (storage ++ [B "other"; B "x"], File (B "x"))].
Definition node0 (faults : list Fault) : Node := MkNode disk0 ∅ faults 0 (MkMemory ∅ ∅ 1).

Lemma disk0_wf : disk_wf disk0.
Proof. apply disk_wfb_sound. vm_compute. reflexivity. Qed.

(** A run by its result and the state it leaves. *)
Lemma run_is {A : Type} (m : IO A) n r : (m n).1 = r -> m n = (r, (m n).2).
Proof. intros <-. by destruct (m n). Qed.

Lemma synced_write_atomic_witness :
  let write := write_synced_file 7 from_slice to_vec_pretty ws (ws ++ [B "old.rs"]) (B "new") false in
  let n := node0 [Fails (Some (B "n"))] in
  (write n).1 = Err tt /\ node_fs (write n).2 !! (ws ++ [B "old.rs"]) = Some (File (B "old")).
Proof.
  intros write n. assert (E : (write n).1 = Err tt) by (vm_compute; reflexivity). split; [exact E|].
  pose proof (synced_write_atomic 7 from_slice to_vec_pretty ws (ws ++ [B "old.rs"]) (B "new") false n (write n).2
    (Err tt) disk0_wf (run_is write n _ E)) as (_ & H & _).
  etransitivity; [exact H|]. vm_compute. reflexivity.
Defined.

Lemma config_stamps_roundtrip_witness :
  let t := ws ++ [B "tsconfig.json"] in
  let record := meta_record ws t 10 11 12 13 in
  (record (node0 [])).1 = Ok tt
  /\ (meta_matches ws t 10 99 12 13 (record (node0 [])).2).1 = Ok false.
Proof.
  intros t record. assert (E : (record (node0 [])).1 = Ok tt) by (vm_compute; reflexivity). split; [exact E|].
  etransitivity; [|exact (eq_refl : Ok (bool_decide ([10; 11; 12; 13] = [10; 99; 12; 13])) = Ok false)].
  apply (config_stamps_roundtrip ws t (storage ++ [METADATA_DIR; B "app"; B "tsconfig.prod-code-sync-stamp"]) 10 11 12 13 10 99 12 13 (node0 []) (record (node0 [])).2).
  - apply Forall_forall. intros v. rewrite !elem_of_cons, elem_of_nil. unfold u64_max. lia.
  - vm_compute. reflexivity.
  - exact (run_is record (node0 []) _ E).
  - vm_compute. reflexivity.
Defined.

Lemma no_exec0 faults : active_exec_snapshot (memory (node0 faults)) ws = None.
Proof. vm_compute. reflexivity. Qed.

Definition deltas0 : list FileDelta :=
  [mkDelta (B "src/a.rs") (Some (B "fn a")) false; mkDelta (B "old.rs") None false].
Definition sync0 : IO SyncOutcome :=
  apply_sync 7 from_slice to_vec_pretty set_from_slice set_to_vec storage client None deltas0 1 2 3.


Lemma sync_stays_in_copy_witness :
  node_fs (sync0 (node0 [])).2 !! (storage ++ [B "other"; B "x"]) = Some (File (B "x")).
Proof.
  refine (eq_trans (proj1 (proj2 (sync_stays_in_copy 7 from_slice to_vec_pretty set_from_slice set_to_vec storage client
    None (node0 [])) disk0_wf _ (storage ++ [B "other"; B "x"]) _ _) deltas0 1 2 3) _); vm_compute; reflexivity.
Defined.

Lemma probe_deletes_only_managed_witness :
  exists response n',
    probe_seeded 7 from_slice to_vec_pretty set_from_slice set_to_vec ws [] false false 1 (node0 []) = (Ok response, n')
    /\ node_fs n' !! (ws ++ [B "made.txt"]) = Some (File (B "made")).
Proof.
  apply (probe_deletes_only_managed 7 from_slice to_vec_pretty set_from_slice set_to_vec storage client None [] false
    false 1 (node0 []) [B "made.txt"] (B "made")).
  - exact disk0_wf.
  - vm_compute. reflexivity.
  - by_decide.
  - vm_compute. reflexivity.
  - intros c Hc E. injection E as <-. revert Hc. by_decide.
  - right. left. by_decide.
Defined.
Definition plain_namesb (w : path) (fs : disk) : bool :=
  forallb (fun e => match strip_path w e.1 with
                    | Some r => forallb (fun c => utf8_valid c && negb (bool_decide (x2f ∈ c))) r
                    | None => true
                    end) (map_to_list fs).
Lemma plain_namesb_sound w fs : plain_namesb w fs = true -> plain_names w fs.
Proof.
  intros H r [x Hx]. apply elem_of_map_to_list in Hx. unfold plain_namesb in H. rewrite forallb_forall in H.
  specialize (H _ (proj1 (list_elem_of_In _ _) Hx)). cbn [fst] in H. rewrite strip_path_app, forallb_forall in H.
  apply Forall_forall. intros c Hc%list_elem_of_In. specialize (H c Hc). apply andb_true_iff in H as [H1 H2].
  split; [done|]. by apply negb_true_iff, bool_decide_eq_false in H2.
Qed.

Definition stamp_of (rel c : bytes) : FileStamp := mkStamp rel (zlen c) (content_hash c) None.
Definition stamps0 : list FileStamp :=
  [stamp_of (B "old.rs") (B "new"); stamp_of (B "src/a.rs") (B "fn a"); stamp_of (B "made.txt") (B "made")].
Definition answer0 : list FileDelta :=
  [mkDelta (B "old.rs") (Some (B "new")) false; mkDelta (B "src/a.rs") (Some (B "fn a")) false].
(** The probe is undisturbed; then the fourth call of the sync fails. *)
Definition faults0 : list Fault := repeat NoFault 13 ++ [Fails (Some (B "f"))].
Definition probe0 : IO SyncProbeResponse :=
  probe_seeded 7 from_slice to_vec_pretty set_from_slice set_to_vec ws stamps0 false false 1.


Lemma accepted_file_arrives_witness :
  exists tally n',
    apply_delta 7 from_slice to_vec_pretty ws None ∅ (mkDelta (B "src/a.rs") (Some (B "fn a")) false)
      (MkTally 0 0 0 false [] [] [] []) (node0 []) = (Ok tally, n')
    /\ node_fs n' !! (ws ++ [B "src"; B "a.rs"]) = Some (File (B "fn a")) /\ t_failed tally = [].
Proof.
  destruct (accepted_file_arrives 7 from_slice to_vec_pretty ws (ws ++ [B "src"; B "a.rs"])
    (mkDelta (B "src/a.rs") (Some (B "fn a")) false) (B "fn a") (MkTally 0 0 0 false [] [] [] []) (node0 []))
    as (tally & n' & E & Hf & Hfail & _).
  - reflexivity.
  - exact disk0_wf.
  - intros d r Hd. right. assert (Hx : exists x, disk0 !! (d ++ r) = Some x).
    { rewrite <- Hd. exists Dir. vm_compute. reflexivity. }
    destruct Hx as [x Hx]. destruct r as [|c r].
    + rewrite app_nil_r in Hd. subst d. vm_compute. reflexivity.
    + by apply (wf_above disk0 disk0_wf d (c :: r) x).
  - reflexivity.
  - vm_compute. reflexivity.
  - vm_compute. reflexivity.
  - vm_compute. reflexivity.
  - by_decide.
  - by_decide.
  - exists tally, n'. split; [exact E|]. split; [exact Hf|exact Hfail].
Defined.
End Example.
