(* ===== verification/PushSync.v ===== *)
(** * The client's side of an upload

    [sync/entry.rs] and the upload loop of [sync/push.rs] of the MCP server: the files of a
    sync are cut into messages, each message is one sync of the gateway ([GatewaySync]), and
    what the answers say is put together.  The sizes a file may have and the watermark's
    comparison are [entry.rs]'s and [types.rs]'s. *)

From Stdlib Require Import Strings.Byte.
From stdpp Require Import gmap.
From S2P Require Import Prelude RustStr Json Sync Fs Journal NodeDisk GatewaySync SyncCorrect.

(** ** [entry.rs] and [types.rs] *)

Definition MAX_FILE_SIZE : Z := 10 * 1024 * 1024.
Definition MAX_LIBRARY_SIZE : Z := 128 * 1024 * 1024.
Definition MAX_JSON_CONFIG_SIZE : Z := 8 * 1024 * 1024.
Definition SYNC_BATCH_BYTES : Z := 24 * 1024 * 1024.

(** [Path::extension]: after the last dot of the file name, unless the dot is its first byte. *)
Definition extension (rel : bytes) : option bytes :=
  name ← file_name (components rel);
  match rsplit_once (B ".") name with
  | Some ([], _) | None => None
  | Some (_, ext) => Some ext
  end.

Definition size_limit (rel : bytes) : Z :=
  match extension rel with
  | Some e => if bool_decide (e ∈ [B "a"; B "so"; B "dylib"; B "lib"; B "o"]) then MAX_LIBRARY_SIZE else MAX_FILE_SIZE
  | None => MAX_FILE_SIZE
  end.
Definition fits_sync (rel : bytes) (is_file : bool) (len : Z) : bool :=
  is_file && (len <=? size_limit rel) && negb (ends_with (B ".json") rel && (MAX_JSON_CONFIG_SIZE <? len)).

Record SyncFileEntry := MkEntry {
  mtime_sec : Z;
  mtime_nsec : Z;
  entry_size : Z;
  entry_hash : Z;
  entry_executable : option bool;
}.
Definition entry_matches (stored current : SyncFileEntry) : bool :=
  (mtime_sec stored =? mtime_sec current) && (mtime_nsec stored =? mtime_nsec current)
  && (entry_size stored =? entry_size current) && (entry_hash stored =? entry_hash current)
  && eqb (default false (entry_executable stored)) (default false (entry_executable current)).
Definition unchanged (stored : option SyncFileEntry) (current : SyncFileEntry) : bool :=
  match stored with Some s => entry_matches s current | None => false end.

(** [SyncPlan::manifest] and [SyncPlan::retain_uploads], of a watermark's files and a plan's. *)
Definition plan_manifest (files : gmap bytes SyncFileEntry) : list FileStamp :=
  sort_by (fun a b => bytes_leb (stamp_path a) (stamp_path b))
    (map (fun e => mkStamp e.1 (entry_size e.2) (entry_hash e.2) (entry_executable e.2)) (map_to_list files)).
Definition retain_uploads (keep : list bytes) (files : list FileDelta) : list FileDelta :=
  filter (fun f => content f = None \/ relative_path f ∈ keep) files.

Definition priority_names : list bytes :=
  [B "go.mod"; B "go.sum"; B "go.work"; B "Cargo.toml"; B "Cargo.lock"; B "Package.swift"; B "pyproject.toml";
   B "requirements.txt"; B "setup.py"; B "package.json"; B "tsconfig.json"; B "CMakeLists.txt"; B "meson.build";
   B "pom.xml"; B "build.gradle"; B "build.gradle.kts"].
Definition is_priority_manifest (rel : bytes) : bool :=
  match file_name (components rel) with Some name => bool_decide (name ∈ priority_names) | None => false end.

Definition delta_bytes (f : FileDelta) : Z := match content f with Some c => zlen c | None => 0 end.

(** [sync_batches]: the loop with the full batches, the current one and its size. *)
Fixpoint batch_files (budget : Z) (full : list (list FileDelta)) (current : list FileDelta) (size : Z)
    (files : list FileDelta) : list (list FileDelta) :=
  match files with
  | [] => full ++ [current]
  | file :: rest =>
      let len := delta_bytes file in
      if negb (bool_decide (length current = 0%nat)) && (budget <? size + len)
      then batch_files budget (full ++ [current]) [file] len rest
      else batch_files budget full (current ++ [file]) (size + len) rest
  end.

(** [sort_by_key(|f| !is_priority_manifest(f))], which is stable. *)
Definition manifest_first (a b : FileDelta) : bool :=
  is_priority_manifest (relative_path a) || negb (is_priority_manifest (relative_path b)).
Definition sync_batches (files : list FileDelta) (budget : Z) : list (list FileDelta) :=
  batch_files budget [] [] 0 (sort_by manifest_first files).

(** ** [push.rs] *)

Record PushOutcome := MkPush {
  push_updated : Z;
  push_deleted : Z;
  push_bytes : Z;
  push_root : bytes;
  push_stale : list bytes;
}.

Section push.
Context (pid : Z) (from_slice : bytes -> option Value) (to_vec_pretty : Value -> bytes).
Context (set_from_slice : bytes -> option (list bytes)) (set_to_vec : list bytes -> bytes).
Context (storage : path) (client : bytes) (base : option bytes).

(** The upload loop, with no symbolic links to send: each batch is a sync, the counts add up,
    and the stale paths are the last answer's.  [None] is [NeedsFullResync]. *)
Fixpoint upload_batches (first uploading_full_manifest : bool) (unix_now now : Z)
    (batches : list (list FileDelta)) (outcome : PushOutcome) : IO (option PushOutcome) :=
  match batches with
  | [] => mret (Some outcome)
  | files :: rest =>
      answer ← apply_sync pid from_slice to_vec_pretty set_from_slice set_to_vec storage client base files
                 unix_now now 0;
      let resp := outcome_response answer in
      if workspace_was_fresh resp && negb (first && uploading_full_manifest) then mret None
      else
        upload_batches false uploading_full_manifest unix_now now rest
          (MkPush (push_updated outcome + files_updated resp) (push_deleted outcome + files_deleted resp)
             (push_bytes outcome + bytes_transferred resp) (server_workspace_root resp) (stale_paths resp))
  end.
Definition upload (uploading_full_manifest : bool) (unix_now now : Z) (files : list FileDelta) (budget : Z)
    : IO (option PushOutcome) :=
  upload_batches true uploading_full_manifest unix_now now (sync_batches files budget) (MkPush 0 0 0 [] []).
End push.

(** ** Batches *)

Definition batch_bytes (batch : list FileDelta) : Z := foldr (fun f n => delta_bytes f + n) 0 batch.

Lemma batch_bytes_app a b : batch_bytes (a ++ b) = batch_bytes a + batch_bytes b.
Proof. induction a as [|f a IH]; simpl; [done|]. rewrite IH. lia. Qed.
Lemma delta_bytes_nonneg f : 0 <= delta_bytes f.
Proof. unfold delta_bytes. destruct (content f); [apply zlen_nonneg|done]. Qed.

(** A message within the budget, or one file alone. *)
Definition batch_fits (budget : Z) (batch : list FileDelta) : Prop :=
  batch_bytes batch <= budget \/ exists f, batch = [f].

Lemma batch_files_spec budget full current size files :
  0 <= budget -> size = batch_bytes current -> batch_fits budget current -> Forall (batch_fits budget) full ->
  concat (batch_files budget full current size files) = concat full ++ current ++ files
  /\ Forall (batch_fits budget) (batch_files budget full current size files).
Proof.
  intros Hb. revert full current size.
  induction files as [|f files IH]; intros full current size Hs Hc Hfull; cbn [batch_files].
  - rewrite concat_app, app_nil_r. cbn [concat]. rewrite app_nil_r. split; [done|]. apply Forall_app. split; [done|]. constructor; [done|constructor].
  - destruct (negb (bool_decide (length current = 0%nat)) && (budget <? size + delta_bytes f)) eqn:E.
    + destruct (IH (full ++ [current]) [f] (delta_bytes f)) as [Hcat Hall].
      * simpl. lia.
      * right. by exists f.
      * apply Forall_app. split; [done|]. constructor; [done|constructor].
      * split; [|done]. rewrite Hcat, concat_app. cbn [concat]. by rewrite app_nil_r, <- !app_assoc.
    + destruct (IH full (current ++ [f]) (size + delta_bytes f)) as [Hcat Hall].
      * rewrite batch_bytes_app. simpl. lia.
      * apply andb_false_iff in E as [E|E].
        -- apply negb_false_iff, bool_decide_eq_true, length_zero_iff_nil in E as ->. right. by exists f.
        -- left. rewrite batch_bytes_app. simpl. apply Z.ltb_ge in E. lia.
      * done.
      * split; [|done]. rewrite Hcat. by rewrite <- !app_assoc.
Qed.

Lemma manifest_first_sorted files :
  sort_by manifest_first files =
    filter (fun f => is_priority_manifest (relative_path f) = true) files
    ++ filter (fun f => is_priority_manifest (relative_path f) = false) files.
Proof.
  induction files as [|f files IH]; [done|]. cbn [sort_by foldr]. fold (sort_by manifest_first files). rewrite IH.
  rewrite !filter_cons. destruct (is_priority_manifest (relative_path f)) eqn:Ef.
  - rewrite decide_True, decide_False by done. 
    destruct (filter _ files ++ filter _ files) as [|g l] eqn:E; cbn [insert_by].
    + apply app_nil in E as [-> ->]. done.
    + unfold manifest_first. rewrite Ef. simpl. by rewrite <- E.
  - rewrite decide_False, decide_True by done.
    assert (Hp : Forall (fun f => is_priority_manifest (relative_path f) = true)
      (filter (fun f => is_priority_manifest (relative_path f) = true) files)).
    { apply Forall_forall. by intros g [? _]%list_elem_of_filter. }
    assert (Hr : Forall (fun f => is_priority_manifest (relative_path f) = false)
      (filter (fun f => is_priority_manifest (relative_path f) = false) files)).
    { apply Forall_forall. by intros g [? _]%list_elem_of_filter. }
    clear IH. induction Hp as [|g l Hg _ IHl]; cbn [app].
    + destruct Hr as [|g rest Hg _]; [done|]. cbn [insert_by]. unfold manifest_first. by rewrite Ef, Hg.
    + cbn [insert_by]. unfold manifest_first at 1. rewrite Ef, Hg. cbn [orb negb]. by rewrite IHl.
Qed.

(** C23: A sync's files are cut into messages faithfully.  The messages hold exactly the files,
    the project manifests first and otherwise in the order given; each is within the budget or
    is one file alone; and there is always at least one message. *)
Theorem sync_batches_partition (files : list FileDelta) (budget : Z) :
  0 <= budget ->
  concat (sync_batches files budget) =
    filter (fun f => is_priority_manifest (relative_path f) = true) files
    ++ filter (fun f => is_priority_manifest (relative_path f) = false) files
  /\ Forall (fun batch => batch_bytes batch <= budget \/ exists f, batch = [f]) (sync_batches files budget)
  /\ sync_batches files budget <> [].
Proof.
  intros Hb. unfold sync_batches.
  destruct (batch_files_spec budget [] [] 0 (sort_by manifest_first files)) as [Hcat Hall]; [done|done|by left|constructor|].
  split_and!; [by rewrite Hcat, manifest_first_sorted|done|].
  clear. generalize (sort_by manifest_first files) as l. intros l.
  assert (H : forall full current size, batch_files budget full current size l <> []).
  { induction l as [|f l IH]; intros full current size; cbn [batch_files]; [by destruct full|]. destruct (_ && _); apply IH. }
  apply H.
Qed.

Lemma sync_batches_partition_witness :
  Forall (fun batch => batch_bytes batch <= 4 \/ exists f, batch = [f])
    (sync_batches [mkDelta (B "a.rs") (Some (B "12345")) false; mkDelta (B "go.mod") (Some (B "123")) false] 4).
Proof. apply sync_batches_partition. lia. Defined.

(** ** The manifest of a plan *)

Lemma plan_manifest_paths files :
  NoDup (map stamp_path (plan_manifest files))
  /\ forall s, s ∈ plan_manifest files <->
       exists e, files !! stamp_path s = Some e
         /\ s = mkStamp (stamp_path s) (entry_size e) (entry_hash e) (entry_executable e).
Proof.
  unfold plan_manifest. set (l := map _ (map_to_list files)).
  pose proof (sort_by_perm (fun a b => bytes_leb (stamp_path a) (stamp_path b)) l) as Hp. split.
  - change (map ?f ?k) with (f <$> k). rewrite Hp. unfold l. change (map ?f ?k) with (f <$> k). rewrite <- list_fmap_compose.
    apply (NoDup_fst_map_to_list files).
  - intros s. rewrite Hp. unfold l. rewrite list_elem_of_fmap. split.
    + intros ([k e] & -> & He%elem_of_map_to_list). by exists e.
    + intros (e & He & Hs). exists (stamp_path s, e). split; [done|]. by apply elem_of_map_to_list.
Qed.

(** ** One message *)

Lemma batch_bytes_nonneg batch : 0 <= batch_bytes batch.
Proof. induction batch as [|f batch IH]; simpl; [done|]. pose proof (delta_bytes_nonneg f). lia. Qed.

Lemma batch_files_one budget current size files :
  size + batch_bytes files <= budget -> batch_files budget [] current size files = [current ++ files].
Proof.
  revert current size. induction files as [|f files IH]; intros current size H; cbn [batch_files]; [by rewrite app_nil_r|].
  simpl in H. pose proof (batch_bytes_nonneg files).
  replace (budget <? size + delta_bytes f) with false by (symmetry; apply Z.ltb_ge; lia).
  rewrite andb_false_r, IH by lia. by rewrite <- app_assoc.
Qed.

Lemma batch_bytes_perm a b : a ≡ₚ b -> batch_bytes a = batch_bytes b.
Proof. induction 1; simpl; lia. Qed.

Lemma sync_batches_one files budget :
  batch_bytes files <= budget -> sync_batches files budget = [sort_by manifest_first files].
Proof.
  intros H. unfold sync_batches. rewrite batch_files_one; [done|].
  by rewrite (batch_bytes_perm _ _ (sort_by_perm manifest_first files)).
Qed.


Module One.
Import Example.
End One.

(** ** Several messages *)

(** The stale paths are the last answer's, and the gateway repeats an earlier one only if it
    could write its list: two messages, the first file's write and the list's failing, leave
    the copy without the file and the client without a word of it. *)
Module Forgotten.
Import Example.
Definition disk1 : disk := <[ws ++ [LAST_USED_MARKER] := File (B "0")]> disk0.
Definition node1 : Node :=
  MkNode disk1 ∅ ([NoFault; Fails None] ++ repeat NoFault 7 ++ [Fails None]) 0 (MkMemory ∅ ∅ 1).
Definition files1 : list FileDelta :=
  [mkDelta (B "a.rs") (Some (B "fn a")) false; mkDelta (B "b.rs") (Some (B "fn b")) false].
Definition upload1 : IO (option PushOutcome) :=
  upload 7 from_slice to_vec_pretty set_from_slice set_to_vec storage client None false 1 2 files1 4.

Lemma batched_upload_forgets :
  option_map push_stale (match (upload1 node1).1 with Ok o => o | Err _ => None end) = Some []
  /\ node_fs (upload1 node1).2 !! (ws ++ [B "a.rs"]) = None
  /\ node_fs (upload1 node1).2 !! (ws ++ [B "b.rs"]) = Some (File (B "fn b")).
Proof. split_and!; vm_compute; reflexivity. Qed.
End Forgotten.
