(* ===== verification/Tasks.v ===== *)
(** * Tasks that run side by side

    An asynchronous function of the sources as the sequence of the steps it takes on what it
    shares with others: a lock section, a call to the operating system, a message received.  A
    step is atomic, anything may happen between two of them, and a step that has to wait is not
    enabled.  [run_pool] runs several tasks in the order of a schedule, interleaved with what
    happens outside them; [run_alone] runs one to its end.  [always] is the rule the components
    use: what every step of a task guarantees holds in every schedule. *)

From S2P Require Import Prelude.

Set Implicit Arguments.

Section tasks.
Context {W : Type}.

Inductive Task (A : Type) : Type :=
| Done (a : A)
| Act (X : Type) (step : W -> option (X * W)) (next : X -> Task A).

Fixpoint task_bind (A C : Type) (k : A -> Task C) (t : Task A) : Task C :=
  match t with
  | Done a => k a
  | Act f next => Act f (fun x => task_bind k (next x))
  end.
#[export] Instance Task_ret : MRet Task := Done.
#[export] Instance Task_bind : MBind Task := task_bind.

(** A step that never waits. *)
Definition act (X : Type) (f : W -> X * W) : Task X := Act (fun w => Some (f w)) (@Done X).
(** A step that only looks. *)
Definition look (X : Type) (f : W -> X) : Task X := act (fun w => (f w, w)).

(** A loop over a list that carries a value along. *)
Fixpoint task_fold (A C : Type) (body : C -> A -> Task C) (acc : C) (l : list A) : Task C :=
  match l with
  | [] => Done acc
  | x :: l' => acc' ← body acc x; task_fold body acc' l'
  end.

(** The task by itself; [None] when it waits for another. *)
Fixpoint run_alone (A : Type) (t : Task A) (w : W) : option (A * W) :=
  match t with
  | Done a => Some (a, w)
  | Act f next => match f w with Some (x, w') => run_alone (next x) w' | None => None end
  end.

(** ** Schedules *)

Section pool.
Context {E A : Type} (outside : E -> W -> option W).

Inductive Event :=
| Turn (i : nat)      (** the task at [i] takes its next step *)
| Outside (e : E).    (** something else happens *)

Definition take_turn (i : nat) (s : W * list (Task A)) : option (W * list (Task A)) :=
  match s.2 !! i with
  | Some (Act f next) => match f s.1 with Some (x, w') => Some (w', <[i := next x]> s.2) | None => None end
  | _ => None
  end.

Definition pool_event (e : Event) (s : W * list (Task A)) : option (W * list (Task A)) :=
  match e with
  | Turn i => take_turn i s
  | Outside e => w' ← outside e s.1; Some (w', s.2)
  end.

Fixpoint run_pool (events : list Event) (s : W * list (Task A)) : option (W * list (Task A)) :=
  match events with
  | [] => Some s
  | e :: events' => s' ← pool_event e s; run_pool events' s'
  end.
End pool.

(** ** What every step guarantees *)

(** Every step the task may take satisfies [G], and it only ends with a value in [Q]. *)
Fixpoint always (A : Type) (G : W -> W -> Prop) (t : Task A) (Q : A -> Prop) : Prop :=
  match t with
  | Done a => Q a
  | Act f next => forall w x w', f w = Some (x, w') -> G w w' /\ always G (next x) Q
  end.

Lemma always_mono (A : Type) (G G' : W -> W -> Prop) (t : Task A) (Q Q' : A -> Prop) :
  (forall w w', G w w' -> G' w w') -> (forall a, Q a -> Q' a) -> always G t Q -> always G' t Q'.
Proof. intros HG HQ. induction t as [a|X f next IH]; cbn; [auto|]. intros H w x w' E. destruct (H _ _ _ E). eauto. Qed.

Lemma always_bind (A C : Type) G (t : Task A) (k : A -> Task C) (Q : A -> Prop) (R : C -> Prop) :
  always G t Q -> (forall a, Q a -> always G (k a) R) -> always G (t ≫= k) R.
Proof.
  intros Ht Hk. induction t as [a|X f next IH]; cbn in *; [auto|]. intros w x w' E. destruct (Ht _ _ _ E). eauto.
Qed.

Lemma always_act (A : Type) G (f : W -> A * W) (Q : A -> Prop) :
  (forall w, G w (f w).2 /\ Q (f w).1) -> always G (act f) Q.
Proof. intros H w x w' E. injection E as E. specialize (H w). rewrite E in H. done. Qed.

Lemma always_look (A : Type) (G : W -> W -> Prop) (f : W -> A) (Q : A -> Prop) :
  (forall w, G w w) -> (forall w, Q (f w)) -> always G (look f) Q.
Proof. intros HG HQ. apply always_act. intros w. split; [apply HG|apply HQ]. Qed.

Lemma always_fold (A C : Type) G (body : C -> A -> Task C) (l : list A) (Q : C -> Prop) acc :
  Q acc -> (forall acc x, x ∈ l -> Q acc -> always G (body acc x) Q) -> always G (task_fold body acc l) Q.
Proof.
  intros Hacc Hbody. revert acc Hacc. induction l as [|x l IH]; intros acc Hacc; [done|]. cbn.
  eapply always_bind; [apply Hbody; [left|done]|]. intros acc' H'. apply IH; [|done].
  intros ? y Hy. apply Hbody. by right.
Qed.

Section runs.
Context {E A : Type} (outside : E -> W -> option W) (G : W -> W -> Prop).
Implicit Types s : W * list (Task A).

Definition steady (ts : list (Task A)) : Prop := Forall (fun t => always G t (fun _ => True)) ts.

(** Every turn guarantees [G], and keeps the tasks' guarantee. *)
Lemma turn_guarantees i s s' : steady s.2 -> take_turn i s = Some s' -> G s.1 s'.1 /\ steady s'.2.
Proof.
  unfold take_turn. intros Hs. destruct (s.2 !! i) as [[a|X f next]|] eqn:Ei; try done.
  destruct (f s.1) as [[x w']|] eqn:Ef; [|done]. intros [= <-]. cbn.
  destruct ((Forall_lookup_1 _ _ _ _ Hs Ei) _ _ _ Ef) as [HG Hnext].
  split; [done|]. by apply Forall_insert.
Qed.

(** An invariant every turn and every outside event keeps holds along a run. *)
Lemma run_invariant (J : W -> Prop) (ok : E -> Prop) events s s' :
  (forall w w', G w w' -> J w -> J w') ->
  (forall e w w', ok e -> outside e w = Some w' -> J w -> J w') ->
  Forall (fun e => match e with Turn _ => True | Outside e => ok e end) events ->
  steady s.2 -> J s.1 -> run_pool outside events s = Some s' -> J s'.1 /\ steady s'.2.
Proof.
  intros Ht Ho Hok. revert s. induction Hok as [|e events He _ IH]; intros s Hs HJ; cbn.
  - by intros [= <-].
  - destruct (pool_event outside e s) as [s1|] eqn:E1; [|done]. cbn. intros Hrun.
    assert (J s1.1 /\ steady s1.2) as [HJ1 Hs1]; [|by apply (IH s1)]. destruct e as [i|e]; cbn in E1.
    + destruct (turn_guarantees _ _ Hs E1) as [HG Hs1]. eauto.
    + destruct (outside e s.1) as [w'|] eqn:Eo; simplify_eq/=. eauto.
Qed.
End runs.

(** ** A task alone *)

Lemma run_alone_bind (A C : Type) (t : Task A) (k : A -> Task C) w :
  run_alone (t ≫= k) w = '(a, w') ← run_alone t w; run_alone (k a) w'.
Proof.
  revert w. induction t as [a|X f next IH]; intros w; [done|]. cbn. destruct (f w) as [[x w']|]; [|done]. apply IH.
Qed.

Lemma run_alone_act (A : Type) (f : W -> A * W) w : run_alone (act f) w = Some (f w).
Proof. cbn. by destruct (f w). Qed.

Lemma run_alone_look (A : Type) (f : W -> A) w : run_alone (look f) w = Some (f w, w).
Proof. done. Qed.

End tasks.

Arguments Task : clear implicits.
Arguments Event : clear implicits.
Arguments Done {W A} a.
Arguments Turn {E} i.
Arguments Outside {E} e.
