(* ===== verification/Pruning.v ===== *)
(** * Removing working copies nobody uses

    [workspace/usage.rs] and [workspace/prune.rs] of the gateway, with the clean-up of the
    config records in [sync/config_meta.rs].  A session or a remote command holds a use of its
    copy while it runs; the pruners look for copies that were idle long enough and take one away
    by renaming it under the lock that guards the uses, and delete it afterwards.

    A pruner is a task: each call to the operating system and each lock section is a step, and
    sessions, syncs and other pruners may do anything between two steps.  Of the file times only
    those [idle_for] reads are kept; what other programs write, with its times, comes from
    outside.  [WorkspaceManager] shows itself by the keys of its map.  The free share of the
    file system is a parameter, read where the code reads it. *)

From Stdlib Require Import Strings.Byte.
From stdpp Require Import gmap.
From S2P Require Import Prelude RustStr F64 Fs Journal NodeDisk GatewaySync SyncCorrect Tasks.

(** ** The state *)

Record World := MkWorld {
  w_node : Node;
  w_times : path_map Z;     (** modification times, in nanoseconds since the epoch *)
  w_users : path_map Z;     (** [USERS] *)
  w_guards : list path;     (** the [WorkspaceUse] values alive *)
  w_loaded : list path;     (** the keys of the workspace manager, loading or ready *)
  w_clock : Z;              (** [SystemTime::now()], in nanoseconds since the epoch *)
}.

Definition fs_of (w : World) : disk := node_fs (w_node w).
Definition set_node (n : Node) (w : World) : World :=
  MkWorld n (w_times w) (w_users w) (w_guards w) (w_loaded w) (w_clock w).
Definition set_times (times : path_map Z) (w : World) : World :=
  MkWorld (w_node w) times (w_users w) (w_guards w) (w_loaded w) (w_clock w).
Definition set_users (users : path_map Z) (guards : list path) (w : World) : World :=
  MkWorld (w_node w) (w_times w) users guards (w_loaded w) (w_clock w).

Definition on_node {X : Type} (m : IO X) (w : World) : result X unit * World :=
  let '(r, n) := m (w_node w) in (r, set_node n w).

Definition is_ok {X : Type} (r : result X unit) : bool := match r with Ok _ => true | Err _ => false end.

(** ** Calls *)

(** [std::fs::read_dir]: the names with what each is. *)
Definition fs_read_dir (d : path) : IO (list (bytes * bool)) := fun n =>
  let n' := settle n (node_fs n) (executables n) in
  match hd NoFault (node_faults n) with
  | Fails _ => (Err tt, n')
  | NoFault | Crosses =>
      if is_dir_at (node_fs n) d
      then (Ok (map (fun c => (c, is_dir_at (node_fs n) (d ++ [c]))) (entries (node_fs n) d)), n')
      else (Err tt, n')
  end.

(** [std::fs::rename] of a directory, with the modes of what it holds. *)
Definition fs_rename_dir (from to : path) : IO unit :=
  syscall (fun fs => rename_at fs from to) no_leftover
    (fun _ ex => set_map (swap_paths from to) (filter (fun q => path_starts_with q to = false) ex)).

Definition succeeds (m : IO unit) : Task World bool :=
  act (fun w => let '(r, w') := on_node m w in (is_ok r, w')).

(** [std::fs::remove_dir_all]: the entries of each directory, then the directory; it stops at
    the first call that fails and leaves the rest. *)
Fixpoint remove_tree (fuel : nat) (p : path) : Task World bool :=
  match fuel with
  | O => Done false
  | S fuel' =>
      r ← act (on_node (fs_read_dir p));
      match r with
      | Err _ => Done false
      | Ok names =>
          ok ← task_fold (fun ok (e : bytes * bool) =>
                 if ok : bool then
                   if e.2 then remove_tree fuel' (p ++ [e.1]) else succeeds (fs_unlink (p ++ [e.1]))
                 else Done false) true names;
          if ok : bool then succeeds (fs_rmdir p) else Done false
      end
  end.
Definition remove_dir_all (p : path) : Task World bool :=
  fuel ← look (fun w => S (depth (fs_of w))); remove_tree fuel p.

(** ** Uses *)

Definition TOMBSTONE_PREFIX : bytes := B ".prod-code-pruning-".

(** [touch_last_used]: a write that changed the file, whole or in part, leaves the time of it. *)
Definition touch (p : path) (w : World) : World :=
  let marker := p ++ [LAST_USED_MARKER] in
  let secs := Z.max 0 (w_clock w / 1000000000) in
  let '(r, n) := fs_write_file marker (show secs) (w_node w) in
  let w' := set_node n w in
  if is_ok r || negb (bool_decide (node_fs n = fs_of w)) then set_times (<[marker := w_clock w]> (w_times w)) w'
  else w'.

(** [touch_last_used_at]: [File::options().write(true).open] and [set_modified]. *)
Definition touch_last_used_at (p : path) (ts : Z) (w : World) : World :=
  let marker := p ++ [LAST_USED_MARKER] in
  let '(r, n) := fs_write_file marker (show ts) (w_node w) in
  let w' := set_node n w in
  let w' := if is_ok r || negb (bool_decide (node_fs n = fs_of w))
            then set_times (<[marker := w_clock w]> (w_times w)) w' else w' in
  let '(r, w'') := on_node (fs_read marker) w' in
  if is_ok r then set_times (<[marker := ts * 1000000000]> (w_times w'')) w'' else w''.

(** [WorkspaceUse::enter]. *)
Definition enter (p : path) (w : World) : World :=
  touch p (set_users (<[p := default 0 (w_users w !! p) + 1]> (w_users w)) (p :: w_guards w) w).

Fixpoint remove_guard (p : path) (l : list path) : option (list path) :=
  match l with
  | [] => None
  | q :: l' => if decide (q = p) then Some l' else cons q <$> remove_guard p l'
  end.

(** Dropping a [WorkspaceUse]. *)
Definition leave (p : path) (w : World) : option World :=
  guards ← remove_guard p (w_guards w);
  Some (set_users (match w_users w !! p with
                   | Some count => if count - 1 =? 0 then delete p (w_users w) else <[p := count - 1]> (w_users w)
                   | None => w_users w
                   end) guards w).

Definition in_use_under (p : path) (w : World) : bool :=
  existsb (fun e => path_starts_with e.1 p) (map_to_list (w_users w)).

(** [claim_for_removal], under the lock of the uses. *)
Definition claim_for_removal (p : path) (still_idle : World -> bool) (w : World) : option path * World :=
  if in_use_under p w || negb (still_idle w) then (None, w)
  else match file_name p with
       | None => (None, w)
       | Some name =>
           let nanos := Z.max 0 (w_clock w) in
           let tombstone := with_file_name p (TOMBSTONE_PREFIX ++ utf8_lossy name ++ [x2d] ++ show nanos) in
           match on_node (fs_rename_dir p tombstone) w with
           | (Ok _, w') => (Some tombstone, set_times (kmap (swap_paths p tombstone) (w_times w')) w')
           | (Err _, w') => (None, w')
           end
       end.

Definition remove_leftover_tombstones (storage_root : path) : Task World unit :=
  r ← act (on_node (fs_read_dir storage_root));
  match r with
  | Err _ => Done tt
  | Ok names =>
      task_fold (fun _ (e : bytes * bool) =>
        if starts_with TOMBSTONE_PREFIX (utf8_lossy e.1) && e.2
        then _ ← remove_dir_all (storage_root ++ [e.1]); Done tt
        else Done tt) tt names
  end.

(** ** The config records of a copy *)

Definition workspace_metadata_path (workspace_root : path) : option path :=
  dir ← parent workspace_root;
  name ← file_name workspace_root;
  Some (dir ++ [METADATA_DIR; name]).

Definition remove_workspace (workspace_root : path) : Task World unit :=
  match workspace_metadata_path workspace_root with
  | Some p => _ ← remove_dir_all p; Done tt
  | None => Done tt
  end.

Definition is_dir_now (p : path) : Task World bool := look (fun w => is_dir_at (fs_of w) p).

Definition prune_orphans (storage_root : path) : Task World unit :=
  let metadata_root := storage_root ++ [METADATA_DIR] in
  r ← act (on_node (fs_read_dir metadata_root));
  match r with
  | Err _ => Done tt
  | Ok names =>
      task_fold (fun _ (e : bytes * bool) =>
        d ← is_dir_now (storage_root ++ [e.1]);
        if d : bool then Done tt else _ ← remove_dir_all (metadata_root ++ [e.1]); Done tt) tt names
  end.

(** ** The pruners *)

Definition is_loaded_under (p : path) (w : World) : bool := existsb (fun k => path_starts_with k p) (w_loaded w).
Definition is_loaded (p : path) (w : World) : bool := bool_decide (p ∈ w_loaded w).

Definition in_use (p : path) : Task World bool :=
  u ← look (in_use_under p); if u : bool then Done true else look (is_loaded_under p).

(** [metadata(p).and_then(modified)]. *)
Definition modified (w : World) (p : path) : option Z := if exists_at (fs_of w) p then w_times w !! p else None.

Definition idle_for (p : path) (now : Z) (w : World) : Z :=
  let time := match modified w (p ++ [LAST_USED_MARKER]) with Some t => Some t | None => modified w p end in
  match time with Some t => if t <=? now then now - t else 0 | None => 0 end.

(** Takes the copy if it is still idle, and deletes it. *)
Definition remove_idle_copy (p : path) (min_idle : Z) : Task World bool :=
  tombstone ← act (claim_for_removal p (fun w => min_idle <=? idle_for p (w_clock w) w));
  match tombstone with Some t => remove_dir_all t | None => Done false end.

Definition is_worktree_name (name : bytes) : bool := negb (starts_with (B ".") name) && contains (B "--wt-") name.

(** One entry of the storage root. *)
Definition prune_worktree_entry (storage_root : path) (max_age now : Z) (removed : list path) (e : bytes * bool)
    : Task World (list path) :=
  let p := storage_root ++ [e.1] in
  d ← is_dir_now p;
  if negb d || negb (is_worktree_name (utf8_lossy e.1)) then Done removed else
  u ← in_use p;
  if u : bool then Done removed else
  idle ← look (idle_for p now);
  if idle <? max_age then Done removed else
  ok ← remove_idle_copy p max_age;
  if ok : bool then remove_workspace p ;; Done (removed ++ [p]) else Done removed.

Definition prune_stale_worktree_dirs (storage_root : path) (max_age : Z) : Task World (list path) :=
  remove_leftover_tombstones storage_root ;;
  r ← act (on_node (fs_read_dir storage_root));
  match r with
  | Err _ => Done []
  | Ok names =>
      now ← look w_clock;
      task_fold (prune_worktree_entry storage_root max_age now) [] names
  end.

(** Whether a worktree of the base repository [name] is loaded or was used lately. *)
Fixpoint has_active_worktree (storage_root : path) (wt_prefix : bytes) (worktree_max_age now : Z)
    (others : list (bytes * bool)) : Task World bool :=
  match others with
  | [] => Done false
  | e :: others' =>
      let other := storage_root ++ [e.1] in
      let next := has_active_worktree storage_root wt_prefix worktree_max_age now others' in
      if negb (utf8_valid e.1) then next else
      d ← is_dir_now other;
      if d && starts_with wt_prefix e.1 then
        l ← look (is_loaded other);
        if l : bool then Done true else
        if worktree_max_age =? 0 then Done true else
        idle ← look (idle_for other now);
        if idle <? worktree_max_age then Done true else next
      else next
  end.

Definition prune_stale_main_workspace_dirs (storage_root : path) (max_age worktree_max_age : Z)
    : Task World (list path) :=
  r ← act (on_node (fs_read_dir storage_root));
  match r with
  | Err _ => Done []
  | Ok names =>
      now ← look w_clock;
      prune_orphans storage_root ;;
      task_fold (fun removed (e : bytes * bool) =>
        let p := storage_root ++ [e.1] in
        d ← is_dir_now p;
        if negb d || negb (utf8_valid e.1) then Done removed else
        if starts_with (B ".") e.1 || bool_decide (e.1 = B "lost+found") || contains (B "--wt-") e.1
        then Done removed else
        u ← in_use p;
        if u : bool then Done removed else
        idle ← look (idle_for p now);
        if idle <? max_age then Done removed else
        active ← has_active_worktree storage_root (e.1 ++ B "--wt-") worktree_max_age now names;
        if active : bool then Done removed else
        ok ← remove_idle_copy p max_age;
        if ok : bool then remove_workspace p ;; Done (removed ++ [p]) else Done removed) [] names
  end.

(** [SPACE_PRUNE_MIN_IDLE]: an hour. *)
Definition SPACE_PRUNE_MIN_IDLE : Z := 3600 * 1000000000.

Definition longer_idle (a b : Z * path) : bool := b.1 <=? a.1.

Section space.
Context (free : path -> World -> option f64).

Definition enough (min_free share : f64) : bool := fle min_free share.

Definition space_candidates (storage_root : path) (now : Z) (names : list (bytes * bool))
    : Task World (list (Z * path)) :=
  task_fold (fun found (e : bytes * bool) =>
    let p := storage_root ++ [e.1] in
    d ← is_dir_now p;
    if negb d || negb (is_worktree_name (utf8_lossy e.1)) then Done found else
    u ← in_use p;
    if u : bool then Done found else
    idle ← look (idle_for p now);
    if SPACE_PRUNE_MIN_IDLE <=? idle then Done (found ++ [(idle, p)]) else Done found) [] names.

Definition space_removals (storage_root : path) (min_free share : f64) (candidates : list (Z * path))
    : Task World (f64 * list path) :=
  task_fold (fun (st : f64 * list path) (c : Z * path) =>
    if enough min_free st.1 then Done st else
    u ← in_use c.2;
    if u : bool then Done st else
    ok ← remove_idle_copy c.2 SPACE_PRUNE_MIN_IDLE;
    if ok : bool then
      after ← look (free storage_root);
      Done (default st.1 after, st.2 ++ [c.2])
    else Done st) (share, []) candidates.

Definition prune_worktree_dirs_for_space (storage_root : path) (min_free : f64) : Task World (list path) :=
  remove_leftover_tombstones storage_root ;;
  share ← look (free storage_root);
  match share with
  | None => Done []
  | Some share =>
      if enough min_free share then Done [] else
      r ← act (on_node (fs_read_dir storage_root));
      match r with
      | Err _ => Done []
      | Ok names =>
          now ← look w_clock;
          candidates ← space_candidates storage_root now names;
          st ← space_removals storage_root min_free share (sort_by longer_idle candidates);
          Done st.2
      end
  end.
End space.

(** ** What happens beside the pruners *)

Inductive Happening :=
| Entered (client_root : bytes) (base : option bytes)  (** a session or a command starts *)
| Left (p : path)                                      (** one ends *)
| Keys (loaded : list path)                            (** engines are loaded and unloaded *)
| Disturbed (n : Node) (times : path_map Z)            (** others write, and calls will fail *)
| Clock (now : Z).

Definition happens (storage_root : path) (e : Happening) (w : World) : option World :=
  match e with
  | Entered client_root base => Some (enter (server_workspace_path storage_root client_root base) w)
  | Left p => leave p w
  | Keys loaded => Some (MkWorld (w_node w) (w_times w) (w_users w) (w_guards w) loaded (w_clock w))
  | Disturbed n times => Some (MkWorld n times (w_users w) (w_guards w) (w_loaded w) (w_clock w))
  | Clock now => Some (MkWorld (w_node w) (w_times w) (w_users w) (w_guards w) (w_loaded w) now)
  end.

(** ** Copies in use *)

(** Nothing at or below [p] differs: contents, modes and times. *)
Definition spared (p : path) (w w' : World) : Prop :=
  forall q, path_starts_with q p = true ->
    fs_of w' !! q = fs_of w !! q /\ (q ∈ executables (w_node w') <-> q ∈ executables (w_node w))
    /\ w_times w' !! q = w_times w !! q.

(** The copy of some client. *)
Definition copy_of (storage_root p : path) : Prop := exists c, p = storage_root ++ [c] /\ copy_name c.

(** A place of the storage root that no copy can be in. *)
Definition hidden (storage_root p : path) : Prop := exists c r, p = storage_root ++ (x2e :: c) :: r.

(** What a step of a pruner guarantees. *)
Definition careful (storage_root : path) (w w' : World) : Prop :=
  w_users w' = w_users w /\ w_guards w' = w_guards w
  /\ forall p, copy_of storage_root p -> is_Some (w_users w !! p) -> spared p w w'.

Lemma spared_refl p w : spared p w w.
Proof. done. Qed.
Lemma spared_trans p w1 w2 w3 : spared p w1 w2 -> spared p w2 w3 -> spared p w1 w3.
Proof.
  intros H1 H2 q Hq. destruct (H1 q Hq) as (? & ? & ?), (H2 q Hq) as (? & ? & ?).
  split_and!; [congruence|tauto|congruence].
Qed.
Lemma careful_refl root w : careful root w w.
Proof. done. Qed.
#[local] Hint Resolve spared_refl careful_refl : core.

Lemma hidden_below root p c : hidden root p -> hidden root (p ++ [c]).
Proof. intros (n & r & ->). exists n, (r ++ [c]). by rewrite <- app_assoc. Qed.

Lemma copy_apart root p h q :
  copy_of root p -> hidden root h -> path_starts_with q p = true -> path_starts_with q h = false.
Proof.
  intros (c & -> & _ & b & r & -> & Hb & _) (c' & r' & ->) (s & ->)%path_starts_with_spec.
  apply path_starts_with_false. intros s'. rewrite <- !app_assoc. intros E%app_inv_head. cbn in E. congruence.
Qed.

Lemma copies_apart root p c q :
  copy_of root p -> p <> root ++ [c] -> path_starts_with q p = true -> path_starts_with q (root ++ [c]) = false.
Proof.
  intros (d & -> & _) Hne (s & ->)%path_starts_with_spec. apply path_starts_with_false. intros s'.
  rewrite <- !app_assoc. intros E%app_inv_head. cbn in E. congruence.
Qed.

(** A call that changes nothing but what is in [S]. *)
Definition within {X : Type} (S : path -> Prop) (m : IO X) : Prop := forall n q, ~ S q ->
  node_fs (m n).2 !! q = node_fs n !! q /\ (q ∈ executables (m n).2 <-> q ∈ executables n).

Lemma within_syscall S works bits :
  (forall fs fs' q, works fs = Some fs' -> ~ S q -> fs' !! q = fs !! q) ->
  (forall fs ex q, ~ S q -> q ∈ bits fs ex <-> q ∈ ex) ->
  within S (syscall works no_leftover bits).
Proof.
  intros Hw Hb n q Hq. unfold syscall. destruct (hd NoFault (node_faults n)) as [|[b|]|]; cbn; try done.
  - destruct (works (node_fs n)) eqn:E; cbn; [|done]. split; [by eapply Hw|by apply Hb].
  - destruct (works (node_fs n)) eqn:E; cbn; [|done]. split; [by eapply Hw|by apply Hb].
Qed.

Lemma within_unlink p : within (eq p) (fs_unlink p).
Proof.
  apply within_syscall.
  - intros fs fs' q. unfold remove_file_at. destruct (fs !! p) as [[]|]; try done.
    intros [= <-] Hne. by apply lookup_delete_ne.
  - intros fs ex q Hne. rewrite elem_of_difference, elem_of_singleton. naive_solver.
Qed.

Lemma within_rmdir p : within (eq p) (fs_rmdir p).
Proof.
  apply within_syscall; [|done]. intros fs fs' q. unfold remove_dir_at.
  destruct (fs !! p) as [[]|], (entries fs p), p; try done. intros [= <-] Hne. by apply lookup_delete_ne.
Qed.

Lemma within_read_dir p : within (fun _ => False) (fs_read_dir p).
Proof. intros n q _. unfold fs_read_dir. destruct (hd NoFault (node_faults n)), (is_dir_at (node_fs n) p); done. Qed.

Lemma rename_at_elsewhere fs from to fs' q :
  rename_at fs from to = Some fs' -> path_starts_with q from = false -> path_starts_with q to = false ->
  fs' !! q = fs !! q.
Proof.
  unfold rename_at. intros H Hf Ht.
  destruct (_ || _); [done|]. destruct (decide (from = to)); [by injection H as <-|].
  destruct (comparable from to) eqn:Ec; [done|].
  assert (Hq : swap_disk from to (delete to fs) !! q = fs !! q).
  { rewrite kmap_swap_lookup by done. rewrite swap_paths_other by done. apply lookup_delete_ne.
    intros ->. by rewrite path_starts_with_refl in Ht. }
  destruct (fs !! from) as [[]|], (fs !! to) as [[]|]; try (injection H as <-; exact Hq); try done.
  destruct (entries fs to); [|done]. by injection H as <-.
Qed.

Lemma within_rename from to : comparable from to = false ->
  within (fun q => path_starts_with q from = true \/ path_starts_with q to = true) (fs_rename_dir from to).
Proof.
  intros Hc. apply within_syscall.
  - intros fs fs' q H Hq. eapply rename_at_elsewhere; [done|..]; apply not_true_is_false; tauto.
  - intros fs ex q Hq. rewrite elem_of_map. setoid_rewrite elem_of_filter.
    assert (Hf : path_starts_with q from = false) by (apply not_true_is_false; tauto).
    assert (Ht : path_starts_with q to = false) by (apply not_true_is_false; tauto).
    split.
    + intros (q' & E & H & Hin). rewrite <- (swap_paths_involutive _ _ Hc q'), <- E, swap_paths_other in Hin by done. done.
    + intros Hin. exists q. by rewrite swap_paths_other.
Qed.

Lemma spared_on_node {X : Type} (S : path -> Prop) (m : IO X) p w :
  within S m -> (forall q, path_starts_with q p = true -> ~ S q) -> spared p w (on_node m w).2.
Proof.
  intros Hm Hp q Hq. unfold on_node. destruct (Hm (w_node w) q (Hp q Hq)) as [H1 H2].
  by destruct (m (w_node w)) as [r n].
Qed.

Lemma careful_on_node {X : Type} (S : path -> Prop) root (m : IO X) w :
  within S m -> (forall p q, copy_of root p -> path_starts_with q p = true -> ~ S q) ->
  careful root w (on_node m w).2.
Proof.
  intros Hm Hp. split_and!; [unfold on_node; by destruct (m (w_node w))..|].
  intros p Hc _. eapply spared_on_node; eauto.
Qed.

Section removal.
Context (root : path).

Lemma careful_read_dir d w : careful root w (on_node (fs_read_dir d) w).2.
Proof. eapply careful_on_node; [apply within_read_dir|tauto]. Qed.

Lemma careful_at p m w : hidden root p -> within (eq p) m -> careful root w (on_node (X := unit) m w).2.
Proof.
  intros Hh Hm. eapply careful_on_node; [done|]. intros p' q Hc Hq <-.
  pose proof (copy_apart _ _ _ _ Hc Hh Hq) as H. by rewrite path_starts_with_refl in H.
Qed.

Lemma always_succeeds p m : hidden root p -> within (eq p) m -> always (careful root) (succeeds m) (fun _ => True).
Proof.
  intros Hh Hm. apply always_act. intros w. pose proof (careful_at p m w Hh Hm).
  by destruct (on_node m w).
Qed.

(** Deleting what is hidden touches no copy. *)
Lemma always_remove_tree fuel p : hidden root p -> always (careful root) (remove_tree fuel p) (fun _ => True).
Proof.
  revert p. induction fuel as [|fuel IH]; intros p Hh; [done|]. cbn [remove_tree].
  eapply always_bind with (Q := fun _ => True); [apply always_act; intros; split; [apply careful_read_dir|done]|].
  intros [names|] _; [|done]. eapply always_bind with (Q := fun _ => True).
  - apply always_fold; [done|]. intros ok e _ _. destruct ok; [|done]. pose proof (hidden_below _ _ e.1 Hh).
    destruct e.2; [by apply IH|]. eapply always_succeeds; [done|apply within_unlink].
  - intros [] _; [|done]. by apply (always_succeeds p), within_rmdir.
Qed.

Lemma always_remove_dir_all p : hidden root p -> always (careful root) (remove_dir_all p) (fun _ => True).
Proof.
  intros Hh. eapply always_bind with (Q := fun _ => True); [by apply always_look|].
  intros fuel _. by apply always_remove_tree.
Qed.
End removal.

Lemma lossy_head b s : utf8_lossy (b :: s) = b :: tail (utf8_lossy (b :: s)) \/ head (utf8_lossy (b :: s)) = Some xef.
Proof.
  unfold utf8_lossy. cbn [length utf8_lossy_fuel]. destruct (utf8_step (b :: s)) as [n|n] eqn:E; [left|by right].
  destruct n as [|n]; [|done]. exfalso. revert E. unfold utf8_step.
  repeat case_match; congruence.
Qed.

(** A hidden name shows its dot, and no other name shows one. *)
Lemma lossy_dot s r : utf8_lossy s = x2e :: r -> exists s', s = x2e :: s'.
Proof.
  destruct s as [|b s]; [done|]. intros E. exists s.
  destruct (lossy_head b s) as [H|H]; rewrite E in H; cbn in H; congruence.
Qed.
Lemma shown_name c : starts_with (B ".") (utf8_lossy c) = false -> head c <> Some x2e.
Proof.
  intros H. destruct c as [|b c]; [done|]. intros [= ->]. change (x2e :: c) with ([x2e] ++ c) in H.
  rewrite utf8_lossy_ascii_app in H by (by repeat constructor). by rewrite starts_with_app in H.
Qed.

Section pruners.
Context (root : path).

Lemma file_name_snoc c : file_name (root ++ [c]) = if decide (c = B "..") then None else Some c.
Proof. unfold file_name. by rewrite last_snoc. Qed.
Lemma with_file_name_snoc c d : c <> B ".." -> with_file_name (root ++ [c]) d = root ++ [d].
Proof.
  intros Hc. unfold with_file_name. rewrite file_name_snoc. destruct (decide _); [done|].
  by rewrite removelast_last.
Qed.

Lemma siblings_apart (a b : bytes) : a <> b -> comparable (root ++ [a]) (root ++ [b]) = false.
Proof.
  intros Hab. unfold comparable. apply orb_false_iff. split; apply path_starts_with_false; intros r;
    rewrite <- app_assoc; intros E%app_inv_head; cbn in E; congruence.
Qed.

(** Where a claimed copy goes. *)
Definition tombstone_of (c : bytes) (w : World) : path :=
  root ++ [TOMBSTONE_PREFIX ++ utf8_lossy c ++ [x2d] ++ show (Z.max 0 (w_clock w))].
Lemma tombstone_hidden c w : hidden root (tombstone_of c w).
Proof. by eexists _, []. Qed.
Lemma tombstone_apart c w : head c <> Some x2e -> comparable (root ++ [c]) (tombstone_of c w) = false.
Proof. intros Hc. apply siblings_apart. intros E. by rewrite E in Hc. Qed.

Lemma in_use_under_false p w q : in_use_under p w = false -> is_Some (w_users w !! q) -> path_starts_with q p = false.
Proof.
  unfold in_use_under. intros H [n Hn]. apply not_true_is_false. intros Hq.
  assert (existsb (fun e => path_starts_with e.1 p) (map_to_list (w_users w)) = true) as H'; [|congruence].
  apply existsb_exists. exists (q, n). split; [|done]. apply list_elem_of_In. by apply elem_of_map_to_list.
Qed.

Lemma times_elsewhere (times : path_map Z) a b q : comparable a b = false ->
  path_starts_with q a = false -> path_starts_with q b = false ->
  (kmap (swap_paths a b) times : path_map Z) !! q = times !! q.
Proof.
  intros Hc Ha Hb. rewrite <- (swap_paths_other _ _ _ Ha Hb) at 1.
  apply (lookup_kmap (M2 := gmap path)). by apply swap_paths_inj.
Qed.

(** A claim leaves a copy in use alone, and hides what it takes. *)
Lemma claim_careful c idle w : head c <> Some x2e ->
  careful root w (claim_for_removal (root ++ [c]) idle w).2
  /\ forall t, (claim_for_removal (root ++ [c]) idle w).1 = Some t -> hidden root t.
Proof.
  intros Hc. assert (Hsame : careful root w w /\ forall t, None = Some t -> hidden root t) by (split; [apply careful_refl|done]).
  unfold claim_for_removal. destruct (in_use_under _ w) eqn:Eu; [exact Hsame|].
  destruct (idle w); [|exact Hsame]. cbn [orb negb]. rewrite file_name_snoc.
  destruct (decide (c = B "..")); [exact Hsame|].
  rewrite with_file_name_snoc by done. fold (tombstone_of c w).
  pose proof (tombstone_hidden c w) as Hh. pose proof (tombstone_apart c w Hc) as Ha.
  set (t := tombstone_of c w) in *.
  assert (Hcopy : forall p q, copy_of root p -> is_Some (w_users w !! p) -> path_starts_with q p = true ->
                    path_starts_with q (root ++ [c]) = false /\ path_starts_with q t = false).
  { intros p q Hp Hu Hq. split; [|by eapply copy_apart]. eapply copies_apart; [done| |done].
    intros ->. pose proof (in_use_under_false _ _ _ Eu Hu) as H. by rewrite path_starts_with_refl in H. }
  assert (Hren : forall p, copy_of root p -> is_Some (w_users w !! p) -> spared p w (on_node (fs_rename_dir (root ++ [c]) t) w).2).
  { intros p Hp Hu. eapply spared_on_node; [by apply within_rename|]. intros q Hq.
    destruct (Hcopy p q Hp Hu Hq) as [-> ->]. by intros []. }
  assert (Hrest : w_users (on_node (fs_rename_dir (root ++ [c]) t) w).2 = w_users w
                  /\ w_guards (on_node (fs_rename_dir (root ++ [c]) t) w).2 = w_guards w)
    by (unfold on_node; by destruct (fs_rename_dir _ _ _)).
  destruct (on_node (fs_rename_dir (root ++ [c]) t) w) as [[u|e] w']; cbn in *;
    destruct Hrest as [Hu' Hg]; [|by split; [split|]]. split; [|by intros ? [= <-]]. split_and!; [done..|].
  intros p Hp Hu q Hq. destruct (Hren p Hp Hu q Hq) as (Hfs & Hex & Ht). split_and!; [done..|].
  destruct (Hcopy p q Hp Hu Hq). cbn. by rewrite times_elsewhere.
Qed.

Lemma always_remove_idle_copy c age : head c <> Some x2e ->
  always (careful root) (remove_idle_copy (root ++ [c]) age) (fun _ => True).
Proof.
  intros Hc. eapply always_bind with (Q := fun t => forall p, t = Some p -> hidden root p).
  - apply always_act. intros w. by apply claim_careful.
  - intros [t|] Ht; [|done]. apply always_remove_dir_all. by apply Ht.
Qed.

Lemma always_in_use p : always (careful root) (in_use p) (fun _ => True).
Proof.
  eapply always_bind with (Q := fun _ => True); [by apply always_look|]. intros [] _; [done|by apply always_look].
Qed.

Lemma metadata_snoc c : c <> B ".." -> workspace_metadata_path (root ++ [c]) = Some (root ++ [METADATA_DIR; c]).
Proof.
  intros Hc. unfold workspace_metadata_path. rewrite file_name_snoc. destruct (decide _); [done|].
  by destruct (path_snoc (root ++ [c])) as (d & c' & [-> ->]%app_inj_tail & ->); [destruct root|].
Qed.

Lemma always_remove_workspace c : always (careful root) (remove_workspace (root ++ [c])) (fun _ => True).
Proof.
  unfold remove_workspace. destruct (decide (c = B "..")) as [->|Hc].
  - unfold workspace_metadata_path. rewrite file_name_snoc. by destruct (parent _).
  - rewrite metadata_snoc by done. eapply always_bind with (Q := fun _ => True); [|done].
    apply always_remove_dir_all. by eexists _, [c].
Qed.
End pruners.

(** The bodies of the loops are chains of steps: take them one at a time. *)
Ltac chain := eapply always_bind with (Q := fun _ => True).
Ltac seen := apply always_look; [apply careful_refl|done].
Ltac read := apply always_act; intros; split; [apply careful_read_dir|done].

Section pruners_careful.
Context (root : path).

Lemma always_leftovers : always (careful root) (remove_leftover_tombstones root) (fun _ => True).
Proof.
  chain; [read|]. intros [names|] _; [|done]. apply always_fold; [done|]. intros _ [c d] _ _. cbn [fst snd].
  destruct (starts_with _ _) eqn:E; [|done]. destruct d; [|done]. cbn [andb]. chain; [|done].
  apply always_remove_dir_all. apply starts_with_spec in E as [r E]. cbn in E.
  apply lossy_dot in E as [s' ->]. by eexists _, [].
Qed.

Lemma always_orphans : always (careful root) (prune_orphans root) (fun _ => True).
Proof.
  chain; [read|]. intros [names|] _; [|done]. apply always_fold; [done|]. intros _ e _ _. chain; [seen|].
  intros [] _; [done|]. chain; [|done]. apply always_remove_dir_all. eexists _, [e.1]. by rewrite <- app_assoc.
Qed.

(** The end of each loop: the copy is taken away, with its records. *)
Lemma always_taken c age (removed : list path) : head c <> Some x2e ->
  always (careful root)
    (ok ← remove_idle_copy (root ++ [c]) age;
     if ok : bool then remove_workspace (root ++ [c]) ;; Done (removed ++ [root ++ [c]]) else Done removed)
    (fun _ => True).
Proof.
  intros Hc. chain; [by apply always_remove_idle_copy|]. intros [] _; [|done].
  chain; [apply always_remove_workspace|done].
Qed.

Lemma always_stale_worktrees age : always (careful root) (prune_stale_worktree_dirs root age) (fun _ => True).
Proof.
  chain; [apply always_leftovers|]. intros _ _. chain; [read|]. intros [names|] _; [|done].
  chain; [seen|]. intros now _. apply always_fold; [done|]. intros removed [c d] _ _. cbn [fst].
  chain; [seen|]. intros d' _. destruct (negb d' || _) eqn:E; [done|].
  apply orb_false_iff in E as [_ E]. apply negb_false_iff, andb_true_iff in E as [E _]. apply negb_true_iff in E.
  chain; [apply always_in_use|]. intros [] _; [done|]. chain; [seen|]. intros idle _.
  destruct (idle <? age); [done|]. by apply always_taken, shown_name.
Qed.

Lemma always_active_worktree prefix wt_age now others :
  always (careful root) (has_active_worktree root prefix wt_age now others) (fun _ => True).
Proof.
  induction others as [|[c d] others IH]; [done|]. cbn [has_active_worktree fst].
  destruct (negb (utf8_valid c)); [done|]. chain; [seen|]. intros d' _. destruct (d' && _); [|done].
  chain; [seen|]. intros [] _; [done|]. destruct (wt_age =? 0); [done|]. chain; [seen|].
  intros idle _. by destruct (idle <? wt_age).
Qed.

Lemma always_stale_mains age wt_age : always (careful root) (prune_stale_main_workspace_dirs root age wt_age) (fun _ => True).
Proof.
  chain; [read|]. intros [names|] _; [|done]. chain; [seen|]. intros now _. chain; [apply always_orphans|].
  intros _ _. apply always_fold; [done|]. intros removed [c d] _ _. cbn [fst].
  chain; [seen|]. intros d' _. destruct (negb d' || _); [done|].
  destruct (starts_with (B ".") c) eqn:Edot; [done|]. cbn [orb]. destruct (bool_decide _ || _); [done|].
  chain; [apply always_in_use|]. intros [] _; [done|]. chain; [seen|]. intros idle _.
  destruct (idle <? age); [done|]. chain; [apply always_active_worktree|]. intros [] _; [done|].
  apply always_taken. destruct c as [|b c]; [done|]. intros [= ->]. done.
Qed.

(** The candidates of the space pruner are visible entries of the root. *)
Definition candidate_ok (x : Z * path) : Prop := exists c, x.2 = root ++ [c] /\ head c <> Some x2e.

Lemma always_candidates now names :
  always (careful root) (space_candidates root now names) (Forall candidate_ok).
Proof.
  apply always_fold; [done|]. intros found [c d] _ Hf. cbn [fst].
  chain; [seen|]. intros d' _. destruct (negb d' || _) eqn:E; [done|].
  apply orb_false_iff in E as [_ E]. apply negb_false_iff, andb_true_iff in E as [E _]. apply negb_true_iff in E.
  chain; [apply always_in_use|]. intros [] _; [done|]. chain; [seen|]. intros idle _.
  destruct (_ <=? idle); [|done]. apply Forall_app. split; [done|]. constructor; [|done].
  exists c. split; [done|]. by apply shown_name.
Qed.

Lemma always_removals free min_free share candidates : Forall candidate_ok candidates ->
  always (careful root) (space_removals free root min_free share candidates) (fun _ => True).
Proof.
  intros Hc. apply always_fold; [done|]. intros st [i p] Hin _. cbn [snd].
  destruct (enough min_free st.1); [done|].
  rewrite Forall_forall in Hc. destruct (Hc _ Hin) as (c & E & Hdot). cbn in E. subst p.
  chain; [apply always_in_use|]. intros [] _; [done|]. chain; [by apply always_remove_idle_copy|].
  intros [] _; [|done]. chain; [seen|done].
Qed.

Lemma always_for_space free min_free : always (careful root) (prune_worktree_dirs_for_space free root min_free) (fun _ => True).
Proof.
  chain; [apply always_leftovers|]. intros _ _. chain; [seen|]. intros [share|] _; [|done].
  destruct (enough min_free share); [done|]. chain; [read|]. intros [names|] _; [|done].
  chain; [seen|]. intros now _. eapply always_bind; [apply always_candidates|]. intros candidates Hc.
  chain; [|done]. apply always_removals. by rewrite sort_by_perm.
Qed.
End pruners_careful.

(** The three pruners. *)
Inductive Pruner := StaleWorktrees (max_age : Z) | StaleMains (max_age worktree_max_age : Z)
| ForSpace (free : path -> World -> option f64) (min_free : f64).

Definition pruner_task (storage_root : path) (p : Pruner) : Task World (list path) :=
  match p with
  | StaleWorktrees max_age => prune_stale_worktree_dirs storage_root max_age
  | StaleMains max_age worktree_max_age => prune_stale_main_workspace_dirs storage_root max_age worktree_max_age
  | ForSpace free min_free => prune_worktree_dirs_for_space free storage_root min_free
  end.

Lemma pruners_steady root ps : steady (careful root) (pruner_task root <$> ps).
Proof.
  apply Forall_fmap, Forall_true. intros [];
    [apply always_stale_worktrees|apply always_stale_mains|apply always_for_space].
Qed.

(** ** The uses are counted *)

Definition uses (p : path) (guards : list path) : nat := length (filter (fun q => q = p) guards).

Definition count_of (k : nat) : option Z := match k with O => None | S _ => Some (Z.of_nat k) end.

(** [USERS] holds for every path how many uses of it are alive, and only paths in use; what is
    in use is some client's copy. *)
Record accounted (root : path) (w : World) : Prop := {
  users_counted : forall p, w_users w !! p = count_of (uses p (w_guards w));
  guards_copies : Forall (copy_of root) (w_guards w);
}.

Lemma touch_users p w : w_users (touch p w) = w_users w /\ w_guards (touch p w) = w_guards w.
Proof. unfold touch. destruct (fs_write_file _ _ _) as [r n]. by destruct (_ || _). Qed.

Lemma touch_spares p w q : q <> p ++ [LAST_USED_MARKER] ->
  fs_of (touch p w) !! q = fs_of w !! q
  /\ (q ∈ executables (w_node (touch p w)) <-> q ∈ executables (w_node w)).
Proof.
  intros Hq. unfold touch. set (m := p ++ [LAST_USED_MARKER]) in *.
  assert (H : forall b n, node_fs (fs_write_file m b n).2 !! q = node_fs n !! q
                          /\ (q ∈ executables (fs_write_file m b n).2 <-> q ∈ executables n)).
  { intros b n. unfold fs_write_file, syscall, write_at.
    assert (Hbits : q ∈ (if exists_at (node_fs n) m then executables n else executables n ∖ {[m]}) <-> q ∈ executables n).
    { destruct (exists_at _ _); [done|]. rewrite elem_of_difference, elem_of_singleton. naive_solver. }
    destruct (hd NoFault (node_faults n)) as [|[b'|]|]; cbn; try done;
      destruct (no_nul m); cbn; try done; destruct (_ && _); cbn; try done;
      (split; [by apply lookup_insert_ne|exact Hbits]). }
  specialize (H (show (Z.max 0 (w_clock w / 1000000000))) (w_node w)).
  destruct (fs_write_file _ _ _) as [r n]. by destruct (_ || _).
Qed.

Lemma remove_guard_uses p l l' : remove_guard p l = Some l' ->
  uses p l = S (uses p l') /\ (forall q, q <> p -> uses q l = uses q l') /\ forall P : path -> Prop, Forall P l -> Forall P l'.
Proof.
  unfold uses. revert l'. induction l as [|x l IH]; [done|]. intros l'. cbn [remove_guard].
  destruct (decide (x = p)) as [->|Hx].
  - intros [= <-]. rewrite !filter_cons_True by done. split_and!; [done| |by intros P [_ ?]%Forall_cons].
    intros q Hq. by rewrite filter_cons_False.
  - destruct (remove_guard p l) as [l''|] eqn:E; [|done]. intros [= <-].
    destruct (IH l'' eq_refl) as (H1 & H2 & H3). split_and!.
    + by rewrite !filter_cons_False.
    + intros q Hq. rewrite !filter_cons. destruct (decide (x = q)); cbn; [f_equal|]; by apply H2.
    + intros P [? ?]%Forall_cons. constructor; auto.
Qed.

Lemma careful_accounted root w w' : careful root w w' -> accounted root w -> accounted root w'.
Proof. intros (Hu & Hg & _) [H1 H2]. split; [intros p; by rewrite Hu, Hg|by rewrite Hg]. Qed.

Lemma enter_accounted root client base w :
  accounted root w -> accounted root (enter (server_workspace_path root client base) w).
Proof.
  intros [H1 H2]. set (p := server_workspace_path root client base). unfold enter.
  destruct (touch_users p (set_users (<[p := default 0 (w_users w !! p) + 1]> (w_users w)) (p :: w_guards w) w))
    as [Eu Eg]. split; intros; rewrite ?Eu, ?Eg; cbn [w_guards w_users set_users].
  - unfold uses at 1. rewrite filter_cons, H1. destruct (decide (p = p0)) as [<-|Hne].
    + rewrite lookup_insert_eq. unfold uses. cbn [length count_of].
      fold (uses p (w_guards w)). destruct (uses p (w_guards w)); simpl; f_equal; lia.
    + rewrite lookup_insert_ne by done. apply H1.
  - constructor; [|done]. eexists. split; [done|]. apply candidate_name_copy.
Qed.

Lemma leave_accounted root p w w' : leave p w = Some w' -> accounted root w -> accounted root w'.
Proof.
  unfold leave. destruct (remove_guard p (w_guards w)) as [l|] eqn:E; [|done]. intros [= <-] [H1 H2].
  destruct (remove_guard_uses _ _ _ E) as (Hp & Hq & Hall). split; cbn [w_users w_guards set_users]; [|by apply Hall].
  intros q. rewrite H1, Hp. cbn [count_of].
  destruct (Z.eqb_spec (Z.of_nat (S (uses p l)) - 1) 0) as [E0|E0].
  - destruct (decide (q = p)) as [->|Hne]; [|rewrite lookup_delete_ne by done; by rewrite H1, Hq].
    rewrite lookup_delete_eq. assert (uses p l = O) as -> by lia. done.
  - destruct (decide (q = p)) as [->|Hne]; [|rewrite lookup_insert_ne by done; by rewrite H1, Hq].
    rewrite lookup_insert_eq. destruct (uses p l); cbn [count_of]; [lia|]. f_equal. lia.
Qed.

Lemma happens_accounted root e w w' : happens root e w = Some w' -> accounted root w -> accounted root w'.
Proof.
  intros H Ha. destruct e; cbn in H; [|by eapply leave_accounted|injection H as <-; by destruct Ha..].
  injection H as <-. by apply enter_accounted.
Qed.

(** ** A copy in use keeps everything its users put there *)

(** How often a use of [p] ends. *)
Definition leavings (p : path) (events : list (Event Happening)) : nat :=
  length (filter (fun e => match e with Outside (Left q) => bool_decide (q = p) | _ => false end = true) events).

(** The disk as the users and the rest of the world last left it. *)
Definition last_left (n : Node) (events : list (Event Happening)) : Node :=
  foldl (fun n e => match e with Outside (Disturbed n' _) => n' | _ => n end) n events.

Definition same_below (p : path) (n n' : Node) : Prop :=
  forall q, path_starts_with q p = true -> q <> p ++ [LAST_USED_MARKER] ->
    node_fs n' !! q = node_fs n !! q /\ (q ∈ executables n' <-> q ∈ executables n).

Lemma uses_users root w p : accounted root w -> (0 < uses p (w_guards w))%nat ->
  is_Some (w_users w !! p) /\ copy_of root p.
Proof.
  intros [H1 H2] Hp. rewrite H1. split; [by destruct (uses p (w_guards w)); [lia|eexists]|].
  unfold uses in Hp. destruct (filter _ (w_guards w)) as [|x l] eqn:E; [cbn in Hp; lia|].
  assert (Hx : x ∈ filter (fun q => q = p) (w_guards w)) by (rewrite E; left).
  apply list_elem_of_filter in Hx as [-> Hx]. rewrite Forall_forall in H2. by apply H2.
Qed.

Lemma kept_by_event root p e w w' (ts ts' : list (Task World (list path))) n : accounted root w -> steady (careful root) ts ->
  (leavings p [e] < uses p (w_guards w))%nat -> same_below p n (w_node w) ->
  pool_event (happens root) e (w, ts) = Some (w', ts') ->
  accounted root w' /\ steady (careful root) ts'
  /\ (uses p (w_guards w) <= leavings p [e] + uses p (w_guards w'))%nat
  /\ same_below p (last_left n [e]) (w_node w').
Proof.
  intros Ha Hs Hl Hn Hev. destruct (uses_users root w p Ha) as [Hu Hc]; [lia|].
  destruct e as [i|e]; cbn [pool_event fst snd] in Hev.
  - destruct (turn_guarantees i (w, ts) Hs Hev) as [HG Hs']. cbn in HG. pose proof HG as (Eu & Eg & Hsp).
    split_and!; [by eapply careful_accounted|done|by rewrite Eg; cbn; lia|]. intros q Hq Hm.
    destruct (Hn q Hq Hm), (Hsp p Hc Hu q Hq) as (? & ? & _). unfold fs_of in *. unfold last_left. cbn [foldl].
    split; [congruence|tauto].
  - destruct (happens root e w) as [w1|] eqn:Eh; [|done]. injection Hev as <- <-.
    split_and!; [by eapply happens_accounted|done|..]; destruct e; cbn in Eh; try (injection Eh as <-; cbn in *; try done; lia).
    + injection Eh as <-. unfold enter. rewrite (proj2 (touch_users _ _)). cbn [w_guards set_users].
      unfold uses. rewrite filter_cons. destruct (decide _); cbn; lia.
    + unfold leave in Eh. destruct (remove_guard p0 (w_guards w)) as [l|] eqn:E; [|done]. injection Eh as <-.
      cbn [w_guards set_users]. destruct (remove_guard_uses _ _ _ E) as (Hp & Hq & _). unfold leavings. rewrite filter_cons.
      destruct (decide (p0 = p)) as [->|Hne]; [|rewrite (Hq p) by done; lia].
      rewrite bool_decide_true, decide_True by done. change (uses p (w_guards w) <= 1 + uses p l)%nat. lia.
    + injection Eh as <-. intros q Hq Hm. unfold enter. set (p' := server_workspace_path _ _ _).
      set (w0 := set_users _ _ w). assert (Hne : q <> p' ++ [LAST_USED_MARKER]).
      { intros ->. apply Hm. f_equal. destruct Hc as (c & -> & Hcn).
        unfold p', server_workspace_path in *. apply path_starts_with_spec in Hq as [r E].
        rewrite <- !app_assoc in E. apply app_inv_head in E. cbn in E. by injection E as -> _. }
      destruct (touch_spares p' w0 q Hne) as [E1 E2], (Hn q Hq Hm) as [E3 E4]. unfold fs_of in E1.
      change (w_node w0) with (w_node w) in *. unfold last_left. cbn [foldl]. split; [congruence|tauto].
    + unfold leave in Eh. destruct (remove_guard p0 (w_guards w)) as [l|] eqn:E; [|done]. by injection Eh as <-.
Qed.

Lemma uses_elem p l : (0 < uses p l)%nat -> p ∈ l.
Proof.
  unfold uses. destruct (filter _ l) as [|x l'] eqn:E; [cbn; lia|]. intros _.
  assert (Hx : x ∈ filter (fun q => q = p) l) by (rewrite E; left). by apply list_elem_of_filter in Hx as [-> Hx].
Qed.
Lemma leavings_cons p e events : leavings p (e :: events) = (leavings p [e] + leavings p events)%nat.
Proof. unfold leavings. change (e :: events) with ([e] ++ events). by rewrite filter_app, length_app. Qed.

(** C24: Whatever the pruners, the sessions and the commands do in whatever order, and whichever
    calls fail: while at least one use of a copy is held, every file and directory of it, with
    its mode, stays as it was last left by its users, up to the last-used marker.  The table of
    users counts exactly the uses that are held. *)
Theorem copy_in_use_kept (root : path) (pruners : list Pruner) (events : list (Event Happening))
    (w w' : World) (ts' : list (Task World (list path))) (p : path) :
  accounted root w ->
  (leavings p events < uses p (w_guards w))%nat ->
  run_pool (happens root) events (w, pruner_task root <$> pruners) = Some (w', ts') ->
  accounted root w' /\ p ∈ w_guards w' /\ same_below p (last_left (w_node w) events) (w_node w').
Proof.
  intros Ha Hl. assert (Hs := pruners_steady root pruners). revert Hs. generalize (pruner_task root <$> pruners) as ts.
  assert (Hn : same_below p (w_node w) (w_node w)) by done. revert Hn. generalize (w_node w) at 1 3 as n.
  revert w Ha Hl. induction events as [|e events IH]; intros w Ha Hl n Hn ts Hs Hrun.
  - injection Hrun as <- <-. split_and!; [done| |done]. by apply uses_elem.
  - cbn [run_pool] in Hrun. rewrite leavings_cons in Hl.
    destruct (pool_event (happens root) e (w, ts)) as [[w1 ts1]|] eqn:E; [|done].
    destruct (kept_by_event root p e w w1 ts ts1 n Ha Hs) as (Ha1 & Hs1 & Hu & Hn1); [lia|done..|].
    apply (IH w1 Ha1) with (n := last_left n [e]) (ts := ts1); [lia|done..].
Qed.
