(* ===== verification/PruneSpec.v ===== *)
(** * What a pruner by itself removes

    A run of [prune_stale_worktree_dirs] with nothing beside it and no failing call: the copies
    it takes away are exactly those that are idle and unused, and the rest of the disk is left
    as it is. *)

From Stdlib Require Import Strings.Byte.
From stdpp Require Import gmap.
From S2P Require Import Prelude RustStr Json Sync Fs Journal NodeDisk GatewaySync SyncCorrect Tasks Pruning.

(** ** Disks with trees taken out *)

Lemma filter_agree {A : Type} (f g : A -> bool) (l : list A) :
  (forall x, x ∈ l -> f x = g x) -> filter (fun x => f x = true) l = filter (fun x => g x = true) l.
Proof.
  induction l as [|x l IH]; intros H; [done|]. rewrite !filter_cons, (H x) by left.
  rewrite IH by (intros y Hy; apply H; by right). done.
Qed.

Definition under (D : list path) (q : path) : bool := existsb (path_starts_with q) D.

Lemma under_app D D' q : under (D ++ D') q = under D q || under D' q.
Proof. apply existsb_app. Qed.
Lemma under_spec D q : under D q = true <-> exists p, p ∈ D /\ path_starts_with q p = true.
Proof. unfold under. rewrite existsb_exists. by setoid_rewrite <- list_elem_of_In. Qed.

(** [w'] is [w] with the trees at [D] gone and no call about to fail. *)
Record pruned_to (D : list path) (w w' : World) : Prop := {
  pruned_users : w_users w' = w_users w;
  pruned_guards : w_guards w' = w_guards w;
  pruned_loaded : w_loaded w' = w_loaded w;
  pruned_clock : w_clock w' = w_clock w;
  pruned_calm : node_faults (w_node w') = [];
  pruned_wf : disk_wf (fs_of w');
  pruned_disk : forall q, fs_of w' !! q = if under D q then None else fs_of w !! q;
  pruned_times : forall q, under D q = false -> w_times w' !! q = w_times w !! q;
}.

Lemma pruned_refl w : node_faults (w_node w) = [] -> disk_wf (fs_of w) -> pruned_to [] w w.
Proof. by split. Qed.

Lemma pruned_trans D D' w w1 w2 : pruned_to D w w1 -> pruned_to D' w1 w2 -> pruned_to (D ++ D') w w2.
Proof.
  intros [] []. split; try congruence; try done.
  - intros q. rewrite under_app, pruned_disk1, pruned_disk0. by destruct (under D q), (under D' q).
  - intros q. rewrite under_app, orb_false_iff. intros [? ?]. rewrite pruned_times1; auto.
Qed.

(** Naming a tree that was not there to begin with changes nothing. *)
Lemma pruned_weaken D D' w w' : pruned_to D w w' ->
  (forall q, under D q = true -> under D' q = true) ->
  (forall q, under D' q = true -> under D q = false -> fs_of w !! q = None) -> pruned_to D' w w'.
Proof.
  intros [] Hsub Hnone. split; try done.
  - intros q. rewrite pruned_disk0. destruct (under D q) eqn:E; [by rewrite Hsub|].
    destruct (under D' q) eqn:E'; [by apply Hnone|done].
  - intros q Hq. apply pruned_times0. apply not_true_is_false. intros H%Hsub. congruence.
Qed.

(** ** Deleting a tree *)

Lemma entries_NoDup fs d : NoDup (entries fs d).
Proof.
  unfold entries. pose proof (NoDup_fst_map_to_list fs) as H. change (map ?f ?l) with (f <$> l).
  induction (map_to_list fs).*1 as [|p l IH]; [constructor|]. apply NoDup_cons in H as [Hp H]. cbn.
  destruct (strip_path d p) as [[|c [|]]|] eqn:E; try by apply IH. apply strip_path_Some in E as ->.
  constructor; [|by apply IH]. rewrite list_elem_of_omap. intros (q & Hq & Eq).
  destruct (strip_path d q) as [[|x [|]]|] eqn:Es; simplify_eq. by apply strip_path_Some in Es as ->.
Qed.

Lemma depth_bound fs q n : fs !! q = Some n -> (length q <= depth fs)%nat.
Proof.
  intros H%elem_of_map_to_list. unfold depth. induction (map_to_list fs) as [|e l IH]; [by apply not_elem_of_nil in H|].
  cbn. apply elem_of_cons in H as [<-|H]; [cbn; lia|]. specialize (IH H). lia.
Qed.

Lemma read_dir_alone d w : node_faults (w_node w) = [] -> is_dir_at (fs_of w) d = true ->
  on_node (fs_read_dir d) w
  = (Ok (map (fun c => (c, is_dir_at (fs_of w) (d ++ [c]))) (entries (fs_of w) d)),
     set_node (settle (w_node w) (fs_of w) (executables (w_node w))) w).
Proof. intros Hc Hd. unfold on_node, fs_read_dir, fs_of in *. by rewrite Hc, Hd. Qed.

Lemma settled_pruned w : node_faults (w_node w) = [] -> disk_wf (fs_of w) ->
  pruned_to [] w (set_node (settle (w_node w) (fs_of w) (executables (w_node w))) w).
Proof. intros Hc Hwf. split; try done. cbn. by rewrite Hc. Qed.

(** A call that works and takes the tree at [p] out. *)
Lemma succeeds_alone p works bits w : node_faults (w_node w) = [] -> disk_wf (fs_of w) ->
  works (fs_of w) = Some (without p (fs_of w)) -> p <> [] ->
  exists w', run_alone (succeeds (syscall works no_leftover bits)) w = Some (true, w') /\ pruned_to [p] w w'.
Proof.
  intros Hc Hwf Hw Hp. unfold succeeds. rewrite run_alone_act. unfold on_node, syscall. rewrite Hc. cbn [hd].
  unfold fs_of in *. rewrite Hw. eexists. split; [done|]. split; try done.
  - cbn. by rewrite Hc.
  - cbn. by apply without_wf.
  - intros q. cbn. rewrite without_lookup. by destruct (path_starts_with q p).
Qed.

Lemma below_entry p c c' q : path_starts_with q (p ++ [c]) = true -> path_starts_with q (p ++ [c']) = true -> c = c'.
Proof.
  intros [r ->]%path_starts_with_spec [s E]%path_starts_with_spec. rewrite <- !app_assoc in E.
  apply app_inv_head in E. cbn in E. congruence.
Qed.

Section remove_tree.
Context (fuel : nat).
Hypothesis IH : forall p w, node_faults (w_node w) = [] -> disk_wf (fs_of w) -> p <> [] ->
  is_dir_at (fs_of w) p = true -> (forall r n, fs_of w !! (p ++ r) = Some n -> (length r < fuel)%nat) ->
  exists w', run_alone (remove_tree fuel p) w = Some (true, w') /\ pruned_to [p] w w'.

Lemma remove_entries_alone p names w : node_faults (w_node w) = [] -> disk_wf (fs_of w) -> NoDup (names.*1) ->
  (forall c d, (c, d) ∈ names -> is_Some (fs_of w !! (p ++ [c])) /\ d = is_dir_at (fs_of w) (p ++ [c])) ->
  (forall r n, fs_of w !! (p ++ r) = Some n -> (length r < S fuel)%nat) ->
  exists w', run_alone (task_fold (fun ok (e : bytes * bool) =>
               if ok : bool then
                 if e.2 then remove_tree fuel (p ++ [e.1]) else succeeds (fs_unlink (p ++ [e.1]))
               else Done false) true names) w = Some (true, w')
    /\ pruned_to (map (fun e => p ++ [e.1]) names) w w'.
Proof.
  revert w. induction names as [|[c d] names IHl]; intros w Hc Hwf Hnd Hnames Hfuel.
  { exists w. split; [done|]. by apply pruned_refl. }
  destruct (Hnames c d) as [[x Hx] Hd]; [left|]. cbn [task_fold]. rewrite run_alone_bind.
  assert (exists w1, run_alone (if d then remove_tree fuel (p ++ [c]) else succeeds (fs_unlink (p ++ [c]))) w = Some (true, w1)
                     /\ pruned_to [p ++ [c]] w w1) as (w1 & E1 & P1).
  { destruct d.
    - apply IH; [done..|by destruct p|done|]. intros r n Hr. rewrite <- app_assoc in Hr. apply Hfuel in Hr. cbn in Hr. lia.
    - apply succeeds_alone; [done..| |by destruct p].
      destruct x as [b|]; [|symmetry in Hd; unfold is_dir_at in Hd; by rewrite Hx, bool_decide_true in Hd].
      unfold remove_file_at. rewrite Hx. f_equal. by eapply delete_without, file_nothing_under. }
  cbn [snd fst]. rewrite E1. cbn [mbind option_bind].
  apply NoDup_cons in Hnd as [Hnot Hnd]. cbn [fst] in Hnot.
  assert (Hsame : forall c' r, c' ∈ names.*1 -> fs_of w1 !! (p ++ c' :: r) = fs_of w !! (p ++ c' :: r)).
  { intros c' r Hc'. rewrite (pruned_disk _ _ _ P1). cbn [under existsb]. rewrite orb_false_r.
    destruct (path_starts_with _ _) eqn:E; [|done]. exfalso. apply Hnot.
    rewrite (below_entry p c c' (p ++ c' :: r)); [done..|]. apply path_starts_with_spec. exists r. by rewrite <- app_assoc. }
  destruct (IHl w1 (pruned_calm _ _ _ P1) (pruned_wf _ _ _ P1) Hnd) as (w2 & E2 & P2).
  - intros c' d' Hin. unfold is_dir_at. rewrite (Hsame c' []); [apply Hnames; by right|].
    apply list_elem_of_fmap. by exists (c', d').
  - intros r n. rewrite (pruned_disk _ _ _ P1). destruct (under _ _); [done|]. apply Hfuel.
  - exists w2. split; [done|]. by apply (pruned_trans [p ++ [c]] _ _ w1).
Qed.
End remove_tree.

Lemma remove_tree_alone fuel p w : node_faults (w_node w) = [] -> disk_wf (fs_of w) -> p <> [] ->
  is_dir_at (fs_of w) p = true -> (forall r n, fs_of w !! (p ++ r) = Some n -> (length r < fuel)%nat) ->
  exists w', run_alone (remove_tree fuel p) w = Some (true, w') /\ pruned_to [p] w w'.
Proof.
  revert p w. induction fuel as [|fuel IH]; intros p w Hc Hwf Hp Hd Hfuel.
  { apply is_dir_at_true in Hd. rewrite <- (app_nil_r p) in Hd. apply Hfuel in Hd. cbn in Hd. lia. }
  cbn [remove_tree]. rewrite run_alone_bind, run_alone_act, read_dir_alone by done. cbn [mbind option_bind].
  set (w0 := set_node _ w). pose proof (settled_pruned w Hc Hwf) as P0. fold w0 in P0.
  assert (Hfs : fs_of w0 = fs_of w) by done. rewrite <- Hfs in *.
  destruct (remove_entries_alone fuel IH p (map (fun c => (c, is_dir_at (fs_of w0) (p ++ [c]))) (entries (fs_of w0) p)) w0)
    as (w1 & E1 & P1); [apply P0|done|..|done|].
  { change (map ?f ?l) with (f <$> l). rewrite <- list_fmap_compose. rewrite (list_fmap_ext _ id) by done.
    rewrite list_fmap_id. apply entries_NoDup. }
  { intros c d Hin. change (map ?f ?l) with (f <$> l) in Hin. apply list_elem_of_fmap in Hin as (c' & [= -> ->] & Hin).
    split; [|done]. by apply elem_of_entries. }
  rewrite run_alone_bind, E1. cbn [mbind option_bind].
  assert (Hno : forall c r, fs_of w1 !! (p ++ c :: r) = None).
  { intros c r. rewrite (pruned_disk _ _ _ P1). destruct (under _ _) eqn:E; [done|].
    change (c :: r) with ([c] ++ r). rewrite app_assoc. apply wf_absent; [done|].
    destruct (fs_of w0 !! (p ++ [c])) as [n|] eqn:En; [|done]. rewrite <- not_true_iff_false in E. exfalso. apply E.
    apply under_spec. exists (p ++ [c]). split; [|apply path_starts_with_spec; exists r; by rewrite <- app_assoc].
    apply list_elem_of_In, in_map_iff. exists (c, is_dir_at (fs_of w0) (p ++ [c])). split; [done|].
    apply in_map_iff. exists c. split; [done|]. apply list_elem_of_In, elem_of_entries. eauto. }
  destruct (succeeds_alone p (fun fs => remove_dir_at fs p) keep_bits w1) as (w2 & E2 & P2);
    [apply P1|apply P1| |done|].
  { assert (Hp1 : fs_of w1 !! p = Some Dir).
    { rewrite (pruned_disk _ _ _ P1). destruct (under _ _) eqn:E; [|by apply is_dir_at_true].
      apply under_spec in E as (q & Hq & E). apply list_elem_of_In, in_map_iff in Hq as (x & <- & _).
      by rewrite (parent_not_under_self (p ++ [x.1]) p x.1) in E. }
    unfold remove_dir_at. rewrite Hp1, entries_nil by (intros; apply Hno). destruct p; [done|].
    by rewrite delete_without. }
  exists w2. split; [done|]. apply (pruned_weaken _ _ _ _ (pruned_trans _ _ _ _ _ P0 (pruned_trans _ _ _ _ _ P1 P2))).
  - intros q. rewrite !under_app. intros [?|[H|?]%orb_prop]%orb_prop; [done| |done].
    apply under_spec in H as (x & Hx & H). apply list_elem_of_In, in_map_iff in Hx as (e & <- & _).
    apply path_starts_with_spec in H as [r ->]. cbn. rewrite <- app_assoc.
    by rewrite (proj2 (path_starts_with_spec _ p)) by eauto.
  - intros q Hq. rewrite !under_app. rewrite Hq. by rewrite !orb_true_r.
Qed.

Lemma in_use_alone p w : run_alone (in_use p) w = Some (in_use_under p w || is_loaded_under p w, w).
Proof. unfold in_use. rewrite run_alone_bind, run_alone_look. cbn. by destruct (in_use_under p w). Qed.

Definition when (b : bool) (p : path) : list path := if b then [p] else [].

(** [remove_dir_all] takes a directory away whole, and says when there is none. *)
Lemma remove_dir_all_alone p w : node_faults (w_node w) = [] -> disk_wf (fs_of w) -> p <> [] ->
  exists w', run_alone (remove_dir_all p) w = Some (is_dir_at (fs_of w) p, w')
    /\ pruned_to (when (is_dir_at (fs_of w) p) p) w w'.
Proof.
  intros Hc Hwf Hp. unfold remove_dir_all. rewrite run_alone_bind, run_alone_look. cbn [mbind option_bind].
  destruct (is_dir_at (fs_of w) p) eqn:Ed.
  - apply remove_tree_alone; [done..|]. intros r n H%depth_bound. rewrite length_app in H. destruct p; cbn in *; [done|lia].
  - cbn [remove_tree]. rewrite run_alone_bind, run_alone_act. unfold on_node, fs_read_dir, fs_of in *.
    rewrite Hc, Ed. eexists. split; [done|]. split; try done. cbn. by rewrite Hc.
Qed.

(** ** Taking a copy away *)

Section copies.
Context (root : path).

(** Whether a claim finds the copy idle and unused. *)
Definition claimable (c : bytes) (age : Z) (w : World) : bool :=
  negb (in_use_under (root ++ [c]) w) && (age <=? idle_for (root ++ [c]) (w_clock w) w).

Lemma swapped_without (fs : disk) from to : disk_wf fs -> fs !! to = None -> is_Some (fs !! from) ->
  in_directory fs to = true -> comparable from to = false ->
  forall q, (if path_starts_with q to then None else swap_disk from to fs !! q)
            = if path_starts_with q from then None else fs !! q.
Proof.
  intros Hwf Hto Hfrom Hdir Hcmp q. destruct (path_starts_with q to) eqn:Et.
  - destruct (path_starts_with q from); [done|]. symmetry. apply path_starts_with_spec in Et as [r ->].
    by apply wf_absent.
  - destruct (path_starts_with q from) eqn:Ef; [|by apply renamed_other].
    apply path_starts_with_spec in Ef as [r ->]. by apply renamed_from.
Qed.

Lemma remove_idle_copy_alone c age w : node_faults (w_node w) = [] -> disk_wf (fs_of w) ->
  is_dir_at (fs_of w) root = true -> is_dir_at (fs_of w) (root ++ [c]) = true -> head c <> Some x2e ->
  fs_of w !! tombstone_of root c w = None ->
  exists w', run_alone (remove_idle_copy (root ++ [c]) age) w = Some (claimable c age w, w')
    /\ pruned_to (if claimable c age w then [root ++ [c]; tombstone_of root c w] else []) w w'.
Proof.
  intros Hc Hwf Hr Hd Hdot Hto. assert (Hdots : c <> B "..") by (by intros ->).
  unfold remove_idle_copy. rewrite run_alone_bind, run_alone_act. unfold claim_for_removal, claimable.
  destruct (in_use_under _ w); [exists w; split; [done|by apply pruned_refl]|]. cbn [negb orb andb].
  destruct (age <=? _); [|exists w; split; [done|by apply pruned_refl]]. cbn [negb].
  rewrite file_name_snoc. destruct (decide (c = B "..")); [done|]. rewrite with_file_name_snoc by done.
  fold (tombstone_of root c w). set (t := tombstone_of root c w) in *.
  pose proof (tombstone_apart root c w Hdot) as Hap. fold t in Hap.
  assert (Hfrom : is_Some (fs_of w !! (root ++ [c]))) by (by apply is_dir_at_exists).
  assert (Hin : in_directory (fs_of w) t = true) by (unfold t, tombstone_of; by rewrite in_directory_snoc).
  unfold on_node, fs_rename_dir, syscall. rewrite Hc. cbn [hd]. fold (fs_of w). rewrite (rename_at_ok (fs_of w)) by done.
  cbn [mbind option_bind]. set (w1 := set_times _ _).
  assert (Hfs1 : fs_of w1 = swap_disk (root ++ [c]) t (fs_of w)) by done.
  assert (Hwf1 : disk_wf (fs_of w1)) by (rewrite Hfs1; by apply renamed_wf).
  assert (Hdt : is_dir_at (fs_of w1) t = true).
  { apply is_dir_at_true. assert (swap_disk (root ++ [c]) t (fs_of w) !! (t ++ []) = fs_of w !! ((root ++ [c]) ++ [])) as E
      by (by apply renamed_to). rewrite !app_nil_r in E. rewrite Hfs1, E. by apply is_dir_at_true. }
  destruct (remove_dir_all_alone t w1) as (w2 & E2 & P2); [cbn; by rewrite Hc|done| |].
  { unfold t, tombstone_of. by destruct root. }
  rewrite Hdt in *. exists w2. split; [done|]. destruct P2 as [H1 H2 H3 H4 H5 H6 H7 H8]. split; try done.
  - intros q. rewrite H7, Hfs1. cbn [under existsb when]. rewrite !orb_false_r.
    rewrite (swapped_without (fs_of w)) by done. destruct (path_starts_with q (root ++ [c])); [done|]. cbn.
    destruct (path_starts_with q t) eqn:Et; [|done]. apply path_starts_with_spec in Et as [r ->]. by apply wf_absent.
  - intros q. cbn [under existsb when] in *. rewrite !orb_false_r. intros [E1 E2']%orb_false_iff.
    rewrite H8 by (by rewrite orb_false_r). cbn. by rewrite times_elsewhere.
Qed.

Lemma remove_workspace_alone c w : node_faults (w_node w) = [] -> disk_wf (fs_of w) -> c <> B ".." ->
  exists w', run_alone (remove_workspace (root ++ [c])) w = Some (tt, w')
    /\ pruned_to (when (is_dir_at (fs_of w) (root ++ [METADATA_DIR; c])) (root ++ [METADATA_DIR; c])) w w'.
Proof.
  intros Hc Hwf Hdots. unfold remove_workspace. rewrite metadata_snoc by done.
  destruct (remove_dir_all_alone (root ++ [METADATA_DIR; c]) w) as (w' & E & P); [done..|by destruct root|].
  exists w'. by rewrite run_alone_bind, E.
Qed.

(** ** What is left of earlier runs *)

Definition is_tombstone_name (c : bytes) : bool := starts_with TOMBSTONE_PREFIX (utf8_lossy c).

Definition leftovers (names : list (bytes * bool)) : list path :=
  map (fun e => root ++ [e.1]) (filter (fun e => (is_tombstone_name e.1 && e.2) = true) names).

Lemma sibling_under c c' r : c <> c' -> path_starts_with (root ++ c :: r) (root ++ [c']) = false.
Proof.
  intros Hne. apply path_starts_with_false. intros s. rewrite <- app_assoc. intros E%app_inv_head. cbn in E. congruence.
Qed.

Lemma fold_leftovers_alone names w : node_faults (w_node w) = [] -> disk_wf (fs_of w) -> NoDup (names.*1) ->
  (forall c d, (c, d) ∈ names -> d = is_dir_at (fs_of w) (root ++ [c])) ->
  exists w', run_alone (task_fold (fun _ (e : bytes * bool) =>
               if starts_with TOMBSTONE_PREFIX (utf8_lossy e.1) && e.2
               then _ ← remove_dir_all (root ++ [e.1]); Done tt
               else Done tt) tt names) w = Some (tt, w')
    /\ pruned_to (leftovers names) w w'.
Proof.
  revert w. induction names as [|[c d] names IH]; intros w Hc Hwf Hnd Hnames.
  { exists w. split; [done|]. by apply pruned_refl. }
  apply NoDup_cons in Hnd as [Hnot Hnd]. cbn [fst] in Hnot. cbn [task_fold fst snd]. rewrite run_alone_bind.
  assert (d = is_dir_at (fs_of w) (root ++ [c])) as Ed by (apply Hnames; left).
  assert (exists w1, run_alone (if starts_with TOMBSTONE_PREFIX (utf8_lossy c) && d
                                then _ ← remove_dir_all (root ++ [c]); Done tt else Done tt) w = Some (tt, w1)
                     /\ pruned_to (when (is_tombstone_name c && d) (root ++ [c])) w w1) as (w1 & E1 & P1).
  { fold (is_tombstone_name c). destruct (is_tombstone_name c); [|exists w; split; [done|by apply pruned_refl]].
    destruct d; [|exists w; split; [done|by apply pruned_refl]]. cbn [andb]. rewrite run_alone_bind.
    destruct (remove_dir_all_alone (root ++ [c]) w) as (w1 & E1 & P1); [done..|by destruct root|].
    rewrite <- Ed in *. exists w1. by rewrite E1. }
  rewrite E1. cbn [mbind option_bind].
  destruct (IH w1 (pruned_calm _ _ _ P1) (pruned_wf _ _ _ P1) Hnd) as (w2 & E2 & P2).
  { intros c' d' Hin. unfold is_dir_at. rewrite (pruned_disk _ _ _ P1).
    replace (under _ _) with false; [apply Hnames; by right|]. symmetry. unfold when. destruct (_ && _); [|done]. cbn.
    rewrite sibling_under; [done|]. intros ->. apply Hnot, list_elem_of_fmap. by exists (c, d'). }
  exists w2. split; [done|]. pose proof (pruned_trans _ _ _ _ _ P1 P2) as P.
  unfold leftovers in *. rewrite filter_cons. cbn [fst snd]. destruct (decide _) as [Ht|Ht].
  - rewrite Ht in P. exact P.
  - apply not_true_is_false in Ht. rewrite Ht in P. exact P.
Qed.

Definition dir_names (w : World) : list (bytes * bool) :=
  map (fun c => (c, is_dir_at (fs_of w) (root ++ [c]))) (entries (fs_of w) root).

Lemma dir_names_NoDup w : NoDup ((dir_names w).*1).
Proof.
  unfold dir_names. change (map ?f ?l) with (f <$> l). rewrite <- list_fmap_compose.
  rewrite (list_fmap_ext _ id) by done. rewrite list_fmap_id. apply entries_NoDup.
Qed.
Lemma elem_of_dir_names w c d :
  (c, d) ∈ dir_names w <-> is_Some (fs_of w !! (root ++ [c])) /\ d = is_dir_at (fs_of w) (root ++ [c]).
Proof.
  unfold dir_names. change (map ?f ?l) with (f <$> l). rewrite list_elem_of_fmap. setoid_rewrite elem_of_entries. split.
  - by intros (c' & [= -> ->] & H).
  - intros [H ->]. by exists c.
Qed.

Lemma leftovers_alone w : node_faults (w_node w) = [] -> disk_wf (fs_of w) -> is_dir_at (fs_of w) root = true ->
  exists w', run_alone (remove_leftover_tombstones root) w = Some (tt, w') /\ pruned_to (leftovers (dir_names w)) w w'.
Proof.
  intros Hc Hwf Hr. unfold remove_leftover_tombstones. rewrite run_alone_bind, run_alone_act, read_dir_alone by done.
  cbn [mbind option_bind]. set (w0 := set_node _ w). pose proof (settled_pruned w Hc Hwf) as P0. fold w0 in P0.
  destruct (fold_leftovers_alone (dir_names w) w0) as (w1 & E1 & P1);
    [apply P0|done|apply dir_names_NoDup|by intros c d [_ H]%elem_of_dir_names|].
  exists w1. split; [done|]. exact (pruned_trans _ _ _ _ _ P0 P1).
Qed.
End copies.

(** ** The stale worktrees *)

Section stale.
Context (root : path) (age : Z).

(** A worktree's copy that nobody uses, no engine is loaded for and that has been idle for
    [age]. *)
Definition stale_worktree (w : World) (c : bytes) : bool :=
  is_dir_at (fs_of w) (root ++ [c]) && is_worktree_name (utf8_lossy c)
  && negb (in_use_under (root ++ [c]) w) && negb (is_loaded_under (root ++ [c]) w)
  && (age <=? idle_for (root ++ [c]) (w_clock w) w).

Definition meta_of (c : bytes) : path := root ++ [METADATA_DIR; c].

(** The trees that go with it. *)
Definition taken (w : World) (c : bytes) : list path :=
  [root ++ [c]; tombstone_of root c w] ++ when (is_dir_at (fs_of w) (meta_of c)) (meta_of c).

Definition no_tombstones (w : World) : Prop := forall c, is_tombstone_name c = true -> fs_of w !! (root ++ [c]) = None.

Lemma worktree_name_visible c : is_worktree_name (utf8_lossy c) = true -> head c <> Some x2e.
Proof. intros [H _]%andb_true_iff. by apply shown_name, negb_true_iff. Qed.

Lemma tombstone_of_name c w : is_tombstone_name (TOMBSTONE_PREFIX ++ utf8_lossy c ++ [x2d] ++ show (Z.max 0 (w_clock w))) = true.
Proof.
  unfold is_tombstone_name. rewrite utf8_lossy_ascii_app by (by repeat constructor). apply starts_with_app.
Qed.

Lemma entry_alone removed c d w : node_faults (w_node w) = [] -> disk_wf (fs_of w) ->
  is_dir_at (fs_of w) root = true -> no_tombstones w ->
  exists w', run_alone (prune_worktree_entry root age (w_clock w) removed (c, d)) w
             = Some (if stale_worktree w c then removed ++ [root ++ [c]] else removed, w')
    /\ pruned_to (if stale_worktree w c then taken w c else []) w w'.
Proof.
  intros Hc Hwf Hr Hno. assert (Hsame : forall l : list path, exists w', Some (l, w) = Some (l, w') /\ pruned_to [] w w')
    by (intros l; exists w; split; [done|by apply pruned_refl]).
  unfold prune_worktree_entry, stale_worktree, is_dir_now. cbn [fst]. rewrite run_alone_bind, run_alone_look. cbn [mbind option_bind].
  destruct (is_dir_at (fs_of w) (root ++ [c])) eqn:Ed; [|apply Hsame]. cbn [negb orb andb].
  destruct (is_worktree_name (utf8_lossy c)) eqn:En; [|apply Hsame]. cbn [negb orb andb].
  pose proof (worktree_name_visible c En) as Hdot.
  rewrite run_alone_bind, in_use_alone. cbn [mbind option_bind].
  destruct (in_use_under (root ++ [c]) w) eqn:Eu; [apply Hsame|]. cbn [orb negb andb].
  destruct (is_loaded_under (root ++ [c]) w) eqn:El; [apply Hsame|]. rewrite run_alone_bind, run_alone_look.
  cbn [mbind option_bind negb andb]. rewrite Z.ltb_antisym. destruct (age <=? _) eqn:Ei; [|apply Hsame]. cbn [negb].
  rewrite run_alone_bind.
  destruct (remove_idle_copy_alone root c age w) as (w1 & E1 & P1);
    [done..|apply Hno, tombstone_of_name|]. unfold claimable in *. rewrite Eu, Ei in *. cbn [negb andb] in *.
  rewrite E1. cbn [mbind option_bind]. rewrite run_alone_bind.
  destruct (remove_workspace_alone root c w1) as (w2 & E2 & P2); [apply P1|apply P1|by intros ->|].
  rewrite E2. cbn [mbind option_bind]. exists w2. split; [done|].
  pose proof (pruned_trans _ _ _ _ _ P1 P2) as P. unfold taken. replace (is_dir_at (fs_of w) (meta_of c))
    with (is_dir_at (fs_of w1) (root ++ [METADATA_DIR; c])); [exact P|].
  unfold is_dir_at. rewrite (pruned_disk _ _ _ P1). replace (under _ _) with false; [done|]. symmetry.
  cbn [under existsb]. unfold tombstone_of. rewrite !sibling_under; [done|..]; intros E; by rewrite <- ?E in Hdot.
Qed.

Lemma taken_elsewhere w c c' r : c' <> c -> head c' <> Some x2e -> under (taken w c) (root ++ c' :: r) = false.
Proof.
  intros Hne Hdot. unfold taken, tombstone_of. rewrite under_app. cbn [under existsb].
  rewrite !sibling_under; [|intros E; by rewrite E in Hdot|done]. cbn. unfold when.
  destruct (is_dir_at _ _); [|done]. cbn. rewrite orb_false_r. apply path_starts_with_false. intros s.
  unfold meta_of. rewrite <- app_assoc. intros E%app_inv_head. cbn in E. injection E as -> _. by destruct Hdot.
Qed.
Lemma taken_meta w c c' r : c' <> c -> head c <> Some x2e -> under (taken w c) (root ++ METADATA_DIR :: c' :: r) = false.
Proof.
  intros Hne Hdot. unfold taken, tombstone_of. rewrite under_app. cbn [under existsb].
  rewrite !sibling_under; [|done|intros E; by rewrite <- E in Hdot]. cbn. unfold when.
  destruct (is_dir_at _ _); [|done]. cbn. rewrite orb_false_r. apply path_starts_with_false. intros s.
  unfold meta_of. rewrite <- app_assoc. intros E%app_inv_head. cbn in E. congruence.
Qed.

(** Another copy looks the same after one is gone. *)
Lemma stale_agree D w w' c : pruned_to D w w' -> (forall r, under D (root ++ c :: r) = false) ->
  stale_worktree w' c = stale_worktree w c.
Proof.
  intros [] Hd. unfold stale_worktree, in_use_under, is_loaded_under, idle_for, modified, is_dir_at, exists_at.
  rewrite pruned_users0, pruned_loaded0, pruned_clock0, <- !app_assoc. cbn [app].
  rewrite !pruned_disk0, !Hd, !pruned_times0 by apply Hd. done.
Qed.

Lemma worktrees_alone names removed w : node_faults (w_node w) = [] -> disk_wf (fs_of w) ->
  is_dir_at (fs_of w) root = true -> no_tombstones w -> NoDup (names.*1) ->
  let stale := filter (fun e => stale_worktree w e.1 = true) names in
  exists w', run_alone (task_fold (prune_worktree_entry root age (w_clock w)) removed names) w
             = Some (removed ++ map (fun e => root ++ [e.1]) stale, w')
    /\ pruned_to (concat (map (fun e => taken w e.1) stale)) w w'.
Proof.
  revert removed w. induction names as [|[c d] names IH]; intros removed w Hc Hwf Hr Hno Hnd.
  { exists w. cbn. rewrite app_nil_r. split; [done|]. by apply pruned_refl. }
  apply NoDup_cons in Hnd as [Hnot Hnd]. cbn [fst] in Hnot. cbn [task_fold]. rewrite run_alone_bind.
  destruct (entry_alone removed c d w) as (w1 & E1 & P1); [done..|]. rewrite E1. cbn [mbind option_bind].
  rewrite filter_cons. cbn [fst].
  assert (Hvis : stale_worktree w c = true -> head c <> Some x2e).
  { unfold stale_worktree. rewrite !andb_true_iff. intros [[[[_ H] _] _] _]. by apply worktree_name_visible. }
  set (D := if stale_worktree w c then taken w c else []) in *.
  assert (Hrest : forall c', c' ∈ names.*1 -> stale_worktree w1 c' = stale_worktree w c').
  { intros c' Hc'. destruct (is_worktree_name (utf8_lossy c')) eqn:En.
    - apply (stale_agree D); [done|]. intros r. subst D. destruct (stale_worktree w c); [|done].
      apply taken_elsewhere; [by intros ->|by apply worktree_name_visible].
    - unfold stale_worktree. by rewrite En, !andb_false_r. }
  assert (Htaken : forall c', c' ∈ names.*1 -> taken w1 c' = taken w c').
  { intros c' Hc'. unfold taken, tombstone_of. rewrite (pruned_clock _ _ _ P1). do 2 f_equal. unfold is_dir_at, meta_of.
    rewrite (pruned_disk _ _ _ P1). replace (under D _) with false; [done|]. symmetry. subst D.
    destruct (stale_worktree w c) eqn:Es; [|done]. apply taken_meta; [by intros ->|by apply Hvis]. }
  destruct (IH (if stale_worktree w c then removed ++ [root ++ [c]] else removed) w1) as (w2 & E2 & P2).
  { apply P1. }
  { apply P1. }
  { unfold is_dir_at. rewrite (pruned_disk _ _ _ P1). replace (under D root) with false; [done|]. symmetry.
    apply not_true_is_false. intros (p & Hp & H)%under_spec. subst D. destruct (stale_worktree w c); [|by apply not_elem_of_nil in Hp].
    apply path_starts_with_spec in H as [s H]. apply (f_equal length) in H.
    assert (length root < length p)%nat; [|rewrite length_app in H; lia].
    unfold taken, when, meta_of, tombstone_of in Hp. rewrite elem_of_app, !elem_of_cons in Hp.
    destruct Hp as [[->|[->|[]%not_elem_of_nil]]|Hp]; [rewrite length_app; cbn; lia..|].
    destruct (is_dir_at (fs_of w) (root ++ [METADATA_DIR; c])); [|by apply not_elem_of_nil in Hp].
    apply list_elem_of_singleton in Hp as ->. rewrite length_app. cbn. lia. }
  { intros c' Hc'. rewrite (pruned_disk _ _ _ P1), (Hno c' Hc'). by destruct (under D _). }
  { done. }
  rewrite (pruned_clock _ _ _ P1) in E2. exists w2.
  assert (Ef : filter (fun e => stale_worktree w1 e.1 = true) names = filter (fun e => stale_worktree w e.1 = true) names).
  { apply (filter_agree (fun e => stale_worktree w1 e.1)). intros e He. apply Hrest, list_elem_of_fmap. by exists e. }
  rewrite Ef in *. set (rest := filter _ names) in *.
  assert (Et : map (fun e => taken w1 e.1) rest = map (fun e => taken w e.1) rest).
  { apply map_ext_in. intros e He%list_elem_of_In. apply Htaken. apply list_elem_of_filter in He as [_ He].
    apply list_elem_of_fmap. by exists e. }
  rewrite Et in *. rewrite E2. pose proof (pruned_trans _ _ _ _ _ P1 P2) as P. subst D.
  destruct (decide _) as [Hs|Hs].
  - rewrite Hs in *. cbn. rewrite <- app_assoc. split; [done|exact P].
  - apply not_true_is_false in Hs. rewrite Hs in *. split; [done|exact P].
Qed.
End stale.

(** ** The pruner by itself *)

Section prune.
Context (root : path) (age : Z).

Lemma tombstone_name_hidden c : is_tombstone_name c = true -> head c = Some x2e.
Proof. unfold is_tombstone_name. intros [r E]%starts_with_spec. cbn in E. by apply lossy_dot in E as [s ->]. Qed.

Lemma elem_of_leftovers w p :
  p ∈ leftovers root (dir_names root w)
  <-> exists c, p = root ++ [c] /\ is_tombstone_name c = true /\ is_dir_at (fs_of w) (root ++ [c]) = true.
Proof.
  unfold leftovers. change (map ?f ?l) with (f <$> l). rewrite list_elem_of_fmap. split.
  - intros ([c d] & -> & [[Ht Hd]%andb_true_iff Hin]%list_elem_of_filter). cbn in *. subst d.
    apply elem_of_dir_names in Hin as [_ Hin]. exists c. by rewrite <- Hin.
  - intros (c & -> & Ht & Hd). exists (c, true). split; [done|]. apply list_elem_of_filter. cbn. rewrite Ht. split; [done|].
    apply elem_of_dir_names. split; [by apply is_dir_at_exists|done].
Qed.

Lemma leftovers_elsewhere w c r : is_tombstone_name c = false -> under (leftovers root (dir_names root w)) (root ++ c :: r) = false.
Proof.
  intros Hc. apply not_true_is_false. intros (p & Hp & H)%under_spec.
  apply elem_of_leftovers in Hp as (c' & -> & Ht & _). rewrite sibling_under in H; [done|]. intros ->. congruence.
Qed.

(** What is gone after a run: the leftovers of earlier runs, and the stale copies with their
    config records. *)
Definition gone (w : World) (q : path) : Prop :=
  (exists c, is_tombstone_name c = true /\ is_dir_at (fs_of w) (root ++ [c]) = true
             /\ path_starts_with q (root ++ [c]) = true)
  \/ exists c, stale_worktree root age w c = true
       /\ (path_starts_with q (root ++ [c]) = true
           \/ is_dir_at (fs_of w) (meta_of root c) = true /\ path_starts_with q (meta_of root c) = true).

Lemma gone_trees w D names :
  disk_wf (fs_of w) -> (forall c, is_tombstone_name c = true -> is_Some (fs_of w !! (root ++ [c])) -> is_dir_at (fs_of w) (root ++ [c]) = true) ->
  (forall c, c ∈ names <-> stale_worktree root age w c = true) ->
  D = leftovers root (dir_names root w) ++ concat (map (taken root w) names) ->
  forall q, (gone w q -> under D q = true) /\ (~ gone w q -> under D q = true -> fs_of w !! q = None).
Proof.
  intros Hwf Htomb Hnames -> q. split.
  - intros [(c & Ht & Hd & Hq)|(c & Hs & Hq)].
    + apply under_spec. exists (root ++ [c]). split; [|done]. apply elem_of_app. left. apply elem_of_leftovers. eauto.
    + apply under_spec. apply Hnames in Hs.
      assert (Hin : forall p, p ∈ taken root w c -> p ∈ concat (map (taken root w) names)).
      { intros p Hp. apply list_elem_of_In, in_concat. exists (taken root w c). rewrite <- !list_elem_of_In. split; [|done].
        apply list_elem_of_In, in_map, list_elem_of_In, Hs. }
      destruct Hq as [Hq|[Hd Hq]]; eexists; (split; [apply elem_of_app; right; apply Hin|exact Hq]).
      * left.
      * unfold taken. rewrite Hd. apply elem_of_app. right. left.
  - intros Hn. rewrite under_app. intros [(p & Hp & Hq)%under_spec|(p & Hp & Hq)%under_spec]%orb_prop.
    { apply elem_of_leftovers in Hp as (c & -> & Ht & Hd). exfalso. apply Hn. left. eauto. }
    apply list_elem_of_In, in_concat in Hp as (l & Hl & Hp). apply in_map_iff in Hl as (c & <- & Hc).
    apply list_elem_of_In, Hnames in Hc. apply list_elem_of_In in Hp. unfold taken in Hp.
    rewrite elem_of_app, !elem_of_cons in Hp. destruct Hp as [[->|[->|[]%not_elem_of_nil]]|Hp].
    + exfalso. apply Hn. right. eauto.
    + destruct (fs_of w !! tombstone_of root c w) eqn:E.
      * exfalso. apply Hn. left. eexists. split; [apply (tombstone_of_name c w)|]. split; [|done].
        apply Htomb; [apply tombstone_of_name|]. by eexists.
      * apply path_starts_with_spec in Hq as [r ->]. by apply wf_absent.
    + unfold when in Hp. destruct (is_dir_at (fs_of w) (meta_of root c)) eqn:Em; [|by apply not_elem_of_nil in Hp].
      apply list_elem_of_singleton in Hp as ->. exfalso. apply Hn. right. eauto.
Qed.
End prune.

Lemma scan_alone root w : node_faults (w_node w) = [] -> disk_wf (fs_of w) -> is_dir_at (fs_of w) root = true ->
  (forall c, is_tombstone_name c = true -> is_Some (fs_of w !! (root ++ [c])) -> is_dir_at (fs_of w) (root ++ [c]) = true) ->
  exists w1, pruned_to (leftovers root (dir_names root w)) w w1 /\ is_dir_at (fs_of w1) root = true /\ no_tombstones root w1
    /\ forall (A : Type) (k : result (list (bytes * bool)) unit -> Task World A),
         run_alone (remove_leftover_tombstones root ;; act (on_node (fs_read_dir root)) ≫= k) w
         = run_alone (k (Ok (dir_names root w1))) w1.
Proof.
  intros Hc Hwf Hr Htomb. destruct (leftovers_alone root w Hc Hwf Hr) as (w1 & E1 & P1).
  assert (Hr1 : is_dir_at (fs_of w1) root = true).
  { unfold is_dir_at. rewrite (pruned_disk _ _ _ P1). replace (under _ _) with false; [done|]. symmetry.
    apply not_true_is_false. intros (p & Hp & H)%under_spec. apply elem_of_leftovers in Hp as (c & -> & _).
    by rewrite (parent_not_under_self (root ++ [c]) root c) in H. }
  pose proof (settled_pruned w1 (pruned_calm _ _ _ P1) (pruned_wf _ _ _ P1)) as P1'.
  pose proof (pruned_trans _ _ _ _ _ P1 P1') as P. rewrite app_nil_r in P. eexists. split_and!; [exact P|done|..].
  - intros c Ht. rewrite (pruned_disk _ _ _ P). destruct (under _ _) eqn:E; [done|]. destruct (fs_of w !! (root ++ [c])) eqn:Ec; [|done].
    exfalso. apply not_true_iff_false in E. apply E, under_spec. exists (root ++ [c]). rewrite path_starts_with_refl. split; [|done].
    apply elem_of_leftovers. exists c. split_and!; [done..|]. apply Htomb; [done|by eexists].
  - intros A k. rewrite run_alone_bind, E1. cbn [mbind option_bind].
    by rewrite run_alone_bind, run_alone_act, read_dir_alone by (done || apply P1).
Qed.

(** C25: A run of the worktree pruner that nothing disturbs and in which no call fails ends; it
    reports each stale copy once and nothing else, and afterwards exactly those copies, their
    config records and what an earlier run left behind are gone: everything else on the disk is
    as before.  A copy is stale when it is a worktree's, has been idle for the age given, and no
    use of it and no engine at or below it exists. *)
Theorem stale_worktrees_removed (root : path) (age : Z) (w : World) :
  node_faults (w_node w) = [] -> disk_wf (fs_of w) -> is_dir_at (fs_of w) root = true ->
  (forall c, is_tombstone_name c = true -> is_Some (fs_of w !! (root ++ [c])) -> is_dir_at (fs_of w) (root ++ [c]) = true) ->
  exists removed w', run_alone (prune_stale_worktree_dirs root age) w = Some (removed, w')
    /\ NoDup removed
    /\ (forall p, p ∈ removed <-> exists c, p = root ++ [c] /\ stale_worktree root age w c = true)
    /\ forall q, (gone root age w q -> fs_of w' !! q = None) /\ (~ gone root age w q -> fs_of w' !! q = fs_of w !! q).
Proof.
  intros Hc Hwf Hr Htomb. destruct (scan_alone root w Hc Hwf Hr Htomb) as (w1 & P & Hr1 & Hno & Hrun).
  unfold prune_stale_worktree_dirs. rewrite Hrun, run_alone_bind, run_alone_look. cbn [mbind option_bind].
  assert (Hvis : forall c, is_worktree_name (utf8_lossy c) = true -> is_tombstone_name c = false).
  { intros c Hn%worktree_name_visible. apply not_true_is_false. by intros Ht%tombstone_name_hidden. }
  assert (Hagree : forall c, stale_worktree root age w1 c = stale_worktree root age w c).
  { intros c. destruct (is_worktree_name (utf8_lossy c)) eqn:En; [|unfold stale_worktree; by rewrite En, !andb_false_r].
    eapply stale_agree; [exact P|]. intros r. by apply leftovers_elsewhere, Hvis. }
  assert (Htaken : forall c, taken root w1 c = taken root w c).
  { intros c. unfold taken, tombstone_of. rewrite (pruned_clock _ _ _ P). do 2 f_equal. unfold is_dir_at, meta_of.
    rewrite (pruned_disk _ _ _ P). by rewrite leftovers_elsewhere. }
  destruct (worktrees_alone root age (dir_names root w1) [] w1) as (w2 & E2 & P2); [apply P|apply P|done|done|apply dir_names_NoDup|].
  cbn [app] in E2. set (stale := filter _ (dir_names root w1)) in *.
  assert (Et : map (fun e => taken root w1 e.1) stale = map (taken root w) (map fst stale))
    by (rewrite map_map; apply map_ext; intros e; apply Htaken).
  assert (Em : map (fun e => root ++ [e.1]) stale = map (fun c => root ++ [c]) (map fst stale)) by (by rewrite map_map).
  rewrite Et in P2. rewrite Em in E2. change (map fst stale) with (stale.*1) in *.
  assert (Hstale : forall c, c ∈ stale.*1 <-> stale_worktree root age w c = true).
  { intros c. rewrite list_elem_of_fmap. split.
    - intros ([c' d] & -> & [H _]%list_elem_of_filter). by rewrite <- Hagree.
    - intros Hs. exists (c, true). split; [done|]. apply list_elem_of_filter. rewrite Hagree. split; [done|].
      rewrite <- Hagree in Hs. unfold stale_worktree in Hs. rewrite !andb_true_iff in Hs. destruct Hs as [[[[Hd _] _] _] _].
      apply elem_of_dir_names. split; [by apply is_dir_at_exists|done]. }
  eexists _, w2. split; [exact E2|]. change (map ?f (stale.*1)) with (f <$> stale.*1). split_and!.
  - apply NoDup_fmap_2; [intros a b E; by apply app_inj_tail in E as [_ ->]|].
    eapply sublist_NoDup; [apply dir_names_NoDup|apply fmap_sublist, sublist_filter].
  - intros p. rewrite list_elem_of_fmap. by setoid_rewrite Hstale.
  - intros q. pose proof (pruned_trans _ _ _ _ _ P P2) as PP. rewrite (pruned_disk _ _ _ PP).
    destruct (gone_trees root age w _ (stale.*1) Hwf Htomb Hstale eq_refl q) as [H1 H2]. split; [by intros ->%H1|].
    intros Hn. destruct (under _ q) eqn:E; [|done]. symmetry. by apply H2.
Qed.

(** ** A sync holds no use *)

(** What a sync does once it has looked whether the copy is fresh. *)
Definition sync_after_check (pid : Z) (from_slice : bytes -> option Value) (to_vec_pretty : Value -> bytes)
    (set_from_slice : bytes -> option (list bytes)) (set_to_vec : list bytes -> bytes)
    (deltas : list FileDelta) (unix_now now duration : Z) (ws : path) (was_fresh : bool) : IO SyncOutcome :=
  (if was_fresh then mret tt else touch_last_used ws unix_now) ;;
  run ← running ws;
  t ← apply_deltas pid from_slice to_vec_pretty ws run.1 run.2 deltas (MkTally 0 0 0 false [] [] [] []);
  finish_sync set_from_slice set_to_vec ws deltas unix_now now duration was_fresh t.

Lemma apply_sync_split pid from_slice to_vec_pretty set_from_slice set_to_vec root client base deltas unix_now now duration :
  apply_sync pid from_slice to_vec_pretty set_from_slice set_to_vec root client base deltas unix_now now duration
  = (ws ← resolve_server_workspace root client base;
     fs ← io_disk;
     sync_after_check pid from_slice to_vec_pretty set_from_slice set_to_vec deltas unix_now now duration ws
       (negb (exists_at fs (ws ++ [LAST_USED_MARKER])))).
Proof. reflexivity. Qed.

(** ** A storage root with two idle worktrees, one of them in use *)

Module Example.

Definition root : path := [B "srv"].
Definition busy : path := root ++ [B "app--wt-00000001"].
Definition idle : path := root ++ [B "app--wt-00000002"].
Definition day : Z := 86400 * 1000000000.

Definition fs : disk := list_to_map
  [([], Dir); (root, Dir);
   (busy, Dir); (busy ++ [B "main.rs"], File (B "fn main() {}"));
   (idle, Dir); (idle ++ [B "src"], Dir); (idle ++ [B "src"; B "lib.rs"], File (B "mod a;"));
   (root ++ [METADATA_DIR], Dir); (root ++ [METADATA_DIR; B "app--wt-00000002"], Dir);
   (root ++ [B "notes"], File (B "kept"))].

Definition w : World := MkWorld (MkNode fs ∅ [] 0 (MkMemory ∅ ∅ 0))
  (list_to_map [(busy, day); (idle, day)]) (<[busy := 1]> ∅) [busy] [] (10 * day).

Lemma w_accounted : accounted root w.
Proof.
  split; cbn [w w_users w_guards].
  - intros p. unfold uses. rewrite filter_cons. destruct (decide (busy = p)) as [<-|Hne]; cbn [filter list_filter].
    + by rewrite lookup_insert_eq.
    + rewrite lookup_insert_ne by done. apply lookup_empty.
  - constructor; [|constructor]. eexists. split; [done|]. split; [by repeat constructor|by eexists _, _].
Qed.

(** The pruner runs to its end while another client enters the copy in use. *)
Definition turns : list (Event Happening) :=
  replicate 9 (Turn 0) ++ [Outside (Entered (B "/home/ann/app") (Some (B "app--wt-00000001")))] ++ replicate 12 (Turn 0).
Definition finished : option (World * list (Task World (list path))) :=
  run_pool (happens root) turns (w, pruner_task root <$> [StaleWorktrees (7 * day)]).

Lemma finished_facts : match finished with
                       | Some (w', _) => is_dir_at (fs_of w') busy && negb (exists_at (fs_of w') idle)
                       | None => false
                       end = true.
Proof. vm_compute. reflexivity. Qed.

Lemma copy_in_use_kept_witness : exists w' ts',
  finished = Some (w', ts') /\ exists_at (fs_of w') idle = false
  /\ accounted root w' /\ busy ∈ w_guards w' /\ same_below busy (last_left (w_node w) turns) (w_node w').
Proof.
  pose proof finished_facts as H. destruct finished as [[w' ts']|] eqn:E; [|exfalso; discriminate H].
  apply andb_true_iff in H as [_ H]. apply negb_true_iff in H. exists w', ts'. split; [reflexivity|]. split; [exact H|].
  apply (copy_in_use_kept root [StaleWorktrees (7 * day)] turns w w' ts' busy).
  - exact w_accounted.
  - by_decide.
  - exact E.
Defined.

Lemma stale_worktrees_removed_witness : exists removed w',
  run_alone (prune_stale_worktree_dirs root (7 * day)) w = Some (removed, w') /\ idle ∈ removed /\ busy ∉ removed
  /\ fs_of w' !! (idle ++ [B "src"; B "lib.rs"]) = None.
Proof.
  destruct (stale_worktrees_removed root (7 * day) w) as (removed & w' & E & _ & Hin & Hq).
  - reflexivity.
  - apply disk_wfb_sound. vm_compute. reflexivity.
  - vm_compute. reflexivity.
  - intros c Hc [n Hn]. exfalso.
    assert (Hall : Forall (fun e => match strip_path root e.1 with Some [c] => is_tombstone_name c = false | _ => True end)
                     (map_to_list fs)) by (vm_compute; by repeat constructor).
    rewrite Forall_forall in Hall. apply elem_of_map_to_list, Hall in Hn. cbn [fst] in Hn.
    rewrite strip_path_app in Hn. congruence.
  - exists removed, w'. split; [exact E|]. split_and!.
    + apply Hin. eexists. split; [reflexivity|]. vm_compute. reflexivity.
    + intros H. apply Hin in H as (c & Ec & Hs). apply app_inj_tail in Ec as [_ <-]. vm_compute in Hs. discriminate.
    + apply Hq. right. exists (B "app--wt-00000002"). split; [vm_compute; reflexivity|]. left. vm_compute. reflexivity.
Defined.

(** A sync of one file that the pruner overtakes right after the look at the marker: the copy is
    taken away with the rest of its files, the sync puts the one file into a new directory, and
    its answer neither says that the copy was fresh nor names a file as stale. *)
Definition marked : World :=
  set_node (MkNode (<[idle ++ [LAST_USED_MARKER] := File (B "86400")]> fs) ∅ [] 0 (MkMemory ∅ ∅ 0))
    (set_times (<[idle ++ [LAST_USED_MARKER] := day]> (w_times w)) w).

Definition overtaken : option (bool * World) := run_alone (remove_idle_copy idle (7 * day)) marked.
Definition rest_of_sync : IO SyncOutcome :=
  sync_after_check 7 SyncCorrect.Example.from_slice SyncCorrect.Example.to_vec_pretty SyncCorrect.Example.set_from_slice
    SyncCorrect.Example.set_to_vec [mkDelta (B "new.rs") (Some (B "fn new")) false] (10 * 86400) 0 0 idle
    (negb (exists_at (fs_of marked) (idle ++ [LAST_USED_MARKER]))).

Definition partial_copy (n : Node) : bool :=
  match rest_of_sync n with
  | (Ok out, n') =>
      negb (workspace_was_fresh (outcome_response out)) && bool_decide (stale_paths (outcome_response out) = [])
      && bool_decide (node_fs n' !! (idle ++ [B "new.rs"]) = Some (File (B "fn new")))
      && bool_decide (node_fs n' !! (idle ++ [B "src"; B "lib.rs"]) = None)
  | (Err _, _) => false
  end.
Lemma sync_outlives_its_copy :
  match overtaken with Some (ok, w1) => ok && partial_copy (w_node w1) | None => false end = true.
Proof. vm_compute. reflexivity. Qed.
End Example.
