(* ===== verification/Manager.v ===== *)
(** * Loading each workspace once

    [WorkspaceManager] of the gateway: [workspace/manager/coalesce.rs] and [lifecycle.rs], the
    leader of a load and the release of workspaces in [workspace/loader/mod.rs], the leases of
    [workspace/session.rs] and what they need of [workspace/shared.rs].

    The first request for a root takes its slot in the map and leads the load, later ones wait
    on the leader's channel; a worktree of a Rust checkout takes a slot of its own and attaches
    to its base's engine.  Sessions hold counted leases, and what has no lease may be unloaded.

    The state is the map with everything the tasks share, and where each request and each
    leader stands.  An event is one lock section, one message or one outcome of outside code
    (loading an engine, attaching a worktree); events come in any order, so every interleaving
    of the tasks is a list of events.  Workspaces are numbered in the order they are made.  A
    lease dropped last from an unloaded worktree detaches it in the same event, where the code
    spawns that.  The markers of last use an eviction writes to the disk are left out.  What a
    workspace's language server and manifests say about it changes from outside, and so does the
    clock. *)

From stdpp Require Import gmap.
From S2P Require Import Prelude RustStr Fs NodeDisk.

(** ** Shared workspaces *)

Record Shared := MkShared {
  sh_key : path;
  sh_engine : bytes;
  sh_rust : bool;             (** has a Rust engine in this process *)
  sh_base : option nat;       (** [base_workspace] *)
  sh_sessions : Z;            (** [active_sessions] *)
  sh_attached : Z;            (** [attached_worktrees] *)
  sh_used : Z;                (** [last_used], Unix seconds *)
  sh_unloaded : bool;
  sh_detached : bool;
  sh_dead : bool;             (** a language server has exited *)
  sh_changed : bool;          (** its manifests or its engine's inputs changed on disk *)
  sh_validation : bool;       (** a validation engine runs *)
}.

Definition set_sessions (f : Z -> Z) (o : Shared) : Shared :=
  MkShared (sh_key o) (sh_engine o) (sh_rust o) (sh_base o) (f (sh_sessions o)) (sh_attached o) (sh_used o)
    (sh_unloaded o) (sh_detached o) (sh_dead o) (sh_changed o) (sh_validation o).
Definition set_attached (f : Z -> Z) (o : Shared) : Shared :=
  MkShared (sh_key o) (sh_engine o) (sh_rust o) (sh_base o) (sh_sessions o) (f (sh_attached o)) (sh_used o)
    (sh_unloaded o) (sh_detached o) (sh_dead o) (sh_changed o) (sh_validation o).
Definition set_used (now : Z) (o : Shared) : Shared :=
  MkShared (sh_key o) (sh_engine o) (sh_rust o) (sh_base o) (sh_sessions o) (sh_attached o) now
    (sh_unloaded o) (sh_detached o) (sh_dead o) (sh_changed o) (sh_validation o).
Definition set_flags (unloaded detached dead changed validation : bool) (o : Shared) : Shared :=
  MkShared (sh_key o) (sh_engine o) (sh_rust o) (sh_base o) (sh_sessions o) (sh_attached o) (sh_used o)
    (sh_unloaded o || unloaded) (sh_detached o || detached) (sh_dead o || dead) (sh_changed o || changed)
    (sh_validation o || validation).

(** A workspace, its base, and so on; a base is older than what is attached to it. *)
Fixpoint chain (fuel : nat) (objs : list Shared) (i : nat) : list nat :=
  match fuel, objs !! i with
  | S fuel', Some o => i :: match sh_base o with Some b => chain fuel' objs b | None => [] end
  | _, _ => []
  end.
Definition base_chain (objs : list Shared) (i : nat) : list nat := chain (S i) objs i.

(** [WorkspaceLease::acquire]: the workspaces it counts on. *)
Definition acquire (i : nat) (objs : list Shared) : list nat * list Shared :=
  let l := base_chain objs i in (l, foldr (alter (set_sessions (Z.add 1))) objs l).

(** [detach_overlay]. *)
Definition detach_overlay (i : nat) (objs : list Shared) : list Shared :=
  match objs !! i with
  | Some o =>
      match sh_base o, sh_detached o with
      | Some b, false => alter (set_attached (fun n => n - 1)) b (alter (set_flags false true false false false) i objs)
      | _, _ => objs
      end
  | None => objs
  end.

(** Dropping a [WorkspaceLease]. *)
Definition drop_one (now : Z) (objs : list Shared) (i : nat) : list Shared :=
  let objs' := alter (fun o => set_sessions (fun n => n - 1) (set_used now o)) i objs in
  match objs' !! i with
  | Some o => if (sh_sessions o =? 0) && sh_unloaded o then detach_overlay i objs' else objs'
  | None => objs'
  end.
Definition drop_lease (now : Z) (lease : list nat) (objs : list Shared) : list Shared := foldl (drop_one now) objs lease.

(** [release]: [mark_unloaded], and the overlay of one without a session is detached. *)
Definition release_one (objs : list Shared) (i : nat) : list Shared :=
  let objs' := alter (set_flags true false false false false) i objs in
  match objs' !! i with
  | Some o => if sh_sessions o =? 0 then detach_overlay i objs' else objs'
  | None => objs'
  end.
Definition release (ids : list nat) (objs : list Shared) : list Shared := foldl release_one objs ids.

(** [has_stale_manifests]: unloaded or changed, or its base is. *)
Definition has_stale_manifests (objs : list Shared) (i : nat) : bool :=
  existsb (fun j => match objs !! j with Some o => sh_unloaded o || sh_changed o | None => false end) (base_chain objs i).
Definition reusable_for (engine : bytes) (objs : list Shared) (i : nat) : bool :=
  match objs !! i with
  | Some o => bool_decide (sh_engine o = engine) && negb (sh_dead o) && negb (sh_unloaded o)
              && negb (has_stale_manifests objs i)
  | None => false
  end.

(** ** The state *)

Inductive LoadState := Loading (ch : nat) | Ready (ws : nat).
#[export] Instance load_state_eq_decision : EqDecision LoadState.
Proof. solve_decision. Defined.

(** Where a request stands. *)
Inductive Phase :=
| Look                                        (** about to read the map *)
| Wait (ch : nat)                             (** waits on a leader's channel *)
| Claim                                       (** about to take the map's write lock *)
| Replace (ids : list nat)                    (** a worktree's leader releases what it replaced *)
| Led (ch : nat) (held : list nat)            (** waits for the leader it spawned *)
| Attach (base_lease : list nat)              (** has the base, attaches to its engines *)
| Publish (ws : nat) (lease base_lease : list nat)
| Withdraw (held : list nat)                  (** gives its slot back after a failure *)
| Holding (lease : list nat)                  (** answered with a lease *)
| Finished.                                   (** answered with an error, or gone *)

Record Request := MkRequest {
  rq_root : path;
  rq_engine : bytes;
  rq_base : option path;   (** of a worktree: the base's root *)
  rq_slot : option nat;    (** the channel of the worktree's slot it leads *)
  rq_phase : Phase;
}.

Inductive LeadPhase :=
| Releasing (ids : list nat)
| InFlight
| Answering (result : option nat)
| Ended.

Record Lead := MkLead {
  ld_key : path;
  ld_engine : bytes;
  ld_ch : nat;
  ld_for : nat;            (** the request that spawned it *)
  ld_phase : LeadPhase;
}.

Abbreviation slot_map := (@gmap path path_eq_decision path_countable LoadState).

Record St := MkSt {
  objs : list Shared;
  slots : slot_map;                (** [workspaces] *)
  chans : list (option bool);      (** what was sent: a workspace, or an error *)
  reqs : list Request;
  leads : list Lead;
  releasing : list (list nat);     (** taken out of the map, to be released *)
  now : Z;
}.

Definition set_objs (o : list Shared) (st : St) : St :=
  MkSt o (slots st) (chans st) (reqs st) (leads st) (releasing st) (now st).
Definition set_slots (s : slot_map) (st : St) : St :=
  MkSt (objs st) s (chans st) (reqs st) (leads st) (releasing st) (now st).
Definition send (ch : nat) (ok : bool) (st : St) : St :=
  MkSt (objs st) (slots st) (<[ch := Some ok]> (chans st)) (reqs st) (leads st) (releasing st) (now st).
Definition open_channel (st : St) : nat * St :=
  (length (chans st), MkSt (objs st) (slots st) (chans st ++ [None]) (reqs st) (leads st) (releasing st) (now st)).
Definition set_request (i : nat) (r : Request) (st : St) : St :=
  MkSt (objs st) (slots st) (chans st) (<[i := r]> (reqs st)) (leads st) (releasing st) (now st).
Definition set_lead (j : nat) (l : Lead) (st : St) : St :=
  MkSt (objs st) (slots st) (chans st) (reqs st) (<[j := l]> (leads st)) (releasing st) (now st).
Definition spawn_lead (l : Lead) (st : St) : St :=
  MkSt (objs st) (slots st) (chans st) (reqs st) (leads st ++ [l]) (releasing st) (now st).
Definition hand_over (ids : list nat) (st : St) : St :=
  MkSt (objs st) (slots st) (chans st) (reqs st) (leads st) (releasing st ++ [ids]) (now st).

Definition to_phase (p : Phase) (r : Request) : Request :=
  MkRequest (rq_root r) (rq_engine r) (rq_base r) (rq_slot r) p.
Definition with_slot (ch : option nat) (p : Phase) (r : Request) : Request :=
  MkRequest (rq_root r) (rq_engine r) (rq_base r) ch p.
Definition lead_to (p : LeadPhase) (l : Lead) : Lead := MkLead (ld_key l) (ld_engine l) (ld_ch l) (ld_for l) p.

(** The root a request is at: a worktree's leader works on its base. *)
Definition rq_key (r : Request) : path :=
  match rq_slot r, rq_base r with Some _, Some b => b | _, _ => rq_root r end.

(** The leases a request holds. *)
Definition leases (r : Request) : list nat :=
  match rq_phase r with
  | Led _ held | Attach held | Withdraw held | Holding held => held
  | Publish _ lease base_lease => lease ++ base_lease
  | _ => []
  end.

(** ** A request *)

(** A lease is the answer, or the base of the worktree being loaded. *)
Definition answered (lease : list nat) (r : Request) : Request :=
  to_phase (match rq_slot r with None => Holding lease | Some _ => Attach lease end) r.

Definition got (i : nat) (r : Request) (ws : nat) (st : St) : St :=
  let '(lease, objs') := acquire ws (objs st) in set_request i (answered lease r) (set_objs objs' st).

(** An error from a base gives the worktree's slot back. *)
Definition failed (r : Request) : Request :=
  to_phase (match rq_slot r with None => Finished | Some _ => Withdraw [] end) r.

(** The read of the map. *)
Definition look_up (i : nat) (r : Request) (st : St) : St :=
  match slots st !! rq_key r with
  | Some (Ready ws) =>
      if reusable_for (rq_engine r) (objs st) ws then got i r ws st else set_request i (to_phase Claim r) st
  | Some (Loading ch) => set_request i (to_phase (Wait ch) r) st
  | None => set_request i (to_phase Claim r) st
  end.

Definition receive (i : nat) (r : Request) (ch : nat) (st : St) : option St :=
  match chans st !! ch with
  | Some (Some true) => Some (set_request i (to_phase Look r) st)
  | Some (Some false) => Some (set_request i (failed r) st)
  | _ => None
  end.

Definition is_worktree (r : Request) : bool := match rq_base r, rq_slot r with Some _, None => true | _, _ => false end.

(** The section under the write lock: a workspace that cannot be reused is taken out, and an
    empty slot is taken. *)
Definition claim_slot (i : nat) (r : Request) (st : St) : St :=
  let key := rq_key r in
  let replaced := match slots st !! key with
                  | Some (Ready ws) => if reusable_for (rq_engine r) (objs st) ws then [] else [ws]
                  | _ => []
                  end in
  let st := match replaced with [] => st | _ => set_slots (delete key (slots st)) st end in
  match slots st !! key with
  | Some (Ready ws) => got i r ws st
  | Some (Loading ch) => set_request i (to_phase (Wait ch) r) st
  | None =>
      let '(ch, st) := open_channel st in
      let st := set_slots (<[key := Loading ch]> (slots st)) st in
      if is_worktree r then set_request i (with_slot (Some ch) (Replace replaced) r) st
      else set_request i (to_phase (Led ch []) r) (spawn_lead (MkLead key (rq_engine r) ch i (Releasing replaced)) st)
  end.

(** The new workspace of a worktree goes into its slot, and the followers are told. *)
Definition publish (i : nat) (r : Request) (ch ws : nat) (lease base_lease : list nat) (st : St) : St :=
  let st := send ch true (set_slots (<[rq_root r := Ready ws]> (slots st)) st) in
  set_request i (with_slot None (Holding lease) r) (set_objs (drop_lease (now st) base_lease (objs st)) st).

Definition withdraw (i : nat) (r : Request) (ch : nat) (held : list nat) (st : St) : St :=
  let st := send ch false (set_slots (delete (rq_root r) (slots st)) st) in
  set_request i (with_slot None Finished r) (set_objs (drop_lease (now st) held (objs st)) st).

(** The next step a request takes by itself. *)
Definition advance (i : nat) (st : St) : option St :=
  r ← reqs st !! i;
  match rq_phase r, rq_slot r with
  | Look, _ => Some (look_up i r st)
  | Wait ch, _ => receive i r ch st
  | Claim, _ => Some (claim_slot i r st)
  | Replace ids, _ => Some (set_request i (to_phase Look r) (set_objs (release ids (objs st)) st))
  | Publish ws lease base_lease, Some ch => Some (publish i r ch ws lease base_lease st)
  | Withdraw held, Some ch => Some (withdraw i r ch held st)
  | _, _ => None
  end.

(** The overlay of a worktree over its base: [SharedWorkspace::with_base], counted on the base. *)
Definition with_base (r : Request) (base : nat) (st : St) : list Shared :=
  alter (set_attached (Z.add 1)) base (objs st)
  ++ [MkShared (rq_root r) (rq_engine r) true (Some base) 0 0 (now st) false false false false false].

(** A worktree's leader with its base: a base without a Rust engine makes it load the root by
    itself, otherwise the engines were attached to, or not. *)
Definition attach (i : nat) (ok : bool) (st : St) : option St :=
  r ← reqs st !! i;
  match rq_phase r, rq_slot r with
  | Attach ((base :: _) as base_lease), Some ch =>
      o ← objs st !! base;
      if negb (sh_rust o) then
        Some (set_request i (with_slot None (Led ch base_lease) r)
                (spawn_lead (MkLead (rq_root r) (rq_engine r) ch i (Releasing [])) st))
      else if ok then
        let ws := length (objs st) in
        let '(lease, objs') := acquire ws (with_base r base st) in
        Some (set_request i (to_phase (Publish ws lease base_lease) r) (set_objs objs' st))
      else Some (set_request i (to_phase (Withdraw base_lease) r) st)
  | _, _ => None
  end.

(** The future of a request is dropped, or its session ends: its leases are. *)
Definition end_request (i : nat) (st : St) : option St :=
  r ← reqs st !! i;
  match rq_phase r with
  | Finished => None
  | _ => Some (set_request i (to_phase Finished r) (set_objs (drop_lease (now st) (leases r) (objs st)) st))
  end.

(** ** A leader: [lead] *)

Definition lead_release (j : nat) (st : St) : option St :=
  l ← leads st !! j;
  match ld_phase l with
  | Releasing ids => Some (set_lead j (lead_to InFlight l) (set_objs (release ids (objs st)) st))
  | _ => None
  end.

(** The load has ended; the map is told. *)
Definition lead_loaded (j : nat) (outcome : option bool) (st : St) : option St :=
  l ← leads st !! j;
  match ld_phase l with
  | InFlight =>
      let mine := match slots st !! ld_key l with
                  | Some (Loading ch) => bool_decide (ch = ld_ch l)
                  | _ => false
                  end in
      match outcome with
      | Some rust =>
          let ws := length (objs st) in
          let fresh := MkShared (ld_key l) (ld_engine l) rust None 0 0 (now st) false false false false false in
          let can_install := mine || bool_decide (slots st !! ld_key l = None) in
          let st := set_objs (objs st ++ [fresh]) st in
          let st := if can_install then set_slots (<[ld_key l := Ready ws]> (slots st)) st else st in
          Some (set_lead j (lead_to (Answering (Some ws)) l) st)
      | None =>
          let st := if mine then set_slots (delete (ld_key l) (slots st)) st else st in
          Some (set_lead j (lead_to (Answering None) l) st)
      end
  | _ => None
  end.

(** The request that spawned it, while it waits. *)
Definition waiting_leader (l : Lead) (st : St) : option (Request * list nat) :=
  r ← reqs st !! ld_for l;
  match rq_phase r with Led ch held => if decide (ch = ld_ch l) then Some (r, held) else None | _ => None end.

(** The leader's request and the followers are answered. *)
Definition lead_answer (j : nat) (st : St) : option St :=
  l ← leads st !! j;
  match ld_phase l with
  | Answering result =>
      let ok := match result with Some _ => true | None => false end in
      let st := set_lead j (lead_to Ended l) (send (ld_ch l) ok st) in
      match waiting_leader l st with
      | None => Some st
      | Some (r, held) =>
          let '(r', objs') := match result with
                              | Some ws => let '(lease, objs') := acquire ws (objs st) in (answered lease r, objs')
                              | None => (failed r, objs st)
                              end in
          Some (set_request (ld_for l) r' (set_objs (drop_lease (now st) held objs') st))
      end
  | _ => None
  end.

(** [load_ahead]: a worktree is left alone, and the slot is taken only where nothing is, or
    where a server has exited. *)
Definition load_ahead (root : path) (engine : bytes) (base : option path) (st : St) : St :=
  let i := length (reqs st) in
  let request p := MkSt (objs st) (slots st) (chans st) (reqs st ++ [MkRequest root engine None None p]) (leads st) (releasing st) (now st) in
  let present := match slots st !! root with
                 | Some (Loading _) => true
                 | Some (Ready ws) => match objs st !! ws with Some o => negb (sh_dead o) | None => true end
                 | None => false
                 end in
  let worktree := match base with Some b => negb (bool_decide (b = root)) | None => false end in
  if worktree || present then request Finished
  else
    let replaced := match slots st !! root with Some (Ready ws) => [ws] | _ => [] end in
    let '(ch, st') := open_channel (request Look) in
    let st' := set_slots (<[root := Loading ch]> (slots st')) st' in
    set_request i (MkRequest root engine None None (Led ch []))
      (spawn_lead (MkLead root engine ch i (Releasing replaced)) st').

(** ** Unloading *)

Definition ready_ids (st : St) : list nat :=
  omap (fun e => match e.2 with Ready ws => Some ws | Loading _ => None end) (map_to_list (slots st)).

(** Nobody holds a lease on it and no worktree is attached to it. *)
Definition is_idle (st : St) (ws : nat) : bool :=
  match objs st !! ws with Some o => (sh_sessions o =? 0) && (sh_attached o =? 0) | None => false end.

Definition take_out (ids : list nat) (st : St) : St :=
  let keys := omap (fun i => sh_key <$> objs st !! i) ids in
  hand_over ids (set_slots (foldl (fun m k => delete k m) (slots st) keys) st).

(** [remove_idle]. *)
Definition remove_idle (pick : list nat -> list nat) (st : St) : St :=
  take_out (pick (filter (fun i => is_idle st i = true) (ready_ids st))) st.

Definition idle_secs (st : St) (ws : nat) : Z :=
  match objs st !! ws with Some o => Z.max 0 (now st - sh_used o) | None => 0 end.

Definition evict_idle (idle : Z) (st : St) : St :=
  remove_idle (filter (fun i => (idle <=? idle_secs st i) = true)) st.

(** [reclaimable]. *)
Definition reclaimable (reserve : bytes -> Z) (o : Shared) : Z :=
  if bool_decide (is_Some (sh_base o)) || (0 <? sh_attached o) then 0
  else Z.min u64_max (reserve (sh_engine o) * (if sh_validation o then 2 else 1)).

(** The least recently used first, until what is freed covers the excess. *)
Fixpoint take_until (free : nat -> Z) (excess freed : Z) (ids : list nat) : list nat :=
  match ids with
  | [] => []
  | i :: ids' => if freed <? excess then i :: take_until free excess (Z.min u64_max (freed + free i)) ids' else []
  end.

Definition used_at (st : St) (i : nat) : Z := match objs st !! i with Some o => sh_used o | None => 0 end.
Definition free_of (reserve : bytes -> Z) (st : St) (i : nat) : Z :=
  match objs st !! i with Some o => reclaimable reserve o | None => 0 end.
Definition key_of (st : St) (i : nat) : option path := sh_key <$> objs st !! i.

Definition RECLAIM_MIN_IDLE : Z := 120.

Definition reclaim_pick (reserve : bytes -> Z) (excess : Z) (loading : path) (st : St) (candidates : list nat) : list nat :=
  take_until (free_of reserve st) excess 0
    (sort_by (fun i j => used_at st i <=? used_at st j)
       (filter (fun i => key_of st i <> Some loading /\ RECLAIM_MIN_IDLE <= idle_secs st i) candidates)).

Definition reclaim_idle (reserve : bytes -> Z) (excess : Z) (loading : path) (st : St) : St :=
  remove_idle (reclaim_pick reserve excess loading st) st.

(** [unload_under]: also what sessions hold. *)
Definition ready_under (prefix : path) (e : path * LoadState) : option (path * nat) :=
  match e.2 with Ready ws => if path_starts_with e.1 prefix then Some (e.1, ws) else None | Loading _ => None end.
Definition unload_under (prefix : path) (st : St) : St :=
  let taken := omap (ready_under prefix) (map_to_list (slots st)) in
  hand_over (map snd taken) (set_slots (foldl (fun m e => delete e.1 m) (slots st) taken) st).

Definition release_next (k : nat) (st : St) : option St :=
  ids ← releasing st !! k;
  Some (MkSt (release ids (objs st)) (slots st) (chans st) (reqs st) (leads st) (<[k := []]> (releasing st)) (now st)).

(** ** Runs *)

Inductive Ev :=
| Asked (root : path) (engine : bytes) (base : option path)  (** [get_or_load]; the base [split_worktree_base] names *)
| Ahead (root : path) (engine : bytes) (base : option path)
| Advance (i : nat)
| Attached (i : nat) (ok : bool)
| Ends (i : nat)
| LeadReleases (j : nat)
| LeadLoads (j : nat) (outcome : option bool)
| LeadAnswers (j : nat)
| Evict (idle : Z)
| Reclaim (reserve : bytes -> Z) (excess : Z) (loading : path)
| Unload (prefix : path)
| Releases (k : nat)
| Noted (i : nat) (dead changed validation : bool)           (** from outside *)
| Clock (t : Z).

(** [get_or_load_untracked]: a worktree of a Rust checkout attaches to its base. *)
Definition new_request (root : path) (engine : bytes) (base : option path) : Request :=
  let worktree := match base with
                  | Some b => bool_decide (engine = B "rust") && negb (bool_decide (b = root))
                  | None => false
                  end in
  MkRequest root engine (if worktree then base else None) None Look.

Definition step (e : Ev) (st : St) : option St :=
  match e with
  | Asked root engine base =>
      Some (MkSt (objs st) (slots st) (chans st) (reqs st ++ [new_request root engine base]) (leads st) (releasing st) (now st))
  | Ahead root engine base => Some (load_ahead root engine base st)
  | Advance i => advance i st
  | Attached i ok => attach i ok st
  | Ends i => end_request i st
  | LeadReleases j => lead_release j st
  | LeadLoads j outcome => lead_loaded j outcome st
  | LeadAnswers j => lead_answer j st
  | Evict idle => Some (evict_idle idle st)
  | Reclaim reserve excess loading => Some (reclaim_idle reserve excess loading st)
  | Unload prefix => Some (unload_under prefix st)
  | Releases k => release_next k st
  | Noted i dead changed validation => Some (set_objs (alter (set_flags false false dead changed validation) i (objs st)) st)
  | Clock t => Some (MkSt (objs st) (slots st) (chans st) (reqs st) (leads st) (releasing st) t)
  end.

Fixpoint run (events : list Ev) (st : St) : option St :=
  match events with
  | [] => Some st
  | e :: events' => st' ← step e st; run events' st'
  end.

Definition start : St := MkSt [] ∅ [] [] [] [] 0.
