(* ===== verification/ManagerLoads.v ===== *)
(** * Every root is loaded once

    In any order of events at most one request or leader works on a root, and the map shows it:
    the invariant [coalesced], kept by every step. *)

From stdpp Require Import gmap.
From S2P Require Import Prelude RustStr Fs NodeDisk Manager.

(** ** What does not change about a workspace *)

Definition ident (o : Shared) : path * option nat * bool := (sh_key o, sh_base o, sh_rust o).
Definition same_idents (l l' : list Shared) : Prop := ident <$> l' = ident <$> l.

Lemma same_refl l : same_idents l l.
Proof. done. Qed.
#[local] Hint Resolve same_refl : core.
Lemma same_trans l1 l2 l3 : same_idents l1 l2 -> same_idents l2 l3 -> same_idents l1 l3.
Proof. unfold same_idents. congruence. Qed.
Lemma same_alter f i l : (forall o, ident (f o) = ident o) -> same_idents l (alter f i l).
Proof.
  intros Hf. unfold same_idents. apply list_eq. intros j. rewrite !list_lookup_fmap.
  destruct (decide (i = j)) as [->|Hne]; [|by rewrite list_lookup_alter_ne].
  rewrite list_lookup_alter_eq. destruct (l !! j); cbn; [|done]. by rewrite Hf.
Qed.
Lemma same_acquire i l : same_idents l (acquire i l).2.
Proof.
  unfold acquire. cbn [snd]. induction (base_chain l i) as [|x xs IH]; [done|]. cbn [foldr].
  eapply same_trans; [exact IH|]. by apply same_alter.
Qed.
Lemma same_detach i l : same_idents l (detach_overlay i l).
Proof.
  unfold detach_overlay. destruct (l !! i) as [o|]; [|done]. destruct (sh_base o), (sh_detached o); try done.
  eapply same_trans; [|by apply same_alter]. by apply same_alter.
Qed.
Lemma same_drop now lease l : same_idents l (drop_lease now lease l).
Proof.
  unfold drop_lease. revert l. induction lease as [|i lease IH]; intros l; [done|]. cbn. eapply same_trans; [|apply IH].
  unfold drop_one. set (l' := alter _ i l). assert (same_idents l l') by (by apply same_alter).
  destruct (l' !! i); [|done]. destruct (_ && _); [|done]. eapply same_trans; [done|]. apply same_detach.
Qed.
Lemma same_release ids l : same_idents l (release ids l).
Proof.
  unfold release. revert l. induction ids as [|i ids IH]; intros l; [done|]. cbn. eapply same_trans; [|apply IH].
  unfold release_one. set (l' := alter _ i l). assert (same_idents l l') by (by apply same_alter).
  destruct (l' !! i); [|done]. destruct (_ =? 0); [|done]. eapply same_trans; [done|]. apply same_detach.
Qed.
#[local] Hint Resolve same_acquire same_detach same_drop same_release same_alter : core.

Lemma same_length l l' : same_idents l l' -> length l' = length l.
Proof. intros H. apply (f_equal length) in H. by rewrite !length_fmap in H. Qed.

(** ** Who works on what *)

Definition own_lead (l : Lead) : option (path * nat) :=
  match ld_phase l with Releasing _ | InFlight => Some (ld_key l, ld_ch l) | Answering _ | Ended => None end.
Definition own_req (r : Request) : option (path * nat) :=
  match rq_phase r with Finished => None | _ => ch ← rq_slot r; Some (rq_root r, ch) end.

(** The root and the channel a leader ([inl]) or a worktree's leading request ([inr]) works
    for. *)
Definition own (st : St) (x : nat + nat) : option (path * nat) :=
  match x with inl j => leads st !! j ≫= own_lead | inr i => reqs st !! i ≫= own_req end.
Definition channel_of (st : St) (x : nat + nat) : option nat :=
  match x with inl j => ld_ch <$> leads st !! j | inr i => reqs st !! i ≫= rq_slot end.

(** A worktree's new workspace is one of its root. *)
Definition made_for (objs : list Shared) (r : Request) : Prop :=
  match rq_phase r with Publish ws _ _ => exists o, objs !! ws = Some o /\ sh_key o = rq_root r | _ => True end.

Record coalesced (st : St) : Prop := {
  own_slot : forall x k ch, own st x = Some (k, ch) -> slots st !! k = Some (Loading ch);
  chan_unique : forall x y ch, channel_of st x = Some ch -> channel_of st y = Some ch -> x = y;
  chan_valid : forall x ch, channel_of st x = Some ch -> (ch < length (chans st))%nat;
  ready_key : forall k ws, slots st !! k = Some (Ready ws) -> exists o, objs st !! ws = Some o /\ sh_key o = k;
  made_key : Forall (made_for (objs st)) (reqs st);
}.

Lemma own_channel st x k ch : own st x = Some (k, ch) -> channel_of st x = Some ch.
Proof.
  destruct x as [j|i]; cbn.
  - destruct (leads st !! j) as [l|]; [|done]. cbn. unfold own_lead. by destruct (ld_phase l); intros [= <- <-].
  - destruct (reqs st !! i) as [r|]; [|done]. cbn. unfold own_req. destruct (rq_slot r); cbn; by destruct (rq_phase r); intros [= <- <-].
Qed.

(** Two that work on one root are the same. *)
Lemma own_unique st x y k ch ch' : coalesced st -> own st x = Some (k, ch) -> own st y = Some (k, ch') -> x = y.
Proof.
  intros Hc Hx Hy. pose proof (own_slot _ Hc _ _ _ Hx). pose proof (own_slot _ Hc _ _ _ Hy).
  assert (ch' = ch) as -> by congruence. eapply (chan_unique _ Hc _ _ ch); by eapply own_channel.
Qed.

(** The slots of others are left alone. *)
Definition keeps_slots (st : St) (s' : slot_map) (x : nat + nat) : Prop :=
  forall y k ch, y <> x -> own st y = Some (k, ch) -> s' !! k = Some (Loading ch).

Definition ready_ok (objs : list Shared) (s : slot_map) : Prop :=
  forall k ws, s !! k = Some (Ready ws) -> exists o, objs !! ws = Some o /\ sh_key o = k.

Lemma ready_delete l s k : ready_ok l s -> ready_ok l (delete k s).
Proof. intros Hr k' ws [_ H]%lookup_delete_Some. by apply Hr. Qed.
Lemma ready_loading l s k ch : ready_ok l s -> ready_ok l (<[k := Loading ch]> s).
Proof. intros Hr k' ws [[_ ?]|[_ H]]%lookup_insert_Some; [done|]. by apply Hr. Qed.
Lemma ready_ready l s k ws o : ready_ok l s -> l !! ws = Some o -> sh_key o = k -> ready_ok l (<[k := Ready ws]> s).
Proof. intros Hr Ho Hk k' ws' [[<- [= <-]]|[_ H]]%lookup_insert_Some; [eauto|by apply Hr]. Qed.

Lemma key_same l l' ws k : same_idents l l' -> (exists o, l !! ws = Some o /\ sh_key o = k) ->
  exists o, l' !! ws = Some o /\ sh_key o = k.
Proof.
  intros Hs (o & Ho & <-).
  assert (Hf : (ident <$> l') !! ws = Some (ident o)) by (rewrite Hs, list_lookup_fmap, Ho; done).
  rewrite list_lookup_fmap in Hf. destruct (l' !! ws) as [o'|]; [|done]. exists o'. split; [done|].
  injection Hf as [= ? ? ?]. done.
Qed.
Lemma key_app l l' ws k : (exists o, l !! ws = Some o /\ sh_key o = k) -> exists o, (l ++ l') !! ws = Some o /\ sh_key o = k.
Proof. intros (o & Ho & E). exists o. split; [by apply lookup_app_l_Some|done]. Qed.

Lemma ready_same l l' s : same_idents l l' -> ready_ok l s -> ready_ok l' s.
Proof. intros Hs Hr k ws H. eapply key_same; [done|]. by apply Hr. Qed.
Lemma ready_app l l' s : ready_ok l s -> ready_ok (l ++ l') s.
Proof. intros Hr k ws H. apply key_app. by apply Hr. Qed.
Lemma made_same l l' rs : same_idents l l' -> Forall (made_for l) rs -> Forall (made_for l') rs.
Proof.
  intros Hs H. eapply Forall_impl; [exact H|]. intros r. unfold made_for. destruct (rq_phase r); try done. by apply key_same.
Qed.
Lemma made_app l l' rs : Forall (made_for l) rs -> Forall (made_for (l ++ l')) rs.
Proof.
  intros H. eapply Forall_impl; [exact H|]. intros r. unfold made_for. destruct (rq_phase r); try done. apply key_app.
Qed.

(** Nothing new: one party may stop working or only change its phase. *)
Lemma coalesced_shrink st st' x : coalesced st ->
  (forall y, y <> x -> own st' y = own st y /\ channel_of st' y = channel_of st y) ->
  own st' x = None \/ own st' x = own st x /\ (forall k ch, own st x = Some (k, ch) -> slots st' !! k = Some (Loading ch)) ->
  channel_of st' x = None \/ channel_of st' x = channel_of st x ->
  (length (chans st) <= length (chans st'))%nat ->
  keeps_slots st (slots st') x -> ready_ok (objs st') (slots st') -> Forall (made_for (objs st')) (reqs st') -> coalesced st'.
Proof.
  intros [Hu Hq Hv Hr _] Hy Hx Hcx Hl Hs Hr' Hm.
  assert (Hc : forall y ch, channel_of st' y = Some ch -> channel_of st y = Some ch).
  { intros y ch H. destruct (decide (y = x)) as [->|Hne]; [destruct Hcx as [E|E]; congruence|].
    destruct (Hy y Hne) as [_ <-]. done. }
  split; [|eauto| |done..].
  - intros y k ch H. destruct (decide (y = x)) as [->|Hne].
    + destruct Hx as [E|[E Hk]]; [congruence|]. apply Hk. congruence.
    + destruct (Hy y Hne) as [E _]. rewrite E in H. by eapply Hs.
  - intros y ch H. eapply Nat.lt_le_trans; [|exact Hl]. eauto.
Qed.

(** A party takes up a root with a channel of its own. *)
Lemma coalesced_grow st st' x k0 ch0 (old : nat + nat) : coalesced st ->
  (forall y, y <> x -> y <> old -> own st' y = own st y /\ channel_of st' y = channel_of st y) ->
  (old <> x -> own st' old = None /\ channel_of st' old = None) ->
  own st' x = Some (k0, ch0) -> channel_of st' x = Some ch0 ->
  slots st' !! k0 = Some (Loading ch0) ->
  (forall y, y <> x -> y <> old -> channel_of st y <> Some ch0) -> (ch0 < length (chans st'))%nat ->
  (length (chans st) <= length (chans st'))%nat ->
  (forall y k ch, y <> x -> y <> old -> own st y = Some (k, ch) -> slots st' !! k = Some (Loading ch)) ->
  ready_ok (objs st') (slots st') -> Forall (made_for (objs st')) (reqs st') -> coalesced st'.
Proof.
  intros [Hu Hq Hv Hr _] Hy Hold Hx Hcx Hslot Hfresh Hch Hl Hs Hr' Hm.
  assert (Hc : forall y ch, y <> x -> channel_of st' y = Some ch -> y <> old /\ channel_of st y = Some ch).
  { intros y ch Hne H. destruct (decide (y = old)) as [->|Ho]; [destruct (Hold Hne); congruence|].
    split; [done|]. destruct (Hy y Hne Ho) as [_ <-]. done. }
  split; [| | |done..].
  - intros y k ch H. destruct (decide (y = x)) as [->|Hne]; [congruence|].
    destruct (decide (y = old)) as [->|Ho]; [destruct (Hold Hne); congruence|].
    destruct (Hy y Hne Ho) as [E _]. rewrite E in H. by eapply Hs.
  - intros y z ch H1 H2. destruct (decide (y = x)) as [->|Hy'], (decide (z = x)) as [->|Hz']; [done|..].
    + exfalso. destruct (Hc z ch Hz' H2) as [Ho H]. apply (Hfresh z Hz' Ho). congruence.
    + exfalso. destruct (Hc y ch Hy' H1) as [Ho H]. apply (Hfresh y Hy' Ho). congruence.
    + destruct (Hc y ch Hy' H1), (Hc z ch Hz' H2). eauto.
  - intros y ch H. destruct (decide (y = x)) as [->|Hne]; [congruence|].
    destruct (Hc y ch Hne H) as [_ H']. eapply Nat.lt_le_trans; [|exact Hl]. eauto.
Qed.

(** ** The parties after a step *)

Section parties.
Context (st st' : St).

Lemma party_request i r r' : reqs st !! i = Some r -> reqs st' = <[i := r']> (reqs st) -> leads st' = leads st ->
  (forall y, y <> inr i -> own st' y = own st y /\ channel_of st' y = channel_of st y)
  /\ own st' (inr i) = own_req r' /\ channel_of st' (inr i) = rq_slot r'.
Proof.
  intros Hi Hr Hl. assert (Hlt : (i < length (reqs st))%nat) by (by eapply lookup_lt_Some).
  split_and!; [|cbn; by rewrite Hr, list_lookup_insert_eq..].
  intros [j|i'] Hne; cbn; rewrite ?Hl, ?Hr; [done|]. by rewrite list_lookup_insert_ne by congruence.
Qed.

Lemma party_lead j l l' : leads st !! j = Some l -> leads st' = <[j := l']> (leads st) -> reqs st' = reqs st ->
  (forall y, y <> inl j -> own st' y = own st y /\ channel_of st' y = channel_of st y)
  /\ own st' (inl j) = own_lead l' /\ channel_of st' (inl j) = Some (ld_ch l').
Proof.
  intros Hj Hl Hr. assert (Hlt : (j < length (leads st))%nat) by (by eapply lookup_lt_Some).
  split_and!; [|cbn; by rewrite Hl, list_lookup_insert_eq..].
  intros [j'|i] Hne; cbn; rewrite ?Hl, ?Hr; [|done]. by rewrite list_lookup_insert_ne by congruence.
Qed.

Lemma party_spawn l : leads st' = leads st ++ [l] -> reqs st' = reqs st ->
  let x := inl (length (leads st)) in
  (forall y, y <> x -> own st' y = own st y /\ channel_of st' y = channel_of st y)
  /\ own st' x = own_lead l /\ channel_of st' x = Some (ld_ch l) /\ own st x = None /\ channel_of st x = None.
Proof.
  intros Hl Hr x. split_and!; [|cbn; by rewrite ?Hl, ?list_lookup_middle, ?lookup_ge_None_2..].
  intros [j|i] Hne; cbn; rewrite ?Hl, ?Hr; [|done]. destruct (decide (j < length (leads st))%nat).
  - by rewrite lookup_app_l.
  - rewrite !lookup_ge_None_2; [done|lia|]. rewrite length_app. cbn. assert (j <> length (leads st)) by (intros ->; done). lia.
Qed.
End parties.

Lemma own_req_same r r' : rq_phase r <> Finished -> rq_root r' = rq_root r -> rq_slot r' = rq_slot r ->
  own_req r' = None \/ own_req r' = own_req r.
Proof.
  intros Hp Hr Hs. unfold own_req. rewrite Hr, Hs. by destruct (rq_phase r') eqn:?, (rq_phase r) eqn:?; auto.
Qed.

(** A request goes on within its phases. *)
Lemma coalesced_request st st' i r r' : coalesced st -> reqs st !! i = Some r -> rq_phase r <> Finished ->
  reqs st' = <[i := r']> (reqs st) -> leads st' = leads st -> slots st' = slots st -> chans st' = chans st ->
  ready_ok (objs st') (slots st) -> Forall (made_for (objs st')) (reqs st) -> made_for (objs st') r' ->
  rq_root r' = rq_root r -> rq_slot r' = rq_slot r -> coalesced st'.
Proof.
  intros Hc Hi Hp Hr Hl Hs Hch Hready Hmade Hmade' Hroot Hslot.
  destruct (party_request st st' i r r' Hi Hr Hl) as (Hy & Ho & Hcx).
  assert (Hox : own st (inr i) = own_req r) by (cbn; by rewrite Hi).
  eapply (coalesced_shrink st st' (inr i)); [done|done|..].
  - rewrite Ho, Hox. destruct (own_req_same r r' Hp Hroot Hslot) as [->| ->]; [by left|right]. split; [done|].
    intros k ch H. rewrite Hs. by apply (own_slot _ Hc (inr i)); rewrite Hox.
  - right. rewrite Hcx, Hslot. cbn. by rewrite Hi.
  - by rewrite Hch.
  - intros y k ch _ H. rewrite Hs. by eapply own_slot.
  - by rewrite Hs.
  - rewrite Hr. by apply Forall_insert.
Qed.

Lemma got_frame i r ws st : exists r' objs', got i r ws st = set_request i r' (set_objs objs' st)
  /\ same_idents (objs st) objs' /\ (forall l, made_for l r') /\ rq_root r' = rq_root r /\ rq_slot r' = rq_slot r.
Proof.
  unfold got. pose proof (same_acquire ws (objs st)). destruct (acquire ws (objs st)) as [lease objs'].
  eexists _, _. split_and!; try done. intros l. unfold made_for, answered. cbn. by destruct (rq_slot r).
Qed.

Lemma coalesced_got st i r ws : coalesced st -> reqs st !! i = Some r -> rq_phase r <> Finished -> coalesced (got i r ws st).
Proof.
  intros Hc Hi Hp. destruct (got_frame i r ws st) as (r' & objs' & -> & Hs & Hm & Hroot & Hslot).
  eapply (coalesced_request st _ i r r'); try done;
    [eapply ready_same; [done|]; exact (ready_key _ Hc)|eapply made_same; [done|]; apply Hc].
Qed.

Lemma coalesced_look st i r : coalesced st -> reqs st !! i = Some r -> rq_phase r <> Finished -> coalesced (look_up i r st).
Proof.
  intros Hc Hi Hp. unfold look_up.
  assert (Hto : forall p, (forall l, made_for l (to_phase p r)) -> coalesced (set_request i (to_phase p r) st)).
  { intros p Hm. eapply (coalesced_request st _ i r (to_phase p r)); try done; [exact (ready_key _ Hc)|apply Hc]. }
  destruct (slots st !! rq_key r) as [[ch|ws]|]; [by apply Hto| |by apply Hto].
  destruct (reusable_for _ _ _); [by apply coalesced_got|by apply Hto].
Qed.

(** A fresh channel, taken up by a party that had none. *)
Lemma coalesced_fresh st st' x k s : coalesced st ->
  (forall y, y <> x -> own st' y = own st y /\ channel_of st' y = channel_of st y) ->
  own st' x = Some (k, length (chans st)) -> channel_of st' x = Some (length (chans st)) ->
  chans st' = chans st ++ [None] -> slots st' = <[k := Loading (length (chans st))]> s ->
  (forall y k' ch, y <> x -> own st y = Some (k', ch) -> k' <> k /\ s !! k' = Some (Loading ch)) ->
  ready_ok (objs st') s -> Forall (made_for (objs st')) (reqs st') -> coalesced st'.
Proof.
  intros Hc Hy Ho Hcx Hch Hs Hslots Hready Hmade.
  eapply (coalesced_grow st st' x k (length (chans st)) x); try done.
  - intros y Hne _. by apply Hy.
  - by rewrite Hs, lookup_insert_eq.
  - intros y _ _ H. apply (chan_valid _ Hc) in H. lia.
  - rewrite Hch, length_app. cbn. lia.
  - rewrite Hch, length_app. lia.
  - intros y k' ch Hne _ H. destruct (Hslots y k' ch Hne H) as [Hk Hl]. by rewrite Hs, lookup_insert_ne.
  - rewrite Hs. by apply ready_loading.
Qed.

Lemma coalesced_claim st i r : coalesced st -> reqs st !! i = Some r -> rq_phase r = Claim -> coalesced (claim_slot i r st).
Proof.
  intros Hc Hi Hp. assert (Hnf : rq_phase r <> Finished) by congruence. unfold claim_slot.
  set (replaced := match slots st !! rq_key r with Some (Ready ws) => _ | _ => [] end).
  set (st1 := match replaced with [] => st | _ => _ end).
  assert (H1 : st1 = st \/ (exists ws, slots st !! rq_key r = Some (Ready ws)) /\ st1 = set_slots (delete (rq_key r) (slots st)) st).
  { subst st1 replaced. destruct (slots st !! rq_key r) as [[ch|ws]|]; [by left| |by left].
    destruct (reusable_for _ _ _); [by left|]. right. eauto. }
  assert (Hkeep : forall y k' ch, own st y = Some (k', ch) -> slots st1 !! k' = Some (Loading ch)).
  { intros y k' ch H%(own_slot _ Hc). destruct H1 as [->|[[ws Hw] ->]]; [done|]. cbn. rewrite lookup_delete_ne; [done|congruence]. }
  assert (Hready : ready_ok (objs st1) (slots st1)).
  { destruct H1 as [->|[_ ->]]; [exact (ready_key _ Hc)|]. cbn. apply ready_delete. exact (ready_key _ Hc). }
  assert (Hfields : reqs st1 = reqs st /\ leads st1 = leads st /\ chans st1 = chans st /\ objs st1 = objs st)
    by (destruct H1 as [->|[_ ->]]; done).
  destruct Hfields as (Hr & Hl & Hch & Hob). clearbody st1 replaced.
  assert (Hc1 : coalesced st1).
  { eapply (coalesced_shrink st st1 (inr i)); try done.
    - intros y _. destruct y; cbn; by rewrite ?Hl, ?Hr.
    - right. split; [cbn; by rewrite Hr|]. intros k ch. apply Hkeep.
    - right. cbn. by rewrite Hr.
    - by rewrite Hch.
    - intros y k ch _. apply Hkeep.
    - rewrite Hr, Hob. apply Hc. }
  rewrite <- Hr in Hi. destruct (slots st1 !! rq_key r) as [[ch|ws]|] eqn:Es.
  - eapply (coalesced_request st1 _ i r (to_phase (Wait ch) r)); try done. apply Hc1.
  - by apply coalesced_got.
  - cbn [open_channel]. set (st2 := set_slots _ _).
    assert (Hslots : forall y k' ch, own st1 y = Some (k', ch) -> k' <> rq_key r /\ slots st1 !! k' = Some (Loading ch)).
    { intros y k' ch H%(own_slot _ Hc1). split; [congruence|done]. }
    destruct (is_worktree r) eqn:Ew.
    + set (r' := with_slot _ _ r). set (st' := set_request i r' st2).
      destruct (party_request st1 st' i r r' Hi eq_refl eq_refl) as (Hy & Ho & Hcx).
      unfold is_worktree in Ew. destruct (rq_slot r) eqn:Eslot; [by destruct (rq_base r)|].
      assert (Hkey : rq_root r = rq_key r) by (unfold rq_key; by rewrite Eslot).
      eapply (coalesced_fresh st1 st' (inr i) (rq_root r) (slots st1)); try done; [by rewrite Hkey|..].
      * intros y k' ch _. rewrite Hkey. apply Hslots.
      * apply Forall_insert; [apply Hc1|done].
    + set (l := MkLead _ _ _ _ _). set (st3 := spawn_lead l st2).
      destruct (party_spawn st1 st3 l eq_refl eq_refl) as (Hy & Ho & Hcx & _).
      assert (Hc3 : coalesced st3).
      { eapply (coalesced_fresh st1 st3 (inl (length (leads st1))) (rq_key r) (slots st1)); try done.
        - intros y k' ch _. apply Hslots.
        - apply Hc1. }
      eapply (coalesced_request st3 _ i r (to_phase (Led (length (chans st1)) []) r)); try done; [exact (ready_key _ Hc3)|apply Hc3].
Qed.

(** A slot's own party gives it up or fills it. *)
Lemma slot_of_other st x y k k' ch ch' : coalesced st -> own st x = Some (k, ch) -> own st y = Some (k', ch') -> y <> x -> k' <> k.
Proof. intros Hc Hx Hy Hne ->. by apply Hne, (own_unique st y x k ch' ch). Qed.

Lemma coalesced_gives_up st st' i r r' ch : coalesced st -> reqs st !! i = Some r -> rq_phase r <> Finished ->
  rq_slot r = Some ch -> rq_slot r' = None -> reqs st' = <[i := r']> (reqs st) -> leads st' = leads st ->
  (forall k, k <> rq_root r -> slots st' !! k = slots st !! k) -> length (chans st') = length (chans st) ->
  ready_ok (objs st') (slots st') -> Forall (made_for (objs st')) (reqs st) -> made_for (objs st') r' -> coalesced st'.
Proof.
  intros Hc Hi Hp Hslot Hnone Hr Hl Hs Hch Hready Hmade Hmade'.
  assert (Ho : own st (inr i) = Some (rq_root r, ch)).
  { cbn. rewrite Hi. cbn. unfold own_req. rewrite Hslot. by destruct (rq_phase r). }
  destruct (party_request st st' i r r' Hi Hr Hl) as (Hy & Ho' & Hcx).
  eapply (coalesced_shrink st st' (inr i)); [done|done|..|done|].
  - left. rewrite Ho'. unfold own_req. rewrite Hnone. by destruct (rq_phase r').
  - left. congruence.
  - lia.
  - intros y k ch' Hne H. rewrite Hs; [by eapply own_slot|]. eapply slot_of_other; eauto.
  - rewrite Hr. by apply Forall_insert.
Qed.

Lemma coalesced_advance st i st' : coalesced st -> advance i st = Some st' -> coalesced st'.
Proof.
  intros Hc. unfold advance. destruct (reqs st !! i) as [r|] eqn:Hi; [|done]. cbn [mbind option_bind].
  assert (Hm : made_for (objs st) r) by (by eapply (Forall_lookup_1 _ _ _ _ (made_key _ Hc))).
  destruct (rq_phase r) as [ |ch| |ids| | |ws lease bl|held| | ] eqn:Hp; try (by destruct (rq_slot r)).
  - intros [= <-]. apply coalesced_look; [done..|congruence].
  - unfold receive. destruct (chans st !! ch) as [[[]|]|]; try done; intros [= <-].
    + eapply (coalesced_request st _ i r (to_phase Look r)); try done; [congruence|exact (ready_key _ Hc)|apply Hc].
    + eapply (coalesced_request st _ i r (failed r)); try done; [congruence|exact (ready_key _ Hc)|apply Hc|].
      unfold made_for, failed. cbn. by destruct (rq_slot r).
  - intros [= <-]. by apply coalesced_claim.
  - intros [= <-]. eapply (coalesced_request st _ i r (to_phase Look r)); try done; [congruence|..].
    + eapply ready_same; [apply same_release|]. exact (ready_key _ Hc).
    + eapply made_same; [apply same_release|]. apply Hc.
  - destruct (rq_slot r) as [ch|] eqn:Hslot; [|done]. intros [= <-]. unfold made_for in Hm. rewrite Hp in Hm.
    eapply (coalesced_gives_up st _ i r (with_slot None (Holding lease) r) ch); try done; [congruence|..].
    + intros k Hk. cbn. by rewrite lookup_insert_ne.
    + cbn. by rewrite length_insert.
    + cbn. eapply ready_same; [apply same_drop|]. destruct Hm as (o & Ho & Hk).
      eapply ready_ready; [exact (ready_key _ Hc)|done|done].
    + cbn. eapply made_same; [apply same_drop|]. apply Hc.
  - destruct (rq_slot r) as [ch|] eqn:Hslot; [|done]. intros [= <-].
    eapply (coalesced_gives_up st _ i r (with_slot None Finished r) ch); try done; [congruence|..].
    + intros k Hk. cbn. by rewrite lookup_delete_ne.
    + cbn. by rewrite length_insert.
    + cbn. eapply ready_same; [apply same_drop|]. apply ready_delete. exact (ready_key _ Hc).
    + cbn. eapply made_same; [apply same_drop|]. apply Hc.
Qed.

Lemma coalesced_attach st i ok st' : coalesced st -> attach i ok st = Some st' -> coalesced st'.
Proof.
  intros Hc. unfold attach. destruct (reqs st !! i) as [r|] eqn:Hi; [|done]. cbn [mbind option_bind].
  destruct (rq_phase r) as [ | | | | |[|base bl]| | | | ] eqn:Hp; try done. destruct (rq_slot r) as [ch|] eqn:Hslot; [|done].
  destruct (objs st !! base) as [o|] eqn:Hb; [|done]. cbn [mbind option_bind].
  assert (Ho : own st (inr i) = Some (rq_root r, ch)).
  { cbn. rewrite Hi. cbn. unfold own_req. by rewrite Hslot, Hp. }
  destruct (sh_rust o); cbn [negb].
  - destruct ok.
    + destruct (acquire _ _) as [lease objs'] eqn:Ea. intros [= <-].
      assert (Hs : same_idents (with_base r base st) objs')
        by (pose proof (same_acquire (length (objs st)) (with_base r base st)) as Hs; by rewrite Ea in Hs).
      assert (Hs' : same_idents (objs st) (alter (set_attached (Z.add 1)) base (objs st))) by (by apply same_alter).
      eapply (coalesced_request st _ i r _ Hc Hi); try done; [congruence|..].
      * cbn. eapply ready_same; [exact Hs|]. apply ready_app. eapply ready_same; [exact Hs'|]. exact (ready_key _ Hc).
      * cbn. eapply made_same; [exact Hs|]. apply made_app. eapply made_same; [exact Hs'|]. apply Hc.
      * cbn. eapply key_same; [exact Hs|]. unfold with_base. rewrite lookup_app_r by (by rewrite length_alter).
        rewrite length_alter, Nat.sub_diag. by eexists.
    + intros [= <-]. eapply (coalesced_request st _ i r _ Hc Hi); try done; [congruence|exact (ready_key _ Hc)|apply Hc].
  - intros [= <-]. set (l := MkLead _ _ _ _ _). set (r' := with_slot None _ r). set (st1 := set_request i r' st).
    destruct (party_request st st1 i r r' Hi eq_refl eq_refl) as (Hy1 & Ho1 & Hc1).
    set (st2 := set_request i r' _). change st2 with (spawn_lead l st1).
    destruct (party_spawn st1 (spawn_lead l st1) l eq_refl eq_refl) as (Hy2 & Ho2 & Hc2 & Hn & Hcn).
    change (leads st1) with (leads st) in *. set (x := inl (length (leads st))) in *.
    assert (Hx : x <> inr i) by done.
    eapply (coalesced_grow st (spawn_lead l st1) x (rq_root r) ch (inr i)); try done.
    + intros y Hne Hni. destruct (Hy2 y Hne) as [-> ->]. by apply Hy1.
    + exact (own_slot _ Hc _ _ _ Ho).
    + intros y Hne Hni H. apply Hni. eapply (chan_unique _ Hc); [done|by eapply own_channel].
    + cbn. eapply (chan_valid _ Hc). by eapply own_channel.
    + intros y k ch' Hne Hni H. by eapply (own_slot _ Hc).
    + exact (ready_key _ Hc).
    + apply Forall_insert; [apply Hc|done].
Qed.

Lemma coalesced_end st i st' : coalesced st -> end_request i st = Some st' -> coalesced st'.
Proof.
  intros Hc. unfold end_request. destruct (reqs st !! i) as [r|] eqn:Hi; [|done]. cbn [mbind option_bind].
  intros H. assert (Hp : rq_phase r <> Finished) by (by intros E; rewrite E in H).
  assert (st' = set_request i (to_phase Finished r) (set_objs (drop_lease (now st) (leases r) (objs st)) st)) as ->
    by (by destruct (rq_phase r); simplify_eq).
  eapply (coalesced_request st _ i r (to_phase Finished r)); try done.
  - eapply ready_same; [apply same_drop|]. exact (ready_key _ Hc).
  - eapply made_same; [apply same_drop|]. apply Hc.
Qed.

(** A leader goes on. *)
Lemma coalesced_lead st st' j l l' : coalesced st -> leads st !! j = Some l -> leads st' = <[j := l']> (leads st) ->
  reqs st' = reqs st -> ld_ch l' = ld_ch l -> (length (chans st) = length (chans st')) ->
  own_lead l' = None \/ own_lead l' = own_lead l /\ slots st' = slots st ->
  (forall y k ch, y <> inl j -> own st y = Some (k, ch) -> slots st' !! k = Some (Loading ch)) ->
  ready_ok (objs st') (slots st') -> Forall (made_for (objs st')) (reqs st) -> coalesced st'.
Proof.
  intros Hc Hj Hl Hr Hch Hlen Hown Hslots Hready Hmade.
  destruct (party_lead st st' j l l' Hj Hl Hr) as (Hy & Ho & Hcx).
  assert (Hoj : own st (inl j) = own_lead l) by (cbn; by rewrite Hj).
  eapply (coalesced_shrink st st' (inl j)); try done; [..|by rewrite Hr].
  - rewrite Ho, Hoj. destruct Hown as [->|[-> Hs]]; [by left|right]. split; [done|].
    intros k ch H. rewrite Hs. by apply (own_slot _ Hc (inl j)); rewrite Hoj.
  - right. rewrite Hcx, Hch. cbn. by rewrite Hj.
  - lia.
Qed.

Lemma coalesced_lead_release st j st' : coalesced st -> lead_release j st = Some st' -> coalesced st'.
Proof.
  intros Hc. unfold lead_release. destruct (leads st !! j) as [l|] eqn:Hj; [|done]. cbn [mbind option_bind].
  destruct (ld_phase l) eqn:Hp; try done. intros [= <-].
  eapply (coalesced_lead st _ j l (lead_to InFlight l)); try done.
  - right. split; [|done]. unfold own_lead. cbn. by rewrite Hp.
  - intros y k ch _. apply (own_slot _ Hc).
  - eapply ready_same; [apply same_release|]. exact (ready_key _ Hc).
  - eapply made_same; [apply same_release|]. apply Hc.
Qed.

Lemma coalesced_lead_loaded st j outcome st' : coalesced st -> lead_loaded j outcome st = Some st' -> coalesced st'.
Proof.
  intros Hc. unfold lead_loaded. destruct (leads st !! j) as [l|] eqn:Hj; [|done]. cbn [mbind option_bind].
  destruct (ld_phase l) eqn:Hp; try done.
  assert (Ho : own st (inl j) = Some (ld_key l, ld_ch l)) by (cbn; rewrite Hj; cbn; unfold own_lead; by rewrite Hp).
  rewrite (own_slot _ Hc _ _ _ Ho), bool_decide_true by done. cbn [orb].
  destruct outcome as [rust|]; intros [= <-].
  - eapply (coalesced_lead st _ j l (lead_to (Answering (Some (length (objs st)))) l)); try done; [by left|..]; cbn.
    + intros y k ch Hne H. rewrite lookup_insert_ne; [by eapply own_slot|].
      symmetry. eapply (slot_of_other st (inl j) y); eauto.
    + eapply ready_ready; [apply ready_app; exact (ready_key _ Hc)| |]; [by rewrite list_lookup_middle|done].
    + apply made_app, Hc.
  - eapply (coalesced_lead st _ j l (lead_to (Answering None) l)); try done; [by left|..|apply Hc]; cbn.
    + intros y k ch Hne H. rewrite lookup_delete_ne; [by eapply own_slot|].
      symmetry. eapply (slot_of_other st (inl j) y); eauto.
    + apply ready_delete. exact (ready_key _ Hc).
Qed.

Lemma coalesced_lead_answer st j st' : coalesced st -> lead_answer j st = Some st' -> coalesced st'.
Proof.
  intros Hc. unfold lead_answer. destruct (leads st !! j) as [l|] eqn:Hj; [|done]. cbn [mbind option_bind].
  destruct (ld_phase l) as [| |result|] eqn:Hp; try done. set (st1 := set_lead j _ _).
  assert (Hc1 : coalesced st1).
  { eapply (coalesced_lead st st1 j l (lead_to Ended l)); try done; [|by left|..|exact (ready_key _ Hc)|apply Hc].
    - cbn. by rewrite length_insert.
    - intros y k ch _. apply (own_slot _ Hc). }
  unfold waiting_leader. destruct (reqs st1 !! ld_for l) as [r|] eqn:Hi; [|by intros [= <-]]. cbn [mbind option_bind].
  destruct (rq_phase r) as [ | | | |ch held| | | | | ] eqn:Hpr; try by intros [= <-].
  destruct (decide (ch = ld_ch l)); [|by intros [= <-]].
  assert (Hstep : forall r' objs', same_idents (objs st1) objs' -> (forall l, made_for l r') -> rq_root r' = rq_root r ->
            rq_slot r' = rq_slot r -> coalesced (set_request (ld_for l) r' (set_objs (drop_lease (now st1) held objs') st1))).
  { intros r' objs' Hs Hm Hroot Hslot. assert (Hs' := same_trans _ _ _ Hs (same_drop (now st1) held objs')).
    eapply (coalesced_request st1 _ (ld_for l) r r' Hc1 Hi); try done; [congruence|..].
    - eapply ready_same; [exact Hs'|]. exact (ready_key _ Hc1).
    - eapply made_same; [exact Hs'|]. apply Hc1. }
  destruct result as [ws|].
  - pose proof (same_acquire ws (objs st1)) as Hs. destruct (acquire ws (objs st1)) as [lease objs'] eqn:Ea.
    intros [= <-]. apply Hstep; try done. intros l'. unfold made_for, answered. cbn. by destruct (rq_slot r).
  - intros [= <-]. apply Hstep; try done. intros l'. unfold made_for, failed. cbn. by destruct (rq_slot r).
Qed.

(** ** The other events *)

(** The parties stay as they are. *)
Lemma coalesced_frame st st' : coalesced st -> (forall y, own st' y = own st y /\ channel_of st' y = channel_of st y) ->
  chans st' = chans st -> (forall k ch, slots st !! k = Some (Loading ch) -> slots st' !! k = Some (Loading ch)) ->
  ready_ok (objs st') (slots st') -> Forall (made_for (objs st')) (reqs st') -> coalesced st'.
Proof.
  intros Hc Hy Hch Hs Hready Hmade. apply (coalesced_shrink st st' (inl O)); try done.
  - right. split; [apply Hy|]. intros k ch H. by apply Hs, (own_slot _ Hc (inl O)).
  - right. apply Hy.
  - by rewrite Hch.
  - intros y k ch _ H. by apply Hs, (own_slot _ Hc y).
Qed.

Lemma party_new st st' r : reqs st' = reqs st ++ [r] -> leads st' = leads st -> rq_slot r = None ->
  forall y, own st' y = own st y /\ channel_of st' y = channel_of st y.
Proof.
  intros Hr Hl Hn [j|i]; cbn; rewrite ?Hl, ?Hr; [done|]. destruct (decide (i < length (reqs st))%nat).
  - by rewrite lookup_app_l.
  - destruct (decide (i = length (reqs st))) as [->|Hne].
    + rewrite list_lookup_middle, lookup_ge_None_2 by lia. cbn. unfold own_req. rewrite Hn. by destruct (rq_phase r).
    + rewrite !lookup_ge_None_2; [done|lia|]. rewrite length_app. cbn. lia.
Qed.

Lemma coalesced_ahead st root engine base : coalesced st -> coalesced (load_ahead root engine base st).
Proof.
  intros Hc. unfold load_ahead. set (request := fun p => MkSt (objs st) (slots st) (chans st) (reqs st ++ [MkRequest root engine None None p]) (leads st) (releasing st) (now st)).
  assert (Hreq : forall p, (forall l, made_for l (MkRequest root engine None None p)) -> coalesced (request p)).
  { intros p Hm. apply (coalesced_frame st); try done; [by apply (party_new st _ (MkRequest root engine None None p))|exact (ready_key _ Hc)|].
    cbn. apply Forall_app. split; [apply Hc|]. by constructor. }
  destruct (_ || _) eqn:Ep; [by apply Hreq|]. apply orb_false_iff in Ep as [_ Ep].
  assert (Hno : forall ch, slots st !! root <> Some (Loading ch)) by (intros ch H; by rewrite H in Ep).
  set (replaced := match slots st !! root with Some (Ready ws) => _ | _ => [] end). cbn [open_channel].
  set (st0 := request Look). assert (Hc0 : coalesced st0) by (by apply Hreq).
  set (l := MkLead _ _ _ _ _). set (st1 := spawn_lead l _).
  destruct (party_spawn st0 st1 l eq_refl eq_refl) as (Hy & Ho & Hcx & _).
  assert (Hc1 : coalesced st1).
  { eapply (coalesced_fresh st0 st1 (inl (length (leads st0))) root (slots st0)); try done; [|exact (ready_key _ Hc0)|apply Hc0].
    intros y k ch _ H%(own_slot _ Hc0). split; [|done]. intros ->. by eapply Hno. }
  eapply (coalesced_request st1 _ (length (reqs st)) (MkRequest root engine None None Look) _ Hc1); try done.
  - cbn. by rewrite list_lookup_middle.
  - exact (ready_key _ Hc1).
  - apply Hc1.
Qed.

Lemma deletes_lookup {A : Type} (f : A -> path) (l : list A) (s : slot_map) k :
  foldl (fun m e => delete (f e) m) s l !! k = if bool_decide (k ∈ map f l) then None else s !! k.
Proof.
  revert s. induction l as [|x l IH]; intros s; [done|]. cbn [foldl map]. rewrite IH.
  destruct (decide (k = f x)) as [->|Hne].
  - rewrite lookup_delete_eq. rewrite (bool_decide_true (f x ∈ f x :: map f l)) by left. by destruct (bool_decide _).
  - rewrite lookup_delete_ne by done. destruct (decide (k ∈ map f l)).
    + rewrite !bool_decide_true; [done|by right|done].
    + rewrite !bool_decide_false; [done|by intros [?|?]%elem_of_cons|done].
Qed.

Lemma elem_of_ready_ids st i : i ∈ ready_ids st <-> exists k, slots st !! k = Some (Ready i).
Proof.
  unfold ready_ids. rewrite list_elem_of_omap. split.
  - intros ([k [ch|ws]] & Hin & E); simplify_eq/=. exists k. by apply elem_of_map_to_list.
  - intros [k H]. exists (k, Ready i). split; [by apply elem_of_map_to_list|done].
Qed.

(** What is taken out was ready, and goes out under its own key. *)
Lemma take_out_slots st ids k : coalesced st -> (forall i, i ∈ ids -> i ∈ ready_ids st) ->
  slots (take_out ids st) !! k
  = match slots st !! k with Some (Ready i) => if bool_decide (i ∈ ids) then None else Some (Ready i) | s => s end.
Proof.
  intros Hc Hids. unfold take_out. cbn. rewrite (deletes_lookup id). rewrite map_id.
  assert (Hk : k ∈ omap (fun i => sh_key <$> objs st !! i) ids <-> exists i, slots st !! k = Some (Ready i) /\ i ∈ ids).
  { rewrite list_elem_of_omap. split.
    - intros (i & Hi & E). destruct (proj1 (elem_of_ready_ids st i) (Hids i Hi)) as [k' Hk'].
      destruct (ready_key _ Hc k' i Hk') as (o & Ho & <-). rewrite Ho in E. injection E as <-. eauto.
    - intros (i & H & Hi). destruct (ready_key _ Hc k i H) as (o & Ho & <-). exists i. by rewrite Ho. }
  destruct (slots st !! k) as [[ch|i]|] eqn:E.
  - rewrite bool_decide_false; [done|]. intros (i & H & _)%Hk. congruence.
  - destruct (decide (i ∈ ids)).
    + rewrite !bool_decide_true; [done|done|]. apply Hk. eauto.
    + rewrite !bool_decide_false; [done|done|]. intros (i' & H & Hi')%Hk. congruence.
  - by destruct (bool_decide _).
Qed.

Lemma coalesced_take_out st ids : coalesced st -> (forall i, i ∈ ids -> i ∈ ready_ids st) -> coalesced (take_out ids st).
Proof.
  intros Hc Hids. apply (coalesced_frame st); try done.
  - intros k ch H. rewrite take_out_slots by done. by rewrite H.
  - intros k ws H. rewrite take_out_slots in H by done. apply (ready_key _ Hc).
    destruct (slots st !! k) as [[|i]|]; try done. by destruct (bool_decide _).
  - apply Hc.
Qed.

Lemma take_until_sub free excess freed ids i : i ∈ take_until free excess freed ids -> i ∈ ids.
Proof.
  revert freed. induction ids as [|x ids IH]; intros freed; [done|]. cbn. destruct (freed <? excess); [|by intros ?%not_elem_of_nil].
  intros [->|H]%elem_of_cons; [left|right; eauto].
Qed.
Lemma reclaim_pick_sub reserve excess loading st l i : i ∈ reclaim_pick reserve excess loading st l -> i ∈ l.
Proof. intros H%take_until_sub. rewrite sort_by_perm in H. by apply list_elem_of_filter in H as [_ H]. Qed.

Lemma coalesced_remove_idle st pick : coalesced st -> (forall l i, i ∈ pick l -> i ∈ l) -> coalesced (remove_idle pick st).
Proof. intros Hc Hp. apply coalesced_take_out; [done|]. by intros i [_ H]%Hp%list_elem_of_filter. Qed.

Lemma coalesced_unload st prefix : coalesced st -> coalesced (unload_under prefix st).
Proof.
  intros Hc. unfold unload_under. set (taken := omap _ _).
  assert (Ht : forall k i, (k, i) ∈ taken -> slots st !! k = Some (Ready i)).
  { intros k i ([k' [ch|ws]] & Hin & E)%list_elem_of_omap; unfold ready_under in E; cbn in E; [done|].
    destruct (path_starts_with k' prefix); [|done]. injection E as -> ->. by apply elem_of_map_to_list. }
  apply (coalesced_frame st); try done.
  - intros k ch H. cbn. rewrite (deletes_lookup fst). rewrite bool_decide_false; [done|].
    intros Hin. apply list_elem_of_In, in_map_iff in Hin as ([k' i] & <- & Hin%list_elem_of_In). apply Ht in Hin. cbn in H. congruence.
  - intros k ws. cbn. rewrite (deletes_lookup fst). destruct (bool_decide _); [done|]. apply (ready_key _ Hc).
  - apply Hc.
Qed.

Lemma coalesced_step e st st' : coalesced st -> step e st = Some st' -> coalesced st'.
Proof.
  intros Hc. destruct e; cbn [step].
  - intros [= <-]. apply (coalesced_frame st); try done; [by apply (party_new st _ (new_request root engine base))|exact (ready_key _ Hc)|].
    cbn. apply Forall_app. split; [apply Hc|by constructor].
  - intros [= <-]. by apply coalesced_ahead.
  - by apply coalesced_advance.
  - by apply coalesced_attach.
  - by apply coalesced_end.
  - by apply coalesced_lead_release.
  - by apply coalesced_lead_loaded.
  - by apply coalesced_lead_answer.
  - intros [= <-]. apply coalesced_remove_idle; [done|]. by intros l i [_ H]%list_elem_of_filter.
  - intros [= <-]. apply coalesced_remove_idle; [done|]. intros l i. apply reclaim_pick_sub.
  - intros [= <-]. by apply coalesced_unload.
  - unfold release_next. destruct (releasing st !! k) as [ids|]; [|done]. intros [= <-].
    apply (coalesced_frame st); try done; cbn.
    + eapply ready_same; [apply same_release|]. exact (ready_key _ Hc).
    + eapply made_same; [apply same_release|]. apply Hc.
  - intros [= <-]. assert (Hs : same_idents (objs st) (alter (set_flags false false dead changed validation) i (objs st))) by (by apply same_alter).
    apply (coalesced_frame st); try done; cbn.
    + eapply ready_same; [exact Hs|]. exact (ready_key _ Hc).
    + eapply made_same; [exact Hs|]. apply Hc.
  - intros [= <-]. apply (coalesced_frame st); try done; [exact (ready_key _ Hc)|apply Hc].
Qed.

Lemma coalesced_start : coalesced start.
Proof. split; try done; intros []; done. Qed.

Lemma run_preserves (J : St -> Prop) events st st' :
  (forall e st st', J st -> step e st = Some st' -> J st') -> J st -> run events st = Some st' -> J st'.
Proof.
  intros Hstep. revert st. induction events as [|e events IH]; intros st HJ; cbn; [by intros [= <-]|].
  destruct (step e st) as [st1|] eqn:E; [|done]. cbn. apply IH. by eapply Hstep.
Qed.

(** C26: Whatever the order of requests, loads, failures, cancellations and unloads, at most one
    party works on loading a root, and the map says so: two that do are the same and the root's
    slot is marked as loading with its channel, on which everybody who asks meanwhile waits.
    Every ready slot holds a workspace of its own root. *)
Theorem one_load_per_root (events : list Ev) (st : St) :
  run events start = Some st ->
  (forall x y k ch ch', own st x = Some (k, ch) -> own st y = Some (k, ch') -> x = y)
  /\ (forall x k ch, own st x = Some (k, ch) -> slots st !! k = Some (Loading ch))
  /\ (forall k ws, slots st !! k = Some (Ready ws) -> exists o, objs st !! ws = Some o /\ sh_key o = k).
Proof.
  intros Hrun. assert (Hc : coalesced st) by (eapply (run_preserves coalesced); [apply coalesced_step|apply coalesced_start|done]).
  split_and!; [intros x y k ch ch'; by apply own_unique|apply Hc|apply Hc].
Qed.
