(* ===== verification/ManagerProgress.v ===== *)
(** * Nobody waits in vain

    As long as no request is dropped while it leads a worktree's slot, and a worktree's base is
    no worktree itself, whoever waits for a workspace waits for a party whose next step is
    possible. *)

From stdpp Require Import gmap.
From S2P Require Import Prelude RustStr Fs NodeDisk Manager ManagerLoads.

Section progress.
(** What [split_worktree_base] says of a root; a base is no worktree. *)
Context (base_of : path -> option path).
Context (flat : forall root b, base_of root = Some b -> b <> root -> base_of b = None \/ base_of b = Some b).

(** The root a channel is for, and who serves it. *)
Definition party (st : St) (x : nat + nat) : option (path * nat) :=
  match x with
  | inl j => l ← leads st !! j; Some (ld_key l, ld_ch l)
  | inr i => r ← reqs st !! i; ch ← rq_slot r; Some (rq_root r, ch)
  end.
Definition busy (st : St) (x : nat + nat) (ch : nat) : Prop :=
  match x with
  | inl j => exists l, leads st !! j = Some l /\ ld_ch l = ch /\ ld_phase l <> Ended
  | inr i => exists r, reqs st !! i = Some r /\ rq_slot r = Some ch /\ rq_phase r <> Finished
  end.

Definition phase_ok (st : St) (i : nat) (r : Request) : Prop :=
  match rq_phase r with
  | Wait ch => (ch < length (chans st))%nat /\ forall x k, party st x = Some (k, ch) -> k = rq_key r
  | Led ch _ => exists j l, leads st !! j = Some l /\ ld_ch l = ch /\ ld_for l = i /\ ld_phase l <> Ended
  | Replace _ | Withdraw _ | Publish _ _ _ => is_Some (rq_slot r)
  | Attach lease => is_Some (rq_slot r) /\ exists b l, lease = b :: l /\ (b < length (objs st))%nat
  | Holding _ | Finished => rq_slot r = None
  | Look | Claim => True
  end.

Definition request_ok (st : St) (i : nat) (r : Request) : Prop :=
  phase_ok st i r
  /\ (is_Some (rq_slot r) -> is_Some (rq_base r))
  /\ forall b, rq_base r = Some b -> base_of (rq_root r) = Some b /\ b <> rq_root r.

(** The workspace a leader answers with exists. *)
Definition answer_ok (n : nat) (l : Lead) : Prop := match ld_phase l with Answering (Some ws) => (ws < n)%nat | _ => True end.

Lemma answers_mono n n' ls : (n <= n')%nat -> Forall (answer_ok n) ls -> Forall (answer_ok n') ls.
Proof.
  intros Hn H. eapply Forall_impl; [exact H|]. intros l. unfold answer_ok. destruct (ld_phase l) as [| |[]|]; try done. lia.
Qed.

Record answerable (st : St) : Prop := {
  requests_ok : forall i r, reqs st !! i = Some r -> request_ok st i r;
  pending_busy : forall ch, chans st !! ch = Some None -> exists x, busy st x ch;
  loading_owned : forall k ch, slots st !! k = Some (Loading ch) -> exists x, own st x = Some (k, ch);
  answers_exist : Forall (answer_ok (length (objs st))) (leads st);
}.

(** An event that keeps to the two conditions. *)
Definition tame (st : St) (e : Ev) : Prop :=
  match e with
  | Asked root _ base => base = base_of root
  | Ends i => forall r, reqs st !! i = Some r -> rq_slot r = None
  | _ => True
  end.

(** ** Who can go on *)

Definition lead_events (j : nat) : list Ev := [LeadReleases j; LeadLoads j None; LeadAnswers j].

(** [e] is a step of request [i], or of the party it waits for. *)
Inductive helps (st : St) : nat -> Ev -> Prop :=
| helps_advance i : helps st i (Advance i)
| helps_attach i : helps st i (Attached i true)
| helps_lead i r ch held j l e :
    reqs st !! i = Some r -> rq_phase r = Wait ch \/ rq_phase r = Led ch held ->
    leads st !! j = Some l -> ld_ch l = ch -> e ∈ lead_events j -> helps st i e
| helps_leader i r ch i' r' e :
    reqs st !! i = Some r -> rq_phase r = Wait ch -> reqs st !! i' = Some r' -> rq_slot r' = Some ch ->
    helps st i' e -> helps st i e.

Lemma lead_goes_on st j l : leads st !! j = Some l -> ld_phase l <> Ended ->
  exists e, e ∈ lead_events j /\ is_Some (step e st).
Proof.
  intros Hj Hp. destruct (ld_phase l) as [ids| |result|] eqn:E; [..|done].
  - exists (LeadReleases j). split; [left|]. cbn. unfold lead_release. rewrite Hj. cbn. rewrite E. by eexists.
  - exists (LeadLoads j None). split; [right; left|]. cbn. unfold lead_loaded. rewrite Hj. cbn. rewrite E. by eexists.
  - exists (LeadAnswers j). split; [right; right; left|]. cbn. unfold lead_answer. rewrite Hj. cbn. rewrite E.
    destruct (waiting_leader _ _) as [[r held]|]; [|by eexists]. destruct result; by eexists.
Qed.

Lemma busy_party st x ch : busy st x ch -> exists k, party st x = Some (k, ch).
Proof.
  destruct x as [j|i]; cbn.
  - intros (l & -> & <- & _). by eexists.
  - intros (r & -> & Hs & _). cbn. rewrite Hs. by eexists.
Qed.

(** A leading request that waits waits for a leader: its base is no worktree. *)
Lemma leading_waits st i r ch x : answerable st -> reqs st !! i = Some r -> is_Some (rq_slot r) ->
  rq_phase r = Wait ch -> busy st x ch -> exists j, x = inl j.
Proof.
  intros Ha Hi [s Hs] Hp Hb. destruct x as [j|i']; [by eexists|exfalso].
  destruct (requests_ok _ Ha i r Hi) as (Hph & Hsb & Hbase). unfold phase_ok in Hph. rewrite Hp in Hph.
  destruct (Hsb (mk_is_Some _ _ Hs)) as [b Hb']. destruct (Hbase b Hb') as [Hof Hne].
  destruct Hb as (r' & Hi' & Hs' & _). destruct (requests_ok _ Ha i' r' Hi') as (_ & Hsb' & Hbase').
  destruct (Hsb' (mk_is_Some _ _ Hs')) as [b'' Hb'']. destruct (Hbase' b'' Hb'') as [Hof' Hne'].
  assert (rq_root r' = b) as Hroot.
  { destruct Hph as [_ Hk]. rewrite (Hk (inr i') (rq_root r')); [|cbn; rewrite Hi'; cbn; by rewrite Hs'].
    unfold rq_key. by rewrite Hs, Hb'. }
  rewrite Hroot in *. destruct (flat _ _ Hof Hne); congruence.
Qed.

(** What a request does by itself. *)
Lemma self_goes_on st i r : answerable st -> reqs st !! i = Some r ->
  match rq_phase r with Holding _ | Finished | Led _ _ | Wait _ => False | _ => True end ->
  exists e, helps st i e /\ is_Some (step e st).
Proof.
  intros Ha Hi Hp. destruct (requests_ok _ Ha i r Hi) as (Hph & _). unfold phase_ok in Hph.
  destruct (rq_phase r) as [ | | |ids| |lease|ws lease bl|held| | ] eqn:E; try done;
    try (exists (Advance i); split; [constructor|]; cbn; unfold advance; rewrite Hi; cbn; rewrite E; by eexists).
  - destruct Hph as ([ch Hs] & b & l & -> & Hb). exists (Attached i true). split; [constructor|]. cbn. unfold attach.
    rewrite Hi. cbn. rewrite E, Hs. destruct (objs st !! b) as [o|] eqn:Eo; [|apply lookup_ge_None in Eo; lia]. cbn.
    destruct (sh_rust o); cbn; by eexists.
  - destruct Hph as [ch Hs]. exists (Advance i). split; [constructor|]. cbn. unfold advance. rewrite Hi. cbn. rewrite E, Hs. by eexists.
  - destruct Hph as [ch Hs]. exists (Advance i). split; [constructor|]. cbn. unfold advance. rewrite Hi. cbn. rewrite E, Hs. by eexists.
Qed.

Lemma waits_for_lead st i r ch held j : answerable st -> reqs st !! i = Some r ->
  rq_phase r = Wait ch \/ rq_phase r = Led ch held -> busy st (inl j) ch ->
  exists e, helps st i e /\ is_Some (step e st).
Proof.
  intros Ha Hi Hp (l & Hj & Hch & Hl). destruct (lead_goes_on st j l Hj Hl) as (e & He & Hs).
  exists e. split; [|done]. by eapply helps_lead.
Qed.

Lemma goes_on st i r : answerable st -> reqs st !! i = Some r ->
  match rq_phase r with Holding _ | Finished => False | _ => True end ->
  exists e, helps st i e /\ is_Some (step e st).
Proof.
  intros Ha Hi Hp. destruct (requests_ok _ Ha i r Hi) as (Hph & _). unfold phase_ok in Hph.
  destruct (rq_phase r) as [ |ch| | |ch held| | | | | ] eqn:E; try done;
    try (apply (self_goes_on st i r Ha Hi); by rewrite E).
  - destruct Hph as [Hlt _]. destruct (lookup_lt_is_Some_2 _ _ Hlt) as [v Hv].
    assert (Hgo : v <> None -> exists e, helps st i e /\ is_Some (step e st)).
    { intros Hn. exists (Advance i). split; [constructor|]. cbn. unfold advance. rewrite Hi. cbn. rewrite E. unfold receive.
      rewrite Hv. destruct v as [[]|]; [by eexists..|done]. }
    destruct v as [b|]; [by apply Hgo|]. destruct (pending_busy _ Ha ch Hv) as [[j|i'] Hb].
    { apply (waits_for_lead st i r ch [] j); auto. }
    destruct Hb as (r' & Hi' & Hs' & Hp').
    assert (exists e, helps st i' e /\ is_Some (step e st)) as (e & He & Hst).
    { destruct (requests_ok _ Ha i' r' Hi') as (Hph' & _). unfold phase_ok in Hph'.
      destruct (rq_phase r') as [ |ch'| | |ch' held| | | | | ] eqn:E'; try congruence;
        try (apply (self_goes_on st i' r' Ha Hi'); by rewrite E').
      - destruct Hph' as [Hlt' _]. destruct (lookup_lt_is_Some_2 _ _ Hlt') as [v Hv'].
        destruct v as [b|].
        + exists (Advance i'). split; [constructor|]. cbn. unfold advance. rewrite Hi'. cbn. rewrite E'. unfold receive.
          rewrite Hv'. destruct b; by eexists.
        + destruct (pending_busy _ Ha ch' Hv') as [x Hx].
          destruct (leading_waits st i' r' ch' x Ha Hi' (mk_is_Some _ _ Hs') E' Hx) as [j ->].
          apply (waits_for_lead st i' r' ch' [] j); auto.
      - destruct Hph' as (j & l & Hj & Hc & _ & Hl). apply (waits_for_lead st i' r' ch' held j); [done..|by right|by exists l]. }
    exists e. split; [|done]. by eapply helps_leader.
  - destruct Hph as (j & l & Hj & Hc & _ & Hl). apply (waits_for_lead st i r ch held j); [done..|by right|by exists l].
Qed.

(** ** Preservation *)

Lemma party_channel st x k ch : party st x = Some (k, ch) -> channel_of st x = Some ch.
Proof.
  destruct x as [j|i]; cbn; [destruct (leads st !! j)|destruct (reqs st !! i) as [r|]]; cbn; try done.
  - by intros [= <- <-].
  - destruct (rq_slot r); [|done]. by intros [= <- <-].
Qed.
Lemma own_party st x k ch : own st x = Some (k, ch) -> party st x = Some (k, ch).
Proof.
  destruct x as [j|i]; cbn; [destruct (leads st !! j) as [l|]|destruct (reqs st !! i) as [r|]]; cbn; try done.
  - unfold own_lead. by destruct (ld_phase l).
  - unfold own_req. by destruct (rq_phase r).
Qed.
Lemma own_busy st x k ch : own st x = Some (k, ch) -> busy st x ch.
Proof.
  destruct x as [j|i]; cbn; [destruct (leads st !! j) as [l|]|destruct (reqs st !! i) as [r|]]; cbn; try done.
  - unfold own_lead. intros H. exists l. destruct (ld_phase l); simplify_eq; done.
  - unfold own_req. intros H. exists r. destruct (rq_phase r), (rq_slot r); simplify_eq/=; done.
Qed.

(** A channel that was open before belongs to whom it belonged. *)
Definition old_parties (st st' : St) : Prop := forall x k ch,
  (ch < length (chans st))%nat -> party st' x = Some (k, ch) -> exists y, party st y = Some (k, ch).

Definition leads_live (st st' : St) (i : nat) (r : Request) : Prop := forall held j l,
  rq_phase r = Led (ld_ch l) held -> leads st !! j = Some l -> ld_for l = i -> ld_phase l <> Ended ->
  exists l', leads st' !! j = Some l' /\ ld_ch l' = ld_ch l /\ ld_for l' = i /\ ld_phase l' <> Ended.

Lemma request_ok_frame st st' i r : request_ok st i r -> (length (chans st) <= length (chans st'))%nat ->
  (length (objs st) <= length (objs st'))%nat -> old_parties st st' -> leads_live st st' i r -> request_ok st' i r.
Proof.
  intros (Hp & Hs & Hb) Hch Hob Hold Hlive. split; [|done]. unfold phase_ok, leads_live in *. destruct (rq_phase r); try done.
  - destruct Hp as [Hlt Hk]. split; [lia|]. intros x k H. destruct (Hold x k ch Hlt H) as [y Hy]. by apply (Hk y).
  - destruct Hp as (j & l & Hj & <- & <- & Hl). destruct (Hlive _ j l eq_refl Hj eq_refl Hl) as (l' & ? & ? & ? & ?). by exists j, l'.
  - destruct Hp as (H & b & l & -> & Hl). split; [done|]. exists b, l. split; [done|lia].
Qed.

Lemma waits_key st k ch : coalesced st -> answerable st -> slots st !! k = Some (Loading ch) ->
  (ch < length (chans st))%nat /\ forall x k', party st x = Some (k', ch) -> k' = k.
Proof.
  intros Hc Ha Hs. destruct (loading_owned _ Ha k ch Hs) as [y Hy]. split; [by eapply chan_valid, own_channel|].
  intros x k' Hx. assert (x = y) as -> by (eapply chan_unique; [done|by eapply party_channel|by eapply own_channel]).
  apply own_party in Hy. congruence.
Qed.

(** A request goes on within its phases. *)
Lemma ans_request st st' i r r' : answerable st -> reqs st !! i = Some r -> rq_phase r <> Finished ->
  reqs st' = <[i := r']> (reqs st) -> leads st' = leads st -> chans st' = chans st -> slots st' = slots st ->
  (length (objs st) <= length (objs st'))%nat ->
  rq_root r' = rq_root r -> rq_slot r' = rq_slot r -> rq_base r' = rq_base r -> phase_ok st' i r' -> answerable st'.
Proof.
  intros Ha Hi Hp Hr Hl Hch Hs Hob Hroot Hslot Hbase Hph.
  assert (Hlt : (i < length (reqs st))%nat) by (by eapply lookup_lt_Some).
  assert (Hfin : rq_phase r' = Finished -> rq_slot r = None) by (intros E; unfold phase_ok in Hph; rewrite E in Hph; congruence).
  assert (Hparty : forall x, party st' x = party st x).
  { intros [j|i']; cbn; rewrite ?Hl, ?Hr; [done|]. destruct (decide (i = i')) as [<-|Hne]; [|by rewrite list_lookup_insert_ne].
    rewrite list_lookup_insert_eq by done. rewrite Hi. cbn. by rewrite Hslot, Hroot. }
  split.
  - intros i' r0. rewrite Hr. intros [(<- & <- & _)|(Hne & H)]%list_lookup_insert_Some.
    + destruct (requests_ok _ Ha i r Hi) as (_ & H1 & H2). split; [done|]. by rewrite Hslot, Hbase, Hroot.
    + apply (request_ok_frame st); [by apply Ha|by rewrite Hch|done|intros x k ch _; rewrite Hparty; by exists x|].
      intros held j l _ Hj E Hl'. exists l. by rewrite Hl.
  - intros ch H. rewrite Hch in H. destruct (pending_busy _ Ha ch H) as [[j|i'] Hb]; [exists (inl j); cbn; by rewrite Hl|].
    exists (inr i'). destruct Hb as (r0 & H0 & H1 & H2). cbn. rewrite Hr. destruct (decide (i = i')) as [<-|Hne].
    + exists r'. rewrite list_lookup_insert_eq by done. assert (r0 = r) as -> by congruence. split_and!; [done|congruence|].
      intros E. apply Hfin in E. congruence.
    + exists r0. by rewrite list_lookup_insert_ne.
  - intros k ch H. rewrite Hs in H. destruct (loading_owned _ Ha k ch H) as [[j|i'] Ho]; [exists (inl j); cbn in *; by rewrite Hl|].
    exists (inr i'). cbn in *. rewrite Hr. destruct (decide (i = i')) as [<-|Hne]; [|by rewrite list_lookup_insert_ne].
    rewrite list_lookup_insert_eq by done. rewrite Hi in Ho. cbn in *. unfold own_req in *. rewrite Hslot, Hroot.
    destruct (rq_phase r) eqn:?, (rq_phase r') eqn:?; try done; rewrite Hfin in Ho by done; done.
  - rewrite Hl. eapply answers_mono; [exact Hob|apply Ha].
Qed.

Lemma base_chain_head l i : (i < length l)%nat -> exists xs, base_chain l i = i :: xs.
Proof.
  intros H. unfold base_chain. cbn. destruct (l !! i) eqn:E; [by eexists|]. apply lookup_ge_None in E. lia.
Qed.

(** The lease a request is handed begins with the workspace. *)
Lemma answered_ok st' i r ws objs0 : (ws < length objs0)%nat -> (length objs0 <= length (objs st'))%nat ->
  (is_Some (rq_slot r) -> is_Some (rq_base r)) -> phase_ok st' i (answered (acquire ws objs0).1 r).
Proof.
  intros Hw Hl Hs. destruct (base_chain_head objs0 ws Hw) as [xs E]. unfold phase_ok, answered, acquire. cbn [fst]. rewrite E. cbn.
  destruct (rq_slot r); cbn; [|done]. split; [done|]. exists ws, xs. split; [done|lia].
Qed.

Lemma ans_got st i r ws : coalesced st -> answerable st -> reqs st !! i = Some r -> rq_phase r <> Finished ->
  (exists k, slots st !! k = Some (Ready ws)) -> answerable (got i r ws st).
Proof.
  intros Hc Ha Hi Hp [k Hk]. destruct (ready_key _ Hc k ws Hk) as (o & Ho & _). apply lookup_lt_Some in Ho as Hw.
  destruct (requests_ok _ Ha i r Hi) as (_ & Hsb & _).
  unfold got. pose proof (same_length _ _ (same_acquire ws (objs st))) as Hlen.
  pose proof (fun st' Hl => answered_ok st' i r ws (objs st) Hw Hl Hsb) as Hph.
  destruct (acquire ws (objs st)) as [lease objs'] eqn:Ea. cbn [fst snd] in *.
  eapply (ans_request st _ i r (answered lease r)); try done; cbn; [by rewrite Hlen|]. apply Hph. cbn. by rewrite Hlen.
Qed.

Lemma ans_to st i r p : answerable st -> reqs st !! i = Some r -> rq_phase r <> Finished ->
  phase_ok st i (to_phase p r) -> answerable (set_request i (to_phase p r) st).
Proof.
  intros Ha Hi Hp Hph. apply (ans_request st _ i r (to_phase p r)); try done. cbn.
  unfold phase_ok in *. cbn in *. destruct p; try done.
  - destruct Hph as [H1 H2]. split; [done|]. intros x k Hx. apply (H2 x). rewrite <- Hx.
    destruct x as [j|i']; cbn; [done|]. destruct (decide (i = i')) as [<-|Hne]; [|by rewrite list_lookup_insert_ne].
    rewrite list_lookup_insert_eq by (by eapply lookup_lt_Some). by rewrite Hi.
Qed.

Lemma ans_look st i r : coalesced st -> answerable st -> reqs st !! i = Some r -> rq_phase r <> Finished -> answerable (look_up i r st).
Proof.
  intros Hc Ha Hi Hp. unfold look_up. destruct (slots st !! rq_key r) as [[ch|ws]|] eqn:Es.
  - apply ans_to; try done. by apply (waits_key st).
  - destruct (reusable_for _ _ _); [apply ans_got; eauto|by apply ans_to].
  - by apply ans_to.
Qed.

(** The requests after a step: those it changes, and the others. *)
Lemma requests_frame st st' : answerable st -> (length (chans st) <= length (chans st'))%nat ->
  (length (objs st) <= length (objs st'))%nat -> old_parties st st' ->
  (forall i r, reqs st' !! i = Some r -> request_ok st' i r \/ (reqs st !! i = Some r /\ leads_live st st' i r)) ->
  forall i r, reqs st' !! i = Some r -> request_ok st' i r.
Proof.
  intros Ha Hch Hob Hold Hr i r Hi. destruct (Hr i r Hi) as [H|[H Hl]]; [done|].
  apply (request_ok_frame st); try done. by apply Ha.
Qed.

Lemma leads_live_refl st st' i r : leads st' = leads st -> leads_live st st' i r.
Proof. intros E held j l _ Hj Hf Hp. exists l. by rewrite E. Qed.
Lemma leads_live_app st st' i r l : leads st' = leads st ++ [l] -> leads_live st st' i r.
Proof. intros E held j l' _ Hj Hf Hp. exists l'. rewrite E. split; [by apply lookup_app_l_Some|done]. Qed.

(** A slot's own request gives it up: what it sends closes its channel. *)
Lemma ans_gives_up st st' i r r' ch ok : coalesced st -> answerable st -> reqs st !! i = Some r -> rq_phase r <> Finished ->
  rq_slot r = Some ch -> reqs st' = <[i := r']> (reqs st) -> leads st' = leads st ->
  chans st' = <[ch := Some ok]> (chans st) -> (forall k, k <> rq_root r -> slots st' !! k = slots st !! k) ->
  (forall ch', slots st' !! rq_root r <> Some (Loading ch')) -> length (objs st') = length (objs st) ->
  rq_slot r' = None -> rq_base r' = rq_base r -> rq_root r' = rq_root r ->
  match rq_phase r' with Holding _ | Finished => True | _ => False end -> answerable st'.
Proof.
  intros Hc Ha Hi Hp Hslot Hr Hl Hch Hs Hno Hob Hnone Hbase Hroot Hph.
  assert (Hlt : (i < length (reqs st))%nat) by (by eapply lookup_lt_Some).
  assert (Hx : channel_of st (inr i) = Some ch) by (cbn; by rewrite Hi).
  assert (Hother : forall i', i <> i' -> reqs st' !! i' = reqs st !! i') by (intros; by rewrite Hr, list_lookup_insert_ne).
  split.
  - apply (requests_frame st); [done|by rewrite Hch, length_insert|by rewrite Hob|..].
    + intros [j|i'] k ch' _; cbn; rewrite ?Hl; [by exists (inl j)|]. destruct (decide (i = i')) as [<-|Hne].
      * rewrite Hr, list_lookup_insert_eq by done. cbn. by rewrite Hnone.
      * rewrite Hother by done. by exists (inr i').
    + intros i' r0. rewrite Hr. intros [(<- & <- & _)|(Hne & H)]%list_lookup_insert_Some; [left|right; split; [done|by apply leads_live_refl]].
      destruct (requests_ok _ Ha i r Hi) as (_ & _ & H2). split_and!; [|rewrite Hnone; by intros []|by rewrite Hbase, Hroot].
      unfold phase_ok. by destruct (rq_phase r').
  - intros ch' H. rewrite Hch in H. apply list_lookup_insert_Some in H as [(_ & [=] & _)|[Hne H]].
    destruct (pending_busy _ Ha ch' H) as [[j|i'] Hb]; [exists (inl j); cbn; by rewrite Hl|].
    exists (inr i'). cbn in *. rewrite Hother; [done|]. intros <-. destruct Hb as (r0 & H0 & H1 & _). congruence.
  - intros k ch' H. destruct (decide (k = rq_root r)) as [->|Hk]; [by apply Hno in H|]. rewrite Hs in H by done.
    destruct (loading_owned _ Ha k ch' H) as [[j|i'] Ho]; [exists (inl j); cbn in *; by rewrite Hl|].
    exists (inr i'). cbn in *. rewrite Hother; [done|]. intros <-. rewrite Hi in Ho. cbn in Ho. unfold own_req in Ho.
    rewrite Hslot in Ho. destruct (rq_phase r); simplify_eq/=; done.
  - rewrite Hl, Hob. apply Ha.
Qed.

(** A party takes up an empty slot with a fresh channel. *)
Lemma ans_fresh st st' k : coalesced st -> answerable st -> chans st' = chans st ++ [None] ->
  (length (objs st) <= length (objs st'))%nat ->
  (forall k', k' <> k -> slots st' !! k' = slots st !! k') -> slots st' !! k = Some (Loading (length (chans st))) ->
  (forall x k' ch, (ch < length (chans st))%nat -> party st' x = Some (k', ch) -> party st x = Some (k', ch)) ->
  (forall x ch, busy st x ch -> busy st' x ch) -> (forall x k' ch, own st x = Some (k', ch) -> own st' x = Some (k', ch)) ->
  (exists x, own st' x = Some (k, length (chans st))) ->
  (forall i r, reqs st' !! i = Some r -> request_ok st' i r \/ (reqs st !! i = Some r /\ leads_live st st' i r)) ->
  Forall (answer_ok (length (objs st))) (leads st') -> answerable st'.
Proof.
  intros Hc Ha Hch Hob Hs Hk Hold Hbusy Hown [x Hx] Hr Hans. split; [| | |by eapply answers_mono].
  - apply (requests_frame st); [done|rewrite Hch, length_app; lia|done| |done]. intros y k' ch Hlt H. exists y. by apply Hold.
  - intros ch H. rewrite Hch in H. apply lookup_app_Some in H as [H|[Hge H]].
    + destruct (pending_busy _ Ha ch H) as [y Hy]. exists y. by apply Hbusy.
    + exists x. apply list_lookup_singleton_Some in H as [E _]. replace ch with (length (chans st)) by lia. by eapply own_busy.
  - intros k' ch H. destruct (decide (k' = k)) as [->|Hne].
    + exists x. rewrite Hx. congruence.
    + rewrite Hs in H by done. destruct (loading_owned _ Ha k' ch H) as [y Hy]. exists y. by apply Hown.
Qed.

(** Slots that are not loading come and go. *)
Lemma ans_slots st s' objs' : answerable st -> (forall k ch, s' !! k = Some (Loading ch) -> slots st !! k = Some (Loading ch)) ->
  length objs' = length (objs st) -> forall rel t, answerable (MkSt objs' s' (chans st) (reqs st) (leads st) rel t).
Proof.
  intros Ha Hs Hob rel t. split; cbn.
  - intros i r Hi. apply (request_ok_frame st); cbn; [by apply Ha|done|lia|by intros x k ch _ H; exists x|by apply leads_live_refl].
  - apply Ha.
  - intros k ch H. by apply (loading_owned _ Ha), Hs.
  - rewrite Hob. apply Ha.
Qed.

Section claim.
Context (st : St) (i : nat) (r : Request).
Hypotheses (Hc : coalesced st) (Ha : answerable st) (Hi : reqs st !! i = Some r) (Hp : rq_phase r = Claim).

Let opened : St := set_slots (<[rq_key r := Loading (length (chans st))]> (slots st)) (open_channel st).2.

(** A worktree takes its slot. *)
Lemma ans_claim_worktree ids : is_worktree r = true ->
  answerable (set_request i (with_slot (Some (length (chans st))) (Replace ids) r) opened).
Proof.
  intros Hw. unfold is_worktree in Hw. destruct (rq_base r) as [b|] eqn:Eb; [|done]. destruct (rq_slot r) eqn:Es; [done|].
  assert (Hlt : (i < length (reqs st))%nat) by (by eapply lookup_lt_Some).
  assert (Hkey : rq_key r = rq_root r) by (unfold rq_key; by rewrite Es).
  set (r' := with_slot _ _ r). apply (ans_fresh st _ (rq_key r) Hc Ha); cbn; try done.
  - intros k' Hne. by rewrite lookup_insert_ne.
  - by rewrite lookup_insert_eq.
  - intros [j|i'] k' ch Hch; cbn; [done|]. destruct (decide (i = i')) as [<-|Hne]; [|by rewrite list_lookup_insert_ne].
    rewrite list_lookup_insert_eq by done. cbn. intros [= _ <-]. lia.
  - intros [j|i'] ch; cbn; [done|]. intros (r0 & H0 & H1 & H2). exists r0. rewrite list_lookup_insert_ne; [done|]. intros <-. congruence.
  - intros [j|i'] k' ch; cbn; [done|]. destruct (decide (i = i')) as [<-|Hne]; [|by rewrite list_lookup_insert_ne].
    rewrite Hi. cbn. unfold own_req. by rewrite Hp, Es.
  - exists (inr i). cbn. rewrite list_lookup_insert_eq by done. cbn. by rewrite Hkey.
  - intros i' r0 [(<- & <- & _)|(Hne & H)]%list_lookup_insert_Some; [left|right; split; [done|by apply leads_live_refl]].
    destruct (requests_ok _ Ha i r Hi) as (_ & _ & H2). split_and!; [by eexists|intros _; cbn; rewrite Eb; by eexists|exact H2].
  - apply Ha.
Qed.

(** A load of its own is spawned. *)
Lemma ans_claim_direct ids :
  answerable (set_request i (to_phase (Led (length (chans st)) []) r)
    (spawn_lead (MkLead (rq_key r) (rq_engine r) (length (chans st)) i (Releasing ids)) opened)).
Proof.
  assert (Hlt : (i < length (reqs st))%nat) by (by eapply lookup_lt_Some). set (r' := to_phase _ r). set (l := MkLead _ _ _ _ _).
  apply (ans_fresh st _ (rq_key r) Hc Ha); cbn; try done.
  - intros k' Hne. by rewrite lookup_insert_ne.
  - by rewrite lookup_insert_eq.
  - intros [j|i'] k' ch Hch; cbn.
    + destruct (leads st !! j) as [l0|] eqn:Ej; [by rewrite (lookup_app_l_Some _ _ _ _ Ej)|].
      rewrite lookup_app_r by (by apply lookup_ge_None). destruct (_ - _)%nat; cbn; [intros [= _ <-]; lia|done].
    + destruct (decide (i = i')) as [<-|Hne]; [|by rewrite list_lookup_insert_ne].
      rewrite list_lookup_insert_eq by done. by rewrite Hi.
  - intros [j|i'] ch; cbn.
    + intros (l0 & H0 & H). exists l0. split; [by apply lookup_app_l_Some|done].
    + intros (r0 & H0 & H1 & H2). destruct (decide (i = i')) as [<-|Hne]; [|exists r0; by rewrite list_lookup_insert_ne].
      exists r'. rewrite list_lookup_insert_eq by done. assert (r0 = r) as -> by congruence. done.
  - intros [j|i'] k' ch; cbn.
    + destruct (leads st !! j) as [l0|] eqn:Ej; [by rewrite (lookup_app_l_Some _ _ _ _ Ej)|done].
    + destruct (decide (i = i')) as [<-|Hne]; [|by rewrite list_lookup_insert_ne].
      rewrite list_lookup_insert_eq by done. rewrite Hi. cbn. unfold own_req. by rewrite Hp.
  - exists (inl (length (leads st))). cbn. by rewrite list_lookup_middle.
  - intros i' r0 [(<- & <- & _)|(Hne & H)]%list_lookup_insert_Some; [left|right; split; [done|by eapply leads_live_app]].
    destruct (requests_ok _ Ha i r Hi) as (_ & H1 & H2). split; [|done]. unfold phase_ok. cbn.
    exists (length (leads st)), l. by rewrite list_lookup_middle.
  - apply Forall_app. split; [apply Ha|by constructor].
Qed.
End claim.

Lemma ans_claim st i r : coalesced st -> answerable st -> reqs st !! i = Some r -> rq_phase r = Claim -> answerable (claim_slot i r st).
Proof.
  intros Hc Ha Hi Hp. unfold claim_slot.
  set (replaced := match slots st !! rq_key r with Some (Ready ws) => _ | _ => [] end).
  set (st1 := match replaced with [] => st | _ => _ end).
  assert (H1 : coalesced st1 /\ answerable st1 /\ reqs st1 = reqs st).
  { subst st1 replaced. destruct (slots st !! rq_key r) as [[ch|ws]|] eqn:E; [done| |done]. destruct (reusable_for _ _ _); [done|].
    split_and!; [|apply (ans_slots st); [done| |done]; by intros k ch [_ H]%lookup_delete_Some|done].
    apply (coalesced_frame st); try done.
    - intros k ch H. cbn. rewrite lookup_delete_ne; [done|congruence].
    - apply ready_delete. exact (ready_key _ Hc).
    - apply Hc. }
  destruct H1 as (Hc1 & Ha1 & Hr). rewrite <- Hr in Hi. clearbody st1 replaced.
  assert (Hnf : rq_phase r <> Finished) by congruence. destruct (slots st1 !! rq_key r) as [[ch|ws]|] eqn:Es.
  - apply ans_to; try done. by apply (waits_key st1).
  - apply ans_got; eauto.
  - cbn [open_channel]. destruct (is_worktree r) eqn:Ew; [by apply ans_claim_worktree|by apply ans_claim_direct].
Qed.

Lemma ans_advance st i st' : coalesced st -> answerable st -> advance i st = Some st' -> answerable st'.
Proof.
  intros Hc Ha. unfold advance. destruct (reqs st !! i) as [r|] eqn:Hi; [|done]. cbn [mbind option_bind].
  destruct (requests_ok _ Ha i r Hi) as (Hph & _).
  destruct (rq_phase r) as [ |ch| |ids| | |ws lease bl|held| | ] eqn:Hp; try (by destruct (rq_slot r)).
  - intros [= <-]. apply ans_look; [done..|congruence].
  - unfold receive. destruct (chans st !! ch) as [[[]|]|]; try done; intros [= <-].
    + apply ans_to; [done..|congruence|done].
    + apply ans_to; [done..|congruence|]. unfold phase_ok. cbn. destruct (rq_slot r) eqn:E; cbn; rewrite ?E; [by eexists|done].
  - intros [= <-]. by apply ans_claim.
  - intros [= <-]. eapply (ans_request st _ i r (to_phase Look r)); try done; [congruence|].
    cbn. by rewrite (same_length _ _ (same_release ids (objs st))).
  - destruct (rq_slot r) as [ch|] eqn:Hslot; [|done]. intros [= <-].
    eapply (ans_gives_up st _ i r (with_slot None (Holding lease) r) ch true); try done; [congruence|..]; cbn.
    + intros k Hk. by rewrite lookup_insert_ne.
    + intros ch'. by rewrite lookup_insert_eq.
    + by rewrite (same_length _ _ (same_drop _ _ _)).
  - destruct (rq_slot r) as [ch|] eqn:Hslot; [|done]. intros [= <-].
    eapply (ans_gives_up st _ i r (with_slot None Finished r) ch false); try done; [congruence|..]; cbn.
    + intros k Hk. by rewrite lookup_delete_ne.
    + intros ch'. by rewrite lookup_delete_eq.
    + by rewrite (same_length _ _ (same_drop _ _ _)).
Qed.

(** The slot passes from a request to the leader it spawns. *)
Lemma ans_handed_over st i r ch held : answerable st -> reqs st !! i = Some r -> rq_slot r = Some ch -> rq_phase r <> Finished ->
  answerable (set_request i (with_slot None (Led ch held) r)
    (spawn_lead (MkLead (rq_root r) (rq_engine r) ch i (Releasing [])) st)).
Proof.
  intros Ha Hi Hslot Hp. assert (Hlt : (i < length (reqs st))%nat) by (by eapply lookup_lt_Some).
  set (r' := with_slot None _ r). set (l := MkLead _ _ _ _ _). set (st' := set_request _ _ _).
  assert (Hold : old_parties st st').
  { intros [j|i'] k ch' _; cbn.
    - destruct (leads st !! j) as [l0|] eqn:Ej; [rewrite (lookup_app_l_Some _ _ _ _ Ej); intros H; exists (inl j); cbn; by rewrite Ej|].
      rewrite lookup_app_r by (by apply lookup_ge_None). destruct (_ - _)%nat; cbn; [|done].
      intros [= <- <-]. exists (inr i). cbn. rewrite Hi. cbn. by rewrite Hslot.
    - destruct (decide (i = i')) as [<-|Hne]; [rewrite list_lookup_insert_eq by done; done|].
      rewrite list_lookup_insert_ne by done. by exists (inr i'). }
  split.
  - apply (requests_frame st); [done..|]. intros i' r0 [(<- & <- & _)|(Hne & H)]%list_lookup_insert_Some;
      [left|right; split; [done|by eapply leads_live_app]].
    destruct (requests_ok _ Ha i r Hi) as (_ & _ & H2). split_and!; [|by intros []|done]. unfold phase_ok. cbn.
    exists (length (leads st)), l. by rewrite list_lookup_middle.
  - intros ch' H. destruct (pending_busy _ Ha ch' H) as [[j|i'] Hb]; cbn in Hb.
    + destruct Hb as (l0 & H0 & H1). exists (inl j), l0. split; [by apply lookup_app_l_Some|done].
    + destruct (decide (i = i')) as [<-|Hne].
      * destruct Hb as (r0 & H0 & H1 & _). exists (inl (length (leads st))), l. cbn. rewrite list_lookup_middle by done.
        split_and!; [done| |done]. cbn. congruence.
      * exists (inr i'). cbn. by rewrite list_lookup_insert_ne.
  - intros k ch' H. destruct (loading_owned _ Ha k ch' H) as [[j|i'] Ho]; cbn in Ho.
    + exists (inl j). cbn. destruct (leads st !! j) as [l0|] eqn:Ej; [|done]. by rewrite (lookup_app_l_Some _ _ _ _ Ej).
    + destruct (decide (i = i')) as [<-|Hne]; [|exists (inr i'); cbn; by rewrite list_lookup_insert_ne].
      exists (inl (length (leads st))). cbn. rewrite list_lookup_middle by done. cbn.
      rewrite Hi in Ho. cbn in Ho. unfold own_req in Ho. rewrite Hslot in Ho. by destruct (rq_phase r).
  - cbn. apply Forall_app. split; [apply Ha|by constructor].
Qed.

Lemma ans_attach st i ok st' : coalesced st -> answerable st -> attach i ok st = Some st' -> answerable st'.
Proof.
  intros Hc Ha. unfold attach. destruct (reqs st !! i) as [r|] eqn:Hi; [|done]. cbn [mbind option_bind].
  destruct (rq_phase r) as [ | | | | |[|base bl]| | | | ] eqn:Hp; try done. destruct (rq_slot r) as [ch|] eqn:Hslot; [|done].
  destruct (objs st !! base) as [o|] eqn:Hb; [|done]. cbn [mbind option_bind].
  destruct (sh_rust o); cbn [negb].
  - destruct ok.
    + pose proof (same_length _ _ (same_acquire (length (objs st)) (with_base r base st))) as Hlen.
      destruct (acquire _ _) as [lease objs'] eqn:Ea. intros [= <-]. unfold with_base in Hlen. cbn [snd] in Hlen. rewrite length_app, length_alter in Hlen.
      eapply (ans_request st _ i r (to_phase (Publish (length (objs st)) lease (base :: bl)) r)); try done; cbn;
        [congruence|lia|by rewrite Hslot; eexists].
    + intros [= <-]. apply ans_to; [done..|congruence|]. unfold phase_ok. cbn. rewrite Hslot. by eexists.
  - intros [= <-]. apply ans_handed_over; [done..|congruence].
Qed.

Lemma ans_end st i st' : answerable st -> tame st (Ends i) -> end_request i st = Some st' -> answerable st'.
Proof.
  intros Ha Ht. unfold end_request. destruct (reqs st !! i) as [r|] eqn:Hi; [|done]. cbn [mbind option_bind].
  intros H. assert (Hp : rq_phase r <> Finished) by (by intros E; rewrite E in H).
  assert (st' = set_request i (to_phase Finished r) (set_objs (drop_lease (now st) (leases r) (objs st)) st)) as ->
    by (by destruct (rq_phase r); simplify_eq).
  eapply (ans_request st _ i r (to_phase Finished r)); try done; cbn.
  - by rewrite (same_length _ _ (same_drop _ _ _)).
  - by apply Ht.
Qed.

(** ** Leaders *)

Section leader.
Context (st st' : St) (j : nat) (l l' : Lead).
Hypotheses (Ha : answerable st) (Hj : leads st !! j = Some l) (Hl : leads st' = <[j := l']> (leads st))
  (Hkey : ld_key l' = ld_key l) (Hch : ld_ch l' = ld_ch l) (Hfor : ld_for l' = ld_for l).

Lemma lead_parties : (forall i, reqs st' !! i = reqs st !! i \/
    exists r r', reqs st !! i = Some r /\ reqs st' !! i = Some r' /\ rq_slot r' = rq_slot r /\ rq_root r' = rq_root r) ->
  forall x, party st' x = party st x.
Proof.
  intros Hr [j'|i]; cbn.
  - rewrite Hl. destruct (decide (j = j')) as [<-|Hne]; [|by rewrite list_lookup_insert_ne].
    rewrite list_lookup_insert_eq by (by eapply lookup_lt_Some). rewrite Hj. cbn. by rewrite Hkey, Hch.
  - destruct (Hr i) as [->|(r & r' & -> & -> & Hs & Hrt)]; [done|]. cbn. by rewrite Hs, Hrt.
Qed.

(** It goes on without ending: the requests do not see it. *)
Lemma ans_lead : ld_phase l' <> Ended -> reqs st' = reqs st -> chans st' = chans st -> (length (objs st) <= length (objs st'))%nat ->
  (forall k ch, slots st' !! k = Some (Loading ch) -> slots st !! k = Some (Loading ch) /\ (own st (inl j) = Some (k, ch) -> own_lead l' = own_lead l)) ->
  answer_ok (length (objs st')) l' -> answerable st'.
Proof.
  intros Hp Hr Hchs Hob Hs Hans. pose proof (lookup_lt_Some _ _ _ Hj) as Hlt.
  assert (Hparty := lead_parties (fun i => or_introl (f_equal (fun m => m !! i) Hr))). split.
  - apply (requests_frame st); [done|by rewrite Hchs|done|intros x k ch _; rewrite Hparty; by exists x|].
    intros i r Hi. right. rewrite Hr in Hi. split; [done|]. intros held j0 l0 Hph H0 Hf Hp0. rewrite Hl.
    destruct (decide (j = j0)) as [<-|Hne]; [|exists l0; by rewrite list_lookup_insert_ne].
    exists l'. rewrite list_lookup_insert_eq by done. assert (l0 = l) as -> by congruence. split_and!; congruence.
  - intros ch H. rewrite Hchs in H. destruct (pending_busy _ Ha ch H) as [[j0|i] Hb]; [|exists (inr i); cbn; by rewrite Hr].
    exists (inl j0). cbn in *. rewrite Hl. destruct (decide (j = j0)) as [<-|Hne]; [|by rewrite list_lookup_insert_ne].
    exists l'. rewrite list_lookup_insert_eq by done. destruct Hb as (l0 & H0 & <- & _). split_and!; [done|congruence|done].
  - intros k ch H. destruct (Hs k ch H) as [H0 Hsame]. destruct (loading_owned _ Ha k ch H0) as [[j0|i] Ho]; [|exists (inr i); cbn in *; by rewrite Hr].
    exists (inl j0). cbn in *. rewrite Hl. destruct (decide (j = j0)) as [<-|Hne]; [|by rewrite list_lookup_insert_ne].
    rewrite list_lookup_insert_eq by done. cbn. rewrite Hsame by done. by rewrite Hj in Ho.
  - rewrite Hl. apply Forall_insert; [|done]. eapply answers_mono; [exact Hob|apply Ha].
Qed.
End leader.

Lemma ans_lead_release st j st' : answerable st -> lead_release j st = Some st' -> answerable st'.
Proof.
  intros Ha. unfold lead_release. destruct (leads st !! j) as [l|] eqn:Hj; [|done]. cbn [mbind option_bind].
  destruct (ld_phase l) eqn:Hp; try done. intros [= <-].
  eapply (ans_lead st _ j l (lead_to InFlight l)); try done; cbn.
  - by rewrite (same_length _ _ (same_release _ _)).
  - intros k ch H. split; [done|]. intros _. unfold own_lead. cbn. by rewrite Hp.
Qed.

Lemma ans_lead_loaded st j outcome st' : coalesced st -> answerable st -> lead_loaded j outcome st = Some st' -> answerable st'.
Proof.
  intros Hc Ha. unfold lead_loaded. destruct (leads st !! j) as [l|] eqn:Hj; [|done]. cbn [mbind option_bind].
  destruct (ld_phase l) eqn:Hp; try done.
  assert (Ho : own st (inl j) = Some (ld_key l, ld_ch l)) by (cbn; rewrite Hj; cbn; unfold own_lead; by rewrite Hp).
  rewrite (own_slot _ Hc _ _ _ Ho), bool_decide_true by done. cbn [orb].
  destruct outcome as [rust|]; intros [= <-].
  - eapply (ans_lead st _ j l (lead_to (Answering (Some (length (objs st)))) l)); try done; cbn [set_lead set_slots set_objs slots objs].
    + rewrite length_app. lia.
    + intros k ch [[_ [=]]|[Hne H]]%lookup_insert_Some. split; [done|]. rewrite Ho. congruence.
    + unfold answer_ok. cbn. rewrite length_app. cbn. lia.
  - eapply (ans_lead st _ j l (lead_to (Answering None) l)); try done; cbn [set_lead set_slots set_objs slots objs].
    intros k ch [Hne H]%lookup_delete_Some. split; [done|]. rewrite Ho. congruence.
Qed.

(** A leader ends: its channel is closed, and its request, if it waits, goes on. *)
Lemma ans_ended st st' j l ok : coalesced st -> answerable st -> leads st !! j = Some l -> own_lead l = None ->
  leads st' = <[j := lead_to Ended l]> (leads st) -> chans st' = <[ld_ch l := Some ok]> (chans st) -> slots st' = slots st ->
  length (objs st') = length (objs st) ->
  (forall i r, reqs st !! i = Some r ->
     exists r', reqs st' !! i = Some r' /\ rq_slot r' = rq_slot r /\ rq_root r' = rq_root r
       /\ (r' = r /\ (i = ld_for l -> forall held, rq_phase r <> Led (ld_ch l) held)
           \/ request_ok st' i r' /\ rq_phase r <> Finished)) ->
  (forall i r', reqs st' !! i = Some r' -> is_Some (reqs st !! i)) -> answerable st'.
Proof.
  intros Hc Ha Hj Ho Hl Hch Hs Hob Hreq Hback. pose proof (lookup_lt_Some _ _ _ Hj) as Hlt.
  assert (Hparty : forall x, party st' x = party st x).
  { apply (lead_parties st st' j l (lead_to Ended l) Hj Hl eq_refl eq_refl). intros i.
    destruct (reqs st !! i) as [r|] eqn:Hi; [|left; destruct (reqs st' !! i) as [r'|] eqn:Hi'; [|done]; destruct (Hback i r' Hi'); congruence].
    destruct (Hreq i r Hi) as (r' & H1 & H2 & H3 & _). right. by exists r, r'. }
  split.
  - apply (requests_frame st); [done|by rewrite Hch, length_insert|by rewrite Hob|intros x k ch _; rewrite Hparty; by exists x|].
    intros i r' Hi'. destruct (Hback i r' Hi') as [r Hi]. destruct (Hreq i r Hi) as (r'' & H1 & _ & _ & [[-> Hne]|[Hok _]]).
    + right. assert (r' = r) as -> by congruence. split; [done|]. intros held j0 l0 Hph H0 Hf Hp0. exists l0. rewrite Hl.
      rewrite list_lookup_insert_ne; [done|]. intros <-. assert (l0 = l) as -> by congruence. by eapply Hne.
    + left. congruence.
  - intros ch H. rewrite Hch in H. apply list_lookup_insert_Some in H as [(_ & [=] & _)|[Hne H]].
    destruct (pending_busy _ Ha ch H) as [[j0|i] Hb].
    + exists (inl j0). destruct Hb as (l0 & H0 & H1 & H2). exists l0. rewrite Hl, list_lookup_insert_ne; [done|]. intros <-. congruence.
    + destruct Hb as (r & Hi & Hsl & Hp). destruct (Hreq i r Hi) as (r' & H1 & H2 & _ & H3). exists (inr i), r'.
      split_and!; [done|congruence|]. destruct H3 as [[-> _]|[(Hph & _) _]]; [done|]. intros E. unfold phase_ok in Hph.
      rewrite E in Hph. congruence.
  - intros k ch H. rewrite Hs in H. destruct (loading_owned _ Ha k ch H) as [[j0|i] Ho0].
    + exists (inl j0). cbn in *. rewrite Hl, list_lookup_insert_ne; [done|]. intros <-. rewrite Hj in Ho0. cbn in Ho0. congruence.
    + exists (inr i). cbn in *. destruct (reqs st !! i) as [r|] eqn:Hi; [|done]. destruct (Hreq i r Hi) as (r' & -> & H2 & H3 & H4). cbn in *.
      destruct H4 as [[-> _]|[(Hph & _) Hp]]; [done|]. destruct (own_req_same r r' Hp H3 H2) as [E|E]; [|congruence].
      exfalso. unfold own_req in E, Ho0. unfold phase_ok in Hph. rewrite H2 in E. destruct (rq_slot r) as [c|] eqn:Er.
      * destruct (rq_phase r') eqn:?; try discriminate E. congruence.
      * by destruct (rq_phase r).
  - rewrite Hl, Hob. apply Forall_insert; [apply Ha|done].
Qed.

Lemma ans_lead_answer st j st' : coalesced st -> answerable st -> lead_answer j st = Some st' -> answerable st'.
Proof.
  intros Hc Ha. unfold lead_answer. destruct (leads st !! j) as [l|] eqn:Hj; [|done]. cbn [mbind option_bind].
  destruct (ld_phase l) as [| |result|] eqn:Hp; try done. set (ok := match result with Some _ => true | None => false end).
  assert (Hown : own_lead l = None) by (unfold own_lead; by rewrite Hp).
  assert (Hans : answer_ok (length (objs st)) l) by (by eapply (Forall_lookup_1 _ _ _ _ (answers_exist _ Ha))).
  set (st1 := set_lead j _ _). destruct (waiting_leader l st1) as [[r held]|] eqn:Ew.
  - unfold waiting_leader in Ew. change (reqs st1) with (reqs st) in Ew. destruct (reqs st !! ld_for l) as [r0|] eqn:Hi; [|done]. cbn in Ew.
    destruct (rq_phase r0) as [ | | | |ch0 held0| | | | | ] eqn:Hpr; try done. destruct (decide (ch0 = ld_ch l)) as [->|]; [|done]. injection Ew as -> ->.
    destruct (requests_ok _ Ha _ _ Hi) as (_ & Hsb & Hbase).
    assert (Hgo : forall r' objs', length objs' = length (objs st) -> rq_root r' = rq_root r -> rq_slot r' = rq_slot r -> rq_base r' = rq_base r ->
              (forall st', length (objs st') = length (objs st) -> phase_ok st' (ld_for l) r') ->
              answerable (set_request (ld_for l) r' (set_objs (drop_lease (now st1) held objs') st1))).
    { intros r' objs' Hlen Hroot Hslot Hb Hph. assert (Hlt : (ld_for l < length (reqs st))%nat) by (by eapply lookup_lt_Some).
      assert (Hdl : length (drop_lease (now st1) held objs') = length (objs st)) by (rewrite (same_length _ _ (same_drop _ _ _)); done).
      eapply (ans_ended st _ j l ok Hc Ha Hj Hown); try done; cbn.
      - intros i r1 Hi1. destruct (decide (i = ld_for l)) as [->|Hne].
        + exists r'. rewrite list_lookup_insert_eq by done. assert (r1 = r) as -> by congruence. split_and!; [done..|]. right.
          split; [|congruence]. split; [by apply Hph|]. by rewrite Hslot, Hb, Hroot.
        + exists r1. rewrite list_lookup_insert_ne by done. split_and!; [done..|]. left. split; [done|]. by intros ->.
      - intros i r1 H. destruct (decide (i = ld_for l)) as [->|Hne]; [by eexists|]. rewrite list_lookup_insert_ne in H by done. by eexists. }
    destruct result as [ws|].
    + unfold answer_ok in Hans. rewrite Hp in Hans. change (objs st1) with (objs st).
      pose proof (same_length _ _ (same_acquire ws (objs st))) as Hlen.
      pose proof (fun st' Hl => answered_ok st' (ld_for l) r ws (objs st) Hans Hl Hsb) as Hph.
      destruct (acquire ws (objs st)) as [lease objs']. cbn in Hlen, Hph. intros [= <-]. apply Hgo; try done.
      intros st0 Hl0. apply Hph. by rewrite Hl0.
    + intros [= <-]. apply Hgo; try done. intros st0 _. unfold phase_ok, failed. cbn. destruct (rq_slot r) eqn:E; cbn; rewrite ?E; [by eexists|done].
  - intros [= <-]. eapply (ans_ended st st1 j l ok Hc Ha Hj Hown); try done; cbn.
    + intros i r Hi. exists r. split_and!; [done..|]. left. split; [done|]. intros -> held E. unfold waiting_leader in Ew.
      change (reqs st1) with (reqs st) in Ew. rewrite Hi in Ew. cbn in Ew. rewrite E in Ew. by rewrite decide_True in Ew.
Qed.

(** ** The other events *)

Lemma ans_new st r : answerable st -> rq_slot r = None -> (forall b, rq_base r = Some b -> base_of (rq_root r) = Some b /\ b <> rq_root r) ->
  match rq_phase r with Look | Finished => True | _ => False end ->
  answerable (MkSt (objs st) (slots st) (chans st) (reqs st ++ [r]) (leads st) (releasing st) (now st)).
Proof.
  intros Ha Hslot Hbase Hph. set (st' := MkSt _ _ _ _ _ _ _).
  pose proof (party_new st st' r eq_refl eq_refl Hslot) as Hnew. split.
  - apply (requests_frame st); [done..| |].
    + intros [j|i] k ch _ H; [by exists (inl j)|]. cbn in H. destruct (reqs st !! i) as [r0|] eqn:Hi.
      * rewrite (lookup_app_l_Some _ _ _ _ Hi) in H. exists (inr i). cbn. by rewrite Hi.
      * rewrite lookup_app_r in H by (by apply lookup_ge_None). destruct (_ - _)%nat; cbn in H; [by rewrite Hslot in H|done].
    + intros i r0. cbn. intros [H|[_ H]]%lookup_app_Some; [right; split; [done|by apply leads_live_refl]|left].
      apply list_lookup_singleton_Some in H as [_ <-]. split_and!; [|rewrite Hslot; by intros []|done].
      unfold phase_ok. by destruct (rq_phase r).
  - intros ch H. destruct (pending_busy _ Ha ch H) as [[j|i] Hb]; [by exists (inl j)|]. exists (inr i). destruct Hb as (r0 & H0 & H1).
    exists r0. split; [by apply lookup_app_l_Some|done].
  - intros k ch H. destruct (loading_owned _ Ha k ch H) as [x Ho]. exists x. destruct (Hnew x) as [-> _]. done.
  - apply Ha.
Qed.

Lemma ans_ahead st root engine base : coalesced st -> answerable st -> answerable (load_ahead root engine base st).
Proof.
  intros Hc Ha. unfold load_ahead.
  set (request := fun p => MkSt (objs st) (slots st) (chans st) (reqs st ++ [MkRequest root engine None None p]) (leads st) (releasing st) (now st)).
  destruct (_ || _) eqn:Ep; [by apply (ans_new st (MkRequest root engine None None Finished))|]. apply orb_false_iff in Ep as [_ Ep].
  set (replaced := match slots st !! root with Some (Ready ws) => _ | _ => [] end). cbn [open_channel].
  (* the same as a request that claims an empty slot *)
  set (r := MkRequest root engine None None Claim).
  set (st0 := MkSt (objs st) (delete root (slots st)) (chans st) (reqs st ++ [r]) (leads st) (releasing st) (now st)).
  assert (H0 : coalesced st0 /\ answerable st0).
  { assert (Hno : forall ch, slots st !! root <> Some (Loading ch)) by (intros ch H; by rewrite H in Ep). split.
    - apply (coalesced_frame st); try done; cbn.
      + by apply (party_new st _ r).
      + intros k ch H. rewrite lookup_delete_ne; [done|]. intros <-. by eapply Hno.
      + apply ready_delete. exact (ready_key _ Hc).
      + apply Forall_app. split; [apply Hc|by constructor].
    - pose proof (ans_new st (MkRequest root engine None None Look) Ha eq_refl (fun b H => ltac:(discriminate H)) I) as Ha1.
      assert (Ha2 := ans_to _ (length (reqs st)) _ Claim Ha1 ltac:(cbn; by rewrite list_lookup_middle) ltac:(done) I).
      pose proof (ans_slots _ (delete root (slots st)) (objs st) Ha2) as Ha3.
      assert (E : <[length (reqs st) := r]> (reqs st ++ [MkRequest root engine None None Look]) = reqs st ++ [r]).
      { rewrite insert_app_r_alt by done. by rewrite Nat.sub_diag. }
      cbn in Ha3. change (to_phase Claim (MkRequest root engine None None Look)) with r in Ha3. rewrite E in Ha3.
      apply Ha3; [|done]. by intros k ch [_ H]%lookup_delete_Some. }
  destruct H0 as [Hc0 Ha0].
  assert (Hi0 : reqs st0 !! length (reqs st) = Some r) by (cbn; by rewrite list_lookup_middle).
  pose proof (ans_claim_direct st0 (length (reqs st)) r Hc0 Ha0 Hi0 eq_refl replaced) as H.
  unfold set_request, spawn_lead, set_slots in H. cbn in H.
  rewrite insert_delete_eq in H. unfold set_request, spawn_lead, set_slots. cbn.
  rewrite insert_app_r_alt in H by done. rewrite insert_app_r_alt by done. rewrite Nat.sub_diag in *. exact H.
Qed.

Lemma take_out_loading st ids k ch : slots (take_out ids st) !! k = Some (Loading ch) -> slots st !! k = Some (Loading ch).
Proof. unfold take_out. cbn. rewrite (deletes_lookup id). by destruct (bool_decide _). Qed.

Lemma ans_step e st st' : coalesced st -> answerable st -> tame st e -> step e st = Some st' -> answerable st'.
Proof.
  intros Hc Ha Ht. destruct e; cbn [step].
  - intros [= <-]. apply (ans_new st (new_request root engine base)); try done. intros b. unfold new_request. cbn in *.
    destruct base as [b0|]; [|done]. destruct (bool_decide _ && _) eqn:E; [|done]. intros [= ->].
    apply andb_true_iff in E as [_ E]. apply negb_true_iff, bool_decide_eq_false in E. by rewrite <- Ht.
  - intros [= <-]. by apply ans_ahead.
  - by apply ans_advance.
  - by apply ans_attach.
  - by apply ans_end.
  - by apply ans_lead_release.
  - by apply ans_lead_loaded.
  - by apply ans_lead_answer.
  - intros [= <-]. apply (ans_slots st); [done| |done]. intros k ch. apply take_out_loading.
  - intros [= <-]. apply (ans_slots st); [done| |done]. intros k ch. apply take_out_loading.
  - intros [= <-]. apply (ans_slots st); [done| |done]. intros k ch.
    unfold unload_under, hand_over, set_slots. cbn [slots]. rewrite (deletes_lookup fst). by destruct (bool_decide _).
  - unfold release_next. destruct (releasing st !! k) as [ids|]; [|done]. intros [= <-].
    apply (ans_slots st); [done..|]. apply same_length, same_release.
  - intros [= <-]. apply (ans_slots st); [done..|]. apply length_alter.
  - intros [= <-]. by apply (ans_slots st).
Qed.

Lemma ans_start : answerable start.
Proof. split; done. Qed.

(** Every event of a run keeps to the conditions. *)
Fixpoint tame_run (events : list Ev) (st : St) : Prop :=
  match events with
  | [] => True
  | e :: events' => tame st e /\ match step e st with Some st' => tame_run events' st' | None => True end
  end.

Lemma ans_run events st st' : coalesced st -> answerable st -> tame_run events st -> run events st = Some st' ->
  answerable st'.
Proof.
  revert st. induction events as [|e events IH]; intros st Hc Ha; cbn; [by intros _ [= <-]|]. intros [Ht Hrest].
  destruct (step e st) as [st1|] eqn:E; [|done]. cbn. apply IH; [by eapply coalesced_step|by eapply ans_step|done].
Qed.
End progress.

