(* ===== verification/ManagerLeases.v ===== *)
(** * What is in use is not unloaded to make room

    In any order of events a workspace's count of sessions is the number of leases on it, and
    its count of worktrees the number of overlays attached to it; so what [remove_idle] takes is
    in nobody's hands.  What it takes for memory are the workspaces unused for longest, and no
    more of them than needed. *)

From stdpp Require Import gmap.
From S2P Require Import Prelude RustStr Fs NodeDisk Manager ManagerLoads ManagerProgress.

(** ** Counting *)

Definition occ (i : nat) (l : list nat) : Z := Z.of_nat (length (filter (fun j => j = i) l)).

Lemma occ_app i l l' : occ i (l ++ l') = occ i l + occ i l'.
Proof. unfold occ. rewrite filter_app, length_app. lia. Qed.
Lemma occ_cons i x l : occ i (x :: l) = (if decide (x = i) then 1 else 0) + occ i l.
Proof. unfold occ. rewrite filter_cons. destruct (decide (x = i)); cbn [length]; lia. Qed.
Lemma occ_nil i : occ i [] = 0.
Proof. done. Qed.
Lemma occ_pos i l : i ∈ l -> 0 < occ i l.
Proof. induction 1 as [l|x l H IH]; rewrite occ_cons; [rewrite decide_True by done; unfold occ; lia|destruct (decide _); lia]. Qed.
Lemma occ_none i l : i ∉ l -> occ i l = 0.
Proof.
  induction l as [|x l IH]; [done|]. intros H. rewrite occ_cons, IH by (by intros ?; apply H; right).
  rewrite decide_False; [done|]. intros ->. apply H. left.
Qed.

(** The leases all requests hold. *)
Definition held (rs : list Request) : list nat := concat (map leases rs).

Lemma held_app rs rs' : held (rs ++ rs') = held rs ++ held rs'.
Proof. unfold held. by rewrite map_app, concat_app. Qed.
Lemma held_cons r rs : held (r :: rs) = leases r ++ held rs.
Proof. done. Qed.

(** One request's leases, and those of the others. *)
Lemma held_split rs i r : rs !! i = Some r ->
  exists rest, held rs ≡ₚ leases r ++ rest /\ forall r', held (<[i := r']> rs) ≡ₚ leases r' ++ rest.
Proof.
  intros H. exists (held (take i rs ++ drop (S i) rs)). apply lookup_lt_Some in H as Hlt. split.
  - rewrite <- (take_drop_middle rs i r H) at 1. rewrite !held_app, held_cons. by rewrite Permutation_app_swap_app.
  - intros r'. rewrite insert_take_drop by done. rewrite !held_app, held_cons. by rewrite Permutation_app_swap_app.
Qed.
Lemma occ_perm i l l' : l ≡ₚ l' -> occ i l = occ i l'.
Proof. intros H. unfold occ. by rewrite H. Qed.

(** ** Sessions *)

Definition sessions (objs : list Shared) (i : nat) : option Z := sh_sessions <$> objs !! i.

Lemma sessions_alter f i objs j (g : Z -> Z) : (forall o, sh_sessions (f o) = g (sh_sessions o)) ->
  sessions (alter f i objs) j = if decide (i = j) then g <$> sessions objs j else sessions objs j.
Proof.
  intros Hf. unfold sessions. rewrite list_lookup_alter. destruct (decide (i = j)) as [->|]; [|done].
  destruct (objs !! j); cbn; [|done]. by rewrite Hf.
Qed.
Lemma sessions_same f i objs j : (forall o, sh_sessions (f o) = sh_sessions o) -> sessions (alter f i objs) j = sessions objs j.
Proof.
  intros Hf. rewrite (sessions_alter f i objs j id) by done. destruct (decide _); [|done]. by destruct (sessions objs j).
Qed.

Lemma sessions_detach i objs j : sessions (detach_overlay i objs) j = sessions objs j.
Proof.
  unfold detach_overlay. destruct (objs !! i) as [o|]; [|done]. destruct (sh_base o), (sh_detached o); try done.
  by rewrite !sessions_same.
Qed.
Lemma sessions_release ids objs j : sessions (release ids objs) j = sessions objs j.
Proof.
  unfold release. revert objs. induction ids as [|i ids IH]; intros objs; [done|]. cbn. rewrite IH. unfold release_one.
  set (objs' := alter _ i objs). assert (E : sessions objs' j = sessions objs j) by (by apply sessions_same).
  destruct (objs' !! i); [|done]. destruct (_ =? 0); [|done]. by rewrite sessions_detach.
Qed.
Lemma sessions_acquire i objs j :
  sessions (acquire i objs).2 j = (fun n => n + occ j (acquire i objs).1) <$> sessions objs j.
Proof.
  unfold acquire. cbn [fst snd]. induction (base_chain objs i) as [|x l IH]; cbn [foldr].
  - destruct (sessions objs j); cbn; [|done]. f_equal. rewrite occ_nil. lia.
  - rewrite (sessions_alter _ x _ j (Z.add 1)) by done. rewrite IH, occ_cons.
    destruct (decide (x = j)), (sessions objs j); cbn; try done; f_equal; lia.
Qed.
Lemma sessions_drop now lease objs j :
  sessions (drop_lease now lease objs) j = (fun n => n - occ j lease) <$> sessions objs j.
Proof.
  unfold drop_lease. revert objs. induction lease as [|i lease IH]; intros objs; cbn [foldl].
  - destruct (sessions objs j); cbn; [|done]. f_equal. rewrite occ_nil. lia.
  - rewrite IH, occ_cons. unfold drop_one. set (objs' := alter _ i objs).
    assert (E : sessions objs' j = if decide (i = j) then (fun n => n - 1) <$> sessions objs j else sessions objs j)
      by (by apply sessions_alter).
    assert (E' : sessions (match objs' !! i with
                           | Some o => if (sh_sessions o =? 0) && sh_unloaded o then detach_overlay i objs' else objs'
                           | None => objs'
                           end) j = sessions objs' j).
    { destruct (objs' !! i); [|done]. destruct (_ && _); [|done]. by rewrite sessions_detach. }
    rewrite E', E. destruct (decide (i = j)), (sessions objs j); cbn; try done; f_equal; lia.
Qed.

(** ** Worktrees attached to a base *)

Definition is_overlay_of (b : nat) (o : Shared) : bool := bool_decide (sh_base o = Some b) && negb (sh_detached o).
Definition overlays (b : nat) (objs : list Shared) : Z :=
  Z.of_nat (length (filter (fun o => is_overlay_of b o = true) objs)).

(** A base is older than its worktrees and counts those attached. *)
Record bases_ok (objs : list Shared) : Prop := {
  base_older : forall i o b, objs !! i = Some o -> sh_base o = Some b -> (b < i)%nat;
  attached_counted : forall b o, objs !! b = Some o -> sh_attached o = overlays b objs;
}.

Definition overlay (b : nat) (o : Shared) : Z := if is_overlay_of b o then 1 else 0.

Lemma overlays_app b l l' : overlays b (l ++ l') = overlays b l + overlays b l'.
Proof. unfold overlays. rewrite filter_app, length_app. lia. Qed.
Lemma overlays_cons b o l : overlays b (o :: l) = overlay b o + overlays b l.
Proof. unfold overlays, overlay. rewrite filter_cons. destruct (is_overlay_of b o); [rewrite decide_True by done|rewrite decide_False by done]; cbn [length]; lia. Qed.
Lemma overlays_alter b f i objs o : objs !! i = Some o ->
  overlays b (alter f i objs) = overlays b objs - overlay b o + overlay b (f o).
Proof.
  revert i. induction objs as [|x objs IH]; [done|]. intros [|i] H; cbn in H.
  - injection H as ->. change (alter f 0%nat (o :: objs)) with (f o :: objs). rewrite !overlays_cons. lia.
  - change (alter f (S i) (x :: objs)) with (x :: alter f i objs). rewrite !overlays_cons, (IH i H). lia.
Qed.

Lemma alter_none (f : Shared -> Shared) (i : nat) (l : list Shared) : l !! i = None -> alter f i l = l.
Proof.
  intros H. apply list_eq. intros j. rewrite list_lookup_alter. destruct (decide (i = j)) as [<-|]; [|done]. by rewrite H.
Qed.

Lemma bases_alter f i objs : (forall o, sh_base (f o) = sh_base o /\ sh_detached (f o) = sh_detached o /\ sh_attached (f o) = sh_attached o) ->
  bases_ok objs -> bases_ok (alter f i objs).
Proof.
  intros Hf [H1 H2].
  assert (Ho : forall b, overlays b (alter f i objs) = overlays b objs).
  { intros b. destruct (objs !! i) as [o|] eqn:E; [|by rewrite alter_none].
    rewrite (overlays_alter b f i objs o E). unfold overlay, is_overlay_of. destruct (Hf o) as (-> & -> & _). lia. }
  split.
  - intros j o b. rewrite list_lookup_alter. destruct (decide (i = j)) as [->|]; [|by apply H1].
    destruct (objs !! j) as [o'|] eqn:E; [|done]. cbn. intros [= <-]. destruct (Hf o') as (-> & _). by apply H1.
  - intros b o. rewrite list_lookup_alter, Ho. destruct (decide (i = b)) as [->|]; [|by apply H2].
    destruct (objs !! b) as [o'|] eqn:E; [|done]. cbn. intros [= <-]. destruct (Hf o') as (_ & _ & ->). by apply H2.
Qed.

Lemma older_same objs objs' i o b : same_idents objs objs' ->
  (forall i o b, objs !! i = Some o -> sh_base o = Some b -> (b < i)%nat) ->
  objs' !! i = Some o -> sh_base o = Some b -> (b < i)%nat.
Proof.
  intros Hs Hold Ho Hb. assert (Hf : (ident <$> objs) !! i = Some (ident o)) by (rewrite <- Hs, list_lookup_fmap, Ho; done).
  rewrite list_lookup_fmap in Hf. destruct (objs !! i) as [o'|] eqn:E; [|done]. injection Hf as [= _ Hb' _].
  apply (Hold i o' b E). congruence.
Qed.

Lemma overlay_detach b (o : Shared) : overlay b (set_flags false true false false false o) = 0.
Proof. unfold overlay, is_overlay_of, set_flags. cbn. by rewrite orb_true_r, andb_false_r. Qed.

Lemma bases_detach i objs : bases_ok objs -> bases_ok (detach_overlay i objs).
Proof.
  intros H. unfold detach_overlay. destruct (objs !! i) as [o|] eqn:Ho; [|done].
  destruct (sh_base o) as [b|] eqn:Eb, (sh_detached o) eqn:Ed; try done.
  pose proof (base_older _ H i o b Ho Eb) as Hlt. set (objs1 := alter (set_flags false true false false false) i objs).
  assert (Hover : forall c, overlays c objs1 = overlays c objs - (if decide (c = b) then 1 else 0)).
  { intros c. unfold objs1. rewrite (overlays_alter c _ i objs o Ho), overlay_detach.
    unfold overlay, is_overlay_of. rewrite Eb, Ed. cbn. destruct (decide (c = b)) as [->|].
    - rewrite bool_decide_true by done. cbn. lia.
    - rewrite bool_decide_false by congruence. cbn. lia. }
  assert (Hover' : forall c, overlays c (alter (set_attached (fun n => n - 1)) b objs1) = overlays c objs1).
  { intros c. destruct (objs1 !! b) as [o'|] eqn:E; [|by rewrite alter_none].
    rewrite (overlays_alter c _ b objs1 o' E). unfold overlay, is_overlay_of. cbn. lia. }
  assert (Hsame : same_idents objs (alter (set_attached (fun n => n - 1)) b objs1)).
  { eapply same_trans; [|by apply same_alter]. by apply same_alter. }
  split.
  - intros j o' c. apply (older_same objs); [done|]. apply H.
  - intros c o'. rewrite Hover', Hover. unfold objs1. rewrite !list_lookup_alter. destruct (decide (b = c)) as [->|Hne].
    + rewrite decide_False by lia. destruct (objs !! c) as [oc|] eqn:Ec; [|done]. cbn. intros [= <-]. cbn.
      rewrite decide_True by done. by rewrite (attached_counted _ H c oc Ec).
    + rewrite (decide_False (P := c = b)) by congruence. rewrite Z.sub_0_r. destruct (decide (i = c)) as [->|].
      * rewrite Ho. cbn. intros [= <-]. cbn. by apply (attached_counted _ H).
      * intros Hc. by apply (attached_counted _ H).
Qed.

(** ** The counts agree with the leases *)

Record counts (objs : list Shared) (hs : list nat) : Prop := {
  counts_bases : bases_ok objs;
  counts_sessions : forall j n, sessions objs j = Some n -> n = occ j hs;
  counts_valid : forall j, j ∈ hs -> (j < length objs)%nat;
}.

Lemma counts_perm objs hs hs' : hs ≡ₚ hs' -> counts objs hs -> counts objs hs'.
Proof.
  intros Hp [H1 H2 H3]. split; [done| |].
  - intros j n H. rewrite <- (occ_perm j _ _ Hp). by apply H2.
  - intros j. rewrite <- Hp. apply H3.
Qed.

(** A change that keeps the counts of sessions. *)
Lemma counts_quiet objs objs' hs : counts objs hs -> bases_ok objs' -> (forall j, sessions objs' j = sessions objs j) ->
  length objs' = length objs -> counts objs' hs.
Proof. intros [H1 H2 H3] Hb Hs Hl. split; [done|intros j n; rewrite Hs; apply H2|]. rewrite Hl. apply H3. Qed.

Lemma bases_release ids objs : bases_ok objs -> bases_ok (release ids objs).
Proof.
  unfold release. revert objs. induction ids as [|i ids IH]; intros objs H; [done|]. cbn [foldl]. apply IH. unfold release_one.
  set (objs' := alter _ i objs). assert (bases_ok objs') by (apply bases_alter; [intros o; cbn; by rewrite orb_false_r|done]).
  destruct (objs' !! i); [|done]. destruct (_ =? 0); [by apply bases_detach|done].
Qed.
Lemma bases_drop now lease objs : bases_ok objs -> bases_ok (drop_lease now lease objs).
Proof.
  unfold drop_lease. revert objs. induction lease as [|i lease IH]; intros objs H; [done|]. cbn [foldl]. apply IH. unfold drop_one.
  set (objs' := alter _ i objs). assert (bases_ok objs') by (by apply bases_alter).
  destruct (objs' !! i); [|done]. destruct (_ && _); [by apply bases_detach|done].
Qed.
Lemma bases_acquire i objs : bases_ok objs -> bases_ok (acquire i objs).2.
Proof.
  intros H. unfold acquire. cbn [snd]. induction (base_chain objs i) as [|x l IH]; [done|]. cbn [foldr]. by apply bases_alter.
Qed.

Lemma counts_release ids objs hs : counts objs hs -> counts (release ids objs) hs.
Proof.
  intros H. apply (counts_quiet objs); [done|apply bases_release, H|intros; apply sessions_release|apply same_length, same_release].
Qed.

Lemma chain_valid fuel objs i j : j ∈ chain fuel objs i -> (j < length objs)%nat.
Proof.
  revert i. induction fuel as [|fuel IH]; intros i; cbn [chain]; [by intros ?%not_elem_of_nil|].
  destruct (objs !! i) as [o|] eqn:E; [|by intros ?%not_elem_of_nil]. intros [->|H]%elem_of_cons; [by eapply lookup_lt_Some|].
  destruct (sh_base o); [by eapply IH|by apply not_elem_of_nil in H].
Qed.

Lemma counts_acquire i objs hs : counts objs hs -> counts (acquire i objs).2 ((acquire i objs).1 ++ hs).
Proof.
  intros [H1 H2 H3]. split; [by apply bases_acquire| |].
  - intros j n. rewrite sessions_acquire, occ_app. destruct (sessions objs j) as [m|] eqn:E; [|done]. cbn [fmap option_fmap option_map].
    intros [= <-]. rewrite (H2 j m E). cbn [acquire fst]. lia.
  - intros j. rewrite (same_length _ _ (same_acquire i objs)). intros [H|H]%elem_of_app; [exact (chain_valid _ _ _ _ H)|by apply H3].
Qed.
Lemma counts_drop now lease objs hs : counts objs (lease ++ hs) -> counts (drop_lease now lease objs) hs.
Proof.
  intros [H1 H2 H3]. split; [by apply bases_drop| |].
  - intros j n. rewrite sessions_drop. destruct (sessions objs j) as [m|] eqn:E; [|done]. cbn [fmap option_fmap option_map].
    intros [= <-]. rewrite (H2 j m E), occ_app. lia.
  - intros j H. rewrite (same_length _ _ (same_drop now lease objs)). apply H3, elem_of_app. by right.
Qed.

Lemma overlays_new n objs : (forall i o b, objs !! i = Some o -> sh_base o = Some b -> (b < n)%nat) -> overlays n objs = 0.
Proof.
  intros H. induction objs as [|o objs IH]; [done|]. rewrite overlays_cons, IH; [|intros i o' b Ho; by apply (H (S i) o' b)].
  unfold overlay, is_overlay_of. rewrite bool_decide_false; [done|]. intros E. specialize (H 0%nat o n eq_refl E). lia.
Qed.
Lemma sessions_app objs o j : sessions (objs ++ [o]) j
  = if decide (j = length objs) then Some (sh_sessions o) else sessions objs j.
Proof.
  unfold sessions. destruct (decide (j = length objs)) as [->|Hne]; [by rewrite list_lookup_middle|].
  destruct (decide (j < length objs)%nat); [by rewrite lookup_app_l|].
  rewrite !lookup_ge_None_2; [done|lia|]. rewrite length_app. cbn. lia.
Qed.

(** A new workspace: loaded by itself, or over a base that counts it. *)
Lemma counts_new objs objs' o hs : counts objs hs -> (forall j, sessions objs' j = sessions objs j) -> same_idents objs objs' ->
  sh_sessions o = 0 -> sh_attached o = 0 -> sh_detached o = false ->
  (forall b, sh_base o = Some b -> (b < length objs)%nat) ->
  (forall b o', objs' !! b = Some o' -> sh_attached o' = overlays b objs + overlay b o) ->
  (forall b, overlays b objs' = overlays b objs) -> counts (objs' ++ [o]) hs.
Proof.
  intros [H1 H2 H3] Hs Hi Hn Ha Hd Hb Hatt Hov. pose proof (same_length _ _ Hi) as Hl. split; [split|..].
  - intros i o' b [Ho|[Hge [Ei <-]%list_lookup_singleton_Some]]%lookup_app_Some Hb'; [|apply Hb in Hb'; lia].
    eapply (older_same objs); [done|apply H1|done..].
  - intros b o'. rewrite overlays_app, Hov, overlays_cons. change (overlays b []) with 0. rewrite Z.add_0_r.
    intros [Ho|[Hge [Ei <-]%list_lookup_singleton_Some]]%lookup_app_Some; [by apply Hatt|].
    assert (Hlen : (length objs <= b)%nat) by lia. rewrite Ha, overlays_new.
    + unfold overlay, is_overlay_of. rewrite bool_decide_false; [done|]. intros E. apply Hb in E. lia.
    + intros i o' c Ho E. pose proof (base_older _ H1 i o' c Ho E). apply lookup_lt_Some in Ho. lia.
  - intros j n. rewrite sessions_app, Hl, Hs. destruct (decide _) as [->|]; [|apply H2]. intros [= <-]. rewrite Hn.
    symmetry. apply occ_none. intros Hj%H3. lia.
  - intros j Hj%H3. rewrite length_app. lia.
Qed.

Lemma counts_fresh objs o hs : counts objs hs -> sh_sessions o = 0 -> sh_attached o = 0 -> sh_detached o = false ->
  sh_base o = None -> counts (objs ++ [o]) hs.
Proof.
  intros H Hn Ha Hd Hb. apply (counts_new objs); try done; [by rewrite Hb|].
  intros b o' Ho. rewrite (attached_counted _ (counts_bases _ _ H) b o' Ho). unfold overlay, is_overlay_of. rewrite bool_decide_false by (by rewrite Hb). cbn. lia.
Qed.

Lemma counts_with_base r base st hs : counts (objs st) hs -> (base < length (objs st))%nat -> counts (with_base r base st) hs.
Proof.
  intros H Hlt. unfold with_base. apply (counts_new (objs st)); try done.
  - intros j. by apply sessions_same.
  - by apply same_alter.
  - by intros b [= <-].
  - intros b o'. rewrite list_lookup_alter. unfold overlay, is_overlay_of. cbn. rewrite andb_true_r.
    destruct (decide (base = b)) as [->|Hne].
    + destruct (objs st !! b) as [o|] eqn:E; [|done]. cbn. intros [= <-]. cbn. rewrite bool_decide_true by done.
      rewrite (attached_counted _ (counts_bases _ _ H) b o E). lia.
    + intros Ho. rewrite bool_decide_false by congruence. rewrite (attached_counted _ (counts_bases _ _ H) b o' Ho). lia.
  - intros b. destruct (objs st !! base) as [o|] eqn:E; [|by rewrite alter_none].
    rewrite (overlays_alter b _ base _ o E). unfold overlay, is_overlay_of. cbn. lia.
Qed.

(** ** Every step *)

Definition counted (st : St) : Prop := counts (objs st) (held (reqs st)).

(** A request exchanges the leases it has. *)
Lemma counted_request st st' i r r' : counted st -> reqs st !! i = Some r -> reqs st' = <[i := r']> (reqs st) ->
  (forall rest, counts (objs st) (leases r ++ rest) -> counts (objs st') (leases r' ++ rest)) -> counted st'.
Proof.
  unfold counted. intros H Hi Hr Hstep. destruct (held_split _ i r Hi) as (rest & Hp & Hp'). rewrite Hr.
  eapply counts_perm; [symmetry; apply Hp'|]. apply Hstep. by eapply counts_perm.
Qed.
Lemma counted_same st st' i r r' : counted st -> reqs st !! i = Some r -> reqs st' = <[i := r']> (reqs st) ->
  objs st' = objs st -> leases r' = leases r -> counted st'.
Proof. intros H Hi Hr Ho Hl. eapply counted_request; [done..|]. intros rest. by rewrite Ho, Hl. Qed.

Lemma leases_answered lease r : leases (answered lease r) = lease.
Proof. unfold leases, answered. by destruct (rq_slot r). Qed.
Lemma leases_failed r : leases (failed r) = [].
Proof. unfold leases, failed. by destruct (rq_slot r). Qed.

Lemma counted_got st i r ws : counted st -> reqs st !! i = Some r -> leases r = [] -> counted (got i r ws st).
Proof.
  intros H Hi Hl. unfold got. destruct (acquire ws (objs st)) as [lease objs'] eqn:E.
  eapply (counted_request st _ i r); [done..|]. intros rest. rewrite Hl, leases_answered. cbn. intros Hc.
  apply (counts_acquire ws) in Hc. by rewrite E in Hc.
Qed.

Lemma counted_look st i r : counted st -> reqs st !! i = Some r -> leases r = [] -> counted (look_up i r st).
Proof.
  intros H Hi Hl. unfold look_up. destruct (slots st !! rq_key r) as [[ch|ws]|].
  - by eapply (counted_same st _ i r).
  - destruct (reusable_for _ _ _); [by apply counted_got|by eapply (counted_same st _ i r)].
  - by eapply (counted_same st _ i r).
Qed.

Lemma counted_claim st i r : counted st -> reqs st !! i = Some r -> leases r = [] -> counted (claim_slot i r st).
Proof.
  intros H Hi Hl. unfold claim_slot. set (replaced := match slots st !! rq_key r with Some (Ready _) => _ | _ => _ end).
  set (st1 := match replaced with [] => _ | _ => _ end).
  assert (Hf : objs st1 = objs st /\ reqs st1 = reqs st) by (unfold st1; by destruct replaced). destruct Hf as [Ho Hr].
  assert (H1 : counted st1) by (unfold counted; by rewrite Ho, Hr). rewrite <- Hr in Hi. clearbody st1.
  destruct (slots st1 !! rq_key r) as [[ch|ws]|].
  - by eapply (counted_same st1 _ i r).
  - by apply counted_got.
  - cbn [open_channel]. destruct (is_worktree r); by eapply (counted_same st1 _ i r).
Qed.

Lemma counted_advance st i st' : counted st -> advance i st = Some st' -> counted st'.
Proof.
  intros H. unfold advance. destruct (reqs st !! i) as [r|] eqn:Hi; [|done]. cbn [mbind option_bind].
  assert (Hl : leases r = match rq_phase r with
                          | Led _ h | Attach h | Withdraw h | Holding h => h
                          | Publish _ lease bl => lease ++ bl
                          | _ => []
                          end) by done.
  destruct (rq_phase r) as [ |ch| |ids| | |ws lease bl|h| | ] eqn:Hp; try done.
  - intros [= <-]. by apply counted_look.
  - unfold receive. destruct (chans st !! ch) as [[[]|]|]; try done; intros [= <-].
    + by eapply (counted_same st _ i r).
    + eapply (counted_same st _ i r); try done. by rewrite leases_failed.
  - intros [= <-]. by apply counted_claim.
  - intros [= <-]. eapply (counted_request st _ i r); try done. intros rest. rewrite Hl. apply counts_release.
  - destruct (rq_slot r) as [ch|]; [|done]. intros [= <-]. eapply (counted_request st _ i r); try done. intros rest. rewrite Hl. cbn.
    intros Hc. apply counts_drop. eapply counts_perm; [|exact Hc]. rewrite (Permutation_app_comm lease bl). by rewrite app_assoc.
  - destruct (rq_slot r) as [ch|]; [|done]. intros [= <-]. eapply (counted_request st _ i r); try done. intros rest. rewrite Hl. cbn.
    apply counts_drop.
Qed.

Lemma counted_attach st i ok st' : counted st -> attach i ok st = Some st' -> counted st'.
Proof.
  intros H. unfold attach. destruct (reqs st !! i) as [r|] eqn:Hi; [|done]. cbn [mbind option_bind].
  destruct (rq_phase r) as [ | | | | |lease| | | | ] eqn:Hp; try done. destruct lease as [|base bl]; [done|].
  destruct (rq_slot r) as [ch|]; [|done]. destruct (objs st !! base) as [o|] eqn:Ho; [|done]. cbn [mbind option_bind].
  assert (Hl : leases r = base :: bl) by (unfold leases; by rewrite Hp).
  destruct (sh_rust o); cbn [negb]; [|intros [= <-]; by eapply (counted_same st _ i r)].
  destruct ok; [|intros [= <-]; by eapply (counted_same st _ i r)].
  destruct (acquire (length (objs st)) (with_base r base st)) as [lease objs'] eqn:E. intros [= <-].
  eapply (counted_request st _ i r); try done. intros rest Hc. rewrite Hl in Hc.
  apply (counts_with_base r base) in Hc; [|by eapply lookup_lt_Some]. apply (counts_acquire (length (objs st))) in Hc.
  rewrite E in Hc. unfold leases. cbn. by rewrite <- app_assoc.
Qed.

Lemma counted_lead_answer st j st' : counted st -> lead_answer j st = Some st' -> counted st'.
Proof.
  intros H. unfold lead_answer. destruct (leads st !! j) as [l|] eqn:Hj; [|done]. cbn [mbind option_bind].
  destruct (ld_phase l) as [| |result|]; try done. set (st1 := set_lead j _ _). assert (H1 : counted st1) by done. clearbody st1.
  destruct (waiting_leader l st1) as [[r h]|] eqn:Ew; [|by intros [= <-]]. unfold waiting_leader in Ew.
  destruct (reqs st1 !! ld_for l) as [r0|] eqn:Hi; [|done]. cbn in Ew.
  destruct (rq_phase r0) as [ | | | |ch0 held0| | | | | ] eqn:Hpr; try done. destruct (decide _); [|done]. injection Ew as -> ->.
  assert (Hl : leases r = h) by (unfold leases; by rewrite Hpr). destruct result as [ws|].
  - destruct (acquire ws (objs st1)) as [lease objs'] eqn:E. intros [= <-]. eapply (counted_request st1 _ _ r); try done.
    intros rest Hc. rewrite Hl in Hc. rewrite leases_answered. cbn. apply counts_drop. apply (counts_acquire ws) in Hc. rewrite E in Hc.
    eapply counts_perm; [|exact Hc]. cbn. apply Permutation_app_swap_app.
  - intros [= <-]. eapply (counted_request st1 _ _ r); try done. intros rest. rewrite Hl, leases_failed. apply counts_drop.
Qed.

Lemma counted_new st st' r : counted st -> objs st' = objs st -> reqs st' = reqs st ++ [r] -> leases r = [] -> counted st'.
Proof. intros H Ho Hr Hl. unfold counted. by rewrite Ho, Hr, held_app, held_cons, Hl, app_nil_r. Qed.

Lemma counted_ahead st root engine base : counted st -> counted (load_ahead root engine base st).
Proof.
  intros H. unfold load_ahead. set (request := fun p => MkSt (objs st) (slots st) (chans st) (reqs st ++ [MkRequest root engine None None p]) (leads st) (releasing st) (now st)).
  destruct (_ || _); [by eapply counted_new|]. cbn [open_channel].
  eapply (counted_same (request Look) _ (length (reqs st)) (MkRequest root engine None None Look)); try done.
  - by eapply counted_new.
  - cbn. by rewrite list_lookup_middle.
Qed.

Lemma counted_step e st st' : counted st -> step e st = Some st' -> counted st'.
Proof.
  intros H. destruct e; cbn [step].
  - intros [= <-]. by eapply counted_new.
  - intros [= <-]. by apply counted_ahead.
  - by apply counted_advance.
  - by apply counted_attach.
  - unfold end_request. destruct (reqs st !! i) as [r|] eqn:Hi; [|done]. cbn [mbind option_bind].
    destruct (rq_phase r); intros E; simplify_eq/=; eapply (counted_request st _ i r); try done; intros rest; apply counts_drop.
  - unfold lead_release. destruct (leads st !! j) as [l|]; [|done]. cbn. destruct (ld_phase l); try done. intros [= <-]. by apply counts_release.
  - unfold lead_loaded. destruct (leads st !! j) as [l|]; [|done]. cbn [mbind option_bind]. destruct (ld_phase l); try done.
    destruct outcome; intros [= <-]; [|by destruct (match slots st !! _ with Some (Loading _) => _ | _ => _ end)].
    destruct (_ || _); by apply counts_fresh.
  - by apply counted_lead_answer.
  - by intros [= <-].
  - by intros [= <-].
  - by intros [= <-].
  - unfold release_next. destruct (releasing st !! k) as [ids|]; [|done]. intros [= <-]. by apply counts_release.
  - intros [= <-]. apply (counts_quiet (objs st)); [done| | |apply length_alter].
    + apply bases_alter; [|apply H]. intros o. cbn. by rewrite orb_false_r.
    + intros j. by apply sessions_same.
  - by intros [= <-].
Qed.

Lemma counted_run events st : run events start = Some st -> coalesced st /\ counted st.
Proof.
  intros Hrun. split.
  - eapply (run_preserves coalesced); [apply coalesced_step|apply coalesced_start|done].
  - eapply (run_preserves counted); [apply counted_step| |done]. split; [by split|done|by intros j ?%not_elem_of_nil].
Qed.

(** ** What is in use *)

(** Some request or session holds a lease on it, or a worktree is attached to it. *)
Definition in_use (st : St) (ws : nat) : Prop :=
  (exists i r, reqs st !! i = Some r /\ ws ∈ leases r)
  \/ exists i o, objs st !! i = Some o /\ sh_base o = Some ws /\ sh_detached o = false.

Lemma held_elem rs j : j ∈ held rs <-> exists i r, rs !! i = Some r /\ j ∈ leases r.
Proof.
  unfold held. rewrite list_elem_of_In, in_concat. split.
  - intros (l & (r & <- & Hr%list_elem_of_In)%in_map_iff & Hj%list_elem_of_In).
    apply list_elem_of_lookup_1 in Hr as [i Hi]. eauto.
  - intros (i & r & Hi & Hj). exists (leases r). split; [|by apply list_elem_of_In].
    apply in_map, list_elem_of_In. by eapply list_elem_of_lookup_2.
Qed.
Lemma occ_zero i l : occ i l = 0 <-> i ∉ l.
Proof. split; [|apply occ_none]. intros H Hi%occ_pos. lia. Qed.
Lemma overlays_zero b l : overlays b l = 0 <-> forall i o, l !! i = Some o -> is_overlay_of b o = false.
Proof.
  induction l as [|o l IH]; [done|]. rewrite overlays_cons. assert (0 <= overlays b l) by (unfold overlays; lia). split.
  - intros H0 [|i] o' Ho; cbn in Ho.
    + injection Ho as ->. unfold overlay in H0. destruct (is_overlay_of b o'); [lia|done].
    + apply (proj1 IH) with i; [|done]. unfold overlay in H0. destruct (is_overlay_of b o); lia.
  - intros Ha. unfold overlay. rewrite (Ha 0%nat o eq_refl), (proj2 IH); [done|]. intros i o'. apply (Ha (S i)).
Qed.

(** The counters tell exactly that. *)
Lemma idle_iff st ws : counted st -> (ws < length (objs st))%nat -> is_idle st ws = true <-> ~ in_use st ws.
Proof.
  intros [Hb Hs _] Hlt. destruct (lookup_lt_is_Some_2 _ _ Hlt) as [o Ho]. unfold is_idle, in_use. rewrite Ho.
  rewrite andb_true_iff, !Z.eqb_eq, (Hs ws (sh_sessions o)), (attached_counted _ Hb ws o Ho) by (unfold sessions; by rewrite Ho).
  rewrite occ_zero, overlays_zero, held_elem. split.
  - intros [H1 H2] [H|(i & o' & Hi & Hbase & Hd)]; [by apply H1|]. apply H2 in Hi. unfold is_overlay_of in Hi.
    by rewrite Hbase, bool_decide_true, Hd in Hi.
  - intros H. split; [intros ?; apply H; by left|]. intros i o' Hi. destruct (is_overlay_of ws o') eqn:E; [|done].
    exfalso. apply H. right. exists i, o'. unfold is_overlay_of in E. apply andb_true_iff in E as [E1%bool_decide_eq_true E2%negb_true_iff]. done.
Qed.

Lemma remove_idle_slots st pick k : coalesced st -> (forall l i, i ∈ pick l -> i ∈ l) ->
  slots (remove_idle pick st) !! k
  = match slots st !! k with
    | Some (Ready i) => if bool_decide (i ∈ pick (filter (fun i => is_idle st i = true) (ready_ids st))) then None else Some (Ready i)
    | s => s
    end.
Proof.
  intros Hc Hp. unfold remove_idle. rewrite take_out_slots; [done|done|]. by intros i [_ H]%Hp%list_elem_of_filter.
Qed.

(** C28: The periodic eviction takes exactly what is unused.  Whatever happened before, a slot is
    emptied if and only if its workspace is loaded, no request or session holds a lease on it,
    no worktree is attached to it, and it was last used at least [idle] seconds ago; every other
    slot, one being loaded included, is as it was. *)
Theorem evict_exactly_unused (events : list Ev) (st : St) (idle : Z) (k : path) :
  run events start = Some st ->
  let unused := exists ws, slots st !! k = Some (Ready ws) /\ ~ in_use st ws /\ idle <= idle_secs st ws in
  (unused -> slots (evict_idle idle st) !! k = None)
  /\ (~ unused -> slots (evict_idle idle st) !! k = slots st !! k).
Proof.
  intros [Hc Hn]%counted_run. unfold evict_idle. rewrite remove_idle_slots; [|done|by intros l i [_ H]%list_elem_of_filter].
  assert (Hin : forall ws, slots st !! k = Some (Ready ws) ->
    ws ∈ filter (fun i => (idle <=? idle_secs st i) = true) (filter (fun i => is_idle st i = true) (ready_ids st))
    <-> ~ in_use st ws /\ idle <= idle_secs st ws).
  { intros ws Hk. destruct (ready_key _ Hc k ws Hk) as (o & Ho & _). apply lookup_lt_Some in Ho as Hlt.
    rewrite !list_elem_of_filter, Z.leb_le, (idle_iff st ws Hn Hlt), elem_of_ready_ids. naive_solver. }
  split.
  - intros (ws & Hk & Hu). rewrite Hk, bool_decide_true; [done|]. by apply Hin.
  - intros Hu. destruct (slots st !! k) as [[ch|ws]|] eqn:Hk; [done| |done].
    rewrite bool_decide_false; [done|]. intros H%Hin; [|done]. apply Hu. by exists ws.
Qed.

(** ** Making room *)

Definition freed_by (free : nat -> Z) (freed : Z) (ids : list nat) : Z :=
  foldl (fun a i => Z.min u64_max (a + free i)) freed ids.

Lemma take_until_prefix free excess freed ids : exists rest,
  ids = take_until free excess freed ids ++ rest
  /\ (rest <> [] -> excess <= freed_by free freed (take_until free excess freed ids))
  /\ forall l i, take_until free excess freed ids = l ++ [i] -> freed_by free freed l < excess.
Proof.
  revert freed. induction ids as [|x ids IH]; intros freed; cbn [take_until].
  - exists []. split_and!; [done|done|]. intros l i H. by apply app_cons_not_nil in H.
  - destruct (Z.ltb_spec freed excess) as [Hlt|Hge].
    + destruct (IH (Z.min u64_max (freed + free x))) as (rest & E & H1 & H2). exists rest. split_and!; [cbn; congruence|done|].
      intros [|y l] i H; [done|]. injection H as <- H. by apply (H2 l i).
    + exists (x :: ids). split_and!; [done|done|]. intros l i H. by apply app_cons_not_nil in H.
Qed.

Lemma sorted_by_split (key : nat -> Z) l l1 l2 i j :
  l1 ++ l2 = sort_by (fun i j => key i <=? key j) l -> i ∈ l1 -> j ∈ l2 -> key i <= key j.
Proof.
  intros E Hi Hj. assert (Hs : StronglySorted (fun i j => (key i <=? key j) = true) (l1 ++ l2)).
  { rewrite E. apply sort_by_sorted; intros; rewrite ?Z.leb_le in *; lia. }
  apply Z.leb_le. by eapply (StronglySorted_app_1_elem_of (fun i j => (key i <=? key j) = true)).
Qed.

(** To make room, loaded workspaces nobody uses are taken, those unused for longest first and no
    more than needed: whatever happened before, each one taken was in nobody's hands, for
    another root and last used at least two minutes ago; any workspace of which that is true
    and that is left was used no earlier than every one taken; without the last one taken the
    memory counted as freed would not cover the excess; and all of them together cover it
    unless nothing is left to take. *)
Theorem reclaim_enough (events : list Ev) (st : St) (reserve : bytes -> Z) (excess : Z) (loading : path) :
  run events start = Some st ->
  let takeable i := i ∈ ready_ids st /\ ~ in_use st i /\ key_of st i <> Some loading /\ RECLAIM_MIN_IDLE <= idle_secs st i in
  exists taken left, (forall i, takeable i <-> i ∈ taken ++ left)
  /\ (forall k, slots (reclaim_idle reserve excess loading st) !! k
                = match slots st !! k with Some (Ready i) => if bool_decide (i ∈ taken) then None else Some (Ready i) | s => s end)
  /\ (forall i j, i ∈ taken -> j ∈ left -> used_at st i <= used_at st j)
  /\ (forall l i, taken = l ++ [i] -> freed_by (free_of reserve st) 0 l < excess)
  /\ (left <> [] -> excess <= freed_by (free_of reserve st) 0 taken).
Proof.
  intros [Hc Hn]%counted_run takeable. unfold reclaim_idle.
  set (candidates := filter (fun i => is_idle st i = true) (ready_ids st)).
  set (taken := reclaim_pick reserve excess loading st candidates).
  destruct (take_until_prefix (free_of reserve st) excess 0
    (sort_by (fun i j => used_at st i <=? used_at st j)
       (filter (fun i => key_of st i <> Some loading /\ RECLAIM_MIN_IDLE <= idle_secs st i) candidates))) as (rest & E & H1 & H2).
  exists taken, rest. split_and!; [| | |done..].
  - intros i. change (taken ++ rest) with (take_until (free_of reserve st) excess 0 (sort_by (fun i j => used_at st i <=? used_at st j)
       (filter (fun i => key_of st i <> Some loading /\ RECLAIM_MIN_IDLE <= idle_secs st i) candidates)) ++ rest).
    rewrite <- E, sort_by_perm. unfold candidates, takeable. rewrite !list_elem_of_filter.
    assert (Hi : i ∈ ready_ids st -> is_idle st i = true <-> ~ in_use st i).
    { intros [k Hk]%elem_of_ready_ids. destruct (ready_key _ Hc k i Hk) as (o & Ho & _). apply idle_iff; [done|by eapply lookup_lt_Some]. }
    split; [intros (? & ? & ? & ?)|intros ((? & ?) & ? & ?)]; split_and!; try done; by apply Hi.
  - intros k. by rewrite remove_idle_slots; [|done|intros l i; apply reclaim_pick_sub].
  - intros i j Hi Hj. eapply (sorted_by_split (used_at st)); [|exact Hi|exact Hj]. symmetry. exact E.
Qed.

(** ** A worktree, its base and another root *)

Module Example.

Definition app : path := [B "srv"; B "app"].
Definition worktree : path := [B "srv"; B "app--wt-00000001"].
Definition other : path := [B "srv"; B "tool"].
Definition base_of (root : path) : option path := if decide (root = worktree) then Some app else None.

(** The first request leads the worktree's slot and waits for the base, the second waits for
    the first. *)
Definition begun : list Ev :=
  [Asked worktree (B "rust") (base_of worktree); Advance 0; Advance 0; Advance 0;
   Asked worktree (B "rust") (base_of worktree); Advance 1; Advance 0; Advance 0].

(** Both get the worktree; another root is loaded, and its session ends. *)
Definition served : list Ev :=
  begun ++ [LeadReleases 0; LeadLoads 0 (Some true); LeadAnswers 0; Attached 0 true; Advance 0; Advance 1; Advance 1;
            Asked other (B "go") (base_of other); Advance 2; Advance 2; LeadReleases 1; LeadLoads 1 (Some false); LeadAnswers 1;
            Ends 2; Clock 1000].

Definition second_waits (st : St) : bool :=
  match reqs st !! 1%nat with Some (MkRequest _ _ _ None (Wait 0)) => true | _ => false end.
Definition is_loading (st : St) (k : path) (ch : nat) : bool :=
  match slots st !! k with Some (Loading ch') => bool_decide (ch = ch') | _ => false end.
Definition is_ready (st : St) (k : path) (ws : nat) : bool :=
  match slots st !! k with Some (Ready ws') => bool_decide (ws = ws') | _ => false end.

Lemma begun_facts : match run begun start with
                    | Some st => second_waits st && bool_decide (own st (inl 0%nat) = Some (app, 1%nat))
                                 && bool_decide (own st (inr 0%nat) = Some (worktree, 0%nat))
                    | None => false
                    end = true.
Proof. vm_compute. reflexivity. Qed.

Lemma one_load_per_root_witness : exists st, run begun start = Some st
  /\ own st (inl 0%nat) = Some (app, 1%nat) /\ slots st !! app = Some (Loading 1)
  /\ forall y ch, own st y = Some (app, ch) -> y = inl 0%nat.
Proof.
  pose proof begun_facts as H. destruct (run begun start) as [st|] eqn:E; [|exfalso; discriminate H].
  apply andb_true_iff in H as [[_ H]%andb_true_iff _]. apply bool_decide_eq_true in H.
  destruct (one_load_per_root begun st E) as (H1 & H2 & _). exists st. split; [reflexivity|]. split; [exact H|].
  split; [by apply (H2 (inl 0%nat))|]. intros y ch Hy. by apply (H1 y (inl 0%nat) app ch 1%nat).
Defined.

Lemma base_flat root b : base_of root = Some b -> b <> root -> base_of b = None \/ base_of b = Some b.
Proof. unfold base_of. destruct (decide (root = worktree)); [|done]. intros [= <-] _. left. by_decide. Qed.


Lemma served_facts : match run served start with
                     | Some st => is_ready st other 2 && is_idle st 2 && (120 <=? idle_secs st 2) && is_ready st app 0
                                  && negb (is_idle st 0) && (3 <=? length (objs st))%nat
                                  && forallb (fun i => negb (is_idle st i) || (i =? 2)%nat) (seq 0 (length (objs st)))
                     | None => false
                     end = true.
Proof. vm_compute. reflexivity. Qed.

Lemma is_ready_eq st k ws : is_ready st k ws = true -> slots st !! k = Some (Ready ws).
Proof. unfold is_ready. destruct (slots st !! k) as [[]|]; [done| |done]. by intros ->%bool_decide_eq_true. Qed.

(** The other root is unused for a minute, the base is in use. *)
Lemma evict_exactly_unused_witness : exists st, run served start = Some st
  /\ slots (evict_idle 60 st) !! other = None /\ slots (evict_idle 60 st) !! app = Some (Ready 0).
Proof.
  pose proof served_facts as H. destruct (run served start) as [st|] eqn:E; [|exfalso; discriminate H].
  rewrite !andb_true_iff, Z.leb_le, negb_true_iff, Nat.leb_le in H.
  destruct H as ((((((Ho%is_ready_eq & Hi) & Hidle) & Ha%is_ready_eq) & Hn) & Hlt) & Hfew).
  pose proof (proj2 (counted_run served st E)) as Hc.
  destruct (evict_exactly_unused served st 60 other E) as [H1 _]. destruct (evict_exactly_unused served st 60 app E) as [_ H2].
  exists st. split; [reflexivity|]. split.
  - apply H1. exists 2%nat. split; [exact Ho|]. split; [|lia]. apply (idle_iff st 2 Hc); [lia|exact Hi].
  - rewrite H2; [exact Ha|]. intros (ws & Hk & Hu & _). assert (ws = 0%nat) as -> by congruence.
    apply (idle_iff st 0 Hc) in Hu; [congruence|lia].
Defined.

Lemma reclaim_enough_witness : exists st, run served start = Some st
  /\ slots (reclaim_idle (fun _ => 100) 50 worktree st) !! other = None.
Proof.
  pose proof served_facts as H. destruct (run served start) as [st|] eqn:E; [|exfalso; discriminate H].
  rewrite !andb_true_iff, Z.leb_le, negb_true_iff, Nat.leb_le in H.
  destruct H as ((((((Ho%is_ready_eq & Hi) & Hidle) & Ha%is_ready_eq) & Hn) & Hlt) & Hfew).
  pose proof (counted_run served st E) as [Hco Hc]. exists st. split; [reflexivity|].
  destruct (reclaim_enough served st (fun _ => 100) 50 worktree E) as (taken & left & Hin & Hs & _ & _ & Hex).
  clear E. rewrite Hs, Ho. destruct (ready_key _ Hco other 2 Ho) as (o & Hobj & Hkey).
  destruct (decide (2%nat ∈ taken)) as [Ht|Ht]; [rewrite bool_decide_true; [reflexivity|exact Ht]|exfalso].
  (* something must be taken, and the other root is all there is *)
  assert (Hall : forall i, i ∈ taken -> i = 2%nat).
  { intros i Ht'. assert (i ∈ taken ++ left) as (Hr & Hu & _)%Hin by (apply elem_of_app; by left).
    apply elem_of_ready_ids in Hr as [k Hk]. destruct (ready_key _ Hco k i Hk) as (o' & Hobj' & _). apply lookup_lt_Some in Hobj' as Hl.
    apply (idle_iff st i Hc Hl) in Hu. rewrite forallb_forall in Hfew. specialize (Hfew i). rewrite Hu in Hfew.
    apply Nat.eqb_eq, Hfew, in_seq. lia. }
  assert (Hleft : 2%nat ∈ left).
  { assert (2%nat ∈ taken ++ left) as [H2|H2]%elem_of_app; [|exfalso; exact (Ht H2)|exact H2]. apply Hin.
    split; [apply elem_of_ready_ids; exists other; exact Ho|].
    split; [apply (idle_iff st 2 Hc); [lia|exact Hi]|]. split; [|exact Hidle]. unfold key_of. rewrite Hobj. cbn. rewrite Hkey. by_decide. }
  assert (taken = []) as -> by (destruct taken as [|i l]; [done|]; exfalso; apply Ht; rewrite <- (Hall i) by left; left).
  assert (Hne : left <> []) by (intros ->; by apply not_elem_of_nil in Hleft). apply Hex in Hne. cbn in Hne. lia.
Defined.

(** The request that leads the worktree's slot is gone, by a panic in the engine for instance,
    before it published or withdrew: the slot says it is being loaded, nobody loads it, and the
    request that waits there can be helped by no step. *)
Definition abandoned : list Ev :=
  [Asked worktree (B "rust") (base_of worktree); Advance 0; Advance 0; Advance 0;
   Asked worktree (B "rust") (base_of worktree); Advance 1; Ends 0].

Lemma abandoned_facts : match run abandoned start with
                        | Some st => second_waits st && is_loading st worktree 0
                                     && bool_decide (chans st = [None]) && (length (leads st) =? 0)%nat && (length (reqs st) =? 2)%nat
                                     && match step (Advance 0) st, step (Attached 0 true) st, step (Ends 0) st with
                                        | None, None, None => true
                                        | _, _, _ => false
                                        end
                                     && match step (Advance 1) st, step (Attached 1 true) st with None, None => true | _, _ => false end
                        | None => false
                        end = true.
Proof. vm_compute. reflexivity. Qed.

End Example.
