(* ===== verification/Readiness.v ===== *)
(** * Language-server readiness (crates/prod-code-protocol/src/readiness)

    [Readiness] listens to a language server's messages and tells whether it is still loading
    or indexing, so that an empty answer from its index is taken as final only when it is.

    Instants are nanoseconds and every operation that reads the clock takes it as an argument;
    the mutex makes each operation one step, so a run is a sequence of steps.  The text of a
    progress token that is not a string is serde_json's and a parameter. *)

From Stdlib Require Import Strings.Byte.
From stdpp Require Import gmap.
From S2P Require Import Prelude RustStr Json.

(** ** Data *)

Inductive ReadySignal :=
| Progress
| Log (ready : bytes -> bool)
| HoldsQuestions
| UnknownSignal.

Record Busy := mkBusy {
  b_title : bytes;
  b_message : option bytes;
  b_percentage : option Z;
  for_ms : Z;
  is_unreported : bool
}.

Inductive ReadyState :=
| BusyState (busy : Busy)
| Ready
| UnknownState.

Record Work := mkWork {
  token : bytes;
  title : bytes;
  message : option bytes;
  percentage : option Z;
  began : Z
}.

Record State := mkState {
  started_at : Z;
  active : list Work;
  progress_seen : bool;
  logged_ready : bool
}.

Record Readiness := mkReadiness { signal : ReadySignal; settle : Z; st : State }.

(** ** Durations *)

Definition millis (n : Z) : Z := n * 1000000.
Definition secs (n : Z) : Z := n * 1000000000.
Definition INDEX_WAIT : Z := secs 30.
Definition SETTLE : Z := millis 500.
Definition LOG_LIMIT : Z := secs 120.
Definition RECHECK : Z := millis 100.

(** [t.elapsed()]: never negative. *)
Definition elapsed (now t : Z) : Z := Z.max 0 (now - t).
(** [d.as_millis() as u64]. *)
Definition as_millis_u64 (d : Z) : Z := (d `div` 1000000) `mod` 2 ^ 64.

(** ** [Busy] *)

(** [Busy::unreported]. *)
Definition busy_unreported (ms : Z) : Busy :=
  mkBusy (B "not reporting") (Some (B "the server does not say whether it is still indexing"))
    None ms true.

Definition describe (b : Busy) : bytes :=
  if is_unreported b then B "the server does not say whether it is still indexing"
  else
    let detail :=
      match b_message b with Some (x :: m) => [x :: m] | _ => [] end
      ++ match b_percentage b with Some p => [show p ++ B "%"] | None => [] end in
    let detail := match detail with
                  | [] => []
                  | _ => B " (" ++ join (B ", ") detail ++ B ")"
                  end in
    b_title b ++ detail ++ B " for " ++ show (for_ms b `div` 1000) ++ B " s".

Definition saturating_mul (a b : Z) : Z := Z.min u64_max (a * b).
Definition div_ceil (a b : Z) : Z := a `div` b + (if a `mod` b =? 0 then 0 else 1).
Definition clamp (lo hi x : Z) : Z := if x <? lo then lo else if hi <? x then hi else x.

Definition retry_after_secs (b : Busy) : Z :=
  let estimate :=
    match b_percentage b with
    | Some done_ =>
        if (1 <=? done_) && (done_ <=? 99) && (0 <? for_ms b) then
          div_ceil (saturating_mul (for_ms b) (100 - done_) `div` done_) 1000
        else 30
    | None => 30
    end in
  clamp 5 60 estimate.

Definition is_empty_answer (answer : Value) : bool :=
  match get answer (B "error") with
  | Some _ => false
  | None =>
      match get answer (B "result") with
      | None | Some Null => true
      | Some (Array items) => bool_decide (zlen items = 0)
      | Some (Object members) => bool_decide (zlen members = 0)
      | Some _ => false
      end
  end.

Definition ready_state_as_str (s : ReadyState) : bytes :=
  match s with
  | BusyState busy => if bool_decide (b_title busy = B "starting") then B "loading" else B "indexing"
  | Ready => B "ready"
  | UnknownState => B "unknown"
  end.

Definition needs_index (method : bytes) : bool :=
  bool_decide (method ∈ [B "workspace/symbol"; B "textDocument/references";
    B "textDocument/implementation"; B "textDocument/rename"; B "textDocument/definition";
    B "textDocument/prepareCallHierarchy"; B "textDocument/prepareTypeHierarchy";
    B "callHierarchy/incomingCalls"; B "callHierarchy/outgoingCalls";
    B "typeHierarchy/supertypes"; B "typeHierarchy/subtypes"]).

Definition pyright_found_sources (line : bytes) : bool :=
  bool_decide (line = B "No source files found.")
  || (starts_with (B "Found ") line && ends_with (B " source files") (trim_end line))
  || (starts_with (B "Found ") line && ends_with (B " source file") (trim_end line)).

(** ** The tracker *)

Definition with_settle (signal : ReadySignal) (settle : Z) (now : Z) : Readiness :=
  mkReadiness signal settle (mkState now [] false false).
Definition new (signal : ReadySignal) (now : Z) : Readiness := with_settle signal SETTLE now.

Definition set_st (r : Readiness) (s : State) : Readiness := mkReadiness (signal r) (settle r) s.
Definition set_active (s : State) (ws : list Work) : State :=
  mkState (started_at s) ws (progress_seen s) (logged_ready s).
Definition see_progress (s : State) : State :=
  mkState (started_at s) (active s) true (logged_ready s).

Definition started (r : Readiness) (now : Z) : Readiness :=
  set_st r (mkState now (active (st r)) (progress_seen (st r)) (logged_ready (st r))).

(** [active.retain(|w| w.token != token)]. *)
Definition retain_other (tok : bytes) (ws : list Work) : list Work :=
  filter (fun w => token w <> tok) ws.

(** The first entry of a token, changed in place. *)
Fixpoint update_first (tok : bytes) (f : Work -> Work) (ws : list Work) : list Work :=
  match ws with
  | [] => []
  | w :: ws' => if bool_decide (token w = tok) then f w :: ws' else w :: update_first tok f ws'
  end.

Definition report_work (msg : option bytes) (pct : option Z) (w : Work) : Work :=
  mkWork (token w) (title w)
    (match msg with Some m => Some m | None => message w end)
    (match pct with Some p => Some p | None => percentage w end)
    (began w).

Section tracker.
(** [value.to_string()] of a token that is not a string. *)
Variable value_to_string : Value -> bytes.

Definition token_text (t : Value) : bytes :=
  match t with String s => s | other => value_to_string other end.

(** The [window/workDoneProgress/create] branch. *)
Definition on_create (msg : Value) (now : Z) (s0 : State) : State :=
  let s := see_progress s0 in
  match token_text <$> pointer msg [B "params"; B "token"] with
  | Some tok =>
      if existsb (fun w => bool_decide (token w = tok)) (active s) then s
      else set_active s (active s ++
        [mkWork tok (B "starting") (Some (B "about to begin its work")) None now])
  | None => s
  end.

(** The [$/progress] branch: the new state and whether waiters are notified. *)
Definition on_progress (msg : Value) (now : Z) (s0 : State) : State * bool :=
  match token_text <$> pointer msg [B "params"; B "token"] with
  | None => (s0, false)
  | Some tok =>
      match pointer msg [B "params"; B "value"] with
      | None => (s0, false)
      | Some value =>
          let text key := get_str value key in
          let pct := get value (B "percentage") ≫= as_u64 in
          let s := see_progress s0 in
          match get_str value (B "kind") with
          | Some kind =>
              if bool_decide (kind = B "begin") then
                (set_active s (retain_other tok (active s) ++
                   [mkWork tok (default (B "working") (text (B "title"))) (text (B "message"))
                      pct now]), false)
              else if bool_decide (kind = B "report") then
                (set_active s (update_first tok (report_work (text (B "message")) pct) (active s)),
                 false)
              else if bool_decide (kind = B "end") then
                (set_active s (retain_other tok (active s)), true)
              else (s, false)
          | None => (s, false)
          end
      end
  end.

(** The [window/logMessage] branch. *)
Definition on_log (msg : Value) (sig : ReadySignal) (s : State) : State * bool :=
  match sig with
  | Log ready =>
      match pointer msg [B "params"; B "message"] ≫= as_str with
      | Some line =>
          if ready line then (mkState (started_at s) (active s) (progress_seen s) true, true)
          else (s, false)
      | None => (s, false)
      end
  | _ => (s, false)
  end.

Definition on_message (r : Readiness) (msg : Value) (now : Z) : Readiness * bool :=
  match get_str msg (B "method") with
  | Some method =>
      if bool_decide (method = B "window/workDoneProgress/create") then
        (set_st r (on_create msg now (st r)), false)
      else if bool_decide (method = B "$/progress") then
        let (s, notified) := on_progress msg now (st r) in (set_st r s, notified)
      else if bool_decide (method = B "window/logMessage") then
        let (s, notified) := on_log msg (signal r) (st r) in (set_st r s, notified)
      else (r, false)
  | None => (r, false)
  end.

End tracker.

(** [active.iter().find(|w| w.title != "starting").or_else(|| active.first())]. *)
Definition current_work (ws : list Work) : option Work :=
  match List.find (fun w => negb (bool_decide (title w = B "starting"))) ws with
  | Some w => Some w
  | None => head ws
  end.

Definition state (r : Readiness) (now : Z) : ReadyState :=
  let s := st r in
  match current_work (active s) with
  | Some w =>
      BusyState (mkBusy (title w) (message w) (percentage w)
                   (as_millis_u64 (elapsed now (began w))) false)
  | None =>
      let starting detail :=
        BusyState (mkBusy (B "starting") (Some detail) None
                     (as_millis_u64 (elapsed now (started_at s))) false) in
      match signal r with
      | Progress =>
          if progress_seen s then Ready
          else if elapsed now (started_at s) <? settle r then starting (B "about to load its project")
          else UnknownState
      | Log _ =>
          if logged_ready s then Ready
          else if elapsed now (started_at s) <? LOG_LIMIT then starting (B "setting up its project")
          else UnknownState
      | HoldsQuestions => Ready
      | UnknownSignal => UnknownState
      end
  end.

Definition known (r : Readiness) (now : Z) : bool :=
  match state r now with UnknownState => false | _ => true end.

(** [Readiness::unreported]; the clock is read twice. *)
Definition unreported (r : Readiness) (now now' : Z) : option Busy :=
  let expected := match signal r with Progress | Log _ => true | _ => false end in
  match state r now with
  | UnknownState => if expected
                    then Some (busy_unreported (as_millis_u64 (elapsed now' (started_at (st r)))))
                    else None
  | _ => None
  end.

Definition busy (r : Readiness) (now : Z) : option Busy :=
  match state r now with BusyState b => Some b | Ready | UnknownState => None end.

(** [Readiness::wait]: one element of [polls] per turn of the loop, the tracker as that turn
    finds it and the two clock readings of the turn.  [None] when the turns run out before the
    loop returns. *)
Fixpoint wait (deadline : Z) (polls : list (Readiness * Z * Z)) : option (option Busy) :=
  match polls with
  | [] => None
  | (r, t, now) :: rest =>
      match busy r t with
      | None => Some None
      | Some b => if deadline <=? now then Some (Some b) else wait deadline rest
      end
  end.

(** How long a turn sleeps at most before the next one. *)
Definition wait_sleep (deadline now : Z) : Z := Z.min RECHECK (deadline - now).

(** ** What the tracker promises

    The contract of the tracker is about the messages it was given only: the work a server has
    open is the tokens it announced or began and has not ended since. *)

Section contract.
Variable value_to_string : Value -> bytes.

(** A message about work: the token, and whether the work is open after it. *)
Definition work_event (msg : Value) : option (bytes * bool) :=
  method ← get_str msg (B "method");
  tok ← token_text value_to_string <$> pointer msg [B "params"; B "token"];
  if bool_decide (method = B "window/workDoneProgress/create") then Some (tok, true)
  else if bool_decide (method = B "$/progress") then
    value ← pointer msg [B "params"; B "value"];
    kind ← get_str value (B "kind");
    if bool_decide (kind = B "begin") then Some (tok, true)
    else if bool_decide (kind = B "end") then Some (tok, false)
    else None
  else None.

Definition open_step (open : gset bytes) (msg : Value) : gset bytes :=
  match work_event msg with
  | Some (tok, true) => {[tok]} ∪ open
  | Some (tok, false) => open ∖ {[tok]}
  | None => open
  end.
Definition open_tokens (msgs : list Value) : gset bytes := foldl open_step ∅ msgs.

(** The operations that change a tracker, and a run of them. *)
Inductive op := Initialized | Message (msg : Value).
Definition op_messages (ops : list (op * Z)) : list Value :=
  omap (fun o => match o.1 with Message m => Some m | Initialized => None end) ops.
Definition run_op (r : Readiness) (o : op * Z) : Readiness :=
  match o with
  | (Initialized, now) => started r now
  | (Message msg, now) => fst (on_message value_to_string r msg now)
  end.
Definition run (r : Readiness) (ops : list (op * Z)) : Readiness := foldl run_op r ops.

(** The tracker's work list represents a set of tokens. *)
Definition represents (s : State) (open : gset bytes) : Prop :=
  NoDup (token <$> active s)
  /\ (forall tok, tok ∈ (token <$> active s) <-> tok ∈ open)
  /\ (active s <> [] -> progress_seen s = true).

Lemma tokens_retain tok ws :
  token <$> retain_other tok ws = filter (fun t => t <> tok) (token <$> ws).
Proof.
  induction ws as [|w ws IH]; [done|]. unfold retain_other in *. cbn [fmap list_fmap].
  rewrite !filter_cons. destruct (decide (token w <> tok)); [|exact IH].
  cbn [fmap list_fmap]. f_equal. exact IH.
Qed.

Lemma tokens_update tok f ws :
  (forall w, token (f w) = token w) -> token <$> update_first tok f ws = token <$> ws.
Proof.
  intros Hf. induction ws as [|w ws IH]; [done|]. cbn [update_first].
  case_bool_decide; cbn [fmap list_fmap]; [by rewrite Hf|f_equal; exact IH].
Qed.

Lemma represents_add s open w :
  represents s open -> progress_seen s = true -> token w ∉ open ->
  represents (set_active s (active s ++ [w])) ({[token w]} ∪ open).
Proof.
  intros (Hnd & Hset & _) Hp Hw. unfold represents, set_active. simpl. split_and!; [| |done].
  - rewrite fmap_app. apply NoDup_app. split_and!; [done| |by apply NoDup_singleton].
    intros t Ht Hin. apply list_elem_of_singleton in Hin as ->. by apply Hw, Hset.
  - intros t. rewrite fmap_app, elem_of_app, Hset. cbn [fmap list_fmap].
    rewrite list_elem_of_singleton. set_solver.
Qed.

Lemma represents_remove s open tok :
  represents s open -> progress_seen s = true ->
  represents (set_active s (retain_other tok (active s))) (open ∖ {[tok]}).
Proof.
  intros (Hnd & Hset & _) Hp. unfold represents, set_active. simpl. rewrite tokens_retain.
  split_and!; [by apply NoDup_filter| |done]. intros t. rewrite list_elem_of_filter, Hset. set_solver.
Qed.

Lemma represents_seen s open : represents s open -> represents (see_progress s) open.
Proof. intros (Hnd & Hset & _). by split_and!. Qed.

Lemma existsb_token tok ws :
  existsb (fun w => bool_decide (token w = tok)) ws = bool_decide (tok ∈ token <$> ws).
Proof.
  induction ws as [|w ws IH]; [done|]. simpl. rewrite IH.
  repeat case_bool_decide; try done; set_solver.
Qed.

Lemma on_create_represents msg now s open :
  get_str msg (B "method") = Some (B "window/workDoneProgress/create") ->
  represents s open -> represents (on_create value_to_string msg now s) (open_step open msg).
Proof.
  intros Hm Hr%represents_seen. unfold on_create, open_step, work_event. rewrite Hm. simpl.
  destruct (pointer msg _) as [tok|]; simpl; [|done]. rewrite existsb_token.
  set (t := token_text value_to_string tok). pose proof Hr as (Hnd & Hset & Hp).
  change (active s) with (active (see_progress s)).
  case_bool_decide as Hin.
  - assert (t ∈ open) by (by apply Hset).
    by replace ({[t]} ∪ open) with open by set_solver.
  - apply (represents_add (see_progress s) open (mkWork t _ _ _ _)); [done..|].
    simpl. by rewrite <- Hset.
Qed.

Lemma on_progress_represents msg now s open :
  get_str msg (B "method") = Some (B "$/progress") ->
  represents s open ->
  represents (fst (on_progress value_to_string msg now s)) (open_step open msg).
Proof.
  intros Hm Hr. unfold on_progress, open_step, work_event. rewrite Hm. simpl.
  destruct (pointer msg [B "params"; B "token"]) as [tok|]; simpl; [|done].
  destruct (pointer msg [B "params"; B "value"]) as [value|]; simpl; [|done].
  apply represents_seen in Hr. destruct (get_str value (B "kind")) as [kind|]; simpl; [|done].
  set (t := token_text value_to_string tok).
  case_bool_decide; [|case_bool_decide; [|case_bool_decide; [|done]]]; simpl.
  - pose proof (represents_remove _ _ t Hr eq_refl) as Hr'.
    pose proof (represents_add _ _ (mkWork t (default (B "working") (get_str value (B "title")))
      (get_str value (B "message")) (get value (B "percentage") ≫= as_u64) now) Hr' eq_refl
      ltac:(simpl; set_solver)) as Ha.
    simpl in Ha. by replace ({[t]} ∪ open ∖ {[t]}) with ({[t]} ∪ open) in Ha
      by (apply set_eq; intros x; destruct (decide (x = t)); set_solver).
  - subst kind. simpl. destruct Hr as (Hnd & Hset & _). unfold represents. simpl.
    by rewrite tokens_update.
  - by apply (represents_remove (see_progress s)).
Qed.

Lemma run_op_represents r o open :
  represents (st r) open ->
  represents (st (run_op r o))
    (match o.1 with Message msg => open_step open msg | Initialized => open end).
Proof.
  destruct o as [[|msg] now]; simpl; [done|]. intros Hr. unfold on_message.
  destruct (get_str msg (B "method")) as [method|] eqn:Hm;
    [|unfold open_step, work_event; by rewrite Hm].
  repeat case_bool_decide; subst; simpl.
  - by apply on_create_represents.
  - pose proof (on_progress_represents msg now (st r) open Hm Hr).
    by destruct (on_progress value_to_string msg now (st r)).
  - unfold open_step, work_event. rewrite Hm. simpl. unfold on_log.
    destruct (token_text _ <$> _); simpl; repeat case_match; simplify_eq/=; done.
  - unfold open_step, work_event. rewrite Hm. simpl.
    destruct (token_text _ <$> _); simpl; [|done]. by rewrite !bool_decide_eq_false_2.
Qed.

Lemma run_represents r ops open :
  represents (st r) open ->
  represents (st (run r ops)) (foldl open_step open (op_messages ops)).
Proof.
  revert r open. induction ops as [|[o now] ops IH]; intros r open Hr; [done|].
  pose proof (run_op_represents r (o, now) open Hr) as Hstep.
  destruct o as [|msg]; by apply (IH (run_op r _)).
Qed.

Lemma represents_init sig d t0 : represents (st (with_settle sig d t0)) ∅.
Proof. split_and!; [constructor|set_solver|done]. Qed.
End contract.

Lemma current_work_None ws : current_work ws = None <-> ws = [].
Proof.
  unfold current_work. destruct ws as [|w ws]; [done|]. split; [|done].
  destruct (List.find _ _); [done|]. done.
Qed.

Lemma current_work_in ws w : current_work ws = Some w -> w ∈ ws.
Proof.
  unfold current_work. destruct (List.find _ ws) eqn:E.
  - intros [= ->]. apply List.find_some in E as [E _]. by apply list_elem_of_In.
  - destruct ws; [done|]. intros [= ->]. set_solver.
Qed.

(** C9: the tracker implements its contract.  After any sequence of messages and restarts of
    its clock, the work it lists is exactly the set of tokens the server announced or began and
    has not ended since, each listed once; while there is such work it reports busy. *)
Theorem tracker_refines_open_work (value_to_string : Value -> bytes) sig d t0 ops now :
  let r := run value_to_string (with_settle sig d t0) ops in
  let open := open_tokens value_to_string (op_messages ops) in
  NoDup (token <$> active (st r))
  /\ (forall tok, tok ∈ (token <$> active (st r)) <-> tok ∈ open)
  /\ (open <> ∅ -> exists b, state r now = BusyState b /\ is_unreported b = false).
Proof.
  intros r open. destruct (run_represents value_to_string (with_settle sig d t0) ops ∅
    (represents_init sig d t0)) as (Hnd & Hset & _). split_and!; [done..|].
  intros Hne. unfold state. fold r in Hset |- *.
  destruct (current_work (active (st r))) as [w|] eqn:Hw; [by eexists|].
  apply current_work_None in Hw. exfalso. apply Hne. apply set_eq. intros tok.
  unfold open, open_tokens. rewrite <- Hset, Hw. set_solver.
Qed.

Lemma run_signal value_to_string r ops :
  signal (run value_to_string r ops) = signal r /\ settle (run value_to_string r ops) = settle r.
Proof.
  revert r. induction ops as [|[[|msg] now] ops IH]; intros r; [done|..]; simpl.
  - destruct (IH (started r now)) as [-> ->]. done.
  - destruct (IH (fst (on_message value_to_string r msg now))) as [-> ->].
    unfold on_message. by repeat case_match.
Qed.

(** The longest a server may stay silent before it is no longer taken to be starting. *)
Definition silence_window (sig : ReadySignal) (d : Z) : Z :=
  match sig with Progress => d | Log _ => LOG_LIMIT | _ => 0 end.

(** An answer is called final only with reason, and silence does not hold a question for
    ever.  A tracker says ready only when no work is open and the server has reported progress,
    logged its line or holds questions itself; with no work open it says busy only within the
    settle or log window; and the unreported note is given exactly when a signal was expected
    and the window passed in silence. *)
Theorem ready_state_sound (value_to_string : Value -> bytes) sig d t0 ops now :
  let r := run value_to_string (with_settle sig d t0) ops in
  let open := open_tokens value_to_string (op_messages ops) in
  (state r now = Ready ->
     open = ∅ /\ match sig with
                | Progress => progress_seen (st r) = true
                | Log _ => logged_ready (st r) = true
                | HoldsQuestions => True
                | UnknownSignal => False
                end)
  /\ (busy r now <> None -> open = ∅ -> now - started_at (st r) < silence_window sig d
                                        /\ (sig = Progress -> progress_seen (st r) = false))
  /\ (unreported r now now <> None <-> known r now = false /\ sig <> UnknownSignal).
Proof.
  intros r open. destruct (run_represents value_to_string (with_settle sig d t0) ops ∅
    (represents_init sig d t0)) as (_ & Hset & _). fold r in Hset.
  assert (Hopen : open = ∅ <-> active (st r) = []).
  { split.
    - intros Ho. destruct (active (st r)) as [|w ws] eqn:E; [done|].
      assert (Hw : token w ∈ open) by (apply Hset; set_solver). rewrite Ho in Hw. set_solver.
    - intros E. apply set_eq. intros tok. unfold open, open_tokens. rewrite <- Hset, E. set_solver. }
  destruct (run_signal value_to_string (with_settle sig d t0) ops) as [Hsig Hd]. fold r in Hsig, Hd.
  simpl in Hsig, Hd. unfold unreported, known, busy, state. rewrite Hsig, Hd.
  destruct (current_work (active (st r))) as [w|] eqn:Hw.
  - split_and!; [done| |split; naive_solver].
    intros _ Ho%Hopen. rewrite Ho in Hw. done.
  - apply current_work_None in Hw. apply Hopen in Hw. unfold elapsed, silence_window.
    destruct sig; repeat case_match; split_and!; naive_solver lia.
Qed.

(** The time to wait before asking again is between 5 and 60 seconds; within these bounds
    it is the time the work still needs by its own percentage, rounded up to a second. *)
Theorem retry_after_secs_bounds (b : Busy) :
  0 <= for_ms b <= u64_max ->
  5 <= retry_after_secs b <= 60
  /\ (forall p, b_percentage b = Some p -> 1 <= p <= 99 -> 0 < for_ms b ->
        for_ms b * (100 - p) <= u64_max ->
        let remaining := (for_ms b * (100 - p)) `div` p in
        (5 < retry_after_secs b -> (retry_after_secs b - 1) * 1000 < remaining)
        /\ (retry_after_secs b < 60 -> remaining <= retry_after_secs b * 1000)).
Proof.
  intros Hb. assert (Hc : forall x, 5 <= clamp 5 60 x <= 60)
    by (intros x; unfold clamp; repeat case_match; lia).
  split; [apply Hc|]. intros p Hp Hr Hms Hover remaining. unfold retry_after_secs. rewrite Hp.
  replace (1 <=? p) with true by lia. replace (p <=? 99) with true by lia.
  replace (0 <? for_ms b) with true by lia. cbn [andb].
  unfold saturating_mul. rewrite Z.min_r by done. fold remaining.
  assert (H0 : 0 <= remaining) by (apply Z.div_pos; [apply Z.mul_nonneg_nonneg; lia|lia]).
  unfold div_ceil. pose proof (Z.div_mod remaining 1000 ltac:(lia)) as Hdm.
  pose proof (Z.mod_pos_bound remaining 1000 ltac:(lia)).
  unfold clamp. destruct (remaining `mod` 1000 =? 0) eqn:E; repeat case_match; lia.
Qed.

Lemma retry_after_secs_bounds_witness :
  let b := mkBusy (B "indexing") None (Some 25) 3500 false in
  5 <= retry_after_secs b <= 60 /\ retry_after_secs b = 11.
Proof.
  split; [|vm_compute; reflexivity].
  apply (retry_after_secs_bounds (mkBusy (B "indexing") None (Some 25) 3500 false)).
  vm_compute. split; discriminate.
Defined.

(** Waiting for readiness ends.  Once a turn of the loop finds the deadline passed (no turn
    sleeps past it, nor longer than the recheck interval), the wait has returned; it returns
    nothing only when some turn found the server not busy, and otherwise the work found by the
    first turn at or after the deadline. *)
Theorem wait_returns (deadline : Z) (polls : list (Readiness * Z * Z)) :
  (Exists (fun p => deadline <= p.2) polls) ->
  (forall now, now < deadline -> 0 < wait_sleep deadline now <= RECHECK
                                 /\ now + wait_sleep deadline now <= deadline)
  /\ exists before r t now after,
      polls = before ++ (r, t, now) :: after
      /\ Forall (fun p => p.2 < deadline /\ busy p.1.1 p.1.2 <> None) before
      /\ wait deadline polls = Some (busy r t)
      /\ (busy r t <> None -> deadline <= now).
Proof.
  intros Hex. split.
  { intros now Hn. unfold wait_sleep. change RECHECK with 100000000. lia. }
  induction polls as [|[[r t] now] polls IH]; [by inversion Hex|]. simpl.
  destruct (busy r t) as [b|] eqn:Eb; [|exists [], r, t, now, polls; by rewrite Eb].
  destruct (deadline <=? now) eqn:En.
  - exists [], r, t, now, polls. split_and!; [done..|by rewrite Eb|lia].
  - destruct IH as (before & r' & t' & now' & after & -> & Hb & Hw & Hd).
    { inversion_clear Hex as [?? H|]; [simpl in H; lia|done]. }
    exists ((r, t, now) :: before), r', t', now', after. split_and!; [done| |done..].
    constructor; [|done]. simpl. rewrite Eb. split; [lia|done].
Qed.

Lemma wait_returns_witness :
  let r := started (new Progress 0) 0 in
  exists before r' t now after,
    [(r, 0, 0); (r, millis 100, millis 100)] = before ++ (r', t, now) :: after
    /\ Forall (fun p => p.2 < millis 100 /\ busy p.1.1 p.1.2 <> None) before
    /\ wait (millis 100) [(r, 0, 0); (r, millis 100, millis 100)] = Some (busy r' t)
    /\ (busy r' t <> None -> millis 100 <= now).
Proof.
  apply (wait_returns (millis 100)). right. left. vm_compute. discriminate.
Defined.
