(* ===== verification/Status.v ===== *)
(** * Gateway status and congestion (crates/prod-code-protocol/src/messages/status.rs)

    What a gateway reports of its host, when it counts as short of memory or disk, and the
    congestion score placement compares nodes by.  Shares and scores are [f64] in the code and
    here. *)

From Stdlib Require Import Strings.Byte Floats.SpecFloat.
From S2P Require Import Prelude RustStr F64.

Definition MEMORY_PRESSURE_USED : f64 := lit 85 100.
Definition STORAGE_PRESSURE_FREE : f64 := lit 10 100.

(** ** Host resources *)

Record HostResources := mkHost {
  memory_available_bytes : option Z;
  memory_total_bytes : option Z;
  storage_free_millis : option Z
}.

Definition memory_used_share (h : HostResources) : option f64 :=
  match memory_total_bytes h with
  | Some total =>
      if 0 <? total then
        match memory_available_bytes h with
        | Some available =>
            Some (fsub (of_Z 1) (fdiv (of_Z (Z.min available total)) (of_Z total)))
        | None => None
        end
      else None
  | None => None
  end.

Definition storage_free_share (h : HostResources) : option f64 :=
  (fun m => fdiv (of_Z m) (of_Z 1000)) <$> storage_free_millis h.

Definition whole_percent (share : f64) : Z := to_uint u32_max (fround (fmul share (of_Z 1000))) `div` 10.

Definition memory_text (used : f64) : bytes := B "memory " ++ show (whole_percent used) ++ B "% used".
Definition disk_text (free : f64) : bytes := B "disk " ++ show (whole_percent free) ++ B "% free".

Definition memory_short (h : HostResources) : option f64 :=
  used ← memory_used_share h; if fgt used MEMORY_PRESSURE_USED then Some used else None.
Definition storage_short (h : HostResources) : option f64 :=
  free ← storage_free_share h; if flt free STORAGE_PRESSURE_FREE then Some free else None.

Definition pressure (h : HostResources) : option bytes :=
  let why := match memory_short h with Some used => [memory_text used] | None => [] end
             ++ match storage_short h with Some free => [disk_text free] | None => [] end in
  match why with [] => None | _ => Some (join (B ", ") why) end.

Definition describe (h : HostResources) : bytes :=
  join (B ", ")
    (match memory_used_share h with Some used => [memory_text used] | None => [] end
     ++ match storage_free_share h with Some free => [disk_text free] | None => [] end).

(** ** Status *)

Record RunningCommand := mkRunning { workspace : bytes; command : bytes; running_seconds : Z }.

Record StatusResponse := mkStatus {
  server_pid : Z;
  uptime_seconds : Z;
  active_sessions : Z;
  loaded_workspaces : Z;
  detected_engines : list bytes;
  memory_rss_bytes : option Z;
  total_queries : Z;
  active_queries : Z;
  load_average_millis : option Z;
  cpu_count : option Z;
  platform : option bytes;
  running_commands : list RunningCommand;
  host : HostResources;
  version : option bytes;
  git_commit : option bytes
}.

(** The character U+2026. *)
Definition ellipsis : bytes := [xe2; x80; xa6].

Definition running_line (c : RunningCommand) : bytes :=
  let cs := chars (command c) in
  let shown := concat (take 100 cs) ++ (if 100 <? zlen cs then ellipsis else []) in
  workspace c ++ B "  " ++ show (running_seconds c `div` 60) ++ B "m "
  ++ show (running_seconds c `mod` 60) ++ B "s  " ++ shown.

(** [sort_by_key(|c| Reverse(c.running_seconds))]. *)
Definition sort_running (cs : list RunningCommand) : list RunningCommand :=
  sort_by (fun a b => running_seconds b <=? running_seconds a) cs.

Definition running_lines (s : StatusResponse) : list bytes :=
  map running_line (sort_running (running_commands s)).

Definition load_per_cpu (s : StatusResponse) : option f64 :=
  match load_average_millis s, cpu_count s with
  | Some load, Some cpus =>
      if 0 <? cpus then Some (fdiv (fdiv (of_Z load) (of_Z 1000)) (of_Z cpus)) else None
  | _, _ => None
  end.

Definition memory_rss_mb (s : StatusResponse) : option f64 :=
  (fun b => fdiv (of_Z b) (fmul (of_Z 1024) (of_Z 1024))) <$> memory_rss_bytes s.

(** The memory part of the congestion score. *)
Definition memory_penalty (h : HostResources) (score : f64) : f64 :=
  match memory_used_share h with
  | Some mem_used =>
      let score := if fgt mem_used (lit 70 100)
                   then fadd score (fmul (fsub mem_used (lit 70 100)) (of_Z 8)) else score in
      if fgt mem_used MEMORY_PRESSURE_USED then fadd score (of_Z 50) else score
  | None => fadd score (lit 40 100)
  end.

(** The storage part. *)
Definition storage_penalty (h : HostResources) (score : f64) : f64 :=
  match storage_free_share h with
  | Some disk_free =>
      let score := if flt disk_free (lit 25 100)
                   then fadd score (fmul (fsub (lit 25 100) disk_free) (of_Z 5)) else score in
      if flt disk_free STORAGE_PRESSURE_FREE then fadd score (of_Z 50) else score
  | None => fadd score (lit 40 100)
  end.

Definition density_penalty (s : StatusResponse) (score : f64) : f64 :=
  let score := fadd score (fmul (of_Z (loaded_workspaces s)) (lit 8 100)) in
  let score := fadd score (fmul (of_Z (active_sessions s)) (lit 5 100)) in
  let score := fadd score (fmul (of_Z (active_queries s)) (lit 10 100)) in
  fadd score (fmul (of_Z (zlen (running_commands s))) (lit 35 100)).

Definition congestion_score (s : StatusResponse) : f64 :=
  match pressure (host s) with
  | Some _ => fadd (of_Z 1000) (default (of_Z 1) (load_per_cpu s))
  | None =>
      density_penalty s
        (storage_penalty (host s) (memory_penalty (host s) (default (lit 50 100) (load_per_cpu s))))
  end.

(** ** Properties *)

Lemma pressure_None h : pressure h = None <-> memory_short h = None /\ storage_short h = None.
Proof.
  unfold pressure. destruct (memory_short h), (storage_short h); simpl; naive_solver.
Qed.

(** The score without the two surcharges for a host under pressure. *)
Definition score_below_pressure (s : StatusResponse) : f64 :=
  density_penalty s
    (match storage_free_share (host s) with
     | Some disk_free => fun score =>
         if flt disk_free (lit 25 100)
         then fadd score (fmul (fsub (lit 25 100) disk_free) (of_Z 5)) else score
     | None => fun score => fadd score (lit 40 100)
     end
       (match memory_used_share (host s) with
        | Some mem_used => fun score =>
            if fgt mem_used (lit 70 100)
            then fadd score (fmul (fsub mem_used (lit 70 100)) (of_Z 8)) else score
        | None => fun score => fadd score (lit 40 100)
        end (default (lit 50 100) (load_per_cpu s)))).

(** The congestion score has two regimes.  A host short of memory or disk scores 1000 plus
    its load per CPU, whatever else it holds; any other host scores its load, the memory and
    disk curves and the density of its work.  The two surcharges of 50 for a host past the
    pressure limits are never added: such a host is already in the first regime. *)
Theorem congestion_score_regimes (s : StatusResponse) :
  congestion_score s
  = if bool_decide (pressure (host s) = None) then score_below_pressure s
    else fadd (of_Z 1000) (default (of_Z 1) (load_per_cpu s)).
Proof.
  unfold congestion_score. destruct (pressure (host s)) as [why|] eqn:Ep; [done|].
  rewrite bool_decide_eq_true_2 by done. apply pressure_None in Ep as [Hm Hs].
  unfold score_below_pressure, memory_penalty, storage_penalty. f_equal.
  unfold memory_short, storage_short in *.
  destruct (memory_used_share (host s)) as [used|]; simpl in Hm.
  - destruct (fgt used MEMORY_PRESSURE_USED); [done|].
    destruct (storage_free_share (host s)) as [free|]; simpl in Hs; [|done].
    destruct (flt free STORAGE_PRESSURE_FREE); done.
  - destruct (storage_free_share (host s)) as [free|]; simpl in Hs; [|done].
    destruct (flt free STORAGE_PRESSURE_FREE); done.
Qed.

(** The disk limit and its text are exact.  For every free share a gateway can report, in
    thousandths, the host counts as short of disk exactly under 100 thousandths, and the note
    shows the share in whole percent rounded down, so that a short disk never reads as 10%. *)
Theorem storage_pressure_exact (m : Z) (a t : option Z) :
  0 <= m <= 1000 ->
  let h := mkHost a t (Some m) in
  storage_free_share h = Some (fdiv (of_Z m) (of_Z 1000))
  /\ (is_Some (storage_short h) <-> m < 100)
  /\ disk_text (fdiv (of_Z m) (of_Z 1000)) = B "disk " ++ show (m `div` 10) ++ B "% free".
Proof.
  intros Hm h. split; [done|].
  assert (Hall : forallb (fun k => let x := fdiv (of_Z (Z.of_nat k)) (of_Z 1000) in
    Bool.eqb (flt x STORAGE_PRESSURE_FREE) (Z.of_nat k <? 100)
    && (whole_percent x =? Z.of_nat k `div` 10)) (seq 0 1001) = true) by (vm_compute; reflexivity).
  rewrite forallb_forall in Hall. specialize (Hall (Z.to_nat m)).
  rewrite in_seq, Z2Nat.id in Hall by lia. specialize (Hall ltac:(lia)).
  apply andb_prop in Hall as [H1 H2]. apply Bool.eqb_prop in H1. apply Z.eqb_eq in H2. split.
  - assert (Hs : storage_short h = if m <? 100 then Some (fdiv (of_Z m) (of_Z 1000)) else None)
      by (unfold storage_short; rewrite <- H1; reflexivity).
    rewrite Hs. destruct (m <? 100) eqn:E.
    + split; [lia|by eexists].
    + split; [by intros [? ?]|lia].
  - unfold disk_text. by rewrite H2.
Qed.

Lemma storage_pressure_exact_witness :
  disk_text (fdiv (of_Z 99) (of_Z 1000)) = B "disk 9% free".
Proof.
  destruct (storage_pressure_exact 99 None None) as (_ & _ & H); [lia|].
  rewrite H. vm_compute. reflexivity.
Defined.
