(* ===== verification/Transport.v ===== *)
(** * Socket options and language-server framing (crates/prod-code-protocol/src/transport)

    [parse_buffer_size] reads the configured socket buffer sizes (transport/buffer.rs) and
    [read_lsp_frame] takes one [Content-Length] framed message from a language server's output
    (transport/lsp.rs).  A reader is modelled by the bytes it has still to give before the end
    of the stream; the frame reader returns what it leaves of them. *)

From Stdlib Require Import Strings.Byte.
From S2P Require Import Prelude RustStr Codec.

(** ** Buffer sizes *)

Definition first_suffix (suffixes : list bytes) (s : bytes) : option bytes :=
  foldl (fun found p => match found with Some r => Some r | None => strip_suffix p s end) None suffixes.

Definition giga_suffixes : list bytes := [B "GiB"; B "gib"; B "GB"; B "gb"; B "G"; B "g"].
Definition mega_suffixes : list bytes := [B "MiB"; B "mib"; B "MB"; B "mb"; B "M"; B "m"].
Definition kilo_suffixes : list bytes := [B "KiB"; B "kib"; B "KB"; B "kb"; B "K"; B "k"].
Definition byte_suffixes : list bytes := [B "B"; B "b"].

Definition split_unit (s : bytes) : bytes * Z :=
  match first_suffix giga_suffixes s with
  | Some stripped => (trim stripped, 1024 * 1024 * 1024)
  | None =>
      match first_suffix mega_suffixes s with
      | Some stripped => (trim stripped, 1024 * 1024)
      | None =>
          match first_suffix kilo_suffixes s with
          | Some stripped => (trim stripped, 1024)
          | None =>
              match first_suffix byte_suffixes s with
              | Some stripped => (trim stripped, 1)
              | None => (s, 1)
              end
          end
      end
  end.

Definition checked_mul (max a b : Z) : option Z := if a * b <=? max then Some (a * b) else None.

Definition parse_buffer_size (val : bytes) : option Z :=
  let s := trim val in
  match s with
  | [] => None
  | _ =>
      let (num_part, multiplier) := split_unit s in
      n ← parse_uint usize_max num_part; checked_mul usize_max n multiplier
  end.

(** The buffer sizes [tune] applies, from the values of the three environment variables. *)
Definition tune_sizes (general_var recv_var send_var : option bytes) : option Z * option Z :=
  let general := general_var ≫= parse_buffer_size in
  let or_general o := match o with Some v => Some v | None => general end in
  (or_general (recv_var ≫= parse_buffer_size), or_general (send_var ≫= parse_buffer_size)).

(** ** Language-server frames *)

Definition MAX_LSP_HEADER_BYTES : Z := 64 * 1024.

Inductive LspError :=
| HeadersTooLong | EofInHeaders | EofInHeaderLine | HeadersNotAscii | MalformedHeader
| DuplicateContentLength | InvalidContentLength | BodyLengthOutOfRange | DuplicateContentType
| NotUtf8Charset | MissingContentLength | EofInBody | BodyNotUtf8.

(** [reader.take(n).read_until(b'\n')]: the line with its line feed, and what is left. *)
Fixpoint read_until_lf (n : nat) (s : bytes) : bytes * bytes :=
  match n, s with
  | O, _ | _, [] => ([], s)
  | S n', b :: s' =>
      if Byte.eqb b x0a then ([b], s')
      else let (line, rest) := read_until_lf n' s' in (b :: line, rest)
  end.

Definition last_is (b : byte) (s : bytes) : bool := ends_with [b] s.
(** [line.pop()]. *)
Definition pop (s : bytes) : bytes := ztake (zlen s - 1) s.

(** The headers read so far. *)
Record headers := mkHeaders { h_length : option Z; has_content_type : bool }.

Definition bad_charset (parameter : bytes) : bool :=
  match split_once [x3d] (trim parameter) with
  | Some (key, encoding) =>
      if eq_ignore_ascii_case (trim key) (B "charset") then
        let encoding := trim_matches (Byte.eqb x22) (trim encoding) in
        negb (eq_ignore_ascii_case encoding (B "utf-8")) && negb (eq_ignore_ascii_case encoding (B "utf8"))
      else false
  | None => false
  end.

(** One header line. *)
Definition read_header (max_body : Z) (h : headers) (line : bytes) : result headers LspError :=
  if negb (forallb is_ascii line) then Err HeadersNotAscii
  else
    match split_once [x3a] line with
    | None => Err MalformedHeader
    | Some (name, value) =>
        let value := trim value in
        if eq_ignore_ascii_case name (B "Content-Length") then
          match h_length h with
          | Some _ => Err DuplicateContentLength
          | None =>
              if bool_decide (value = []) || negb (forallb is_ascii_digit value) then
                Err InvalidContentLength
              else
                match parse_uint usize_max value with
                | None => Err InvalidContentLength
                | Some parsed =>
                    if (parsed =? 0) || (max_body <? parsed) then Err BodyLengthOutOfRange
                    else Ok (mkHeaders (Some parsed) (has_content_type h))
                end
          end
        else if eq_ignore_ascii_case name (B "Content-Type") then
          if has_content_type h then Err DuplicateContentType
          else if existsb bad_charset (tail (split x3b value)) then Err NotUtf8Charset
          else Ok (mkHeaders (h_length h) true)
        else Ok h
    end.

Definition lsp_result : Type := result (option bytes) LspError * bytes.

(** The body, once the blank line is read. *)
Definition read_body (h : headers) (s : bytes) : lsp_result :=
  match h_length h with
  | None => (Err MissingContentLength, s)
  | Some length =>
      let body := ztake length s in
      let rest := zdrop length s in
      if negb (zlen body =? length) then (Err EofInBody, rest)
      else if utf8_valid body then (Ok (Some body), rest)
      else (Err BodyNotUtf8, rest)
  end.

(** The header loop; every turn but the last consumes a byte. *)
Fixpoint read_headers (fuel : nat) (max_headers max_body header_bytes : Z) (h : headers) (s : bytes)
    : option lsp_result :=
  match fuel with
  | O => None
  | S fuel' =>
      let remaining := max_headers - header_bytes in
      if remaining =? 0 then Some (Err HeadersTooLong, s)
      else
        let (line, rest) := read_until_lf (Z.to_nat remaining) s in
        let count := zlen line in
        if count =? 0 then
          Some (if header_bytes =? 0 then Ok None else Err EofInHeaders, rest)
        else if negb (last_is x0a line) then
          Some (if count =? remaining then Err HeadersTooLong else Err EofInHeaderLine, rest)
        else
          let line := pop line in
          let line := if last_is x0d line then pop line else line in
          match line with
          | [] => Some (read_body h rest)
          | _ =>
              match read_header max_body h line with
              | Err e => Some (Err e, rest)
              | Ok h' => read_headers fuel' max_headers max_body (header_bytes + count) h' rest
              end
          end
  end.

Definition read_lsp_frame_with_limits (s : bytes) (max_headers max_body : Z) : lsp_result :=
  default (Err EofInHeaders, s)
    (read_headers (S (length s)) max_headers max_body 0 (mkHeaders None false) s).

Definition read_lsp_frame (s : bytes) : lsp_result :=
  read_lsp_frame_with_limits s MAX_LSP_HEADER_BYTES MAX_FRAME_SIZE.

(** ** Lines *)

Lemma read_until_lf_split n s line rest :
  read_until_lf n s = (line, rest) ->
  s = line ++ rest /\ (length line <= n)%nat /\ (line = [] -> s = [] \/ n = O).
Proof.
  revert s line rest. induction n as [|n IH]; intros s line rest; simpl.
  - destruct s; intros [= <- <-]; (split_and!; [done|done|auto]).
  - destruct s as [|b s]; [intros [= <- <-]; split_and!; [done|simpl; lia|auto]|].
    destruct (Byte.eqb b x0a); [intros [= <- <-]; split_and!; [done|simpl; lia|done]|].
    destruct (read_until_lf n s) as [l r] eqn:E. intros [= <- <-].
    destruct (IH _ _ _ E) as (-> & Hl & _). split_and!; [done|simpl; lia|done].
Qed.

Lemma read_until_lf_line n a rest :
  x0a ∉ a -> (length a < n)%nat -> read_until_lf n (a ++ x0a :: rest) = (a ++ [x0a], rest).
Proof.
  revert n. induction a as [|b a IH]; intros [|n] Ha Hn; simpl in *; try lia; [done|].
  destruct (byte_eqb_spec b x0a); [set_solver|]. rewrite IH by (set_solver || lia). done.
Qed.

Lemma last_is_app b s : last_is b (s ++ [b]) = true.
Proof. apply ends_with_spec. eauto. Qed.
Lemma pop_app b s : pop (s ++ [b]) = s.
Proof.
  unfold pop. apply ztake_app_exact. rewrite zlen_app. change (zlen [b]) with 1. lia.
Qed.
Lemma last_is_false b s : last_is b s = false -> forall r, s <> r ++ [b].
Proof. intros H r ->. by rewrite last_is_app in H. Qed.

Lemma not_last_is b s : b ∉ s -> last_is b s = false.
Proof.
  intros H. destruct (last_is b s) eqn:E; [|done]. apply ends_with_spec in E as [r ->]. set_solver.
Qed.

(** ** Frames from any stream *)

Lemma read_header_length max_body h line h' :
  read_header max_body h line = Ok h' ->
  (forall n, h_length h = Some n -> 1 <= n <= max_body) ->
  forall n, h_length h' = Some n -> 1 <= n <= max_body.
Proof.
  unfold read_header. intros Hr Hh n Hn. repeat case_match; simplify_eq/=; auto.
  match goal with H : (_ =? 0) || _ = false |- _ => apply orb_false_iff in H as [? ?] end.
  match goal with H : parse_uint _ _ = Some _ |- _ => unfold parse_uint, from_str_radix in H end.
  assert (0 <= n); [|lia].
  assert (Hpos : forall s acc v, 0 <= acc -> parse_digits 10 acc s = Some v -> 0 <= v).
  { clear. induction s as [|b s IH]; intros acc v Ha; simpl; [by intros [= ->]|].
    destruct (digit_value b) as [d|] eqn:E; [|done]. destruct (d <? 10); [|done]. apply IH.
    unfold digit_value, is_ascii_digit, is_ascii_lowercase, is_ascii_uppercase, in_range in E.
    repeat case_match; simplify_eq; lia. }
  repeat case_match; simplify_eq; eapply Hpos; eauto; lia.
Qed.

Lemma read_body_ok h s r rest :
  read_body h s = (r, rest) ->
  consumed s rest /\ r <> Ok None
  /\ (forall body, r = Ok (Some body) ->
        s = body ++ rest /\ utf8_valid body = true /\ h_length h = Some (zlen body)).
Proof.
  unfold read_body. destruct (h_length h) as [n|]; intros Hr.
  - destruct (negb (zlen (ztake n s) =? n)) eqn:E.
    { simplify_eq. split_and!; [apply consumed_zdrop|done|done]. }
    destruct (utf8_valid (ztake n s)) eqn:Eu; simplify_eq.
    + split_and!; [apply consumed_zdrop|done|]. intros body [= <-].
      split_and!; [by rewrite ztake_zdrop|done|]. f_equal. apply negb_false_iff, Z.eqb_eq in E. done.
    + split_and!; [apply consumed_zdrop|done|done].
  - simplify_eq. split_and!; [apply consumed_refl|done|done].
Qed.

(** What one read of a frame may do with the bytes it is given. *)
Definition frame_ok (max_headers max_body header_bytes : Z) (s : bytes) (res : lsp_result) : Prop :=
  let (r, rest) := res in
  consumed s rest
  /\ (r = Ok None -> s = [] /\ header_bytes = 0)
  /\ (forall body, r = Ok (Some body) ->
        exists hdr, s = hdr ++ body ++ rest /\ 1 <= zlen hdr /\ header_bytes + zlen hdr <= max_headers
          /\ 1 <= zlen body <= max_body /\ utf8_valid body = true).

Lemma read_headers_ok fuel max_headers max_body header_bytes h s :
  (length s < fuel)%nat -> 0 <= header_bytes <= max_headers ->
  (forall n, h_length h = Some n -> 1 <= n <= max_body) ->
  exists res, read_headers fuel max_headers max_body header_bytes h s = Some res
    /\ frame_ok max_headers max_body header_bytes s res.
Proof.
  revert header_bytes h s. induction fuel as [|fuel IH]; intros hb h s Hf Hb Hh; [lia|].
  cbn [read_headers]. destruct (max_headers - hb =? 0) eqn:E0.
  { eexists. split; [done|]. split_and!; [apply consumed_refl|done|done]. }
  apply Z.eqb_neq in E0. destruct (read_until_lf _ s) as [line rest] eqn:El.
  destruct (read_until_lf_split _ _ _ _ El) as (-> & Hlen & Hnil).
  assert (Hc : consumed (line ++ rest) rest) by (by exists line).
  destruct (zlen line =? 0) eqn:Ez.
  { eexists. split; [done|]. apply Z.eqb_eq, zlen_0_inv in Ez as ->.
    destruct (Hnil eq_refl) as [Hs|Hn]; [|lia]. simpl in Hs. subst.
    destruct (hb =? 0) eqn:Eh; split_and!; try done; intros; (done || split; [done|lia]). }
  destruct (negb (last_is x0a line)).
  { eexists. split; [done|]. by destruct (zlen line =? max_headers - hb). }
  assert (Hline : 1 <= zlen line /\ hb + zlen line <= max_headers)
    by (apply Z.eqb_neq in Ez; pose proof (zlen_nonneg line); unfold zlen in *; lia).
  set (line' := if last_is x0d (pop line) then _ else _). destruct line' as [|b l'].
  { destruct (read_body h rest) as [r rest'] eqn:Eb. eexists. split; [done|].
    destruct (read_body_ok _ _ _ _ Eb) as (Hcons & Hnone & Hbody). split_and!.
    - by eapply consumed_trans.
    - done.
    - intros body Hr. destruct (Hbody body Hr) as (-> & Hu & Hl). exists line.
      split_and!; [done|lia|lia|by apply Hh..|done]. }
  destruct (read_header max_body h (b :: l')) as [h'|e] eqn:Er; [|by eexists].
  destruct (IH (hb + zlen line) h' rest) as ([r rest'] & Hres & (Hcons & Hnone & Hbody)).
  - rewrite length_app in Hf. unfold zlen in *. lia.
  - lia.
  - by eapply read_header_length.
  - exists (r, rest'). split; [done|]. split_and!.
    + by eapply consumed_trans.
    + intros Hr. destruct (Hnone Hr). lia.
    + intros body Hr. destruct (Hbody body Hr) as (hdr & -> & H1 & Hmax & Hb' & Hu).
      exists (line ++ hdr). rewrite <- app_assoc, zlen_app. split_and!; [done|lia|lia|lia|lia|done].
Qed.

(** Reading a frame is safe on any stream.  Whatever a language server writes, the read
    ends; it takes bytes from the front of the stream only; it reports a clean end only when the
    stream is empty; and a frame it returns is a UTF-8 body of 1 byte up to the body limit that
    follows a header block within the header limit. *)
Theorem read_lsp_frame_safe (s : bytes) (max_headers max_body : Z) :
  0 <= max_headers ->
  is_Some (read_headers (S (length s)) max_headers max_body 0 (mkHeaders None false) s)
  /\ frame_ok max_headers max_body 0 s (read_lsp_frame_with_limits s max_headers max_body).
Proof.
  intros Hm. destruct (read_headers_ok (S (length s)) max_headers max_body 0 (mkHeaders None false) s)
    as (res & Hres & Hok); [lia|lia|done|].
  unfold read_lsp_frame_with_limits. rewrite Hres. split; [by eexists|done].
Qed.

Lemma read_lsp_frame_safe_witness :
  frame_ok 64 1000 0 (B "Content-Length: 2") (Err EofInHeaderLine, [])
  /\ read_lsp_frame_with_limits (B "Content-Length: 2") 64 1000 = (Err EofInHeaderLine, []).
Proof.
  split; [|vm_compute; reflexivity].
  apply (read_lsp_frame_safe (B "Content-Length: 2") 64 1000). lia.
Defined.

(** A message as servers frame it. *)
Definition lsp_frame (body : bytes) : bytes :=
  B "Content-Length: " ++ show (zlen body) ++ crlf ++ crlf ++ body.

(** A reader that takes frames until the clean end of the stream. *)
Fixpoint read_frames (n : nat) (s : bytes) : list bytes * result unit LspError :=
  match n with
  | O => ([], Err EofInHeaders)
  | S n' =>
      match read_lsp_frame s with
      | (Ok (Some body), rest) => let (bodies, r) := read_frames n' rest in (body :: bodies, r)
      | (Ok None, _) => ([], Ok tt)
      | (Err e, _) => ([], Err e)
      end
  end.

Definition lsp_body (body : bytes) : Prop :=
  utf8_valid body = true /\ 1 <= zlen body <= MAX_FRAME_SIZE.

Lemma trim_space_word w : graphic w -> trim (x20 :: w) = trim w.
Proof. intros Hw. unfold trim. simpl. reflexivity. Qed.

Lemma digits_forallb s : digits s -> forallb is_ascii_digit s = true.
Proof. intros H. by apply forallb_Forall. Qed.

Lemma length_header_line n :
  1 <= n <= MAX_FRAME_SIZE ->
  read_header MAX_FRAME_SIZE (mkHeaders None false) (B "Content-Length: " ++ show n)
  = Ok (mkHeaders (Some n) false).
Proof.
  intros Hn. pose proof (show_digits n ltac:(lia)) as Hd.
  pose proof (digits_graphic _ Hd) as Hg. unfold read_header.
  assert (Ha : forallb is_ascii (B "Content-Length: " ++ show n) = true).
  { rewrite forallb_app. apply andb_true_iff. split; [done|]. apply forallb_Forall.
    by apply graphic_ascii in Hg. }
  rewrite Ha. cbn [negb].
  change (B "Content-Length: " ++ show n) with (B "Content-Length" ++ x3a :: x20 :: show n).
  rewrite split_once_byte by (by_decide).
  rewrite trim_space_word, trim_word by done.
  change (eq_ignore_ascii_case (B "Content-Length") (B "Content-Length")) with true.
  cbn [h_length]. rewrite bool_decide_eq_false_2 by apply show_nonempty.
  rewrite digits_forallb by done. cbn [negb orb].
  rewrite parse_show by (unfold MAX_FRAME_SIZE in Hn; unfold usize_max, u64_max; lia).
  replace (n =? 0) with false by lia. replace (MAX_FRAME_SIZE <? n) with false by lia. done.
Qed.

Lemma zlen_show_le z : 0 <= z <= MAX_FRAME_SIZE -> (length (show z) <= 29)%nat.
Proof.
  intros Hz. assert (Hf : forall n w, (length (show_fuel n w) <= n)%nat).
  { induction n as [|n IH]; intros w; simpl; [lia|]. destruct (w <? 10); simpl; [lia|].
    rewrite length_app. simpl. specialize (IH (w `div` 10)). lia. }
  unfold show. specialize (Hf (S (Z.to_nat (Z.log2 z))) z).
  assert (Z.log2 z <= 28); [|lia]. etrans; [apply Z.log2_le_mono, Hz|]. vm_compute. done.
Qed.

Lemma read_one_frame body rest :
  lsp_body body -> read_lsp_frame (lsp_frame body ++ rest) = (Ok (Some body), rest).
Proof.
  intros [Hu Hlen]. unfold read_lsp_frame, read_lsp_frame_with_limits, lsp_frame.
  set (hl := B "Content-Length: " ++ show (zlen body)).
  pose proof (show_digits (zlen body) ltac:(lia)) as Hd.
  assert (Hno : forall c, u8 c < 32 -> c ∉ hl).
  { intros c Hc. unfold hl. rewrite elem_of_app. intros [H|H].
    - apply (list_elem_of_In (B "Content-Length: ") c) in H. simpl in H.
      repeat (destruct H as [<-|H]; [vm_compute in Hc; done|]). done.
    - unfold digits in Hd. rewrite Forall_forall in Hd. specialize (Hd c H). simpl in Hd.
      unfold is_ascii_digit, in_range in Hd. lia. }
  assert (Hl : (length hl <= 45)%nat).
  { unfold hl. rewrite length_app. pose proof (zlen_show_le (zlen body) ltac:(lia)). simpl. lia. }
  replace ((B "Content-Length: " ++ show (zlen body) ++ crlf ++ crlf ++ body) ++ rest)
    with ((hl ++ [x0d]) ++ x0a :: [x0d] ++ x0a :: body ++ rest)
    by (unfold hl, crlf; simpl; by rewrite <- !app_assoc).
  destruct (length ((hl ++ [x0d]) ++ x0a :: [x0d] ++ x0a :: body ++ rest)) as [|fuel] eqn:Ef;
    [rewrite !length_app in Ef; simpl in Ef; lia|]. clear Ef.
  cbn [read_headers]. change (MAX_LSP_HEADER_BYTES - 0 =? 0) with false. cbv iota.
  rewrite read_until_lf_line;
    [|rewrite elem_of_app; intros [H|H]; [by apply (Hno x0a) in H|by apply list_elem_of_singleton in H]
     |rewrite length_app; cbn [length]; unfold MAX_LSP_HEADER_BYTES; lia].
  assert (Hz1 : zlen ((hl ++ [x0d]) ++ [x0a]) = zlen hl + 2)
    by (rewrite !zlen_app; change (zlen [x0d]) with 1; change (zlen [x0a]) with 1; lia).
  rewrite Hz1. pose proof (zlen_nonneg hl). replace (zlen hl + 2 =? 0) with false by lia.
  rewrite last_is_app. cbn [negb]. rewrite pop_app, last_is_app, pop_app.
  assert (Hhl : read_header MAX_FRAME_SIZE (mkHeaders None false) hl = Ok (mkHeaders (Some (zlen body)) false))
    by (by apply length_header_line).
  destruct hl as [|b hl'] eqn:Ehl; [done|]. rewrite Hhl. rewrite <- Ehl in *.
  cbn [read_headers]. replace (MAX_LSP_HEADER_BYTES - (0 + (zlen hl + 2)) =? 0) with false
    by (unfold MAX_LSP_HEADER_BYTES, zlen; lia).
  rewrite read_until_lf_line;
    [|by intros H'%list_elem_of_singleton|cbn [length]; unfold MAX_LSP_HEADER_BYTES, zlen; lia].
  change (zlen ([x0d] ++ [x0a]) =? 0) with false. cbv iota.
  rewrite last_is_app. cbn [negb]. rewrite pop_app. change (last_is x0d [x0d]) with true.
  change (pop [x0d]) with (@nil byte). cbv iota. unfold read_body. cbn [h_length].
  rewrite ztake_app_exact, zdrop_app_exact, Z.eqb_refl, Hu by done. done.
Qed.

Lemma read_frames_S n s :
  read_frames (S n) s
  = match read_lsp_frame s with
    | (Ok (Some body), rest) => let (bodies, r) := read_frames n rest in (body :: bodies, r)
    | (Ok None, _) => ([], Ok tt)
    | (Err e, _) => ([], Err e)
    end.
Proof. reflexivity. Qed.

(** Framed messages are read back.  A stream of framed UTF-8 messages, each of 1 byte up
    to the limit, is read as exactly these messages in order and then as a clean end. *)
Theorem lsp_stream_roundtrip (bodies : list bytes) :
  Forall lsp_body bodies ->
  read_frames (S (length bodies)) (concat (map lsp_frame bodies)) = (bodies, Ok tt).
Proof.
  induction 1 as [|body bodies Hb _ IH]; [vm_compute; reflexivity|].
  cbn [length map concat]. rewrite read_frames_S, read_one_frame by done. by rewrite IH.
Qed.

Lemma lsp_stream_roundtrip_witness :
  read_frames 3 (concat (map lsp_frame [B "{}"; B "[1]"])) = ([B "{}"; B "[1]"], Ok tt).
Proof.
  apply (lsp_stream_roundtrip [B "{}"; B "[1]"]).
  repeat constructor; vm_compute; discriminate.
Defined.

(** ** Sizes *)

(** The units a size may carry, with their factors. *)
Definition units : list (bytes * Z) :=
  map (fun u => (u, 1024 * 1024 * 1024)) giga_suffixes
  ++ map (fun u => (u, 1024 * 1024)) mega_suffixes
  ++ map (fun u => (u, 1024)) kilo_suffixes
  ++ map (fun u => (u, 1)) byte_suffixes ++ [([], 1)].

(** The unit found at the end of a size, before the number is trimmed. *)
Definition first_unit (s : bytes) : option (bytes * Z) :=
  match first_suffix giga_suffixes s with
  | Some x => Some (x, 1024 * 1024 * 1024)
  | None =>
      match first_suffix mega_suffixes s with
      | Some x => Some (x, 1024 * 1024)
      | None =>
          match first_suffix kilo_suffixes s with
          | Some x => Some (x, 1024)
          | None => match first_suffix byte_suffixes s with Some x => Some (x, 1) | None => None end
          end
      end
  end.

Lemma split_unit_first s :
  split_unit s = match first_unit s with Some (x, f) => (trim x, f) | None => (s, 1) end.
Proof. unfold split_unit, first_unit. by repeat case_match; simplify_eq. Qed.

Lemma digit_cases c : is_ascii_digit c = true -> c ∈ B "0123456789".
Proof.
  revert c. apply (byte_forall (fun c => is_ascii_digit c = true -> c ∈ B "0123456789")).
  vm_compute. reflexivity.
Qed.

Lemma first_unit_number c t u factor :
  is_ascii_digit c = true -> (u, factor) ∈ units ->
  first_unit (reverse (c :: t) ++ u)
  = match u with [] => None | _ => Some (reverse (c :: t), factor) end.
Proof.
  intros Hc Hu. apply digit_cases, list_elem_of_In in Hc. apply list_elem_of_In in Hu.
  unfold first_unit, first_suffix, strip_suffix. cbn [foldl giga_suffixes mega_suffixes kilo_suffixes byte_suffixes].
  rewrite !reverse_app, !reverse_involutive.
  repeat (destruct Hu as [[= <- <-]|Hu];
    [repeat (destruct Hc as [<-|Hc]; [vm_compute; reflexivity|]); destruct Hc|]).
  destruct Hu.
Qed.

Lemma split_unit_number s u factor :
  digits s -> s <> [] -> (u, factor) ∈ units -> split_unit (s ++ u) = (s, factor).
Proof.
  intros Hd Hne Hu. rewrite split_unit_first.
  destruct (exists_last Hne) as (r & c & E).
  assert (Hs : s = reverse (c :: reverse r)) by (by rewrite reverse_cons, reverse_involutive).
  assert (Hc : is_ascii_digit c = true)
    by (rewrite E in Hd; apply Forall_app in Hd as [_ Hd]; by inversion_clear Hd).
  rewrite Hs, (first_unit_number c _ u factor), <- Hs by done.
  destruct u as [|b u]; [|by rewrite trim_word by (by apply digits_graphic)].
  rewrite app_nil_r. apply list_elem_of_In in Hu. simpl in Hu.
  repeat (destruct Hu as [Hu|Hu]; [by simplify_eq|]). done.
Qed.

Lemma units_graphic u factor : (u, factor) ∈ units -> graphic u /\ 0 < factor.
Proof.
  intros Hu. apply list_elem_of_In in Hu. simpl in Hu.
  repeat (destruct Hu as [[= <- <-]|Hu]; [split; [by repeat constructor|done]|]). done.
Qed.

(** Configured sizes mean what they say.  A number with any of the accepted units
    is read as that number of bytes, kibibytes, mebibytes or gibibytes when it fits in a machine
    word, and is refused when it does not; nothing read ever exceeds a machine word. *)
Theorem parse_buffer_size_units (n : Z) (u : bytes) (factor : Z) :
  0 <= n -> (u, factor) ∈ units ->
  parse_buffer_size (show n ++ u)
  = (if n * factor <=? usize_max then Some (n * factor) else None)
  /\ (forall val v, parse_buffer_size val = Some v -> v <= usize_max).
Proof.
  intros Hn Hu. split.
  - destruct (units_graphic u factor Hu) as [Hg Hf].
    pose proof (show_digits n Hn) as Hd. pose proof (show_nonempty n) as Hne.
    unfold parse_buffer_size. rewrite trim_word by (apply graphic_app; split; [by apply digits_graphic|done]).
    destruct (show n ++ u) as [|b s] eqn:E; [by apply app_nil in E as [? _]|]. rewrite <- E. clear E b s.
    rewrite (split_unit_number (show n) u factor) by done. unfold checked_mul.
    rewrite parse_show_eq by done. destruct (n <=? usize_max) eqn:E; [done|]. simpl.
    replace (n * factor <=? usize_max) with false; [done|]. symmetry. apply Z.leb_gt.
    apply Z.leb_gt in E. nia.
  - intros val v. unfold parse_buffer_size. destruct (trim val); [done|].
    destruct (split_unit _) as [num f]. intros (m & _ & Hm)%bind_Some. unfold checked_mul in Hm.
    case_match; simplify_eq. lia.
Qed.

Lemma parse_buffer_size_units_witness :
  parse_buffer_size (show 16 ++ B "MiB") = Some (16 * (1024 * 1024)).
Proof.
  destruct (parse_buffer_size_units 16 (B "MiB") (1024 * 1024)) as [H _].
  - lia.
  - apply (bool_decide_unpack _). vm_compute. exact I.
  - rewrite H. vm_compute. reflexivity.
Defined.
