(* ===== verification/Dns.v ===== *)
(** * DNS datagrams (crates/prod-code-protocol/src/dns/wire.rs and types.rs)

    The gateway answers DNS queries for the cluster's virtual domains and the client asks them:
    names in label format with compression pointers on input, questions, and answers of the
    three record types the program uses.  Offsets are [usize] values; a function that advances
    one returns it next to its result, also when it fails. *)

From Stdlib Require Import Strings.Byte.
From S2P Require Import Prelude RustStr.

(** ** Types *)

Definition CODE_INTERNAL_SUFFIX : bytes := B ".code.internal".
Definition CODE_INTERNAL_ROOT : bytes := B "code.internal".
Definition SRV_SERVICE_NAME : bytes := B "_prod-code._tcp".
Definition SRV_SERVICE_DOMAIN : bytes := B "_prod-code._tcp.code.internal".

Inductive DnsQueryType := A | TXT | SRV | ANY | Other (v : Z).

Definition from_u16 (val : Z) : DnsQueryType :=
  if val =? 1 then A
  else if val =? 16 then TXT
  else if val =? 33 then SRV
  else if val =? 255 then ANY
  else Other val.

Definition to_u16 (t : DnsQueryType) : Z :=
  match t with A => 1 | TXT => 16 | SRV => 33 | ANY => 255 | Other v => v end.

Record DnsQuestion := mkQuestion { name : bytes; qtype : DnsQueryType; qclass : Z }.

Record DnsSrvRecord := mkSrv { priority : Z; weight : Z; srv_port : Z; target : bytes }.

Inductive DnsRecordData :=
| DataA (a b c d : byte)
| DataSRV (srv : DnsSrvRecord)
| DataTXT (txt : bytes).

Record DnsAnswer := mkAnswer { ans_name : bytes; ttl : Z; data : DnsRecordData }.

Inductive DnsError :=
| PointerLoop | UnexpectedEof | TruncatedPointer | TruncatedLabel | InvalidUtf8
| PacketTooShort | NoQuestions | TruncatedQuestion | ReplyTooShort.

(** ** Names *)

Definition dot : byte := x2e.

Definition encode_label (label : bytes) : bytes :=
  match label with
  | [] => []
  | _ => let len := Z.min (zlen label) 63 in byte_of_Z len :: ztake len label
  end.

Definition encode_dns_name (name : bytes) : bytes :=
  concat (map encode_label (split dot (trim_matches (Byte.eqb dot) name))) ++ [x00].

(** The loop of [decode_dns_name]: the offset it leaves and the labels read. *)
Fixpoint decode_loop (fuel : nat) (buf : bytes) (jumped : bool) (current depth offset : Z)
    (labels : list bytes) : option (Z * result (list bytes) DnsError) :=
  match fuel with
  | O => None
  | S fuel' =>
      if 10 <? depth then Some (offset, Err PointerLoop)
      else if zlen buf <=? current then Some (offset, Err UnexpectedEof)
      else
        let len := u8 (at_ buf current) in
        if len =? 0 then Some (if jumped then offset else current + 1, Ok labels)
        else if Z.land len 0xC0 =? 0xC0 then
          if zlen buf <=? current + 1 then Some (offset, Err TruncatedPointer)
          else
            let ptr := Z.lor (Z.shiftl (Z.land len 0x3F) 8) (u8 (at_ buf (current + 1))) in
            decode_loop fuel' buf true ptr (depth + 1)
              (if jumped then offset else current + 2) labels
        else
          let current := current + 1 in
          if zlen buf <? current + len then Some (offset, Err TruncatedLabel)
          else
            let label := slice current (current + len) buf in
            if negb (utf8_valid label) then Some (offset, Err InvalidUtf8)
            else
              decode_loop fuel' buf jumped (current + len) depth
                (if jumped then offset else current + len) (labels ++ [label])
  end.

(** Steps that are always enough: between two of at most eleven pointers every step moves
    forward in the datagram. *)
Definition decode_fuel (buf : bytes) : nat := (12 * S (length buf))%nat.

Definition decode_dns_name (buf : bytes) (offset : Z) : Z * result bytes DnsError :=
  match decode_loop (decode_fuel buf) buf false offset 0 offset [] with
  | Some (off, Ok labels) => (off, Ok (join [dot] labels))
  | Some (off, Err e) => (off, Err e)
  | None => (offset, Err PointerLoop)
  end.

(** ** Queries *)

Definition u16_at (buf : bytes) (i : Z) : Z := from_be_bytes [at_ buf i; at_ buf (i + 1)].
Definition u32_at (buf : bytes) (i : Z) : Z :=
  from_be_bytes [at_ buf i; at_ buf (i + 1); at_ buf (i + 2); at_ buf (i + 3)].
Definition u16_be (v : Z) : bytes := to_be_bytes 2 v.
Definition u32_be (v : Z) : bytes := to_be_bytes 4 v.

Definition parse_dns_query (buf : bytes) : result (Z * DnsQuestion) DnsError :=
  if zlen buf <? 12 then Err PacketTooShort
  else
    let id := u16_at buf 0 in
    if u16_at buf 4 =? 0 then Err NoQuestions
    else
      match decode_dns_name buf 12 with
      | (_, Err e) => Err e
      | (offset, Ok name) =>
          if zlen buf <? offset + 4 then Err TruncatedQuestion
          else Ok (id, mkQuestion name (from_u16 (u16_at buf offset)) (u16_at buf (offset + 2)))
      end.

(** The datagram [query_dns] sends. *)
Definition query_id : Z := 0x4242.
Definition build_query (domain : bytes) (t : DnsQueryType) : bytes :=
  u16_be query_id ++ u16_be 0x0100 ++ u16_be 1 ++ u16_be 0 ++ u16_be 0 ++ u16_be 0
  ++ encode_dns_name domain ++ u16_be (to_u16 t) ++ u16_be 1.

(** ** Responses *)

Definition encode_rdata (t : Z) (ttl : Z) (rdata : bytes) : bytes :=
  u16_be t ++ u16_be 1 ++ u32_be ttl ++ rdata.

Definition encode_answer (ans : DnsAnswer) : bytes :=
  encode_dns_name (ans_name ans) ++
  match data ans with
  | DataA a b c d => encode_rdata 1 (ttl ans) (u16_be 4 ++ [a; b; c; d])
  | DataSRV srv =>
      let target_bytes := encode_dns_name (target srv) in
      encode_rdata 33 (ttl ans)
        (u16_be (6 + zlen target_bytes) ++ u16_be (priority srv) ++ u16_be (weight srv)
         ++ u16_be (srv_port srv) ++ target_bytes)
  | DataTXT txt =>
      let len := Z.min (zlen txt) 255 in
      encode_rdata 16 (ttl ans) (u16_be (len + 1) ++ byte_of_Z len :: ztake len txt)
  end.

Definition response_flags (authoritative : bool) (rcode : Z) : Z :=
  Z.lor (if authoritative then Z.lor 0x8180 0x0400 else 0x8180) (Z.land rcode 0x000F).

Definition format_dns_response (id : Z) (question : DnsQuestion) (answers : list DnsAnswer)
    (authoritative : bool) (rcode : Z) : bytes :=
  u16_be id ++ u16_be (response_flags authoritative rcode) ++ u16_be 1
  ++ u16_be (zlen answers) ++ u16_be 0 ++ u16_be 0
  ++ encode_dns_name (name question) ++ u16_be (to_u16 (qtype question)) ++ u16_be (qclass question)
  ++ concat (map encode_answer answers).

(** The record at [offset] (after its name and fixed fields), when it is one that is kept. *)
Definition parse_rdata (resp : bytes) (rtype offset rdlength : Z) : option DnsRecordData :=
  match from_u16 rtype with
  | A => if rdlength =? 4
         then Some (DataA (at_ resp offset) (at_ resp (offset + 1)) (at_ resp (offset + 2))
                          (at_ resp (offset + 3)))
         else None
  | SRV => if 6 <=? rdlength then
             match decode_dns_name resp (offset + 6) with
             | (_, Ok t) => Some (DataSRV (mkSrv (u16_at resp offset) (u16_at resp (offset + 2))
                                             (u16_at resp (offset + 4)) t))
             | (_, Err _) => None
             end
           else None
  | TXT => if 0 <? rdlength then
             let txt_len := u8 (at_ resp offset) in
             if offset + 1 + txt_len <=? zlen resp
             then Some (DataTXT (utf8_lossy (slice (offset + 1) (offset + 1 + txt_len) resp)))
             else None
           else None
  | _ => None
  end.

(** The answer loop of [query_dns]. *)
Fixpoint parse_answers (resp : bytes) (count : nat) (offset : Z) : list DnsAnswer :=
  match count with
  | O => []
  | S count' =>
      if zlen resp <=? offset then []
      else
        match decode_dns_name resp offset with
        | (_, Err _) => []
        | (offset, Ok n) =>
            if zlen resp <? offset + 10 then []
            else
              let rtype := u16_at resp offset in
              let t := u32_at resp (offset + 4) in
              let rdlength := u16_at resp (offset + 8) in
              let offset := offset + 10 in
              if zlen resp <? offset + rdlength then []
              else
                let rest := parse_answers resp count' (offset + rdlength) in
                match parse_rdata resp rtype offset rdlength with
                | Some d => mkAnswer n t d :: rest
                | None => rest
                end
        end
  end.

(** What [query_dns] makes of the datagram it receives. *)
Definition parse_reply (resp : bytes) : result (list DnsAnswer) DnsError :=
  if zlen resp <? 12 then Err ReplyTooShort
  else
    let ancount := u16_at resp 6 in
    let offset := fst (decode_dns_name resp 12) in
    Ok (parse_answers resp (Z.to_nat ancount) (offset + 4)).

(** ** Reading at a position *)

Lemma at_shift pre l i : 0 <= i -> at_ (pre ++ l) (zlen pre + i) = at_ l i.
Proof.
  intros Hi. rewrite at_app_r by lia. f_equal. lia.
Qed.

Lemma u16_be_bytes v : exists a b, u16_be v = [a; b].
Proof. unfold u16_be. simpl. eauto. Qed.

Lemma u16_at_app pre v post i :
  0 <= v < 65536 -> i = zlen pre -> u16_at (pre ++ u16_be v ++ post) i = v.
Proof.
  intros Hv ->. pose proof (from_to_be_bytes_small 2 v Hv) as Hr. unfold u16_at.
  destruct (u16_be_bytes v) as (a & b & E). rewrite E. unfold u16_be in E. rewrite E in Hr.
  rewrite <- (Z.add_0_r (zlen pre)) at 1. by rewrite !at_shift.
Qed.

Lemma u32_at_app pre v post i :
  0 <= v < 2 ^ 32 -> i = zlen pre -> u32_at (pre ++ u32_be v ++ post) i = v.
Proof.
  intros Hv ->. pose proof (from_to_be_bytes_small 4 v Hv) as Hr. unfold u32_at, u32_be.
  pose proof (length_to_be_bytes 4 v) as Hl.
  destruct (to_be_bytes 4 v) as [|a [|b [|c [|d [|]]]]]; try done.
  rewrite <- (Z.add_0_r (zlen pre)) at 1. by rewrite !at_shift.
Qed.

Lemma zlen_u16_be v : zlen (u16_be v) = 2.
Proof. apply zlen_to_be_bytes. Qed.
Lemma zlen_u32_be v : zlen (u32_be v) = 4.
Proof. apply zlen_to_be_bytes. Qed.

Lemma slice_app (pre l post : bytes) a b :
  a = zlen pre -> b = zlen pre + zlen l -> slice a b (pre ++ l ++ post) = l.
Proof.
  intros -> ->. unfold slice. rewrite zdrop_app_exact by done. apply ztake_app_exact. lia.
Qed.

(** ** Names *)

(** Labels a name can carry both ways: not empty, no dot, at most 63 bytes of UTF-8. *)
Definition valid_label (l : bytes) : Prop :=
  l <> [] /\ dot ∉ l /\ zlen l <= 63 /\ utf8_valid l = true.

Definition valid_name (n : bytes) (ls : list bytes) : Prop :=
  Forall valid_label ls /\ n = join [dot] ls.

Definition wire_label (l : bytes) : bytes := byte_of_Z (zlen l) :: l.
Definition wire_name (ls : list bytes) : bytes := concat (map wire_label ls) ++ [x00].

Lemma join_ends ls :
  ls <> [] -> Forall valid_label ls ->
  (exists x r, join [dot] ls = x :: r /\ x <> dot)
  /\ (exists r x, join [dot] ls = r ++ [x] /\ x <> dot).
Proof.
  induction ls as [|l ls IH]; intros Hne Hls; [done|].
  apply List.Forall_cons_iff in Hls as [(Hl & Hdot & _) Hls'].
  assert (Hl1 : exists x r, l = x :: r /\ x <> dot)
    by (destruct l as [|y r]; [done|]; exists y, r; split; [done|set_solver]).
  destruct ls as [|l' ls].
  - simpl. split; [done|]. destruct (exists_last Hl) as (r & x & ->). exists r, x.
    split; [done|]. set_solver.
  - change (join [dot] (l :: l' :: ls)) with (l ++ [dot] ++ join [dot] (l' :: ls)).
    destruct (IH ltac:(done) Hls') as [_ (r & x & Hr & Hx)]. split.
    + destruct Hl1 as (y & r' & -> & Hy). by eexists y, _.
    + rewrite Hr. exists (l ++ [dot] ++ r), x. by rewrite <- !app_assoc.
Qed.

Lemma trim_dots ls :
  Forall valid_label ls -> trim_matches (Byte.eqb dot) (join [dot] ls) = join [dot] ls.
Proof.
  intros Hls. destruct (decide (ls = [])) as [->|Hne]; [done|].
  destruct (join_ends ls Hne Hls) as [(x & r & Hx & Hxd) (r' & y & Hy & Hyd)].
  unfold trim_matches, trim_end_matches. rewrite Hx. simpl.
  replace (Byte.eqb dot x) with false by (symmetry; by apply byte_eqb_neq).
  rewrite <- Hx, Hy, reverse_snoc. simpl.
  replace (Byte.eqb dot y) with false by (symmetry; by apply byte_eqb_neq).
  by rewrite reverse_cons, reverse_involutive.
Qed.

Lemma encode_label_valid l : valid_label l -> encode_label l = wire_label l.
Proof.
  intros (Hne & _ & Hlen & _). unfold encode_label. destruct l as [|b l]; [done|].
  rewrite Z.min_l by done. unfold wire_label. f_equal. by apply ztake_all.
Qed.

Lemma encode_dns_name_valid n ls : valid_name n ls -> encode_dns_name n = wire_name ls.
Proof.
  intros [Hls ->]. unfold encode_dns_name, wire_name. rewrite trim_dots by done. f_equal.
  destruct (decide (ls = [])) as [->|Hne]; [done|].
  rewrite split_join; [|done|eapply Forall_impl; [exact Hls|intros ? H; apply H]].
  f_equal. apply map_ext_in. intros l Hl. apply encode_label_valid.
  rewrite Forall_forall in Hls. by apply Hls, list_elem_of_In.
Qed.

Lemma decode_labels fuel pre ls post off acc :
  Forall valid_label ls -> (length ls < fuel)%nat ->
  decode_loop fuel (pre ++ wire_name ls ++ post) false (zlen pre) 0 off acc
  = Some (zlen pre + zlen (wire_name ls), Ok (acc ++ ls)).
Proof.
  revert fuel pre off acc. induction ls as [|l ls IH]; intros fuel pre off acc Hls Hf;
    (destruct fuel as [|fuel]; [lia|]); cbn [decode_loop]; change (10 <? 0) with false; cbv iota.
  - change (wire_name []) with [x00]. replace (zlen _ <=? zlen pre) with false
      by (rewrite !zlen_app; change (zlen [x00]) with 1; pose proof (zlen_nonneg post); lia).
    rewrite at_app_r, Z.sub_diag by lia. simpl. by rewrite app_nil_r.
  - inversion_clear Hls as [|?? Hl Hls']. pose proof Hl as (Hne & _ & Hlen & Hutf).
    assert (Hpos : 1 <= zlen l)
      by (destruct l; [done|]; rewrite zlen_cons; pose proof (zlen_nonneg l); lia).
    assert (Hw : wire_name (l :: ls) = [byte_of_Z (zlen l)] ++ l ++ wire_name ls)
      by (unfold wire_name; simpl; by rewrite <- app_assoc).
    pose proof (zlen_nonneg (wire_name ls)). pose proof (zlen_nonneg post).
    assert (Hl1 : zlen [byte_of_Z (zlen l)] = 1) by done.
    replace (zlen _ <=? zlen pre) with false by (rewrite Hw, !zlen_app; lia).
    assert (Hat : u8 (at_ (pre ++ wire_name (l :: ls) ++ post) (zlen pre)) = zlen l).
    { rewrite at_app_r, Z.sub_diag, Hw by lia. simpl. rewrite at_cons_0, u8_byte_of_Z.
      apply Z.mod_small. lia. }
    rewrite Hat. replace (zlen l =? 0) with false by lia.
    replace (Z.land (zlen l) 0xC0 =? 0xC0) with false.
    2:{ symmetry. apply Z.eqb_neq. intros Hc.
        assert (Hb : Z.testbit (Z.land (zlen l) 0xC0) 7 = true) by (by rewrite Hc).
        rewrite Z.land_spec in Hb. apply andb_prop in Hb as [Hb _].
        rewrite Z.testbit_true in Hb by lia. rewrite Z.div_small in Hb; [done|lia]. }
    replace (zlen _ <? zlen pre + 1 + zlen l) with false by (rewrite Hw, !zlen_app; lia).
    assert (Hsl : slice (zlen pre + 1) (zlen pre + 1 + zlen l) (pre ++ wire_name (l :: ls) ++ post) = l).
    { rewrite Hw. rewrite <- !app_assoc, (app_assoc pre). apply slice_app; rewrite zlen_app; lia. }
    rewrite Hsl, Hutf. cbn [negb].
    assert (Hre : pre ++ wire_name (l :: ls) ++ post
      = (pre ++ [byte_of_Z (zlen l)] ++ l) ++ wire_name ls ++ post)
      by (rewrite Hw; by rewrite <- !app_assoc).
    rewrite Hre. replace (zlen pre + 1 + zlen l) with (zlen (pre ++ [byte_of_Z (zlen l)] ++ l))
      by (rewrite !zlen_app; lia).
    rewrite IH by (done || (simpl in Hf; lia)). rewrite <- app_assoc. simpl ([l] ++ ls).
    rewrite Hw, !zlen_app. do 2 f_equal. lia.
Qed.

Lemma length_wire_name ls : (length ls < length (wire_name ls))%nat.
Proof.
  unfold wire_name. rewrite length_app. simpl. induction ls as [|l ls IH]; simpl; [lia|].
  rewrite length_app. lia.
Qed.

(** A name in a datagram, as its encoder writes it. *)
Lemma decode_dns_name_app pre n ls post off :
  valid_name n ls -> off = zlen pre ->
  decode_dns_name (pre ++ encode_dns_name n ++ post) off
  = (zlen pre + zlen (encode_dns_name n), Ok n).
Proof.
  intros Hn ->. pose proof Hn as [Hls ->]. unfold decode_dns_name.
  rewrite (encode_dns_name_valid _ ls) by done.
  rewrite decode_labels; [done|done|]. unfold decode_fuel. rewrite !length_app.
  pose proof (length_wire_name ls). lia.
Qed.

(** ** Any input *)

Lemma decode_loop_total fuel buf jumped current depth off acc :
  0 <= current -> 0 <= depth <= 11 ->
  (11 - depth) * (zlen buf + 1) + Z.max 0 (zlen buf - current) < Z.of_nat fuel ->
  is_Some (decode_loop fuel buf jumped current depth off acc).
Proof.
  revert jumped current depth off acc.
  induction fuel as [|fuel IH]; intros jumped current depth off acc Hc Hd Hf.
  { pose proof (zlen_nonneg buf). exfalso.
    pose proof (Z.mul_nonneg_nonneg (11 - depth) (zlen buf + 1)). lia. }
  cbn [decode_loop]. destruct (10 <? depth) eqn:Ed; [by eexists|].
  destruct (zlen buf <=? current) eqn:Ec; [by eexists|].
  pose proof (u8_range (at_ buf current)). set (len := u8 (at_ buf current)) in *.
  destruct (len =? 0) eqn:E0; [by eexists|].
  destruct (Z.land len 0xC0 =? 0xC0).
  - destruct (zlen buf <=? current + 1); [by eexists|]. apply IH; [|lia|].
    + apply Z.lor_nonneg. split; [|apply u8_range]. apply Z.shiftl_nonneg, Z.land_nonneg. lia.
    + set (ptr := Z.lor _ _). assert (0 <= ptr)
        by (apply Z.lor_nonneg; split; [apply Z.shiftl_nonneg, Z.land_nonneg; lia|apply u8_range]).
      rewrite Nat2Z.inj_succ in Hf. pose proof (zlen_nonneg buf). nia.
  - destruct (zlen buf <? current + 1 + len); [by eexists|].
    destruct (utf8_valid _); cbn [negb]; [|by eexists]. apply IH; lia.
Qed.

Lemma decode_loop_ok fuel buf jumped current depth off acc off' labels :
  0 <= current -> 
  decode_loop fuel buf jumped current depth off acc = Some (off', Ok labels) ->
  (if jumped then off' = off else current < off' <= zlen buf)
  /\ exists ls, labels = acc ++ ls /\ Forall (fun l => 1 <= zlen l <= 191 /\ utf8_valid l = true) ls.
Proof.
  revert jumped current depth off acc.
  induction fuel as [|fuel IH]; intros jumped current depth off acc Hc; [done|].
  cbn [decode_loop]. destruct (10 <? depth); [done|].
  destruct (zlen buf <=? current) eqn:Ec; [done|].
  pose proof (u8_range (at_ buf current)). set (len := u8 (at_ buf current)) in *.
  destruct (len =? 0) eqn:E0.
  { intros [= <- <-]. split; [destruct jumped; [done|lia]|]. exists [].
    by rewrite app_nil_r. }
  destruct (Z.land len 0xC0 =? 0xC0) eqn:El.
  - destruct (zlen buf <=? current + 1) eqn:E1; [done|]. intros [Ho Hls]%IH.
    + split; [destruct jumped; [done|lia]|done].
    + apply Z.lor_nonneg. split; [|apply u8_range]. apply Z.shiftl_nonneg, Z.land_nonneg. lia.
  - destruct (zlen buf <? current + 1 + len) eqn:E1; [done|].
    destruct (utf8_valid _) eqn:Eu; [|done]. cbn [negb]. intros [Ho (ls & -> & Hls)]%IH; [|lia].
    split; [destruct jumped; [done|lia]|].
    exists (slice (current + 1) (current + 1 + len) buf :: ls). rewrite <- app_assoc.
    split; [done|]. constructor; [|done]. split; [|done].
    unfold slice. rewrite zlen_ztake; [|rewrite zlen_zdrop; lia].
    split; [lia|]. destruct (decide (len <= 191)); [lia|]. exfalso.
    assert (Hall : forallb (fun n => Z.land (Z.of_nat n) 0xC0 =? 0xC0) (seq 192 64) = true) by done.
    rewrite forallb_forall in Hall. specialize (Hall (Z.to_nat len)).
    rewrite in_seq, Z2Nat.id in Hall by lia. rewrite Hall in El; [done|lia].
Qed.



(** ** Round trips *)

Definition wf_type (t : DnsQueryType) : Prop := from_u16 (to_u16 t) = t /\ 0 <= to_u16 t < 65536.
Definition is_u16 (v : Z) : Prop := 0 <= v < 65536.
Definition is_u32 (v : Z) : Prop := 0 <= v < 2 ^ 32.

(** Answers that survive the wire: names and targets of valid labels, integers of their width,
    a text of at most 255 ASCII bytes. *)
Definition wf_data (d : DnsRecordData) : Prop :=
  match d with
  | DataA _ _ _ _ => True
  | DataSRV s => is_u16 (priority s) /\ is_u16 (weight s) /\ is_u16 (srv_port s)
                 /\ zlen (encode_dns_name (target s)) < 65530 /\ exists ls, valid_name (target s) ls
  | DataTXT t => zlen t <= 255 /\ ascii t
  end.
Definition wf_answer (a : DnsAnswer) : Prop :=
  (exists ls, valid_name (ans_name a) ls) /\ is_u32 (ttl a) /\ wf_data (data a).

(** The length and content of an answer's record data. *)
Definition rdata_of (d : DnsRecordData) : bytes :=
  match d with
  | DataA a b c d => [a; b; c; d]
  | DataSRV s => u16_be (priority s) ++ u16_be (weight s) ++ u16_be (srv_port s)
                 ++ encode_dns_name (target s)
  | DataTXT t => byte_of_Z (Z.min (zlen t) 255) :: ztake (Z.min (zlen t) 255) t
  end.
Definition rtype_of (d : DnsRecordData) : Z :=
  match d with DataA _ _ _ _ => 1 | DataSRV _ => 33 | DataTXT _ => 16 end.

Lemma encode_answer_layout a :
  encode_answer a
  = encode_dns_name (ans_name a) ++ u16_be (rtype_of (data a)) ++ u16_be 1 ++ u32_be (ttl a)
    ++ u16_be (zlen (rdata_of (data a))) ++ rdata_of (data a).
Proof.
  unfold encode_answer, encode_rdata. destruct (data a) as [| s | t]; cbn [rdata_of rtype_of].
  - by rewrite <- ?app_assoc.
  - rewrite !zlen_app, !zlen_u16_be.
    replace (2 + (2 + (2 + zlen (encode_dns_name (target s)))))
      with (6 + zlen (encode_dns_name (target s))) by lia. by rewrite <- ?app_assoc.
  - rewrite zlen_cons, zlen_ztake by (pose proof (zlen_nonneg t); lia).
    rewrite (Z.add_comm 1). by rewrite <- ?app_assoc.
Qed.

Lemma rdata_small d : wf_data d -> is_u16 (zlen (rdata_of d)).
Proof.
  unfold is_u16. destruct d as [| s | t]; cbn [rdata_of wf_data]; [done|..].
  - intros (_ & _ & _ & Ht & _). rewrite !zlen_app, !zlen_u16_be.
    pose proof (zlen_nonneg (encode_dns_name (target s))). lia.
  - intros _. rewrite zlen_cons, zlen_ztake by (pose proof (zlen_nonneg t); lia).
    pose proof (zlen_nonneg t). lia.
Qed.

Lemma parse_rdata_of pre d post :
  wf_data d ->
  parse_rdata (pre ++ rdata_of d ++ post) (rtype_of d) (zlen pre) (zlen (rdata_of d)) = Some d.
Proof.
  destruct d as [a b c d | s | t]; intros Hd; unfold parse_rdata; cbn [rtype_of rdata_of].
  - simpl. rewrite <- (Z.add_0_r (zlen pre)) at 1. by rewrite !at_shift.
  - change (from_u16 33) with SRV. cbv iota.
    destruct Hd as (Hp & Hw & Hport & _ & ls & Hls). destruct s as [p w q t].
    cbn [rdata_of priority weight srv_port target] in *. set (n := encode_dns_name t).
    assert (Hlen : zlen (u16_be p ++ u16_be w ++ u16_be q ++ n) = 6 + zlen n)
      by (rewrite !zlen_app, !zlen_u16_be; lia).
    rewrite Hlen. pose proof (zlen_nonneg n). replace (6 <=? 6 + zlen n) with true by lia.
    rewrite <- !app_assoc.
    assert (H6 : decode_dns_name (pre ++ u16_be p ++ u16_be w ++ u16_be q ++ n ++ post) (zlen pre + 6)
      = (zlen (pre ++ u16_be p ++ u16_be w ++ u16_be q) + zlen n, Ok t)).
    { replace (pre ++ u16_be p ++ u16_be w ++ u16_be q ++ n ++ post)
        with ((pre ++ u16_be p ++ u16_be w ++ u16_be q) ++ n ++ post) by (by rewrite <- !app_assoc).
      apply (decode_dns_name_app _ t ls); [done|]. rewrite !zlen_app, !zlen_u16_be. lia. }
    rewrite H6. rewrite (u16_at_app pre p) by done.
    assert (H2 : u16_at (pre ++ u16_be p ++ u16_be w ++ u16_be q ++ n ++ post) (zlen pre + 2) = w).
    { rewrite (app_assoc pre). apply u16_at_app; [done|]. rewrite zlen_app, zlen_u16_be. lia. }
    assert (H4 : u16_at (pre ++ u16_be p ++ u16_be w ++ u16_be q ++ n ++ post) (zlen pre + 4) = q).
    { rewrite (app_assoc (u16_be p)), (app_assoc pre). apply u16_at_app; [done|].
      rewrite !zlen_app, !zlen_u16_be. lia. }
    by rewrite H2, H4.
  - change (from_u16 16) with TXT. cbv iota. destruct Hd as [Hlen Ha].
    cbn [rdata_of]. rewrite Z.min_l, (ztake_all (zlen t)) by lia. pose proof (zlen_nonneg t).
    replace (0 <? _) with true by (rewrite zlen_cons; lia).
    assert (Hat : u8 (at_ (pre ++ byte_of_Z (zlen t) :: t ++ post) (zlen pre)) = zlen t).
    { rewrite at_app_r, Z.sub_diag, at_cons_0, u8_byte_of_Z by lia. apply Z.mod_small. lia. }
    rewrite <- app_comm_cons, Hat. replace (_ <=? _) with true
      by (rewrite zlen_app, zlen_cons, zlen_app; pose proof (zlen_nonneg post); lia).
    change (pre ++ byte_of_Z (zlen t) :: t ++ post) with (pre ++ [byte_of_Z (zlen t)] ++ t ++ post).
    rewrite (app_assoc pre), slice_app; [by rewrite utf8_lossy_ascii|..];
      rewrite zlen_app; change (zlen [byte_of_Z (zlen t)]) with 1; lia.
Qed.

(** The answer loop reads back a sequence of encoded answers. *)
Lemma parse_answers_encoded pre answers off :
  Forall wf_answer answers -> off = zlen pre ->
  parse_answers (pre ++ concat (map encode_answer answers)) (length answers) off = answers.
Proof.
  revert pre off. induction answers as [|a answers IH]; intros pre off Hwf ->; [done|].
  inversion_clear Hwf as [|?? ((ls & Hn) & Httl & Hd) Hwf'].
  pose proof (rdata_small _ Hd) as Hrd.
  assert (Hrt : is_u16 (rtype_of (data a))) by (by destruct (data a)).
  cbn [map concat length parse_answers]. rewrite encode_answer_layout.
  set (rest := concat (map encode_answer answers)) in *. set (n := encode_dns_name (ans_name a)).
  set (rd := rdata_of (data a)) in *. set (rt := rtype_of (data a)) in *.
  rewrite <- !app_assoc.
  set (buf := pre ++ n ++ u16_be rt ++ u16_be 1 ++ u32_be (ttl a) ++ u16_be (zlen rd) ++ rd ++ rest).
  pose proof (zlen_nonneg rest). pose proof (zlen_nonneg rd). pose proof (zlen_nonneg n).
  assert (Hlen : zlen buf = zlen pre + zlen n + 10 + zlen rd + zlen rest)
    by (unfold buf; rewrite !zlen_app, !zlen_u16_be, zlen_u32_be; lia).
  assert (Hdec : decode_dns_name buf (zlen pre) = (zlen pre + zlen n, Ok (ans_name a)))
    by (by apply (decode_dns_name_app pre _ ls)).
  assert (Hrtype : u16_at buf (zlen pre + zlen n) = rt).
  { unfold buf. rewrite (app_assoc pre). apply u16_at_app; [done|]. by rewrite zlen_app. }
  assert (Httl' : u32_at buf (zlen pre + zlen n + 4) = ttl a).
  { unfold buf. rewrite (app_assoc (u16_be rt)), (app_assoc n), (app_assoc pre).
    apply u32_at_app; [done|]. rewrite !zlen_app, !zlen_u16_be. lia. }
  assert (Hrdl : u16_at buf (zlen pre + zlen n + 8) = zlen rd).
  { unfold buf. rewrite (app_assoc (u16_be 1)), (app_assoc (u16_be rt)), (app_assoc n), (app_assoc pre).
    apply u16_at_app; [done|]. rewrite !zlen_app, !zlen_u16_be, zlen_u32_be. lia. }
  set (pre' := pre ++ n ++ u16_be rt ++ u16_be 1 ++ u32_be (ttl a) ++ u16_be (zlen rd)).
  assert (Hpre' : zlen pre' = zlen pre + zlen n + 10)
    by (unfold pre'; rewrite !zlen_app, !zlen_u16_be, zlen_u32_be; lia).
  assert (Hbuf : buf = pre' ++ rd ++ rest) by (unfold buf, pre'; by rewrite <- !app_assoc).
  assert (Hparse : parse_rdata buf rt (zlen pre + zlen n + 10) (zlen rd) = Some (data a)).
  { rewrite Hbuf, <- Hpre'. by apply parse_rdata_of. }
  assert (1 <= zlen n).
  { unfold n, encode_dns_name. rewrite zlen_app. change (zlen [x00]) with 1.
    match goal with |- context [zlen ?l + 1] => pose proof (zlen_nonneg l) end. lia. }
  replace (zlen buf <=? zlen pre) with false by lia. rewrite Hdec.
  replace (zlen buf <? zlen pre + zlen n + 10) with false by lia.
  rewrite Hrdl, Hrtype, Httl', Hparse.
  replace (zlen buf <? zlen pre + zlen n + 10 + zlen rd) with false by lia.
  rewrite Hbuf, app_assoc, IH; [by destruct a|done|]. rewrite zlen_app. lia.
Qed.

Lemma parse_built_query domain ls t :
  valid_name domain ls -> wf_type t ->
  parse_dns_query (build_query domain t) = Ok (query_id, mkQuestion domain t 1).
Proof.
  intros Hdom [Ht Hv]. unfold parse_dns_query, build_query. set (n := encode_dns_name domain).
  set (hdr := u16_be query_id ++ u16_be 0x0100 ++ u16_be 1 ++ u16_be 0 ++ u16_be 0 ++ u16_be 0).
  change (u16_be query_id ++ u16_be 0x0100 ++ u16_be 1 ++ u16_be 0 ++ u16_be 0 ++ u16_be 0
    ++ n ++ u16_be (to_u16 t) ++ u16_be 1) with (hdr ++ n ++ u16_be (to_u16 t) ++ u16_be 1).
  assert (Hh : zlen hdr = 12) by done. pose proof (zlen_nonneg n).
  replace (_ <? 12) with false by (rewrite !zlen_app, !zlen_u16_be; lia).
  change (u16_at (hdr ++ n ++ u16_be (to_u16 t) ++ u16_be 1) 4) with 1. cbn [Z.eqb Pos.eqb].
  unfold n. rewrite (decode_dns_name_app hdr domain ls) by done. fold n.
  replace (_ <? _) with false by (rewrite !zlen_app, !zlen_u16_be; lia).
  assert (H1 : u16_at (hdr ++ n ++ u16_be (to_u16 t) ++ u16_be 1) (zlen hdr + zlen n) = to_u16 t).
  { rewrite (app_assoc hdr). apply u16_at_app; [done|]. by rewrite zlen_app. }
  assert (H2 : u16_at (hdr ++ n ++ u16_be (to_u16 t) ++ u16_be 1) (zlen hdr + zlen n + 2) = 1).
  { rewrite <- (app_nil_r (u16_be 1)), (app_assoc n), (app_assoc hdr).
    apply u16_at_app; [done|]. rewrite !zlen_app, zlen_u16_be. lia. }
  rewrite H1, H2, Ht. done.
Qed.

Lemma parse_formatted_reply id question qls answers authoritative rcode :
  valid_name (name question) qls -> Forall wf_answer answers -> zlen answers < 65536 ->
  parse_reply (format_dns_response id question answers authoritative rcode) = Ok answers.
Proof.
  intros Hq Hans Hcount. unfold parse_reply, format_dns_response. set (n := encode_dns_name (name question)).
  pose proof (zlen_nonneg answers).
  set (h1 := u16_be id ++ u16_be (response_flags authoritative rcode) ++ u16_be 1).
  set (hdr := h1 ++ u16_be (zlen answers) ++ u16_be 0 ++ u16_be 0).
  set (q := u16_be (to_u16 (qtype question)) ++ u16_be (qclass question)).
  set (recs := concat (map encode_answer answers)).
  replace (u16_be id ++ _) with (hdr ++ n ++ q ++ recs)
    by (unfold hdr, h1, q; by rewrite <- !app_assoc).
  assert (Hh1 : zlen h1 = 6) by done.
  assert (Hh : zlen hdr = 12) by (unfold hdr; rewrite !zlen_app, !zlen_u16_be; lia).
  pose proof (zlen_nonneg n). pose proof (zlen_nonneg recs). pose proof (zlen_nonneg q).
  replace (_ <? 12) with false by (rewrite !zlen_app; lia).
  assert (Hc : u16_at (hdr ++ n ++ q ++ recs) 6 = zlen answers).
  { unfold hdr. rewrite <- !app_assoc. apply u16_at_app; [lia|done]. }
  unfold n. rewrite (decode_dns_name_app hdr _ qls) by done. fold n. rewrite Hc. cbn [fst].
  replace (Z.to_nat (zlen answers)) with (length answers) by (unfold zlen; lia).
  rewrite !app_assoc. unfold recs. rewrite parse_answers_encoded; [done|done|].
  unfold q. rewrite !zlen_app, !zlen_u16_be. lia.
Qed.

(** A query the client builds is the query the gateway reads, and an answer the gateway
    formats is the answer the client reads: the identifier, the name, the type and the class of
    the question, and every record of the response, with its name, its time to live and its
    data, come out as they went in. *)
Theorem dns_roundtrip (domain : bytes) (ls : list bytes) (t : DnsQueryType)
    (id : Z) (question : DnsQuestion) (qls : list bytes) (answers : list DnsAnswer)
    (authoritative : bool) (rcode : Z) :
  valid_name domain ls -> wf_type t ->
  valid_name (name question) qls -> Forall wf_answer answers -> zlen answers < 65536 ->
  parse_dns_query (build_query domain t) = Ok (query_id, mkQuestion domain t 1)
  /\ parse_reply (format_dns_response id question answers authoritative rcode) = Ok answers.
Proof.
  intros. split; [by eapply parse_built_query|by eapply parse_formatted_reply].
Qed.

Lemma dns_roundtrip_witness :
  parse_dns_query (build_query (B "shop.code.internal") SRV)
  = Ok (query_id, mkQuestion (B "shop.code.internal") SRV 1)
  /\ parse_reply (format_dns_response 7 (mkQuestion (B "a.b") SRV 1)
       [mkAnswer (B "a.b") 60 (DataSRV (mkSrv 10 20 9400 (B "node-1")));
        mkAnswer (B "a.b") 60 (DataTXT (B "hello"))] true 0)
     = Ok [mkAnswer (B "a.b") 60 (DataSRV (mkSrv 10 20 9400 (B "node-1")));
           mkAnswer (B "a.b") 60 (DataTXT (B "hello"))].
Proof.
  assert (Hl : forall l, bool_decide (l <> []) && bool_decide (dot ∉ l) && (zlen l <=? 63)
    && utf8_valid l = true -> valid_label l).
  { intros l Hl. apply andb_prop in Hl as [Hl Hu]. apply andb_prop in Hl as [Hl Hz].
    apply andb_prop in Hl as [Hn Hd]. apply bool_decide_eq_true in Hn, Hd.
    split; [exact Hn|split; [exact Hd|split; [lia|exact Hu]]]. }
  apply (dns_roundtrip _ [B "shop"; B "code"; B "internal"] SRV 7 (mkQuestion (B "a.b") SRV 1)
    [B "a"; B "b"]).
  - split; [|reflexivity]. repeat constructor; apply Hl; vm_compute; reflexivity.
  - split; [reflexivity|vm_compute; split; [discriminate|reflexivity]].
  - split; [|reflexivity]. repeat constructor; apply Hl; vm_compute; reflexivity.
  - constructor; [|constructor; [|constructor]].
    + split; [|split; [vm_compute; split; [discriminate|reflexivity]|]].
      * exists [B "a"; B "b"]. split; [|reflexivity].
        repeat constructor; apply Hl; vm_compute; reflexivity.
      * split_and!; try (vm_compute; done). exists [B "node-1"]. split; [|reflexivity].
        repeat constructor; apply Hl; vm_compute; reflexivity.
    + split; [|split; [vm_compute; split; [discriminate|reflexivity]|]].
      * exists [B "a"; B "b"]. split; [|reflexivity].
        repeat constructor; apply Hl; vm_compute; reflexivity.
      * split; [vm_compute; discriminate|repeat constructor].
  - vm_compute. reflexivity.
Defined.
