(* ===== verification/Discovery.v ===== *)
(** * LAN discovery (crates/prod-code-protocol/src/discovery)

    Gateways announce themselves in one-line UDP records and answer probes; clients collect the
    replies.  A record carries an HMAC over its other fields, a probe's nonce must come back in
    the reply, and the advertised address must be the sender's.

    HMAC-SHA-256 is a parameter: [mac token data] is the 32-byte tag, [None] when the key is
    refused. *)

From Stdlib Require Import Strings.Byte.
From S2P Require Import Prelude RustStr Net F64.

Class Hmac := { mac : bytes -> bytes -> option bytes }.
(** HMAC-SHA-256 takes keys of any length and gives 32 bytes. *)
Class HmacLaws `{!Hmac} := { mac_total token d : exists t, mac token d = Some t /\ length t = 32%nat }.

Definition DISCOVERY_PORT : Z := 9401.
Definition MULTICAST_GROUP : IpAddr := V4 xef xff x50 x43.
Definition PROBE_PREFIX : bytes := B "PROD_CODE_DISCOVER".
Definition NODE_PREFIX : bytes := B "PROD_CODE_NODE ".

Record LoadedWorkspace := mkLoaded { ws_name : bytes; ws_engine : bytes; ws_sessions : Z }.

Record DiscoveredNode := mkNode {
  addr : SocketAddr;
  engines : list bytes;
  rss_mb : Z;
  load_per_cpu : f64;
  cpus : Z;
  mem_total_mb : Z;
  mem_avail_mb : Z;
  sessions : Z;
  workspaces : list LoadedWorkspace;
  nonce : option bytes
}.

(** ** Workspace names *)

Definition is_plain_byte (b : byte) : bool :=
  is_ascii_alphanumeric b || Byte.eqb b x2d || Byte.eqb b x5f || Byte.eqb b x2e.

Definition encode_workspace_name (name : bytes) : bytes :=
  name ≫= (fun b => if is_plain_byte b then [b] else x25 :: hex_upper b).

(** The byte of one escape, if its two characters are hexadecimal. *)
Definition escape_byte (h1 h2 : bytes) : bytes :=
  match from_str_radix 16 255 (h1 ++ h2) with Some v => [byte_of_Z v] | None => [] end.

Fixpoint decode_chars (cs : list bytes) : bytes :=
  match cs with
  | [] => []
  | c :: rest =>
      if bool_decide (c = [x25]) then
        match rest with
        | [] => escape_byte (B "0") (B "0")
        | h1 :: [] => escape_byte h1 (B "0")
        | h1 :: h2 :: rest' => escape_byte h1 h2 ++ decode_chars rest'
        end
      else byte_of_Z (scalar c) :: decode_chars rest
  end.

Definition decode_workspace_name (encoded : bytes) : bytes :=
  let out := decode_chars (chars encoded) in
  if utf8_valid out then out else encoded.

(** ** Authentication tags *)

Section discovery.
Context `{!Hmac}.

Definition hex_string (s : bytes) : bytes := s ≫= hex_lower.

Definition compute_auth_tag (token d : bytes) : bytes :=
  match mac token d with Some t => hex_string t | None => [] end.

(** The bytes of pairs of hexadecimal digits. *)
Fixpoint decode_tag (s : bytes) : option bytes :=
  match s with
  | a :: b :: rest =>
      if utf8_valid [a; b] then
        v ← from_str_radix 16 255 [a; b]; t ← decode_tag rest; Some (byte_of_Z v :: t)
      else None
  | _ => Some []
  end.

Definition verify_auth_tag (token d tag : bytes) : bool :=
  match mac token d with
  | None => false
  | Some t =>
      if negb (zlen tag =? 64) then false
      else match decode_tag tag with
           | Some tag_bytes => bool_decide (tag_bytes = t)
           | None => false
           end
  end.

(** ** Records *)

Definition canonical_announce_payload_with_nonce (advertise engines_csv : bytes) (rss : Z)
    (load : f64) (ncpus total avail sess : Z) (ws_csv : bytes) (n : option bytes) : bytes :=
  join (B " ")
    ([advertise; engines_csv; show rss; fmt_fixed 4 load; show ncpus; show total; show avail;
      show sess; ws_csv] ++ match n with Some n => [n] | None => [] end).

Definition canonical_announce_payload (advertise engines_csv : bytes) (rss : Z) (load : f64)
    (ncpus total avail sess : Z) (ws_csv : bytes) : bytes :=
  canonical_announce_payload_with_nonce advertise engines_csv rss load ncpus total avail sess
    ws_csv None.

Definition format_workspace (w : bytes * bytes * Z) : bytes :=
  let '(n, e, s) := w in encode_workspace_name n ++ B ":" ++ e ++ B ":" ++ show s.

Definition workspaces_csv (ws : list (bytes * bytes * Z)) : bytes :=
  match ws with [] => B "-" | _ => join (B ",") (map format_workspace ws) end.

Definition format_node_line_with_nonce (advertise engines_csv : bytes) (rss : Z) (load : f64)
    (ncpus total avail sess : Z) (ws : list (bytes * bytes * Z)) (token n : option bytes) : bytes :=
  let canonical := canonical_announce_payload_with_nonce advertise engines_csv rss load ncpus
                     total avail sess (workspaces_csv ws) n in
  let tag := match token with Some t => compute_auth_tag t canonical | None => B "-" end in
  NODE_PREFIX ++ tag ++ B " " ++ canonical.

Definition format_node_line (advertise engines_csv : bytes) (rss : Z) (load : f64)
    (ncpus total avail sess : Z) (ws : list (bytes * bytes * Z)) (token : option bytes) : bytes :=
  format_node_line_with_nonce advertise engines_csv rss load ncpus total avail sess ws token None.

Definition format_minimal_node_line (advertise engines_csv : bytes) (token : option bytes) : bytes :=
  format_node_line_with_nonce advertise engines_csv 0 fzero 0 0 0 0 [] token None.

(** Some sender other than the advertised host, neither of them loopback. *)
Definition is_spoofed (sender_ip : option IpAddr) (a : SocketAddr) : bool :=
  match sender_ip with
  | Some from_ip =>
      negb (is_loopback from_ip) && negb (is_loopback (ip a)) && negb (bool_decide (from_ip = ip a))
  | None => false
  end.

(** [parts.next().and_then(|s| s.parse().ok()).unwrap_or(0)]. *)
Definition next_uint (max : Z) (field : option bytes) : Z := default 0 (field ≫= parse_uint max).

Definition parse_workspace (entry : bytes) : LoadedWorkspace :=
  match splitn 3 x3a entry with
  | raw_name :: rest =>
      mkLoaded (decode_workspace_name raw_name) (default (B "?") (head rest))
        (next_uint u32_max (head (tail rest)))
  | [] => mkLoaded [] (B "?") 0
  end.

Definition parse_workspaces (ws_csv : bytes) : list LoadedWorkspace :=
  if bool_decide (ws_csv = B "-") then [] else map parse_workspace (split x2c ws_csv).

(** The fields after the address. *)
Definition parse_fields (tag addr_str : bytes) (a : SocketAddr) (fields : list bytes)
    (expected_token : option bytes) (sender_ip : option IpAddr) (expected_nonce : option bytes)
    : option DiscoveredNode :=
  if is_spoofed sender_ip a then None
  else
    let engines_csv := default [] (fields !! 0%nat) in
    let engines := filter (fun s => s <> []) (split x2c engines_csv) in
    let rss := next_uint u64_max (fields !! 1%nat) in
    let load := default fzero (fields !! 2%nat ≫= parse_f64) in
    let ncpus := next_uint u32_max (fields !! 3%nat) in
    let total := next_uint u64_max (fields !! 4%nat) in
    let avail := next_uint u64_max (fields !! 5%nat) in
    let sess := next_uint u32_max (fields !! 6%nat) in
    let ws_csv := default (B "-") (fields !! 7%nat) in
    let n := fields !! 8%nat in
    if match expected_nonce with Some e => negb (bool_decide (n = Some e)) | None => false end
    then None
    else
      let canonical := canonical_announce_payload_with_nonce addr_str engines_csv rss load ncpus
                         total avail sess ws_csv n in
      if match expected_token with Some t => negb (verify_auth_tag t canonical tag) | None => false end
      then None
      else Some (mkNode a engines rss load ncpus total avail sess (parse_workspaces ws_csv) n).

Definition parse_node_line_with_auth_and_nonce (line : bytes) (expected_token : option bytes)
    (sender_ip : option IpAddr) (expected_nonce : option bytes) : option DiscoveredNode :=
  rest ← strip_prefix NODE_PREFIX line;
  match split_whitespace rest with
  | [] => None
  | first :: parts =>
      match parse_socket_addr first with
      | Some a => parse_fields (B "-") first a parts expected_token sender_ip expected_nonce
      | None =>
          match parts with
          | [] => None
          | addr_str :: fields =>
              a ← parse_socket_addr addr_str;
              parse_fields first addr_str a fields expected_token sender_ip expected_nonce
          end
      end
  end.

Definition parse_node_line_with_auth (line : bytes) (expected_token : option bytes)
    (sender_ip : option IpAddr) : option DiscoveredNode :=
  parse_node_line_with_auth_and_nonce line expected_token sender_ip None.

Definition parse_node_line (line : bytes) : option DiscoveredNode :=
  parse_node_line_with_auth line None None.

(** ** Probes *)

Definition format_probe_with_nonce (token n : option bytes) : bytes :=
  match token, n with
  | Some token, Some n =>
      PROBE_PREFIX ++ B " " ++ compute_auth_tag token (PROBE_PREFIX ++ B " " ++ n)
      ++ B " " ++ n ++ [x0a]
  | Some token, None => PROBE_PREFIX ++ B " " ++ compute_auth_tag token PROBE_PREFIX ++ [x0a]
  | None, Some n => PROBE_PREFIX ++ B " - " ++ n ++ [x0a]
  | None, None => PROBE_PREFIX ++ [x0a]
  end.

Definition format_probe (token : option bytes) : bytes := format_probe_with_nonce token None.

Definition inspect_probe (buf : bytes) (token : option bytes) : option (option bytes) :=
  if negb (starts_with PROBE_PREFIX buf) then None
  else if negb (utf8_valid buf) then None
  else
    let parts := tail (split_whitespace (trim buf)) in
    let tag := head parts in
    let n := head (tail parts) in
    match token with
    | Some token =>
        tag ← tag;
        let expected := match n with Some n => PROBE_PREFIX ++ B " " ++ n | None => PROBE_PREFIX end in
        if verify_auth_tag token expected tag then Some n else None
    | None => Some n
    end.

Definition is_valid_probe (buf : bytes) (token : option bytes) : bool :=
  match inspect_probe buf token with Some _ => true | None => false end.

Definition build_reply (own_line : bytes) (peer_lines : list bytes) : bytes :=
  own_line ++ [x0a] ++ concat (map (fun p => p ++ [x0a]) peer_lines).

(** ** Collecting replies *)

(** [nodes.entry(node.addr).or_insert(node)]. *)
Definition or_insert (nodes : list DiscoveredNode) (n : DiscoveredNode) : list DiscoveredNode :=
  if existsb (fun m => bool_decide (addr m = addr n)) nodes then nodes else nodes ++ [n].

(** One datagram of the collecting loop of [discover_with_token]. *)
Definition collect_datagram (token : option bytes) (challenge : bytes)
    (nodes : list DiscoveredNode) (dgram : bytes * IpAddr) : list DiscoveredNode :=
  let (text, from) := dgram in
  if utf8_valid text then
    foldl (fun nodes line =>
             match parse_node_line_with_auth_and_nonce line token (Some from) (Some challenge) with
             | Some n => or_insert nodes n
             | None => nodes
             end) nodes (lines text)
  else nodes.

(** [discover_with_token] on the datagrams received before the deadline; the map's values come
    out in no particular order. *)
Definition collect_replies (token : option bytes) (challenge : bytes)
    (dgrams : list (bytes * IpAddr)) : list DiscoveredNode :=
  foldl (collect_datagram token challenge) [] dgrams.

End discovery.

(** ** Names and tags read back *)

Lemma hex_upper_parse b : from_str_radix 16 255 (hex_upper b) = Some (u8 b).
Proof.
  revert b. apply (byte_forall (fun b => from_str_radix 16 255 (hex_upper b) = Some (u8 b))).
  vm_compute. reflexivity.
Qed.
Lemma hex_lower_parse b : from_str_radix 16 255 (hex_lower b) = Some (u8 b).
Proof.
  revert b. apply (byte_forall (fun b => from_str_radix 16 255 (hex_lower b) = Some (u8 b))).
  vm_compute. reflexivity.
Qed.
Lemma hex_upper_clean b : graphic (hex_upper b) /\ (x3a ∉ hex_upper b) /\ (x2c ∉ hex_upper b).
Proof.
  revert b. apply (byte_forall (fun b =>
    graphic (hex_upper b) /\ x3a ∉ hex_upper b /\ x2c ∉ hex_upper b)).
  vm_compute. reflexivity.
Qed.
Lemma hex_lower_hex b : hex_digits (hex_lower b) /\ graphic (hex_lower b).
Proof.
  assert (H : forall d, 0 <= d < 16 -> digit_value (digit_char d) = Some d) by apply digit_char_value.
  pose proof (u8_range b). unfold hex_lower.
  assert (0 <= u8 b `div` 16 < 16) by (split; [apply Z.div_pos; lia|apply Z.div_lt_upper_bound; lia]).
  pose proof (Z.mod_pos_bound (u8 b) 16 ltac:(lia)). split.
  - repeat constructor; eexists; (split; [by apply H|lia]).
  - repeat constructor; apply graphic_range; unfold digit_char; destruct (_ <? 10) eqn:E;
      rewrite u8_byte_of_Z, Z.mod_small; lia.
Qed.

Lemma is_plain_byte_props b :
  is_plain_byte b = true -> is_ascii_graphic b = true /\ b <> x25 /\ b <> x3a /\ b <> x2c.
Proof.
  revert b. apply (byte_forall (fun b => is_plain_byte b = true ->
    is_ascii_graphic b = true /\ b <> x25 /\ b <> x3a /\ b <> x2c)).
  vm_compute. reflexivity.
Qed.

Lemma encode_workspace_name_cons b s :
  encode_workspace_name (b :: s)
  = (if is_plain_byte b then [b] else x25 :: hex_upper b) ++ encode_workspace_name s.
Proof. reflexivity. Qed.

(** An encoded name has only printable characters and none of the record's delimiters. *)
Lemma encode_workspace_name_clean s :
  graphic (encode_workspace_name s)
  /\ (x3a ∉ encode_workspace_name s) /\ (x2c ∉ encode_workspace_name s).
Proof.
  induction s as [|b s (IHg & IHc & IHk)]; [split_and!; [constructor|set_solver..]|].
  rewrite encode_workspace_name_cons.
  assert (Hb : graphic (if is_plain_byte b then [b] else x25 :: hex_upper b)
    /\ (x3a ∉ (if is_plain_byte b then [b] else x25 :: hex_upper b))
    /\ (x2c ∉ (if is_plain_byte b then [b] else x25 :: hex_upper b))).
  { destruct (is_plain_byte b) eqn:E.
    - apply is_plain_byte_props in E as (Hg & _ & Hc & Hk).
      split_and!; [by constructor|set_solver..].
    - destruct (hex_upper_clean b) as (Hg & Hc & Hk).
      split_and!; [by apply graphic_cons|set_solver..]. }
  destruct Hb as (Hg & Hc & Hk). rewrite graphic_app. set_solver.
Qed.

Lemma decode_encode_chars s :
  decode_chars (map (fun b => [b]) (encode_workspace_name s)) = s.
Proof.
  induction s as [|b s IH]; [done|]. rewrite encode_workspace_name_cons, map_app.
  destruct (is_plain_byte b) eqn:E.
  - apply is_plain_byte_props in E as (_ & Hp & _). cbn [map app decode_chars].
    rewrite bool_decide_eq_false_2 by (intros [= ->]; done). simpl. by rewrite byte_of_Z_u8, IH.
  - pose proof (hex_upper_parse b) as Hh. unfold hex_upper in *. cbn [map app decode_chars].
    rewrite bool_decide_eq_true_2 by done. unfold escape_byte. simpl ([_] ++ [_]).
    rewrite Hh, byte_of_Z_u8, IH. done.
Qed.

Lemma decode_encode_name s : utf8_valid s = true -> decode_workspace_name (encode_workspace_name s) = s.
Proof.
  intros Hs. unfold decode_workspace_name.
  rewrite chars_ascii, decode_encode_chars, Hs by (by apply graphic_ascii, encode_workspace_name_clean).
  done.
Qed.

Section tags.
Context `{!Hmac} `{!HmacLaws}.

Lemma decode_hex_string t : decode_tag (hex_string t) = Some t.
Proof.
  induction t as [|b t IH]; [done|]. pose proof (hex_lower_parse b) as Hp.
  pose proof (proj2 (hex_lower_hex b)) as Hg. 
  change (hex_string (b :: t)) with (hex_lower b ++ hex_string t). unfold hex_lower in *.
  cbn [app decode_tag]. rewrite utf8_valid_ascii by (by apply graphic_ascii).
  rewrite Hp. bind_step. rewrite IH. bind_step. by rewrite byte_of_Z_u8.
Qed.

Lemma hex_string_props t : hex_digits (hex_string t) /\ graphic (hex_string t) /\ zlen (hex_string t) = 2 * zlen t.
Proof.
  induction t as [|b t (IHh & IHg & IHl)]; [split_and!; constructor|].
  change (hex_string (b :: t)) with (hex_lower b ++ hex_string t).
  destruct (hex_lower_hex b) as [Hh Hg]. split_and!.
  - by apply Forall_app.
  - by apply graphic_app.
  - rewrite zlen_app, IHl, zlen_cons. change (zlen (hex_lower b)) with 2. lia.
Qed.

Lemma verify_computed token d : verify_auth_tag token d (compute_auth_tag token d) = true.
Proof.
  unfold verify_auth_tag, compute_auth_tag. destruct (mac_total token d) as (t & -> & Hl).
  destruct (hex_string_props t) as (_ & _ & ->). unfold zlen. rewrite Hl. simpl.
  rewrite decode_hex_string. by apply bool_decide_eq_true_2.
Qed.

Lemma compute_tag_props token d :
  hex_digits (compute_auth_tag token d) /\ graphic (compute_auth_tag token d)
  /\ compute_auth_tag token d <> [].
Proof.
  unfold compute_auth_tag. destruct (mac_total token d) as (t & -> & Hl).
  destruct (hex_string_props t) as (Hh & Hg & Hz). split_and!; [done..|].
  intros E. rewrite E in Hz. unfold zlen in Hz. rewrite Hl in Hz. done.
Qed.
End tags.

(** ** Announcements *)

(** The load as a reader of the record has it; it is printed again to check the tag. *)
Definition reread_load (load : f64) : f64 := default fzero (parse_f64 (fmt_fixed 4 load)).
Definition stable_load (load : f64) : Prop := fmt_fixed 4 (reread_load load) = fmt_fixed 4 load.
#[export] Instance stable_load_dec load : Decision (stable_load load).
Proof. unfold stable_load. apply _. Defined.

(** A word of a record: printable and not empty. *)
Definition word (w : bytes) : Prop := graphic w /\ w <> [].

Definition wf_engine (e : bytes) : Prop := word e /\ x2c ∉ e.
Definition wf_workspace (w : bytes * bytes * Z) : Prop :=
  let '(n, e, s) := w in
  utf8_valid n = true /\ graphic e /\ (x2c ∉ e) /\ (x3a ∉ e) /\ 0 <= s <= u32_max.

Lemma show_word z : 0 <= z -> word (show z).
Proof. intros Hz. split; [by apply digits_graphic, show_digits|apply show_nonempty]. Qed.

Lemma show_no c z : 0 <= z -> is_ascii_digit c = false -> c ∉ show z.
Proof.
  intros Hz Hc Hin. pose proof (show_digits z Hz) as Hd. unfold digits in Hd.
  rewrite Forall_forall in Hd. specialize (Hd c Hin). simpl in Hd. congruence.
Qed.

Lemma join_graphic sep ws : graphic sep -> Forall graphic ws -> graphic (join sep ws).
Proof.
  intros Hsep. induction ws as [|w ws IH]; intros Hws; [constructor|].
  apply List.Forall_cons_iff in Hws as [Hw Hws]. destruct ws as [|w' ws]; [done|].
  change (join sep (w :: w' :: ws)) with (w ++ sep ++ join sep (w' :: ws)).
  rewrite !graphic_app. auto.
Qed.

Lemma join_nonempty sep w ws : w <> [] -> join sep (w :: ws) <> [].
Proof. destruct ws as [|w' ws]; simpl; [done|]. destruct w; done. Qed.

Lemma format_workspace_clean w :
  wf_workspace w -> graphic (format_workspace w) /\ (x2c ∉ format_workspace w) /\ x3a ∈ format_workspace w.
Proof.
  destruct w as [[n e] s]. intros (_ & Hg & Hc & _ & Hs). unfold format_workspace.
  destruct (encode_workspace_name_clean n) as (Hng & _ & Hnc).
  destruct (show_word s ltac:(lia)) as [Hsg _]. rewrite !graphic_app, !elem_of_app.
  split_and!; try done; try (by repeat constructor).
  - intros [H|[H|[H|[H|H]]]]; try done; [by apply (bool_decide_unpack (x2c ∉ B ":")) in H..|].
    by apply (show_no x2c s ltac:(lia)) in H.
Qed.

Lemma parse_format_workspace n e s :
  wf_workspace (n, e, s) -> parse_workspace (format_workspace (n, e, s)) = mkLoaded n e s.
Proof.
  intros (Hu & _ & _ & Hcol & Hs). unfold parse_workspace, format_workspace. cbn [splitn].
  destruct (encode_workspace_name_clean n) as (_ & Hnc & _). change (B ":") with [x3a].
  simpl ([x3a] ++ _). rewrite split_once_byte by done. rewrite split_once_byte by done.
  cbn [head tail]. unfold next_uint. cbn [mbind option_bind default].
  rewrite parse_show by done. by rewrite decode_encode_name.
Qed.

Lemma workspaces_csv_word ws : Forall wf_workspace ws -> word (workspaces_csv ws).
Proof.
  intros Hws. unfold workspaces_csv. destruct ws as [|w ws]; [split; [by repeat constructor|done]|].
  split.
  - apply join_graphic; [by repeat constructor|]. apply Forall_map.
    eapply Forall_impl; [exact Hws|]. intros x Hx. by apply format_workspace_clean.
  - apply join_nonempty. inversion_clear Hws as [|?? Hw _].
    destruct (format_workspace_clean w Hw) as (_ & _ & Hin). intros E. rewrite E in Hin. set_solver.
Qed.

Lemma parse_workspaces_csv ws :
  Forall wf_workspace ws ->
  parse_workspaces (workspaces_csv ws) = map (fun '(n, e, s) => mkLoaded n e s) ws.
Proof.
  intros Hws. unfold parse_workspaces, workspaces_csv. destruct ws as [|w ws]; [done|].
  assert (Hclean : Forall (fun p => x2c ∉ p) (map format_workspace (w :: ws))).
  { apply Forall_map. eapply Forall_impl; [exact Hws|]. intros x Hx. by apply format_workspace_clean. }
  rewrite bool_decide_eq_false_2.
  - change (B ",") with [x2c]. rewrite split_join by done. rewrite map_map. apply map_ext_in.
    intros [[n e] s] Hin. apply parse_format_workspace. rewrite Forall_forall in Hws.
    by apply Hws, list_elem_of_In.
  - intros E. inversion_clear Hws as [|?? Hw _].
    destruct (format_workspace_clean w Hw) as (_ & _ & Hin).
    assert (Hj : x3a ∈ join (B ",") (map format_workspace (w :: ws)))
      by (simpl; destruct (map format_workspace ws); [done|rewrite elem_of_app; by left]).
    rewrite E in Hj. by apply (bool_decide_unpack (x3a ∉ B "-")) in Hj.
Qed.

Section announce.
Context `{!Hmac} `{!HmacLaws}.

(** The fields of a record, in the order of the canonical payload. *)
Lemma canonical_fields advertise csv rss load ncpus total avail sess wcsv n :
  word advertise -> word csv -> 0 <= rss -> 0 <= ncpus -> 0 <= total -> 0 <= avail -> 0 <= sess ->
  word wcsv -> (forall x, n = Some x -> word x) ->
  Forall word ([advertise; csv; show rss; fmt_fixed 4 load; show ncpus; show total; show avail;
    show sess; wcsv] ++ match n with Some n => [n] | None => [] end).
Proof.
  intros. pose proof (fmt_fixed_graphic 4 load ltac:(lia)).
  apply Forall_app. split; [repeat (constructor; [by try apply show_word|]); constructor|].
  destruct n; constructor; auto.
Qed.

Lemma tag_no_addr token canonical :
  parse_socket_addr (match token with Some t => compute_auth_tag t canonical | None => B "-" end) = None
  /\ word (match token with Some t => compute_auth_tag t canonical | None => B "-" end).
Proof.
  destruct token as [t|]; [|split; [done|split; [by repeat constructor|done]]].
  destruct (compute_tag_props t canonical) as (Hh & Hg & Hn). split; [by apply hex_no_addr|done].
Qed.

Lemma split_words ws : Forall word ws -> split_whitespace (join (B " ") ws) = ws.
Proof.
  intros Hw. apply split_whitespace_join; (eapply Forall_impl; [exact Hw|intros ? Hx; apply Hx]).
Qed.
End announce.

Lemma announce_parsed `{!Hmac} `{!HmacLaws} advertise a es rss load ncpus total avail sess
    ws token n sender expected :
  word advertise -> parse_socket_addr advertise = Some a -> is_spoofed sender a = false ->
  es <> [] -> Forall wf_engine es -> 0 <= rss <= u64_max -> stable_load load ->
  0 <= ncpus <= u32_max -> 0 <= total <= u64_max -> 0 <= avail <= u64_max -> 0 <= sess <= u32_max ->
  Forall wf_workspace ws -> (forall x, n = Some x -> word x) ->
  expected = None \/ expected = n ->
  parse_node_line_with_auth_and_nonce
    (format_node_line_with_nonce advertise (join (B ",") es) rss load ncpus total avail sess ws token n)
    token sender expected
  = Some (mkNode a es rss (reread_load load) ncpus total avail sess
            (map (fun '(n, e, s) => mkLoaded n e s) ws) n).
Proof.
  intros Hadv Haddr Hspoof Hes Hesw Hrss Hload Hcpus Htot Hav Hsess Hws Hn Hexp.
  assert (Hcsv : word (join (B ",") es)).
  { split; [apply join_graphic; [by repeat constructor|eapply Forall_impl; [exact Hesw|intros ? Hx; apply Hx]]|].
    destruct es as [|e es]; [done|]. apply join_nonempty. inversion_clear Hesw as [|?? [[_ ?] _] _]. done. }
  pose proof (canonical_fields advertise (join (B ",") es) rss load ncpus total avail sess
    (workspaces_csv ws) n Hadv Hcsv ltac:(lia) ltac:(lia) ltac:(lia) ltac:(lia) ltac:(lia)
    (workspaces_csv_word ws Hws) Hn) as Hfields.
  unfold format_node_line_with_nonce.
  set (canonical := canonical_announce_payload_with_nonce _ _ _ _ _ _ _ _ _ _).
  destruct (tag_no_addr token canonical) as [Hnoaddr Htag].
  set (tag := match token with Some t => compute_auth_tag t canonical | None => B "-" end) in *.
  unfold parse_node_line_with_auth_and_nonce. rewrite strip_prefix_app. bind_step.
  assert (Hsplit : split_whitespace (tag ++ B " " ++ canonical)
    = tag :: [advertise; join (B ",") es; show rss; fmt_fixed 4 load; show ncpus; show total;
              show avail; show sess; workspaces_csv ws] ++ match n with Some n => [n] | None => [] end).
  { rewrite <- split_words by (by constructor). f_equal. }
  rewrite Hsplit, Hnoaddr. cbn [app]. rewrite Haddr. bind_step.
  unfold parse_fields. rewrite Hspoof.
  match goal with |- context [?l !! 8%nat] =>
    assert (Hn8 : l !! 8%nat = n) by (by destruct n); rewrite Hn8 end.
  simpl default. unfold next_uint. cbn [lookup list_lookup mbind option_bind].
  rewrite !parse_show by done. cbn [default].
  change (default fzero (parse_f64 (fmt_fixed 4 load))) with (reread_load load). unfold id.
  rewrite parse_workspaces_csv by done.
  replace (match expected with Some e => negb (bool_decide (n = Some e)) | None => false end) with false
    by (destruct Hexp as [->| ->]; [done|destruct n; [by rewrite bool_decide_eq_true_2|done]]).
  assert (Hcanon : canonical_announce_payload_with_nonce advertise (join (B ",") es) rss
    (reread_load load) ncpus total avail sess (workspaces_csv ws) n = canonical).
  { unfold canonical, canonical_announce_payload_with_nonce. by rewrite Hload. }
  rewrite Hcanon.
  replace (match token with Some t => negb (verify_auth_tag t canonical tag) | None => false end) with false
    by (unfold tag; destruct token; [by rewrite verify_computed|done]).
  assert (Hes' : filter (fun s => s <> []) (split x2c (join (B ",") es)) = es).
  { change (B ",") with [x2c]. rewrite split_join;
      [|done|eapply Forall_impl; [exact Hesw|intros ? Hx; apply Hx]].
    clear -Hesw. induction Hesw as [|e es [[_ He] _] _ IH]; [done|].
    rewrite filter_cons_True by done. by rewrite IH. }
  by rewrite Hes'.
Qed.

(** A gateway's announcement is read back as it was made.  Whatever the workspace names
    (spaces, commas, colons and other characters included), the engines, the counters and the
    nonce, the line the gateway formats parses, under the same token and from the advertised
    host, to a node with these values; the load is the printed one. *)
Theorem announce_roundtrip `{!Hmac} `{!HmacLaws} advertise a es rss load ncpus total avail sess
    ws token n sender expected :
  word advertise -> parse_socket_addr advertise = Some a -> is_spoofed sender a = false ->
  es <> [] -> Forall wf_engine es -> 0 <= rss <= u64_max -> stable_load load ->
  0 <= ncpus <= u32_max -> 0 <= total <= u64_max -> 0 <= avail <= u64_max -> 0 <= sess <= u32_max ->
  Forall wf_workspace ws -> (forall x, n = Some x -> word x) ->
  expected = None \/ expected = n ->
  parse_node_line_with_auth_and_nonce
    (format_node_line_with_nonce advertise (join (B ",") es) rss load ncpus total avail sess ws token n)
    token sender expected
  = Some (mkNode a es rss (reread_load load) ncpus total avail sess
            (map (fun '(n, e, s) => mkLoaded n e s) ws) n).
Proof. apply announce_parsed. Qed.

(** ** What an accepted record proves *)

Section accepted.
Context `{!Hmac}.

(** Every field of a node is covered by a tag made with the token. *)
Definition covered_by (t : bytes) (nd : DiscoveredNode) : Prop :=
  exists addr_str csv wcsv tag m,
    parse_socket_addr addr_str = Some (addr nd)
    /\ engines nd = filter (fun s => s <> []) (split x2c csv)
    /\ workspaces nd = parse_workspaces wcsv
    /\ mac t (canonical_announce_payload_with_nonce addr_str csv (rss_mb nd) (load_per_cpu nd)
                (cpus nd) (mem_total_mb nd) (mem_avail_mb nd) (sessions nd) wcsv (nonce nd)) = Some m
    /\ zlen tag = 64 /\ decode_tag tag = Some m.

Definition accepted (expected_token : option bytes) (sender_ip : option IpAddr)
    (expected_nonce : option bytes) (nd : DiscoveredNode) : Prop :=
  is_spoofed sender_ip (addr nd) = false
  /\ (forall e, expected_nonce = Some e -> nonce nd = Some e)
  /\ (forall t, expected_token = Some t -> covered_by t nd).

Lemma verify_auth_tag_true t d tag :
  verify_auth_tag t d tag = true ->
  exists m, mac t d = Some m /\ zlen tag = 64 /\ decode_tag tag = Some m.
Proof.
  unfold verify_auth_tag. intros Hv. repeat case_match; simplify_eq/=; try done.
  apply bool_decide_eq_true in Hv. subst. eexists. split_and!; [done| |done].
  apply negb_false_iff, Z.eqb_eq in H1. done.
Qed.

Lemma parse_fields_accepted tag addr_str a fields tok sender expn nd :
  parse_socket_addr addr_str = Some a ->
  parse_fields tag addr_str a fields tok sender expn = Some nd -> accepted tok sender expn nd.
Proof.
  intros Ha. unfold parse_fields. destruct (is_spoofed sender a) eqn:Hs; [done|].
  destruct (match expn with Some e => _ | None => _ end) eqn:He; [done|].
  destruct (match tok with Some t => _ | None => _ end) eqn:Ht; [done|].
  intros [= <-]. split_and!; simpl; [done|..].
  - intros e ->. by apply negb_false_iff, bool_decide_eq_true in He.
  - intros t ->. apply negb_false_iff, verify_auth_tag_true in Ht as (m & Hm & Hl & Hd).
    eexists addr_str, _, _, tag, m. split_and!; simpl; [done..|exact Hm|done|done].
Qed.

Lemma parse_line_accepted line tok sender expn nd :
  parse_node_line_with_auth_and_nonce line tok sender expn = Some nd -> accepted tok sender expn nd.
Proof.
  unfold parse_node_line_with_auth_and_nonce. destruct (strip_prefix _ _); simpl; [|done].
  destruct (split_whitespace _) as [|first parts]; [done|].
  destruct (parse_socket_addr first) as [a|] eqn:Ha.
  - by apply parse_fields_accepted.
  - destruct parts as [|addr_str fields]; [done|].
    destruct (parse_socket_addr addr_str) as [a|] eqn:Ha'; [|done]. by apply parse_fields_accepted.
Qed.

(** The invariant of the collecting loop. *)
Definition collected_ok (token : option bytes) (challenge : bytes) (froms : list IpAddr)
    (nodes : list DiscoveredNode) : Prop :=
  NoDup (addr <$> nodes)
  /\ Forall (fun nd => exists from, from ∈ froms /\ accepted token (Some from) (Some challenge) nd) nodes.

Lemma or_insert_ok token challenge froms nodes nd from :
  from ∈ froms -> accepted token (Some from) (Some challenge) nd ->
  collected_ok token challenge froms nodes -> collected_ok token challenge froms (or_insert nodes nd).
Proof.
  intros Hin Hacc [Hnd Hall]. unfold or_insert.
  destruct (existsb _ nodes) eqn:E; [done|]. split.
  - rewrite fmap_app. apply NoDup_app. split_and!; [done| |by apply NoDup_singleton].
    intros x Hx Hy. apply list_elem_of_singleton in Hy as ->.
    apply list_elem_of_fmap in Hx as (m & Hm & Hmin).
    assert (existsb (fun m => bool_decide (addr m = addr nd)) nodes = true) as E'; [|congruence].
    apply existsb_exists. exists m. split; [by apply list_elem_of_In|].
    by apply bool_decide_eq_true_2.
  - apply Forall_app. split; [done|]. constructor; [by exists from|constructor].
Qed.

Lemma collect_datagram_ok token challenge froms nodes dgram :
  snd dgram ∈ froms ->
  collected_ok token challenge froms nodes ->
  collected_ok token challenge froms (collect_datagram token challenge nodes dgram).
Proof.
  destruct dgram as [text from]. simpl. intros Hin Hok. destruct (utf8_valid text); [|done].
  revert nodes Hok. induction (lines text) as [|line ls IH]; intros nodes Hok; simpl; [done|].
  apply IH. destruct (parse_node_line_with_auth_and_nonce _ _ _ _) eqn:E; [|done].
  apply parse_line_accepted in E. by eapply or_insert_ok.
Qed.
End accepted.

(** Discovery believes only what its probe earned.  Whatever datagrams arrive, the nodes a
    client collects have distinct addresses, and each comes from a record that carried the
    probe's own nonce, advertised the host it was sent from (unless one is loopback) and, when a
    token is configured, bore a 64-digit tag equal to the HMAC, under that token, of a payload
    that holds every field of the node. *)
Theorem collected_nodes_authentic `{!Hmac} (token : option bytes) (challenge : bytes)
    (dgrams : list (bytes * IpAddr)) :
  let nodes := collect_replies token challenge dgrams in
  NoDup (addr <$> nodes)
  /\ forall nd, nd ∈ nodes ->
       nonce nd = Some challenge
       /\ (exists from, from ∈ map snd dgrams
             /\ (from = ip (addr nd) \/ is_loopback from = true \/ is_loopback (ip (addr nd)) = true))
       /\ (forall t, token = Some t -> covered_by t nd).
Proof.
  assert (Hok : collected_ok token challenge (map snd dgrams) (collect_replies token challenge dgrams)).
  { unfold collect_replies.
    assert (Hgen : forall ds nodes, (forall d, d ∈ ds -> snd d ∈ map snd dgrams) ->
      collected_ok token challenge (map snd dgrams) nodes ->
      collected_ok token challenge (map snd dgrams) (foldl (collect_datagram token challenge) nodes ds)).
    { induction ds as [|d ds IH]; intros nodes Hin Hn; simpl; [done|]. apply IH; [set_solver|].
      apply collect_datagram_ok; [apply Hin; set_solver|done]. }
    apply Hgen; [|split; constructor]. intros d Hd. apply list_elem_of_In, in_map, list_elem_of_In, Hd. }
  destruct Hok as [Hnd Hall]. split; [done|]. intros nd Hin. rewrite Forall_forall in Hall.
  destruct (Hall nd Hin) as (from & Hfrom & Hs & Hn & Ht). split_and!; [by apply Hn| |done].
  exists from. split; [done|]. unfold is_spoofed in Hs.
  destruct (is_loopback from), (is_loopback (ip (addr nd))); auto. simpl in Hs.
  apply negb_false_iff, bool_decide_eq_true in Hs. auto.
Qed.

Lemma probe_words token n :
  (forall x, n = Some x -> word x) ->
  forall `{!Hmac} `{!HmacLaws}, exists ws, format_probe_with_nonce token n = join (B " ") (PROBE_PREFIX :: ws) ++ [x0a]
    /\ Forall word ws
    /\ head (tail ws) = n
    /\ (forall t, token = Some t -> exists tag, head ws = Some tag
          /\ verify_auth_tag t (match n with Some n => PROBE_PREFIX ++ B " " ++ n | None => PROBE_PREFIX end) tag = true).
Proof.
  intros Hn Hm Hl. destruct token as [t|], n as [n|]; unfold format_probe_with_nonce.
  - set (tag := compute_auth_tag t _). exists [tag; n].
    split_and!; [by repeat (simpl; rewrite <- ?app_assoc)| |done|].
    + constructor; [apply compute_tag_props|]. constructor; [by apply Hn|constructor].
    + intros ? [= <-]. exists tag. split; [done|]. apply verify_computed.
  - set (tag := compute_auth_tag t _). exists [tag].
    split_and!; [by repeat (simpl; rewrite <- ?app_assoc)| |done|].
    + constructor; [apply compute_tag_props|constructor].
    + intros ? [= <-]. exists tag. split; [done|]. apply verify_computed.
  - exists [B "-"; n]. split_and!; [by repeat (simpl; rewrite <- ?app_assoc)| |done|done].
    constructor; [split; [by repeat constructor|done]|]. constructor; [by apply Hn|constructor].
  - exists []. split_and!; [done|constructor|done|done].
Qed.

Lemma join_last w ws :
  Forall word (w :: ws) -> exists r z, join (B " ") (w :: ws) = r ++ [z] /\ is_ascii_graphic z = true.
Proof.
  revert w. induction ws as [|w' ws IH]; intros w Hws; apply List.Forall_cons_iff in Hws as [[Hg Hne] Hws].
  - destruct (exists_last Hne) as (r & z & E). exists r, z. split; [done|].
    rewrite E in Hg. apply graphic_app in Hg as [_ Hz]. by apply graphic_cons in Hz as [? _].
  - destruct (IH w' Hws) as (r & z & E & Hz). exists (w ++ B " " ++ r), z. split; [|done].
    change (join (B " ") (w :: w' :: ws)) with (w ++ B " " ++ join (B " ") (w' :: ws)).
    rewrite E. by rewrite <- !app_assoc.
Qed.

(** Words on a line: the line's end and the spaces come off. *)
Lemma split_trim_words w ws :
  Forall word (w :: ws) -> split_whitespace (trim (join (B " ") (w :: ws) ++ [x0a])) = w :: ws.
Proof.
  intros Hws. destruct (join_last w ws Hws) as (r & z & E & Hz).
  assert (Hhd : exists b t, join (B " ") (w :: ws) = b :: t /\ is_ascii_graphic b = true).
  { pose proof Hws as Hws'. apply List.Forall_cons_iff in Hws' as [[Hg Hne] _].
    destruct w as [|b w]; [done|]. apply graphic_cons in Hg as [Hb _].
    destruct ws; eexists b, _; (split; [reflexivity|done]). }
  destruct Hhd as (b & t & Hb & Hgb). unfold trim.
  rewrite Hb. simpl (_ ++ [x0a]). rewrite trim_start_graphic by done.
  change (b :: t ++ [x0a]) with ((b :: t) ++ [x0a]). rewrite trim_end_ws by done.
  rewrite <- Hb, E, trim_end_graphic, <- E by done. by apply split_words.
Qed.

Lemma words_ascii ws : Forall word ws -> ascii (join (B " ") ws).
Proof.
  induction ws as [|w ws IH]; intros Hws; [constructor|].
  apply List.Forall_cons_iff in Hws as [[Hg _] Hws]. apply graphic_ascii in Hg.
  destruct ws as [|w' ws]; [done|].
  change (join (B " ") (w :: w' :: ws)) with (w ++ B " " ++ join (B " ") (w' :: ws)).
  apply Forall_app. split; [done|]. apply Forall_app. split; [by repeat constructor|by apply IH].
Qed.

Lemma probe_inspected `{!Hmac} `{!HmacLaws} (token n : option bytes) :
  (forall x, n = Some x -> word x) ->
  inspect_probe (format_probe_with_nonce token n) token = Some n.
Proof.
  intros Hn. destruct (probe_words token n Hn) as (ws & -> & Hws & Hhd & Htag).
  assert (Hp : Forall word (PROBE_PREFIX :: ws)) by (constructor; [split; [by repeat constructor|done]|done]).
  unfold inspect_probe.
  assert (Hstart : starts_with PROBE_PREFIX (join (B " ") (PROBE_PREFIX :: ws) ++ [x0a]) = true).
  { apply starts_with_spec. destruct ws as [|w ws]; eexists; [reflexivity|].
    change (join (B " ") (PROBE_PREFIX :: w :: ws)) with (PROBE_PREFIX ++ B " " ++ join (B " ") (w :: ws)).
    by rewrite <- app_assoc. }
  rewrite Hstart, utf8_valid_ascii by (apply Forall_app; split; [by apply words_ascii|by repeat constructor]).
  cbn [negb]. rewrite split_trim_words by done. cbn [tail]. rewrite Hhd.
  destruct token as [t|]; [|done]. destruct (Htag t eq_refl) as (tag & -> & Hv).
  bind_step. by rewrite Hv.
Qed.

(** A probe is understood by the gateways that share its token.  The datagram a client
    formats, with or without a token and a nonce, passes the gateway's inspection under the same
    token and gives back exactly its nonce; and a probe any client sends is accepted under a
    token only if it carries the HMAC of the prefix and the nonce it is answered with. *)
Theorem probe_roundtrip `{!Hmac} `{!HmacLaws} (token n : option bytes) :
  (forall x, n = Some x -> word x) ->
  inspect_probe (format_probe_with_nonce token n) token = Some n
  /\ (forall buf t n', inspect_probe buf (Some t) = Some n' ->
        exists tag m, mac t (match n' with Some x => PROBE_PREFIX ++ B " " ++ x | None => PROBE_PREFIX end) = Some m
          /\ zlen tag = 64 /\ decode_tag tag = Some m).
Proof.
  intros Hn. split; [by apply probe_inspected|].
  intros buf t n'. unfold inspect_probe. destruct (negb (starts_with _ _)); [done|].
  destruct (negb (utf8_valid buf)); [done|].
  destruct (head (tail (split_whitespace (trim buf)))) as [tag|]; [|done]. bind_step.
  destruct (verify_auth_tag _ _ _) eqn:Hv; [|done]. intros [= <-].
  apply verify_auth_tag_true in Hv as (m & Hm & Hl & Hd). eauto.
Qed.

(** ** A concrete tag function, for the examples *)

Definition sum_mac (token d : bytes) : option bytes :=
  Some (replicate 32 (byte_of_Z (foldl (fun acc b => acc * 31 + u8 b) 7 (token ++ d)))).
#[export] Instance sum_hmac : Hmac := { mac := sum_mac }.
#[export] Instance sum_hmac_laws : HmacLaws.
Proof. constructor. intros. by eexists. Qed.

Lemma announce_roundtrip_witness :
  parse_node_line_with_auth_and_nonce
    (format_node_line_with_nonce (B "10.0.0.5:9400") (join (B ",") [B "rust"; B "go"]) 512 (lit 3 4)
       8 16000 8000 2 [(B "my shop, eu:1", B "rust", 1)] (Some (B "secret")) (Some (B "abc")))
    (Some (B "secret")) (Some (V4 x0a x00 x00 x05)) (Some (B "abc"))
  = Some (mkNode (socket_new (V4 x0a x00 x00 x05) 9400) [B "rust"; B "go"] 512
            (reread_load (lit 3 4)) 8 16000 8000 2
            (map (fun '(n, e, s) => mkLoaded n e s) [(B "my shop, eu:1", B "rust", 1)])
            (Some (B "abc"))).
Proof.
  apply (announce_roundtrip (B "10.0.0.5:9400") (socket_new (V4 x0a x00 x00 x05) 9400)
    [B "rust"; B "go"] 512 (lit 3 4) 8 16000 8000 2 [(B "my shop, eu:1", B "rust", 1)]
    (Some (B "secret")) (Some (B "abc")) (Some (V4 x0a x00 x00 x05)) (Some (B "abc"))).
  - split; [repeat constructor|discriminate].
  - vm_compute. reflexivity.
  - vm_compute. reflexivity.
  - discriminate.
  - repeat constructor; try discriminate; apply (bool_decide_unpack (_ ∉ _)); vm_compute; exact I.
  - vm_compute; split; discriminate.
  - vm_compute. reflexivity.
  - vm_compute; split; discriminate.
  - vm_compute; split; discriminate.
  - vm_compute; split; discriminate.
  - vm_compute; split; discriminate.
  - constructor; [|constructor]. split_and!; try (vm_compute; reflexivity || discriminate);
      by_decide.
  - intros x [= <-]. split; [repeat constructor|discriminate].
  - right. reflexivity.
Defined.

Lemma probe_roundtrip_witness :
  inspect_probe (format_probe_with_nonce (Some (B "secret")) (Some (B "abc"))) (Some (B "secret"))
  = Some (Some (B "abc")).
Proof.
  apply (probe_roundtrip (Some (B "secret")) (Some (B "abc"))).
  intros x [= <-]. split; [repeat constructor|discriminate].
Defined.


(** A gateway with no engine to announce is misread.  Its record has an empty engines
    field, which the reader's split at white space drops, so that every later field shifts:
    without a token the resident size becomes an engine name, and under a token the payload the
    reader checks is another one, so that it refuses the gateway's own record. *)
Theorem empty_engines_misread `{!Hmac} `{!HmacLaws} (secret : bytes) :
  let line := format_node_line (B "10.0.0.5:9400") [] 512 (lit 3 4) 8 16000 8000 2 [] in
  mac secret (B "10.0.0.5:9400  512 0.7500 8 16000 8000 2 -")
    <> mac secret (B "10.0.0.5:9400 512 0 8.0000 16000 8000 2 0 -") ->
  engines <$> parse_node_line (line None) = Some [B "512"]
  /\ parse_node_line_with_auth (line (Some secret)) (Some secret) None = None.
Proof.
  intros line Hmac'. split; [vm_compute; reflexivity|].
  unfold line, format_node_line, format_node_line_with_nonce.
  set (canonical := canonical_announce_payload_with_nonce _ _ _ _ _ _ _ _ _ _).
  assert (Hc : canonical = B "10.0.0.5:9400  512 0.7500 8 16000 8000 2 -") by (vm_compute; reflexivity).
  destruct (compute_tag_props secret canonical) as (Hh & Hg & Hne).
  assert (Hv : verify_auth_tag secret (B "10.0.0.5:9400 512 0 8.0000 16000 8000 2 0 -")
    (compute_auth_tag secret canonical) = false).
  { unfold verify_auth_tag, compute_auth_tag. rewrite Hc.
    destruct (mac_total secret (B "10.0.0.5:9400 512 0 8.0000 16000 8000 2 0 -")) as (m & Hm & _).
    destruct (mac_total secret (B "10.0.0.5:9400  512 0.7500 8 16000 8000 2 -")) as (m' & Hm' & _).
    rewrite Hm, Hm' in *. destruct (negb _); [done|]. rewrite decode_hex_string.
    apply bool_decide_eq_false_2. congruence. }
  set (tag := compute_auth_tag secret canonical) in *.
  unfold parse_node_line_with_auth, parse_node_line_with_auth_and_nonce.
  rewrite strip_prefix_app. bind_step.
  assert (Hsplit : split_whitespace (tag ++ B " " ++ canonical)
    = tag :: split_whitespace canonical) by (by apply split_whitespace_word).
  rewrite Hsplit, hex_no_addr, Hc by done.
  change (split_whitespace (B "10.0.0.5:9400  512 0.7500 8 16000 8000 2 -"))
    with [B "10.0.0.5:9400"; B "512"; B "0.7500"; B "8"; B "16000"; B "8000"; B "2"; B "-"].
  change (parse_socket_addr (B "10.0.0.5:9400")) with (Some (socket_new (V4 x0a x00 x00 x05) 9400)).
  bind_step. unfold parse_fields. cbn [is_spoofed].
  match goal with |- context [verify_auth_tag secret ?c tag] =>
    replace c with (B "10.0.0.5:9400 512 0 8.0000 16000 8000 2 0 -") by (vm_compute; reflexivity) end.
  by rewrite Hv.
Qed.

Lemma empty_engines_misread_witness :
  parse_node_line_with_auth
    (format_node_line (B "10.0.0.5:9400") [] 512 (lit 3 4) 8 16000 8000 2 [] (Some (B "secret")))
    (Some (B "secret")) None = None.
Proof.
  apply (empty_engines_misread (B "secret")). vm_compute. discriminate.
Defined.
