(* ===== verification/SmartDns.v ===== *)
(** * Cluster name resolution (crates/prod-code-protocol/src/dns/smart.rs)

    Names under [.code.internal] resolve to the gateways of the cluster: all of them, one named
    by its address or index, or the one designated for a project, which is the node that already
    has the project's workspace or, failing that, the winner of rendezvous hashing. *)

From Stdlib Require Import Strings.Byte.
From S2P Require Import Prelude RustStr Net F64 Sync Dns Discovery.

(** ** Names *)

(** [s.split(':').next().unwrap_or(s)]. *)
Definition before_colon (s : bytes) : bytes := default s (head (split x3a s)).

Definition is_srv_service_domain (domain : bytes) : bool :=
  let host := before_colon (to_ascii_lowercase (trim domain)) in
  bool_decide (host = SRV_SERVICE_DOMAIN) || bool_decide (host = B "_prod-code._tcp.code.local").

Definition is_code_internal_domain (domain : bytes) : bool :=
  let host := before_colon (to_ascii_lowercase (trim domain)) in
  bool_decide (host = CODE_INTERNAL_ROOT) || ends_with CODE_INTERNAL_SUFFIX host
  || ends_with (B ".code.local") host.

Definition extract_project_name (domain : bytes) : option bytes :=
  let lower := to_ascii_lowercase (before_colon (trim domain)) in
  if bool_decide (lower = CODE_INTERNAL_ROOT) then Some (B "cluster")
  else match strip_suffix CODE_INTERNAL_SUFFIX lower with
       | Some prefix => Some prefix
       | None => strip_suffix (B ".code.local") lower
       end.

(** ** The node of a project *)

Definition has_workspace (project : bytes) (n : DiscoveredNode) : bool :=
  existsb (fun w => eq_ignore_ascii_case (ws_name w) project) (workspaces n).

Definition has_worktree (project_lower : bytes) (n : DiscoveredNode) : bool :=
  existsb (fun w => let name := to_ascii_lowercase (ws_name w) in
                    bool_decide (name = project_lower)
                    || starts_with (project_lower ++ B "--wt-") name) (workspaces n).

(** [max_by_key]: the last of the elements with the largest key. *)
Fixpoint max_by_key {T} (key : T -> Z) (best : option T) (l : list T) : option T :=
  match l with
  | [] => best
  | x :: l' =>
      match best with
      | Some b => max_by_key key (if key b <=? key x then Some x else best) l'
      | None => max_by_key key (Some x) l'
      end
  end.

Definition rendezvous_key (project_lower : bytes) (n : DiscoveredNode) : Z :=
  content_hash (project_lower ++ B "|" ++ show_addr (addr n)).

Definition resolve_project_node (project : bytes) (nodes : list DiscoveredNode)
    : option DiscoveredNode :=
  match nodes with
  | [] => None
  | _ =>
      let proj_clean := trim project in
      match List.find (has_workspace proj_clean) nodes with
      | Some n => Some n
      | None =>
          let project_lower := to_ascii_lowercase proj_clean in
          match List.find (has_worktree project_lower) nodes with
          | Some n => Some n
          | None => max_by_key (rendezvous_key project_lower) None nodes
          end
      end
  end.

(** ** Resolution *)

Definition sort_nodes (nodes : list DiscoveredNode) : list DiscoveredNode :=
  sort_by (fun a b => addr_le (addr a) (addr b)) nodes.

(** The node's address, with its own port unless another one was asked for. *)
Definition node_endpoint (p default_port : Z) (n : DiscoveredNode) : SocketAddr :=
  socket_new (ip (addr n)) (if p =? default_port then port (addr n) else p).

Definition ip_slug (n : DiscoveredNode) : bytes := replace_byte x2e (B "-") (show_ip (ip (addr n))).

Definition names_node (project : bytes) (n : DiscoveredNode) : bool :=
  let slug := ip_slug n in
  eq_ignore_ascii_case project (B "node-" ++ slug ++ B "-" ++ show (port (addr n)))
  || eq_ignore_ascii_case project (B "node-" ++ slug)
  || eq_ignore_ascii_case project slug.

(** [node-1], [node-2], ...: a 1-based index. *)
Definition node_index (project : bytes) (count : Z) : option Z :=
  s ← strip_prefix (B "node-") project;
  idx ← parse_uint usize_max s;
  if (1 <=? idx) && (idx <=? count) then Some idx else None.

Definition split_host_port (domain : bytes) (default_port : Z) : bytes * Z :=
  let trimmed := trim domain in
  match split_once [x3a] trimmed with
  | Some (h, p) => (h, default default_port (parse_uint u16_max p))
  | None => (trimmed, default_port)
  end.

Definition resolve_smart_domain (domain : bytes) (nodes : list DiscoveredNode) (default_port : Z)
    : option (list SocketAddr) :=
  let (host, p) := split_host_port domain default_port in
  if negb (is_code_internal_domain host) then None
  else
    match nodes with
    | [] => Some [socket_new LOCALHOST p]
    | _ =>
        let sorted_nodes := sort_nodes nodes in
        let project := default host (extract_project_name host) in
        let endpoint := node_endpoint p default_port in
        if eq_ignore_ascii_case project (B "cluster") || eq_ignore_ascii_case project (B "all")
           || is_srv_service_domain host
        then Some (map endpoint sorted_nodes)
        else
          match List.find (names_node project) sorted_nodes with
          | Some n => Some [endpoint n]
          | None =>
              match node_index project (zlen sorted_nodes) ≫= (fun idx => sorted_nodes !! Z.to_nat (idx - 1)) with
              | Some n => Some [endpoint n]
              | None =>
                  match resolve_project_node project sorted_nodes with
                  | Some n => Some [endpoint n]
                  | None => None
                  end
              end
          end
    end.

(** ** Records and packets *)

Definition clamp_weight (mb : Z) : Z := Z.max 10 (Z.min 1000 (mb `div` 1024)).

Definition srv_record (n : DiscoveredNode) : DnsSrvRecord :=
  mkSrv (if flt (load_per_cpu n) (lit 5 10) then 10 else 20)
    (clamp_weight (mem_avail_mb n))
    (port (addr n))
    (if port (addr n) =? 9400 then B "node-" ++ ip_slug n ++ B ".code.internal"
     else B "node-" ++ ip_slug n ++ B "-" ++ show (port (addr n)) ++ B ".code.internal").

Definition generate_srv_records (nodes : list DiscoveredNode) : list DnsSrvRecord :=
  map srv_record (sort_nodes nodes).

Definition a_answers (n : bytes) (addrs : list SocketAddr) : list DnsAnswer :=
  omap (fun s => match ip s with
                 | V4 a b c d => Some (mkAnswer n 60 (DataA a b c d))
                 | V6 _ => None
                 end) addrs.

Definition txt_answer (n : bytes) (count : Z) : DnsAnswer :=
  mkAnswer n 60 (DataTXT (B "prod-code-cluster: nodes=" ++ show count ++ B " domain=code.internal")).

Definition dns_answers (question : DnsQuestion) (nodes : list DiscoveredNode) : list DnsAnswer :=
  let n := name question in
  match qtype question with
  | A | ANY =>
      match resolve_smart_domain n nodes 9400 with Some addrs => a_answers n addrs | None => [] end
  | SRV =>
      if is_srv_service_domain n || eq_ignore_ascii_case n (B "cluster.code.internal")
         || eq_ignore_ascii_case n CODE_INTERNAL_ROOT
      then map (fun srv => mkAnswer n 60 (DataSRV srv)) (generate_srv_records nodes)
      else []
  | TXT => [txt_answer n (zlen nodes)]
  | Other _ => []
  end.

Definition handle_dns_packet (buf : bytes) (nodes : list DiscoveredNode) : option bytes :=
  match parse_dns_query buf with
  | Err _ => None
  | Ok (id, question) =>
      if negb (is_code_internal_domain (name question)) then None
      else
        let domain_exists :=
          is_srv_service_domain (name question)
          || match resolve_smart_domain (name question) nodes 9400 with Some _ => true | None => false end in
        if domain_exists then Some (format_dns_response id question (dns_answers question nodes) true 0)
        else Some (format_dns_response id question [] true 3)
  end.

(** ** Sorting and the rendezvous winner *)

Lemma sort_nodes_perm nodes : sort_nodes nodes ≡ₚ nodes.
Proof. apply sort_by_perm. Qed.

Lemma sort_nodes_order_free nodes nodes' :
  nodes ≡ₚ nodes' -> NoDup (addr <$> nodes) -> Forall (fun n => wf_addr (addr n)) nodes ->
  sort_nodes nodes = sort_nodes nodes'.
Proof.
  intros Hp Hnd Hwf. apply sort_by_order_free; [|..|done|].
  - intros x y. apply lex_le_total.
  - intros x y z. apply lex_le_trans.
  - intros x y Hx Hy Hxy Hyx. rewrite Forall_forall in Hwf.
    assert (Ha : addr x = addr y)
      by (apply addr_key_inj; [by apply Hwf|by apply Hwf|by apply lex_le_antisym]).
    apply list_elem_of_lookup in Hx as [i Hi], Hy as [j Hj].
    assert (i = j) as ->; [|congruence].
    eapply NoDup_lookup; [exact Hnd|..]; rewrite list_lookup_fmap.
    + by rewrite Hi.
    + by rewrite Hj, Ha.
Qed.

(** [n] wins in [l]: nothing before it is larger, everything after it is smaller. *)
Definition wins {T} (key : T -> Z) (n : T) (l : list T) : Prop :=
  exists a b, l = a ++ n :: b
    /\ Forall (fun x => key x <= key n) a /\ Forall (fun x => key x < key n) b.

Lemma max_by_key_wins {T} (key : T -> Z) best l :
  match max_by_key key best l with
  | Some n => wins key n (match best with Some b => b :: l | None => l end)
  | None => best = None /\ l = []
  end.
Proof.
  revert best. induction l as [|x l IH]; intros best; simpl.
  - destruct best as [b|]; [|done]. by exists [], [].
  - destruct best as [b|];
      [|specialize (IH (Some x)); destruct (max_by_key key (Some x) l); [done|by destruct IH]].
    specialize (IH (if key b <=? key x then Some x else Some b)).
    destruct (key b <=? key x) eqn:E; destruct (max_by_key key _ l) as [n|]; try naive_solver.
    + destruct IH as (p & q & Hl & Hp & Hq). exists (b :: p), q. rewrite Hl. split_and!; [done| |done].
      constructor; [|done]. destruct p as [|y p]; simplify_eq/=; [lia|].
      apply List.Forall_cons_iff in Hp as [Hy _]. lia.
    + destruct IH as (p & q & Hl & Hp & Hq). destruct p as [|y p]; simplify_eq/=.
      * exists [], (x :: q). split_and!; [done|constructor|]. constructor; [lia|done].
      * exists (y :: x :: p), q. split_and!; [done| |done].
        apply List.Forall_cons_iff in Hp as [Hy Hp]. repeat constructor; try done. lia.
Qed.

Lemma max_by_key_Some {T} (key : T -> Z) l n : max_by_key key None l = Some n -> wins key n l.
Proof. intros H. pose proof (max_by_key_wins key None l) as Hw. by rewrite H in Hw. Qed.

Lemma wins_unique {T} (key : T -> Z) l n m : wins key n l -> wins key m l -> n = m.
Proof.
  intros (a & b & -> & Ha & Hb) (a' & b' & Hl & Ha' & Hb'). rewrite Forall_forall in *.
  destruct (app_split _ _ _ _ Hl) as [(k & -> & Hk)|(k & -> & Hk & _)]; destruct k as [|y k]; simplify_eq/=; try done.
  - pose proof (Ha y ltac:(set_solver)). pose proof (Hb' n ltac:(set_solver)). lia.
  - pose proof (Ha' y ltac:(set_solver)). pose proof (Hb m ltac:(set_solver)). lia.
Qed.

Lemma max_by_key_nonempty {T} (key : T -> Z) l : l <> [] -> is_Some (max_by_key key None l).
Proof.
  intros Hl. pose proof (max_by_key_wins key None l) as H. destruct (max_by_key key None l); [by eexists|].
  naive_solver.
Qed.

Lemma find_in {T} (f : T -> bool) l x : List.find f l = Some x -> x ∈ l /\ f x = true.
Proof. intros [H Hf]%List.find_some. split; [by apply list_elem_of_In|done]. Qed.

Lemma wins_in {T} (key : T -> Z) n l : wins key n l -> n ∈ l.
Proof. intros (a & b & -> & _). set_solver. Qed.

Lemma resolve_project_node_in project nodes n :
  resolve_project_node project nodes = Some n -> n ∈ nodes.
Proof.
  unfold resolve_project_node. destruct nodes as [|x nodes]; [done|].
  remember (x :: nodes) as l eqn:El. clear El.
  destruct (List.find (has_workspace _) l) eqn:E1; [intros [= ->]; by apply find_in in E1 as [? _]|].
  destruct (List.find (has_worktree _) l) eqn:E2; [intros [= ->]; by apply find_in in E2 as [? _]|].
  intros H%max_by_key_Some. by apply wins_in in H.
Qed.

Lemma find_filter_None {T} (f : T -> bool) (P : T -> Prop) `{forall x, Decision (P x)} l :
  List.find f l = None -> List.find f (filter P l) = None.
Proof.
  induction l as [|x l IH]; [done|]. simpl. destruct (f x) eqn:E; [done|]. intros Hl.
  rewrite filter_cons. case_decide; simpl; [rewrite E|]; auto.
Qed.

(** The node of a project is where its workspace is, else a stable choice.  A node that has
    the workspace is preferred to any that has not; when no node has it or a worktree copy of
    it, nodes that go away, other than the chosen one, do not change the choice. *)
Theorem resolve_project_node_stable (project : bytes) (nodes : list DiscoveredNode) (n : DiscoveredNode) :
  resolve_project_node project nodes = Some n ->
  n ∈ nodes
  /\ (existsb (has_workspace (trim project)) nodes = true -> has_workspace (trim project) n = true)
  /\ (existsb (has_workspace (trim project)) nodes = false ->
      existsb (has_worktree (to_ascii_lowercase (trim project))) nodes = false ->
      forall (alive : DiscoveredNode -> bool), alive n = true ->
      resolve_project_node project (filter (fun m => alive m = true) nodes) = Some n).
Proof.
  intros Hres. split_and!; [by eapply resolve_project_node_in| |].
  - intros (m & Hm & Hw)%existsb_exists. unfold resolve_project_node in Hres.
    destruct nodes as [|x nodes]; [done|].
    destruct (List.find (has_workspace (trim project)) (x :: nodes)) eqn:E.
    + simplify_eq. by apply find_in in E as [_ ?].
    + eapply List.find_none in E; [|exact Hm]. congruence.
  - intros H1 H2 alive Halive.
    assert (Hnone : forall f, existsb f nodes = false -> List.find f nodes = None).
    { intros f Hf. destruct (List.find f nodes) eqn:E; [|done]. apply List.find_some in E as [Hin Hf'].
      assert (existsb f nodes = true) by (apply existsb_exists; eauto). congruence. }
    apply Hnone in H1, H2. unfold resolve_project_node in *.
    destruct nodes as [|x nodes]; [done|]. remember (x :: nodes) as l eqn:El. clear El.
    rewrite H1, H2 in Hres. apply max_by_key_Some in Hres.
    set (key := rendezvous_key (to_ascii_lowercase (trim project))) in *.
    assert (Hw : wins key n (filter (fun m => alive m = true) l)).
    { destruct Hres as (a & b & -> & Ha & Hb). rewrite filter_app, filter_cons_True by done.
      rewrite Forall_forall in Ha, Hb.
      eexists _, _. split_and!; [done|..]; apply Forall_forall; intros y [_ ?]%list_elem_of_filter; auto. }
    rewrite (find_filter_None _ _ _ H1), (find_filter_None _ _ _ H2).
    assert (Hne : filter (fun m => alive m = true) l <> []) 
      by (intros E; rewrite E in Hw; apply wins_in in Hw; set_solver).
    destruct (max_by_key_nonempty key _ Hne) as [m Hm]. fold key. rewrite Hm.
    destruct (filter _ l) as [|y ys] eqn:E; [done|]. f_equal.
    apply max_by_key_Some in Hm. by eapply wins_unique.
Qed.

(** ** Every internal name resolves *)

Lemma lower_byte_graphic b : is_ascii_graphic (to_ascii_lowercase_byte b) = is_ascii_graphic b.
Proof.
  revert b. apply (byte_forall (fun b => is_ascii_graphic (to_ascii_lowercase_byte b) = is_ascii_graphic b)).
  vm_compute. reflexivity.
Qed.
Lemma lower_byte_colon b : Byte.eqb x3a (to_ascii_lowercase_byte b) = Byte.eqb x3a b.
Proof.
  revert b. apply (byte_forall (fun b => Byte.eqb x3a (to_ascii_lowercase_byte b) = Byte.eqb x3a b)).
  vm_compute. reflexivity.
Qed.

Lemma lower_graphic s : graphic (to_ascii_lowercase s) <-> graphic s.
Proof.
  unfold graphic, to_ascii_lowercase. rewrite Forall_map. unfold compose.
  by setoid_rewrite lower_byte_graphic.
Qed.

Lemma head_split_lower s :
  head (split x3a (to_ascii_lowercase s)) = to_ascii_lowercase <$> head (split x3a s).
Proof.
  unfold split. induction s as [|b s IH]; [done|]. simpl. rewrite lower_byte_colon.
  destruct (Byte.eqb x3a b); [done|].
  destruct (split_byte (Byte.eqb x3a) s) eqn:E; [by apply split_nil_inv in E|].
  fold (to_ascii_lowercase s).
  destruct (split_byte (Byte.eqb x3a) (to_ascii_lowercase s)) eqn:E'; [by apply split_nil_inv in E'|].
  simpl in *. by simplify_eq.
Qed.

Lemma before_colon_lower s : before_colon (to_ascii_lowercase s) = to_ascii_lowercase (before_colon s).
Proof.
  unfold before_colon. rewrite head_split_lower. by destruct (head (split x3a s)).
Qed.

Lemma before_colon_word w : x3a ∉ w -> before_colon w = w.
Proof. intros H. unfold before_colon. by rewrite split_word. Qed.

Lemma before_colon_app w s : x3a ∉ w -> before_colon (w ++ x3a :: s) = w.
Proof. intros H. unfold before_colon. by rewrite split_app_sep. Qed.

(** The text before the first colon, and what a colon leaves. *)
Lemma colon_cases (s : bytes) : x3a ∉ s \/ exists a b, s = a ++ x3a :: b /\ x3a ∉ a.
Proof.
  destruct (decide (x3a ∈ s)) as [H|H]; [right|by left].
  apply list_elem_of_split_l in H as (a & b & -> & Ha). eauto.
Qed.

Lemma split_host_port_fst domain p : fst (split_host_port domain p) = before_colon (trim domain).
Proof.
  unfold split_host_port. destruct (colon_cases (trim domain)) as [H|(a & b & E & H)].
  - rewrite split_once_byte_None, before_colon_word by done. done.
  - rewrite E, split_once_byte, before_colon_app by done. done.
Qed.

(** Trimming at the front stops at a printable character. *)
Lemma trim_start_stop g w :
  is_ascii_graphic g = true -> forall u, exists u', trim_start (u ++ g :: w) = u' ++ g :: w.
Proof.
  intros Hg u. induction u as [u IH] using list_len_ind. destruct u as [|a u].
  { exists []. by apply trim_start_graphic. }
  simpl. destruct (ws1 a); [apply IH; simpl; lia|].
  destruct u as [|b u]; simpl.
  - rewrite graphic_not_ws2_r by done. destruct w as [|c w]; [by exists [a]|].
    replace (ws3 a g c) with false; [by exists [a]|].
    apply graphic_range in Hg. unfold ws3, in_range. symmetry. lia.
  - destruct (ws2 a b); [apply IH; simpl; lia|]. destruct u as [|c u]; simpl.
    + rewrite graphic_not_ws3_r by done. by exists [a; b].
    + destruct (ws3 a b c); [apply IH; simpl; lia|]. by exists (a :: b :: c :: u).
Qed.

(** A host that ends in a printable suffix still does when it is trimmed. *)
Lemma trim_suffix u v :
  graphic v -> v <> [] -> exists u', trim (u ++ v) = u' ++ v.
Proof.
  intros Hv Hne. unfold trim. destruct v as [|g v]; [done|].
  pose proof (proj1 (proj1 (graphic_cons _ _) Hv)) as Hg.
  destruct (trim_start_stop g v Hg u) as [u' ->]. exists u'.
  destruct (exists_last Hne) as (r & z & E). rewrite E, app_assoc.
  apply trim_end_graphic. rewrite E in Hv. apply graphic_app in Hv as [_ Hz].
  by apply graphic_cons in Hz as [? _].
Qed.

Lemma ends_with_lower suffix h :
  graphic suffix -> suffix <> [] -> x3a ∉ suffix ->
  ends_with suffix (to_ascii_lowercase h) = true ->
  ends_with suffix (to_ascii_lowercase (trim h)) = true.
Proof.
  intros Hg Hne _ (r & Hr)%ends_with_spec.
  unfold to_ascii_lowercase in Hr. apply map_eq_app in Hr as (u & v & -> & Hu & Hv).
  fold (to_ascii_lowercase v) in Hv.
  assert (graphic v) by (apply lower_graphic; by rewrite Hv).
  assert (v <> []) by (intros ->; by rewrite <- Hv in Hne).
  destruct (trim_suffix u v) as [u' ->]; [done..|]. apply ends_with_spec.
  exists (to_ascii_lowercase u'). unfold to_ascii_lowercase. rewrite map_app. by rewrite <- Hv.
Qed.

Lemma trim_in s b : b ∈ trim s -> b ∈ s.
Proof.
  unfold trim. assert (Hs : forall t, exists k, t = k ++ trim_start t).
  { intros t. induction t as [t IH] using list_len_ind. destruct t as [|a t]; [by exists []|].
    simpl. destruct (ws1 a).
    { destruct (IH t) as [k Hk]; [simpl; lia|]. exists (a :: k). simpl. by rewrite <- Hk. }
    destruct t as [|b' t]; [by exists []|]. destruct (ws2 a b').
    { destruct (IH t) as [k Hk]; [simpl; lia|]. exists (a :: b' :: k). simpl. by rewrite <- Hk. }
    destruct t as [|c t]; [by exists []|]. destruct (ws3 a b' c); [|by exists []].
    destruct (IH t) as [k Hk]; [simpl; lia|]. exists (a :: b' :: c :: k). simpl. by rewrite <- Hk. }
  assert (Hr : forall t, exists k, t = k ++ trim_start_rev t).
  { intros t. induction t as [t IH] using list_len_ind. destruct t as [|a t]; [by exists []|].
    simpl. destruct (ws1 a).
    { destruct (IH t) as [k Hk]; [simpl; lia|]. exists (a :: k). simpl. by rewrite <- Hk. }
    destruct t as [|b' t]; [by exists []|]. destruct (ws2 b' a).
    { destruct (IH t) as [k Hk]; [simpl; lia|]. exists (a :: b' :: k). simpl. by rewrite <- Hk. }
    destruct t as [|c t]; [by exists []|]. destruct (ws3 c b' a); [|by exists []].
    destruct (IH t) as [k Hk]; [simpl; lia|]. exists (a :: b' :: c :: k). simpl. by rewrite <- Hk. }
  intros Hb. unfold trim_end in Hb. rewrite elem_of_reverse in Hb.
  destruct (Hr (reverse (trim_start s))) as [k Hk].
  assert (b ∈ reverse (trim_start s)) by (rewrite Hk; set_solver).
  rewrite elem_of_reverse in H. destruct (Hs s) as [k' Hk']. rewrite Hk'. set_solver.
Qed.

Lemma before_colon_no_colon s : x3a ∉ before_colon s.
Proof.
  destruct (colon_cases s) as [H|(a & b & -> & H)];
    [by rewrite before_colon_word|by rewrite before_colon_app].
Qed.

(** The host resolution looks at is internal when the whole name is. *)
Lemma internal_host domain :
  is_code_internal_domain domain = true ->
  is_code_internal_domain (before_colon (trim domain)) = true.
Proof.
  unfold is_code_internal_domain. rewrite !before_colon_lower.
  set (h := before_colon (trim domain)).
  rewrite (before_colon_word (trim h)) by (intros Hin%trim_in; by apply (before_colon_no_colon (trim domain))).
  intros [[H|H]%orb_prop|H]%orb_prop.
  - apply bool_decide_eq_true in H. assert (Hg : graphic h) by (apply lower_graphic; rewrite H; by repeat constructor).
    rewrite (trim_word h) by done. rewrite H. done.
  - rewrite (ends_with_lower CODE_INTERNAL_SUFFIX h); [by rewrite orb_true_r|by repeat constructor|done| |done].
    by_decide.
  - rewrite (ends_with_lower (B ".code.local") h); [by rewrite orb_true_r|by repeat constructor|done| |done].
    by_decide.
Qed.

Lemma resolve_project_node_total project nodes :
  nodes <> [] -> is_Some (resolve_project_node project nodes).
Proof.
  intros Hne. unfold resolve_project_node. destruct nodes as [|x nodes]; [done|].
  remember (x :: nodes) as l eqn:El. clear El x nodes.
  destruct (List.find (has_workspace _) l); [by eexists|].
  destruct (List.find (has_worktree _) l); [by eexists|]. by apply max_by_key_nonempty.
Qed.

Lemma sort_nodes_nil nodes : nodes <> [] -> sort_nodes nodes <> [].
Proof.
  intros Hne Hs. pose proof (sort_nodes_perm nodes) as Hp. rewrite Hs in Hp.
  by apply Permutation_nil in Hp.
Qed.

Lemma resolve_internal domain nodes p :
  is_code_internal_domain (fst (split_host_port domain p)) = true ->
  is_Some (resolve_smart_domain domain nodes p).
Proof.
  intros Hi. unfold resolve_smart_domain. destruct (split_host_port domain p) as [host q].
  simpl in Hi. rewrite Hi. cbn [negb]. destruct nodes as [|x nodes]; [by eexists|].
  remember (x :: nodes) as l eqn:El. assert (Hne : l <> []) by (by subst). clear El x nodes.
  destruct (_ || _); [by eexists|]. destruct (List.find _ _); [by eexists|].
  destruct (_ ≫= _); [by eexists|].
  destruct (resolve_project_node_total (default host (extract_project_name host)) (sort_nodes l)
    (sort_nodes_nil l Hne)) as [n ->]. by eexists.
Qed.

(** Where the addresses of an answer come from. *)
Lemma resolve_endpoints domain nodes p addrs :
  nodes <> [] -> resolve_smart_domain domain nodes p = Some addrs ->
  addrs <> [] /\ Forall (fun a => exists n, n ∈ nodes
    /\ a = node_endpoint (snd (split_host_port domain p)) p n) addrs.
Proof.
  intros Hne. unfold resolve_smart_domain. destruct (split_host_port domain p) as [host q].
  destruct (negb _); [done|]. destruct nodes as [|x nodes]; [done|].
  remember (x :: nodes) as l eqn:El. clear El x nodes. pose proof (sort_nodes_perm l) as Hp.
  assert (Hone : forall n a, n ∈ sort_nodes l -> Some [node_endpoint q p n] = Some a ->
    a <> [] /\ Forall (fun a => exists n, n ∈ l /\ a = node_endpoint q p n) a).
  { intros n a Hin [= <-]. split; [done|]. constructor; [|constructor]. exists n. by rewrite <- Hp. }
  destruct (_ || _).
  { intros [= <-]. split.
    - intros E%map_eq_nil. by apply sort_nodes_nil in E.
    - apply Forall_map, Forall_forall. intros n Hn. exists n. by rewrite <- Hp. }
  destruct (List.find _ _) eqn:Ef; [apply find_in in Ef as [? _]; by apply Hone|].
  destruct (_ ≫= _) eqn:Ei.
  { apply Hone. apply bind_Some in Ei as (idx & _ & Hi). by apply list_elem_of_lookup_2 in Hi. }
  destruct (resolve_project_node _ _) eqn:Er; [|done].
  apply resolve_project_node_in in Er. by apply Hone.
Qed.

(** Resolution is sound, total on the virtual domains and independent of the order nodes
    were discovered in.  A name resolves exactly when its host is an internal domain; every
    address it resolves to is that of a known node, there is at least one, and loopback stands
    in only when no node is known; and for nodes with distinct addresses any two orders give
    the same answer. *)
Theorem resolve_smart_domain_correct (domain : bytes) (nodes : list DiscoveredNode) (p : Z) :
  NoDup (addr <$> nodes) -> Forall (fun n => wf_addr (addr n)) nodes ->
  (is_Some (resolve_smart_domain domain nodes p)
     <-> is_code_internal_domain (fst (split_host_port domain p)) = true)
  /\ (forall addrs, resolve_smart_domain domain nodes p = Some addrs ->
        addrs <> [] /\
        forall a, a ∈ addrs ->
          (nodes = [] /\ ip a = LOCALHOST) \/ (exists n, n ∈ nodes /\ ip a = ip (addr n)))
  /\ (forall nodes', nodes ≡ₚ nodes' ->
        resolve_smart_domain domain nodes' p = resolve_smart_domain domain nodes p).
Proof.
  intros Hnd Hwf. split_and!.
  - split; [|apply resolve_internal]. intros [addrs H]. unfold resolve_smart_domain in H.
    destruct (split_host_port domain p) as [host q]. simpl.
    destruct (is_code_internal_domain host); [done|]. done.
  - intros addrs Hres. destruct nodes as [|x nodes].
    + unfold resolve_smart_domain in Hres. destruct (split_host_port domain p) as [host q].
      destruct (negb _); [done|]. simplify_eq. split; [done|].
      intros a Ha%list_elem_of_singleton. subst. by left.
    + apply resolve_endpoints in Hres as [Hne Hall]; [|done]. split; [done|].
      intros a Ha. rewrite Forall_forall in Hall. destruct (Hall a Ha) as (n & Hn & ->). right. by exists n.
  - intros nodes' Hp. unfold resolve_smart_domain. destruct (split_host_port domain p) as [host q].
    destruct (negb _); [done|].
    rewrite <- (sort_nodes_order_free nodes nodes') by done.
    destruct nodes as [|x nodes], nodes' as [|x' nodes']; try done.
    + by apply Permutation_nil in Hp.
    + symmetry in Hp. by apply Permutation_nil in Hp.
Qed.

(** The gateway's name server never says a name does not exist.  Once a query's name is
    under a virtual domain it resolves, so that the reply is always the authoritative one with
    code 0 and the answers for the name, and the branch for unknown names is never taken. *)
Theorem dns_never_nxdomain (buf : bytes) (nodes : list DiscoveredNode) :
  handle_dns_packet buf nodes
  = match parse_dns_query buf with
    | Ok (id, q) =>
        if is_code_internal_domain (name q)
        then Some (format_dns_response id q (dns_answers q nodes) true 0)
        else None
    | Err _ => None
    end.
Proof.
  unfold handle_dns_packet. destruct (parse_dns_query buf) as [[id q]|]; [|done].
  destruct (is_code_internal_domain (name q)) eqn:Hi; [|done]. cbn [negb].
  destruct (resolve_internal (name q) nodes 9400) as [addrs ->].
  - rewrite split_host_port_fst. by apply internal_host.
  - by rewrite orb_true_r.
Qed.

(** ** Looking the cluster up by its service record *)

Lemma show_ip_graphic s : wf_addr s -> graphic (show_ip (ip s)).
Proof.
  intros [_ Hs]. assert (Hv4 : forall a b c d, graphic (show_ipv4 a b c d)).
  { intros a b c d. apply join_graphic; [by repeat constructor|].
    repeat constructor; apply digits_graphic, show_digits, u8_range. }
  destruct (ip s) as [a b c d|segs]; unfold show_ip; [apply Hv4|]. destruct Hs as [_ Hsegs].
  assert (Hhex : forall l, (forall x, x ∈ l -> x ∈ segs) -> graphic (join (B ":") (map show_hex l))).
  { intros l Hl. apply join_graphic; [by repeat constructor|]. apply Forall_map, Forall_forall.
    intros x Hx. rewrite Forall_forall in Hsegs. apply show_hex_graphic, Hsegs, Hl, Hx. }
  assert (Hgen : graphic (let (start, len) := longest_zeros 0 0 0 0 0 segs in
    if 1 <? len then join (B ":") (map show_hex (ztake start segs)) ++ B "::"
      ++ join (B ":") (map show_hex (zdrop (start + len) segs))
    else join (B ":") (map show_hex segs))).
  { destruct (longest_zeros 0 0 0 0 0 segs) as [start len]. destruct (1 <? len).
    - rewrite !graphic_app. split_and!; [apply Hhex|by repeat constructor|apply Hhex].
      + intros x Hx. rewrite <- (ztake_zdrop start segs), elem_of_app. by left.
      + intros x Hx. rewrite <- (ztake_zdrop (start + len) segs), elem_of_app. by right.
    - by apply Hhex. }
  unfold show_ipv6. repeat case_match; try exact Hgen; apply graphic_app; split; try apply Hv4;
    by repeat constructor.
Qed.

Lemma ip_slug_props n :
  wf_addr (addr n) -> graphic (ip_slug n) /\ (dot ∉ ip_slug n) /\ zlen (ip_slug n) <= 42.
Proof.
  intros Hwf. pose proof (show_ip_graphic _ Hwf) as Hg. pose proof (zlen_show_ip _ Hwf) as Hl.
  unfold ip_slug. remember (show_ip (ip (addr n))) as s eqn:E. clear E.
  assert (Hlen : zlen (replace_byte x2e (B "-") s) = zlen s).
  { clear. induction s as [|b s IH]; [done|]. change (replace_byte x2e (B "-") (b :: s))
      with ((if Byte.eqb b x2e then B "-" else [b]) ++ replace_byte x2e (B "-") s).
    rewrite zlen_app, IH, zlen_cons. by destruct (Byte.eqb b x2e). }
  split_and!; [| |lia].
  - clear -Hg. induction s as [|b s IH]; [constructor|]. apply graphic_cons in Hg as [Hb Hg].
    change (graphic ((if Byte.eqb b x2e then B "-" else [b]) ++ replace_byte x2e (B "-") s)).
    apply graphic_app. split; [|by apply IH]. destruct (Byte.eqb b x2e); by repeat constructor.
  - clear. induction s as [|b s IH]; [apply not_elem_of_nil|].
    change (dot ∉ (if Byte.eqb b x2e then B "-" else [b]) ++ replace_byte x2e (B "-") s).
    rewrite elem_of_app. intros [H|H]; [|done].
    destruct (byte_eqb_spec b x2e) as [->|Hb].
    + change (B "-") with [x2d] in H. by apply list_elem_of_singleton in H.
    + by apply list_elem_of_singleton in H as <-.
Qed.

Lemma graphic_label l : graphic l -> l <> [] -> dot ∉ l -> zlen l <= 63 -> valid_label l.
Proof. intros. split_and!; try done. by apply utf8_valid_ascii, graphic_ascii. Qed.

Lemma internal_labels : Forall valid_label [B "code"; B "internal"].
Proof.
  repeat constructor; try done; by_decide.
Qed.

Lemma zlen_show_fuel n k z : 0 <= z < 10 ^ Z.of_nat (S k) -> zlen (show_fuel n z) <= Z.of_nat (S k).
Proof.
  revert k z. induction n as [|n IH]; intros k z Hz; simpl show_fuel; [unfold zlen; simpl; lia|].
  destruct (z <? 10) eqn:E; [unfold zlen; simpl; lia|]. destruct k as [|k]; [simpl in Hz; lia|].
  rewrite zlen_app. change (zlen [digit_char (z `mod` 10)]) with 1.
  assert (zlen (show_fuel n (z `div` 10)) <= Z.of_nat (S k)); [|lia]. apply IH.
  rewrite (Nat2Z.inj_succ (S k)), Z.pow_succ_r in Hz by lia.
  split; [apply Z.div_pos; lia|]. apply Z.div_lt_upper_bound; lia.
Qed.

Lemma zlen_show_port p : 0 <= p <= u16_max -> zlen (show p) <= 5.
Proof. intros Hp. apply (zlen_show_fuel _ 4). unfold u16_max in Hp. simpl. lia. Qed.

Lemma srv_target_valid n :
  wf_addr (addr n) -> exists ls, valid_name (target (srv_record n)) ls
    /\ zlen (encode_dns_name (target (srv_record n))) < 65530.
Proof.
  intros Hwf. destruct (ip_slug_props n Hwf) as (Hg & Hd & Hl).
  pose proof Hwf as [Hport _]. pose proof (zlen_show_port _ Hport) as Hpl.
  assert (Hps : graphic (show (port (addr n)))) by (apply digits_graphic, show_digits; lia).
  assert (Hpd : dot ∉ show (port (addr n))) by (apply show_no; [lia|done]).
  set (label := B "node-" ++ ip_slug n
    ++ (if port (addr n) =? 9400 then [] else B "-" ++ show (port (addr n)))).
  assert (Hlab : valid_label label).
  { unfold label. apply graphic_label; [..|destruct (port (addr n) =? 9400);
      rewrite ?zlen_app, ?app_nil_r; change (zlen (B "node-")) with 5; change (zlen (B "-")) with 1;
      unfold zlen in *; simpl in *; lia].
    - rewrite !graphic_app. split_and!; [by repeat constructor|done|].
      destruct (_ =? _); [constructor|]. apply graphic_app. split; [by repeat constructor|done].
    - done.
    - rewrite !elem_of_app. intros [H|[H|H]]; [|done|].
      + by apply (bool_decide_unpack (dot ∉ B "node-")) in H.
      + destruct (_ =? _); [by apply elem_of_nil in H|]. apply elem_of_app in H as [H|H]; [|done].
        by apply (bool_decide_unpack (dot ∉ B "-")) in H. }
  assert (Htarget : target (srv_record n) = join [dot] [label; B "code"; B "internal"]).
  { unfold srv_record, label. simpl target. destruct (port (addr n) =? 9400); simpl join;
      rewrite ?app_nil_r, <- ?app_assoc; done. }
  exists [label; B "code"; B "internal"].
  assert (Hv : valid_name (target (srv_record n)) [label; B "code"; B "internal"])
    by (split; [constructor; [done|apply internal_labels]|done]).
  split; [done|]. rewrite (encode_dns_name_valid _ _ Hv). destruct Hlab as (_ & _ & Hz & _).
  unfold wire_name, wire_label. cbn [map concat]. rewrite !zlen_app, !zlen_cons.
  change (zlen (B "code")) with 4. change (zlen (B "internal")) with 8. change (zlen [x00]) with 1.
  change (zlen []) with 0. lia.
Qed.

Lemma srv_record_wf n : wf_addr (addr n) -> wf_data (DataSRV (srv_record n)).
Proof.
  intros Hwf. destruct (srv_target_valid n Hwf) as (ls & Hv & Hz). destruct Hwf as [Hp _].
  unfold wf_data. split_and!; [| | |done|by exists ls].
  - unfold srv_record. simpl. unfold is_u16. destruct (flt _ _); lia.
  - unfold srv_record, clamp_weight, is_u16. simpl. lia.
  - unfold srv_record, is_u16. simpl. unfold u16_max in Hp. lia.
Qed.

(** A client that looks the cluster up by its service record finds all of it.  The query
    the client sends for the service domain is answered by the gateway, and the reply the
    client reads back holds one record per node, in address order: its port, its host name
    under the domain, the load class as priority and its free memory as weight. *)
Lemma srv_answered (nodes : list DiscoveredNode) :
  Forall (fun n => wf_addr (addr n)) nodes -> zlen nodes < 65536 ->
  exists reply, handle_dns_packet (build_query SRV_SERVICE_DOMAIN SRV) nodes = Some reply
    /\ parse_reply reply
       = Ok (map (fun n => mkAnswer SRV_SERVICE_DOMAIN 60 (DataSRV (srv_record n))) (sort_nodes nodes)).
Proof.
  intros Hwf Hcount.
  assert (Hname : valid_name SRV_SERVICE_DOMAIN [B "_prod-code"; B "_tcp"; B "code"; B "internal"]).
  { split; [|done]. constructor; [|constructor; [|apply internal_labels]];
      split_and!; try done; by_decide. }
  unfold handle_dns_packet. rewrite (parse_built_query _ _ _ Hname) by done. simpl name.
  change (is_code_internal_domain SRV_SERVICE_DOMAIN) with true.
  change (is_srv_service_domain SRV_SERVICE_DOMAIN) with true. cbn [negb orb].
  eexists. split; [done|]. unfold dns_answers. simpl name. simpl qtype. cbv iota.
  change (is_srv_service_domain SRV_SERVICE_DOMAIN) with true. cbn [orb].
  unfold generate_srv_records. rewrite map_map. eapply parse_formatted_reply; [exact Hname|..].
  - apply Forall_map, Forall_forall. intros n Hn. rewrite sort_nodes_perm in Hn.
    rewrite Forall_forall in Hwf. split_and!; [by eexists|done|by apply srv_record_wf, Hwf].
  - rewrite zlen_map. unfold zlen in *. by rewrite (Permutation_length (sort_nodes_perm nodes)).
Qed.

(** ** Examples *)

Definition example_node (last : byte) (ws : list LoadedWorkspace) : DiscoveredNode :=
  mkNode (socket_new (V4 x0a x00 x00 last) 9400) [B "rust"] 512 (lit 3 4) 8 16000 8000 0 ws None.
Definition example_nodes : list DiscoveredNode :=
  [example_node x07 []; example_node x05 [mkLoaded (B "shop") (B "rust") 1]].

Lemma example_nodes_wf : NoDup (addr <$> example_nodes) /\ Forall (fun n => wf_addr (addr n)) example_nodes.
Proof.
  split; [by_decide|].
  repeat constructor; simpl; vm_compute; done.
Qed.

Lemma resolve_project_node_stable_witness :
  example_node x05 [mkLoaded (B "shop") (B "rust") 1] ∈ example_nodes
  /\ has_workspace (trim (B "shop")) (example_node x05 [mkLoaded (B "shop") (B "rust") 1]) = true.
Proof.
  destruct (resolve_project_node_stable (B "shop") example_nodes
    (example_node x05 [mkLoaded (B "shop") (B "rust") 1])) as (H1 & H2 & _).
  - vm_compute. reflexivity.
  - split; [exact H1|]. apply H2. vm_compute. reflexivity.
Defined.

Lemma resolve_smart_domain_correct_witness :
  resolve_smart_domain (B "shop.code.internal") (reverse example_nodes) 9400
  = resolve_smart_domain (B "shop.code.internal") example_nodes 9400.
Proof.
  apply (resolve_smart_domain_correct (B "shop.code.internal") example_nodes 9400).
  - apply example_nodes_wf.
  - apply example_nodes_wf.
  - symmetry. apply reverse_Permutation.
Defined.
