(* ===== verification/Admission.v ===== *)
(** * Memory-aware admission of engines (crates/prod-code-gateway/src/admission)

    A new engine reserves the memory it is assumed to need before it loads, against the host's
    figures and what earlier loads still hold, and returns it when its load has settled.  Each
    operation takes the ledger's lock once, so a run of the gateway is a sequence of steps; the
    host's memory is read inside the step and is an input of it. *)

From Stdlib Require Import Strings.Byte.
From S2P Require Import Prelude RustStr F64 Status.

Definition MIB : Z := 2 ^ 20.
Definition GIB : Z := 2 ^ 30.
Definition u128_max : Z := 2 ^ 128 - 1.

Definition LOAD_SETTLE : Z := 120 * 1000000000.

Definition default_reserve (engine : bytes) : Z :=
  if bool_decide (engine = B "rust") then 4 * GIB
  else if bool_decide (engine ∈ [B "cpp"; B "swift"; B "typescript"; B "go"; B "python"]) then GIB
  else 256 * MIB.

(** ** Saturating arithmetic *)

Definition sat_add (max a b : Z) : Z := Z.min max (a + b).
Definition sat_sub (a b : Z) : Z := Z.max 0 (a - b).
Definition sat_mul (max a b : Z) : Z := Z.min max (a * b).

(** ** The ledger *)

Record Ledger := mkLedger { reserved : Z; loads : Z }.
Definition empty_ledger : Ledger := mkLedger 0 0.

(** [u64::try_from(self.reserved).unwrap_or(u64::MAX)]. *)
Definition ledger_reserved_bytes (l : Ledger) : Z := Z.min u64_max (reserved l).

Record Shortfall := mkShortfall {
  engine : bytes;
  available : Z;
  total : Z;
  sf_reserved : Z;
  sf_loads : Z;
  needed : Z
}.

Definition limit_bytes (t : Z) : Z := to_uint u64_max (fround (fmul (of_Z t) MEMORY_PRESSURE_USED)).

Definition excess (s : Shortfall) : Z :=
  let committed :=
    sat_add u64_max (sat_add u64_max (sat_sub (total s) (available s)) (sf_reserved s)) (needed s) in
  sat_sub committed (limit_bytes (total s)).

(** ** Admission *)

(** [Admission] apart from its probe, whose readings are inputs. *)
Record Admission := mkAdmission {
  reserve_override : option Z;
  settle : Z;
  ledger : Ledger
}.

Definition with_probe (reserve_mib : Z) (settle : Z) : Admission :=
  mkAdmission (if 0 <? reserve_mib then Some (sat_mul u64_max reserve_mib MIB) else None)
    settle empty_ledger.

Definition host_admission (reserve_mib : Z) : Admission := with_probe reserve_mib LOAD_SETTLE.
Definition unbounded : Admission := with_probe 0 0.

Definition reserve_for (a : Admission) (eng : bytes) : Z :=
  default (default_reserve eng) (reserve_override a).

Definition reserved_bytes (a : Admission) : Z := ledger_reserved_bytes (ledger a).

Definition set_ledger (a : Admission) (l : Ledger) : Admission :=
  mkAdmission (reserve_override a) (settle a) l.

(** [try_reserve] with the probe's reading, [(available, total)]: the bytes reserved. *)
Definition try_reserve (a : Admission) (reading : option (Z * Z)) (eng : bytes)
    : Admission * result Z Shortfall :=
  let need := reserve_for a eng in
  let granted :=
    (set_ledger a (mkLedger (sat_add u128_max (reserved (ledger a)) need) (loads (ledger a) + 1)),
     Ok need) in
  match reading with
  | Some (avail, tot) =>
      if 0 <? tot then
        let shortfall := mkShortfall eng (Z.min avail tot) tot (ledger_reserved_bytes (ledger a))
                           (loads (ledger a)) need in
        if 0 <? excess shortfall then (a, Err shortfall) else granted
      else granted
  | None => granted
  end.

(** [Drop for Reservation]. *)
Definition drop_reservation (a : Admission) (bytes_held : Z) : Admission :=
  set_ledger a (mkLedger (sat_sub (reserved (ledger a)) bytes_held) (sat_sub (loads (ledger a)) 1)).

(** [release_after_settling]: [true] when the reservation is dropped at once, [false] when a
    timer will drop it. *)
Definition release_after_settling (a : Admission) : bool := settle a =? 0.

(** ** Refusals *)

Record CapacityRefused := mkRefused { shortfall : Shortfall; reclaimed : Z }.

Definition gib (b : Z) : bytes := fmt_fixed 1 (fdiv (of_Z b) (of_Z GIB)).

Definition fmt_refused (r : CapacityRefused) : bytes :=
  let s := shortfall r in
  let used := sat_sub (total s) (available s) in
  B "capacity: this node has no memory for a new " ++ engine s ++ B " engine (memory "
  ++ show (sat_mul u64_max used 100 `div` Z.max (total s) 1) ++ B "% used, " ++ gib (sf_reserved s)
  ++ B " GiB held for " ++ show (sf_loads s) ++ B " load(s) in flight, a new engine counts "
  ++ gib (needed s) ++ B " GiB, the limit is "
  ++ show (to_uint u32_max (fround (fmul MEMORY_PRESSURE_USED (of_Z 100)))) ++ B "% of "
  ++ gib (total s) ++ B " GiB"
  ++ (if 0 <? reclaimed r
      then B "; " ++ show (reclaimed r) ++ B " idle engine(s) were unloaded" else [])
  ++ B "). Engines already loaded here keep answering. Retry in a few minutes, once loads "
  ++ B "in flight settle or idle engines are unloaded, or place this workspace on another "
  ++ B "node (`prod-code cluster` shows which have room).".

(** ** Runs *)

(** The admission with the reservations that are held, each as its bytes. *)
Record System := mkSystem { adm : Admission; held : list Z }.

Section Runs.
  (** The memory readings the probe may give. *)
  Variable readings : option (Z * Z) -> Prop.

(** One step: an engine asks and is admitted or refused, or a reservation held is dropped, by
    its owner, by its timer, or at once when there is no settle time.  A held reservation is a
    value in the gateway's memory, so there are never as many as a [usize] counts. *)
Inductive step : System -> System -> Prop :=
| step_admit s reading eng a need :
    readings reading -> try_reserve (adm s) reading eng = (a, Ok need) -> zlen (held s) < u64_max ->
    step s (mkSystem a (need :: held s))
| step_refuse s reading eng a sf :
    readings reading -> try_reserve (adm s) reading eng = (a, Err sf) -> step s (mkSystem a (held s))
| step_drop s pre b post :
    held s = pre ++ b :: post -> step s (mkSystem (drop_reservation (adm s) b) (pre ++ post)).

Inductive reachable (reserve_mib d : Z) : System -> Prop :=
| reach_start : reachable reserve_mib d (mkSystem (with_probe reserve_mib d) [])
| reach_step s s' : reachable reserve_mib d s -> step s s' -> reachable reserve_mib d s'.

End Runs.

Definition zsum (l : list Z) : Z := foldr Z.add 0 l.

(** ** Lemmas *)

Lemma sum_app l k : zsum (l ++ k) = zsum l + zsum k.
Proof. induction l as [|x l IH]; simpl; [done|]. rewrite IH. lia. Qed.

Lemma sum_nonneg l : Forall (fun x => 0 <= x) l -> 0 <= zsum l.
Proof. induction 1; simpl; lia. Qed.

Lemma default_reserve_range e : 0 <= default_reserve e <= u64_max.
Proof. unfold default_reserve. repeat case_match; vm_compute; split; discriminate. Qed.

(** What a reservation may be under a configuration. *)
Definition wf_admission (a : Admission) : Prop :=
  forall r, reserve_override a = Some r -> 0 <= r <= u64_max.

Lemma with_probe_wf mib d : 0 <= mib -> wf_admission (with_probe mib d).
Proof.
  intros Hm r. unfold with_probe, sat_mul. simpl. destruct (0 <? mib); [|done].
  intros [= <-]. unfold MIB. split; [|lia]. apply Z.min_glb; [vm_compute; discriminate|lia].
Qed.

Lemma reserve_for_range a e : wf_admission a -> 0 <= reserve_for a e <= u64_max.
Proof.
  intros Hw. unfold reserve_for. destruct (reserve_override a) as [r|] eqn:E; simpl; [by apply Hw|].
  apply default_reserve_range.
Qed.

Lemma try_reserve_cases a reading e a' r :
  try_reserve a reading e = (a', r) ->
  match r with
  | Err sf => a' = a /\ 0 < excess sf
  | Ok need =>
      need = reserve_for a e
      /\ a' = set_ledger a (mkLedger (sat_add u128_max (reserved (ledger a)) need) (loads (ledger a) + 1))
      /\ (forall avail tot, reading = Some (avail, tot) -> 0 < tot ->
            excess (mkShortfall e (Z.min avail tot) tot (ledger_reserved_bytes (ledger a))
                      (loads (ledger a)) need) = 0)
  end.
Proof.
  unfold try_reserve. intros H. destruct reading as [[avail tot]|].
  - destruct (0 <? tot) eqn:Et.
    + destruct (0 <? excess _) eqn:Ee; simplify_eq; [split; [done|lia]|].
      split_and!; [done..|]. intros ?? [= <- <-] _. apply Z.ltb_ge in Ee.
      assert (0 <= excess (mkShortfall e (Z.min avail tot) tot (ledger_reserved_bytes (ledger a))
        (loads (ledger a)) (reserve_for a e))) by (unfold excess, sat_sub; lia). lia.
    + simplify_eq. split_and!; [done..|]. intros ?? [= <- <-] ?. lia.
  - by simplify_eq.
Qed.

(** The ledger says what is held, as long as the sum fits its width. *)
Definition books_balance (s : System) : Prop :=
  reserved (ledger (adm s)) = zsum (held s) /\ loads (ledger (adm s)) = zlen (held s)
  /\ Forall (fun x => 0 <= x <= u64_max) (held s).

Lemma sum_bound l : Forall (fun x => 0 <= x <= u64_max) l -> 0 <= zsum l <= zlen l * u64_max.
Proof. induction 1; simpl; [done|]. rewrite zlen_cons. lia. Qed.

Lemma balance_admit s need :
  books_balance s -> 0 <= need <= u64_max -> zlen (held s) < u64_max ->
  books_balance (mkSystem
    (set_ledger (adm s)
      (mkLedger (sat_add u128_max (reserved (ledger (adm s))) need) (loads (ledger (adm s)) + 1)))
    (need :: held s)).
Proof.
  intros (Hres & Hl & Hall) Hn Hlen. pose proof (sum_bound _ Hall) as Hsum.
  pose proof (zlen_nonneg (held s)).
  split_and!; simpl; [|rewrite zlen_cons; lia|by constructor].
  rewrite Hres. unfold sat_add. rewrite Z.min_r; [lia|]. unfold u128_max, u64_max in *. nia.
Qed.

Lemma balance_drop s pre b post :
  books_balance s -> held s = pre ++ b :: post ->
  books_balance (mkSystem (drop_reservation (adm s) b) (pre ++ post)).
Proof.
  intros (Hres & Hl & Hall) H. rewrite H in Hres, Hl, Hall.
  rewrite zlen_app, zlen_cons in Hl. rewrite sum_app in Hres. simpl in Hres.
  apply Forall_app in Hall as [Hp Hq]. apply List.Forall_cons_iff in Hq as [Hb' Hq].
  pose proof (sum_bound _ Hp). pose proof (sum_bound _ Hq).
  pose proof (zlen_nonneg pre). pose proof (zlen_nonneg post).
  split_and!; simpl; [| |by apply Forall_app].
  - rewrite Hres, sum_app. unfold sat_sub. lia.
  - rewrite Hl, zlen_app. unfold sat_sub. lia.
Qed.

(** What every run keeps: the configuration, and the ledger's balance. *)
Definition run_invariant (mib d : Z) (s : System) : Prop :=
  reserve_override (adm s) = reserve_override (with_probe mib d)
  /\ settle (adm s) = d /\ books_balance s.

Lemma invariant_wf mib d s : 0 <= mib -> run_invariant mib d s -> wf_admission (adm s).
Proof. intros Hm (Ho & _) r. rewrite Ho. by apply (with_probe_wf mib d). Qed.

Lemma reachable_invariant R mib d s :
  0 <= mib -> reachable R mib d s -> run_invariant mib d s.
Proof.
  intros Hm. induction 1 as [|s s' Hr IH Hs]; [by split_and!; repeat constructor|].
  pose proof (invariant_wf _ _ _ Hm IH) as Hwf. destruct IH as (Ho & Hd & Hb).
  destruct Hs as [s reading e a need HR H Hlen|s reading e a sf HR H|s pre b post H].
  - apply try_reserve_cases in H as (-> & -> & _). split_and!; [done..|].
    apply balance_admit; [done|by apply reserve_for_range|done].
  - apply try_reserve_cases in H as (-> & _). done.
  - split_and!; [done..|by apply balance_drop].
Qed.

(** What the host has used and is committed to with the reservations [l] held, as the code's
    saturating sums count it. *)
Definition committed (avail tot : Z) (l : list Z) : Z :=
  Z.min u64_max (tot - Z.min avail tot + zsum l).

Lemma excess_committed s e avail tot need :
  books_balance s -> 0 <= avail -> tot <= u64_max -> 0 <= need ->
  excess (mkShortfall e (Z.min avail tot) tot (ledger_reserved_bytes (ledger (adm s)))
            (loads (ledger (adm s))) need)
  = sat_sub (committed avail tot (need :: held s)) (limit_bytes tot).
Proof.
  intros (Hres & _ & Hall) Ha Ht Hn. unfold excess, committed, ledger_reserved_bytes. rewrite Hres.
  cbn [zsum foldr total available sf_reserved needed]. fold (zsum (held s)).
  pose proof (sum_bound _ Hall). f_equal. unfold sat_add, sat_sub. lia.
Qed.

Lemma try_reserve_spec s e avail tot :
  books_balance s -> wf_admission (adm s) -> 0 <= avail -> 0 < tot <= u64_max ->
  let need := reserve_for (adm s) e in
  if committed avail tot (need :: held s) <=? limit_bytes tot
  then exists a, try_reserve (adm s) (Some (avail, tot)) e = (a, Ok need)
  else try_reserve (adm s) (Some (avail, tot)) e
       = (adm s, Err (mkShortfall e (Z.min avail tot) tot (Z.min u64_max (zsum (held s)))
                        (zlen (held s)) need)).
Proof.
  intros Hb Hwf Ha Ht need. pose proof (reserve_for_range (adm s) e Hwf) as Hn.
  pose proof (excess_committed s e avail tot need Hb Ha ltac:(lia) ltac:(lia)) as Hex.
  unfold try_reserve. rewrite (proj2 (Z.ltb_lt 0 tot)) by lia. fold need. rewrite Hex.
  destruct Hb as (Hres & Hl & _). unfold sat_sub, ledger_reserved_bytes.
  destruct (_ <=? _) eqn:E; [apply Z.leb_le in E|apply Z.leb_gt in E].
  - rewrite (proj2 (Z.ltb_ge _ _)) by lia. by eexists.
  - rewrite (proj2 (Z.ltb_lt _ _)) by lia. by rewrite Hres, Hl.
Qed.

(** ** Theorems *)

(** However engines are admitted and refused and reservations returned, the ledger's two
    counters are exactly the sum and the number of the reservations held, so once every
    reservation is returned nothing stays reserved. *)
Theorem ledger_matches_held R mib d s :
  0 <= mib -> reachable R mib d s ->
  reserved (ledger (adm s)) = zsum (held s) /\ loads (ledger (adm s)) = zlen (held s)
  /\ reserved_bytes (adm s) = Z.min u64_max (zsum (held s))
  /\ (held s = [] -> ledger (adm s) = empty_ledger).
Proof.
  intros Hm Hr. destruct (reachable_invariant _ _ _ _ Hm Hr) as (_ & _ & Hres & Hl & _).
  split_and!; [done..| |].
  - unfold reserved_bytes, ledger_reserved_bytes. by rewrite Hres.
  - intros Hh. rewrite Hh in Hres, Hl. destruct (ledger (adm s)). simpl in *. by subst.
Qed.

(** In every reachable state, on a host whose memory is readable, an engine is admitted
    exactly when the memory in use, all that is held and what it needs stay within the limit; a
    refusal leaves the ledger as it was and reports what is held. *)
Theorem admission_exact R mib d s e avail tot :
  0 <= mib -> reachable R mib d s -> 0 <= avail -> 0 < tot <= u64_max ->
  let need := reserve_for (adm s) e in
  if committed avail tot (need :: held s) <=? limit_bytes tot
  then exists a, try_reserve (adm s) (Some (avail, tot)) e = (a, Ok need)
  else try_reserve (adm s) (Some (avail, tot)) e
       = (adm s, Err (mkShortfall e (Z.min avail tot) tot (Z.min u64_max (zsum (held s)))
                        (zlen (held s)) need)).
Proof.
  intros Hm Hr Ha Ht. pose proof (reachable_invariant _ _ _ _ Hm Hr) as Hi.
  apply try_reserve_spec; [apply Hi|by apply (invariant_wf mib d)|done|done].
Qed.

(** C6: while the host's figures stay the same, no interleaving of admissions and returns
    commits the host past its limit: what is used and all that is held, together, stay within
    it as long as anything is held. *)
Theorem never_overcommits mib d avail tot s :
  0 <= mib -> 0 <= avail -> 0 < tot <= u64_max ->
  reachable (fun r => r = Some (avail, tot)) mib d s ->
  held s = [] \/ committed avail tot (held s) <= limit_bytes tot.
Proof.
  intros Hm Ha Ht. induction 1 as [|s s' Hr IH Hs]; [by left|].
  pose proof (reachable_invariant _ _ _ _ Hm Hr) as Hi.
  pose proof (invariant_wf _ _ _ Hm Hi) as Hwf. destruct Hi as (_ & _ & Hb).
  destruct Hs as [s reading e a need -> H Hlen|s reading e a sf -> H|s pre b post H].
  - right. pose proof (try_reserve_spec s e avail tot Hb Hwf Ha Ht) as Hsp. cbv zeta in Hsp.
    destruct (_ <=? _) eqn:E; [|rewrite Hsp in H; discriminate].
    destruct Hsp as [a' Hsp]. apply Z.leb_le in E.
    rewrite Hsp in H. by simplify_eq.
  - done.
  - destruct IH as [IH|IH]; [rewrite IH in H; by destruct pre|]. right. simpl.
    destruct Hb as (_ & _ & Hall). rewrite H in IH, Hall. apply Forall_app in Hall as [_ Hq].
    apply List.Forall_cons_iff in Hq as [Hq _].
    unfold committed in *. rewrite sum_app in *. simpl in IH. lia.
Qed.

(** ** Witnesses: a host of 100 GiB with 20 free, 2 GiB for each engine *)

Definition host_reading : option (Z * Z) := Some (20 * GIB, 100 * GIB).
Definition one_held : System :=
  mkSystem (set_ledger (with_probe 2048 LOAD_SETTLE) (mkLedger (2 * GIB) 1)) [2 * GIB].
Definition two_held : System :=
  mkSystem (set_ledger (with_probe 2048 LOAD_SETTLE) (mkLedger (4 * GIB) 2)) [2 * GIB; 2 * GIB].

Lemma two_held_reachable :
  reachable (fun r => r = Some (20 * GIB, 100 * GIB)) 2048 LOAD_SETTLE two_held.
Proof.
  apply (reach_step _ _ _ one_held);
    [apply (reach_step _ _ _ (mkSystem (with_probe 2048 LOAD_SETTLE) [])); [constructor|]|].
  - apply (step_admit _ (mkSystem (with_probe 2048 LOAD_SETTLE) []) host_reading (B "rust") (adm one_held)
      (2 * GIB)); [done|by vm_compute|by vm_compute].
  - apply (step_admit _ one_held host_reading (B "go") (adm two_held) (2 * GIB)); [done|by vm_compute|by vm_compute].
Qed.

Lemma ledger_matches_held_witness : reserved_bytes (adm two_held) = 4 * GIB.
Proof.
  destruct (ledger_matches_held _ 2048 LOAD_SETTLE two_held ltac:(lia) two_held_reachable)
    as (_ & _ & -> & _).
  by vm_compute.
Defined.

(** The third engine is refused: 80 + 4 + 2 GiB pass the limit of 85. *)
Lemma admission_exact_witness :
  try_reserve (adm two_held) host_reading (B "rust")
  = (adm two_held, Err (mkShortfall (B "rust") (20 * GIB) (100 * GIB) (4 * GIB) 2 (2 * GIB))).
Proof.
  apply (admission_exact _ 2048 LOAD_SETTLE two_held (B "rust") (20 * GIB) (100 * GIB) ltac:(lia)
    two_held_reachable); by vm_compute.
Defined.

Lemma never_overcommits_witness :
  committed (20 * GIB) (100 * GIB) (held two_held) <= limit_bytes (100 * GIB).
Proof.
  destruct (never_overcommits 2048 LOAD_SETTLE (20 * GIB) (100 * GIB) two_held ltac:(lia)
    ltac:(by vm_compute) ltac:(by vm_compute) two_held_reachable) as [H|H]; [discriminate H|exact H].
Defined.
