(* ===== verification/Placement.v ===== *)
(** * Placement of workspaces on the cluster's nodes
    (crates/prod-code-gateway/src/state/placement.rs, with the messages of
    crates/prod-code-protocol/src/messages/cluster.rs)

    The cluster's view, the capability and pressure filters, the choice of the quietest node and
    the rules by which a workspace leaves the node that holds it. *)

From Stdlib Require Import Strings.Byte Floats.SpecFloat.
From S2P Require Import Prelude RustStr F64 Status.

(** ** Messages *)

Record LoadedWorkspaceInfo := mkLoaded { name : bytes; ws_engine : bytes; sessions : Z }.

Record PeerInfo := mkPeer {
  addr : bytes;
  status : StatusResponse;
  workspaces : list LoadedWorkspaceInfo;
  last_seen_secs : Z;
  alive : bool
}.

Record ClusterResponse := mkCluster { this_node : bytes; nodes : list PeerInfo }.

Record PlaceRequest := mkPlace {
  workspace_name : bytes;
  engine : option bytes;
  os : option bytes;
  rebalance_active : bool
}.

Record PlaceResponse := mkPlaced { node : option bytes; reason : bytes; notified_sessions : Z }.

(** ** Capability *)

Definition cluster_supports_engine (s : StatusResponse) (eng : bytes) : bool :=
  existsb (fun e =>
    bool_decide (e = eng)
    || match strip_prefix eng e with Some rest => starts_with (B " ") rest | None => false end)
    (detected_engines s).

Definition platform_starts (p : bytes) (n : PeerInfo) : bool :=
  match platform (status n) with Some pl => starts_with p pl | None => false end.

Definition runs_os (req : PlaceRequest) (n : PeerInfo) : bool :=
  match os req with Some o => platform_starts o n | None => true end.

(** The first [capable], later named [serves]. *)
Definition serves (req : PlaceRequest) (n : PeerInfo) : bool :=
  runs_os req n
  && match engine req with
     | Some e => cluster_supports_engine (status n) e
     | None => 1 <? zlen (detected_engines (status n))
     end.

Definition on_macos (n : PeerInfo) : bool := platform_starts (B "macos") n.

Definition other_than_macos (req : PlaceRequest) (view : ClusterResponse) : bool :=
  match os req with Some _ => false | None => true end
  && existsb (fun n => alive n && serves req n && negb (on_macos n)) (nodes view).

Definition capable (req : PlaceRequest) (view : ClusterResponse) (n : PeerInfo) : bool :=
  serves req n && negb (other_than_macos req view && on_macos n).

Definition node_pressure (n : PeerInfo) : option bytes := pressure (host (status n)).
Definition is_short (n : PeerInfo) : bool :=
  match node_pressure n with Some _ => true | None => false end.

Definition roomy_exists (req : PlaceRequest) (view : ClusterResponse) : bool :=
  existsb (fun n => alive n && capable req view n && negb (is_short n)) (nodes view).

Definition takes_new (req : PlaceRequest) (view : ClusterResponse) (n : PeerInfo) : bool :=
  negb (roomy_exists req view && is_short n).

Definition score (n : PeerInfo) : f64 := congestion_score (status n).

(** ** The quietest candidate *)

(** [Iterator::min_by] with [partial_cmp(..).unwrap_or(Equal)]: the first of the least, where a
    NaN compares equal to everything. *)
Definition min_step (x y : PeerInfo) : PeerInfo := if fgt (score x) (score y) then y else x.

Definition min_by_score (l : list PeerInfo) : option PeerInfo :=
  match l with [] => None | x :: r => Some (foldl min_step x r) end.

Definition candidate (req : PlaceRequest) (view : ClusterResponse) (n : PeerInfo) : bool :=
  alive n && capable req view n && takes_new req view n.

Definition quietest (req : PlaceRequest) (view : ClusterResponse) : option PeerInfo :=
  min_by_score (List.filter (candidate req view) (nodes view)).

(** ** The holder *)

Definition holds (req : PlaceRequest) (n : PeerInfo) : bool :=
  existsb (fun w => bool_decide (name w = workspace_name req)) (workspaces n).

Definition holder (req : PlaceRequest) (view : ClusterResponse) : option PeerInfo :=
  List.find (fun n => alive n && serves req n && holds req n) (nodes view).

(** [(idle, sessions)] of the workspace on its holder. *)
Definition holder_load (req : PlaceRequest) (h : PeerInfo) : bool * Z :=
  match List.find (fun w => bool_decide (name w = workspace_name req)) (workspaces h) with
  | Some w => (sessions w =? 0, sessions w)
  | None => (true, 0)
  end.

(** [score(q) < score(h) * 0.50 && (score(h) - score(q)) >= 0.40]. *)
Definition much_quieter (h q : PeerInfo) : bool :=
  flt (score q) (fmul (score h) (lit 50 100)) && fle (lit 40 100) (fsub (score h) (score q)).

Definition congested (h : PeerInfo) : bool := fle (lit 80 100) (score h).

Definition can_move (req : PlaceRequest) (view : ClusterResponse) (h : PeerInfo)
    (q : option PeerInfo) : bool :=
  fst (holder_load req h) || rebalance_active req
  || (is_short h && roomy_exists req view)
  || (congested h && match q with Some q => much_quieter h q | None => false end).

(** ** Reasons *)

Definition load_text (n : PeerInfo) : bytes :=
  fmt_fixed 2 (default fzero (load_per_cpu (status n))).
Definition score_text (n : PeerInfo) : bytes := fmt_fixed 2 (score n).

Definition state_str (load : bool * Z) : bytes :=
  if fst load then B "idle" else B "active, " ++ show (snd load) ++ B " sessions".

Definition short_reason (h q : PeerInfo) (why st : bytes) : bytes :=
  B "moved from " ++ addr h ++ B " (" ++ why ++ B ", " ++ st ++ B ") to " ++ addr q ++ B " (score "
  ++ score_text q ++ B ", load " ++ load_text q ++ B "/cpu)".

Definition macos_reason (h q : PeerInfo) (st : bytes) : bytes :=
  B "moved from the macOS node " ++ addr h ++ B " (" ++ st ++ B ") to " ++ addr q
  ++ B ", which serves it without macOS".

Definition rebalance_reason (h q : PeerInfo) (st : bytes) : bytes :=
  B "rebalanced from " ++ addr h ++ B " (score " ++ score_text h ++ B ", " ++ st
  ++ B ") to the quieter " ++ addr q ++ B " (score " ++ score_text q ++ B ")".

Definition passed_over (req : PlaceRequest) (view : ClusterResponse) : list bytes :=
  omap (fun n => (fun why => addr n ++ B " (" ++ why ++ B ")") <$> node_pressure n)
    (List.filter (fun n => alive n && capable req view n && negb (takes_new req view n)) (nodes view)).

Definition quietest_reason (req : PlaceRequest) (view : ClusterResponse) (q : PeerInfo) : bytes :=
  B "quietest node serving " ++ default (B "any engine") (engine req) ++ B " (score "
  ++ score_text q ++ B ", load " ++ load_text q ++ B "/cpu)"
  ++ match passed_over req view with
     | [] => []
     | over => B "; passed over " ++ join (B ", ") over
     end
  ++ match node_pressure q with
     | Some why => B "; it is short too (" ++ why ++ B "), as is every node serving it"
     | None => []
     end.

Definition no_node_reason (req : PlaceRequest) : bytes :=
  let serving := default (B "this workspace") (engine req) in
  match os req with
  | Some o => B "no live node runs " ++ o ++ B " and serves " ++ serving
  | None => B "no live node serves " ++ serving
  end.

(** ** Placement *)

(** The move away from the holder [h], when one of its three rules applies. *)
Definition move (req : PlaceRequest) (view : ClusterResponse) (h : PeerInfo) : option PlaceResponse :=
  let q := quietest req view in
  let load := holder_load req h in
  match q with
  | Some q' =>
      if can_move req view h q && negb (bool_decide (addr q' = addr h)) then
        match node_pressure h, roomy_exists req view with
        | Some why, true =>
            Some (mkPlaced (Some (addr q')) (short_reason h q' why (state_str load)) 0)
        | _, _ =>
            if negb (capable req view h) then
              Some (mkPlaced (Some (addr q')) (macos_reason h q' (state_str load)) 0)
            else if congested h && much_quieter h q' then
              Some (mkPlaced (Some (addr q')) (rebalance_reason h q' (state_str load)) 0)
            else None
        end
      else None
  | None => None
  end.

Definition place_in (req : PlaceRequest) (view : ClusterResponse) : PlaceResponse :=
  match holder req view with
  | Some h =>
      match move req view h with
      | Some resp => resp
      | None => mkPlaced (Some (addr h)) (B "already loaded on " ++ addr h) 0
      end
  | None =>
      match quietest req view with
      | Some q => mkPlaced (Some (addr q)) (quietest_reason req view q) 0
      | None => mkPlaced None (no_node_reason req) 0
      end
  end.

(** [preview_place]: the destination of an active rebalance. *)
Definition preview_place (req : PlaceRequest) (view : ClusterResponse) : PlaceResponse :=
  place_in (mkPlace (workspace_name req) (engine req) (os req) true) view.

(** ** The least of a list of scores *)

(** The position of a number on the line, to compare lexicographically. *)
Definition rank (x : f64) : option (Z * Z * Z) :=
  match x with
  | S754_nan => None
  | S754_infinity true => Some (-2, 0, 0)
  | S754_finite true m e => Some (-1, - e, - Zpos m)
  | S754_zero _ => Some (0, 0, 0)
  | S754_finite false m e => Some (1, e, Zpos m)
  | S754_infinity false => Some (2, 0, 0)
  end.

Definition rank_compare (a b : Z * Z * Z) : comparison :=
  match a.1.1 ?= b.1.1 with
  | Eq => match a.1.2 ?= b.1.2 with Eq => a.2 ?= b.2 | c => c end
  | c => c
  end.

Lemma compare_rank x y :
  SFcompare x y
  = match rank x, rank y with Some a, Some b => Some (rank_compare a b) | _, _ => None end.
Proof.
  unfold SFcompare.
  destruct x as [[]|[]| |[] mx e1], y as [[]|[]| |[] my e2]; try reflexivity;
    unfold rank, rank_compare; cbn [fst snd Z.compare].
  rewrite Z.compare_opp, (Z.compare_antisym e1 e2). by destruct (e1 ?= e2).
Qed.

Lemma rank_compare_Lt a b :
  rank_compare a b = Lt
  <-> a.1.1 < b.1.1 \/ (a.1.1 = b.1.1 /\ (a.1.2 < b.1.2 \/ (a.1.2 = b.1.2 /\ a.2 < b.2))).
Proof.
  unfold rank_compare.
  destruct (Z.compare_spec a.1.1 b.1.1); [|split; [by left|done]|split; [done|lia]].
  destruct (Z.compare_spec a.1.2 b.1.2); [|split; [lia|done]|split; [done|lia]].
  rewrite Z.compare_lt_iff. lia.
Qed.

Lemma flt_rank x y :
  flt x y = true <-> exists a b, rank x = Some a /\ rank y = Some b /\ rank_compare a b = Lt.
Proof.
  unfold flt, SFltb. rewrite compare_rank. destruct (rank x) as [a|], (rank y) as [b|];
    [|naive_solver..].
  destruct (rank_compare a b) eqn:E; split; try done.
  1,3: intros (? & ? & ? & ? & ?); congruence.
  intros _. by eexists _, _.
Qed.

Lemma rank_None x : rank x = None <-> x = S754_nan.
Proof. by destruct x as [[]|[]| |[]]. Qed.

Lemma flt_trans x y z : flt x y = true -> flt y z = true -> flt x z = true.
Proof.
  rewrite !flt_rank. intros (a & b & Ha & Hb & H1) (b' & c & Hb' & Hc & H2). simplify_eq.
  exists a, c. split_and!; [done..|]. rewrite rank_compare_Lt in *. lia.
Qed.

Lemma flt_cotrans x y z : y <> S754_nan -> flt x z = true -> flt x y = true \/ flt y z = true.
Proof.
  rewrite <- rank_None, !flt_rank. intros Hy (a & c & Ha & Hc & H1).
  destruct (rank y) as [b|] eqn:Eb; [|done]. rewrite rank_compare_Lt in H1.
  destruct (rank_compare a b) eqn:E; [|left; by eexists _, _|]; right; eexists _, _;
    (split_and!; [done..|]); rewrite rank_compare_Lt.
  - unfold rank_compare in E.
    destruct (Z.compare_spec a.1.1 b.1.1), (Z.compare_spec a.1.2 b.1.2); try done.
    apply Z.compare_eq_iff in E. lia.
  - unfold rank_compare in E.
    destruct (Z.compare_spec a.1.1 b.1.1), (Z.compare_spec a.1.2 b.1.2); try done; try lia.
    apply Z.compare_gt_iff in E. lia.
Qed.

(** [m] is the first of the least of [l]. *)
Definition first_least (l : list PeerInfo) (m : PeerInfo) : Prop :=
  exists pre post, l = pre ++ m :: post
    /\ Forall (fun n => flt (score m) (score n) = true) pre
    /\ Forall (fun n => flt (score n) (score m) = false) post.

Lemma min_fold_least r x :
  Forall (fun n => score n <> S754_nan) (x :: r) -> first_least (x :: r) (foldl min_step x r).
Proof.
  revert x. induction r as [|y r IH]; intros x Hn.
  - exists [], []. by split_and!.
  - apply List.Forall_cons_iff in Hn as [Hx [Hy Hr]%List.Forall_cons_iff]. simpl foldl.
    unfold min_step at 2. unfold fgt. fold (flt (score y) (score x)).
    destruct (flt (score y) (score x)) eqn:E.
    + destruct (IH y) as (pre & post & Heq & Hpre & Hpost); [by constructor|].
      exists (x :: pre), post. rewrite Heq. split_and!; [done| |done]. constructor; [|done].
      destruct pre as [|p pre]; simpl in Heq; injection Heq as Hh _; [by rewrite <- Hh|].
      subst p. apply List.Forall_cons_iff in Hpre as [Hp _]. by apply (flt_trans _ (score y)).
    + destruct (IH x) as (pre & post & Heq & Hpre & Hpost); [by constructor|].
      destruct pre as [|p pre]; simpl in Heq; injection Heq as Hh Ht.
      * subst post. exists [], (y :: r). rewrite <- Hh in Hpost |- *.
        split_and!; [done|constructor|by constructor].
      * subst p. exists (x :: y :: pre), post. split_and!; [simpl; by do 2 f_equal| |done].
        apply List.Forall_cons_iff in Hpre as [Hp Hpre]. repeat constructor; try done.
        destruct (flt_cotrans _ (score y) _ Hy Hp) as [|]; congruence.
Qed.

Lemma quietest_first_least req view q :
  Forall (fun n => score n <> S754_nan) (nodes view) -> quietest req view = Some q ->
  first_least (List.filter (candidate req view) (nodes view)) q.
Proof.
  unfold quietest, min_by_score. intros Hn Hq. destruct (List.filter _ _) as [|x r] eqn:Ef; [done|].
  injection Hq as <-. apply min_fold_least. rewrite <- Ef. apply Forall_forall. intros n Hin.
  rewrite Forall_forall in Hn. apply Hn. apply list_elem_of_In in Hin. apply filter_In in Hin.
  apply list_elem_of_In. tauto.
Qed.

Lemma min_fold_in r x : foldl min_step x r ∈ x :: r.
Proof.
  revert x. induction r as [|y r IH]; intros x; [by left|]. simpl. specialize (IH (min_step x y)).
  rewrite elem_of_cons in IH |- *. destruct IH as [->|IH]; [|by do 2 right].
  assert (Hm : min_step x y = x \/ min_step x y = y) by (unfold min_step; destruct (fgt _ _); auto).
  destruct Hm as [->| ->]; [by left|right; by left].
Qed.

Lemma quietest_in req view q :
  quietest req view = Some q -> q ∈ nodes view /\ candidate req view q = true.
Proof.
  unfold quietest, min_by_score. intros Hq. destruct (List.filter _ _) as [|x r] eqn:Ef; [done|].
  injection Hq as <-. pose proof (min_fold_in r x) as Hin. rewrite <- Ef in Hin.
  apply list_elem_of_In, filter_In in Hin. by rewrite list_elem_of_In.
Qed.

Lemma quietest_None req view :
  quietest req view = None <-> forall n, n ∈ nodes view -> candidate req view n = false.
Proof.
  unfold quietest, min_by_score. split.
  - destruct (List.filter _ _) as [|x r] eqn:Ef; [intros _|done]. intros n Hin.
    destruct (candidate req view n) eqn:E; [|done].
    assert (Hf : In n (List.filter (candidate req view) (nodes view)))
      by (apply filter_In; by rewrite <- list_elem_of_In).
    by rewrite Ef in Hf.
  - intros H. destruct (List.filter _ _) as [|x r] eqn:Ef; [done|].
    assert (Hf : In x (List.filter (candidate req view) (nodes view))) by (rewrite Ef; by left).
    apply filter_In in Hf as [Hin Hc]. rewrite H in Hc; [done|by apply list_elem_of_In].
Qed.

Lemma existsb_elem {A} (p : A -> bool) l : existsb p l = true <-> exists x, x ∈ l /\ p x = true.
Proof.
  rewrite existsb_exists. split; intros (x & Hx & Hp); exists x; by rewrite list_elem_of_In in *.
Qed.
Lemma existsb_none {A} (p : A -> bool) l : existsb p l = false -> forall x, x ∈ l -> p x = false.
Proof.
  intros H x Hx. destruct (p x) eqn:E; [|done].
  assert (existsb p l = true) by (apply existsb_elem; eauto). congruence.
Qed.

(** A live node that serves the workspace leaves some candidate. *)
Lemma candidate_exists req view n :
  n ∈ nodes view -> alive n = true -> serves req n = true ->
  exists m, m ∈ nodes view /\ candidate req view m = true.
Proof.
  intros Hin Ha Hs.
  assert (Hcap : exists m, m ∈ nodes view /\ alive m = true /\ capable req view m = true).
  { unfold capable. destruct (other_than_macos req view) eqn:Eo.
    - unfold other_than_macos in Eo. apply andb_prop in Eo as [_ Eo].
      apply existsb_elem in Eo as (m & Hm & Hp). exists m.
      apply andb_prop in Hp as [[Hp1 Hp2]%andb_prop Hp3]. rewrite Hp2. split_and!; [done..|].
      by destruct (on_macos m).
    - exists n. by rewrite Hs. }
  destruct Hcap as (m & Hm & Hma & Hmc). destruct (roomy_exists req view) eqn:Er.
  - pose proof Er as Er'. unfold roomy_exists in Er'. apply existsb_elem in Er' as (k & Hk & Hp).
    apply andb_prop in Hp as [[Hp1 Hp2]%andb_prop Hp3]. exists k. split; [done|].
    unfold candidate, takes_new. rewrite Hp1, Hp2, Er. simpl. done.
  - exists m. unfold candidate, takes_new. by rewrite Hma, Hmc, Er.
Qed.

Lemma candidate_spec req view n :
  candidate req view n = true ->
  alive n = true /\ serves req n = true
  /\ (other_than_macos req view = true -> on_macos n = false)
  /\ (roomy_exists req view = true -> node_pressure n = None).
Proof.
  unfold candidate, capable, takes_new, is_short.
  intros [[Ha [Hs Hm]%andb_prop]%andb_prop Ht]%andb_prop. split_and!; [done..| |].
  - intros Ho. rewrite Ho in Hm. by destruct (on_macos n).
  - intros Hr. rewrite Hr in Ht. by destruct (node_pressure n).
Qed.

Lemma holder_Some req view h :
  holder req view = Some h ->
  h ∈ nodes view /\ alive h = true /\ serves req h = true /\ holds req h = true.
Proof.
  intros H. apply find_some in H as [Hin [[Ha Hs]%andb_prop Hh]%andb_prop].
  by rewrite list_elem_of_In.
Qed.

Lemma move_to_quietest req view h resp :
  move req view h = Some resp ->
  exists q, quietest req view = Some q /\ node resp = Some (addr q) /\ addr q <> addr h
    /\ can_move req view h (Some q) = true
    /\ ((is_Some (node_pressure h) /\ roomy_exists req view = true)
        \/ capable req view h = false
        \/ (congested h = true /\ much_quieter h q = true)).
Proof.
  unfold move. destruct (quietest req view) as [q|]; [|done].
  destruct (can_move req view h (Some q) && negb (bool_decide (addr q = addr h))) eqn:E; [|done].
  apply andb_prop in E as [Ec En]. apply negb_true_iff, bool_decide_eq_false_1 in En.
  intros H. exists q. destruct (node_pressure h) as [why|] eqn:Ep, (roomy_exists req view) eqn:Er;
    [by simplify_eq; split_and!; [..|left]|..].
  all: destruct (capable req view h) eqn:Eh; cbn [negb] in H;
    [destruct (congested h && much_quieter h q) eqn:Eq; [apply andb_prop in Eq|discriminate H]|].
  all: injection H as <-; split_and!; try assumption; try reflexivity; tauto.
Qed.

Lemma place_moved req view h resp :
  holder req view = Some h -> move req view h = Some resp -> place_in req view = resp.
Proof. intros Hh Hm. unfold place_in. by rewrite Hh, Hm. Qed.

Lemma place_stays req view h :
  holder req view = Some h -> move req view h = None -> node (place_in req view) = Some (addr h).
Proof. intros Hh Hm. unfold place_in. by rewrite Hh, Hm. Qed.

(** ** Theorems *)

(** C7: placement is sound and complete for every request and cluster: the node it names is
    live, runs the operating system asked for and serves the engine, and it names none only
    when no live node does. *)
Theorem placement_serves req view :
  match node (place_in req view) with
  | Some a => exists n, n ∈ nodes view /\ addr n = a /\ alive n = true /\ serves req n = true
  | None => forall n, n ∈ nodes view -> alive n = true -> serves req n = false
  end.
Proof.
  assert (Hq : forall q, quietest req view = Some q ->
    exists n, n ∈ nodes view /\ addr n = addr q /\ alive n = true /\ serves req n = true).
  { intros q Hq. exists q. apply quietest_in in Hq as [Hin Hc].
    apply candidate_spec in Hc as (Ha & Hs & _). by split_and!. }
  destruct (holder req view) as [h|] eqn:Eh.
  - destruct (move req view h) as [resp|] eqn:Em.
    + rewrite (place_moved _ _ _ _ Eh Em). apply move_to_quietest in Em as (q & Eq & -> & _).
      by apply Hq.
    + rewrite (place_stays _ _ _ Eh Em). apply holder_Some in Eh as (Hin & Ha & Hs & _).
      exists h. by split_and!.
  - unfold place_in. rewrite Eh. destruct (quietest req view) as [q|] eqn:Eq; simpl; [by apply Hq|].
    intros n Hin Ha. destruct (serves req n) eqn:Es; [|done].
    destruct (candidate_exists req view n Hin Ha Es) as (m & Hm & Hc).
    rewrite quietest_None in Eq. by rewrite Eq in Hc.
Qed.

(** A workspace no live node holds goes to the quietest node that may take it.  The chosen
    node is not a Mac when the request needs no system and a live node of another platform
    serves it, is not short of memory or disk when a live node allowed by that rule is not, and
    scores below every candidate before it and not above any after it. *)
Theorem fresh_placement req view a :
  Forall (fun n => score n <> S754_nan) (nodes view) ->
  holder req view = None -> node (place_in req view) = Some a ->
  exists q, q ∈ nodes view /\ addr q = a
    /\ (os req = None ->
        (exists n, n ∈ nodes view /\ alive n = true /\ serves req n = true /\ on_macos n = false) ->
        on_macos q = false)
    /\ ((exists n, n ∈ nodes view /\ alive n = true /\ capable req view n = true
                   /\ node_pressure n = None) -> node_pressure q = None)
    /\ first_least (List.filter (candidate req view) (nodes view)) q.
Proof.
  intros Hn Hh Ha. unfold place_in in Ha. rewrite Hh in Ha.
  destruct (quietest req view) as [q|] eqn:Eq; [|done]. simpl in Ha. injection Ha as <-.
  pose proof (quietest_in _ _ _ Eq) as [Hin Hc]. apply candidate_spec in Hc as (_ & _ & Hm & Hp).
  exists q. split_and!; [done..| | |by apply quietest_first_least].
  - intros Ho (n & Hni & Hna & Hns & Hnm). apply Hm. unfold other_than_macos. rewrite Ho. simpl.
    apply existsb_elem. exists n. by rewrite Hna, Hns, Hnm.
  - intros (n & Hni & Hna & Hnc & Hnp). apply Hp. unfold roomy_exists, is_short.
    apply existsb_elem. exists n. by rewrite Hna, Hnc, Hnp.
Qed.

(** A live node that holds the workspace keeps it unless there is a cause.  It keeps an
    active one that nobody asked to rebalance while it is not short of memory or disk and not
    congested; whenever the workspace does move, it moves to another live node that serves it
    and is not itself short when a roomy one exists, and the holder was short, was a Mac with an
    alternative, or was congested next to a much quieter node. *)
Theorem holder_keeps_or_moves req view h :
  holder req view = Some h ->
  (fst (holder_load req h) = false -> rebalance_active req = false -> node_pressure h = None ->
   congested h = false -> node (place_in req view) = Some (addr h))
  /\ (node (place_in req view) <> Some (addr h) ->
      exists q, node (place_in req view) = Some (addr q) /\ q ∈ nodes view /\ alive q = true
        /\ serves req q = true /\ (roomy_exists req view = true -> node_pressure q = None)
        /\ ((is_Some (node_pressure h) /\ roomy_exists req view = true)
            \/ capable req view h = false
            \/ (congested h = true /\ much_quieter h q = true))).
Proof.
  intros Hh. destruct (move req view h) as [resp|] eqn:Em.
  - pose proof (place_moved _ _ _ _ Hh Em) as ->.
    apply move_to_quietest in Em as (q & Eq & Hr & Hne & Hc & Hcause). split.
    + intros Hi Hra Hp Hcong. unfold can_move, is_short in Hc. rewrite Hi, Hra, Hp, Hcong in Hc. done.
    + intros _. exists q. pose proof (quietest_in _ _ _ Eq) as [Hin Hcand].
      apply candidate_spec in Hcand as (Ha & Hs & _ & Hp). by split_and!.
  - rewrite (place_stays _ _ _ Hh Em). by split.
Qed.

(** Pressure is relieved.  In a cluster whose addresses are distinct, a workspace held by a
    node short of memory or disk moves, active or not, to one that is not short as soon as such
    a node may take it. *)
Theorem pressure_relieved req view h :
  NoDup (map addr (nodes view)) -> holder req view = Some h -> is_Some (node_pressure h) ->
  roomy_exists req view = true ->
  exists q, node (place_in req view) = Some (addr q) /\ q ∈ nodes view /\ node_pressure q = None
    /\ alive q = true /\ serves req q = true.
Proof.
  intros Hnd Hh [why Hp] Hr. pose proof (holder_Some _ _ _ Hh) as (Hin & _).
  assert (Hq : exists q, quietest req view = Some q).
  { destruct (quietest req view) as [q|] eqn:Eq; [by exists q|]. rewrite quietest_None in Eq.
    pose proof Hr as Hr'. apply existsb_elem in Hr' as (k & Hk & [[H1 H2]%andb_prop H3]%andb_prop).
    specialize (Eq k Hk). unfold candidate, takes_new in Eq. rewrite H1, H2, Hr in Eq.
    cbn [andb] in Eq. congruence. }
  destruct Hq as [q Eq]. pose proof (quietest_in _ _ _ Eq) as [Hqin Hc].
  apply candidate_spec in Hc as (Ha & Hs & _ & Hqp). specialize (Hqp Hr).
  assert (Hne : addr q <> addr h).
  { intros He. assert (q = h); [|congruence].
    apply list_elem_of_lookup in Hqin as [i Hi], Hin as [j Hj].
    assert (i = j).
    { eapply (NoDup_lookup _ i j (addr h)); [exact Hnd|..]; rewrite list_lookup_fmap.
      - by rewrite Hi, <- He.
      - by rewrite Hj. }
    congruence. }
  exists q. split_and!; [|done..].
  assert (Hm : exists resp, move req view h = Some resp /\ node resp = Some (addr q)).
  { unfold move, can_move, is_short. rewrite Eq, Hp, Hr.
    rewrite bool_decide_eq_false_2 by done. cbn [andb]. rewrite !orb_true_r. cbn [orb andb negb].
    eexists. by split. }
  destruct Hm as (resp & Hm & Hn). by rewrite (place_moved _ _ _ _ Hh Hm).
Qed.

(** ** Witnesses: a Mac, a busy Linux node, a quiet one and one whose disk is nearly full *)

Definition sample_node (a plat : bytes) (load disk : Z) (ws : list LoadedWorkspaceInfo) : PeerInfo :=
  mkPeer a
    (mkStatus 1 60 0 0 [B "rust (rust-analyzer)"; B "go (gopls)"] None 0 0 (Some load) (Some 8)
       (Some plat) [] (mkHost (Some (60 * 2 ^ 30)) (Some (100 * 2 ^ 30)) (Some disk)) None None)
    ws 0 true.

Definition mac : PeerInfo := sample_node (B "10.0.0.1:9400") (B "macos-aarch64") 100 500 [].
Definition busy_node : PeerInfo := sample_node (B "10.0.0.2:9400") (B "linux-x86_64") 6000 500 [].
Definition quiet_node : PeerInfo := sample_node (B "10.0.0.3:9400") (B "linux-x86_64") 800 500 [].
Definition full_node : PeerInfo :=
  sample_node (B "10.0.0.4:9400") (B "linux-x86_64") 200 50 [mkLoaded (B "held") (B "rust") 2].

Definition sample_view : ClusterResponse :=
  mkCluster (B "10.0.0.1:9400") [mac; busy_node; quiet_node; full_node].
Definition fresh_request : PlaceRequest := mkPlace (B "fresh") (Some (B "rust")) None false.
Definition held_request : PlaceRequest := mkPlace (B "held") (Some (B "rust")) None false.

Lemma fresh_placement_witness :
  exists q, q ∈ nodes sample_view /\ addr q = B "10.0.0.3:9400" /\ on_macos q = false.
Proof.
  destruct (fresh_placement fresh_request sample_view (B "10.0.0.3:9400")) as (q & Hin & Ha & Hm & _).
  - repeat constructor; vm_compute; discriminate.
  - vm_compute; reflexivity.
  - vm_compute; reflexivity.
  - exists q. split_and!; [exact Hin|exact Ha|]. apply Hm; [reflexivity|].
    exists busy_node. split_and!; [by right; left|by vm_compute..].
Defined.

Lemma holder_keeps_or_moves_witness :
  exists q, node (place_in held_request sample_view) = Some (addr q) /\ node_pressure q = None.
Proof.
  destruct (holder_keeps_or_moves held_request sample_view full_node) as [_ H];
    [vm_compute; reflexivity|].
  destruct H as (q & Hq & _ & _ & _ & Hp & _); [vm_compute; discriminate|].
  exists q. split; [exact Hq|apply Hp; vm_compute; reflexivity].
Defined.

Lemma pressure_relieved_witness :
  exists q, node (place_in held_request sample_view) = Some (addr q) /\ node_pressure q = None.
Proof.
  destruct (pressure_relieved held_request sample_view full_node) as (q & Hq & _ & Hp & _).
  - by_decide.
  - vm_compute; reflexivity.
  - vm_compute; by eexists.
  - vm_compute; reflexivity.
  - exists q. split; [exact Hq|exact Hp].
Defined.

(** The texts a client sees. *)
Example placement_texts :
  reason (place_in fresh_request sample_view)
  = B "quietest node serving rust (score 0.10, load 0.10/cpu); passed over 10.0.0.4:9400 (disk 5% free)"
  /\ reason (place_in held_request sample_view)
     = B "moved from 10.0.0.4:9400 (disk 5% free, active, 2 sessions) to 10.0.0.3:9400 (score 0.10, load 0.10/cpu)"
  /\ reason (place_in (mkPlace (B "x") (Some (B "swift")) (Some (B "macos")) false) sample_view)
     = B "no live node runs macos and serves swift".
Proof. vm_compute. split_and!; reflexivity. Qed.
