(* ===== verification/Membership.v ===== *)
(** * Cluster membership of a gateway
    (crates/prod-code-gateway/src/state/server_state.rs, state/forget.rs and gossip.rs)

    The peers a gateway gossips with, the heartbeats it holds, the addresses it was told to
    forget and the eviction of silent peers.  An operation that takes its locks once is one step;
    absorbing a heartbeat takes two sections of locks and is two steps, between which others may
    run.  Times are nanoseconds of one monotonic clock, read inside the step. *)

From Stdlib Require Import Strings.Byte.
From stdpp Require Import gmap.
From S2P Require Import Prelude RustStr Net Status Placement.

Definition SECOND : Z := 1000000000.
Definition PEER_ALIVE : Z := 30 * SECOND.
Definition PEER_EVICT : Z := 60 * SECOND.
Definition GOSSIP_PERIOD : Z := 5 * SECOND.
Definition FORGET_FOR : Z := 7 * 24 * 3600 * SECOND.
Definition MAX_LEARNED : Z := 64.

(** ** Data *)

Record NodeGossip := mkGossip {
  g_addr : bytes;
  g_status : StatusResponse;
  g_workspaces : list LoadedWorkspaceInfo;
  g_peers : list bytes;
  sent_at_ms : Z
}.

Record PeerEntry := mkEntry { gossip : NodeGossip; last_seen : Z }.

(** The membership part of [ServerState], with [unconfirmed_since], which the gossip loop keeps
    between its rounds. *)
Record ServerState := mkState {
  advertise : bytes;
  peers : gset bytes;
  cluster : gmap bytes PeerEntry;
  forgotten : gmap bytes Z;
  unconfirmed_since : gmap bytes Z
}.

(** A [BTreeSet<String>] in its order. *)
Definition str_le (a b : bytes) : bool := lex_le (map u8 a) (map u8 b).
Definition ordered (ps : gset bytes) : list bytes := sort_by str_le (elements ps).

(** [Instant::elapsed] and [duration_since], which saturate at zero. *)
Definition elapsed (now since : Z) : Z := Z.max 0 (now - since).

(** ** Heartbeats *)

(** This node's heartbeat, from its status and the workspaces it has loaded. *)
Definition own_gossip (s : ServerState) (now sent : Z) (st : StatusResponse)
    (loaded : list LoadedWorkspaceInfo) : NodeGossip :=
  mkGossip (advertise s) st loaded
    (List.filter (fun p => match cluster s !! p with
                           | Some e => elapsed now (last_seen e) <? PEER_ALIVE
                           | None => false
                           end) (ordered (peers s)))
    sent.

Definition live_tombstones (now : Z) (f : gmap bytes Z) : gmap bytes Z :=
  filter (fun '(_, until) => now < until) f.

(** The loop that learns the peers a heartbeat names. *)
Definition learn (me : bytes) (f : gmap bytes Z) (ps : gset bytes) (named : list bytes)
    : gset bytes :=
  foldl (fun ps p =>
    if negb (bool_decide (p = me)) && (Z.of_nat (size ps) <? MAX_LEARNED)
       && bool_decide (f !! p = None)
    then {[p]} ∪ ps else ps) ps named.

(** The early return. *)
Definition ignored (s : ServerState) (g : NodeGossip) : bool :=
  bool_decide (g_addr g = []) || bool_decide (g_addr g = advertise s).

(** The section under the [forgotten] and [peers] locks. *)
Definition absorb_peers (s : ServerState) (now : Z) (g : NodeGossip) : ServerState :=
  let f := delete (g_addr g) (live_tombstones now (forgotten s)) in
  mkState (advertise s) (learn (advertise s) f ({[g_addr g]} ∪ peers s) (g_peers g))
    (cluster s) f (unconfirmed_since s).

(** The section under the [cluster] lock. *)
Definition absorb_cluster (s : ServerState) (now : Z) (g : NodeGossip) : ServerState :=
  mkState (advertise s) (peers s) (<[g_addr g := mkEntry g now]> (cluster s)) (forgotten s)
    (unconfirmed_since s).

Definition absorb_gossip (s : ServerState) (now now' : Z) (g : NodeGossip) : ServerState :=
  if ignored s g then s else absorb_cluster (absorb_peers s now g) now' g.

(** ** Forgetting *)

Definition forget_peer (s : ServerState) (now : Z) (a : bytes) : ServerState * bool :=
  (mkState (advertise s) (peers s ∖ {[a]}) (delete a (cluster s))
     (<[a := now + FORGET_FOR]> (live_tombstones now (forgotten s))) (unconfirmed_since s),
   match cluster s !! a with Some _ => true | None => false end || bool_decide (a ∈ peers s)).

(** The nodes a forget request is passed on to. *)
Definition forget_targets (s : ServerState) (a : bytes) : list bytes :=
  ordered ((peers s ∪ dom (cluster s)) ∖ {[a]} ∖ {[advertise s]}).

Record ForgetPeerRequest := mkForget { fp_addr : bytes; propagate : bool }.
Record ForgetPeerResponse := mkForgotten {
  was_known : bool;
  forwarded : list bytes;
  failed : list bytes
}.

(** [handle_forget]; [told t req] says whether node [t] acknowledged the request in time. *)
Definition handle_forget (told : bytes -> ForgetPeerRequest -> bool) (s : ServerState) (now : Z)
    (req : ForgetPeerRequest) : ServerState * ForgetPeerResponse :=
  let targets := if propagate req then forget_targets s (fp_addr req) else [] in
  let (s', known) := forget_peer s now (fp_addr req) in
  let passed_on := mkForget (fp_addr req) false in
  (s', mkForgotten known (List.filter (fun t => told t passed_on) targets)
         (List.filter (fun t => negb (told t passed_on)) targets)).

(** ** The connection token *)

Record AuthToken := mkToken { auth_text : bytes }.

(** [matches]: every pair of bytes is compared, whatever the earlier ones gave. *)
Definition matches (t : AuthToken) (expected : bytes) : bool :=
  (zlen (auth_text t) =? zlen expected)
  && (foldl (fun differ '(a, b) => Z.lor differ (Z.lxor (u8 a) (u8 b))) 0
        (zip (auth_text t) expected) =? 0).

(** ** The gossip loop's evictions *)

Definition silent (now : Z) (e : PeerEntry) : bool := PEER_EVICT <=? elapsed now (last_seen e).

Definition evicted (s : ServerState) (now : Z) : gset bytes :=
  dom (filter (fun '(_, e) => silent now e = true) (cluster s)).

(** Round 1: peers whose heartbeats stopped. *)
Definition evict_silent (s : ServerState) (now : Z) : ServerState :=
  let dead := evicted s now in
  mkState (advertise s) (peers s ∖ dead)
    (filter (fun '(_, e) => silent now e = false) (cluster s)) (forgotten s)
    (filter (fun '(a, _) => a ∉ dead) (unconfirmed_since s)).

(** One peer of round 2: the table of unconfirmed peers and those to drop. *)
Definition check_unconfirmed (s : ServerState) (now : Z) (acc : gmap bytes Z * list bytes) (p : bytes)
    : gmap bytes Z * list bytes :=
  match cluster s !! p with
  | None =>
      let first_seen := default now (acc.1 !! p) in
      let table := <[p := first_seen]> acc.1 in
      (table, if PEER_EVICT <=? elapsed now first_seen then acc.2 ++ [p] else acc.2)
  | Some _ => (delete p acc.1, acc.2)
  end.

(** Round 2: peers only named by others that never spoke. *)
Definition evict_unconfirmed (s : ServerState) (now : Z) : ServerState :=
  let '(table, dead) :=
    foldl (check_unconfirmed s now) (unconfirmed_since s, []) (ordered (peers s)) in
  mkState (advertise s) (foldl (fun ps d => ps ∖ {[d]}) (peers s) dead) (cluster s) (forgotten s)
    (foldl (fun t d => delete d t) table dead).

(** ** The view *)

Definition peer_info (now : Z) (e : PeerEntry) : PeerInfo :=
  let age := elapsed now (last_seen e) in
  mkPeer (g_addr (gossip e)) (g_status (gossip e)) (g_workspaces (gossip e)) (age `div` SECOND)
    (age <? PEER_ALIVE).

Definition addr_str_le (a b : PeerInfo) : bool := str_le (addr a) (addr b).

(** The view over the entries in the order [entries] the hash map yields them. *)
Definition cluster_view (entries : list PeerEntry) (now : Z) (own : NodeGossip) : ClusterResponse :=
  mkCluster (g_addr own)
    (mkPeer (g_addr own) (g_status own) (g_workspaces own) 0 true
       :: sort_by addr_str_le (map (peer_info now) entries)).

(** An order of a hash map's values. *)
Definition yields (m : gmap bytes PeerEntry) (entries : list PeerEntry) : Prop :=
  entries ≡ₚ (map_to_list m).*2.

(** ** Runs *)

(** A run's state: the server's and the heartbeats whose second section is still to come. *)
Record Run := mkRun { server : ServerState; pending : list NodeGossip }.

Inductive action :=
| Heard (g : NodeGossip)         (* a heartbeat arrives: early return or first section *)
| Recorded (g : NodeGossip)      (* its second section *)
| Forget (a : bytes)
| EvictSilent
| EvictUnconfirmed.

Inductive step (now : Z) : action -> Run -> Run -> Prop :=
| step_ignored r g :
    ignored (server r) g = true -> step now (Heard g) r r
| step_heard r g :
    ignored (server r) g = false ->
    step now (Heard g) r (mkRun (absorb_peers (server r) now g) (g :: pending r))
| step_recorded r g pre post :
    pending r = pre ++ g :: post ->
    step now (Recorded g) r (mkRun (absorb_cluster (server r) now g) (pre ++ post))
| step_forget r a :
    step now (Forget a) r (mkRun (fst (forget_peer (server r) now a)) (pending r))
| step_silent r :
    step now EvictSilent r (mkRun (evict_silent (server r) now) (pending r))
| step_unconfirmed r :
    step now EvictUnconfirmed r (mkRun (evict_unconfirmed (server r) now) (pending r)).

(** A run with its timed actions, oldest first. *)
Inductive runs : Run -> list (Z * action) -> Run -> Prop :=
| runs_nil r : runs r [] r
| runs_cons r r' r'' now a tr : step now a r r' -> runs r' tr r'' -> runs r ((now, a) :: tr) r''.

(** ** Lemmas *)

Lemma ordered_elem ps p : p ∈ ordered ps <-> p ∈ ps.
Proof. unfold ordered. rewrite sort_by_perm. apply elem_of_elements. Qed.

Lemma ordered_nodup ps : NoDup (ordered ps).
Proof. unfold ordered. rewrite sort_by_perm. apply NoDup_elements. Qed.

Lemma live_tombstones_Some now f a u :
  live_tombstones now f !! a = Some u <-> f !! a = Some u /\ now < u.
Proof. unfold live_tombstones. rewrite map_lookup_filter_Some. done. Qed.

Lemma learn_spec me f named ps :
  ps ⊆ learn me f ps named
  /\ (forall p, p ∈ learn me f ps named -> p ∈ ps \/ (p ∈ named /\ p <> me /\ f !! p = None))
  /\ Z.of_nat (size (learn me f ps named)) <= Z.max MAX_LEARNED (Z.of_nat (size ps)).
Proof.
  revert ps. induction named as [|x named IH]; intros ps; simpl; [split_and!; [done|auto|lia]|].
  destruct (negb (bool_decide (x = me)) && (Z.of_nat (size ps) <? MAX_LEARNED)
    && bool_decide (f !! x = None)) eqn:E.
  - apply andb_prop in E as [[E1 E2]%andb_prop E3].
    apply negb_true_iff, bool_decide_eq_false_1 in E1. apply bool_decide_eq_true_1 in E3.
    apply Z.ltb_lt in E2. destruct (IH ({[x]} ∪ ps)) as (H1 & H2 & H3). fold (learn me f) in *.
    split_and!; [set_solver| |].
    + intros p Hp. apply H2 in Hp as [Hp|(Hp & ? & ?)]; [|right; split_and!; [by right|done..]].
      apply elem_of_union in Hp as [->%elem_of_singleton|Hp]; [|by left].
      right. split_and!; [by left|done..].
    + etrans; [apply H3|]. assert (size ({[x]} ∪ ps) <= S (size ps))%nat; [|lia].
      rewrite size_union_alt. rewrite size_singleton.
      assert (size (ps ∖ {[x]}) <= size ps)%nat by (apply subseteq_size; set_solver). lia.
  - destruct (IH ps) as (H1 & H2 & H3). split_and!; [done| |done].
    intros p Hp. apply H2 in Hp as [Hp|(Hp & ? & ?)]; [by left|right]. split_and!; [by right|done..].
Qed.

(** A request passed on reaches every node known but the forgotten one and this one, and each
    is reported once, as told or as not. *)
Lemma forget_passed_on told s now req t :
  let resp := snd (handle_forget told s now req) in
  (t ∈ forwarded resp \/ t ∈ failed resp <->
   propagate req = true /\ (t ∈ peers s \/ is_Some (cluster s !! t)) /\ t <> fp_addr req
   /\ t <> advertise s)
  /\ ~ (t ∈ forwarded resp /\ t ∈ failed resp).
Proof.
  simpl. rewrite !list_elem_of_In, !filter_In, negb_true_iff, <- !list_elem_of_In. split.
  - destruct (propagate req).
    + unfold forget_targets. rewrite ordered_elem.
      rewrite !elem_of_difference, elem_of_union, elem_of_dom, !elem_of_singleton.
      destruct (told t _); naive_solver.
    + split; [intros [[[]%elem_of_nil _]|[[]%elem_of_nil _]]|naive_solver].
  - destruct (told t _); naive_solver.
Qed.

(** *** Tokens *)

Lemma lor_zero a b : 0 <= a -> 0 <= b -> Z.lor a b = 0 <-> a = 0 /\ b = 0.
Proof. intros _ _. apply Z.lor_eq_0_iff. Qed.

Lemma differ_zero ps z :
  0 <= z ->
  foldl (fun differ '(a, b) => Z.lor differ (Z.lxor (u8 a) (u8 b))) z ps = 0 <->
  z = 0 /\ Forall (fun '(a, b) => a = b) ps.
Proof.
  revert z. induction ps as [|[a b] ps IH]; intros z Hz; simpl; [naive_solver|].
  pose proof (u8_range a). pose proof (u8_range b).
  assert (0 <= Z.lxor (u8 a) (u8 b)) by (apply Z.lxor_nonneg; lia).
  rewrite IH by (by apply Z.lor_nonneg). rewrite lor_zero, Z.lxor_eq_0_iff, Forall_cons by done.
  split; [|naive_solver]. intros [[-> Hab] Hps]. by split; [|split; [apply u8_inj|]].
Qed.

(** The comparison that takes the same time everywhere is equality. *)
Lemma matches_equality t expected : matches t expected = true <-> auth_text t = expected.
Proof.
  unfold matches. rewrite andb_true_iff, !Z.eqb_eq, differ_zero by done.
  set (g := auth_text t). split.
  - intros [Hl [_ Hz]]. unfold zlen in Hl. apply Nat2Z.inj in Hl. revert expected Hl Hz.
    induction g as [|x g IH]; intros [|y e] Hl Hz; simpl in *; try done.
    apply List.Forall_cons_iff in Hz as [-> Hz]. f_equal. apply IH; [lia|done].
  - intros <-. split_and!; [done..|]. induction g; simpl; by constructor.
Qed.

(** *** The first round *)

Lemma evicted_elem s now a :
  a ∈ evicted s now <-> exists e, cluster s !! a = Some e /\ silent now e = true.
Proof.
  unfold evicted. rewrite elem_of_dom. unfold is_Some.
  split; intros (e & H); exists e; by rewrite map_lookup_filter_Some in *.
Qed.

Lemma evict_silent_cluster s now a e :
  cluster (evict_silent s now) !! a = Some e <-> cluster s !! a = Some e /\ silent now e = false.
Proof. simpl. by rewrite map_lookup_filter_Some. Qed.

Lemma evict_silent_peers s now a :
  a ∈ peers (evict_silent s now) <->
  a ∈ peers s /\ forall e, cluster s !! a = Some e -> silent now e = false.
Proof.
  simpl. rewrite elem_of_difference, evicted_elem. split.
  - intros [Ha Hn]. split; [done|]. intros e He. destruct (silent now e) eqn:E; [|done].
    exfalso. apply Hn. by exists e.
  - intros [Ha Hn]. split; [done|]. intros (e & He & Hs). by rewrite (Hn e He) in Hs.
Qed.

(** *** The second round *)

(** What the loop has done after the peers [l]. *)
Lemma check_unconfirmed_fold s now l u dead :
  NoDup l ->
  let r := foldl (check_unconfirmed s now) (u, dead) l in
  (forall p, r.1 !! p = if bool_decide (p ∈ l)
                        then match cluster s !! p with
                             | None => Some (default now (u !! p)) | Some _ => None end
                        else u !! p)
  /\ (forall p, p ∈ r.2 <-> p ∈ dead \/
        (p ∈ l /\ cluster s !! p = None /\ PEER_EVICT <= elapsed now (default now (u !! p)))).
Proof.
  revert u dead. induction l as [|x l IH]; intros u dead Hnd r; subst r.
  - simpl. split; [done|]. set_solver.
  - apply NoDup_cons in Hnd as [Hx Hnd]. cbn [foldl]. unfold check_unconfirmed at 2 4. cbn [fst snd].
    destruct (cluster s !! x) as [e|] eqn:Ex.
    + destruct (IH (delete x u) dead Hnd) as [H1 H2]. split.
      * intros p. rewrite H1. destruct (decide (p = x)) as [->|Hne].
        -- rewrite bool_decide_eq_false_2, bool_decide_eq_true_2 by set_solver.
           by rewrite lookup_delete_eq, Ex.
        -- rewrite lookup_delete_ne by done.
           destruct (decide (p ∈ l)); [rewrite !bool_decide_eq_true_2 by set_solver; done|].
           by rewrite !bool_decide_eq_false_2 by set_solver.
      * intros p. rewrite H2. destruct (decide (p = x)) as [->|Hne]; [naive_solver|].
        rewrite lookup_delete_ne by done. set_solver.
    + set (fs := default now (u !! x)).
      destruct (IH (<[x := fs]> u) (if PEER_EVICT <=? elapsed now fs then dead ++ [x] else dead) Hnd)
        as [H1 H2]. split.
      * intros p. rewrite H1. destruct (decide (p = x)) as [->|Hne].
        -- rewrite bool_decide_eq_false_2, bool_decide_eq_true_2 by set_solver.
           by rewrite lookup_insert_eq, Ex.
        -- rewrite lookup_insert_ne by done.
           destruct (decide (p ∈ l)); [rewrite !bool_decide_eq_true_2 by set_solver; done|].
           by rewrite !bool_decide_eq_false_2 by set_solver.
      * intros p. rewrite H2. destruct (decide (p = x)) as [->|Hne].
        -- destruct (PEER_EVICT <=? elapsed now fs) eqn:E.
           ++ apply Z.leb_le in E. rewrite elem_of_app, list_elem_of_singleton, elem_of_cons. tauto.
           ++ apply Z.leb_gt in E. rewrite elem_of_cons. fold fs. naive_solver lia.
        -- rewrite lookup_insert_ne, elem_of_cons by done.
           destruct (_ <=? _); rewrite ?elem_of_app, ?list_elem_of_singleton; naive_solver.
Qed.

Lemma fold_remove (dead : list bytes) (ps : gset bytes) p :
  p ∈ foldl (fun (ps : gset bytes) d => ps ∖ {[d]}) ps dead <-> p ∈ ps /\ p ∉ dead.
Proof.
  revert ps. induction dead as [|d dead IH]; intros ps; simpl; [set_solver|].
  rewrite IH. set_solver.
Qed.

Lemma fold_delete (dead : list bytes) (t : gmap bytes Z) p :
  foldl (fun t d => delete d t) t dead !! p = if bool_decide (p ∈ dead) then None else t !! p.
Proof.
  revert t. induction dead as [|d dead IH]; intros t; simpl; [done|]. rewrite IH.
  destruct (decide (p ∈ dead)); [rewrite !bool_decide_eq_true_2 by set_solver; done|].
  rewrite bool_decide_eq_false_2 by done. destruct (decide (p = d)) as [->|Hne].
  - rewrite bool_decide_eq_true_2 by set_solver. apply lookup_delete_eq.
  - rewrite bool_decide_eq_false_2 by set_solver. by apply lookup_delete_ne.
Qed.

Lemma evict_unconfirmed_spec s now :
  let s' := evict_unconfirmed s now in
  cluster s' = cluster s /\ forgotten s' = forgotten s /\ advertise s' = advertise s
  /\ (forall p, p ∈ peers s' <-> p ∈ peers s /\
        (cluster s !! p = None -> elapsed now (default now (unconfirmed_since s !! p)) < PEER_EVICT))
  /\ (forall p, p ∈ peers s' -> unconfirmed_since s' !! p
         = match cluster s !! p with
           | None => Some (default now (unconfirmed_since s !! p)) | Some _ => None end).
Proof.
  unfold evict_unconfirmed.
  destruct (check_unconfirmed_fold s now (ordered (peers s)) (unconfirmed_since s) [])
    as [H1 H2]; [apply ordered_nodup|].
  destruct (foldl (check_unconfirmed s now) _ _) as [table dead]. cbn [fst snd] in *.
  assert (Hp : forall p, p ∈ foldl (fun ps d => ps ∖ {[d]}) (peers s) dead <-> p ∈ peers s /\
    (cluster s !! p = None -> elapsed now (default now (unconfirmed_since s !! p)) < PEER_EVICT)).
  { intros p. rewrite fold_remove, H2, ordered_elem. split.
    - intros [Hin Hn]. split; [done|]. intros Hc.
      destruct (decide (elapsed now (default now (unconfirmed_since s !! p)) < PEER_EVICT)); [done|].
      exfalso. apply Hn. right. split_and!; [done..|lia].
    - intros [Hin Hn]. split; [done|]. intros [[]%elem_of_nil|(_ & Hc & Hge)].
      specialize (Hn Hc). lia. }
  split_and!; [done..|exact Hp|]. simpl. intros p Hin. rewrite fold_delete, H1.
  rewrite bool_decide_eq_false_2, bool_decide_eq_true_2; [done| |].
  - apply ordered_elem. apply Hp in Hin. tauto.
  - apply fold_remove in Hin. tauto.
Qed.

(** *** Invariants *)

(** What every run keeps about the recorded heartbeats: each is filed under its own address,
    which is neither empty nor this node's. *)
Definition foreign (me : bytes) (g : NodeGossip) : Prop := g_addr g <> [] /\ g_addr g <> me.

Definition run_ok (me : bytes) (r : Run) : Prop :=
  advertise (server r) = me
  /\ me ∉ peers (server r)
  /\ Forall (foreign me) (pending r)
  /\ (forall a e, cluster (server r) !! a = Some e -> g_addr (gossip e) = a /\ foreign me (gossip e)).

Lemma ignored_false s g : ignored s g = false <-> foreign (advertise s) g.
Proof.
  unfold ignored, foreign. rewrite orb_false_iff, !bool_decide_eq_false. done.
Qed.

Lemma step_ok me now act r r' : run_ok me r -> step now act r r' -> run_ok me r'.
Proof.
  intros (Hme & Hp & Hpend & Hc) Hs.
  destruct Hs as [r g Hi|r g Hi|r g pre post Hpp|r a|r|r]; [by split_and!|..].
  - apply ignored_false in Hi. rewrite Hme in Hi. split_and!; [done| |by constructor|done].
    simpl. destruct (learn_spec (advertise (server r))
      (delete (g_addr g) (live_tombstones now (forgotten (server r)))) (g_peers g)
      ({[g_addr g]} ∪ peers (server r))) as (_ & Hl & _).
    rewrite Hme in Hl |- *. intros [Hin|(_ & ? & _)]%Hl; [|done].
    apply elem_of_union in Hin as [Hin%elem_of_singleton|]; [|done].
    destruct Hi as [_ Hi]. congruence.
  - rewrite Hpp in Hpend. apply Forall_app in Hpend as [H1 [H2 H3]%List.Forall_cons_iff].
    split_and!; [done..|by apply Forall_app|]. simpl. intros a e.
    rewrite lookup_insert_Some. intros [[<- <-]|[_ He]]; [done|by apply Hc].
  - split_and!; [done|set_solver|done|]. simpl. intros b e. rewrite lookup_delete_Some.
    intros [_ He]. by apply Hc.
  - split_and!; [done|set_solver|done|]. intros a e He. apply evict_silent_cluster in He as [He _].
    by apply Hc.
  - destruct (evict_unconfirmed_spec (server r) now) as (Hcl & _ & Had & Hpe & _).
    split_and!; simpl; rewrite ?Hcl, ?Had, ?Hpe; [done| |done|done]. by intros [? _].
Qed.

Lemma runs_ok me r tr r' : run_ok me r -> runs r tr r' -> run_ok me r'.
Proof. intros Hr. induction 1; [done|]. eauto using step_ok. Qed.

Lemma cluster_addr_inj me r i j :
  run_ok me r -> cluster (server r) !! i.1 = Some i.2 -> cluster (server r) !! j.1 = Some j.2 ->
  g_addr (gossip i.2) = g_addr (gossip j.2) -> i = j.
Proof.
  intros (_ & _ & _ & Hc) Hi Hj He. destruct i as [a e], j as [b e']. simpl in *.
  destruct (Hc _ _ Hi) as [<- _], (Hc _ _ Hj) as [<- _]. rewrite He in Hi. congruence.
Qed.

Lemma view_addresses me r entries :
  run_ok me r -> yields (cluster (server r)) entries ->
  NoDup (map (fun e => g_addr (gossip e)) entries)
  /\ forall e, e ∈ entries -> foreign me (gossip e).
Proof.
  intros Hok Hy. split.
  - unfold yields in Hy. change (map ?f entries) with (f <$> entries). rewrite Hy.
    rewrite <- list_fmap_compose. apply NoDup_fmap_2_strong; [|apply NoDup_map_to_list].
    intros [a e] [b e'] Hi Hj He. rewrite elem_of_map_to_list in *.
    by apply (cluster_addr_inj me r).
  - intros e He. rewrite Hy in He. apply list_elem_of_fmap in He as ([a e'] & -> & He).
    apply elem_of_map_to_list in He. destruct Hok as (_ & _ & _ & Hc). by apply (Hc a e').
Qed.

Lemma str_le_antisym a b : str_le a b = true -> str_le b a = true -> a = b.
Proof. intros H1 H2. by apply map_u8_inj, lex_le_antisym. Qed.

(** A node that is neither named nor heard is not brought into the peers. *)
Lemma absorb_peers_new s now g p :
  p ∈ peers (absorb_peers s now g) ->
  p ∈ peers s \/ p = g_addr g
  \/ (p ∈ g_peers g /\ p <> advertise s /\ (forall u, forgotten s !! p = Some u -> u <= now)).
Proof.
  simpl. intros Hp. destruct (learn_spec (advertise s)
    (delete (g_addr g) (live_tombstones now (forgotten s))) (g_peers g) ({[g_addr g]} ∪ peers s))
    as (_ & Hl & _).
  apply Hl in Hp as [Hp|(Hn & Hme & Hf)]; [set_solver|].
  destruct (decide (p = g_addr g)) as [->|Hne]; [auto|]. right. right. split_and!; [done..|].
  intros u Hu. destruct (decide (now < u)); [|lia]. rewrite lookup_delete_ne in Hf by done.
  assert (live_tombstones now (forgotten s) !! p = Some u) by (by apply live_tombstones_Some).
  congruence.
Qed.

(** *** A forgotten address *)

(** [a] is out of the membership and its tombstone holds until [t]. *)
Definition buried (a : bytes) (t : Z) (r : Run) : Prop :=
  a ∉ peers (server r) /\ cluster (server r) !! a = None
  /\ Forall (fun g => g_addr g <> a) (pending r)
  /\ exists u, forgotten (server r) !! a = Some u /\ t <= u.

(** The action does not let [a] speak. *)
Definition not_by (a : bytes) (act : action) : Prop :=
  match act with Heard g => g_addr g <> a | _ => True end.

Lemma buried_step a t0 now act r r' :
  t0 <= now < t0 + FORGET_FOR -> not_by a act -> step now act r r' ->
  buried a (t0 + FORGET_FOR) r -> buried a (t0 + FORGET_FOR) r'.
Proof.
  intros Hnow Hby Hs (Hp & Hc & Hpend & u & Hu & Hle).
  destruct Hs as [r g Hi|r g Hi|r g pre post Hpp|r b|r|r]; simpl in Hby.
  - split_and!; [done..|by exists u].
  - split_and!; [|done|by constructor|].
    + intros [?|[?|(_ & _ & Hf)]]%absorb_peers_new; [done|congruence|]. specialize (Hf u Hu). lia.
    + exists u. split; [|done]. simpl. rewrite lookup_delete_ne by done.
      apply live_tombstones_Some. split; [done|lia].
  - rewrite Hpp in Hpend. apply Forall_app in Hpend as [H1 [H2 H3]%List.Forall_cons_iff].
    split_and!; [done| |by apply Forall_app|by exists u].
    simpl. by rewrite lookup_insert_ne.
  - split_and!; simpl; [set_solver|rewrite lookup_delete_None; auto|done|].
    destruct (decide (b = a)) as [->|Hne].
    + exists (now + FORGET_FOR). rewrite lookup_insert_eq. split; [done|lia].
    + exists u. rewrite lookup_insert_ne by done. split; [|done].
      apply live_tombstones_Some. split; [done|lia].
  - split_and!; [| |done|by exists u].
    + intros [? _]%evict_silent_peers. done.
    + destruct (cluster (evict_silent (server r) now) !! a) as [e|] eqn:E; [|done].
      apply evict_silent_cluster in E as [E _]. congruence.
  - destruct (evict_unconfirmed_spec (server r) now) as (Hcl & Hfo & _ & Hpe & _).
    split_and!; simpl; rewrite ?Hcl, ?Hfo; [|done|done|by exists u]. by intros [? _]%Hpe.
Qed.

Lemma buried_runs a t0 tr r r' :
  Forall (fun '(now, act) => t0 <= now < t0 + FORGET_FOR /\ not_by a act) tr -> runs r tr r' ->
  buried a (t0 + FORGET_FOR) r -> buried a (t0 + FORGET_FOR) r'.
Proof.
  intros Htr Hr. induction Hr as [r|r r1 r' now act tr Hs Hr IH]; [done|].
  apply List.Forall_cons_iff in Htr as [[Hn Hb] Htr]. intros H. by eauto using buried_step.
Qed.

Lemma forget_buries r a now :
  Forall (fun g => g_addr g <> a) (pending r) ->
  buried a (now + FORGET_FOR) (mkRun (fst (forget_peer (server r) now a)) (pending r)).
Proof.
  intros Hp. split_and!; simpl; [set_solver|apply lookup_delete_eq|done|].
  exists (now + FORGET_FOR). by rewrite lookup_insert_eq.
Qed.

(** *** A silent peer *)

(** The action neither comes from [a] nor names it. *)
Definition without (a : bytes) (act : action) : Prop :=
  match act with Heard g => g_addr g <> a /\ a ∉ g_peers g | _ => True end.

Definition gone (a : bytes) (r : Run) : Prop :=
  a ∉ peers (server r) /\ cluster (server r) !! a = None.

Definition fading (a : bytes) (e : PeerEntry) (r : Run) : Prop :=
  Forall (fun g => g_addr g <> a) (pending r) /\ (cluster (server r) !! a = Some e \/ gone a r).

Lemma fading_step a e now act r r' :
  without a act -> step now act r r' -> fading a e r ->
  fading a e r' /\ (gone a r \/ (act = EvictSilent /\ silent now e = true) -> gone a r').
Proof.
  intros Hw Hs (Hpend & Hst). unfold fading, gone in *.
  destruct Hs as [r g Hi|r g Hi|r g pre post Hpp|r b|r|r]; simpl in Hw.
  - naive_solver.
  - assert (Hnew : a ∉ peers (server r) -> a ∉ peers (absorb_peers (server r) now g)).
    { intros Hn [?|[?|(? & _)]]%absorb_peers_new; naive_solver. }
    cbn [server pending]. change (cluster (absorb_peers (server r) now g)) with (cluster (server r)).
    split; [split; [constructor; naive_solver|]|]; naive_solver.
  - rewrite Hpp in Hpend. apply Forall_app in Hpend as [H1 [H2 H3]%List.Forall_cons_iff].
    split; [split; [by apply Forall_app|]|]; simpl; rewrite lookup_insert_ne by done; naive_solver.
  - simpl. destruct (decide (b = a)) as [->|Hne].
    + rewrite lookup_delete_eq. split; [split; [done|right]|intros _]; (split; [set_solver|done]).
    + rewrite lookup_delete_ne by done. set_solver.
  - assert (Hg : a ∉ peers (server r) /\ cluster (server r) !! a = None
                 \/ (cluster (server r) !! a = Some e /\ silent now e = true) ->
      a ∉ peers (evict_silent (server r) now) /\ cluster (evict_silent (server r) now) !! a = None).
    { intros Hg. split.
      - intros [Hi Hall]%evict_silent_peers. destruct Hg as [[? _]|[Hc Hs]]; [done|].
        by rewrite (Hall _ Hc) in Hs.
      - destruct (cluster (evict_silent (server r) now) !! a) as [e'|] eqn:E; [|done].
        apply evict_silent_cluster in E as [E1 E2]. destruct Hg as [[_ Hc]|[Hc Hs]]; congruence. }
    cbn [server pending]. split; [split; [done|]|].
    2: { intros [H|[_ H]]; apply Hg; [by left|]. destruct Hst as [Hst|Hst]; [by right|by left]. }
    destruct Hst as [Hst|Hst]; [|right; by apply Hg; left].
    destruct (silent now e) eqn:E; [right; apply Hg; by right|left].
    by apply evict_silent_cluster.
  - destruct (evict_unconfirmed_spec (server r) now) as (Hcl & _ & _ & Hpe & _).
    cbn [server pending]. rewrite Hcl. setoid_rewrite Hpe. split; [split; [done|]|]; naive_solver.
Qed.

Lemma fading_runs a e tr r r' :
  Forall (fun x => without a x.2) tr -> runs r tr r' -> fading a e r ->
  fading a e r' /\ (gone a r -> gone a r').
Proof.
  intros Htr Hr. induction Hr as [r|r r1 r' now act tr Hs Hr IH]; [done|].
  apply List.Forall_cons_iff in Htr as [Hw Htr]. intros Hf.
  destruct (fading_step _ _ _ _ _ _ Hw Hs Hf) as [Hf1 Hg1]. destruct (IH Htr Hf1) as [Hf2 Hg2].
  split; [done|]. intros Hg. apply Hg2, Hg1. by left.
Qed.

Lemma runs_app r tr1 tr2 r' : runs r (tr1 ++ tr2) r' -> exists r1, runs r tr1 r1 /\ runs r1 tr2 r'.
Proof.
  revert r. induction tr1 as [|[now a] tr1 IH]; intros r; simpl; [by exists r; split; [constructor|]|].
  inversion 1 as [|? r0 ? ? ? ? Hs Hr]; subst. destruct (IH _ Hr) as (r1 & H1 & H2).
  exists r1. split; [by econstructor|done].
Qed.

Lemma own_gossip_peers s now sent st loaded p :
  p ∈ g_peers (own_gossip s now sent st loaded) <->
  p ∈ peers s /\ exists e, cluster s !! p = Some e /\ elapsed now (last_seen e) < PEER_ALIVE.
Proof.
  simpl. rewrite list_elem_of_In, filter_In, <- list_elem_of_In, ordered_elem.
  destruct (cluster s !! p) as [e|]; [rewrite Z.ltb_lt|]; naive_solver.
Qed.

(** ** Theorems *)

(** C8: a forgotten address stays forgotten.  After [forget_peer], for seven days and through
    any interleaving of heartbeats from other nodes that name the address, further forgets and
    evictions, it is neither a peer nor listed, and this node's own heartbeats never name it,
    unless the peer itself speaks. *)
Theorem tombstone_holds r t0 a tr r' now sent st loaded :
  Forall (fun g => g_addr g <> a) (pending r) ->
  Forall (fun '(now, act) => t0 <= now < t0 + FORGET_FOR /\ not_by a act) tr ->
  runs (mkRun (fst (forget_peer (server r) t0 a)) (pending r)) tr r' ->
  a ∉ peers (server r') /\ cluster (server r') !! a = None
  /\ a ∉ g_peers (own_gossip (server r') now sent st loaded).
Proof.
  intros Hp Htr Hr. destruct (buried_runs a t0 tr _ _ Htr Hr (forget_buries _ _ _ Hp)) as (H1 & H2 & _).
  split_and!; [done..|]. rewrite own_gossip_peers. by intros [? _].
Qed.

(** A peer's own heartbeat is always believed.  Unless it is empty or this node's own
    address, after it the peer is listed with exactly this heartbeat, is gossiped with and is no
    longer forgotten; the named peers that were added are neither this node nor forgotten, and
    naming peers never takes the set past the cap. *)
Theorem absorb_gossip_correct s now now' g :
  let s' := absorb_gossip s now now' g in
  if ignored s g then s' = s
  else cluster s' = <[g_addr g := mkEntry g now']> (cluster s)
    /\ g_addr g ∈ peers s' /\ forgotten s' !! g_addr g = None /\ peers s ⊆ peers s'
    /\ (forall p, p ∈ peers s' -> p ∈ peers s \/ p = g_addr g
          \/ (p ∈ g_peers g /\ p <> advertise s /\ (forall u, forgotten s !! p = Some u -> u <= now)))
    /\ Z.of_nat (size (peers s')) <= Z.max MAX_LEARNED (Z.of_nat (size (peers s)) + 1).
Proof.
  unfold absorb_gossip. destruct (ignored s g) eqn:Ei; [done|]. simpl.
  destruct (learn_spec (advertise s) (delete (g_addr g) (live_tombstones now (forgotten s)))
    (g_peers g) ({[g_addr g]} ∪ peers s)) as (H1 & _ & H3).
  split_and!; [done|set_solver|apply lookup_delete_eq|set_solver|exact (absorb_peers_new s now g)|].
  etrans; [exact H3|]. assert (size ({[g_addr g]} ∪ peers s) <= S (size (peers s)))%nat; [|lia].
  rewrite size_union_alt, size_singleton.
  assert (size (peers s ∖ {[g_addr g]}) <= size (peers s))%nat by (apply subseteq_size; set_solver).
  lia.
Qed.

(** C11: a peer that falls silent leaves the cluster.  Whatever else happens, as long as nothing
    is heard from it and nobody names it, the first eviction round a minute or more after its
    last heartbeat leaves it neither listed nor gossiped with, and so it stays. *)
Theorem silent_peer_leaves r a e tr now r' :
  cluster (server r) !! a = Some e -> Forall (fun g => g_addr g <> a) (pending r) ->
  Forall (fun x => without a x.2) tr -> (now, EvictSilent) ∈ tr ->
  PEER_EVICT <= elapsed now (last_seen e) -> runs r tr r' ->
  a ∉ peers (server r') /\ cluster (server r') !! a = None.
Proof.
  intros Hc Hp Htr Hin Hold Hr. apply list_elem_of_split in Hin as (tr1 & tr2 & ->).
  apply runs_app in Hr as (r1 & Hr1 & Hr2). inversion Hr2 as [|? r2 ? ? ? ? Hs Hr3]; subst.
  apply Forall_app in Htr as [Ht1 [Ht Ht2]%List.Forall_cons_iff].
  destruct (fading_runs a e tr1 r r1 Ht1 Hr1) as [Hf1 _]; [by split; [|left]|].
  destruct (fading_step a e now EvictSilent r1 r2 I Hs Hf1) as [Hf2 Hg].
  destruct (fading_runs a e tr2 r2 r' Ht2 Hr3 Hf2) as [_ Hg']. apply Hg', Hg. right.
  split; [done|]. by apply Z.leb_le.
Qed.

(** One round of the gossip loop bounds the age of everything it keeps and drops nothing
    it should keep.  Afterwards every listed heartbeat is less than a minute old and every peer
    is listed or has been known for less than a minute without speaking; a peer whose heartbeat
    is less than a minute old keeps its listing and its place, and what is left is named in this
    node's heartbeats only while less than thirty seconds old. *)
Theorem eviction_round s now now' :
  now <= now' ->
  let s' := evict_unconfirmed (evict_silent s now) now' in
  (forall a e, cluster s' !! a = Some e <-> cluster s !! a = Some e /\ elapsed now (last_seen e) < PEER_EVICT)
  /\ (forall a, a ∈ peers s' -> cluster s' !! a = None ->
        exists t, unconfirmed_since s' !! a = Some t /\ elapsed now' t < PEER_EVICT)
  /\ (forall a e, cluster s !! a = Some e -> a ∈ peers s -> elapsed now (last_seen e) < PEER_EVICT ->
        a ∈ peers s')
  /\ (forall a sent st loaded, a ∈ g_peers (own_gossip s' now' sent st loaded) ->
        exists e, cluster s !! a = Some e /\ elapsed now' (last_seen e) < PEER_ALIVE).
Proof.
  intros Hle s'. destruct (evict_unconfirmed_spec (evict_silent s now) now') as (Hcl & _ & _ & Hpe & Hun).
  fold s' in Hcl, Hpe, Hun.
  assert (Hce : forall a e, cluster s' !! a = Some e <->
    cluster s !! a = Some e /\ elapsed now (last_seen e) < PEER_EVICT).
  { intros a e. rewrite Hcl, evict_silent_cluster. unfold silent. by rewrite Z.leb_gt. }
  split_and!; [exact Hce|..].
  - intros a Ha Hn. rewrite Hcl in Hn. pose proof (Hun a Ha) as Hu. rewrite Hn in Hu.
    eexists. split; [exact Hu|]. apply Hpe in Ha as [_ Ha]. by apply Ha.
  - intros a e He Ha Hage. apply Hpe. split.
    + apply evict_silent_peers. split; [done|]. intros e' He'. simplify_eq. by apply Z.leb_gt.
    + intros Hn. rewrite <- Hcl in Hn. pose proof (proj2 (Hce a e) (conj He Hage)). congruence.
  - intros a sent st loaded Ha. apply own_gossip_peers in Ha as (_ & e & He & Hage).
    exists e. apply Hce in He as [He _]. done.
Qed.

(** The cluster's view is well formed in every run from a fresh gateway: it lists this
    node first, every other node once under its own address and none of them as this one, and
    does not depend on the order in which the hash map yields its entries. *)
Theorem cluster_view_wf me ps tr r entries entries' now own :
  me ∉ ps -> runs (mkRun (mkState me ps ∅ ∅ ∅) []) tr r -> g_addr own = me ->
  yields (cluster (server r)) entries -> yields (cluster (server r)) entries' ->
  let view := cluster_view entries now own in
  NoDup (map addr (nodes view)) /\ map addr (take 1 (nodes view)) = [me]
  /\ (forall a e, cluster (server r) !! a = Some e -> peer_info now e ∈ nodes view)
  /\ cluster_view entries' now own = view.
Proof.
  intros Hps Hr Hown Hy Hy'.
  assert (Hok : run_ok me r).
  { apply (runs_ok me _ _ _) in Hr; [done|]. split_and!; [done..|constructor|done]. }
  destruct (view_addresses me r entries Hok Hy) as [Hnd Hfor].
  assert (Hnd' : NoDup (addr <$> (peer_info now <$> entries))) by (by rewrite <- list_fmap_compose).
  split_and!.
  - simpl. apply NoDup_cons. change (map addr ?l) with (addr <$> l). rewrite sort_by_perm. split; [|done].
    rewrite <- list_fmap_compose. intros (e & Ha & He)%list_elem_of_fmap. apply Hfor in He.
    destruct He as [_ He]. apply He. rewrite <- Hown. by symmetry.
  - simpl. by rewrite Hown.
  - intros a e He. right. rewrite sort_by_perm. apply list_elem_of_fmap_2. rewrite Hy.
    apply list_elem_of_fmap. exists (a, e). by rewrite elem_of_map_to_list.
  - unfold cluster_view. do 2 f_equal. apply sort_by_order_free.
    + intros x y. apply lex_le_total.
    + intros x y z. apply lex_le_trans.
    + change (map ?f ?l) with (f <$> l). by rewrite Hy, Hy'.
    + intros x y Hx Hxy' Hxy Hyx. pose proof (str_le_antisym _ _ Hxy Hyx) as He.
      change (map (peer_info now) entries') with (peer_info now <$> entries') in *.
      rewrite Hy', <- Hy in Hx, Hxy'.
      apply list_elem_of_lookup in Hx as [i Hi], Hxy' as [j Hj].
      assert (i = j); [|congruence]. eapply (NoDup_lookup _ i j (addr x)); [exact Hnd'|..];
        rewrite list_lookup_fmap; [by rewrite Hi|by rewrite Hj, He].
Qed.

(** ** Witnesses: node 1 hears node 2, which names node 9 *)

Definition n1 : bytes := B "10.0.0.1:9400".
Definition n2 : bytes := B "10.0.0.2:9400".
Definition n9 : bytes := B "10.0.0.9:9400".
Definition sample_status : StatusResponse := status mac.
Definition heartbeat : NodeGossip := mkGossip n2 sample_status [] [n9] 0.
Definition heartbeat_9 : NodeGossip := mkGossip n9 sample_status [] [] 0.
Definition fresh_server : ServerState := mkState n1 ∅ ∅ ∅ ∅.
Definition heard_9 : Run := mkRun (absorb_gossip fresh_server 0 0 heartbeat_9) [].

(** Node 9 is forgotten, and node 2 names it. *)
Lemma tombstone_holds_witness :
  n9 ∈ peers (server heard_9)
  /\ n9 ∉ peers (absorb_peers (fst (forget_peer (server heard_9) SECOND n9)) (2 * SECOND) heartbeat).
Proof.
  split; [by_decide|].
  destruct (tombstone_holds heard_9 SECOND n9 [(2 * SECOND, Heard heartbeat)]
    (mkRun (absorb_peers (fst (forget_peer (server heard_9) SECOND n9)) (2 * SECOND) heartbeat)
       [heartbeat]) 0 0 sample_status []) as (H & _ & _).
  - constructor.
  - constructor; [|constructor]. split; [vm_compute; split; [discriminate|reflexivity]|discriminate].
  - econstructor; [|constructor].
    exact (step_heard (2 * SECOND) (mkRun (fst (forget_peer (server heard_9) SECOND n9)) []) heartbeat
      eq_refl).
  - exact H.
Defined.

(** Node 9 spoke at time 0 and the eviction round runs a minute later. *)
Lemma silent_peer_leaves_witness :
  n9 ∉ peers (evict_silent (server heard_9) (60 * SECOND)).
Proof.
  destruct (silent_peer_leaves heard_9 n9 (mkEntry heartbeat_9 0) [(60 * SECOND, EvictSilent)]
    (60 * SECOND) (mkRun (evict_silent (server heard_9) (60 * SECOND)) [])) as [H _].
  - vm_compute; reflexivity.
  - constructor.
  - constructor; [exact I|constructor].
  - apply list_elem_of_singleton; reflexivity.
  - vm_compute; discriminate.
  - econstructor; [|constructor]. exact (step_silent (60 * SECOND) heard_9).
  - exact H.
Defined.

Lemma eviction_round_witness :
  let s' := evict_unconfirmed (evict_silent (server heard_9) (59 * SECOND)) (59 * SECOND) in
  n9 ∈ peers s'.
Proof.
  destruct (eviction_round (server heard_9) (59 * SECOND) (59 * SECOND)) as (_ & _ & H & _); [lia|].
  apply (H n9 (mkEntry heartbeat_9 0)).
  - vm_compute; reflexivity.
  - by_decide.
  - vm_compute; reflexivity.
Defined.

Lemma cluster_view_wf_witness :
  NoDup (map addr (nodes (cluster_view [mkEntry heartbeat 3] 5 (mkGossip n1 sample_status [] [] 0)))).
Proof.
  destruct (cluster_view_wf n1 ∅ [(2, Heard heartbeat); (3, Recorded heartbeat)]
    (mkRun (absorb_cluster (absorb_peers fresh_server 2 heartbeat) 3 heartbeat) [])
    [mkEntry heartbeat 3] [mkEntry heartbeat 3] 5 (mkGossip n1 sample_status [] [] 0)) as (H & _).
  - by_decide.
  - econstructor; [exact (step_heard 2 (mkRun fresh_server []) heartbeat eq_refl)|].
    econstructor; [|constructor].
    exact (step_recorded 3 (mkRun (absorb_peers fresh_server 2 heartbeat) [heartbeat]) heartbeat [] [] eq_refl).
  - reflexivity.
  - unfold yields. reflexivity.
  - unfold yields. reflexivity.
  - exact H.
Defined.

(** A peer known only by name and then forgotten keeps the mark of when it was first seen: named
    again once its tombstone has run out, it is dropped in the first round, without its minute. *)
Example forgotten_peer_loses_grace :
  let day := 24 * 3600 * SECOND in
  let s := absorb_gossip fresh_server 0 0 heartbeat in
  let s := evict_unconfirmed s SECOND in
  let s := fst (forget_peer s (2 * SECOND) n9) in
  let s := absorb_gossip s (8 * day) (8 * day) heartbeat in
  bool_decide (n9 ∈ peers s) = true
  /\ bool_decide (n9 ∈ peers (evict_unconfirmed (evict_silent s (8 * day)) (8 * day))) = false.
Proof. vm_compute. split; reflexivity. Qed.
