(* ===== verification/Announce.v ===== *)
(** * What a gateway says of its cluster over UDP (crates/prod-code-gateway/src/gossip.rs)

    The announcement lines built from the membership, the answer to a discovery probe and the
    answer to a DNS query, and what a client makes of them: the composition of the membership,
    discovery and DNS components. *)

From Stdlib Require Import Strings.Byte.
From stdpp Require Import gmap.
From S2P Require Import Prelude RustStr F64 Net Status Placement Membership Sync Dns Discovery SmartDns.

Definition MB : Z := 1024 * 1024.
Definition as_u32 (z : Z) : Z := z `mod` 2 ^ 32.

(** [e.split(' ').next().unwrap_or(e)]: the engine without its server. *)
Definition engine_name (e : bytes) : bytes := default e (head (split x20 e)).

(** ** The engines a node advertises *)

Definition serves_engine (allowlist : list bytes) (eng : bytes) : bool :=
  match allowlist with
  | [] => true
  | _ => existsb (fun allowed => eq_ignore_ascii_case allowed eng) allowlist
  end.

(** [advertised_engines], from the installed ones. *)
Definition advertised_engines (allowlist available : list bytes) : list bytes :=
  match allowlist with
  | [] => available
  | _ => List.filter (fun entry =>
           let name := engine_name entry in
           let name := default name (strip_suffix (B "-lsp") name) in
           serves_engine allowlist name) available
  end.

(** ** Lines *)

Definition engines_csv (es : list bytes) : bytes := join (B ",") (map engine_name es).

Definition rss_megabytes (st : StatusResponse) : Z := default 0 (memory_rss_bytes st) `div` MB.
Definition load_or_zero (st : StatusResponse) : f64 := default fzero (Status.load_per_cpu st).
Definition cpus_u32 (st : StatusResponse) : Z := as_u32 (default 0 (cpu_count st)).
Definition total_megabytes (st : StatusResponse) : Z :=
  default 0 (memory_total_bytes (host st)) `div` MB.
Definition avail_megabytes (st : StatusResponse) : Z :=
  default 0 (memory_available_bytes (host st)) `div` MB.

(** A workspace of a heartbeat or of the loaded summary, as a line has it. *)
Definition line_workspace (w : LoadedWorkspaceInfo) : bytes * bytes * Z :=
  (Placement.name w, Placement.ws_engine w, as_u32 (Placement.sessions w)).

Section lines.
Context `{!Hmac}.

Definition build_own_minimal_announce (s : ServerState) (es : list bytes) (token : option bytes)
    : bytes :=
  format_minimal_node_line (advertise s) (engines_csv es) token.

(** [es] are the engines advertised, [st] the status, [loaded] the loaded workspaces and
    [active] the sessions counted at that moment. *)
Definition build_own_announce (s : ServerState) (es : list bytes) (st : StatusResponse)
    (loaded : list LoadedWorkspaceInfo) (active : Z) (token n : option bytes) : bytes :=
  format_node_line_with_nonce (advertise s) (engines_csv es) (rss_megabytes st) (load_or_zero st)
    (cpus_u32 st) (total_megabytes st) (avail_megabytes st) (as_u32 active)
    (map line_workspace loaded) token n.

(** The sum of the sessions, wrapping as [u32] sums do in release builds. *)
Definition peer_sessions (g : NodeGossip) : Z :=
  foldl (fun acc w => as_u32 (acc + as_u32 (Placement.sessions w))) 0 (g_workspaces g).

Definition build_peer_announce (e : PeerEntry) (token n : option bytes) : bytes :=
  let g := gossip e in
  let st := g_status g in
  format_node_line_with_nonce (g_addr g) (engines_csv (detected_engines st)) (rss_megabytes st)
    (load_or_zero st) (cpus_u32 st) (total_megabytes st) (avail_megabytes st) (peer_sessions g)
    (map line_workspace (g_workspaces g)) token n.

(** ** Answers *)

Definition recent (now : Z) (e : PeerEntry) : bool := elapsed now (last_seen e) <? PEER_ALIVE.

(** The reply to a probe, with the peers in the order [entries] the hash map yields them. *)
Definition probe_reply (s : ServerState) (entries : list PeerEntry) (now : Z) (es : list bytes)
    (st : StatusResponse) (loaded : list LoadedWorkspaceInfo) (active : Z) (token : option bytes)
    (buf : bytes) : option bytes :=
  n ← inspect_probe buf token;
  Some (build_reply (build_own_announce s es st loaded active token n)
          (map (fun e => build_peer_announce e token n) (List.filter (recent now) entries))).
End lines.

Definition line_node (a : SocketAddr) (es : list bytes) (st : StatusResponse) (sess : Z)
    (loaded : list LoadedWorkspaceInfo) (n : option bytes) : DiscoveredNode :=
  mkNode a (map engine_name es) (rss_megabytes st) (load_or_zero st) (cpus_u32 st)
    (total_megabytes st) (avail_megabytes st) sess
    (map (fun w => let '(n, e, s) := line_workspace w in mkLoaded n e s) loaded) n.

Definition peer_node (now : Z) (e : PeerEntry) : option DiscoveredNode :=
  if recent now e then
    a ← parse_socket_addr (g_addr (gossip e));
    Some (line_node a (detected_engines (g_status (gossip e))) (g_status (gossip e))
            (peer_sessions (gossip e)) (g_workspaces (gossip e)) None)
  else None.

(** The nodes a DNS query is answered from. *)
Definition dns_nodes (s : ServerState) (entries : list PeerEntry) (now : Z) (es : list bytes)
    (st : StatusResponse) (loaded : list LoadedWorkspaceInfo) (active : Z)
    : option (list DiscoveredNode) :=
  own ← parse_socket_addr (advertise s);
  Some (sort_nodes (line_node own es st (as_u32 active) loaded None :: omap (peer_node now) entries)).

Definition handle_gateway_dns_query (s : ServerState) (entries : list PeerEntry) (now : Z)
    (es : list bytes) (st : StatusResponse) (loaded : list LoadedWorkspaceInfo) (active : Z)
    (buf : bytes) : option bytes :=
  nodes ← dns_nodes s entries now es st loaded active; handle_dns_packet buf nodes.

(** ** Well-formed reports *)

Definition opt_within (max : Z) (o : option Z) : Prop := forall z, o = Some z -> 0 <= z <= max.

(** The figures of a status are of the width its fields have. *)
Definition wf_status (st : StatusResponse) : Prop :=
  opt_within u64_max (memory_rss_bytes st) /\ opt_within u64_max (memory_total_bytes (host st))
  /\ opt_within u64_max (memory_available_bytes (host st)).

Definition wf_engines (es : list bytes) : Prop :=
  es <> [] /\ Forall (fun e => wf_engine (engine_name e)) es.

Definition wf_loaded (w : LoadedWorkspaceInfo) : Prop :=
  utf8_valid (Placement.name w) = true /\ graphic (Placement.ws_engine w)
  /\ (x2c ∉ Placement.ws_engine w) /\ (x3a ∉ Placement.ws_engine w).

(** ** Lemmas *)

Lemma as_u32_range z : 0 <= as_u32 z <= u32_max.
Proof. unfold as_u32, u32_max. pose proof (Z.mod_pos_bound z (2 ^ 32)). lia. Qed.

Lemma megabytes_range o : opt_within u64_max o -> 0 <= default 0 o `div` MB <= u64_max.
Proof.
  intros H. destruct o as [z|]; simpl; [|by vm_compute]. specialize (H z eq_refl). unfold id.
  unfold MB. split; [apply Z.div_pos; lia|]. etrans; [apply Z.div_le_upper_bound|apply H]; lia.
Qed.

Lemma peer_sessions_range g : 0 <= peer_sessions g <= u32_max.
Proof.
  unfold peer_sessions.
  assert (H : forall ws z, 0 <= z <= u32_max ->
    0 <= foldl (fun acc w => as_u32 (acc + as_u32 (Placement.sessions w))) z ws <= u32_max).
  { induction ws as [|w ws IH]; intros z Hz; simpl; [done|]. apply IH, as_u32_range. }
  apply H. by vm_compute.
Qed.

Lemma wf_workspaces ws : Forall wf_loaded ws -> Forall wf_workspace (map line_workspace ws).
Proof.
  intros H. apply Forall_map. eapply Forall_impl; [exact H|]. intros w (? & ? & ? & ?).
  unfold line_workspace, wf_workspace. split_and!; try done; apply as_u32_range.
Qed.

Definition printable (s : bytes) : Prop := Forall (fun b => 32 <= u8 b <= 126) s.

Lemma graphic_printable s : graphic s -> printable s.
Proof. intros H. eapply Forall_impl; [exact H|]. intros b Hb%graphic_range. lia. Qed.

Lemma words_printable ws : Forall word ws -> printable (join (B " ") ws).
Proof.
  induction ws as [|w ws IH]; intros Hws; [constructor|].
  apply List.Forall_cons_iff in Hws as [[Hg _] Hws]. apply graphic_printable in Hg.
  destruct ws as [|w' ws]; [done|].
  change (join (B " ") (w :: w' :: ws)) with (w ++ B " " ++ join (B " ") (w' :: ws)).
  apply Forall_app. split; [done|]. constructor; [by vm_compute|]. by apply IH.
Qed.

Lemma printable_no c s : u8 c < 32 -> printable s -> c ∉ s.
Proof. intros Hc Hs Hin. unfold printable in Hs. rewrite Forall_forall in Hs. specialize (Hs c Hin). simpl in Hs. lia. Qed.

Lemma strip_cr_plain s : x0d ∉ s -> strip_cr s = s.
Proof.
  intros H. unfold strip_cr. destruct (strip_suffix [x0d] s) as [r|] eqn:E; [|done].
  exfalso. apply H. unfold strip_suffix in E. destruct (strip_prefix _ _) as [q|] eqn:E2; [|done].
  apply strip_prefix_Some in E2. rewrite <- (reverse_involutive s), E2.
  apply elem_of_reverse. by left.
Qed.

(** The lines of a reply are those it was built from. *)
Lemma lines_build_reply own ps :
  printable own -> Forall printable ps -> lines (build_reply own ps) = own :: ps.
Proof.
  intros Ho Hp. unfold build_reply.
  assert (Hl : forall p s, printable p -> lines (p ++ [x0a] ++ s) = p :: lines s).
  { intros p s Hpp. change ([x0a] ++ s) with (x0a :: s).
    rewrite lines_first, strip_cr_plain; [done|by apply printable_no..]. }
  rewrite Hl by done. f_equal. induction Hp as [|p ps Hpp _ IH]; [done|]. simpl concat.
  rewrite <- app_assoc, Hl by done. by rewrite IH.
Qed.

Lemma printable_ascii s : printable s -> ascii s.
Proof.
  intros H. eapply Forall_impl; [exact H|]. intros b Hb. simpl in Hb.
  unfold is_ascii. lia.
Qed.

Lemma reply_utf8 own ps :
  printable own -> Forall printable ps -> utf8_valid (build_reply own ps) = true.
Proof.
  intros Ho Hp. apply utf8_valid_ascii. unfold build_reply.
  apply Forall_app. split; [by apply printable_ascii|]. constructor; [done|].
  induction Hp as [|p ps Hpp _ IH]; [constructor|]. simpl. rewrite <- app_assoc.
  apply Forall_app. split; [by apply printable_ascii|]. by constructor.
Qed.

Section answers.
Context `{!Hmac} `{!HmacLaws}.

(** A line's text: the tag and the fields, all of them words. *)
Lemma line_words advertise csv rss load ncpus total avail sess ws token n :
  word advertise -> word csv -> 0 <= rss -> 0 <= ncpus -> 0 <= total -> 0 <= avail -> 0 <= sess ->
  Forall wf_workspace ws -> (forall x, n = Some x -> word x) ->
  exists tag rest,
    format_node_line_with_nonce advertise csv rss load ncpus total avail sess ws token n
    = NODE_PREFIX ++ join (B " ") (tag :: advertise :: rest)
    /\ Forall word (tag :: advertise :: rest) /\ parse_socket_addr tag = None.
Proof.
  intros Hadv Hcsv ? ? ? ? ? Hws Hn.
  pose proof (canonical_fields advertise csv rss load ncpus total avail sess (workspaces_csv ws) n
    ltac:(done) ltac:(done) ltac:(done) ltac:(done) ltac:(done) ltac:(done) ltac:(done)
    (workspaces_csv_word ws Hws) Hn) as Hf.
  unfold format_node_line_with_nonce.
  destruct (tag_no_addr token (canonical_announce_payload_with_nonce advertise csv rss load ncpus total
    avail sess (workspaces_csv ws) n)) as [Hno Htag].
  eexists _, _. split_and!; [reflexivity|by constructor|exact Hno].
Qed.

Lemma spoofed_line advertise tag rest a from tok expected :
  Forall word (tag :: advertise :: rest) -> parse_socket_addr tag = None ->
  parse_socket_addr advertise = Some a -> is_spoofed (Some from) a = true ->
  parse_node_line_with_auth_and_nonce (NODE_PREFIX ++ join (B " ") (tag :: advertise :: rest)) tok
    (Some from) expected = None.
Proof.
  intros Hw Ht Ha Hs. unfold parse_node_line_with_auth_and_nonce.
  rewrite strip_prefix_app. bind_step. rewrite split_words, Ht, Ha by done.
  bind_step. unfold parse_fields. by rewrite Hs.
Qed.

Lemma prefix_printable s : printable s -> printable (NODE_PREFIX ++ s).
Proof.
  intros Hs. apply Forall_app. split; [|done]. by_decide.
Qed.

Lemma engines_csv_word es : wf_engines es -> word (engines_csv es).
Proof.
  intros [Hne Hes]. unfold engines_csv. split.
  - apply join_graphic; [by repeat constructor|]. apply Forall_map.
    eapply Forall_impl; [exact Hes|]. intros e [[? _] _]. done.
  - destruct es as [|e es]; [done|]. simpl map. apply join_nonempty.
    apply List.Forall_cons_iff in Hes as [[[_ ?] _] _]. done.
Qed.

(** A peer whose line can be told: its heartbeat is printable. *)
Definition wf_peer (g : NodeGossip) : Prop :=
  word (g_addr g) /\ wf_engines (detected_engines (g_status g)) /\ wf_status (g_status g)
  /\ Forall wf_loaded (g_workspaces g).

Lemma peer_line_facts e token n :
  wf_peer (gossip e) -> (forall x, n = Some x -> word x) ->
  printable (build_peer_announce e token n)
  /\ (forall a from tok expected, parse_socket_addr (g_addr (gossip e)) = Some a ->
        is_spoofed (Some from) a = true ->
        parse_node_line_with_auth_and_nonce (build_peer_announce e token n) tok (Some from) expected
        = None).
Proof.
  intros (Ha & He & (Hs1 & Hs2 & Hs3) & Hw) Hn.
  destruct (line_words (g_addr (gossip e)) (engines_csv (detected_engines (g_status (gossip e))))
    (rss_megabytes (g_status (gossip e))) (load_or_zero (g_status (gossip e)))
    (cpus_u32 (g_status (gossip e))) (total_megabytes (g_status (gossip e)))
    (avail_megabytes (g_status (gossip e))) (peer_sessions (gossip e))
    (map line_workspace (g_workspaces (gossip e))) token n) as (tag & rest & Heq & Hws & Ht);
    [done|by apply engines_csv_word|by apply megabytes_range|apply as_u32_range
    |by apply megabytes_range|by apply megabytes_range|apply peer_sessions_range
    |by apply wf_workspaces|done|].
  unfold build_peer_announce. rewrite Heq. split.
  - by apply prefix_printable, words_printable.
  - intros. by apply (spoofed_line _ _ _ a).
Qed.

Lemma own_line_facts s es st loaded active token n :
  word (advertise s) -> wf_engines es -> wf_status st -> Forall wf_loaded loaded ->
  (forall x, n = Some x -> word x) -> printable (build_own_announce s es st loaded active token n).
Proof.
  intros Ha He (Hs1 & Hs2 & Hs3) Hw Hn.
  destruct (line_words (advertise s) (engines_csv es) (rss_megabytes st) (load_or_zero st)
    (cpus_u32 st) (total_megabytes st) (avail_megabytes st) (as_u32 active)
    (map line_workspace loaded) token n) as (tag & rest & Heq & Hws & Ht);
    [done|by apply engines_csv_word|by apply megabytes_range|apply as_u32_range
    |by apply megabytes_range|by apply megabytes_range|apply as_u32_range
    |by apply wf_workspaces|done|].
  unfold build_own_announce. rewrite Heq. by apply prefix_printable, words_printable.
Qed.

(** The node a client makes of this gateway's line: the load is the printed one. *)
Definition read_own (a : SocketAddr) (es : list bytes) (st : StatusResponse)
    (loaded : list LoadedWorkspaceInfo) (active : Z) (n : option bytes) : DiscoveredNode :=
  mkNode a (map engine_name es) (rss_megabytes st) (reread_load (load_or_zero st)) (cpus_u32 st)
    (total_megabytes st) (avail_megabytes st) (as_u32 active)
    (map (fun '(n, e, s) => mkLoaded n e s) (map line_workspace loaded)) n.

Lemma own_line_parsed s a es st loaded active token n :
  word (advertise s) -> parse_socket_addr (advertise s) = Some a -> wf_engines es ->
  wf_status st -> stable_load (load_or_zero st) -> Forall wf_loaded loaded ->
  (forall x, n = Some x -> word x) ->
  parse_node_line_with_auth_and_nonce (build_own_announce s es st loaded active token n) token
    (Some (ip a)) n = Some (read_own a es st loaded active n).
Proof.
  intros Ha Hp [Hne He] (Hs1 & Hs2 & Hs3) Hl Hw Hn. unfold build_own_announce, engines_csv, read_own.
  apply announce_parsed; try done; try (by apply megabytes_range); try apply as_u32_range.
  - unfold is_spoofed. rewrite bool_decide_eq_true_2 by done. by rewrite !andb_false_r.
  - by destruct es.
  - by apply Forall_map.
  - by apply wf_workspaces.
  - by right.
Qed.

(** The client drops the lines of peers on other hosts. *)
Lemma spoofed_lines_dropped entries token c from nodes :
  (forall x, Some c = Some x -> word x) ->
  Forall (fun e => wf_peer (gossip e) /\ exists a,
    parse_socket_addr (g_addr (gossip e)) = Some a /\ is_spoofed (Some from) a = true) entries ->
  Forall printable (map (fun e => build_peer_announce e token (Some c)) entries)
  /\ foldl (fun nodes line =>
        match parse_node_line_with_auth_and_nonce line token (Some from) (Some c) with
        | Some n => or_insert nodes n
        | None => nodes
        end) nodes (map (fun e => build_peer_announce e token (Some c)) entries) = nodes.
Proof.
  intros Hc He. induction He as [|e entries (Hw & a & Ha & Hs) _ [IH1 IH2]]; [by split|]. simpl.
  destruct (peer_line_facts e token (Some c) Hw Hc) as [Hp Hd].
  split; [by constructor|]. by rewrite (Hd a from token (Some c) Ha Hs).
Qed.

(** A probe is answered, and its answer names the answering gateway only.  The gateway
    replies to the probe a client with the same token sends, and the client reads from the reply
    this gateway with its engines, counters, workspaces and the challenge; of the peers the reply
    also lists, the client drops each one that advertises another host than the sender's. *)
Theorem probe_answered s a entries now es st loaded active token c :
  word (advertise s) -> parse_socket_addr (advertise s) = Some a -> wf_engines es ->
  wf_status st -> stable_load (load_or_zero st) -> Forall wf_loaded loaded -> word c ->
  Forall (fun e => recent now e = true -> wf_peer (gossip e) /\ exists b,
    parse_socket_addr (g_addr (gossip e)) = Some b /\ is_spoofed (Some (ip a)) b = true) entries ->
  exists reply,
    probe_reply s entries now es st loaded active token (format_probe_with_nonce token (Some c))
    = Some reply
    /\ (forall e, e ∈ entries -> recent now e = true ->
          build_peer_announce e token (Some c) ∈ lines reply)
    /\ collect_replies token c [(reply, ip a)] = [read_own a es st loaded active (Some c)].
Proof.
  intros Ha Hp He Hs Hl Hw Hc Hpeers.
  assert (Hn : forall x, Some c = Some x -> word x) by (by intros x [= <-]).
  unfold probe_reply. rewrite probe_inspected by done. bind_step.
  assert (Hrec : Forall (fun e => wf_peer (gossip e) /\ exists b,
    parse_socket_addr (g_addr (gossip e)) = Some b /\ is_spoofed (Some (ip a)) b = true)
    (List.filter (recent now) entries)).
  { rewrite Forall_forall in Hpeers |- *. intros e He'. apply list_elem_of_In, filter_In in He' as [Hin Hr].
    apply Hpeers; [by apply list_elem_of_In|done]. }
  set (own := build_own_announce s es st loaded active token (Some c)).
  destruct (spoofed_lines_dropped _ token c (ip a) (or_insert [] (read_own a es st loaded active (Some c)))
    Hn Hrec) as [Hpr Hdrop].
  assert (Hown : printable own) by (by apply own_line_facts).
  eexists. split; [reflexivity|]. rewrite lines_build_reply by done. split.
  - intros e Hin Hr. right. apply list_elem_of_In.
    apply (in_map (fun e => build_peer_announce e token (Some c))), filter_In.
    by rewrite <- list_elem_of_In.
  - unfold collect_replies, collect_datagram. cbn [foldl]. rewrite reply_utf8, lines_build_reply by done.
    cbn [foldl]. unfold own. rewrite own_line_parsed by done. exact Hdrop.
Qed.

End answers.

(** ** DNS *)

Lemma dns_nodes_order_free s entries entries' now es st loaded active nodes :
  entries ≡ₚ entries' -> dns_nodes s entries now es st loaded active = Some nodes ->
  NoDup (addr <$> nodes) -> Forall (fun n => wf_addr (addr n)) nodes ->
  dns_nodes s entries' now es st loaded active = Some nodes.
Proof.
  unfold dns_nodes. destruct (parse_socket_addr (advertise s)) as [own|]; [|done].
  bind_step. intros Hp Hnodes Hnd Hwf. apply Some_inj in Hnodes. subst nodes. f_equal.
  assert (Hperm : line_node own es st (as_u32 active) loaded None :: omap (peer_node now) entries
    ≡ₚ line_node own es st (as_u32 active) loaded None :: omap (peer_node now) entries')
    by (constructor; by rewrite Hp).
  pose proof (sort_nodes_perm (line_node own es st (as_u32 active) loaded None
    :: omap (peer_node now) entries)) as Hsort.
  rewrite Hsort in Hnd. rewrite Hsort in Hwf. symmetry. by apply sort_nodes_order_free.
Qed.

(** A DNS lookup of the cluster finds exactly the nodes the gateway counts as live.  The
    service query is answered with one record for the gateway itself and one for each peer heard
    within thirty seconds whose address parses, whatever the order the hash map yields them in. *)
Theorem gateway_dns_complete s entries entries' now es st loaded active own :
  parse_socket_addr (advertise s) = Some own ->
  let live := line_node own es st (as_u32 active) loaded None :: omap (peer_node now) entries in
  NoDup (addr <$> live) -> Forall (fun n => wf_addr (addr n)) live -> zlen live < 65536 ->
  entries ≡ₚ entries' ->
  exists reply,
    handle_gateway_dns_query s entries' now es st loaded active (build_query SRV_SERVICE_DOMAIN SRV)
    = Some reply
    /\ parse_reply reply
       = Ok (map (fun n => mkAnswer SRV_SERVICE_DOMAIN 60 (DataSRV (srv_record n))) (sort_nodes live))
    /\ (forall n, n ∈ sort_nodes live <->
          n = line_node own es st (as_u32 active) loaded None
          \/ exists e, e ∈ entries /\ peer_node now e = Some n).
Proof.
  intros Hown live Hnd Hwf Hlen Hp. pose proof (sort_nodes_perm live) as Hperm.
  assert (Hd : dns_nodes s entries' now es st loaded active = Some (sort_nodes live)).
  { eapply dns_nodes_order_free; [exact Hp|unfold dns_nodes; by rewrite Hown|..].
    - fold live. by rewrite Hperm.
    - fold live. by rewrite Hperm. }
  unfold handle_gateway_dns_query. rewrite Hd. bind_step.
  destruct (srv_answered (sort_nodes live)) as (reply & Hr & Hparse);
    [by rewrite Hperm|unfold zlen in *; by rewrite (Permutation_length Hperm)|].
  exists reply. split_and!; [done| |].
  - rewrite Hparse. do 2 f_equal. apply sort_nodes_order_free; [done|by rewrite Hperm|by rewrite Hperm].
  - intros n. rewrite Hperm. unfold live. rewrite elem_of_cons, list_elem_of_omap. done.
Qed.

(** ** Witnesses: a gateway at 10.0.0.1 that has just heard 10.0.0.2 *)

Definition sample_loaded : list LoadedWorkspaceInfo := [Placement.mkLoaded (B "my shop") (B "rust") 1].
Definition own_engines : list bytes := [B "rust (rust-analyzer)"; B "go (gopls)"].
Definition peer_entry : PeerEntry := mkEntry (mkGossip n2 sample_status sample_loaded [] 0) 0.
Definition own_addr : SocketAddr := socket_new (V4 x0a x00 x00 x01) 9400.

Lemma sample_printable :
  word n1 /\ word n2 /\ wf_engines own_engines /\ wf_engines (detected_engines sample_status)
  /\ Forall wf_loaded sample_loaded /\ wf_status sample_status.
Proof.
  assert (Hw : forall w, graphic w -> w <> [] -> word w) by (by split).
  split_and!; try (apply Hw; [by_decide|discriminate]).
  1,2: split; [discriminate|]; repeat constructor;
    try discriminate; by_decide.
  - constructor; [|constructor]. split_and!; [by vm_compute|..];
      by_decide.
  - unfold wf_status, opt_within. cbn. split_and!; intros z Hz; simplify_eq; by vm_compute.
Qed.

Lemma probe_answered_witness :
  exists reply,
    probe_reply fresh_server [peer_entry] SECOND own_engines sample_status sample_loaded 1
      (Some (B "secret")) (format_probe_with_nonce (Some (B "secret")) (Some (B "abc"))) = Some reply
    /\ collect_replies (Some (B "secret")) (B "abc") [(reply, ip own_addr)]
       = [read_own own_addr own_engines sample_status sample_loaded 1 (Some (B "abc"))].
Proof.
  pose proof sample_printable as (H1 & H2 & H3 & H4 & H5 & H6).
  destruct (probe_answered fresh_server own_addr [peer_entry] SECOND own_engines sample_status
    sample_loaded 1 (Some (B "secret")) (B "abc")) as (reply & Hr & _ & Hc).
  - exact H1.
  - vm_compute; reflexivity.
  - exact H3.
  - exact H6.
  - by_decide.
  - exact H5.
  - split; [repeat constructor|discriminate].
  - constructor; [|constructor]. intros _. split; [split_and!; assumption|].
    exists (socket_new (V4 x0a x00 x00 x02) 9400). split; vm_compute; reflexivity.
  - exists reply. split; [exact Hr|exact Hc].
Defined.

Lemma gateway_dns_complete_witness :
  exists reply,
    handle_gateway_dns_query fresh_server [peer_entry] SECOND own_engines sample_status sample_loaded 1
      (build_query SRV_SERVICE_DOMAIN SRV) = Some reply.
Proof.
  destruct (gateway_dns_complete fresh_server [peer_entry] [peer_entry] SECOND own_engines
    sample_status sample_loaded 1 own_addr) as (reply & Hr & _).
  - vm_compute; reflexivity.
  - by_decide.
  - repeat constructor; vm_compute; discriminate.
  - vm_compute; reflexivity.
  - reflexivity.
  - exists reply. exact Hr.
Defined.
