(* ===== verification/TailBuffer.v ===== *)
(** * The output kept of a command (crates/prod-code-gateway/src/shadow/tail_buffer.rs)

    A command's output is kept to its last bytes, and the sections of compiler errors and test
    failures apart, so that warnings do not push them out. *)

From Stdlib Require Import Strings.Byte.
From S2P Require Import Prelude RustStr.

(** ** Lines of diagnostics *)

Definition is_diagnostic_error_header (line : bytes) : bool :=
  let trimmed := trim_start line in
  let rust_error :=
    match strip_prefix (B "error") trimmed with
    | Some rest =>
        let is_code := starts_with (B "[") rest && contains (B "]:") rest in
        let is_colon := starts_with (B ":") rest in
        if is_code || is_colon then
          let msg := match split_once (B ":") rest with Some (_, m) => trim m | None => [] end in
          negb (starts_with (B "could not compile") msg)
          && negb (starts_with (B "aborting due to") msg)
          && negb (starts_with (B "build failed") msg)
        else false
    | None => false
    end in
  if rust_error then true
  else if contains (B ": error:") trimmed || contains (B " - error TS") trimmed then true
  else (starts_with (B "---- ") trimmed && ends_with (B " stdout ----") trimmed)
       || (starts_with (B "thread '") trimmed && contains (B "' panicked at ") trimmed)
       || starts_with (B "--- FAIL: ") trimmed
       || starts_with (B "FAILED ") trimmed.

Definition is_diagnostic_boundary (line : bytes) : bool :=
  let trimmed := trim_start line in
  starts_with (B "warning:") trimmed
  || (starts_with (B "warning[") trimmed && contains (B "]:") trimmed)
  || contains (B ": warning:") trimmed
  || contains (B " - warning TS") trimmed
  || is_diagnostic_error_header line
  || starts_with (B "Compiling ") trimmed
  || starts_with (B "Checking ") trimmed
  || starts_with (B "Finished ") trimmed
  || starts_with (B "error: could not compile") trimmed
  || starts_with (B "error: aborting due to") trimmed.

(** ** The buffer *)

Record TailBuffer := mkTail {
  limit : Z;
  buf : bytes;
  total : Z;
  retained_errors : bytes;
  line_buf : bytes;
  recording_error : bool
}.

Definition new (lim : Z) : TailBuffer := mkTail (Z.max lim 1) [] 0 [] [] false.

(** A line has ended: whether errors are being recorded, and what is retained. *)
Definition end_line (lim : Z) (st : bytes * bool) (line : bytes) : bytes * bool :=
  let line_str := utf8_lossy line in
  let recording := if is_diagnostic_error_header line_str then true
                   else if snd st && is_diagnostic_boundary line_str then false
                   else snd st in
  (if recording && (zlen (fst st) <? lim) then fst st ++ line else fst st, recording).

(** One byte of the loop of [push]. *)
Definition push_byte (t : TailBuffer) (b : byte) : TailBuffer :=
  let line := line_buf t ++ [b] in
  if Byte.eqb b x0a then
    let (errors, recording) := end_line (limit t) (retained_errors t, recording_error t) line in
    mkTail (limit t) (buf t) (total t) errors [] recording
  else mkTail (limit t) (buf t) (total t) (retained_errors t) line (recording_error t).

Definition push (t : TailBuffer) (data : bytes) : TailBuffer :=
  let buf' := buf t ++ data in
  let kept := if limit t <? zlen buf' then zdrop (zlen buf' - limit t) buf' else buf' in
  foldl push_byte
    (mkTail (limit t) kept (total t + zlen data) (retained_errors t) (line_buf t) (recording_error t))
    data.

Definition to_output (t : TailBuffer) : bytes :=
  match retained_errors t with
  | [] => buf t
  | _ =>
      if total t <=? limit t then buf t
      else
        let first_line := default [] (head (split x0a (retained_errors t))) in
        if negb (bool_decide (first_line = [])) && contains first_line (buf t) then buf t
        else
          let out := retained_errors t in
          let out := if ends_with [x0a] out then out else out ++ [x0a] in
          out ++ [x0a] ++ B "[... output truncated ...]" ++ [x0a] ++ buf t
  end.

(** ** Lemmas *)

(** The last [n] bytes. *)
Definition last_bytes (n : Z) (s : bytes) : bytes := zdrop (Z.max 0 (zlen s - n)) s.

Lemma kept_last n s : (if n <? zlen s then zdrop (zlen s - n) s else s) = last_bytes n s.
Proof.
  unfold last_bytes. destruct (n <? zlen s) eqn:E.
  - apply Z.ltb_lt in E. by rewrite Z.max_r by lia.
  - apply Z.ltb_ge in E. by rewrite Z.max_l by lia.
Qed.

Lemma last_bytes_app n s d : 0 <= n -> last_bytes n (last_bytes n s ++ d) = last_bytes n (s ++ d).
Proof.
  intros Hn. unfold last_bytes. set (k := Z.max 0 (zlen s - n)).
  assert (Hk : 0 <= k <= zlen s) by (pose proof (zlen_nonneg s); lia).
  assert (Hs : s ++ d = ztake k s ++ (zdrop k s ++ d)) by (by rewrite app_assoc, ztake_zdrop).
  assert (Hzs : zlen (ztake k s) = k) by (by apply zlen_ztake).
  assert (Hzd : zlen (zdrop k s) = zlen s - k) by (apply zlen_zdrop; lia).
  pose proof (zlen_nonneg d). rewrite zlen_app, Hzd, zlen_app.
  rewrite <- (zdrop_app_exact (ztake k s) (zdrop k s ++ d) k) at 1 by done.
  rewrite <- Hs, zdrop_zdrop by lia. f_equal. lia.
Qed.

Lemma push_byte_fixed t b :
  limit (push_byte t b) = limit t /\ buf (push_byte t b) = buf t /\ total (push_byte t b) = total t.
Proof.
  unfold push_byte. destruct (Byte.eqb b x0a); [|done].
  by destruct (end_line (limit t) (retained_errors t, recording_error t) (line_buf t ++ [b])).
Qed.

Lemma push_bytes_fixed d t :
  let t' := foldl push_byte t d in limit t' = limit t /\ buf t' = buf t /\ total t' = total t.
Proof.
  revert t. induction d as [|b d IH]; intros t; simpl; [done|].
  destruct (IH (push_byte t b)) as (-> & -> & ->). apply push_byte_fixed.
Qed.

(** The lines of a stream that have ended, with their line feeds. *)
Fixpoint ended_lines (cur d : bytes) : list bytes :=
  match d with
  | [] => []
  | b :: d' => if Byte.eqb b x0a then (cur ++ [b]) :: ended_lines [] d'
               else ended_lines (cur ++ [b]) d'
  end.

Lemma push_bytes_errors d t :
  let t' := foldl push_byte t d in
  (retained_errors t', recording_error t')
  = foldl (end_line (limit t)) (retained_errors t, recording_error t) (ended_lines (line_buf t) d).
Proof.
  revert t. induction d as [|b d IH]; intros t; [done|]. cbn [foldl ended_lines].
  rewrite IH. destruct (push_byte_fixed t b) as (-> & _ & _).
  unfold push_byte. destruct (Byte.eqb b x0a) eqn:E; [|done]. cbn [foldl].
  by destruct (end_line (limit t) (retained_errors t, recording_error t) (line_buf t ++ [b])).
Qed.

(** The parts of a buffer the byte loop does not read or change can be swapped. *)
Definition with_tail (t : TailBuffer) (k : bytes) (n : Z) : TailBuffer :=
  mkTail (limit t) k n (retained_errors t) (line_buf t) (recording_error t).

Lemma push_byte_tail t k n b : push_byte (with_tail t k n) b = with_tail (push_byte t b) k n.
Proof.
  unfold push_byte. cbn [with_tail line_buf limit retained_errors recording_error].
  destruct (Byte.eqb b x0a); [|done].
  by destruct (end_line (limit t) (retained_errors t, recording_error t) (line_buf t ++ [b])).
Qed.

Lemma push_bytes_tail d t k n :
  foldl push_byte (with_tail t k n) d = with_tail (foldl push_byte t d) k n.
Proof.
  revert t. induction d as [|b d IH]; intros t; simpl; [done|]. by rewrite push_byte_tail, IH.
Qed.

Lemma push_alt t d :
  push t d = with_tail (foldl push_byte t d) (last_bytes (limit t) (buf t ++ d)) (total t + zlen d).
Proof. unfold push. rewrite kept_last. apply (push_bytes_tail d t). Qed.

Lemma push_app t a b : 0 <= limit t -> push (push t a) b = push t (a ++ b).
Proof.
  intros Hl. rewrite (push_alt (push t a)), (push_alt t a), (push_alt t (a ++ b)).
  rewrite push_bytes_tail, foldl_app. unfold with_tail. cbn [limit buf total retained_errors line_buf recording_error].
  destruct (push_bytes_fixed a t) as (-> & _ & _). destruct (push_bytes_fixed b (foldl push_byte t a)) as (-> & _ & _).
  destruct (push_bytes_fixed a t) as (-> & _ & _).
  rewrite last_bytes_app, zlen_app, <- app_assoc, Z.add_assoc by done. done.
Qed.

Lemma push_chunks t chunks : 0 <= limit t -> chunks <> [] ->
  foldl push t chunks = push t (concat chunks).
Proof.
  revert t. induction chunks as [|c chunks IH]; intros t Hl Hne; [done|]. simpl.
  destruct chunks as [|c' chunks]; [by rewrite app_nil_r|].
  rewrite IH; [by apply push_app| |done].
  rewrite push_alt. simpl. by destruct (push_bytes_fixed c t) as (-> & _ & _).
Qed.

Lemma push_all lim chunks : foldl push (new lim) chunks = push (new lim) (concat chunks).
Proof.
  destruct chunks as [|c chunks]; [|apply push_chunks; [simpl; lia|done]].
  rewrite push_alt. unfold with_tail, last_bytes, zdrop. cbn [foldl concat app buf new]. by rewrite drop_nil.
Qed.

Lemma end_line_grows lim ls st : exists r, fst (foldl (end_line lim) st ls) = fst st ++ r.
Proof.
  revert st. induction ls as [|l ls IH]; intros st; [exists []; by rewrite app_nil_r|].
  cbn [foldl]. destruct (IH (end_line lim st l)) as [r ->]. unfold end_line. cbn [fst].
  destruct (_ && _); [exists (l ++ r); by rewrite app_assoc|by exists r].
Qed.

Definition is_error_line (line : bytes) : bool := is_diagnostic_error_header (utf8_lossy line).

Lemma first_error_retained lim ls l :
  0 < lim -> List.find is_error_line ls = Some l ->
  exists r, fst (foldl (end_line lim) ([], false) ls) = l ++ r.
Proof.
  intros Hlim. induction ls as [|x ls IH]; [done|]. cbn [List.find foldl].
  unfold is_error_line at 1, end_line at 2. cbn [fst snd andb].
  destruct (is_diagnostic_error_header (utf8_lossy x)); [|exact IH].
  intros [= <-]. change (zlen (@nil byte)) with 0. rewrite (proj2 (Z.ltb_lt 0 lim)) by done.
  cbn [andb app]. apply (end_line_grows lim ls (x, true)).
Qed.

Lemma ended_lines_in cur d l :
  x0a ∉ cur -> l ∈ ended_lines cur d ->
  exists body pre post, l = body ++ [x0a] /\ x0a ∉ body /\ cur ++ d = pre ++ l ++ post.
Proof.
  revert cur. induction d as [|b d IH]; intros cur Hcur; cbn [ended_lines]; [set_solver|].
  destruct (byte_eqb_spec b x0a) as [->|Hb].
  - intros [->|Hl]%elem_of_cons.
    + exists cur, [], d. split_and!; [done..|]. by rewrite <- app_assoc.
    + destruct (IH [] ltac:(set_solver) Hl) as (body & pre & post & Hb & Hn & Heq).
      exists body, (cur ++ [x0a] ++ pre), post. split_and!; [done..|].
      simpl in Heq. rewrite Heq. by rewrite <- !app_assoc.
  - intros Hl. destruct (IH (cur ++ [b]) ltac:(set_solver) Hl) as (body & pre & post & Hbo & Hn & Heq).
    exists body, pre, post. split_and!; [done..|]. by rewrite <- Heq, <- app_assoc.
Qed.

(** The text [p] occurs in [s]. *)
Definition occurs (p s : bytes) : Prop := exists a b, s = a ++ p ++ b.

Lemma contains_occurs p s : contains p s = true -> occurs p s.
Proof.
  unfold contains. destruct (find_sub p s) as [i|] eqn:E; [|done]. intros _.
  apply find_sub_Some in E as (a & b & -> & _). by exists a, b.
Qed.

(** ** Theorems *)

(** The buffer keeps the end of the output whatever the reads it came in.  The buffer after
    any sequence of reads depends on their concatenation only; it holds exactly its last bytes,
    counts all of them, gives the whole output back when that fits, and otherwise ends with
    what it kept. *)
Theorem tail_kept lim chunks :
  let d := concat chunks in
  let t := foldl push (new lim) chunks in
  buf t = last_bytes (Z.max lim 1) d /\ total t = zlen d
  /\ (forall chunks', concat chunks' = d -> foldl push (new lim) chunks' = t)
  /\ (zlen d <= Z.max lim 1 -> to_output t = d)
  /\ exists pre, to_output t = pre ++ last_bytes (Z.max lim 1) d.
Proof.
  intros d t.
  assert (Ht : t = push (new lim) d) by apply push_all.
  assert (Hb : buf t = last_bytes (Z.max lim 1) d) by (rewrite Ht, push_alt; done).
  assert (Hn : total t = zlen d) by (rewrite Ht, push_alt; done).
  assert (Hl : limit t = Z.max lim 1).
  { rewrite Ht, push_alt. simpl. by destruct (push_bytes_fixed d (new lim)) as (-> & _ & _). }
  split_and!; [done..| | |].
  - intros chunks' Hc. rewrite Ht, <- Hc. apply push_all.
  - intros Hfit.
    assert (Hbuf : buf t = d).
    { rewrite Hb. unfold last_bytes. rewrite Z.max_l by lia. apply zdrop_0. }
    unfold to_output. destruct (retained_errors t); [done|].
    rewrite Hn, Hl, (proj2 (Z.leb_le _ _)) by done. done.
  - rewrite <- Hb. unfold to_output. destruct (retained_errors t) as [|e es]; [by exists []|].
    destruct (total t <=? limit t); [by exists []|]. destruct (_ && _); [by exists []|].
    cbv zeta. rewrite !app_assoc. by eexists.
Qed.

(** The first error of a command is never lost.  Whatever the amount of output after it and
    the reads it came in, the text of the first complete line that starts a compiler error or a
    test failure occurs in the output that is reported. *)
Theorem first_error_shown lim chunks line :
  List.find is_error_line (ended_lines [] (concat chunks)) = Some line ->
  exists body, line = body ++ [x0a] /\ (x0a ∉ body)
    /\ occurs body (to_output (foldl push (new lim) chunks)).
Proof.
  intros Hf. rewrite push_all. set (d := concat chunks) in *. set (t := push (new lim) d).
  assert (Hin : line ∈ ended_lines [] d).
  { apply find_some in Hf as [Hin _]. by apply list_elem_of_In. }
  destruct (ended_lines_in [] d line ltac:(set_solver) Hin) as (body & pre & post & Hl & Hn & Heq).
  exists body. split_and!; [done..|]. simpl in Heq.
  destruct (first_error_retained (Z.max lim 1) _ _ ltac:(lia) Hf) as [r Hr].
  assert (Hret : retained_errors t = body ++ x0a :: r).
  { pose proof (push_bytes_errors d (new lim)) as He. cbv zeta in He. simpl in He.
    rewrite <- He in Hr. simpl in Hr. unfold t. rewrite push_alt. simpl. rewrite Hr, Hl.
    by rewrite <- app_assoc. }
  unfold to_output. destruct (retained_errors t) as [|e es]; [by destruct body|]. rewrite Hret.
  destruct (total t <=? limit t) eqn:Etot.
  - assert (Hbuf : buf t = d).
    { apply Z.leb_le in Etot. unfold t in *. rewrite push_alt in *. simpl in Etot |- *.
      destruct (push_bytes_fixed d (new lim)) as (Hlim & _ & _). rewrite Hlim in Etot. simpl in Etot.
      unfold last_bytes. rewrite Z.max_l by lia. apply zdrop_0. }
    rewrite Hbuf. exists pre, ([x0a] ++ post). rewrite Heq, Hl. by rewrite <- !app_assoc.
  - assert (Hfl : default [] (head (split x0a (body ++ x0a :: r))) = body)
      by (by rewrite split_app_sep).
    cbv zeta. rewrite Hfl.
    destruct (negb (bool_decide (body = [])) && contains body (buf t)) eqn:Ec.
    + apply andb_prop in Ec as [_ Ec]. by apply contains_occurs.
    + cbv zeta. exists []. simpl app at 1. destruct (ends_with [x0a] (body ++ x0a :: r));
        rewrite <- !app_assoc; by eexists.
Qed.

(** ** Witness: an error followed by more warnings than are kept *)

Definition noisy_reads : list bytes :=
  [B "error[E0308]: mismatched"; B " types" ++ [x0a] ++ B "  --> src/lib.rs:3:5" ++ [x0a; x0a];
   B "warning: unused variable" ++ [x0a] ++ B "warning: unused import" ++ [x0a]].

Lemma first_error_shown_witness :
  exists body, B "error[E0308]: mismatched types" ++ [x0a] = body ++ [x0a]
    /\ occurs body (to_output (foldl push (new 20) noisy_reads)).
Proof.
  destruct (first_error_shown 20 noisy_reads (B "error[E0308]: mismatched types" ++ [x0a]))
    as (body & Hl & _ & Ho); [vm_compute; reflexivity|].
  exists body. split; [exact Hl|exact Ho].
Defined.
