(* ===== verification/RequestHistory.v ===== *)
(** * Requests sent to a language server and not answered yet
    (crates/prod-code-gateway/src/backend/request_history.rs)

    A bounded queue, oldest first, of the requests whose answers are awaited.  A registration
    that is dropped before it is committed takes its request out again.

    A request's identifier is a [serde_json] value of which only equality is used: the type [Id]. *)

From Stdlib Require Import Strings.Byte.
From S2P Require Import Prelude RustStr.

Definition MAX_RETAINED_DISPATCH_IDENTITIES : Z := 256.

(** ** The history *)

Section history.
Context {Id : Type} `{!EqDecision Id}.

(** [(token, id, sent at, method)]. *)
Record Issued := mkIssued { token : Z; id_ : Id; sent_at : Z; method : bytes }.

Record IssuedRequestHistory := mkHistory { next_token : Z; requests : list Issued }.

Definition empty_history : IssuedRequestHistory := mkHistory 0 [].

(** The loop that drops the oldest requests past the cap. *)
Fixpoint drop_oldest (l : list Issued) : list Issued :=
  match l with
  | [] => []
  | _ :: r => if MAX_RETAINED_DISPATCH_IDENTITIES <? zlen l then drop_oldest r else l
  end.

Definition insert (h : IssuedRequestHistory) (now : Z) (i : Id) (m : bytes)
    : IssuedRequestHistory * Z :=
  let tok := (next_token h + 1) `mod` 2 ^ 64 in
  (mkHistory tok (drop_oldest (requests h ++ [mkIssued tok i now m])), tok).

(** [VecDeque::remove] at the first position that satisfies [f], with what was there. *)
Fixpoint remove_first (f : Issued -> bool) (l : list Issued) : option (Issued * list Issued) :=
  match l with
  | [] => None
  | x :: r => if f x then Some (x, r)
              else match remove_first f r with Some (y, r') => Some (y, x :: r') | None => None end
  end.

Definition remove (h : IssuedRequestHistory) (tok : Z) : IssuedRequestHistory :=
  match remove_first (fun x => token x =? tok) (requests h) with
  | Some (_, rest) => mkHistory (next_token h) rest
  | None => h
  end.

Definition take_request (h : IssuedRequestHistory) (i : Id) : IssuedRequestHistory * option bytes :=
  match remove_first (fun x => bool_decide (id_ x = i)) (requests h) with
  | Some (x, rest) => (mkHistory (next_token h) rest, Some (method x))
  | None => (h, None)
  end.

Definition oldest_outstanding (h : IssuedRequestHistory) : option Z :=
  match map sent_at (requests h) with
  | [] => None
  | t :: ts => Some (foldl Z.min t ts)
  end.

(** [Drop for IssuedRequestRegistration]. *)
Definition drop_registration (h : IssuedRequestHistory) (tok : Z) (committed : bool)
    : IssuedRequestHistory :=
  if committed then h else remove h tok.

(** ** Runs *)

(** A step of a run at time [now]: a request is sent, a registration is dropped or kept, an
    answer arrives. *)
Inductive op :=
| Send (now : Z) (i : Id) (m : bytes)
| DropRegistration (tok : Z) (committed : bool)
| Answer (i : Id).

Definition run_op (h : IssuedRequestHistory) (o : op) : IssuedRequestHistory :=
  match o with
  | Send now i m => fst (insert h now i m)
  | DropRegistration tok committed => drop_registration h tok committed
  | Answer i => fst (take_request h i)
  end.

Definition run (ops : list op) : IssuedRequestHistory := foldl run_op empty_history ops.

Definition sends (ops : list op) : list Z :=
  omap (fun o => match o with Send now _ _ => Some now | _ => None end) ops.

(** ** Lemmas *)

Lemma drop_oldest_suffix l : exists pre, l = pre ++ drop_oldest l.
Proof.
  induction l as [|x l IH]; [by exists []|]. cbn [drop_oldest].
  destruct (_ <? _); [|by exists []]. destruct IH as [pre IH]. exists (x :: pre). simpl. by rewrite <- IH.
Qed.

Lemma drop_oldest_len l :
  zlen (drop_oldest l) = Z.min MAX_RETAINED_DISPATCH_IDENTITIES (zlen l).
Proof.
  induction l as [|x l IH]; [done|]. cbn [drop_oldest].
  destruct (_ <? zlen (x :: l)) eqn:E; [apply Z.ltb_lt in E|apply Z.ltb_ge in E].
  - rewrite IH. rewrite zlen_cons in *. lia.
  - lia.
Qed.

Lemma remove_first_Some f l y r :
  remove_first f l = Some (y, r) ->
  exists pre post, l = pre ++ y :: post /\ r = pre ++ post /\ f y = true
    /\ Forall (fun x => f x = false) pre.
Proof.
  revert y r. induction l as [|x l IH]; intros y r; cbn [remove_first]; [done|].
  destruct (f x) eqn:E; [intros [= <- <-]; exists [], l; by split_and!|].
  destruct (remove_first f l) as [[y' r']|]; [|done]. intros [= <- <-].
  destruct (IH _ _ eq_refl) as (pre & post & -> & -> & Hy & Hp).
  exists (x :: pre), post. split_and!; [done..|]. by constructor.
Qed.

Lemma remove_first_None f l : remove_first f l = None -> Forall (fun x => f x = false) l.
Proof.
  induction l as [|x l IH]; cbn [remove_first]; [done|]. destruct (f x) eqn:E; [done|].
  destruct (remove_first f l) as [[y r]|]; [done|]. intros _. constructor; auto.
Qed.

(** The order the queue keeps: tokens and times of sending increase. *)
Definition earlier (a b : Issued) : Prop := token a < token b /\ sent_at a <= sent_at b.

(** After [n] requests, sent at the times [ts]. *)
Definition history_ok (n : Z) (ts : list Z) (h : IssuedRequestHistory) : Prop :=
  next_token h = n /\ zlen (requests h) <= MAX_RETAINED_DISPATCH_IDENTITIES
  /\ StronglySorted earlier (requests h)
  /\ Forall (fun x => 0 < token x <= n /\ sent_at x ∈ ts) (requests h).

Lemma sorted_remove (R : Issued -> Issued -> Prop) pre y post :
  StronglySorted R (pre ++ y :: post) -> StronglySorted R (pre ++ post).
Proof.
  induction pre as [|x pre IH]; simpl; intros H; apply StronglySorted_inv in H as [H Hx]; [done|].
  constructor; [by apply IH|]. apply Forall_app in Hx as [Hp Hq].
  apply List.Forall_cons_iff in Hq as [_ Hq]. by apply Forall_app.
Qed.

Lemma sorted_suffix (R : Issued -> Issued -> Prop) pre l :
  StronglySorted R (pre ++ l) -> StronglySorted R l.
Proof. induction pre as [|x pre IH]; simpl; intros H; [done|]. apply StronglySorted_inv in H. tauto. Qed.

Lemma sorted_snoc (R : Issued -> Issued -> Prop) l y :
  StronglySorted R l -> Forall (fun x => R x y) l -> StronglySorted R (l ++ [y]).
Proof.
  induction 1 as [|x l Hs IH Hx]; simpl; intros Hy; [by repeat constructor|].
  apply List.Forall_cons_iff in Hy as [Hxy Hy]. constructor; [auto|]. apply Forall_app. auto.
Qed.

Lemma insert_ok n ts h now i m :
  history_ok n ts h -> 0 <= n -> n + 1 < 2 ^ 64 -> Forall (fun t => t <= now) ts ->
  history_ok (n + 1) (ts ++ [now]) (fst (insert h now i m)).
Proof.
  intros (Hn & Hlen & Hs & Hall) H0 Hmax Ht. unfold insert. cbn [fst].
  rewrite Hn, Z.mod_small by lia. rewrite Forall_forall in Ht.
  set (l := requests h ++ [mkIssued (n + 1) i now m]).
  assert (Hsl : StronglySorted earlier l).
  { apply sorted_snoc; [done|]. eapply Forall_impl; [exact Hall|]. intros x [Hx Hin].
    split; simpl; [lia|by apply Ht]. }
  assert (Hal : Forall (fun x => 0 < token x <= n + 1 /\ sent_at x ∈ ts ++ [now]) l).
  { apply Forall_app. split; [eapply Forall_impl; [exact Hall|]|].
    - intros x [Hx Hin]. split; [lia|set_solver].
    - constructor; [|constructor]. split; simpl; [lia|set_solver]. }
  destruct (drop_oldest_suffix l) as [pre Hpre]. rewrite Hpre in Hsl, Hal.
  split_and!; [done| | |]; cbn [requests].
  - rewrite drop_oldest_len. lia.
  - by apply sorted_suffix in Hsl.
  - by apply Forall_app in Hal as [_ ?].
Qed.

Lemma removal_ok n ts h f y r :
  history_ok n ts h -> remove_first f (requests h) = Some (y, r) ->
  history_ok n ts (mkHistory (next_token h) r).
Proof.
  intros (Hn & Hlen & Hs & Hall) Hr. apply remove_first_Some in Hr as (pre & post & Heq & -> & _ & _).
  rewrite Heq in *. split_and!; cbn [next_token requests]; [done| | |].
  - rewrite zlen_app, zlen_cons in Hlen. rewrite zlen_app. lia.
  - by apply sorted_remove in Hs.
  - apply Forall_app in Hall as [H1 [_ H2]%List.Forall_cons_iff]. by apply Forall_app.
Qed.

Lemma sends_app ops o :
  sends (ops ++ [o]) = sends ops ++ match o with Send now _ _ => [now] | _ => [] end.
Proof. unfold sends. rewrite omap_app. by destruct o. Qed.

Lemma sorted_app_le l y :
  StronglySorted Z.le (l ++ [y]) -> StronglySorted Z.le l /\ Forall (fun x => x <= y) l.
Proof.
  induction l as [|x l IH]; simpl; intros H; [by split; constructor|].
  apply StronglySorted_inv in H as [H Hx]. apply Forall_app in Hx as [Hx Hy].
  apply List.Forall_cons_iff in Hy as [Hy _]. destruct (IH H) as [H1 H2].
  split; constructor; auto.
Qed.

Lemma run_ok ops :
  StronglySorted Z.le (sends ops) -> zlen (sends ops) < 2 ^ 64 ->
  history_ok (zlen (sends ops)) (sends ops) (run ops).
Proof.
  induction ops as [|o ops IH] using rev_ind; [by intros _ _; split_and!; repeat constructor|].
  rewrite sends_app. unfold run. rewrite foldl_app. cbn [foldl]. fold (run ops).
  destruct o as [now i m|tok c|i]; rewrite ?app_nil_r.
  - intros [Hs Hle]%sorted_app_le. rewrite zlen_app. change (zlen [now]) with 1. intros Hlen.
    pose proof (zlen_nonneg (sends ops)). apply insert_ok; [apply IH; [done|lia]|lia..|done].
  - intros Hs Hlen. specialize (IH Hs Hlen). simpl. unfold drop_registration, remove.
    destruct c; [done|]. destruct (remove_first _ _) as [[y r]|] eqn:E; [|done].
    by eapply removal_ok.
  - intros Hs Hlen. specialize (IH Hs Hlen). simpl. unfold take_request.
    destruct (remove_first _ _) as [[y r]|] eqn:E; [|done]. by eapply removal_ok.
Qed.

Lemma foldl_min_least t ts : Forall (fun x => t <= x) ts -> foldl Z.min t ts = t.
Proof.
  revert t. induction ts as [|x ts IH]; intros t H; simpl; [done|].
  apply List.Forall_cons_iff in H as [Hx H]. rewrite Z.min_l by done. by apply IH.
Qed.

Lemma filter_none (f : Issued -> bool) l : Forall (fun x => f x = true) l -> List.filter f l = l.
Proof. induction 1 as [|x l Hx _ IH]; simpl; [done|]. by rewrite Hx, IH. Qed.

(** ** Theorems *)

(** The history is bounded, ordered and exact in every run of sends, answers and dropped
    registrations: at most 256 requests are kept, oldest first, with distinct increasing tokens;
    the oldest one outstanding is the first; and a registration dropped before it is committed
    takes out its own request and nothing else. *)
Theorem history_invariant ops :
  StronglySorted Z.le (sends ops) -> zlen (sends ops) < 2 ^ 64 ->
  let h := run ops in
  zlen (requests h) <= MAX_RETAINED_DISPATCH_IDENTITIES
  /\ next_token h = zlen (sends ops)
  /\ StronglySorted earlier (requests h)
  /\ oldest_outstanding h = sent_at <$> head (requests h)
  /\ (forall tok, requests (drop_registration h tok false)
         = List.filter (fun x => negb (token x =? tok)) (requests h)).
Proof.
  intros Hs Hlen h. destruct (run_ok ops Hs Hlen) as (Hn & Hmax & Hsort & _).
  split_and!; [done..| |].
  - unfold oldest_outstanding. fold h in Hsort. destruct (requests h) as [|x l]; [done|]. simpl.
    f_equal. apply foldl_min_least. apply StronglySorted_inv in Hsort as [_ Hx].
    apply Forall_map. eapply Forall_impl; [exact Hx|]. by intros y [_ ?].
  - intros tok. simpl. unfold remove. fold h in Hsort.
    destruct (remove_first _ (requests h)) as [[y r]|] eqn:E.
    + apply remove_first_Some in E as (pre & post & Heq & -> & Hy & Hpre). simpl.
      rewrite Heq in Hsort |- *. rewrite List.filter_app. simpl. rewrite Hy. simpl.
      apply Z.eqb_eq in Hy. apply sorted_suffix in Hsort.
      apply StronglySorted_inv in Hsort as [_ Hpost]. rewrite !filter_none; [done| |].
      * eapply Forall_impl; [exact Hpost|]. intros x [Hx _]. apply negb_true_iff, Z.eqb_neq. lia.
      * eapply Forall_impl; [exact Hpre|]. simpl. intros x ->. done.
    + apply remove_first_None in E. rewrite filter_none; [done|].
      eapply Forall_impl; [exact E|]. simpl. intros x ->. done.
Qed.

(** An answer counts once.  An identifier that is outstanding gives the method of the
    oldest request with it, which is taken out and no other; the same answer again gives nothing
    unless another request with this identifier is outstanding; an identifier that is not
    outstanding gives nothing and changes nothing. *)
Theorem answer_once (h : IssuedRequestHistory) (i : Id) :
  match take_request h i with
  | (h', Some m) => exists pre x post, requests h = pre ++ x :: post /\ id_ x = i /\ method x = m
      /\ Forall (fun y => id_ y <> i) pre /\ requests h' = pre ++ post
      /\ next_token h' = next_token h
      /\ (Forall (fun y => id_ y <> i) post -> take_request h' i = (h', None))
  | (h', None) => h' = h /\ Forall (fun y => id_ y <> i) (requests h)
  end.
Proof.
  unfold take_request at 1.
  assert (Himp : forall l, Forall (fun x => bool_decide (id_ x = i) = false) l <->
    Forall (fun y => id_ y <> i) l).
  { intros l. apply Forall_iff. intros x. apply bool_decide_eq_false. }
  destruct (remove_first _ (requests h)) as [[x rest]|] eqn:E.
  - apply remove_first_Some in E as (pre & post & Heq & -> & Hx & Hpre).
    apply bool_decide_eq_true in Hx. exists pre, x, post.
    split_and!; [done..|by apply Himp|done|done|]. intros Hpost. unfold take_request. simpl.
    destruct (remove_first _ (pre ++ post)) as [[y r]|] eqn:E2; [|done].
    apply remove_first_Some in E2 as (p & q & Hpq & _ & Hy & _). apply bool_decide_eq_true in Hy.
    exfalso. apply Himp in Hpre. assert (Hall : Forall (fun y => id_ y <> i) (pre ++ post))
      by (by apply Forall_app).
    rewrite Hpq in Hall. apply Forall_app in Hall as [_ Hall].
    apply List.Forall_cons_iff in Hall as [Hall _]. done.
  - apply remove_first_None in E. split; [done|]. by apply Himp.
Qed.
End history.

(** ** Witness *)

Definition sample_ops : list (op (Id:=Z)) :=
  [Send 10 1 (B "hover"); Send 20 2 (B "definition"); Answer 1; Send 30 3 (B "references");
   DropRegistration 3 true].

Lemma history_invariant_witness : oldest_outstanding (run sample_ops) = Some 20.
Proof.
  destruct (history_invariant sample_ops) as (_ & _ & _ & H & _).
  - repeat constructor; vm_compute; discriminate.
  - vm_compute; reflexivity.
  - rewrite H. vm_compute. reflexivity.
Defined.
