(* ===== verification/Backend.v ===== *)
(** * The language server process a gateway talks to

    prod-code-gateway/src/backend: [probe.rs], [writer.rs], [reader.rs], [health.rs] and the
    handshake of [init.rs].

    Callers write framed messages to the server's input under a lock, a reader takes what the
    server writes, answers some of its requests itself and hands the rest to the sessions, and a
    health task probes a server that has been silent.  The state is what they share, and where
    each write, the reader and the health task stand; an event is a section of code between two
    points where another task may go on, or an outcome of the pipe or of a deadline.  Events
    come in any order, a write may be cut short anywhere and the future of a caller may be
    dropped anywhere.

    Reading and printing JSON is serde_json's: the parameters [from_str] and [to_string].  Two
    values are equal when they are written alike; for numbers with a fraction serde_json
    compares the numbers. *)

From stdpp Require Import list.
From Stdlib Require Import Strings.Byte.
From S2P Require Import Prelude RustStr Codec Json Transport RequestHistory.

#[local] Set Warnings "-register-all".

(** ** Probes: [probe.rs] *)

Definition DEFAULT_WRITE_TIMEOUT : Z := 30 * 1000000000.
Definition DEFAULT_HEALTH_PROBE_INTERVAL : Z := 60 * 1000000000.
Definition MAX_IDLE_PROBE_TIMEOUTS : Z := 3.
Definition HEALTH_PROBE_METHOD : bytes := B "prodCode/healthProbe".
Definition HEALTH_PROBE_ID_PREFIX : bytes := B "prod-code-backend-health:".

Record ProbeState := MkProbe {
  consecutive_timeouts : Z;
  valid_evidence_epoch : Z;
  latest_valid_sequence : Z;
  valid_completions : Z;
}.

Definition wrapping_succ (n : Z) : Z := (n + 1) `mod` 2 ^ 64.

Definition health_probe_sequence (id : Value) (id_prefix : bytes) : option Z :=
  text ← as_str id;
  suffix ← strip_prefix id_prefix text;
  sequence ← parse_uint u64_max suffix;
  if negb (sequence =? 0) && bool_decide (show sequence = suffix) then Some sequence else None.

Definition is_json_rpc (v : Value) : bool := bool_decide (get_str v (B "jsonrpc") = Some (B "2.0")).

(** An identifier that is there and not null. *)
Definition has_id (v : Value) : bool :=
  match get v (B "id") with None | Some Null => false | Some _ => true end.

Definition valid_dispatch_response (response : Value) : bool :=
  match response with
  | Object _ =>
      if negb (is_json_rpc response) || negb (has_id response) || bool_decide (is_Some (get response (B "method"))) then false
      else match get response (B "result"), get response (B "error") with
           | Some _, None => true
           | None, Some error =>
               bool_decide (is_Some (get error (B "code") ≫= as_i64)) && bool_decide (is_Some (get_str error (B "message")))
           | _, _ => false
           end
  | _ => false
  end.

(** ** The state *)

(** Whose frame it is: a caller's, with the token of its request in the history; the reader's
    answer to the server; a probe. *)
Inductive Owner := Caller (tok : option Z) | Reply | Probe.
#[export] Instance owner_eq_decision : EqDecision Owner.
Proof. solve_decision. Defined.

(** Where a write stands. *)
Inductive WritePhase :=
| Registered                 (** about to look whether the server runs *)
| Queued                     (** waits for the input's lock *)
| Header (rest : bytes)      (** holds the lock: this much of the header is left *)
| Payload (rest : bytes)
| Flush
| Releasing (ok : bool)      (** the frame is done with, the lock is not yet free *)
| Returned (ok : bool)
| Ended (ok : bool).

Record Write := MkWrite {
  wr_owner : Owner;
  wr_payload : bytes;
  wr_phase : WritePhase;
  wr_written : Z;            (** [bytes_written] *)
  wr_faulted : bool;
}.

Inductive ReaderPhase :=
| Reading
| Replying (i : nat) (json : bytes)   (** waits for its answer to be written *)
| ReaderEnded.

Inductive HealthPhase :=
| Unstarted
| Sleeping
| Looked (epoch : Z)                                      (** found the server idle *)
| Probing (i : nat) (id : bytes) (epoch evidence : Z)     (** writes the probe *)
| Awaiting (id : bytes) (epoch evidence : Z)
| Stopped.

Record Worker := MkWorker {
  wk_alive : bool;   (** [is_alive] *)
  wk_killed : bool;   (** the process was told to stop *)
  wk_dropped : bool;   (** the worker itself is gone *)
  wk_out : bytes;   (** what the server's input has taken *)
  wk_lock : option nat;   (** the write that holds the input *)
  wk_epoch : Z;   (** [ordinary_epoch] *)
  wk_activity : Z;   (** [last_activity] *)
  wk_probe : ProbeState;   (** [probe_state] *)
  wk_next : Z;   (** [next_probe_id] *)
  wk_pending : option bytes;   (** [health_probe_pending]: the id *)
  wk_answered : bool;   (** the waiting probe was sent its answer *)
  wk_history : IssuedRequestHistory (Id := Value);   (** [issued_requests] *)
  wk_caps : option Value;   (** [capabilities] *)
  wk_writes : list Write;   (** in the order they began *)
  wk_reader : ReaderPhase;
  wk_health : HealthPhase;
  wk_frames : list bytes;   (** what the sessions were sent *)
  wk_now : Z;
}.

(** [FrameWriter::retire]. *)
Definition retire  (w : Worker) : Worker :=
  MkWorker false true (wk_dropped w) (wk_out w) (wk_lock w) (wk_epoch w) (wk_activity w) (wk_probe w) (wk_next w) (wk_pending w) (wk_answered w) (wk_history w) (wk_caps w) (wk_writes w) (wk_reader w) (wk_health w) (wk_frames w) (wk_now w).

Definition set_out (o : bytes) (w : Worker) : Worker :=
  MkWorker (wk_alive w) (wk_killed w) (wk_dropped w) o (wk_lock w) (wk_epoch w) (wk_activity w) (wk_probe w) (wk_next w) (wk_pending w) (wk_answered w) (wk_history w) (wk_caps w) (wk_writes w) (wk_reader w) (wk_health w) (wk_frames w) (wk_now w).
Definition set_lock (l : option nat) (w : Worker) : Worker :=
  MkWorker (wk_alive w) (wk_killed w) (wk_dropped w) (wk_out w) l (wk_epoch w) (wk_activity w) (wk_probe w) (wk_next w) (wk_pending w) (wk_answered w) (wk_history w) (wk_caps w) (wk_writes w) (wk_reader w) (wk_health w) (wk_frames w) (wk_now w).
Definition set_life (e a : Z) (p : ProbeState) (w : Worker) : Worker :=
  MkWorker (wk_alive w) (wk_killed w) (wk_dropped w) (wk_out w) (wk_lock w) e a p (wk_next w) (wk_pending w) (wk_answered w) (wk_history w) (wk_caps w) (wk_writes w) (wk_reader w) (wk_health w) (wk_frames w) (wk_now w).
Definition set_probe (p : ProbeState) (w : Worker) : Worker :=
  MkWorker (wk_alive w) (wk_killed w) (wk_dropped w) (wk_out w) (wk_lock w) (wk_epoch w) (wk_activity w) p (wk_next w) (wk_pending w) (wk_answered w) (wk_history w) (wk_caps w) (wk_writes w) (wk_reader w) (wk_health w) (wk_frames w) (wk_now w).
Definition set_next (n : Z) (w : Worker) : Worker :=
  MkWorker (wk_alive w) (wk_killed w) (wk_dropped w) (wk_out w) (wk_lock w) (wk_epoch w) (wk_activity w) (wk_probe w) n (wk_pending w) (wk_answered w) (wk_history w) (wk_caps w) (wk_writes w) (wk_reader w) (wk_health w) (wk_frames w) (wk_now w).
Definition set_pending (p : option bytes) (a : bool) (w : Worker) : Worker :=
  MkWorker (wk_alive w) (wk_killed w) (wk_dropped w) (wk_out w) (wk_lock w) (wk_epoch w) (wk_activity w) (wk_probe w) (wk_next w) p a (wk_history w) (wk_caps w) (wk_writes w) (wk_reader w) (wk_health w) (wk_frames w) (wk_now w).
Definition set_history (h : IssuedRequestHistory (Id := Value)) (w : Worker) : Worker :=
  MkWorker (wk_alive w) (wk_killed w) (wk_dropped w) (wk_out w) (wk_lock w) (wk_epoch w) (wk_activity w) (wk_probe w) (wk_next w) (wk_pending w) (wk_answered w) h (wk_caps w) (wk_writes w) (wk_reader w) (wk_health w) (wk_frames w) (wk_now w).
Definition set_caps (c : option Value) (w : Worker) : Worker :=
  MkWorker (wk_alive w) (wk_killed w) (wk_dropped w) (wk_out w) (wk_lock w) (wk_epoch w) (wk_activity w) (wk_probe w) (wk_next w) (wk_pending w) (wk_answered w) (wk_history w) c (wk_writes w) (wk_reader w) (wk_health w) (wk_frames w) (wk_now w).
Definition set_writes (l : list Write) (w : Worker) : Worker :=
  MkWorker (wk_alive w) (wk_killed w) (wk_dropped w) (wk_out w) (wk_lock w) (wk_epoch w) (wk_activity w) (wk_probe w) (wk_next w) (wk_pending w) (wk_answered w) (wk_history w) (wk_caps w) l (wk_reader w) (wk_health w) (wk_frames w) (wk_now w).
Definition set_reader (r : ReaderPhase) (w : Worker) : Worker :=
  MkWorker (wk_alive w) (wk_killed w) (wk_dropped w) (wk_out w) (wk_lock w) (wk_epoch w) (wk_activity w) (wk_probe w) (wk_next w) (wk_pending w) (wk_answered w) (wk_history w) (wk_caps w) (wk_writes w) r (wk_health w) (wk_frames w) (wk_now w).
Definition set_health (h : HealthPhase) (w : Worker) : Worker :=
  MkWorker (wk_alive w) (wk_killed w) (wk_dropped w) (wk_out w) (wk_lock w) (wk_epoch w) (wk_activity w) (wk_probe w) (wk_next w) (wk_pending w) (wk_answered w) (wk_history w) (wk_caps w) (wk_writes w) (wk_reader w) h (wk_frames w) (wk_now w).
Definition broadcast (json : bytes) (w : Worker) : Worker :=
  MkWorker (wk_alive w) (wk_killed w) (wk_dropped w) (wk_out w) (wk_lock w) (wk_epoch w) (wk_activity w) (wk_probe w) (wk_next w) (wk_pending w) (wk_answered w) (wk_history w) (wk_caps w) (wk_writes w) (wk_reader w) (wk_health w) (wk_frames w ++ [json]) (wk_now w).
Definition set_now (t : Z) (w : Worker) : Worker :=
  MkWorker (wk_alive w) (wk_killed w) (wk_dropped w) (wk_out w) (wk_lock w) (wk_epoch w) (wk_activity w) (wk_probe w) (wk_next w) (wk_pending w) (wk_answered w) (wk_history w) (wk_caps w) (wk_writes w) (wk_reader w) (wk_health w) (wk_frames w) t.

Definition begin_write (owner : Owner) (payload : bytes) (p : WritePhase) (w : Worker) : Worker :=
  set_writes (wk_writes w ++ [MkWrite owner payload p 0 false]) w.
Definition to_phase (p : WritePhase) (x : Write) : Write :=
  MkWrite (wr_owner x) (wr_payload x) p (wr_written x) (wr_faulted x).
Definition set_write (i : nat) (x : Write) (w : Worker) : Worker := set_writes (<[i := x]> (wk_writes w)) w.

Definition reset_timeouts (p : ProbeState) : ProbeState :=
  MkProbe 0 (valid_evidence_epoch p) (latest_valid_sequence p) (valid_completions p).

(** [record_dispatch_liveness]. *)
Definition record_dispatch_liveness (w : Worker) : Worker :=
  let p := wk_probe w in
  set_life (wrapping_succ (wk_epoch w)) (wk_now w)
    (MkProbe 0 (wrapping_succ (valid_evidence_epoch p)) (latest_valid_sequence p) (valid_completions p)) w.

(** [retire_health_generation]. *)
Definition retire_health_generation (w : Worker) : Worker := set_caps None (set_pending None (wk_answered w) (retire w)).

(** Dropping a [ProbePending]. *)
Definition drop_pending (id : bytes) (w : Worker) : Worker :=
  if bool_decide (wk_pending w = Some id) then set_pending None (wk_answered w) w else w.

Section backend.
Context (from_str : bytes -> option Value) (to_string : Value -> bytes).
Context (engine id_prefix : bytes) (interval : Z).

(** ** Writing: [writer.rs] *)

Definition header (payload : bytes) : bytes := B "Content-Length: " ++ show (zlen payload) ++ crlf ++ crlf.

(** The request an ordinary message is. *)
Definition ordinary_request (json : bytes) : option Value :=
  v ← from_str json;
  if is_json_rpc v && bool_decide (is_Some (get_str v (B "method"))) && has_id v then Some v else None.

Definition id_of (v : Value) : Value := default Null (get v (B "id")).

(** [send_with_timeout], up to the writing of the frame. *)
Definition send_with_timeout (json : bytes) (w : Worker) : Worker :=
  let refused := begin_write (Caller None) json (Ended false) w in
  let accepted request :=
    let w := set_life (wrapping_succ (wk_epoch w)) (wk_now w) (reset_timeouts (wk_probe w)) w in
    match request with
    | Some v =>
        let '(h, tok) := insert (wk_history w) (wk_now w) (id_of v) (default [] (get_str v (B "method"))) in
        begin_write (Caller (Some tok)) json Registered (set_history h w)
    | None => begin_write (Caller None) json Registered w
    end in
  if negb (wk_alive w) then refused
  else match ordinary_request json with
       | Some v => if bool_decide (is_Some (health_probe_sequence (id_of v) id_prefix)) then refused else accepted (Some v)
       | None => accepted None
       end.

(** [send_control]. *)
Definition send_control (json : bytes) (w : Worker) : Worker := begin_write Reply json Registered w.

Definition write_enter (i : nat) (w : Worker) : option Worker :=
  x ← wk_writes w !! i;
  match wr_phase x with
  | Registered => Some (set_write i (to_phase (if wk_alive w then Queued else Returned false) x) w)
  | _ => None
  end.

Definition write_lock (i : nat) (w : Worker) : option Worker :=
  x ← wk_writes w !! i;
  match wr_phase x, wk_lock w with
  | Queued, None =>
      let p := if wk_alive w then Header (header (wr_payload x)) else Releasing false in
      Some (set_write i (to_phase p x) (set_lock (Some i) w))
  | _, _ => None
  end.

Definition lock_timeout (i : nat) (w : Worker) : option Worker :=
  x ← wk_writes w !! i;
  match wr_phase x with Queued => Some (set_write i (to_phase (Returned false) x) w) | _ => None end.

(** What is left of the frame. *)
Definition next_part (payload : bytes) (in_header : bool) (rest : bytes) : WritePhase :=
  match in_header, rest with
  | true, _ :: _ => Header rest
  | false, _ :: _ => Payload rest
  | true, [] => match payload with [] => Flush | _ => Payload payload end
  | false, [] => Flush
  end.

(** [write] took [n] of the bytes it was offered. *)
Definition wrote (i : nat) (n : Z) (w : Worker) : option Worker :=
  x ← wk_writes w !! i;
  let go in_header rest :=
    if (0 <? n) && (n <=? zlen rest) then
      let x' := MkWrite (wr_owner x) (wr_payload x) (next_part (wr_payload x) in_header (zdrop n rest)) (wr_written x + n) (wr_faulted x) in
      Some (set_write i x' (set_out (wk_out w ++ ztake n rest) w))
    else None in
  match wr_phase x with Header rest => go true rest | Payload rest => go false rest | _ => None end.

Definition flushed (i : nat) (w : Worker) : option Worker :=
  x ← wk_writes w !! i;
  match wr_phase x with Flush => Some (set_write i (to_phase (Releasing true) x) w) | _ => None end.

(** Dropping a [FrameWrite] that is not complete, while it holds the lock. *)
Definition drop_frame (i : nat) (x : Write) (faulted : bool) (w : Worker) : Worker :=
  let x' := MkWrite (wr_owner x) (wr_payload x) (Releasing false) (wr_written x) (wr_faulted x || faulted) in
  set_write i x' (if negb (wr_written x =? 0) || wr_faulted x' then retire w else w).

(** The write or the flush failed ([faulted]), or its deadline passed. *)
Definition write_failed (i : nat) (faulted : bool) (w : Worker) : option Worker :=
  x ← wk_writes w !! i;
  match wr_phase x with
  | Header _ | Payload _ | Flush => Some (drop_frame i x faulted w)
  | _ => None
  end.

(** The future of a caller is dropped, or that of a task of a worker that is gone. *)
Definition cancel (i : nat) (w : Worker) : option Worker :=
  x ← wk_writes w !! i;
  if match wr_owner x with Caller _ => true | _ => wk_dropped w end then
    match wr_phase x with
    | Registered | Queued => Some (set_write i (to_phase (Returned false) x) w)
    | Header _ | Payload _ | Flush => Some (drop_frame i x false w)
    | _ => None
    end
  else None.

Definition unlock (i : nat) (w : Worker) : option Worker :=
  x ← wk_writes w !! i;
  match wr_phase x with
  | Releasing ok => Some (set_write i (to_phase (Returned ok) x) (set_lock None w))
  | _ => None
  end.

(** The call returns; the registration is kept or dropped. *)
Definition returns (i : nat) (w : Worker) : option Worker :=
  x ← wk_writes w !! i;
  match wr_phase x with
  | Returned ok =>
      let h := match wr_owner x with
               | Caller (Some tok) => drop_registration (wk_history w) tok ok
               | _ => wk_history w
               end in
      Some (set_write i (to_phase (Ended ok) x) (set_history h w))
  | _ => None
  end.

(** ** Reading: [reader.rs] *)

(** [normalize_diagnostic_response] of the Go engine: an empty [kind] becomes [full]. *)
Definition set_member (key : bytes) (v : Value) (o : Value) : Value :=
  match o with
  | Object members => Object (map (fun e => if bool_decide (e.1 = key) then (key, v) else e) members)
  | _ => o
  end.
Definition normalize_diagnostic_response (method : bytes) (reply : Value) : Value :=
  match get reply (B "result") with
  | Some result =>
      if bool_decide (method = B "textDocument/diagnostic") && bool_decide (get reply (B "error") = None)
         && bool_decide (get_str result (B "kind") = Some []) && bool_decide (is_Some (get result (B "items") ≫= as_array))
      then set_member (B "result") (set_member (B "kind") (String (B "full")) result) reply
      else reply
  | None => reply
  end.

(** The number of a probe this worker has sent. *)
Definition issued_sequence (id : option Value) (w : Worker) : option Z :=
  v ← id; n ← health_probe_sequence v id_prefix; if n <? wk_next w then Some n else None.

(** A valid answer to probe [n]: the waiting probe is told, and it counts if it is newer than
    the last. *)
Definition probe_reply (id : bytes) (n : Z) (w : Worker) : Worker :=
  let w := if bool_decide (wk_pending w = Some id) then set_pending None true w else w in
  let p := wk_probe w in
  if latest_valid_sequence p <? n then
    set_probe (MkProbe 0 (wrapping_succ (valid_evidence_epoch p)) n (valid_completions p + 1)) w
  else w.

(** An ordinary answer or message of the server, and what of it goes to the sessions. *)
Definition note_message (v : Value) (json : bytes) (w : Worker) : Worker * bytes :=
  match get_str v (B "method") with
  | None =>
      if valid_dispatch_response v then
        let '(h, request) := take_request (wk_history w) (id_of v) in
        match request with
        | Some method =>
            let w := record_dispatch_liveness (set_history h w) in
            let normalized := if bool_decide (engine = B "go") then normalize_diagnostic_response method v else v in
            (w, if bool_decide (normalized = v) then json else to_string normalized)
        | None => (w, json)
        end
      else (w, json)
  | Some _ =>
      if bool_decide (issued_sequence (get v (B "id")) w = None) && is_json_rpc v then (record_dispatch_liveness w, json)
      else (w, json)
  end.

Definition configuration_item (item : Value) : bool :=
  match item with
  | Object _ =>
      forallb (fun key => match get item key with None | Some (String _) => true | _ => false end) [B "section"; B "scopeUri"]
  | _ => false
  end.

(** The requests of the server that are answered here. *)
Definition auto_response (v : Value) : option Value :=
  id ← get v (B "id");
  method ← get_str v (B "method");
  if bool_decide (method = B "window/workDoneProgress/create") || bool_decide (method = B "client/registerCapability") then
    Some (Object [(B "id", id); (B "jsonrpc", String (B "2.0")); (B "result", Null)])
  else if bool_decide (method = B "workspace/configuration") then
    let items := params ← get v (B "params"); l ← get params (B "items") ≫= as_array;
                 if forallb configuration_item l then Some l else None in
    Some (match items with
          | Some l => Object [(B "id", id); (B "jsonrpc", String (B "2.0")); (B "result", Array (map (fun _ => Object []) l))]
          | None => Object [(B "error", Object [(B "code", Number (NegInt (-32602)));
                                                (B "message", String (B "workspace/configuration requires an items array of configuration objects with optional string section and scopeUri"))]);
                            (B "id", id); (B "jsonrpc", String (B "2.0"))]
          end)
  else None.

(** A frame of the server's output. *)
Definition received (json : bytes) (w : Worker) : option Worker :=
  match wk_reader w with
  | Reading =>
      Some match from_str json with
           | None => broadcast json w
           | Some v =>
               match get_str v (B "method"), get v (B "id") ≫= as_str, issued_sequence (get v (B "id")) w with
               | None, Some id, Some n => if valid_dispatch_response v then probe_reply id n w else w
               | _, _, _ =>
                   let '(w, json) := note_message v json w in
                   match auto_response v with
                   | Some reply => set_reader (Replying (length (wk_writes w)) json) (send_control (to_string reply) w)
                   | None => broadcast json w
                   end
               end
           end
  | _ => None
  end.

(** The answer was written, or was not, which ends the reader. *)
Definition reply_written (w : Worker) : option Worker :=
  match wk_reader w with
  | Replying i json =>
      x ← wk_writes w !! i;
      match wr_phase x with
      | Ended true => Some (set_reader Reading (broadcast json w))
      | Ended false => Some (set_reader ReaderEnded (retire w))
      | _ => None
      end
  | _ => None
  end.

(** The server's output has ended, or is no frame. *)
Definition output_ended (w : Worker) : option Worker :=
  match wk_reader w with Reading => Some (set_reader ReaderEnded (retire w)) | _ => None end.

(** ** Health: [health.rs] *)

Definition STUCK_AFTER_INTERVALS : Z := 8.
Definition DURATION_MAX : Z := u64_max * 1000000000 + 999999999.

(** A request is still being answered. *)
Definition busy (w : Worker) : bool :=
  match oldest_outstanding (wk_history w) with
  | Some at_ => wk_now w - at_ <? Z.min DURATION_MAX (interval * STUCK_AFTER_INTERVALS)
  | None => false
  end.

(** [start_health_probe], once the server is initialized. *)
Definition start_health_probe (w : Worker) : option Worker :=
  match wk_health w, wk_caps w with Unstarted, Some _ => Some (set_health Sleeping w) | _, _ => None end.

Definition tick (w : Worker) : option Worker :=
  match wk_health w with
  | Sleeping =>
      Some (if negb (wk_alive w) then set_health Stopped w
            else if wk_now w - wk_activity w <? interval then w
            else if busy w then w
            else set_health (Looked (wk_epoch w)) w)
  | _ => None
  end.

Definition probe_payload (id : bytes) : bytes :=
  to_string (Object [(B "id", String id); (B "jsonrpc", String (B "2.0")); (B "method", String HEALTH_PROBE_METHOD);
                     (B "params", Object [])]).

(** The lock is tried, and the probe goes out if the server is still idle. *)
Definition try_probe (w : Worker) : option Worker :=
  match wk_health w with
  | Looked epoch =>
      Some match wk_lock w with
           | Some _ => set_health Sleeping w
           | None =>
               if negb (wk_alive w) || negb (wk_epoch w =? epoch) || (wk_now w - wk_activity w <? interval) then set_health Sleeping w
               else
                 let id := id_prefix ++ show (wk_next w) in
                 let i := length (wk_writes w) in
                 let payload := probe_payload id in
                 set_health (Probing i id epoch (valid_evidence_epoch (wk_probe w)))
                   (set_lock (Some i)
                      (begin_write Probe payload (Header (header payload))
                         (set_pending (Some id) false (set_next (wrapping_succ (wk_next w)) w))))
           end
  | _ => None
  end.

Definition probe_written (w : Worker) : option Worker :=
  match wk_health w with
  | Probing i id epoch evidence =>
      x ← wk_writes w !! i;
      match wr_phase x with
      | Ended true => Some (set_health (Awaiting id epoch evidence) w)
      | Ended false =>
          if (wr_written x =? 0) && negb (wr_faulted x) then Some (set_health Sleeping (drop_pending id w))
          else Some (set_health Stopped (drop_pending id (retire_health_generation w)))
      | _ => None
      end
  | _ => None
  end.

Definition probe_answered (w : Worker) : option Worker :=
  match wk_health w with
  | Awaiting id _ _ => if wk_answered w then Some (set_health Sleeping (drop_pending id w)) else None
  | _ => None
  end.

Definition probe_closed (w : Worker) : option Worker :=
  match wk_health w with
  | Awaiting id _ _ =>
      if negb (wk_answered w) && negb (bool_decide (wk_pending w = Some id)) then Some (set_health Stopped w) else None
  | _ => None
  end.

Definition probe_timeout (w : Worker) : option Worker :=
  match wk_health w with
  | Awaiting id epoch evidence =>
      if wk_answered w then None
      else
        let w := drop_pending id w in
        let p := wk_probe w in
        if negb (wk_epoch w =? epoch) || negb (valid_evidence_epoch p =? evidence) then
          Some (set_health Sleeping (set_probe (reset_timeouts p) w))
        else
          let t := consecutive_timeouts p + 1 in
          let w := set_probe (MkProbe t (valid_evidence_epoch p) (latest_valid_sequence p) (valid_completions p)) w in
          Some (if MAX_IDLE_PROBE_TIMEOUTS <=? t then set_health Stopped (retire_health_generation w) else set_health Sleeping w)
  | _ => None
  end.

(** [Drop for BackendWorker]: both tasks are stopped. *)
Definition drop_worker (w : Worker) : Worker :=
  let w := set_reader ReaderEnded (set_health Stopped (retire w)) in
  MkWorker (wk_alive w) (wk_killed w) true (wk_out w) (wk_lock w) (wk_epoch w) (wk_activity w) (wk_probe w) (wk_next w)
    (wk_pending w) (wk_answered w) (wk_history w) (wk_caps w) (wk_writes w) (wk_reader w) (wk_health w) (wk_frames w) (wk_now w).

(** ** The handshake: [init.rs] *)

Inductive InitStep := KeepWaiting | Refused | NoCapabilities | Capabilities (c : Value).

(** A message while the answer to [initialize] is awaited. *)
Definition init_message (message : bytes) : InitStep :=
  match from_str message with
  | None => KeepWaiting
  | Some v =>
      if bool_decide (is_Some (get v (B "method"))) || negb (bool_decide ((get v (B "id") ≫= as_u64) = Some 1)) then KeepWaiting
      else if bool_decide (is_Some (get v (B "error"))) then Refused
      else match pointer v [B "result"; B "capabilities"] with
           | Some (Object members) => Capabilities (Object members)
           | _ => NoCapabilities
           end
  end.

(** The messages in order, until the first that settles it. *)
Fixpoint await_capabilities (messages : list bytes) : InitStep :=
  match messages with
  | [] => KeepWaiting
  | m :: rest => match init_message m with KeepWaiting => await_capabilities rest | r => r end
  end.

(** Only the first message that answers request 1 settles the handshake. *)
Lemma handshake_settles messages r : await_capabilities messages = r -> r <> KeepWaiting ->
  exists before m after, messages = before ++ m :: after /\ Forall (fun x => init_message x = KeepWaiting) before /\ init_message m = r.
Proof.
  intros <-. induction messages as [|m messages IH]; [done|]. cbn [await_capabilities]. destruct (init_message m) eqn:E; intros Hr.
  - destruct (IH Hr) as (before & m' & after & -> & Hb & Hm). exists (m :: before), m', after. split_and!; [done|by constructor|done].
  - by exists [], m, messages.
  - by exists [], m, messages.
  - by exists [], m, messages.
Qed.

(** ** Runs *)

Inductive Ev :=
| Send (json : bytes)
| Enter (i : nat) | Lock (i : nat) | LockTimeout (i : nat) | Wrote (i : nat) (n : Z) | Flushed (i : nat)
| Failed (i : nat) (faulted : bool) | Cancel (i : nat) | Unlock (i : nat) | Returns (i : nat)
| Received (json : bytes) | ReplyWritten | OutputEnded
| StartHealth | Tick | TryProbe | ProbeWritten | ProbeAnswered | ProbeClosed | ProbeTimeout
| Initialized (message : bytes)
| DropWorker
| Clock (t : Z).

Definition step (e : Ev) (w : Worker) : option Worker :=
  match e with
  | Send json => if wk_dropped w then None else Some (send_with_timeout json w)
  | Enter i => write_enter i w
  | Lock i => write_lock i w
  | LockTimeout i => lock_timeout i w
  | Wrote i n => wrote i n w
  | Flushed i => flushed i w
  | Failed i faulted => write_failed i faulted w
  | Cancel i => cancel i w
  | Unlock i => unlock i w
  | Returns i => returns i w
  | Received json => received json w
  | ReplyWritten => reply_written w
  | OutputEnded => output_ended w
  | StartHealth => start_health_probe w
  | Tick => tick w
  | TryProbe => try_probe w
  | ProbeWritten => probe_written w
  | ProbeAnswered => probe_answered w
  | ProbeClosed => probe_closed w
  | ProbeTimeout => probe_timeout w
  | Initialized message => match init_message message with Capabilities c => Some (set_caps (Some c) w) | _ => None end
  | DropWorker => if wk_dropped w then None else Some (drop_worker w)
  | Clock t => if wk_now w <=? t then Some (set_now t w) else None
  end.

Fixpoint run (events : list Ev) (w : Worker) : option Worker :=
  match events with
  | [] => Some w
  | e :: events' => w' ← step e w; run events' w'
  end.
End backend.

(** [spawn_command]: a process that has just been started. *)
Definition spawned (now : Z) : Worker :=
  MkWorker true false false [] None 0 now (MkProbe 0 0 0 0) 1 None false empty_history None [] Reading Unstarted [] now.
