(* ===== verification/BackendStream.v ===== *)
(** * What the language server reads

    Whoever writes and however a write ends, the server's input is a sequence of whole frames,
    of which at most the last is cut off, and then nothing follows it. *)

From stdpp Require Import list.
From Stdlib Require Import Strings.Byte.
From S2P Require Import Prelude RustStr Codec Json Transport RequestHistory Backend.

Lemma lsp_frame_parts p : lsp_frame p = header p ++ p.
Proof. unfold lsp_frame, header. by rewrite <- !app_assoc. Qed.
Lemma header_nonempty p : header p <> [].
Proof. by unfold header. Qed.

(** ** Where a write stands in its frame *)

Definition writing (x : Write) : Prop := match wr_phase x with Header _ | Payload _ | Flush => True | _ => False end.
Definition holding (x : Write) : Prop := match wr_phase x with Header _ | Payload _ | Flush | Releasing _ => True | _ => False end.
Definition whole (x : Write) : Prop := wr_written x = zlen (lsp_frame (wr_payload x)).
Definition sent (x : Write) : bytes := ztake (wr_written x) (lsp_frame (wr_payload x)).

(** What is left of the frame, while it is written. *)
Definition left_over (x : Write) : bytes :=
  match wr_phase x with Header rest => rest ++ wr_payload x | Payload rest => rest | _ => [] end.

Definition write_ok (x : Write) : Prop :=
  match wr_phase x with
  | Registered | Queued => wr_written x = 0
  | Header rest => rest <> [] /\ exists pre, lsp_frame (wr_payload x) = pre ++ left_over x /\ wr_written x = zlen pre
  | Payload rest => rest <> [] /\ exists pre, lsp_frame (wr_payload x) = pre ++ left_over x /\ wr_written x = zlen pre
  | Flush => whole x
  | Releasing ok | Returned ok | Ended ok => 0 <= wr_written x <= zlen (lsp_frame (wr_payload x)) /\ (ok = true -> whole x)
  end.

Lemma write_ok_bounds x : write_ok x -> 0 <= wr_written x <= zlen (lsp_frame (wr_payload x)).
Proof.
  unfold write_ok. pose proof (zlen_nonneg (lsp_frame (wr_payload x))). destruct (wr_phase x); try (intros ->; lia); try (intros [? _]; lia).
  - intros (_ & pre & -> & ->). rewrite zlen_app. pose proof (zlen_nonneg pre). pose proof (zlen_nonneg (left_over x)). lia.
  - intros (_ & pre & -> & ->). rewrite zlen_app. pose proof (zlen_nonneg pre). pose proof (zlen_nonneg (left_over x)). lia.
Qed.
Lemma sent_whole x : whole x -> sent x = lsp_frame (wr_payload x).
Proof. intros H. unfold sent. rewrite H. by rewrite <- (app_nil_r (lsp_frame _)) at 2; rewrite ztake_app_exact. Qed.

(** ** The input *)

Definition sent_at_index (l : list Write) (i : nat) : bytes := match l !! i with Some x => sent x | None => [] end.

(** [order]: the writes of which the input has taken a byte, in that order. *)
Record stream_ok (w : Worker) (order : list nat) : Prop := {
  so_write : forall i x, wk_writes w !! i = Some x -> write_ok x;
  so_lock : forall i x, wk_writes w !! i = Some x -> holding x <-> wk_lock w = Some i;
  so_locked : forall i, wk_lock w = Some i -> (i < length (wk_writes w))%nat;
  so_out : wk_out w = concat (map (sent_at_index (wk_writes w)) order);
  so_nodup : NoDup order;
  so_valid : forall i, i ∈ order -> (i < length (wk_writes w))%nat;
  so_started : forall i x, wk_writes w !! i = Some x -> 0 < wr_written x <-> i ∈ order;
  so_broken : forall i x, i ∈ order -> wk_writes w !! i = Some x ->
    whole x \/ (exists pre, order = pre ++ [i]) /\ (wk_alive w = false \/ writing x);
  so_fresh : forall i x, wk_writes w !! i = Some x -> writing x -> wr_written x = 0 ->
    forall j y, j ∈ order -> wk_writes w !! j = Some y -> whole y;
}.

Section stream.
Context (w w' : Worker) (order : list nat).
Context (Hok : stream_ok w order).
Context (Halive : wk_alive w' = false \/ wk_alive w' = wk_alive w).

(** Nothing is written while nobody holds the lock, and a server that runs has only whole
    frames then. *)
Lemma idle_whole : wk_lock w = None -> wk_alive w = true -> forall j y, j ∈ order -> wk_writes w !! j = Some y -> whole y.
Proof using Hok.
  intros Hl Ha j y Hj Hy. destruct (so_broken _ _ Hok j y Hj Hy) as [?|[_ [?|Hw]]]; [done|congruence|].
  assert (wk_lock w = Some j); [|congruence]. apply (so_lock _ _ Hok j y Hy). unfold writing, holding in *. by destruct (wr_phase y).
Qed.

Lemma so_quiet : wk_writes w' = wk_writes w -> wk_out w' = wk_out w -> wk_lock w' = wk_lock w -> stream_ok w' order.
Proof using Hok Halive.
  intros Hw Ho Hl. destruct Hok as [H1 H2 H2' H3 H4 H5 H6 H7 H8]. split; rewrite ?Hw, ?Ho, ?Hl; try done.
  intros i x Hi Hx. destruct (H7 i x Hi Hx) as [?|[Hp [?|?]]]; [by left|right; split; [done|]..]; [|by right].
  left. destruct Halive; congruence.
Qed.

Lemma sent_outs l l' : (forall i, i ∈ order -> sent_at_index l' i = sent_at_index l i) ->
  concat (map (sent_at_index l') order) = concat (map (sent_at_index l) order).
Proof using. intros H. f_equal. apply map_ext_in. intros i Hi%list_elem_of_In. by apply H. Qed.

(** A write takes a step within its frame. *)
Lemma so_phase i x x' : wk_writes w !! i = Some x -> wk_writes w' = <[i := x']> (wk_writes w) -> wk_out w' = wk_out w ->
  wr_payload x' = wr_payload x -> wr_written x' = wr_written x -> write_ok x' ->
  (forall j, j <> i -> wk_lock w' = Some j <-> wk_lock w = Some j) -> (holding x' <-> wk_lock w' = Some i) ->
  (writing x -> writing x' \/ whole x' \/ wr_written x' = 0 \/ wk_alive w' = false) ->
  (writing x' -> writing x \/ (wk_lock w = None /\ wk_alive w = true)) -> stream_ok w' order.
Proof using Hok Halive.
  intros Hx Hw Ho Hp Hwr Hxok Hlock Hhold Hkeep Hstart. pose proof (lookup_lt_Some _ _ _ Hx) as Hlt.
  assert (Hget : forall j y, wk_writes w' !! j = Some y -> j = i /\ y = x' \/ j <> i /\ wk_writes w !! j = Some y).
  { intros j y. rewrite Hw. intros [(-> & <- & _)|[? ?]]%list_lookup_insert_Some; auto. }
  split.
  - intros j y [[-> ->]|[_ Hj]]%Hget; [done|]. by eapply so_write.
  - intros j y [[-> ->]|[Hne Hj]]%Hget; [done|]. rewrite Hlock by done. by eapply so_lock.
  - intros j Hj. rewrite Hw, length_insert. destruct (decide (j = i)) as [->|Hne]; [done|]. apply Hlock in Hj; [|done]. by eapply so_locked.
  - rewrite Ho, (so_out _ _ Hok). symmetry. apply sent_outs. intros j _. unfold sent_at_index. rewrite Hw.
    destruct (decide (j = i)) as [->|Hne]; [|by rewrite list_lookup_insert_ne].
    rewrite list_lookup_insert_eq, Hx by done. unfold sent. by rewrite Hp, Hwr.
  - apply Hok.
  - intros j. rewrite Hw, length_insert. apply Hok.
  - intros j y [[-> ->]|[_ Hj]]%Hget; [rewrite Hwr|]; by apply (so_started _ _ Hok).
  - intros j y Hj [[-> ->]|[_ Hy]]%Hget.
    + destruct (so_broken _ _ Hok i x Hj Hx) as [Hwh|[Hlast Hb]]; [left; unfold whole in *; congruence|].
      assert (0 < wr_written x) by (by apply (so_started _ _ Hok i x Hx)). destruct Hb as [Hb|Hb].
      * right. split; [done|]. left. destruct Halive; congruence.
      * destruct (Hkeep Hb) as [?|[?|[?|?]]]; [by right; auto|by left|lia|by right; auto].
    + destruct (so_broken _ _ Hok j y Hj Hy) as [?|[Hlast Hb]]; [by left|right]. split; [done|].
      destruct Hb as [Hb|Hb]; [|by right]. left. destruct Halive; congruence.
  - intros j y Hj Hwy H0 k z Hk Hz.
    assert (Hall : forall k z, k ∈ order -> wk_writes w !! k = Some z -> whole z).
    { destruct (Hget j y Hj) as [[-> ->]|[_ Hy]]; [|by eapply (so_fresh _ _ Hok)].
      destruct (Hstart Hwy) as [Hb|[Hl Ha]]; [|by apply idle_whole]. eapply (so_fresh _ _ Hok i x Hx); [done|lia]. }
    destruct (Hget k z Hz) as [[-> ->]|[_ Hz']]; [|by eapply Hall].
    pose proof (Hall i x Hk Hx). unfold whole in *. congruence.
Qed.

(** A new write. *)
Lemma so_new x : wk_writes w' = wk_writes w ++ [x] -> wk_out w' = wk_out w -> wr_written x = 0 -> write_ok x ->
  (~ holding x /\ wk_lock w' = wk_lock w
   \/ holding x /\ wk_lock w = None /\ wk_lock w' = Some (length (wk_writes w)) /\ wk_alive w = true) -> stream_ok w' order.
Proof using Hok Halive.
  intros Hw Ho H0 Hxok Hlock.
  assert (Hget : forall j y, wk_writes w' !! j = Some y -> j = length (wk_writes w) /\ y = x \/ wk_writes w !! j = Some y).
  { intros j y. rewrite Hw. intros [H|[Hge [E <-]%list_lookup_singleton_Some]]%lookup_app_Some; [by right|left; split; [lia|done]]. }
  assert (Hout : forall j, j ∈ order -> j <> length (wk_writes w)) by (intros j Hj%(so_valid _ _ Hok); lia).
  split.
  - intros j y [[-> ->]|Hj]%Hget; [done|]. by eapply so_write.
  - intros j y [[-> ->]|Hj]%Hget.
    + destruct Hlock as [[Hn ->]|(Hh & _ & -> & _)]; [|done]. split; [done|]. intros H%(so_locked _ _ Hok). lia.
    + rewrite (so_lock _ _ Hok j y Hj). destruct Hlock as [[_ ->]|(_ & -> & -> & _)]; [done|]. split; [done|].
      intros [= <-]. apply lookup_lt_Some in Hj. lia.
  - intros j Hj. rewrite Hw, length_app. cbn. destruct Hlock as [[_ E]|(_ & _ & E & _)]; rewrite E in Hj.
    + apply (so_locked _ _ Hok) in Hj. lia.
    + injection Hj as <-. lia.
  - rewrite Ho, (so_out _ _ Hok). symmetry. apply sent_outs. intros j Hj%(so_valid _ _ Hok). unfold sent_at_index. rewrite Hw.
    by rewrite lookup_app_l.
  - apply Hok.
  - intros j Hj%(so_valid _ _ Hok). rewrite Hw, length_app. lia.
  - intros j y [[-> ->]|Hj]%Hget; [|by apply (so_started _ _ Hok)]. split; [lia|]. intros Hj%Hout. done.
  - intros j y Hj [[-> ->]|Hy]%Hget; [by apply Hout in Hj|].
    destruct (so_broken _ _ Hok j y Hj Hy) as [?|[Hlast Hb]]; [by left|right]. split; [done|].
    destruct Hb as [Hb|Hb]; [|by right]. left. destruct Halive; congruence.
  - intros j y Hj Hwy Hy0 k z Hk Hz. destruct (Hget k z Hz) as [[-> _]|Hz']; [by apply Hout in Hk|].
    destruct (Hget j y Hj) as [[-> ->]|Hy]; [|by eapply (so_fresh _ _ Hok j y)].
    destruct Hlock as [[Hn _]|(_ & Hl & _ & Ha)]; [|by eapply (idle_whole Hl Ha k)].
    exfalso. apply Hn. unfold writing, holding in *. by destruct (wr_phase x).
Qed.
End stream.

(** The bytes the pipe takes are the next ones of the frame. *)
Lemma next_part_ok (x : Write) (n : Z) (in_header : bool) (rest pre tail : bytes) :
  lsp_frame (wr_payload x) = pre ++ rest ++ tail -> tail = (if in_header then wr_payload x else []) ->
  wr_written x = zlen pre -> 0 < n <= zlen rest ->
  let x' := MkWrite (wr_owner x) (wr_payload x) (next_part (wr_payload x) in_header (zdrop n rest)) (wr_written x + n) (wr_faulted x) in
  write_ok x' /\ writing x' /\ sent x' = sent x ++ ztake n rest.
Proof.
  intros Hf Ht Hw Hn x'. assert (Hf' : lsp_frame (wr_payload x) = (pre ++ ztake n rest) ++ zdrop n rest ++ tail).
  { rewrite Hf, <- app_assoc. f_equal. by rewrite (app_assoc (ztake n rest)), ztake_zdrop. }
  assert (Hlen : zlen (pre ++ ztake n rest) = wr_written x + n) by (rewrite zlen_app, zlen_ztake by lia; lia).
  split_and!.
  - unfold write_ok, whole. cbn [x' wr_phase wr_written wr_payload left_over]. rewrite Hf'.
    destruct in_header, (zdrop n rest) as [|b r] eqn:E; cbn [next_part]; cbv iota in Ht; subst tail.
    + destruct (wr_payload x) as [|c p] eqn:Ep; [by rewrite !app_nil_r|].
      split; [done|]. by exists (pre ++ ztake n rest).
    + split; [done|]. by exists (pre ++ ztake n rest).
    + by rewrite !app_nil_r.
    + split; [done|]. exists (pre ++ ztake n rest). by rewrite app_nil_r.
  - unfold writing. cbn [x' wr_phase]. destruct in_header, (zdrop n rest); cbn [next_part]; try done. by destruct (wr_payload x).
  - unfold sent. cbn [x' wr_payload wr_written]. rewrite <- Hlen, Hf' at 1. rewrite ztake_app_exact by done.
    rewrite Hf, ztake_app_exact by done. done.
Qed.

Lemma so_bytes w w' order i x x' bs : stream_ok w order -> wk_writes w !! i = Some x -> write_ok x' -> writing x -> writing x' ->
  ~ whole x -> wr_written x < wr_written x' -> sent x' = sent x ++ bs -> wk_alive w' = wk_alive w ->
  wk_writes w' = <[i := x']> (wk_writes w) -> wk_out w' = wk_out w ++ bs -> wk_lock w' = wk_lock w ->
  exists order', stream_ok w' order'.
Proof.
  intros Hok Hx Hxok Hwx Hwx' Hnw Hlt Hsent Ha Hw Ho Hl. pose proof (lookup_lt_Some _ _ _ Hx) as Hi.
  pose proof (write_ok_bounds _ (so_write _ _ Hok i x Hx)) as Hb.
  assert (Hget : forall j y, wk_writes w' !! j = Some y -> j = i /\ y = x' \/ j <> i /\ wk_writes w !! j = Some y).
  { intros j y. rewrite Hw. intros [(-> & <- & _)|[? ?]]%list_lookup_insert_Some; auto. }
  assert (Hlock : wk_lock w = Some i) by (apply (so_lock _ _ Hok i x Hx); unfold writing, holding in *; by destruct (wr_phase x)).
  (* the writes before this one, all whole *)
  assert (exists pre, (wr_written x = 0 /\ order = pre \/ 0 < wr_written x /\ order = pre ++ [i]) /\ i ∉ pre
            /\ forall j y, j ∈ pre -> wk_writes w !! j = Some y -> whole y) as (pre & Hord & Hni & Hpre).
  { destruct (decide (wr_written x = 0)) as [E|E].
    - exists order. split_and!; [by left| |]; [intros H%(so_started _ _ Hok i x Hx); lia|]. by eapply (so_fresh _ _ Hok i x).
    - assert (Hin : i ∈ order) by (apply (so_started _ _ Hok i x Hx); lia).
      destruct (so_broken _ _ Hok i x Hin Hx) as [?|[[pre ->] _]]; [done|]. exists pre.
      pose proof (so_nodup _ _ Hok) as [_ [Hd _]]%NoDup_app. split_and!; [right; split; [lia|done]|intros H; by apply (Hd i H); left|].
      intros j y Hj Hy. assert (Hj' : j ∈ pre ++ [i]) by (apply elem_of_app; by left).
      destruct (so_broken _ _ Hok j y Hj' Hy) as [?|[[pre' E'] _]]; [done|]. exfalso. apply app_inj_tail in E' as [_ ->].
      by apply (Hd j Hj); left. }
  assert (Hold : forall j, j ∈ pre -> sent_at_index (wk_writes w') j = sent_at_index (wk_writes w) j).
  { intros j Hj. unfold sent_at_index. rewrite Hw, list_lookup_insert_ne; [done|]. by intros <-. }
  exists (pre ++ [i]). split.
  - intros j y [[-> ->]|[_ Hj]]%Hget; [done|]. by eapply so_write.
  - intros j y [[-> ->]|[Hne Hj]]%Hget; rewrite Hl; [|by eapply so_lock].
    split; [done|]. intros _. unfold writing, holding in *. by destruct (wr_phase x').
  - intros j. rewrite Hl, Hw, length_insert. apply Hok.
  - rewrite Ho, (so_out _ _ Hok), map_app, concat_app. cbn [map concat]. rewrite app_nil_r.
    assert (Hi' : sent_at_index (wk_writes w') i = sent x ++ bs) by (unfold sent_at_index; by rewrite Hw, list_lookup_insert_eq).
    rewrite Hi', (sent_outs pre (wk_writes w) (wk_writes w')) by done.
    destruct Hord as [[E ->]|[E ->]].
    + f_equal. unfold sent. by rewrite E, ztake_0.
    + rewrite map_app, concat_app. cbn [map concat]. rewrite app_nil_r, <- app_assoc. unfold sent_at_index at 2. by rewrite Hx.
  - pose proof (so_nodup _ _ Hok) as Hn. apply NoDup_app. split_and!; [|intros j Hj ->%list_elem_of_singleton; done|apply NoDup_singleton].
    destruct Hord as [[_ ->]|[_ ->]]; [done|by apply NoDup_app in Hn as [? _]].
  - intros j [Hj| ->%list_elem_of_singleton]%elem_of_app; rewrite Hw, length_insert; [|done]. apply (so_valid _ _ Hok).
    destruct Hord as [[_ ->]|[_ ->]]; [done|apply elem_of_app; by left].
  - intros j y [[-> ->]|[Hne Hj]]%Hget.
    + split; [intros _; apply elem_of_app; right; left|lia].
    + rewrite (so_started _ _ Hok j y Hj). destruct Hord as [[_ ->]|[_ ->]]; [|done]. rewrite elem_of_app, list_elem_of_singleton. naive_solver.
  - intros j y Hj [[-> ->]|[Hne Hy]]%Hget; [right; split; [by exists pre|by right]|left].
    apply elem_of_app in Hj as [Hj| ->%list_elem_of_singleton]; [|done]. by eapply Hpre.
  - intros j y Hj Hwy H0 k z Hk Hz. exfalso. destruct (Hget j y Hj) as [[-> ->]|[Hne Hy]]; [lia|].
    assert (wk_lock w = Some j); [|congruence]. apply (so_lock _ _ Hok j y Hy). unfold writing, holding in *. by destruct (wr_phase y).
Qed.

Lemma so_wrote w w' order i n : stream_ok w order -> wrote i n w = Some w' -> exists order', stream_ok w' order'.
Proof.
  intros Hok. unfold wrote. destruct (wk_writes w !! i) as [x|] eqn:Hx; [|done]. cbn [mbind option_bind].
  pose proof (so_write _ _ Hok i x Hx) as Hxok.
  assert (Hgo : forall (in_header : bool) (rest pre tail : bytes), lsp_frame (wr_payload x) = pre ++ rest ++ tail -> writing x ->
            tail = (if in_header then wr_payload x else []) -> wr_written x = zlen pre ->
            (if (0 <? n) && (n <=? zlen rest) then
               let x' := MkWrite (wr_owner x) (wr_payload x) (next_part (wr_payload x) in_header (zdrop n rest)) (wr_written x + n) (wr_faulted x) in
               Some (set_write i x' (set_out (wk_out w ++ ztake n rest) w))
             else None) = Some w' -> exists order', stream_ok w' order').
  { intros in_header rest pre tail Hf Hwx Ht Hw. destruct (Z.ltb_spec 0 n), (Z.leb_spec n (zlen rest)); try done. cbn [andb].
    intros [= <-]. destruct (next_part_ok x n in_header rest pre tail) as (H1 & H2 & H3); [done..|].
    eapply (so_bytes w _ order i x _ (ztake n rest)); try done; [|cbn; lia].
    unfold whole. rewrite Hf, !zlen_app, Hw. pose proof (zlen_nonneg tail). lia. }
  unfold write_ok in Hxok. destruct (wr_phase x) as [ | |rest|rest| | | | ] eqn:Hp; try done.
  - destruct Hxok as (_ & pre & Hf & Hw). unfold left_over in Hf. rewrite Hp in Hf.
    apply (Hgo true rest pre (wr_payload x)); try done. unfold writing. by rewrite Hp.
  - destruct Hxok as (_ & pre & Hf & Hw). unfold left_over in Hf. rewrite Hp in Hf.
    apply (Hgo false rest pre []); try done; [by rewrite app_nil_r|]. unfold writing. by rewrite Hp.
Qed.

(** ** Every step *)

(** The parts of the state that writing does not touch. *)
Definition same_stream (w w' : Worker) : Prop :=
  wk_writes w' = wk_writes w /\ wk_out w' = wk_out w /\ wk_lock w' = wk_lock w
  /\ (wk_alive w' = false \/ wk_alive w' = wk_alive w).

Lemma so_same w w' order : stream_ok w order -> same_stream w w' -> exists order', stream_ok w' order'.
Proof. intros Hok (H1 & H2 & H3 & H4). exists order. by apply (so_quiet w). Qed.

Lemma so_begin w w0 order owner payload p : stream_ok w order -> same_stream w w0 -> p = Registered \/ p = Ended false ->
  stream_ok (begin_write owner payload p w0) order.
Proof.
  intros Hok (H1 & H2 & H3 & H4) Hp. apply (so_new w (begin_write owner payload p w0) _ Hok H4 (MkWrite owner payload p 0 false)); try done.
  - cbn. by rewrite H1.
  - pose proof (zlen_nonneg (lsp_frame payload)). destruct Hp as [-> | ->]; [done|]. unfold write_ok. cbn [wr_phase wr_written wr_payload]. split; [lia|done].
  - left. split; [destruct Hp as [-> | ->]; intros []|done].
Qed.

Lemma quiet_refl w : same_stream w w.
Proof. split_and!; auto. Qed.
#[local] Hint Resolve quiet_refl : core.
Ltac quiet := solve [split_and!; auto].

Lemma so_to_phase w order i x p w1 : stream_ok w order -> wk_writes w !! i = Some x ->
  wk_writes w1 = wk_writes w -> wk_out w1 = wk_out w -> (wk_alive w1 = false \/ wk_alive w1 = wk_alive w) ->
  write_ok (to_phase p x) -> (forall j, j <> i -> wk_lock w1 = Some j <-> wk_lock w = Some j) ->
  (holding (to_phase p x) <-> wk_lock w1 = Some i) ->
  (writing x -> writing (to_phase p x) \/ whole (to_phase p x) \/ wr_written x = 0 \/ wk_alive w1 = false) ->
  (writing (to_phase p x) -> writing x \/ (wk_lock w = None /\ wk_alive w = true)) ->
  exists order', stream_ok (set_write i (to_phase p x) w1) order'.
Proof.
  intros Hok Hx H1 H2 H3 Hxok Hl Hh Hk Hs. exists order.
  apply (so_phase w (set_write i (to_phase p x) w1) order Hok H3 i x (to_phase p x)); try done. cbn [set_write set_writes wk_writes]. by rewrite H1.
Qed.

Lemma so_drop_frame w order i x faulted : stream_ok w order -> wk_writes w !! i = Some x -> writing x ->
  exists order', stream_ok (drop_frame i x faulted w) order'.
Proof.
  intros Hok Hx Hw. exists order. pose proof (write_ok_bounds _ (so_write _ _ Hok i x Hx)).
  assert (Hl : wk_lock w = Some i) by (apply (so_lock _ _ Hok i x Hx); unfold writing, holding in *; by destruct (wr_phase x)).
  unfold drop_frame. cbn [wr_faulted]. set (w1 := if negb (wr_written x =? 0) || (wr_faulted x || faulted) then retire w else w).
  assert (E : wk_writes w1 = wk_writes w /\ wk_out w1 = wk_out w /\ wk_lock w1 = wk_lock w
            /\ (wk_alive w1 = false \/ wr_written x = 0 /\ wk_alive w1 = wk_alive w)).
  { unfold w1. destruct (Z.eqb_spec (wr_written x) 0); cbn [negb orb]; [|by split_and!; auto]. destruct (_ || _); by split_and!; auto. }
  clearbody w1. destruct E as (H1 & H2 & H3 & H4).
  eapply (so_phase w _ _ Hok) with (i := i) (x := x); cbn; rewrite ?H1, ?H3; try done.
  - naive_solver.
  - naive_solver.
Qed.

Ltac phase_cases :=
  unfold write_ok, holding, writing, whole in *; cbn [to_phase wr_phase wr_written wr_payload wk_lock set_lock set_history wk_alive] in *;
  repeat match goal with H : wr_phase _ = _ |- _ => rewrite H in * end.

Section steps.
Context (from_str : bytes -> option Value) (to_string : Value -> bytes) (engine id_prefix : bytes) (interval : Z).

Lemma so_send w order json : stream_ok w order -> exists order', stream_ok (send_with_timeout from_str id_prefix json w) order'.
Proof.
  intros Hok. exists order. unfold send_with_timeout.
  assert (Hr : stream_ok (begin_write (Caller None) json (Ended false) w) order) by (apply (so_begin w); auto).
  destruct (wk_alive w); cbn [negb]; [|done]. destruct (ordinary_request from_str json) as [v|].
  - destruct (bool_decide _); [done|]. destruct (insert _ _ _ _) as [h tok].
    apply (so_begin w); [done|by split_and!; auto|auto].
  - apply (so_begin w); [done|by split_and!; auto|auto].
Qed.

Lemma so_received w w' order json : stream_ok w order -> received from_str to_string engine id_prefix json w = Some w' ->
  exists order', stream_ok w' order'.
Proof.
  intros Hok. unfold received. destruct (wk_reader w); try done. intros [= <-].
  destruct (from_str json) as [v|]; [|apply (so_same w _ order); [done|quiet]].
  assert (Hnote : same_stream w (note_message to_string engine id_prefix v json w).1).
  { unfold note_message. destruct (get_str v (B "method")).
    - destruct (_ && _); [by split_and!; auto|done].
    - destruct (valid_dispatch_response v); [|done]. destruct (take_request _ _) as [h [m|]]; [by split_and!; auto|done]. }
  destruct (note_message to_string engine id_prefix v json w) as [w1 json'] eqn:En. cbn [fst] in Hnote.
  assert (Hrest : exists order', stream_ok match auto_response v with
                    | Some reply => set_reader (Replying (length (wk_writes w1)) json') (send_control (to_string reply) w1)
                    | None => broadcast json' w1
                    end order').
  { destruct (auto_response v) as [reply|].
    - exists order. assert (H1 : stream_ok (send_control (to_string reply) w1) order) by (apply (so_begin w); auto).
      by apply (so_quiet _ _ _ H1); auto.
    - apply (so_same w _ order); [done|]. exact Hnote. }
  destruct (get_str v (B "method")); [done|]. destruct (get v (B "id") ≫= as_str) as [id|]; [|done].
  destruct (issued_sequence _ _ _) as [n|]; [|done]. destruct (valid_dispatch_response v); [|apply (so_same w _ order); [done|quiet]].
  unfold probe_reply. apply (so_same w _ order); [done|]. destruct (bool_decide _); destruct (_ <? _); by split_and!; auto.
Qed.

Lemma so_writes w w' order e : stream_ok w order ->
  match e with
  | Enter i => write_enter i w | Lock i => write_lock i w | LockTimeout i => lock_timeout i w | Wrote i n => wrote i n w
  | Flushed i => flushed i w | Failed i faulted => write_failed i faulted w | Cancel i => cancel i w | Unlock i => unlock i w
  | Returns i => returns i w | _ => None
  end = Some w' -> exists order', stream_ok w' order'.
Proof.
  intros Hok. destruct e; try done; [| | |exact (so_wrote w w' order i n Hok)| | | | |].
  all: unfold write_enter, write_lock, lock_timeout, flushed, write_failed, cancel, unlock, returns.
  all: destruct (wk_writes w !! i) as [x|] eqn:Hx; [|done]; cbn [mbind option_bind].
  all: pose proof (so_write _ _ Hok i x Hx) as Hxok; pose proof (so_lock _ _ Hok i x Hx) as Hl.
  all: pose proof (write_ok_bounds _ Hxok) as Hb.
  all: unfold write_ok, holding in Hxok, Hl.
  - destruct (wr_phase x) eqn:Hp; try done. intros [= <-]. apply (so_to_phase w order); try done; auto.
    all: destruct (wk_alive w); phase_cases; naive_solver lia.
  - destruct (wr_phase x) eqn:Hp; try done. destruct (wk_lock w) eqn:El; [done|]. intros [= <-].
    destruct (wk_alive w) eqn:Ea; apply (so_to_phase w order); try done; auto; phase_cases; rewrite ?El; try naive_solver lia.
    split; [apply header_nonempty|]. exists []. split; [exact (lsp_frame_parts _)|done].
  - destruct (wr_phase x) eqn:Hp; try done. intros [= <-]. apply (so_to_phase w order); try done; auto; phase_cases; naive_solver lia.
  - destruct (wr_phase x) eqn:Hp; try done. intros [= <-]. apply (so_to_phase w order); try done; auto; phase_cases; naive_solver lia.
  - destruct (wr_phase x) eqn:Hp; try done; intros [= <-]; apply (so_drop_frame w order); try done; unfold writing; by rewrite Hp.
  - destruct (match wr_owner x with Caller _ => true | _ => wk_dropped w end); [|done].
    destruct (wr_phase x) eqn:Hp; try done; intros [= <-];
      try (apply (so_drop_frame w order); try done; unfold writing; by rewrite Hp).
    all: apply (so_to_phase w order); try done; auto; phase_cases; naive_solver lia.
  - destruct (wr_phase x) eqn:Hp; try done. intros [= <-]. assert (El : wk_lock w = Some i) by (by apply Hl).
    apply (so_to_phase w order); try done; auto; phase_cases; rewrite ?El; naive_solver lia.
  - destruct (wr_phase x) eqn:Hp; try done. intros [= <-]. apply (so_to_phase w order); try done; auto; phase_cases; naive_solver lia.
Qed.

Lemma stream_step e w w' order : stream_ok w order -> step from_str to_string engine id_prefix interval e w = Some w' ->
  exists order', stream_ok w' order'.
Proof.
  intros Hok. pose proof (so_writes w w' order e Hok) as Hw. destruct e; cbn [step]; try exact Hw; clear Hw.
  - destruct (wk_dropped w); [done|]. intros [= <-]. by apply (so_send w order).
  - by apply (so_received w w' order).
  - unfold reply_written. destruct (wk_reader w) as [ |i json| ]; try done. destruct (wk_writes w !! i) as [x|]; [|done]. cbn [mbind option_bind].
    destruct (wr_phase x) as [ | | | | | | |[]]; try done; intros [= <-]; apply (so_same w _ order); [done|quiet|done|quiet].
  - unfold output_ended. destruct (wk_reader w); try done. intros [= <-]. apply (so_same w _ order); [done|quiet].
  - unfold start_health_probe. destruct (wk_health w), (wk_caps w); try done. intros [= <-]. apply (so_same w _ order); [done|quiet].
  - unfold tick. destruct (wk_health w); try done. intros [= <-]. apply (so_same w _ order); [done|].
    destruct (negb _); [quiet|]. destruct (_ <? _); [quiet|]. destruct (busy _ _); quiet.
  - unfold try_probe. destruct (wk_health w); try done. intros [= <-]. destruct (wk_lock w) eqn:El; [apply (so_same w _ order); [done|quiet]|].
    destruct (wk_alive w) eqn:Ea; cbn [negb orb]; [|apply (so_same w _ order); [done|quiet]].
    destruct (_ || _); [apply (so_same w _ order); [done|quiet]|]. exists order. set (payload := probe_payload to_string _).
    match goal with |- stream_ok ?w' _ => set (w1 := w') end.
    assert (Ha : wk_alive w1 = false \/ wk_alive w1 = wk_alive w) by (by right).
    apply (so_new w w1 order Hok Ha (MkWrite Probe payload (Header (header payload)) 0 false)); try done.
    + split; [apply header_nonempty|]. exists []. split; [exact (lsp_frame_parts _)|done].
    + by right.
  - unfold probe_written. destruct (wk_health w) as [ | | |i id ep ev| | ]; try done. destruct (wk_writes w !! i) as [x|]; [|done]. cbn [mbind option_bind].
    destruct (wr_phase x) as [ | | | | | | |[]]; try done; [intros [= <-]; apply (so_same w _ order); [done|quiet]|].
    destruct (_ && _); intros [= <-]; apply (so_same w _ order); [done| |done|]; unfold drop_pending; destruct (bool_decide _); quiet.
  - unfold probe_answered. destruct (wk_health w) as [ | | | |id ep ev| ]; try done. destruct (wk_answered w); [|done]. intros [= <-].
    apply (so_same w _ order); [done|]. unfold drop_pending. destruct (bool_decide _); quiet.
  - unfold probe_closed. destruct (wk_health w) as [ | | | |id ep ev| ]; try done. destruct (_ && _); [|done]. intros [= <-].
    apply (so_same w _ order); [done|quiet].
  - unfold probe_timeout. destruct (wk_health w) as [ | | | |id ep ev| ]; try done. destruct (wk_answered w); [done|].
    assert (Hd : same_stream w (drop_pending id w)) by (unfold drop_pending; destruct (bool_decide _); quiet).
    destruct (_ || _); intros [= <-]; apply (so_same w _ order); try done. destruct (_ <=? _); [|done].
    destruct Hd as (? & ? & ? & _). by split_and!; auto.
  - destruct (init_message _ _); try done. intros [= <-]. apply (so_same w _ order); [done|quiet].
  - destruct (wk_dropped w); [done|]. intros [= <-]. apply (so_same w _ order); [done|quiet].
  - destruct (_ <=? _); [|done]. intros [= <-]. apply (so_same w _ order); [done|quiet].
Qed.
End steps.

(** ** What the server reads *)

(** A reader that takes [n] frames, and what is left. *)
Fixpoint take_frames (n : nat) (s : bytes) : option (list bytes * bytes) :=
  match n with
  | O => Some ([], s)
  | S n' =>
      match read_lsp_frame s with
      | (Ok (Some body), rest) => '(bodies, rest) ← take_frames n' rest; Some (body :: bodies, rest)
      | _ => None
      end
  end.

Lemma take_frames_all bodies rest : Forall lsp_body bodies ->
  take_frames (length bodies) (concat (map lsp_frame bodies) ++ rest) = Some (bodies, rest).
Proof.
  induction 1 as [|b bodies Hb _ IH]; [done|]. cbn [length map concat take_frames]. rewrite <- app_assoc, read_one_frame by done.
  by rewrite IH.
Qed.

Definition payload_at (w : Worker) (i : nat) : option bytes := wr_payload <$> wk_writes w !! i.

Lemma whole_outputs w ids : (forall i, i ∈ ids -> exists x, wk_writes w !! i = Some x /\ whole x) ->
  exists payloads, mapM (payload_at w) ids = Some payloads
    /\ concat (map (sent_at_index (wk_writes w)) ids) = concat (map lsp_frame payloads).
Proof.
  induction ids as [|i ids IH]; intros H; [by exists []|].
  destruct (H i) as (x & Hx & Hw); [left|]. destruct IH as (ps & Hm & E); [intros j Hj; apply H; by right|].
  exists (wr_payload x :: ps). split.
  - apply mapM_Some. constructor; [unfold payload_at; by rewrite Hx|by apply mapM_Some].
  - cbn [map concat]. rewrite E. f_equal. unfold sent_at_index. rewrite Hx. by apply sent_whole.
Qed.

(** The order cut before a frame that is not whole. *)
Lemma stream_cut w order : stream_ok w order -> exists done rest,
  NoDup done /\ (forall i, i ∈ done -> exists x, wk_writes w !! i = Some x /\ whole x)
  /\ wk_out w = concat (map (sent_at_index (wk_writes w)) done) ++ rest
  /\ (forall i x, wk_writes w !! i = Some x -> whole x -> i ∈ done)
  /\ (rest <> [] -> exists i x more, wk_writes w !! i = Some x /\ i ∉ done /\ more <> []
        /\ lsp_frame (wr_payload x) = rest ++ more /\ (wk_alive w = false \/ writing x)).
Proof.
  intros Hok. pose proof (so_nodup _ _ Hok) as Hn. pose proof (so_out _ _ Hok) as Ho.
  assert (Hin : forall i x, wk_writes w !! i = Some x -> whole x -> i ∈ order).
  { intros i x Hx Hw. apply (so_started _ _ Hok i x Hx). rewrite Hw. unfold lsp_frame. rewrite zlen_app.
    pose proof (zlen_nonneg (show (zlen (wr_payload x)) ++ crlf ++ crlf ++ wr_payload x)). change (zlen (B "Content-Length: ")) with 16. lia. }
  assert (Hlook : forall i, i ∈ order -> exists x, wk_writes w !! i = Some x).
  { intros i Hi%(so_valid _ _ Hok). by apply lookup_lt_is_Some_2. }
  destruct order as [|l order' _] using rev_ind.
  { exists [], []. split_and!; try done. by intros i Hi%not_elem_of_nil. }
  apply NoDup_app in Hn as (Hn & Hd & _). destruct (Hlook l) as [x Hx]; [apply elem_of_app; right; left|].
  assert (Hpre : forall i, i ∈ order' -> exists x, wk_writes w !! i = Some x /\ whole x).
  { intros i Hi. assert (Hi' : i ∈ order' ++ [l]) by (apply elem_of_app; by left). destruct (Hlook i Hi') as [y Hy]. exists y. split; [done|].
    destruct (so_broken _ _ Hok i y Hi' Hy) as [?|[[pre E] _]]; [done|]. apply app_inj_tail in E as [_ ->]. exfalso. by apply (Hd i Hi); left. }
  rewrite map_app, concat_app in Ho. cbn [map concat] in Ho. rewrite app_nil_r in Ho. unfold sent_at_index at 2 in Ho. rewrite Hx in Ho.
  destruct (decide (wr_written x = zlen (lsp_frame (wr_payload x)))) as [Hw|Hw].
  - exists (order' ++ [l]), []. split_and!; try done.
    + apply NoDup_app. split_and!; [done|done|apply NoDup_singleton].
    + intros i [Hi| ->%list_elem_of_singleton]%elem_of_app; [by apply Hpre|by exists x].
    + rewrite Ho, app_nil_r, map_app, concat_app. cbn [map concat]. rewrite app_nil_r. unfold sent_at_index at 3. by rewrite Hx.
  - exists order', (sent x). split_and!; try done.
    + intros i y Hy Hwy. pose proof (Hin i y Hy Hwy) as [?| ->%list_elem_of_singleton]%elem_of_app; [done|]. exfalso. unfold whole in Hwy. congruence.
    + intros _. exists l, x, (zdrop (wr_written x) (lsp_frame (wr_payload x))).
      pose proof (write_ok_bounds _ (so_write _ _ Hok l x Hx)). split_and!; [done| | |symmetry; apply ztake_zdrop|].
      * intros Hl. by apply (Hd l Hl); left.
      * intros E. apply (f_equal zlen) in E. rewrite zlen_zdrop, zlen_nil in E by lia. lia.
      * destruct (so_broken _ _ Hok l x) as [?|[_ ?]]; [apply elem_of_app; right; left|done|done|done].
Qed.

Lemma stream_start t : stream_ok (spawned t) [].
Proof. split; cbn [spawned wk_writes wk_lock wk_out]; try done; try (by intros i x H); try apply NoDup_nil_2; by intros i H%not_elem_of_nil. Qed.

Section theorem.
Context (from_str : bytes -> option Value) (to_string : Value -> bytes) (engine id_prefix : bytes) (interval : Z).

Lemma run_keeps (J : Worker -> Prop) events w w' :
  (forall e w w', J w -> step from_str to_string engine id_prefix interval e w = Some w' -> J w') -> J w ->
  run from_str to_string engine id_prefix interval events w = Some w' -> J w'.
Proof.
  intros Hstep. revert w. induction events as [|e events IH]; intros w HJ; cbn [run]; [by intros [= <-]|].
  destruct (step from_str to_string engine id_prefix interval e w) as [w1|] eqn:E; [|done]. cbn [mbind option_bind]. apply IH. by eapply Hstep.
Qed.

(** C29: The language server never reads a frame that is not one.  Whoever writes at the same time,
    however little the pipe takes at once, and wherever a write fails, runs out of time or is
    dropped: the server's input is whole frames, each of another write and every write that
    succeeded among them, and at most one frame that is cut off, at the end, which is still
    being written or belongs to a server that is given up.  A reader of frames takes exactly
    those messages from it. *)
Theorem server_input_whole (t : Z) (events : list Ev) (w : Worker) :
  run from_str to_string engine id_prefix interval events (spawned t) = Some w ->
  exists done rest payloads, mapM (payload_at w) done = Some payloads /\ NoDup done
  /\ wk_out w = concat (map lsp_frame payloads) ++ rest
  /\ (forall i x, wk_writes w !! i = Some x -> wr_phase x = Ended true -> i ∈ done)
  /\ (rest <> [] -> exists i x more, wk_writes w !! i = Some x /\ i ∉ done /\ more <> []
        /\ lsp_frame (wr_payload x) = rest ++ more /\ (wk_alive w = false \/ writing x))
  /\ (Forall lsp_body payloads -> take_frames (length payloads) (wk_out w) = Some (payloads, rest)).
Proof.
  intros Hrun. assert (exists order, stream_ok w order) as [order Hok].
  { revert Hrun. apply (run_keeps (fun w => exists order, stream_ok w order)); [|exists []; apply stream_start].
    intros e w1 w2 [o Ho]. by apply stream_step with o. }
  destruct (stream_cut w order Hok) as (done_ & rest & Hn & Hw & Ho & Hall & Hrest).
  destruct (whole_outputs w done_ Hw) as (payloads & Hm & E). rewrite E in Ho. exists done_, rest, payloads. split_and!; try done.
  - intros i x Hx Hp. apply (Hall i x Hx). pose proof (so_write _ _ Hok i x Hx) as Hxok. unfold write_ok in Hxok. rewrite Hp in Hxok. by apply Hxok.
  - intros Hb. rewrite Ho. by apply take_frames_all.
Qed.
End theorem.

(** ** Two callers, of which the second is cut off *)

Module Example.

Definition no_json (_ : bytes) : option Value := None.
Definition constant (_ : Value) : bytes := B "{}".

Definition events : list Ev :=
  [Send (B "{}"); Send (B "[1]"); Enter 1; Enter 0; Lock 0; Wrote 0 16; Wrote 0 5; Wrote 0 2; Flushed 0; Unlock 0;
   Lock 1; Wrote 1 10; Cancel 1; Unlock 1; Returns 1; Returns 0; Send (B "{}")].

Definition ended (w : Worker) : bool :=
  negb (wk_alive w) && bool_decide (wk_out w = lsp_frame (B "{}") ++ B "Content-Le")
  && match wk_writes w !! 0%nat with Some (MkWrite _ _ (Ended true) _ _) => true | _ => false end.

Lemma ended_facts : match run no_json constant (B "go") HEALTH_PROBE_ID_PREFIX DEFAULT_HEALTH_PROBE_INTERVAL events (spawned 0) with
                    | Some w => ended w
                    | None => false
                    end = true.
Proof. vm_compute. reflexivity. Qed.

Lemma server_input_whole_witness : exists w done rest payloads,
  run no_json constant (B "go") HEALTH_PROBE_ID_PREFIX DEFAULT_HEALTH_PROBE_INTERVAL events (spawned 0) = Some w
  /\ wk_alive w = false /\ wk_out w = lsp_frame (B "{}") ++ B "Content-Le"
  /\ mapM (payload_at w) done = Some payloads /\ 0%nat ∈ done /\ wk_out w = concat (map lsp_frame payloads) ++ rest.
Proof.
  pose proof ended_facts as H.
  destruct (run no_json constant (B "go") HEALTH_PROBE_ID_PREFIX DEFAULT_HEALTH_PROBE_INTERVAL events (spawned 0)) as [w|] eqn:E;
    [|exfalso; discriminate H].
  unfold ended in H. rewrite !andb_true_iff, negb_true_iff, bool_decide_eq_true in H. destruct H as [[Ha Ho] Hw].
  destruct (server_input_whole no_json constant (B "go") HEALTH_PROBE_ID_PREFIX DEFAULT_HEALTH_PROBE_INTERVAL 0 events w E)
    as (done_ & rest & payloads & Hm & _ & Hout & Hall & _).
  exists w, done_, rest, payloads. split; [reflexivity|]. split; [exact Ha|]. split; [exact Ho|]. split; [exact Hm|]. split; [|exact Hout].
  destruct (wk_writes w !! 0%nat) as [[? ? [ | | | | | | |[]] ? ?]|] eqn:Ex; try (exfalso; discriminate Hw). by eapply Hall.
Defined.

End Example.
