(* ===== verification/BackendHealth.v ===== *)
(** * When a silent language server is given up

    The health task compares counters that other tasks advance.  Seen from outside it counts
    the probes in a row that ran out of time with no sign of life since they were sent. *)

From stdpp Require Import list.
From Stdlib Require Import Strings.Byte.
From S2P Require Import Prelude RustStr Codec Json Transport RequestHistory Backend BackendStream.

(** ** The specification *)

Inductive Sign := Life | Issue | Miss | Nothing.

(** [silent]: probes missed in a row; [fresh]: a sign of life since the last probe was sent. *)
Record Watch := MkWatch { silent : Z; fresh : bool }.

Definition watch_sign (s : Sign) (m : Watch) : Watch :=
  match s with
  | Life => MkWatch 0 true
  | Issue => MkWatch (silent m) false
  | Miss => if fresh m then MkWatch 0 true else MkWatch (silent m + 1) false
  | Nothing => m
  end.

Section health.
Context (from_str : bytes -> option Value) (to_string : Value -> bytes) (engine id_prefix : bytes) (interval : Z).
#[local] Abbreviation step := (step from_str to_string engine id_prefix interval).
#[local] Abbreviation run := (run from_str to_string engine id_prefix interval).

(** A message that is sent to the server. *)
Definition accepts (json : bytes) (w : Worker) : bool :=
  wk_alive w && match ordinary_request from_str json with
                | Some v => bool_decide (health_probe_sequence (id_of v) id_prefix = None)
                | None => true
                end.

(** A frame that shows that the server works: a request or notification of its own, the answer
    to a request it still owes, or the answer to a newer probe than any before. *)
Definition shows_life (json : bytes) (w : Worker) : bool :=
  match from_str json with
  | None => false
  | Some v =>
      match get_str v (B "method"), issued_sequence id_prefix (get v (B "id")) w with
      | Some _, None => is_json_rpc v
      | Some _, Some _ => false
      | None, Some n => valid_dispatch_response v && (latest_valid_sequence (wk_probe w) <? n)
      | None, None => valid_dispatch_response v && existsb (fun r => bool_decide (id_ r = id_of v)) (requests (wk_history w))
      end
  end.

Definition sends_probe (w : Worker) : bool :=
  match wk_health w, wk_lock w with
  | Looked epoch, None => wk_alive w && (wk_epoch w =? epoch) && negb (wk_now w - wk_activity w <? interval)
  | _, _ => false
  end.

Definition sign (e : Ev) (w : Worker) : Sign :=
  match e with
  | Send json => if accepts json w then Life else Nothing
  | Received json => if shows_life json w then Life else Nothing
  | TryProbe => if sends_probe w then Issue else Nothing
  | ProbeTimeout => Miss
  | _ => Nothing
  end.

(** The signs of a run. *)
Fixpoint watch (events : list Ev) (w : Worker) (m : Watch) : Watch :=
  match events with
  | [] => m
  | e :: events' => match step e w with Some w' => watch events' w' (watch_sign (sign e w) m) | None => m end
  end.

(** ** Refinement *)

(** After [n] events. *)
Record watched (n : Z) (w : Worker) (m : Watch) : Prop := {
  wd_epoch : 0 <= wk_epoch w <= n;
  wd_evidence : 0 <= valid_evidence_epoch (wk_probe w) <= n;
  wd_silent : consecutive_timeouts (wk_probe w) = silent m;
  wd_since : match wk_health w with
             | Probing _ _ ep ev | Awaiting _ ep ev =>
                 ep <= wk_epoch w /\ ev <= valid_evidence_epoch (wk_probe w)
                 /\ (fresh m = false <-> ep = wk_epoch w /\ ev = valid_evidence_epoch (wk_probe w))
             | _ => True
             end;
}.

(** Nothing the health task looks at changes. *)
Definition same_health (w w' : Worker) : Prop :=
  wk_epoch w' = wk_epoch w /\ wk_probe w' = wk_probe w /\ wk_health w' = wk_health w.

Lemma wd_same n w w' m : watched n w m -> same_health w w' -> watched (n + 1) w' m.
Proof. intros [H1 H2 H3 H4] (E1 & E2 & E3). split; rewrite ?E1, ?E2, ?E3; try done; lia. Qed.

(** The health task goes to rest, or begins to wait for the probe it wrote. *)
Lemma wd_health n w w' m h : watched n w m -> wk_epoch w' = wk_epoch w -> wk_probe w' = wk_probe w -> wk_health w' = h ->
  match h with
  | Probing _ _ _ _ => False
  | Awaiting _ ep ev => exists i id, wk_health w = Probing i id ep ev
  | _ => True
  end -> watched (n + 1) w' m.
Proof.
  intros [H1 H2 H3 H4] E1 E2 E3 Hh. split; rewrite ?E1, ?E2, ?E3; try done; try lia.
  destruct h; try done. destruct Hh as (i & id' & E). by rewrite E in H4.
Qed.

Lemma wrapping_succ_small n : 0 <= n < 2 ^ 64 - 1 -> wrapping_succ n = n + 1.
Proof. intros H. unfold wrapping_succ. apply Z.mod_small. lia. Qed.

(** A sign of life advances one of the counters at least. *)
Lemma wd_life n w w' m : watched n w m -> n < 2 ^ 64 - 1 -> wk_health w' = wk_health w ->
  consecutive_timeouts (wk_probe w') = 0 ->
  (wk_epoch w' = wrapping_succ (wk_epoch w) /\ valid_evidence_epoch (wk_probe w') = valid_evidence_epoch (wk_probe w)
   \/ wk_epoch w' = wk_epoch w /\ valid_evidence_epoch (wk_probe w') = wrapping_succ (valid_evidence_epoch (wk_probe w))
   \/ wk_epoch w' = wrapping_succ (wk_epoch w) /\ valid_evidence_epoch (wk_probe w') = wrapping_succ (valid_evidence_epoch (wk_probe w))) ->
  watched (n + 1) w' (watch_sign Life m).
Proof.
  intros [H1 H2 H3 H4] Hn Eh Et Hc. rewrite !wrapping_succ_small in Hc by lia. split; try done.
  - lia.
  - lia.
  - rewrite Eh. cbn [watch_sign fresh]. destruct (wk_health w); try done; split_and!; try lia; split; try done; lia.
Qed.

Lemma remove_first_exists {Id : Type} (f : @Issued Id -> bool) l : bool_decide (is_Some (remove_first f l)) = existsb f l.
Proof.
  induction l as [|x l IH]; [done|]. cbn. destruct (f x); [done|]. cbn. rewrite <- IH. by destruct (remove_first f l) as [[]|].
Qed.

Lemma wd_send n w m json : watched n w m -> n < 2 ^ 64 - 1 ->
  watched (n + 1) (send_with_timeout from_str id_prefix json w) (watch_sign (if accepts json w then Life else Nothing) m).
Proof.
  intros H Hn. unfold send_with_timeout, accepts. destruct (wk_alive w); cbn [negb andb]; [|by apply (wd_same n w)].
  destruct (ordinary_request from_str json) as [v|]; [|by apply (wd_life n w); auto].
  destruct (health_probe_sequence (id_of v) id_prefix) eqn:E.
  - rewrite bool_decide_true by (by eexists). rewrite bool_decide_false by done. by apply (wd_same n w).
  - rewrite bool_decide_false by (by intros []). rewrite bool_decide_true by done. destruct (insert _ _ _ _) as [h tok].
    by apply (wd_life n w); auto.
Qed.

Lemma wd_received n w w' m json : watched n w m -> n < 2 ^ 64 - 1 -> received from_str to_string engine id_prefix json w = Some w' ->
  watched (n + 1) w' (watch_sign (if shows_life json w then Life else Nothing) m).
Proof.
  intros H Hn. unfold received, shows_life. destruct (wk_reader w); try done. intros [= <-].
  destruct (from_str json) as [v|]; [|by apply (wd_same n w)].
  assert (Hrest : forall (w1 : Worker) (json' : bytes) m', watched (n + 1) w1 m' ->
    watched (n + 1) match auto_response v with
                    | Some reply => set_reader (Replying (length (wk_writes w1)) json') (send_control (to_string reply) w1)
                    | None => broadcast json' w1
                    end m').
  { intros w1 json' m' [H1 H2 H3 H4]. by destruct (auto_response v). }
  assert (Hsame : watched (n + 1) w m) by (by apply (wd_same n w)).
  unfold note_message. destruct (get_str v (B "method")) as [method|].
  - destruct (issued_sequence id_prefix (get v (B "id")) w) as [k|]; [rewrite bool_decide_false by done; by apply Hrest|].
    rewrite bool_decide_true by done. cbn [andb]. destruct (is_json_rpc v); apply Hrest; [|done]. by apply (wd_life n w); auto.
  - destruct (issued_sequence id_prefix (get v (B "id")) w) as [k|] eqn:Ek.
    + assert (exists id, get v (B "id") ≫= as_str = Some id) as [id Hid].
      { unfold issued_sequence in Ek. destruct (get v (B "id")) as [x|]; [|done]. cbn in *. unfold health_probe_sequence in Ek.
        destruct (as_str x); [by eexists|done]. }
      rewrite Hid. destruct (valid_dispatch_response v); cbn [andb]; [|done]. unfold probe_reply.
      assert (Ew : forall w1, w1 = (if bool_decide (wk_pending w = Some id) then set_pending None true w else w) ->
                wk_probe w1 = wk_probe w /\ wk_epoch w1 = wk_epoch w /\ wk_health w1 = wk_health w) by (intros w1 ->; by destruct (bool_decide _)).
      set (w1 := if bool_decide _ then _ else _). destruct (Ew w1 eq_refl) as (E1 & E2 & E3). clearbody w1. rewrite E1.
      destruct (_ <? _); [|by apply (wd_same n w)]. apply (wd_life n w); try done. cbn. rewrite E2. auto.
    + replace (match get v (B "id") ≫= as_str with Some _ | _ => _ end) with
        (let '(w0, json0) := if valid_dispatch_response v then
              let '(h, request) := take_request (wk_history w) (id_of v) in
              match request with
              | Some method =>
                  let w0 := record_dispatch_liveness (set_history h w) in
                  let normalized := if bool_decide (engine = B "go") then normalize_diagnostic_response method v else v in
                  (w0, if bool_decide (normalized = v) then json else to_string normalized)
              | None => (w, json)
              end
            else (w, json) in
         match auto_response v with
         | Some reply => set_reader (Replying (length (wk_writes w0)) json0) (send_control (to_string reply) w0)
         | None => broadcast json0 w0
         end) by (by destruct (get v (B "id") ≫= as_str)).
      destruct (valid_dispatch_response v); cbn [andb]; [|by apply Hrest].
      rewrite <- remove_first_exists. unfold take_request. destruct (remove_first _ _) as [[x rest]|].
      * rewrite (bool_decide_true (is_Some (Some (x, rest)))) by (by eexists).
        apply (Hrest (record_dispatch_liveness (set_history (mkHistory (next_token (wk_history w)) rest) w))). by apply (wd_life n w); auto.
      * rewrite bool_decide_false by (by intros []). by apply Hrest.
Qed.

Lemma wd_timeout n w w' m : watched n w m -> probe_timeout w = Some w' ->
  watched (n + 1) w' (watch_sign Miss m)
  /\ wk_alive w' = wk_alive w && (silent (watch_sign Miss m) <? MAX_IDLE_PROBE_TIMEOUTS).
Proof.
  intros [H1 H2 H3 H4]. unfold probe_timeout. destruct (wk_health w) as [ | | | |id ep ev| ] eqn:Eh; try done.
  destruct (wk_answered w); [done|]. destruct H4 as (Hep & Hev & Hfresh).
  assert (E : wk_epoch (drop_pending id w) = wk_epoch w /\ wk_probe (drop_pending id w) = wk_probe w /\ wk_alive (drop_pending id w) = wk_alive w)
    by (unfold drop_pending; by destruct (bool_decide _)).
  destruct E as (E1 & E2 & E3). rewrite E1, E2. destruct (fresh m) eqn:Ef; cbn [watch_sign]; rewrite Ef.
  - assert (Hne : negb (wk_epoch w =? ep) || negb (valid_evidence_epoch (wk_probe w) =? ev) = true).
    { destruct (Z.eqb_spec (wk_epoch w) ep), (Z.eqb_spec (valid_evidence_epoch (wk_probe w)) ev); try done. exfalso.
      assert (true = false) by (by apply Hfresh; split). done. }
    rewrite Hne. intros [= <-]. split.
    + split; cbn; rewrite ?E1; try done; lia.
    + cbn. by rewrite E3, andb_true_r.
  - destruct (proj1 Hfresh eq_refl) as [-> ->]. rewrite !Z.eqb_refl. cbn [negb orb]. intros [= <-]. cbn [silent]. rewrite <- H3.
    destruct (Z.leb_spec MAX_IDLE_PROBE_TIMEOUTS (consecutive_timeouts (wk_probe w) + 1)).
    + split; [split; cbn; rewrite ?E1; try done; lia|]. replace (_ <? _) with false by lia. by rewrite andb_false_r.
    + split; [split; cbn; rewrite ?E1; try done; lia|]. replace (_ <? _) with true by lia. cbn. by rewrite E3, andb_true_r.
Qed.

Lemma wd_try n w w' m : watched n w m -> try_probe to_string id_prefix interval w = Some w' ->
  watched (n + 1) w' (watch_sign (if sends_probe w then Issue else Nothing) m).
Proof.
  intros H. unfold try_probe, sends_probe. destruct (wk_health w) as [ | |ep| | | ] eqn:Eh; try done. intros [= <-].
  destruct (wk_lock w); [by apply (wd_health n w _ _ Sleeping)|].
  destruct (wk_alive w); cbn [negb orb andb]; [|by apply (wd_health n w _ _ Sleeping)].
  destruct (Z.eqb_spec (wk_epoch w) ep) as [<-|]; cbn [negb orb andb]; [|by apply (wd_health n w _ _ Sleeping)].
  destruct (_ <? _); cbn [negb]; [by apply (wd_health n w _ _ Sleeping)|].
  destruct H as [H1 H2 H3 _]. split; cbn; try done; try lia.
Qed.

Lemma drop_frame_health i x faulted w : same_health w (drop_frame i x faulted w).
Proof. unfold drop_frame. by destruct (negb _ || _). Qed.

Lemma watched_step n e w w' m : watched n w m -> n < 2 ^ 64 - 1 -> step e w = Some w' ->
  watched (n + 1) w' (watch_sign (sign e w) m).
Proof.
  intros H Hn. destruct e; cbn [Backend.step sign].
  - destruct (wk_dropped w); [done|]. intros [= <-]. by apply wd_send.
  - unfold write_enter. destruct (wk_writes w !! i) as [x|]; [|done]. cbn [mbind option_bind]. destruct (wr_phase x); try done. intros [= <-]. by apply (wd_same n w).
  - unfold write_lock. destruct (wk_writes w !! i) as [x|]; [|done]. cbn [mbind option_bind]. destruct (wr_phase x), (wk_lock w); try done. intros [= <-]. by apply (wd_same n w).
  - unfold lock_timeout. destruct (wk_writes w !! i) as [x|]; [|done]. cbn [mbind option_bind]. destruct (wr_phase x); try done. intros [= <-]. by apply (wd_same n w).
  - unfold wrote. destruct (wk_writes w !! i) as [x|]; [|done]. cbn [mbind option_bind]. destruct (wr_phase x); try done; destruct (_ && _); try done; intros [= <-]; by apply (wd_same n w).
  - unfold flushed. destruct (wk_writes w !! i) as [x|]; [|done]. cbn [mbind option_bind]. destruct (wr_phase x); try done. intros [= <-]. by apply (wd_same n w).
  - unfold write_failed. destruct (wk_writes w !! i) as [x|]; [|done]. cbn [mbind option_bind].
    destruct (wr_phase x); try done; intros [= <-]; apply (wd_same n w); try done; apply drop_frame_health.
  - unfold cancel. destruct (wk_writes w !! i) as [x|]; [|done]. cbn [mbind option_bind].
    destruct (match wr_owner x with Caller _ => true | _ => wk_dropped w end); [|done].
    destruct (wr_phase x); try done; intros [= <-]; apply (wd_same n w); try done; apply drop_frame_health.
  - unfold unlock. destruct (wk_writes w !! i) as [x|]; [|done]. cbn [mbind option_bind]. destruct (wr_phase x); try done. intros [= <-]. by apply (wd_same n w).
  - unfold returns. destruct (wk_writes w !! i) as [x|]; [|done]. cbn [mbind option_bind]. destruct (wr_phase x); try done. intros [= <-]. by apply (wd_same n w).
  - by apply wd_received.
  - unfold reply_written. destruct (wk_reader w) as [ |i json| ]; try done. destruct (wk_writes w !! i) as [x|]; [|done]. cbn [mbind option_bind].
    destruct (wr_phase x) as [ | | | | | | |[]]; try done; intros [= <-]; by apply (wd_same n w).
  - unfold output_ended. destruct (wk_reader w); try done. intros [= <-]. by apply (wd_same n w).
  - unfold start_health_probe. destruct (wk_health w), (wk_caps w); try done. intros [= <-]. by apply (wd_health n w _ _ Sleeping).
  - unfold tick. destruct (wk_health w) eqn:Eh; try done. intros [= <-]. destruct (negb _); [by apply (wd_health n w _ _ Stopped)|].
    destruct (_ <? _); [by apply (wd_same n w)|]. destruct (busy _ _); [by apply (wd_same n w)|]. by apply (wd_health n w _ _ (Looked (wk_epoch w))).
  - by apply wd_try.
  - unfold probe_written. destruct (wk_health w) as [ | | |i id ep ev| | ] eqn:Eh; try done. destruct (wk_writes w !! i) as [x|]; [|done]. cbn [mbind option_bind].
    destruct (wr_phase x) as [ | | | | | | |[]]; try done; [intros [= <-]; apply (wd_health n w _ _ (Awaiting id ep ev)); eauto|].
    destruct (_ && _); intros [= <-].
    + apply (wd_health n w _ _ Sleeping); try done; unfold drop_pending; by destruct (bool_decide _).
    + apply (wd_health n w _ _ Stopped); try done; unfold drop_pending; by destruct (bool_decide _).
  - unfold probe_answered. destruct (wk_health w) as [ | | | |id ep ev| ]; try done. destruct (wk_answered w); [|done]. intros [= <-].
    apply (wd_health n w _ _ Sleeping); try done; unfold drop_pending; by destruct (bool_decide _).
  - unfold probe_closed. destruct (wk_health w) as [ | | | |id ep ev| ]; try done. destruct (_ && _); [|done]. intros [= <-]. by apply (wd_health n w _ _ Stopped).
  - intros Hs. exact (proj1 (wd_timeout _ _ _ _ H Hs)).
  - destruct (init_message _ _); try done. intros [= <-]. by apply (wd_same n w).
  - destruct (wk_dropped w); [done|]. intros [= <-]. by apply (wd_health n w _ _ Stopped).
  - destruct (_ <=? _); [|done]. intros [= <-]. by apply (wd_same n w).
Qed.

Lemma watched_run n events w w' m : watched n w m -> n + zlen events < 2 ^ 64 -> run events w = Some w' ->
  watched (n + zlen events) w' (watch events w m).
Proof.
  revert n w m. induction events as [|e events IH]; intros n w m H Hn; cbn [Backend.run watch].
  - intros [= <-]. by rewrite zlen_nil, Z.add_0_r.
  - rewrite zlen_cons in *. pose proof (zlen_nonneg events). destruct (step e w) as [w1|] eqn:E; [|done]. cbn [mbind option_bind].
    intros Hrun. replace (n + (1 + zlen events)) with (n + 1 + zlen events) by lia. apply IH; [|lia|done]. apply watched_step; [done|lia|done].
Qed.

End health.

(** ** A server that answers nothing after its initialization *)

Module Example.

Definition initialize_reply : bytes := B "initialized".
Definition from_str (s : bytes) : option Value :=
  if bool_decide (s = initialize_reply) then
    Some (Object [(B "id", Number (PosInt 1)); (B "jsonrpc", String (B "2.0")); (B "result", Object [(B "capabilities", Object [])])])
  else None.
Definition to_string (_ : Value) : bytes := B "{}".

(** The [i]-th probe goes out whole. *)
Definition probing (i : nat) : list Ev :=
  [Tick; TryProbe; Wrote i 21; Wrote i 2; Flushed i; Unlock i; Returns i; ProbeWritten].
Definition events : list Ev :=
  [Initialized initialize_reply; StartHealth; Clock DEFAULT_HEALTH_PROBE_INTERVAL]
  ++ probing 0 ++ [ProbeTimeout] ++ probing 1 ++ [ProbeTimeout] ++ probing 2.

Abbreviation outcome := (run from_str to_string (B "go") HEALTH_PROBE_ID_PREFIX DEFAULT_HEALTH_PROBE_INTERVAL events (spawned 0)).
Abbreviation seen :=
  (watch from_str to_string (B "go") HEALTH_PROBE_ID_PREFIX DEFAULT_HEALTH_PROBE_INTERVAL events (spawned 0) (MkWatch 0 false)).

Lemma outcome_facts : match outcome with
                      | Some w => wk_alive w && match probe_timeout w with Some _ => true | None => false end
                      | None => false
                      end = true.
Proof. vm_compute. reflexivity. Qed.
Lemma seen_facts : seen = MkWatch 2 false.
Proof. vm_compute. reflexivity. Qed.


End Example.
