(* ===== verification/EngineKind.v ===== *)
(** * Engine kinds (crates/prod-code-protocol/src/messages/wire.rs)

    The kinds of code-intelligence engine, their names and the spellings they are recognised by. *)

From Stdlib Require Import Strings.Byte.
From S2P Require Import Prelude RustStr.

Inductive EngineKind :=
| Rust | Go | Python | TypeScript | Cpp | Swift | Java | Kotlin | Csharp | Php | Ruby | Dart
| Zig | Elixir | Scala | Lua | Haskell | Ocaml | Clojure | Julia | Shell | R | Erlang | Fsharp
| Perl | Solidity | Nim | D | Fortran | Sql | Graphql | Protobuf | Crystal | Groovy | Ada | V
| Racket | Terraform | Nix | Markdown | Yaml | Toml | Json | Html | Css | Dockerfile | Svelte
| Vue | Assembly | Powershell | Starlark | Hcl | Typst | Wat | SystemVerilog | Vhdl | Ballerina
| Jsonnet | Cue | Generic.

Definition as_str (k : EngineKind) : bytes :=
  match k with
  | Rust => B "rust"
  | Go => B "go"
  | Python => B "python"
  | TypeScript => B "typescript"
  | Cpp => B "cpp"
  | Swift => B "swift"
  | Java => B "java"
  | Kotlin => B "kotlin"
  | Csharp => B "csharp"
  | Php => B "php"
  | Ruby => B "ruby"
  | Dart => B "dart"
  | Zig => B "zig"
  | Elixir => B "elixir"
  | Scala => B "scala"
  | Lua => B "lua"
  | Haskell => B "haskell"
  | Ocaml => B "ocaml"
  | Clojure => B "clojure"
  | Julia => B "julia"
  | Shell => B "shell"
  | R => B "r"
  | Erlang => B "erlang"
  | Fsharp => B "fsharp"
  | Perl => B "perl"
  | Solidity => B "solidity"
  | Nim => B "nim"
  | D => B "d"
  | Fortran => B "fortran"
  | Sql => B "sql"
  | Graphql => B "graphql"
  | Protobuf => B "protobuf"
  | Crystal => B "crystal"
  | Groovy => B "groovy"
  | Ada => B "ada"
  | V => B "v"
  | Racket => B "racket"
  | Terraform => B "terraform"
  | Nix => B "nix"
  | Markdown => B "markdown"
  | Yaml => B "yaml"
  | Toml => B "toml"
  | Json => B "json"
  | Html => B "html"
  | Css => B "css"
  | Dockerfile => B "dockerfile"
  | Svelte => B "svelte"
  | Vue => B "vue"
  | Assembly => B "assembly"
  | Powershell => B "powershell"
  | Starlark => B "starlark"
  | Hcl => B "hcl"
  | Typst => B "typst"
  | Wat => B "wat"
  | SystemVerilog => B "systemverilog"
  | Vhdl => B "vhdl"
  | Ballerina => B "ballerina"
  | Jsonnet => B "jsonnet"
  | Cue => B "cue"
  | Generic => B "generic"
  end.

(** [s.to_lowercase()], as far as its equality with an ASCII text goes: the ASCII letters and the
    Kelvin sign, U+212A, are the characters whose lower case is ASCII. *)
Definition lower_char (c : bytes) : bytes :=
  if bool_decide (c = [xe2; x84; xaa]) then B "k" else to_ascii_lowercase c.
Definition to_lowercase (s : bytes) : bytes := concat (map lower_char (chars s)).

(** The arms of [from_str], in their order. *)
Definition spellings : list (list bytes * EngineKind) :=
  [([B "rust"], Rust);
   ([B "go"; B "golang"], Go);
   ([B "python"; B "py"], Python);
   ([B "typescript"; B "ts"; B "javascript"; B "js"], TypeScript);
   ([B "cpp"; B "c++"; B "c"; B "cxx"; B "clangd"], Cpp);
   ([B "swift"], Swift);
   ([B "java"], Java);
   ([B "kotlin"; B "kt"], Kotlin);
   ([B "csharp"; B "cs"; B "c#"; B "dotnet"], Csharp);
   ([B "php"], Php);
   ([B "ruby"; B "rb"], Ruby);
   ([B "dart"], Dart);
   ([B "zig"], Zig);
   ([B "elixir"; B "ex"; B "exs"], Elixir);
   ([B "scala"; B "sbt"], Scala);
   ([B "lua"], Lua);
   ([B "haskell"; B "hs"], Haskell);
   ([B "ocaml"; B "ml"], Ocaml);
   ([B "clojure"; B "clj"; B "cljs"; B "edn"], Clojure);
   ([B "julia"; B "jl"], Julia);
   ([B "shell"; B "sh"; B "bash"; B "zsh"], Shell);
   ([B "r"; B "rstats"], R);
   ([B "erlang"; B "erl"], Erlang);
   ([B "fsharp"; B "fs"; B "f#"], Fsharp);
   ([B "perl"; B "pl"; B "pm"], Perl);
   ([B "solidity"; B "sol"], Solidity);
   ([B "nim"], Nim);
   ([B "d"; B "dlang"], D);
   ([B "fortran"; B "f90"; B "f95"], Fortran);
   ([B "sql"], Sql);
   ([B "graphql"; B "gql"], Graphql);
   ([B "protobuf"; B "proto"], Protobuf);
   ([B "crystal"; B "cr"], Crystal);
   ([B "groovy"; B "gvy"], Groovy);
   ([B "ada"; B "adb"; B "ads"], Ada);
   ([B "v"; B "vsh"], V);
   ([B "racket"; B "rkt"], Racket);
   ([B "terraform"; B "tf"; B "tofu"], Terraform);
   ([B "nix"], Nix);
   ([B "markdown"; B "md"], Markdown);
   ([B "yaml"; B "yml"], Yaml);
   ([B "toml"], Toml);
   ([B "json"; B "jsonc"], Json);
   ([B "html"; B "htm"], Html);
   ([B "css"; B "scss"; B "less"], Css);
   ([B "dockerfile"; B "docker"; B "containerfile"], Dockerfile);
   ([B "svelte"], Svelte);
   ([B "vue"], Vue);
   ([B "assembly"; B "asm"; B "s"], Assembly);
   ([B "powershell"; B "pwsh"; B "ps1"], Powershell);
   ([B "starlark"; B "bazel"; B "bzl"], Starlark);
   ([B "hcl"; B "terragrunt"], Hcl);
   ([B "typst"; B "typ"], Typst);
   ([B "wat"; B "wast"; B "wasm"], Wat);
   ([B "systemverilog"; B "verilog"; B "sv"], SystemVerilog);
   ([B "vhdl"; B "vhd"], Vhdl);
   ([B "ballerina"; B "bal"], Ballerina);
   ([B "jsonnet"; B "libsonnet"], Jsonnet);
   ([B "cue"], Cue)].

Fixpoint match_arm (s : bytes) (arms : list (list bytes * EngineKind)) : EngineKind :=
  match arms with
  | [] => Generic
  | (names, k) :: rest => if bool_decide (s ∈ names) then k else match_arm s rest
  end.

Definition from_str (s : bytes) : EngineKind := match_arm (to_lowercase s) spellings.

(** [Display]. *)
Definition fmt (k : EngineKind) : bytes := as_str k.

(** ** Lemmas *)

Lemma from_as_str k : from_str (as_str k) = k.
Proof. destruct k; vm_compute; reflexivity. Qed.

#[export] Instance engine_kind_eq_dec : EqDecision EngineKind.
Proof.
  intros a b. destruct (decide (as_str a = as_str b)) as [He|Hne].
  - left. by rewrite <- (from_as_str a), <- (from_as_str b), He.
  - right. intros ->. done.
Defined.

Lemma match_arm_in s arms k :
  match_arm s arms = k -> k <> Generic -> exists names, (names, k) ∈ arms /\ s ∈ names.
Proof.
  induction arms as [|[names k'] arms IH]; cbn [match_arm]; [congruence|].
  destruct (decide (s ∈ names)) as [Hin|Hn].
  - rewrite bool_decide_eq_true_2 by done. intros -> _. exists names. split; [by left|done].
  - rewrite bool_decide_eq_false_2 by done. intros Hk Hg. destruct (IH Hk Hg) as (ns & Hns & Hs).
    exists ns. split; [by right|done].
Qed.

Lemma match_arm_unique s names k arms :
  NoDup (concat (map fst arms)) -> (names, k) ∈ arms -> s ∈ names -> match_arm s arms = k.
Proof.
  induction arms as [|[ns k'] arms IH]; [set_solver|]. cbn [match_arm map concat fst].
  intros [Hnd [Hdis Hnd']]%NoDup_app [Heq|Hin]%elem_of_cons Hs.
  - simplify_eq. by rewrite bool_decide_eq_true_2.
  - rewrite bool_decide_eq_false_2; [by apply IH|]. intros Hns. apply (Hdis s Hns).
    apply list_elem_of_In, in_concat. exists names. rewrite <- !list_elem_of_In. split; [|done].
    apply list_elem_of_In, (in_map fst) with (x := (names, k)). by apply list_elem_of_In.
Qed.

Lemma spellings_distinct : NoDup (concat (map fst spellings)).
Proof. by_decide. Qed.

Lemma to_lowercase_ascii s : ascii s -> to_lowercase s = to_ascii_lowercase s.
Proof.
  intros Ha. unfold to_lowercase. rewrite chars_ascii by done. clear Ha.
  induction s as [|b s IH]; [done|]. cbn [map concat]. rewrite IH. unfold lower_char.
  by rewrite bool_decide_eq_false_2.
Qed.

Lemma as_str_lower k : to_ascii_lowercase (as_str k) = as_str k.
Proof. destruct k; vm_compute; reflexivity. Qed.

Lemma as_str_ascii k : ascii (as_str k).
Proof. destruct k; repeat constructor. Qed.

(** ** Theorems *)

(** Engine names are read back and no spelling is ambiguous.  Every kind's name, in any
    ASCII case, parses to this kind; a text parses to a kind other than the generic one exactly
    when its lower case is a spelling listed for it, whatever the order of the arms; anything
    else is generic. *)
Theorem engine_kind_roundtrip (k : EngineKind) (s : bytes) :
  from_str (as_str k) = k
  /\ (eq_ignore_ascii_case s (as_str k) = true -> ascii s -> from_str s = k)
  /\ (k <> Generic -> from_str s = k <-> exists names, (names, k) ∈ spellings /\ to_lowercase s ∈ names).
Proof.
  split_and!; [apply from_as_str| |].
  - intros He Ha. unfold from_str. rewrite to_lowercase_ascii by done.
    apply bool_decide_eq_true_1 in He. rewrite He, as_str_lower.
    rewrite <- (from_as_str k) at 2. unfold from_str.
    rewrite to_lowercase_ascii by apply as_str_ascii. by rewrite as_str_lower.
  - intros Hk. split; [intros Hs; by apply match_arm_in|].
    intros (names & Hin & Hs). by apply (match_arm_unique _ names), Hs; [apply spellings_distinct|].
Qed.
