(* ===== verification/SerdeJson.v ===== *)
(** * What serde_json promises

    The values that the reader of serde_json yields, as a decidable predicate: numbers in the
    range of their variant, strings of valid UTF-8, the members of an object in the order of
    their keys ([BTreeMap]) and at most 127 levels of nesting, the reader's limit.  The class
    [SerdeJson] says what the program relies on: such a value is read back from its text, and
    only such values are read.  The text of a float is not looked into: which texts serde_json
    prints is a field of the class.

    An instance, so that the promise can be kept: a text here is the binary numeral that the
    encoding of trees in stdpp gives a value. *)

From stdpp Require Import gmap list.
From Stdlib Require Import Strings.Byte.
From S2P Require Import Prelude RustStr Utf8 Net Json.

#[local] Set Warnings "-register-all".

(** ** Objects *)

Definition key_lt (a b : bytes) : bool := negb (lex_le (map u8 b) (map u8 a)).

(** [Map::insert] and [Map::remove]. *)
Fixpoint insert_member (key : bytes) (v : Value) (members : list (bytes * Value)) : list (bytes * Value) :=
  match members with
  | [] => [(key, v)]
  | (k, w) :: rest =>
      if bool_decide (k = key) then (key, v) :: rest
      else if key_lt key k then (key, v) :: (k, w) :: rest
      else (k, w) :: insert_member key v rest
  end.
Definition remove_member (key : bytes) (members : list (bytes * Value)) : list (bytes * Value) :=
  filter (fun e => e.1 <> key) members.

(** The keys in strictly ascending order. *)
Fixpoint ascending (keys : list bytes) : bool :=
  match keys with [] => true | k :: rest => forallb (key_lt k) rest && ascending rest end.

(** ** The values that are read *)

Definition number_ok (float_text : bytes -> bool) (n : JsonNumber) : bool :=
  match n with
  | PosInt n => (0 <=? n) && (n <=? u64_max)
  | NegInt n => (- 2 ^ 63 <=? n) && (n <? 0)
  | Float text => float_text text
  end.

(** With at most [d] levels of arrays and objects. *)
Fixpoint fits (float_text : bytes -> bool) (d : nat) (v : Value) {struct v} : bool :=
  match v with
  | Null | Bool _ => true
  | Number n => number_ok float_text n
  | String s => utf8_valid s
  | Array items => match d with O => false | S d => forallb (fits float_text d) items end
  | Object members =>
      match d with
      | O => false
      | S d => ascending (map fst members) && forallb (fun e => let '(k, x) := e in utf8_valid k && fits float_text d x) members
      end
  end.

Definition LEVELS : nat := 127.

Class SerdeJson (from_str : bytes -> option Value) (to_string : Value -> bytes) := {
  float_text : bytes -> bool;
  read_print v : fits float_text LEVELS v = true -> from_str (to_string v) = Some v;
  read_fits s v : from_str s = Some v -> fits float_text LEVELS v = true;
}.

(** ** Lemmas *)

Lemma key_lt_trans a b c : key_lt a b = true -> key_lt b c = true -> key_lt a c = true.
Proof.
  unfold key_lt. rewrite !negb_true_iff. intros H1 H2. destruct (lex_le (map u8 c) (map u8 a)) eqn:E; [|done].
  destruct (lex_le_total (map u8 a) (map u8 b)) as [H|H]; [|congruence]. by rewrite (lex_le_trans _ _ _ E H) in H2.
Qed.
Lemma key_lt_other a b : a <> b -> key_lt b a = false -> key_lt a b = true.
Proof.
  unfold key_lt. rewrite negb_false_iff, negb_true_iff. intros Hne H. destruct (lex_le (map u8 b) (map u8 a)) eqn:E; [|done].
  exfalso. apply Hne. by apply map_u8_inj, lex_le_antisym.
Qed.

Lemma assoc_insert_other k key w l : k <> key -> assoc k (insert_member key w l) = assoc k l.
Proof.
  intros Hk. induction l as [|[k' w'] l IH]; cbn [insert_member assoc]; [by rewrite bool_decide_eq_false_2|].
  destruct (bool_decide_reflect (k' = key)) as [->|_]; cbn [assoc]; [by rewrite !bool_decide_eq_false_2|].
  destruct (key_lt key k'); cbn [assoc]; [by rewrite (bool_decide_eq_false_2 (key = k))|]. by rewrite IH.
Qed.

Lemma assoc_insert_same key w l : assoc key (insert_member key w l) = Some w.
Proof.
  induction l as [|[k' w'] l IH]; cbn [insert_member assoc]; [by rewrite bool_decide_eq_true_2|].
  destruct (bool_decide_reflect (k' = key)) as [->|Hk]; cbn [assoc]; [by rewrite bool_decide_eq_true_2|].
  destruct (key_lt key k'); cbn [assoc]; [by rewrite bool_decide_eq_true_2|]. by rewrite (bool_decide_eq_false_2 (k' = key)).
Qed.

Lemma forallb_insert (P : bytes * Value -> bool) key v l : P (key, v) = true -> forallb P l = true -> forallb P (insert_member key v l) = true.
Proof.
  intros Hp. induction l as [|[k w] l IH]; cbn [insert_member forallb]; [by rewrite Hp|]. rewrite andb_true_iff. intros [H1 H2].
  destruct (bool_decide _); cbn [forallb]; [by rewrite Hp|]. destruct (key_lt _ _); cbn [forallb]; [by rewrite Hp, H1, H2|]. by rewrite H1, IH.
Qed.
Lemma forallb_remove (P : bytes * Value -> bool) key l : forallb P l = true -> forallb P (remove_member key l) = true.
Proof. rewrite !forallb_forall. intros H x Hin. apply H. apply list_elem_of_In, list_elem_of_filter in Hin as [_ Hin]. by apply list_elem_of_In. Qed.

Lemma forallb_keys P (l : list (bytes * Value)) : forallb P (map fst l) = forallb (fun e => P e.1) l.
Proof. induction l as [|e l IH]; cbn; [done|]. by rewrite IH. Qed.

Lemma ascending_insert key v l : ascending (map fst l) = true -> ascending (map fst (insert_member key v l)) = true.
Proof.
  induction l as [|[k w] l IH]; cbn [insert_member map ascending fst]; [done|]. rewrite andb_true_iff. intros [H1 H2].
  destruct (bool_decide_reflect (k = key)) as [->|Hne]; cbn [map ascending fst]; [by rewrite H1, H2|].
  destruct (key_lt key k) eqn:Ek; cbn [map ascending fst forallb]; rewrite !andb_true_iff.
  - split_and!; [done| |done|done]. rewrite forallb_forall in *. intros x Hx. by apply (key_lt_trans _ k), H1.
  - split; [|by apply IH]. rewrite forallb_keys in *. apply forallb_insert; [|done]. by apply key_lt_other.
Qed.
Lemma ascending_remove key l : ascending (map fst l) = true -> ascending (map fst (remove_member key l)) = true.
Proof.
  unfold remove_member. induction l as [|[k w] l IH]; cbn [map ascending fst]; [done|]. rewrite andb_true_iff. intros [H1 H2].
  destruct (decide (k = key)); [rewrite filter_cons_False by (cbn; naive_solver); by apply IH|].
  rewrite filter_cons_True by done. cbn [map ascending fst]. rewrite IH, andb_true_r by done. rewrite forallb_keys in *. by apply (forallb_remove _ key).
Qed.

Section fits.
Context (ft : bytes -> bool).

Lemma fits_object d members : fits ft (S d) (Object members) = true <->
  ascending (map fst members) = true /\ Forall (fun e => utf8_valid e.1 = true /\ fits ft d e.2 = true) members.
Proof.
  change (fits ft (S d) (Object members)) with (ascending (map fst members) && forallb (fun e => let '(k, x) := e in utf8_valid k && fits ft d x) members).
  rewrite andb_true_iff. f_equiv. rewrite forallb_forall, Forall_forall. split; intros H [k x] Hx; specialize (H (k, x)); cbn in *; rewrite andb_true_iff in *; apply H;
    by apply list_elem_of_In.
Qed.

Lemma fits_assoc d k members x : fits ft (S d) (Object members) = true -> assoc k members = Some x -> fits ft d x = true.
Proof.
  intros [_ H]%fits_object. induction H as [|[k' y] l [_ Hy] Hl IH]; cbn [assoc]; [done|]. destruct (bool_decide _); [|done]. by intros [= <-].
Qed.
Lemma fits_get d v k x : fits ft (S d) v = true -> get v k = Some x -> fits ft d x = true.
Proof. destruct v; try done. apply fits_assoc. Qed.
Lemma fits_get_str d v k s : fits ft (S d) v = true -> get_str v k = Some s -> utf8_valid s = true.
Proof. intros Hv (x & Hx & Hs)%bind_Some. apply (fits_get d) in Hx; [|done]. destruct x; try done. by simplify_eq/=. Qed.

Lemma fits_insert d key x members : fits ft (S d) (Object members) = true -> utf8_valid key = true -> fits ft d x = true ->
  fits ft (S d) (Object (insert_member key x members)) = true.
Proof.
  rewrite !fits_object. intros [H1 H2] Hk Hx. split; [by apply ascending_insert|]. clear H1. induction H2 as [|[k y] l Hy Hl IH]; cbn [insert_member].
  - by constructor.
  - destruct (bool_decide _); [by constructor|]. destruct (key_lt _ _); [by constructor; [|constructor]|]. by constructor.
Qed.
Lemma fits_remove d key members : fits ft (S d) (Object members) = true -> fits ft (S d) (Object (remove_member key members)) = true.
Proof.
  rewrite !fits_object. intros [H1 H2]. split; [by apply ascending_remove|].
  rewrite Forall_forall in *. intros e [_ He]%list_elem_of_filter. by apply H2.
Qed.
End fits.

(** An object with given keys. *)
Ltac fits_solve :=
  unfold LEVELS;
  lazymatch goal with
  | |- fits _ _ (Object _) = true =>
      apply fits_object; split; [vm_compute; reflexivity|];
      repeat (apply Forall_cons; split; [split; [vm_compute; reflexivity|cbn [snd]; fits_solve]|]); apply Forall_nil; exact I
  | |- _ => first [done|vm_compute; reflexivity|idtac]
  end.

(** ** An instance *)

Definition leaf : Type := bool + JsonNumber + bytes.
#[export] Instance json_number_countable : Countable JsonNumber.
Proof.
  refine (inj_countable' (fun n => match n with PosInt n => inl (inl n) | NegInt n => inl (inr n) | Float t => inr t end)
    (fun s : Z + Z + bytes => match s with inl (inl n) => PosInt n | inl (inr n) => NegInt n | inr t => Float t end) _).
  by intros [].
Defined.

Fixpoint to_tree (v : Value) : gen_tree leaf :=
  match v with
  | Null => GenNode 0 []
  | Bool b => GenLeaf (inl (inl b))
  | Number n => GenLeaf (inl (inr n))
  | String s => GenLeaf (inr s)
  | Array items => GenNode 1 (map to_tree items)
  | Object members => GenNode 2 (map (fun e => let '(k, x) := e in GenNode 3 [GenLeaf (inr k); to_tree x]) members)
  end.
Fixpoint of_tree (t : gen_tree leaf) : Value :=
  match t with
  | GenLeaf (inl (inl b)) => Bool b
  | GenLeaf (inl (inr n)) => Number n
  | GenLeaf (inr s) => String s
  | GenNode 1 items => Array (map of_tree items)
  | GenNode 2 members => Object (map (fun e => match e with GenNode _ [GenLeaf (inr k); x] => (k, of_tree x) | _ => ([], Null) end) members)
  | _ => Null
  end.

Lemma of_to_tree v : of_tree (to_tree v) = v.
Proof.
  induction v as [|b|n|s|items IH|members IH] using Value_nested_ind; cbn [to_tree of_tree]; try done; f_equal.
  - rewrite map_map. induction IH as [|x l Hx Hl IHl]; cbn [map]; [done|]. by rewrite Hx, IHl.
  - rewrite map_map. induction IH as [|[k x] l Hx Hl IHl]; cbn [map]; [done|]. cbn [snd] in Hx. by rewrite Hx, IHl.
Qed.

#[export] Instance value_countable : Countable Value := inj_countable' to_tree of_tree of_to_tree.

Fixpoint numeral (p : positive) : bytes :=
  match p with xH => [] | xO p => x30 :: numeral p | xI p => x31 :: numeral p end.
Fixpoint of_numeral (s : bytes) : positive :=
  match s with [] => xH | c :: s => if Byte.eqb c x31 then xI (of_numeral s) else xO (of_numeral s) end.
Lemma of_numeral_numeral p : of_numeral (numeral p) = p.
Proof. induction p as [p IH|p IH|]; cbn; [by rewrite IH..|done]. Qed.

Definition print_tree (v : Value) : bytes := numeral (encode v).
Definition read_tree (s : bytes) : option Value :=
  v ← decode (of_numeral s); if fits (fun _ => true) LEVELS v then Some v else None.

#[export] Instance tree_json : SerdeJson read_tree print_tree.
Proof.
  refine {| float_text := fun _ => true |}.
  - intros v Hv. unfold read_tree, print_tree. rewrite of_numeral_numeral, decode_encode. cbn [mbind option_bind]. by rewrite Hv.
  - intros s v (w & _ & Hw)%bind_Some. destruct (fits _ _ w) eqn:E; by simplify_eq.
Defined.
