(* ===== verification/BridgeState.v ===== *)
(** * What the editor bridge keeps

    prod-code-client/src/lsp_bridge: [encoding.rs], [state.rs], [save_gate.rs], [teardown.rs],
    [reconnect_pending.rs], [reconnect_deferred.rs], the bound of [reconnect_wait.rs] and the
    replay of [reconnect_workspace.rs].

    The bridge stands between an editor and the language server behind a gateway.  It follows
    the editor's messages so that it can bring a new server to where the old one was: the
    handshake, the configuration, the open documents with their edits, the requests that have no
    answer yet, the messages that arrived while there was no server.

    Reading and printing JSON is serde_json's: the parameters [from_str] and [to_string].  A
    message has each key once, so that reading its method alone is reading it whole.  Lists of
    open documents are in the order the hash map yields them, which is arbitrary. *)

From stdpp Require Import gmap list.
From Stdlib Require Import Strings.Byte.
From S2P Require Import Prelude RustStr Utf8 Json SerdeJson TextEdits.

#[local] Set Warnings "-register-all".

(** ** Positions: [encoding.rs] *)

Definition POSITION_ENCODING_UTF16 : Z := 0.
Definition POSITION_ENCODING_UTF8 : Z := 1.
Definition POSITION_ENCODING_UTF32 : Z := 2.

Definition lsp_position_encoding (message : Value) : option Z :=
  name ← pointer message [B "result"; B "capabilities"; B "positionEncoding"] ≫= as_str;
  if bool_decide (name = B "utf-8") then Some POSITION_ENCODING_UTF8
  else if bool_decide (name = B "utf-16") then Some POSITION_ENCODING_UTF16
  else if bool_decide (name = B "utf-32") then Some POSITION_ENCODING_UTF32
  else None.

Definition sync_kind (capabilities : Value) : Z :=
  let kind := sync ← get capabilities (B "textDocumentSync");
              match as_u64 sync with Some n => Some n | None => get sync (B "change") ≫= as_u64 end in
  match kind with Some n => if n <=? 2 then n else 0 | None => 0 end.

(** The state after a server's answer to [initialize]; [None] when it is refused. *)
Definition update_server_capabilities (previous : Z) (message : Value) (require_compatible : bool) : option Z :=
  match pointer message [B "result"; B "capabilities"] with
  | Some (Object members) =>
      let encoding := default POSITION_ENCODING_UTF16 (lsp_position_encoding message) in
      let sync := sync_kind (Object members) in
      let original_sync := Z.shiftr previous 2 in
      if require_compatible
         && (negb (Z.land previous 3 =? encoding) || (original_sync =? 3) && negb (sync =? 2) || (original_sync =? 2) && (sync =? 0))
      then None
      else
        let sync_field := if require_compatible && negb (original_sync =? 0) then original_sync else sync + 1 in
        Some (Z.lor encoding (Z.shiftl sync_field 2))
  | _ => None
  end.

Definition char_width (position_encoding : Z) (ch : bytes) : Z :=
  let kind := Z.land position_encoding 3 in
  if kind =? POSITION_ENCODING_UTF8 then zlen ch
  else if kind =? POSITION_ENCODING_UTF32 then 1
  else len_utf16 ch.

Fixpoint lsp_offset_loop (position_encoding target_line target_col line col : Z) (cs : list (Z * bytes)) (len : Z) : Z :=
  match cs with
  | [] => len
  | (offset, ch) :: rest =>
      if (line =? target_line) && (col =? target_col) then offset
      else if bool_decide (ch = [x0a]) then lsp_offset_loop position_encoding target_line target_col (line + 1) 0 rest len
      else lsp_offset_loop position_encoding target_line target_col line (col + char_width position_encoding ch) rest len
  end.
Definition lsp_offset (text : bytes) (target_line target_col position_encoding : Z) : Z :=
  lsp_offset_loop position_encoding target_line target_col 0 0 (char_indices text) (zlen text).

(** ** The tracker: [state.rs] *)

Record TrackedDocument := MkDocument { td_uri : bytes; td_language_id : bytes; td_version : Z; td_text : bytes }.
#[export] Instance document_eq_decision : EqDecision TrackedDocument.
Proof. solve_decision. Defined.

Record LspStateTracker := MkTracker {
  initialize_req : option bytes;
  initialized_sent : bool;
  configuration_notifications : list bytes;
  open_documents : gmap bytes TrackedDocument;
}.
Definition new_tracker : LspStateTracker := MkTracker None false [] ∅.

(** One entry of [contentChanges]. *)
Definition apply_change (position_encoding : Z) (text : bytes) (change : Value) : bytes :=
  match get_str change (B "text") with
  | None => text
  | Some replacement =>
      match get change (B "range") with
      | None => replacement
      | Some range =>
          let at_ side part := pointer range [side; part] ≫= as_u64 in
          match at_ (B "start") (B "line"), at_ (B "start") (B "character"), at_ (B "end") (B "line"), at_ (B "end") (B "character") with
          | Some start_line, Some start_col, Some end_line, Some end_col =>
              let start_off := lsp_offset text start_line start_col position_encoding in
              let end_off := lsp_offset text end_line end_col position_encoding in
              if (start_off <=? end_off) && (end_off <=? zlen text)
              then ztake start_off text ++ replacement ++ zdrop end_off text
              else text
          | _, _, _, _ => text
          end
      end
  end.

Definition opened (td : Value) : TrackedDocument :=
  MkDocument (default [] (get_str td (B "uri"))) (default [] (get_str td (B "languageId")))
             (default 1 (get td (B "version") ≫= as_i64)) (default [] (get_str td (B "text"))).

Definition changed (position_encoding : Z) (params : Value) (doc : TrackedDocument) : TrackedDocument :=
  let version := default (td_version doc) (pointer params [B "textDocument"; B "version"] ≫= as_i64) in
  let changes := default [] (get params (B "contentChanges") ≫= as_array) in
  MkDocument (td_uri doc) (td_language_id doc) version (foldl (apply_change position_encoding) (td_text doc) changes).

Definition set_documents (docs : gmap bytes TrackedDocument) (t : LspStateTracker) : LspStateTracker :=
  MkTracker (initialize_req t) (initialized_sent t) (configuration_notifications t) docs.

Section json.
Context (from_str : bytes -> option Value) (to_string : Value -> bytes).

(** [method_of] of [editor_files/frames.rs]. *)
Definition method_of (raw : bytes) : option bytes := from_str raw ≫= fun v => get_str v (B "method").

(** What a message does to the open documents. *)
Definition record_document (raw : bytes) (position_encoding : Z) (docs : gmap bytes TrackedDocument) : gmap bytes TrackedDocument :=
  match from_str raw, method_of raw with
  | Some val, Some method =>
      if bool_decide (method = B "textDocument/didOpen") then
        match pointer val [B "params"; B "textDocument"] with
        | Some td => if bool_decide (td_uri (opened td) = []) then docs else <[td_uri (opened td) := opened td]> docs
        | None => docs
        end
      else if bool_decide (method = B "textDocument/didClose") then
        match pointer val [B "params"; B "textDocument"; B "uri"] ≫= as_str with
        | Some uri => delete uri docs
        | None => docs
        end
      else if bool_decide (method = B "textDocument/didChange") then
        match get val (B "params") with
        | Some params =>
            match pointer params [B "textDocument"; B "uri"] ≫= as_str with
            | Some uri =>
                match docs !! uri with
                | Some doc => <[uri := changed position_encoding params doc]> docs
                | None => docs
                end
            | None => docs
            end
        | None => docs
        end
      else docs
  | _, _ => docs
  end.

Definition record_client_message (raw : bytes) (position_encoding : Z) (t : LspStateTracker) : LspStateTracker :=
  match method_of raw with
  | None => t
  | Some method =>
      if bool_decide (method = B "initialize") then
        MkTracker (Some raw) (initialized_sent t) (configuration_notifications t) (open_documents t)
      else if bool_decide (method = B "initialized") then
        MkTracker (initialize_req t) true (configuration_notifications t) (open_documents t)
      else if bool_decide (method = B "workspace/didChangeConfiguration") then
        MkTracker (initialize_req t) (initialized_sent t) (configuration_notifications t ++ [raw]) (open_documents t)
      else set_documents (record_document raw position_encoding (open_documents t)) t
  end.

(** The requests that have no answer yet: id, method and message. *)
Abbreviation pending_request := (Value * bytes * bytes)%type.

Definition CANCEL : bytes := B "$/cancelRequest".

(** The request a message is: its id and method. *)
Definition request_of (v : Value) : option (Value * bytes) :=
  id ← get v (B "id"); method ← get_str v (B "method"); Some (id, method).

Definition track_pending_request (json_payload : bytes) (pending : list pending_request) : list pending_request :=
  match from_str json_payload with
  | None => pending
  | Some val =>
      match request_of val with
      | Some (id, method) =>
          if starts_with (B "prod-code/") method then pending else pending ++ [(id, method, json_payload)]
      | None =>
          if bool_decide (get_str val (B "method") = Some CANCEL) then
            match pointer val [B "params"; B "id"] with
            | Some cancel_id => map (fun p => if bool_decide (p.1.1 = cancel_id) then (p.1.1, CANCEL, p.2) else p) pending
            | None => pending
            end
          else pending
      end
  end.

Definition int (n : Z) : Value := Number (if n <? 0 then NegInt n else PosInt n).
Definition error_reply (id : Value) (code : Z) (message : bytes) : bytes :=
  to_string (Object [(B "error", Object [(B "code", int code); (B "message", String message)]); (B "id", id); (B "jsonrpc", String (B "2.0"))]).
Definition result_reply (id result : Value) : bytes :=
  to_string (Object [(B "id", id); (B "jsonrpc", String (B "2.0")); (B "result", result)]).

(** What the editor is told of the requests that are given up. *)
Definition fail_pending_requests (error_msg : bytes) (pending : list pending_request) : list bytes :=
  map (fun p => if bool_decide (p.1.2 = CANCEL) then error_reply p.1.1 (-32800) (B "request cancelled")
                else error_reply p.1.1 (-32097) (B "prod-code lsp: gateway connection lost (" ++ error_msg ++ B ")")) pending.

(** ** The requests of an interrupted session: [reconnect_pending.rs] *)

Definition idempotent_methods : list bytes :=
  [B "textDocument/hover"; B "textDocument/definition"; B "textDocument/declaration"; B "textDocument/typeDefinition";
   B "textDocument/implementation"; B "textDocument/references"; B "textDocument/documentHighlight"; B "textDocument/documentSymbol";
   B "textDocument/codeAction"; B "textDocument/codeLens"; B "codeLens/resolve"; B "textDocument/documentLink"; B "documentLink/resolve";
   B "textDocument/documentColor"; B "textDocument/colorPresentation"; B "textDocument/formatting"; B "textDocument/rangeFormatting";
   B "textDocument/onTypeFormatting"; B "textDocument/prepareRename"; B "textDocument/foldingRange"; B "textDocument/selectionRange";
   B "textDocument/signatureHelp"; B "textDocument/completion"; B "completionItem/resolve"; B "textDocument/semanticTokens";
   B "textDocument/semanticTokens/full"; B "textDocument/semanticTokens/full/delta"; B "textDocument/semanticTokens/range";
   B "textDocument/inlayHint"; B "inlayHint/resolve"; B "textDocument/inlineValue"; B "textDocument/moniker";
   B "textDocument/prepareCallHierarchy"; B "callHierarchy/incomingCalls"; B "callHierarchy/outgoingCalls";
   B "textDocument/prepareTypeHierarchy"; B "typeHierarchy/supertypes"; B "typeHierarchy/subtypes"; B "workspace/symbol";
   B "workspace/symbol/resolve"; B "workspace/diagnostic"; B "textDocument/diagnostic"].
Definition is_idempotent_lsp_request (method : bytes) : bool := bool_decide (method ∈ idempotent_methods).

(** [value.get_mut("params")?.as_object_mut()?] changed in place. *)
Definition with_params (f : list (bytes * Value) -> list (bytes * Value)) (v : Value) : option Value :=
  match v with
  | Object members =>
      match assoc (B "params") members with
      | Some (Object params) => Some (Object (insert_member (B "params") (Object (f params)) members))
      | _ => None
      end
  | _ => None
  end.

Definition session_bound_methods : list bytes :=
  [B "callHierarchy/incomingCalls"; B "callHierarchy/outgoingCalls"; B "typeHierarchy/supertypes"; B "typeHierarchy/subtypes"].

(** The request in the form a new server can answer, if there is one. *)
Definition replay_request (method request : bytes) : option bytes :=
  if ends_with (B "/resolve") method || bool_decide (method ∈ session_bound_methods) then None
  else if bool_decide (method = B "textDocument/diagnostic") then
    value ← from_str request; to_string <$> with_params (remove_member (B "previousResultId")) value
  else if bool_decide (method = B "workspace/diagnostic") then
    value ← from_str request; to_string <$> with_params (insert_member (B "previousResultIds") (Array [])) value
  else if negb (bool_decide (method = B "textDocument/semanticTokens/full/delta")) then Some request
  else
    value ← from_str request;
    value ← with_params (remove_member (B "previousResultId")) value;
    match value with
    | Object members => Some (to_string (Object (insert_member (B "method") (String (B "textDocument/semanticTokens/full")) members)))
    | _ => None
    end.

(** The requests that queued messages cancel. *)
Definition cancelled_in (deferred : list bytes) : list Value :=
  omap (fun frame => message ← from_str frame;
                     if bool_decide (get_str message (B "method") = Some CANCEL) then pointer message [B "params"; B "id"] else None) deferred.

Definition replay_pending_requests (deferred : list bytes) (pending : list pending_request) : list bytes :=
  let cancelled := cancelled_in deferred in
  map (fun p =>
         let '(id, method, _) := p in
         if bool_decide (method = CANCEL) || bool_decide (id ∈ cancelled) then error_reply id (-32800) (B "request cancelled")
         else if is_idempotent_lsp_request method then
           error_reply id (-32801) (B "prod-code lsp: request '" ++ method ++ B "' became stale during reconnect; retry against the updated document")
         else
           error_reply id (-32097) (B "prod-code lsp: request '" ++ method
             ++ B "' interrupted by disconnect; non-idempotent operation was not retried to prevent duplicate side effects")) pending.

(** ** The messages queued without a server: [reconnect_deferred.rs] *)

Definition edit_methods : list bytes := [B "textDocument/didOpen"; B "textDocument/didChange"; B "textDocument/didClose"].

(** What stays queued, what is refused and whether an edit follows; from the last message to
    the first. *)
Definition normalize_one (canceled : list Value) (frame : bytes) (acc : list bytes * list (Value * Z) * bool)
    : list bytes * list (Value * Z) * bool :=
  let '(frames, rejected, later_edit) := acc in
  match from_str frame with
  | None => (frame :: frames, rejected, later_edit)
  | Some value =>
      let method := get_str value (B "method") in
      if bool_decide (method = Some CANCEL) then acc
      else
        let later_edit := later_edit || match method with Some m => bool_decide (m ∈ edit_methods) | None => false end in
        match request_of value with
        | Some (id, method) =>
            if bool_decide (id ∈ canceled) then (frames, (id, -32800) :: rejected, later_edit)
            else if later_edit then (frames, (id, -32801) :: rejected, later_edit)
            else match replay_request method frame with
                 | Some request => (request :: frames, rejected, later_edit)
                 | None => (frames, (id, -32801) :: rejected, later_edit)
                 end
        | None => (frame :: frames, rejected, later_edit)
        end
  end.
Definition normalize_deferred (deferred : list bytes) : list bytes * list (Value * Z) :=
  (foldr (normalize_one (cancelled_in deferred)) ([], [], false) deferred).1.

(** The queue and what the editor is told. *)
Definition prepare_deferred (deferred : list bytes) : list bytes * list bytes :=
  let '(frames, rejected) := normalize_deferred deferred in
  (frames, map (fun r => error_reply r.1 r.2 (if r.2 =? -32800 then B "request cancelled" else B "request became stale during reconnect")) rejected).

Fixpoint fail_deferred_loop (canceled seen : list Value) (frames : list bytes) : list bytes :=
  match frames with
  | [] => []
  | frame :: rest =>
      match from_str frame with
      | Some value =>
          match get value (B "id"), get value (B "method") with
          | Some id, Some _ =>
              if bool_decide (id = Null) || bool_decide (id ∈ seen) then fail_deferred_loop canceled seen rest
              else error_reply id (if bool_decide (id ∈ canceled) then -32800 else -32097) (B "editor session ended during reconnect")
                   :: fail_deferred_loop canceled (id :: seen) rest
          | _, _ => fail_deferred_loop canceled seen rest
          end
      | None => fail_deferred_loop canceled seen rest
      end
  end.
Definition fail_deferred (deferred : list bytes) : list bytes := fail_deferred_loop (cancelled_in deferred) [] deferred.

(** [defer_editor_message] of [reconnect_wait.rs]: [None] when the queue is full. *)
Definition MAX_DEFERRED_EDITOR_FRAMES : Z := 2048.
Definition MAX_DEFERRED_EDITOR_BYTES : Z := 32 * 1024 * 1024.
Definition queued_bytes (deferred : list bytes) : Z := foldl (fun sum item => Z.min u64_max (sum + zlen item)) 0 deferred.
Definition defer_editor_message (deferred : list bytes) (json : bytes) : option (list bytes) :=
  if (MAX_DEFERRED_EDITOR_FRAMES <=? zlen deferred)
     || (MAX_DEFERRED_EDITOR_BYTES <? Z.min u64_max (queued_bytes deferred + zlen json))
  then None else Some (deferred ++ [json]).

(** ** Bringing a server up to date: [reconnect_workspace.rs] *)

Definition did_open (doc : TrackedDocument) : Value :=
  Object [(B "jsonrpc", String (B "2.0")); (B "method", String (B "textDocument/didOpen"));
          (B "params", Object [(B "textDocument",
             Object [(B "languageId", String (td_language_id doc)); (B "text", String (td_text doc));
                     (B "uri", String (td_uri doc)); (B "version", int (td_version doc))])])].
Definition initialized_message : Value :=
  Object [(B "jsonrpc", String (B "2.0")); (B "method", String (B "initialized")); (B "params", Object [])].

(** What is sent, the documents in the order [docs]. *)
Definition replay_lsp_workspace_state (t : LspStateTracker) (docs : list TrackedDocument) : list bytes :=
  configuration_notifications t ++ map (fun doc => to_string (did_open doc)) docs.
End json.

(** ** Saves: [save_gate.rs] *)

Definition MAX_HELD : Z := 64.
Definition RETRY : Z := 1000000000.

Record SaveGate := MkGate { held : list bytes; retry_at : option Z }.
Definition new_gate : SaveGate := MkGate [] None.

Definition needs_sync (now : Z) (saves_or_watches : bool) (g : SaveGate) : bool :=
  saves_or_watches
  || negb (bool_decide (held g = [])) && match retry_at g with None => true | Some at_ => at_ <=? now end.

Definition after_sync (now : Z) (synced is_save : bool) (message : bytes) (g : SaveGate) : SaveGate * list bytes :=
  if synced then (MkGate [] None, held g ++ [message])
  else
    let retry := Some (now + RETRY) in
    if is_save then
      let kept := if zlen (held g) =? MAX_HELD then drop 1 (held g) else held g in
      (MkGate (kept ++ [message]) retry, [])
    else (MkGate (held g) retry, [message]).

(** ** The end the editor asks for: [teardown.rs] *)

Record Teardown := MkTeardown { td_shutdown : bool; td_exit : bool }.
Definition observe (method : option bytes) (t : Teardown) : Teardown :=
  if bool_decide (method = Some (B "shutdown")) then MkTeardown true (td_exit t)
  else if bool_decide (method = Some (B "exit")) then MkTeardown (td_shutdown t) true
  else t.
Definition expected_exit (t : Teardown) : option Z :=
  if td_exit t then Some (if td_shutdown t then 0 else 1) else None.

(** ** Positions *)

Lemma char_width_pos enc c : is_char c = true -> 0 < char_width enc c.
Proof.
  intros Hc. unfold char_width. destruct (_ =? POSITION_ENCODING_UTF8).
  - pose proof (is_char_nonempty c Hc). destruct c; [done|]. rewrite zlen_cons. pose proof (zlen_nonneg c). lia.
  - destruct (_ =? POSITION_ENCODING_UTF32); [lia|]. apply len_utf16_pos.
Qed.

(** Where a character leaves the line and column. *)
Definition advance (enc : Z) (at_ : Z * Z) (c : bytes) : Z * Z :=
  if bool_decide (c = [x0a]) then (at_.1 + 1, 0) else (at_.1, at_.2 + char_width enc c).

(** The position after a text, as the editor counts it. *)
Definition position_after (enc : Z) (s : bytes) : Z * Z := foldl (advance enc) (0, 0) (chars s).

Definition further (p q : Z * Z) : Prop := p.1 < q.1 \/ p.1 = q.1 /\ p.2 < q.2.

Lemma advance_further enc p c : is_char c = true -> further p (advance enc p c).
Proof.
  intros Hc. unfold further, advance. destruct (bool_decide_reflect (c = [x0a])) as [->|_]; cbn; [lia|].
  pose proof (char_width_pos enc c Hc). lia.
Qed.
Lemma advances_further enc p c cs : is_char c = true -> Forall (fun c => is_char c = true) cs ->
  further p (foldl (advance enc) (advance enc p c) cs).
Proof.
  intros Hc Hcs. revert p c Hc. induction Hcs as [|c' cs Hc' Hcs IH]; intros p c Hc; cbn [foldl]; [by apply advance_further|].
  pose proof (advance_further enc p c Hc) as H1. pose proof (IH (advance enc p c) c' Hc') as H2. unfold further in *. lia.
Qed.

Lemma lsp_offset_loop_at enc cs1 cs2 i l c len : Forall (fun c => is_char c = true) cs1 -> len = i + zlen (concat (cs1 ++ cs2)) ->
  let target := foldl (advance enc) (l, c) cs1 in
  lsp_offset_loop enc target.1 target.2 l c (char_indices_from i (cs1 ++ cs2)) len = i + zlen (concat cs1).
Proof.
  intros Hcs. revert i l c. induction Hcs as [|ch cs1 Hch Hcs IH]; intros i l c Hlen; cbn zeta.
  - cbn [app foldl fst snd]. destruct cs2 as [|ch cs2]; cbn [char_indices_from lsp_offset_loop concat app] in *; rewrite ?zlen_nil in *; [lia|].
    rewrite !Z.eqb_refl. cbn [andb concat]. rewrite ?zlen_nil. lia.
  - cbn [app foldl char_indices_from lsp_offset_loop]. pose proof (advances_further enc (l, c) ch cs1 Hch Hcs) as Hf.
    set (target := foldl (advance enc) (advance enc (l, c) ch) cs1) in *.
    replace ((l =? target.1) && (c =? target.2)) with false by (unfold further in Hf; cbn in Hf; lia).
    cbn [app concat] in Hlen. rewrite !zlen_app in Hlen. change (concat (ch :: cs1)) with (ch ++ concat cs1). rewrite zlen_app.
    unfold target, advance in *. cbn [fst snd]. destruct (bool_decide (ch = [x0a])); rewrite IH; lia.
Qed.

(** An offset is that of the position it is counted as. *)
Lemma lsp_offset_exact enc a b : utf8_valid a = true -> utf8_valid b = true ->
  lsp_offset (a ++ b) (position_after enc a).1 (position_after enc a).2 enc = zlen a.
Proof.
  intros Ha Hb. unfold lsp_offset, position_after, char_indices. rewrite chars_app by done.
  rewrite (lsp_offset_loop_at enc (chars a) (chars b) 0 0 0); [by rewrite concat_chars|by apply chars_is_char|].
  by rewrite concat_app, !concat_chars.
Qed.

(** Any position is that of some character, or the end: replacing there cuts no character. *)
Lemma lsp_offset_position text line col enc : utf8_valid text = true -> is_position text (lsp_offset text line col enc).
Proof.
  intros Hv. unfold lsp_offset.
  assert (H : forall cs l c, (forall p, p ∈ cs -> is_position text p.1) ->
    is_position text (lsp_offset_loop enc line col l c cs (zlen text))).
  { induction cs as [|[o ch] cs IH]; intros l c Hp; cbn [lsp_offset_loop]; [by apply is_position_len|].
    destruct (_ && _); [by apply (Hp (o, ch)); left|]. destruct (bool_decide _); apply IH; intros p Hin; apply Hp; by right. }
  apply H. intros p Hp. by apply char_indices_position.
Qed.

(** A change leaves valid text: the offsets it is made at cut no character. *)
Lemma apply_change_valid ft d enc text change : utf8_valid text = true -> fits ft (S d) change = true ->
  utf8_valid (apply_change enc text change) = true.
Proof.
  intros Ht Hc. unfold apply_change. destruct (get_str change (B "text")) as [r|] eqn:Er; [|done]. apply (fits_get_str ft d) in Er; [|done].
  destruct (get change (B "range")) as [range|]; [|done]. cbv zeta.
  destruct (pointer range [B "start"; B "line"] ≫= as_u64), (pointer range [B "start"; B "character"] ≫= as_u64),
    (pointer range [B "end"; B "line"] ≫= as_u64), (pointer range [B "end"; B "character"] ≫= as_u64); try done.
  destruct (_ && _); [|done]. apply utf8_valid_app; [|apply utf8_valid_app; [done|]]; apply boundary_split; try done;
    apply is_position_boundary; by apply lsp_offset_position.
Qed.

(** A change as an editor makes it: the range of [removed] replaced by [added]. *)
Definition position_json (at_ : Z * Z) : Value := Object [(B "character", int at_.2); (B "line", int at_.1)].
Definition change_json (enc : Z) (before removed added : bytes) : Value :=
  Object [(B "range", Object [(B "end", position_json (position_after enc (before ++ removed)));
                              (B "start", position_json (position_after enc before))]);
          (B "text", String added)].

Lemma position_after_nonneg enc s : utf8_valid s = true -> 0 <= (position_after enc s).1 /\ 0 <= (position_after enc s).2.
Proof.
  intros Hv. unfold position_after. pose proof (chars_is_char s Hv) as Hc. revert Hc.
  assert (H : forall cs p, 0 <= p.1 -> 0 <= p.2 -> Forall (fun c => is_char c = true) cs ->
    0 <= (foldl (advance enc) p cs).1 /\ 0 <= (foldl (advance enc) p cs).2).
  { induction cs as [|c cs IH]; intros p H1 H2 Hc; cbn [foldl]; [done|]. inversion_clear Hc as [|?? Hc1 Hc2].
    pose proof (char_width_pos enc c Hc1). apply IH; [..|done]; unfold advance; destruct (bool_decide _); cbn; lia. }
  apply H; cbn; lia.
Qed.

Lemma apply_change_exact enc before removed added after :
  utf8_valid before = true -> utf8_valid removed = true -> utf8_valid after = true ->
  apply_change enc (before ++ removed ++ after) (change_json enc before removed added) = before ++ added ++ after.
Proof.
  intros Hb Hr Ha. assert (Hbr : utf8_valid (before ++ removed) = true) by (by apply utf8_valid_app).
  pose proof (position_after_nonneg enc before Hb) as [H1 H2]. pose proof (position_after_nonneg enc _ Hbr) as [H3 H4].
  assert (Hint : forall n, 0 <= n -> as_u64 (int n) = Some n) by (intros n Hn; unfold int; by rewrite (proj2 (Z.ltb_ge _ _))).
  unfold apply_change, change_json.
  set (s := position_after enc before) in *. set (e := position_after enc (before ++ removed)) in *.
  set (range := Object [(B "end", position_json e); (B "start", position_json s)]).
  change (get_str (Object [(B "range", range); (B "text", String added)]) (B "text")) with (Some added).
  change (get (Object [(B "range", range); (B "text", String added)]) (B "range")) with (Some range). cbv beta iota.
  change (pointer range [B "start"; B "line"] ≫= as_u64) with (as_u64 (int s.1)).
  change (pointer range [B "start"; B "character"] ≫= as_u64) with (as_u64 (int s.2)).
  change (pointer range [B "end"; B "line"] ≫= as_u64) with (as_u64 (int e.1)).
  change (pointer range [B "end"; B "character"] ≫= as_u64) with (as_u64 (int e.2)).
  rewrite !Hint by done. cbv zeta. unfold s, e.
  rewrite (lsp_offset_exact enc before (removed ++ after)) by (done || by apply utf8_valid_app).
  rewrite (app_assoc before removed after), (lsp_offset_exact enc (before ++ removed) after) by done.
  pose proof (zlen_nonneg removed). pose proof (zlen_nonneg after).
  replace ((zlen before <=? zlen (before ++ removed)) && (zlen (before ++ removed) <=? zlen ((before ++ removed) ++ after))) with true
    by (rewrite !zlen_app; lia).
  rewrite zdrop_app_exact by done.
  rewrite <- (app_assoc before removed after), ztake_app_exact by done. done.
Qed.

Lemma int_i64 n : n < 2 ^ 63 -> as_i64 (int n) = Some n.
Proof.
  intros H. unfold int. destruct (Z.ltb_spec n 0); cbn [as_i64]; [by rewrite (proj2 (Z.ltb_lt _ _))|]. by rewrite (proj2 (Z.leb_le _ _)) by lia.
Qed.

Lemma int_fits ft d n : - 2 ^ 63 <= n < 2 ^ 63 -> fits ft d (int n) = true.
Proof. intros H. unfold int. destruct (Z.ltb_spec n 0); cbn [fits number_ok]; unfold u64_max; lia. Qed.

(** What an editor does to a buffer, and the changes it sends. *)
Inductive edits (enc : Z) : bytes -> list Value -> bytes -> Prop :=
| edits_none s : edits enc s [] s
| edits_range before removed added after cs t :
    utf8_valid before = true -> utf8_valid removed = true -> utf8_valid added = true -> utf8_valid after = true ->
    edits enc (before ++ added ++ after) cs t ->
    edits enc (before ++ removed ++ after) (change_json enc before removed added :: cs) t
| edits_whole s added cs t : edits enc added cs t -> edits enc s (Object [(B "text", String added)] :: cs) t.

Lemma edits_applied enc s cs t : edits enc s cs t -> foldl (apply_change enc) s cs = t.
Proof.
  induction 1 as [|before removed added after cs t Hb Hr Hd Ha He IH|s added cs t He IH]; cbn [foldl]; [done| |].
  - by rewrite apply_change_exact.
  - exact IH.
Qed.

Definition did_change (uri : bytes) (version : Z) (changes : list Value) : Value :=
  Object [(B "jsonrpc", String (B "2.0")); (B "method", String (B "textDocument/didChange"));
          (B "params", Object [(B "contentChanges", Array changes);
                               (B "textDocument", Object [(B "uri", String uri); (B "version", int version)])])].



(** A column past the end of its line is taken for the end of the text, where the protocol has
    it mean the end of the line. *)
Theorem column_past_line_end :
  lsp_offset (B "ab" ++ [x0a] ++ B "cd") 0 9 POSITION_ENCODING_UTF16 = 5
  /\ offset len_utf16 (B "ab" ++ [x0a] ++ B "cd") 0 9 = 2.
Proof. split; vm_compute; reflexivity. Qed.

(** ** Requests *)

Lemma with_params_other f v v' k : with_params f v = Some v' -> k <> B "params" -> get v' k = get v k.
Proof.
  destruct v as [| | | | |members]; try done. cbn [with_params]. destruct (assoc _ members) as [[]|]; try done. intros [= <-] Hk.
  by apply assoc_insert_other.
Qed.

Lemma with_params_fits ft d f v v' : fits ft (S (S d)) v = true -> with_params f v = Some v' ->
  (forall l, fits ft (S d) (Object l) = true -> fits ft (S d) (Object (f l)) = true) -> fits ft (S (S d)) v' = true.
Proof.
  intros Hv Hw Hf. destruct v as [| | | | |members]; try done. cbn [with_params] in Hw.
  destruct (assoc _ members) as [[| | | | |params]|] eqn:Ep; try done. injection Hw as <-.
  apply fits_insert; [done|vm_compute; reflexivity|]. apply Hf. by apply (fits_assoc _ _ _ _ _ Hv Ep).
Qed.

(** The new form of a request is a request of the same id. *)
Definition same_request (v v' : Value) : Prop :=
  get v' (B "id") = get v (B "id")
  /\ (get v' (B "method") = get v (B "method") \/ get v' (B "method") = Some (String (B "textDocument/semanticTokens/full"))).

Lemma replay_request_same from_str to_string `{!SerdeJson from_str to_string} method request v r :
  from_str request = Some v -> replay_request from_str to_string method request = Some r ->
  exists v', from_str r = Some v' /\ same_request v v'.
Proof.
  intros Ev. pose proof (read_fits _ _ Ev) as Hv. unfold replay_request. rewrite Ev. cbn [mbind option_bind]. destruct (_ || _); [done|].
  assert (Hremove : forall l, fits float_text (S 125) (Object l) = true -> fits float_text (S 125) (Object (remove_member (B "previousResultId") l)) = true)
    by (intros l; apply fits_remove).
  assert (Hp : forall f, (forall l, fits float_text (S 125) (Object l) = true -> fits float_text (S 125) (Object (f l)) = true) ->
    to_string <$> with_params f v = Some r -> exists v', from_str r = Some v' /\ same_request v v').
  { intros f Hf (v' & Hv' & ->)%fmap_Some. exists v'. split; [apply read_print; by apply (with_params_fits _ _ f v)|].
    split; [|left]; by apply (with_params_other f). }
  destruct (bool_decide _); [by apply Hp|].
  destruct (bool_decide _); [apply Hp; intros l Hl; by apply fits_insert|].
  destruct (negb _); [intros [= <-]; exists v; split; [done|split; [done|by left]]|].
  intros (v' & Hw & Hv')%bind_Some. pose proof (with_params_fits _ _ _ _ _ Hv Hw Hremove) as Hf.
  destruct v' as [| | | | |members]; try done. injection Hv' as <-. eexists. split; [apply read_print; by apply fits_insert|]. split.
  - rewrite <- (with_params_other _ _ _ (B "id") Hw) by done. by apply assoc_insert_other.
  - right. apply assoc_insert_same.
Qed.

(** ** Saves *)

(** A sync that the bridge tries for a message. *)
Record Attempt := MkAttempt { at_now : Z; at_synced : bool; at_save : bool; at_message : bytes }.

(** What goes to the server at each attempt. *)
Fixpoint run_gate (attempts : list Attempt) (g : SaveGate) : SaveGate * list (list bytes) :=
  match attempts with
  | [] => (g, [])
  | a :: rest =>
      let '(g', out) := after_sync (at_now a) (at_synced a) (at_save a) (at_message a) g in
      let '(g'', outs) := run_gate rest g' in
      (g'', out :: outs)
  end.

(** The saves among the messages of attempts. *)
Definition saves (attempts : list Attempt) : list bytes := map at_message (filter (fun a => at_save a = true) attempts).

(** The attempts after the last that synced. *)
Definition unsynced (attempts : list Attempt) : list Attempt :=
  foldl (fun waiting a => if at_synced a then [] else waiting ++ [a]) [] attempts.

Lemma unsynced_snoc attempts a : unsynced (attempts ++ [a]) = if at_synced a then [] else unsynced attempts ++ [a].
Proof. unfold unsynced. by rewrite foldl_app. Qed.

Lemma run_gate_app xs ys g :
  run_gate (xs ++ ys) g = ((run_gate ys (run_gate xs g).1).1, (run_gate xs g).2 ++ (run_gate ys (run_gate xs g).1).2).
Proof.
  revert g. induction xs as [|x xs IH]; intros g; cbn [app run_gate fst snd]; [by destruct (run_gate ys g)|].
  destruct (after_sync _ _ _ _ g) as [g1 out] eqn:E. rewrite IH. by destruct (run_gate xs g1) as [g2 outs].
Qed.

(** The saves held are the last of those since the last sync, 64 at most. *)
Lemma gate_held attempts : held (run_gate attempts new_gate).1
  = let waiting := saves (unsynced attempts) in zdrop (zlen waiting - MAX_HELD) waiting.
Proof.
  induction attempts as [|a attempts IH] using rev_ind; [done|]. rewrite run_gate_app, unsynced_snoc. cbn [run_gate fst].
  destruct (run_gate attempts new_gate) as [g outs]. cbn [fst] in *. unfold after_sync. destruct (at_synced a); [done|].
  unfold saves. rewrite filter_app, map_app. cbn [filter]. fold (saves (unsynced attempts)).
  cbv zeta in *. set (w := saves (unsynced attempts)) in *. destruct (at_save a) eqn:Es.
  - rewrite filter_cons_True by done. cbn [map filter list_filter fst held]. rewrite zlen_app. change (zlen [at_message a]) with 1.
    rewrite IH. unfold zdrop, zlen. destruct (Z.eqb_spec (Z.of_nat (length (drop (Z.to_nat (Z.of_nat (length w) - MAX_HELD)) w))) MAX_HELD) as [E|E];
      rewrite length_drop in E; unfold MAX_HELD in *.
    + rewrite drop_drop. replace (Z.to_nat (Z.of_nat (length w) + 1 - 64)) with (Z.to_nat (Z.of_nat (length w) - 64) + 1)%nat by lia.
      rewrite drop_app_le by lia. done.
    + replace (Z.to_nat (Z.of_nat (length w) - 64)) with 0%nat by lia. replace (Z.to_nat (Z.of_nat (length w) + 1 - 64)) with 0%nat by lia. done.
  - rewrite filter_cons_False by (by rewrite Es). cbn [map filter list_filter fst held]. by rewrite app_nil_r.
Qed.

Lemma gate_retry attempts : retry_at (run_gate attempts new_gate).1
  = a ← last attempts; if at_synced a then None else Some (at_now a + RETRY).
Proof.
  induction attempts as [|a attempts _] using rev_ind; [done|]. rewrite run_gate_app, last_snoc. cbn [run_gate fst mbind option_bind].
  unfold after_sync. destruct (at_synced a); [done|]. by destruct (at_save a).
Qed.

(** C37: A save reaches the server right after the file it is about.  After any attempts at
    a sync, the next one lets through, when it succeeds, the saves since the last success in
    their order and then its own message, and when it fails its message unless that is a save;
    of more than 64 waiting saves the oldest are dropped, and while saves wait any message asks
    for another sync a second after the last one failed. *)
Theorem saves_follow_files (attempts : list Attempt) (a : Attempt) (now : Z) :
  let g := (run_gate attempts new_gate).1 in
  let waiting := saves (unsynced attempts) in
  let kept := zdrop (zlen waiting - MAX_HELD) waiting in
  (after_sync (at_now a) (at_synced a) (at_save a) (at_message a) g).2
    = (if at_synced a then kept ++ [at_message a] else if at_save a then [] else [at_message a])
  /\ zlen (held g) = Z.min (zlen waiting) MAX_HELD
  /\ (needs_sync now false g = true <-> exists b, last attempts = Some b /\ waiting <> [] /\ at_now b + RETRY <= now).
Proof.
  cbv zeta. pose proof (gate_held attempts) as Hh. pose proof (gate_retry attempts) as Hr. cbv zeta in Hh.
  set (w := saves (unsynced attempts)) in *. destruct (run_gate attempts new_gate) as [g outs]. cbn [fst] in *.
  assert (Hlen : zlen (held g) = Z.min (zlen w) MAX_HELD).
  { rewrite Hh. unfold zdrop, zlen. rewrite length_drop. unfold MAX_HELD. lia. }
  split_and!; [|done|].
  - unfold after_sync. rewrite <- Hh. destruct (at_synced a); [done|]. by destruct (at_save a).
  - unfold needs_sync. rewrite Hr. destruct (bool_decide_reflect (held g = [])) as [E|E]; cbn [negb andb orb].
    + split; [done|]. intros (b & _ & Hne & _). exfalso. rewrite E in Hlen. change (zlen []) with 0 in Hlen.
      destruct w; [done|]. rewrite zlen_cons in Hlen. pose proof (zlen_nonneg w). unfold MAX_HELD in Hlen. lia.
    + assert (Hw : w <> []) by (intros Ew; apply E; rewrite Hh, Ew; done).
      destruct attempts as [|b attempts _] using rev_ind; [done|]. rewrite last_snoc. cbn [mbind option_bind].
      assert (Hs : at_synced b = false).
      { destruct (at_synced b) eqn:Es; [|done]. exfalso. apply Hw. unfold w. rewrite unsynced_snoc, Es. done. }
      rewrite Hs, Z.leb_le. split; [intros Hle; by exists b|by intros (b' & [= <-] & _ & ?)].
Qed.
