(* ===== verification/Bridge.v ===== *)
(** * The editor bridge

    prod-code-client/src/lsp_bridge: the loop of [bridge.rs], the task of [transport.rs] that
    brings the server's messages to the editor, and reconnecting: [reconnect.rs],
    [reconnect_wait.rs] and [reconnect_handler.rs].

    The main task takes a message of the editor, notes it, syncs the checkout before a save and
    sends the message on; another task reads the server.  When the connection is lost the main
    task opens a new session, answers the requests that were under way, brings the new server to
    the state of the old one and goes on with the messages the editor sent meanwhile.  The state
    is what the tasks share and where each stands; an event is a section of code between two
    points where the other task may go on, or the outcome of a call.  Events come in any order.

    Messages are recorded before their paths are mapped to the node's.  Writing to the editor
    does not fail.  Aborting a task takes effect at once, and giving up without a reconnect is
    one step, in which the reader does not go on.  What the bridge still delivers when the editor
    has closed its end, and the hot reload of the executable, are left out.

    The server is one that answers only what it was asked and once.  The fields [br_asked],
    [br_lost], [br_out], [br_sent], [br_taken] and [br_read] are not the program's: they say what
    the server has still to answer, which messages were dropped, and what was sent and read. *)

From stdpp Require Import gmap list.
From Stdlib Require Import Strings.Byte.
From S2P Require Import Prelude RustStr Utf8 Json SerdeJson TextEdits BridgeState.

#[local] Set Warnings "-register-all".

(** An attempt to reconnect: why, the message whose sending failed, the [initialize] request
    that has no answer, and the open documents in the order they are replayed. *)
Record Reconnect := MkReconnect { rc_why : bytes; rc_again : option bytes; rc_init : option Value; rc_docs : list TrackedDocument }.

(** Why the bridge ended: the editor asked or went away, the connection was given up, a time
    limit passed or a message could not be sent on a fresh connection. *)
Inductive Ending := Asked | GivenUp | Abandoned.

(** A message with the encoding of its positions. *)
Abbreviation message := (bytes * Z)%type.

Inductive Phase :=
| Looping
| Syncing (f : message)                          (** the checkout before [f] *)
| Flushing (rest : list bytes) (f : message)     (** sends the saves that waited *)
| Sending (f : message)
| Replaying (rest : list bytes)                  (** after [initialized] *)
| Opening (r : Reconnect)                        (** waits, or opens a session *)
| Greeting (r : Reconnect) (ids : list Value) (reply : option bytes)   (** replays [initialize] *)
| Restoring (r : Reconnect) (rest : list bytes) (reply : option bytes)
| Resending (f : bytes)
| Draining                                       (** has answered [shutdown], waits for [exit] *)
| Ended (code : Z) (why : Ending).

(** A message that was dropped: one of the server with the task that carried it, or one of the
    editor that the queue had no room for. *)
Inductive Lost := Undelivered (json : bytes) | Unqueued (f : bytes).

(** The task that carries the server's messages to the editor. *)
Inductive Reader := Reading | Delivering (json : bytes) | Gone.

Record Bridge := MkBridge {
  br_phase : Phase;
  br_reader : Reader;
  br_closed : option (bytes * bool);      (** why the session was closed, and whether with a redirect *)
  br_pending : list (Value * bytes * bytes);
  br_deferred : list bytes;
  br_tracker : LspStateTracker;
  br_gate : SaveGate;
  br_teardown : Teardown;
  br_encoding : Z;
  br_replay : bool;                       (** [replay_state_after_initialize] *)
  br_ping : bool;                         (** [outstanding_ping] *)
  br_out : list bytes;                    (** what the editor was sent *)
  br_sent : list message;                 (** what the server of this session was sent *)
  br_taken : list message;                (** what the loop took, in its order *)
  br_read : list bytes;                   (** what the editor sent *)
  br_asked : list Value;
  br_lost : list Lost;
}.

Definition set_phase (p : Phase) (b : Bridge) : Bridge :=
  MkBridge p (br_reader b) (br_closed b) (br_pending b) (br_deferred b) (br_tracker b) (br_gate b) (br_teardown b) (br_encoding b) (br_replay b) (br_ping b) (br_out b) (br_sent b) (br_taken b) (br_read b) (br_asked b) (br_lost b).
Definition set_reader (r : Reader) (b : Bridge) : Bridge :=
  MkBridge (br_phase b) r (br_closed b) (br_pending b) (br_deferred b) (br_tracker b) (br_gate b) (br_teardown b) (br_encoding b) (br_replay b) (br_ping b) (br_out b) (br_sent b) (br_taken b) (br_read b) (br_asked b) (br_lost b).
Definition set_closed (c : option (bytes * bool)) (b : Bridge) : Bridge :=
  MkBridge (br_phase b) (br_reader b) c (br_pending b) (br_deferred b) (br_tracker b) (br_gate b) (br_teardown b) (br_encoding b) (br_replay b) (br_ping b) (br_out b) (br_sent b) (br_taken b) (br_read b) (br_asked b) (br_lost b).
Definition set_pending (l : list (Value * bytes * bytes)) (b : Bridge) : Bridge :=
  MkBridge (br_phase b) (br_reader b) (br_closed b) l (br_deferred b) (br_tracker b) (br_gate b) (br_teardown b) (br_encoding b) (br_replay b) (br_ping b) (br_out b) (br_sent b) (br_taken b) (br_read b) (br_asked b) (br_lost b).
Definition set_deferred (l : list bytes) (b : Bridge) : Bridge :=
  MkBridge (br_phase b) (br_reader b) (br_closed b) (br_pending b) l (br_tracker b) (br_gate b) (br_teardown b) (br_encoding b) (br_replay b) (br_ping b) (br_out b) (br_sent b) (br_taken b) (br_read b) (br_asked b) (br_lost b).
Definition set_tracker (t : LspStateTracker) (d : Teardown) (b : Bridge) : Bridge :=
  MkBridge (br_phase b) (br_reader b) (br_closed b) (br_pending b) (br_deferred b) t (br_gate b) d (br_encoding b) (br_replay b) (br_ping b) (br_out b) (br_sent b) (br_taken b) (br_read b) (br_asked b) (br_lost b).
Definition set_gate (g : SaveGate) (b : Bridge) : Bridge :=
  MkBridge (br_phase b) (br_reader b) (br_closed b) (br_pending b) (br_deferred b) (br_tracker b) g (br_teardown b) (br_encoding b) (br_replay b) (br_ping b) (br_out b) (br_sent b) (br_taken b) (br_read b) (br_asked b) (br_lost b).
Definition set_encoding (e : Z) (b : Bridge) : Bridge :=
  MkBridge (br_phase b) (br_reader b) (br_closed b) (br_pending b) (br_deferred b) (br_tracker b) (br_gate b) (br_teardown b) e (br_replay b) (br_ping b) (br_out b) (br_sent b) (br_taken b) (br_read b) (br_asked b) (br_lost b).
Definition set_replay (r : bool) (b : Bridge) : Bridge :=
  MkBridge (br_phase b) (br_reader b) (br_closed b) (br_pending b) (br_deferred b) (br_tracker b) (br_gate b) (br_teardown b) (br_encoding b) r (br_ping b) (br_out b) (br_sent b) (br_taken b) (br_read b) (br_asked b) (br_lost b).
Definition set_ping (p : bool) (b : Bridge) : Bridge :=
  MkBridge (br_phase b) (br_reader b) (br_closed b) (br_pending b) (br_deferred b) (br_tracker b) (br_gate b) (br_teardown b) (br_encoding b) (br_replay b) p (br_out b) (br_sent b) (br_taken b) (br_read b) (br_asked b) (br_lost b).
(** The editor is sent [frames]. *)
Definition write (frames : list bytes) (b : Bridge) : Bridge :=
  MkBridge (br_phase b) (br_reader b) (br_closed b) (br_pending b) (br_deferred b) (br_tracker b) (br_gate b) (br_teardown b) (br_encoding b) (br_replay b) (br_ping b) (br_out b ++ frames) (br_sent b) (br_taken b) (br_read b) (br_asked b) (br_lost b).
Definition set_sent (l : list message) (asked : list Value) (b : Bridge) : Bridge :=
  MkBridge (br_phase b) (br_reader b) (br_closed b) (br_pending b) (br_deferred b) (br_tracker b) (br_gate b) (br_teardown b) (br_encoding b) (br_replay b) (br_ping b) (br_out b) l (br_taken b) (br_read b) asked (br_lost b).
Definition note_taken (f : message) (b : Bridge) : Bridge :=
  MkBridge (br_phase b) (br_reader b) (br_closed b) (br_pending b) (br_deferred b) (br_tracker b) (br_gate b) (br_teardown b) (br_encoding b) (br_replay b) (br_ping b) (br_out b) (br_sent b) (br_taken b ++ [f]) (br_read b) (br_asked b) (br_lost b).
Definition note_read (f : bytes) (b : Bridge) : Bridge :=
  MkBridge (br_phase b) (br_reader b) (br_closed b) (br_pending b) (br_deferred b) (br_tracker b) (br_gate b) (br_teardown b) (br_encoding b) (br_replay b) (br_ping b) (br_out b) (br_sent b) (br_taken b) (br_read b ++ [f]) (br_asked b) (br_lost b).
Definition note_lost (l : list Lost) (b : Bridge) : Bridge :=
  MkBridge (br_phase b) (br_reader b) (br_closed b) (br_pending b) (br_deferred b) (br_tracker b) (br_gate b) (br_teardown b) (br_encoding b) (br_replay b) (br_ping b) (br_out b) (br_sent b) (br_taken b) (br_read b) (br_asked b) (br_lost b ++ l).

Definition new_bridge : Bridge :=
  MkBridge Looping Reading None [] [] new_tracker new_gate (MkTeardown false false) POSITION_ENCODING_UTF16 false false [] [] [] [] [] [].

Definition WORKSPACE_MODEL_CHANGED_REASON : bytes := B "workspace project model changed; reconnect".

(** [stdout_task.abort()]: what it was about to write is not written. *)
Definition abort_reader (b : Bridge) : Bridge :=
  set_reader Gone (note_lost match br_reader b with Delivering json => [Undelivered json] | _ => [] end b).

Section bridge.
Context (from_str : bytes -> option Value) (to_string : Value -> bytes) (reconnect : bool) (watchdog_secs : Z).

Definition should_reconnect_after_close (is_redirect : bool) (reason : bytes) : bool :=
  reconnect || is_redirect || ends_with WORKSPACE_MODEL_CHANGED_REASON reason.

Definition is_save (f : bytes) : bool := bool_decide (method_of from_str f = Some (B "textDocument/didSave")).
Definition saves_or_watches (f : bytes) : bool :=
  is_save f || bool_decide (method_of from_str f = Some (B "workspace/didChangeWatchedFiles")).

(** A message that reached the server's connection. *)
Definition send (f : message) (b : Bridge) : Bridge :=
  set_sent (br_sent b ++ [f]) (br_asked b ++ match from_str f.1 ≫= request_of with Some (id, _) => [id] | None => [] end) b.

(** ** The loop: [bridge.rs] *)

(** A message taken from the editor or the queue: noted, and what comes first. *)
Definition take_frame (now : Z) (f : bytes) (b : Bridge) : Bridge :=
  let b := note_taken (f, br_encoding b) b in
  let b := set_tracker (record_client_message from_str f (br_encoding b) (br_tracker b)) (observe (method_of from_str f) (br_teardown b)) b in
  let b := set_pending (track_pending_request from_str f (br_pending b)) b in
  set_phase (if needs_sync now (saves_or_watches f) (br_gate b) then Syncing (f, br_encoding b) else Sending (f, br_encoding b)) b.

Definition push_failed_warning (err : bytes) : bytes :=
  to_string (Object [(B "jsonrpc", String (B "2.0")); (B "method", String (B "window/showMessage"));
    (B "params", Object [(B "message", String (B "prod-code: the checkout could not be pushed to the node (" ++ err
       ++ B "); the check that follows sees the node's previous copy. Save again once the node is reachable.")); (B "type", int 2)])]).

(** [sync_and_flush] after the sync. *)
Definition synced (now : Z) (ok : bool) (err : bytes) (f : message) (b : Bridge) : Bridge :=
  let b := if negb ok && saves_or_watches f.1 then write [push_failed_warning err] b else b in
  let '(g, outgoing) := after_sync now ok (is_save f.1) f.1 (br_gate b) in
  let b := set_gate g b in
  match last outgoing with
  | None => set_phase Looping b
  | Some _ =>
      match removelast outgoing with
      | [] => set_phase (Sending f) b
      | rest => set_phase (Flushing rest f) b
      end
  end.

(** The editor is told that what it waits for will not come. *)
Definition fail_pending (msg : bytes) (b : Bridge) : Bridge :=
  set_pending [] (write (fail_pending_requests to_string msg (br_pending b)) b).
Definition fail_queue (b : Bridge) : Bridge := set_deferred [] (write (fail_deferred from_str to_string (br_deferred b)) b).

(** [shutdown_during_reconnect]. *)
Definition shutdown_during_reconnect (id : Value) (b : Bridge) : Bridge :=
  set_phase Draining (write [result_reply to_string id Null] (fail_pending (B "editor shutdown during reconnect") b)).

(** [handle_reconnect] up to the first attempt. *)
Definition is_shutdown (p : Value * bytes * bytes) : bool := bool_decide (p.1.2 = B "shutdown").
Definition handle_reconnect (why : bytes) (again : option bytes) (b : Bridge) : Bridge :=
  match list_find is_shutdown (br_pending b) with
  | Some (i, p) => shutdown_during_reconnect p.1.1 (fail_queue (set_pending (delete i (br_pending b)) b))
  | None => set_phase (Opening (MkReconnect why again None [])) b
  end.

(** The reconnect failed: the end of [handle_reconnect]. *)
Definition reconnect_failed (r : Reconnect) (err : bytes) (b : Bridge) : Bridge :=
  set_phase (Ended 1 GivenUp) (fail_pending (rc_why r ++ B " (reconnect failed: " ++ err ++ B ")") (fail_queue b)).
Definition editor_exit (r : Reconnect) (b : Bridge) : Bridge :=
  if td_shutdown (br_teardown b) then set_phase (Ended 0 Asked) b
  else reconnect_failed r (B "editor exited during language-server reconnect") b.
Definition editor_shutdown (id : Value) (b : Bridge) : Bridge := shutdown_during_reconnect id (fail_queue b).

(** The connection was lost outside the reader. *)
Definition connection_lost (why err : bytes) (again : option bytes) (b : Bridge) : Bridge :=
  if reconnect then handle_reconnect why again (abort_reader b)
  else set_phase (Ended 1 GivenUp) (fail_pending err b).

Definition expected (b : Bridge) : option Phase := (fun code => Ended code Asked) <$> expected_exit (br_teardown b).

(** The reader's report that the session was closed. *)
Definition session_closed (why : bytes) (redirect : bool) (b : Bridge) : Bridge :=
  match expected b with
  | Some p => set_phase p b
  | None =>
      if should_reconnect_after_close redirect why then handle_reconnect why None b
      else set_phase (Ended 1 GivenUp) (fail_pending why b)
  end.

(** The watchdog: a ping without an answer, or that cannot be sent, is a lost connection. *)
Definition tick (ok : bool) (err : bytes) (b : Bridge) : Bridge :=
  if br_ping b then
    let why := B "did not respond to watchdog ping within " ++ show watchdog_secs ++ B "s" in
    connection_lost why why None b
  else
    let b := set_ping true b in
    if ok then b else connection_lost (B "broke the connection during watchdog ping: " ++ err) err None b.

(** A list of all open documents. *)
Definition is_order (order : list TrackedDocument) (docs : gmap bytes TrackedDocument) : bool :=
  bool_decide (list_to_map (map (fun d => (td_uri d, d)) order) = docs) && bool_decide (NoDup (map td_uri order)).

(** The message was sent, or could not be. *)
Definition main_sent (ok : bool) (err : bytes) (order : list TrackedDocument) (f : message) (b : Bridge) : option Bridge :=
  if ok then
    let b := send f b in
    if bool_decide (method_of from_str f.1 = Some (B "initialized")) && br_replay b then
      if is_order order (open_documents (br_tracker b)) then
        Some match replay_lsp_workspace_state to_string (br_tracker b) order with
             | [] => set_replay false (set_phase Looping b)
             | rest => set_phase (Replaying rest) b
             end
      else None
    else Some (set_phase Looping b)
  else Some match expected b with
            | Some p => set_phase p (abort_reader b)
            | None => connection_lost (B "broke the connection: " ++ err) err (Some f.1) b
            end.

(** ** Reconnecting: [reconnect.rs] *)

Definition retain_not (id : Value) (pending : list (Value * bytes * bytes)) : list (Value * bytes * bytes) :=
  filter (fun p => p.1.1 <> id) pending.

Definition queue_frame (r : Reconnect) (f : bytes) (b : Bridge) : Bridge :=
  match defer_editor_message (br_deferred b) f with
  | Some q => set_deferred q b
  | None => reconnect_failed r (B "too many editor messages queued during language-server reconnect") (note_lost [Unqueued f] b)
  end.

(** A message of the editor in [while_reconnecting]. *)
Definition editor_while_reconnecting (r : Reconnect) (f : bytes) (b : Bridge) : Bridge :=
  let value := from_str f in
  let method := value ≫= fun v => get_str v (B "method") in
  match (if bool_decide (method = Some (B "shutdown")) then value ≫= fun v => get v (B "id") else None) with
  | Some id => editor_shutdown id b
  | None =>
      if bool_decide (method = Some (B "exit")) then editor_exit r b
      else
        match (if bool_decide (method = Some CANCEL) then value ≫= fun v => pointer v [B "params"; B "id"] else None) with
        | Some id =>
            if bool_decide (retain_not id (br_pending b) = br_pending b) then queue_frame r f b
            else write [error_reply to_string id (-32800) (B "request cancelled")] (set_pending (retain_not id (br_pending b)) b)
        | None => queue_frame r f b
        end
  end.

(** After the loss of a session that was being restored. *)
Definition try_again (r : Reconnect) (b : Bridge) : Bridge := set_phase (Opening (MkReconnect (rc_why r) (rc_again r) None [])) b.

(** The requests under way are answered, the queue is put in order and the new session takes
    the place of the old. *)
Definition resumed (r : Reconnect) (b : Bridge) : Bridge :=
  let b := set_pending [] (write (replay_pending_requests from_str to_string (br_deferred b) (br_pending b)) b) in
  let '(frames, rejected) := prepare_deferred from_str to_string (br_deferred b) in
  let b := set_deferred frames (write rejected b) in
  let b := set_ping false (set_replay (negb (initialized_sent (br_tracker b))) b) in
  let b := set_closed None (set_reader Reading b) in
  set_phase match rc_again r with Some f => if saves_or_watches f then Resending f else Looping | None => Looping end b.

(** The state is restored: an [initialize] that was under way gets the new server's answer. *)
Definition restored (r : Reconnect) (reply : option bytes) (b : Bridge) : Bridge :=
  match rc_init r with
  | None => resumed r b
  | Some id =>
      match reply with
      | None => try_again r b
      | Some response =>
          resumed r (set_pending (filter (fun p => p.1.1 <> id \/ p.1.2 <> B "initialize") (br_pending b)) (write [response] b))
      end
  end.

Definition greeted (r : Reconnect) (reply : option bytes) (b : Bridge) : Bridge :=
  if initialized_sent (br_tracker b)
  then set_phase (Restoring r (to_string initialized_message :: replay_lsp_workspace_state to_string (br_tracker b) (rc_docs r)) reply) b
  else restored r reply b.

(** The id of the recorded [initialize]. *)
Definition initialize_id (b : Bridge) : option Value :=
  req ← initialize_req (br_tracker b); v ← from_str req; get v (B "id").

(** A session was opened, and the recorded [initialize] sent on it. *)
Definition opened_session (ok : bool) (order : list TrackedDocument) (r : Reconnect) (b : Bridge) : option Bridge :=
  if is_order order (open_documents (br_tracker b)) then
    let init := (fun p => p.1.1) <$> List.find (fun p => bool_decide (p.1.2 = B "initialize")) (br_pending b) in
    let r := MkReconnect (rc_why r) (rc_again r) init order in
    let b := set_sent [] [] b in
    Some match initialize_req (br_tracker b) with
         | None => greeted r None b
         | Some req =>
             match initialize_id b with
             | Some _ => if ok then set_phase (Greeting r [] None) (send (req, br_encoding b) b) else try_again r b
             | None => try_again r b
             end
         end
  else None.

(** A message of the new server while [initialize] is replayed. *)
Definition server_greeting (r : Reconnect) (ids : list Value) (reply : option bytes) (json : bytes) (b : Bridge) : Bridge :=
  let forward ids := set_phase (Greeting r ids reply) (write [json] b) in
  match from_str json with
  | None => forward ids
  | Some value =>
      if bool_decide (get value (B "id") = initialize_id b) && bool_decide (get value (B "method") = None) then
        match get value (B "error"), get value (B "result") with
        | None, Some (Object _) =>
            match update_server_capabilities (br_encoding b) value (bool_decide (rc_init r = None)) with
            | None => reconnect_failed r (B "gateway changed LSP position encoding or sync capabilities; restart the language server") b
            | Some e =>
                let b := set_encoding e b in
                match ids with [] => greeted r (Some json) b | _ => set_phase (Greeting r ids (Some json)) b end
            end
        | _, _ => try_again r b
        end
      else
        match get value (B "method"), get value (B "id") with
        | Some _, Some id => forward (ids ++ [id])
        | _, _ => forward ids
        end
  end.

(** A message of the editor meanwhile. *)
Definition editor_greeting (ok : bool) (r : Reconnect) (ids : list Value) (reply : option bytes) (f : bytes) (b : Bridge) : Bridge :=
  let value := from_str f in
  let method := value ≫= fun v => get_str v (B "method") in
  if bool_decide (method = Some (B "exit")) then editor_exit r b
  else
    match (if bool_decide (method = Some (B "shutdown")) then value ≫= fun v => get v (B "id") else None) with
    | Some id => editor_shutdown id b
    | None =>
        let id := v ← value; if bool_decide (get v (B "method") = None) then get v (B "id") else None in
        match id ≫= fun id => list_find (fun x => x = id) ids with
        | Some (i, _) =>
            let ids := delete i ids in
            if ok then
              let b := send (f, br_encoding b) b in
              match ids, reply with
              | [], Some _ => greeted r reply b
              | _, _ => set_phase (Greeting r ids reply) b
              end
            else try_again r b
        | None => queue_frame r f b
        end
    end.

(** ** The reader: [spawn_editor_stdout_task] *)

(** What the reader does with a message before it is written. *)
Definition server_message (json : bytes) (b : Bridge) : Bridge :=
  let b :=
    match from_str json with
    | Some val =>
        let b := if bool_decide (pointer val [B "result"; B "capabilities"] = None) then b
                 else set_encoding (default (br_encoding b) (update_server_capabilities (br_encoding b) val false)) b in
        match get val (B "id"), get val (B "method") with
        | Some id, None => set_pending (retain_not id (br_pending b)) b
        | _, _ => b
        end
    | None => b
    end in
  set_reader (Delivering json) b.

(** The answer a message of the server is. *)
Definition response_of (json : bytes) : option Value :=
  v ← from_str json; if bool_decide (get v (B "method") = None) then get v (B "id") else None.
(** The server may send it: an answer to a request it still has. *)
Definition answers_asked (json : bytes) (b : Bridge) : option Bridge :=
  match response_of json with
  | None => Some b
  | Some id =>
      match list_find (fun x => x = id) (br_asked b) with
      | Some (i, _) => Some (set_sent (br_sent b) (delete i (br_asked b)) b)
      | None => None
      end
  end.

(** ** Events *)

Inductive Event :=
| EditorFrame (now : Z) (ok : bool) (f : bytes)   (** a message of the editor; [ok]: forwarding an answer works *)
| TakeDeferred (now : Z)
| EditorClosed
| EditorError (err : bytes)
| Synced (now : Z) (ok : bool) (err : bytes)
| Sent (ok : bool) (err : bytes) (order : list TrackedDocument)
| Tick (ok : bool) (err : bytes)
| ServerMessage (json : bytes)
| Deliver
| ServerPong
| ServerClosed (why : bytes) (redirect : bool)
| SessionClosed
| OpenFailed                                      (** an attempt fails, or the replay of [initialize] *)
| Opened (ok : bool) (order : list TrackedDocument)
| GiveUp (err : bytes)
| ReplayTimeout.

Definition editor_frame (now : Z) (ok : bool) (f : bytes) (b : Bridge) : option Bridge :=
  let b' := note_read f b in
  match br_phase b with
  | Looping => if bool_decide (br_deferred b = []) then Some (take_frame now f b') else None
  | Opening r | Restoring r _ _ => Some (editor_while_reconnecting r f b')
  | Greeting r ids reply => Some (editor_greeting ok r ids reply f b')
  | Draining => Some (if bool_decide (method_of from_str f = Some (B "exit")) then set_phase (Ended 0 Asked) b else b)
  | _ => None
  end.

Definition take_deferred (now : Z) (b : Bridge) : option Bridge :=
  match br_phase b, br_deferred b with
  | Looping, f :: rest => Some (take_frame now f (set_deferred rest b))
  | _, _ => None
  end.

Definition editor_closed (b : Bridge) : option Bridge :=
  match br_phase b with
  | Looping => if bool_decide (br_deferred b = []) then Some (set_phase (Ended 0 Asked) b) else None
  | Opening r | Restoring r _ _ | Greeting r _ _ => Some (reconnect_failed r (B "editor closed during language-server reconnect") b)
  | Draining => Some (set_phase (Ended 0 Asked) b)
  | _ => None
  end.

Definition editor_error (err : bytes) (b : Bridge) : option Bridge :=
  match br_phase b with
  | Looping => if bool_decide (br_deferred b = []) then Some (set_phase (Ended 1 Asked) b) else None
  | Opening r | Restoring r _ _ | Greeting r _ _ => Some (reconnect_failed r (B "reading editor message during reconnect: " ++ err) b)
  | Draining => Some (set_phase (Ended 1 Asked) b)
  | _ => None
  end.

Definition sent (ok : bool) (err : bytes) (order : list TrackedDocument) (b : Bridge) : option Bridge :=
  match br_phase b with
  | Flushing (h :: rest) f =>
      Some (if ok then set_phase match rest with [] => Sending f | _ => Flushing rest f end (send (h, br_encoding b) b) else set_phase (Sending f) b)
  | Sending f => main_sent ok err order f b
  | Replaying (m :: rest) =>
      Some (if ok then
              let b := send (m, br_encoding b) b in
              match rest with [] => set_replay false (set_phase Looping b) | _ => set_phase (Replaying rest) b end
            else set_phase (Ended 1 Abandoned) b)
  | Restoring r (m :: rest) reply =>
      Some (if ok then
              let b := send (m, br_encoding b) b in
              match rest with [] => restored r reply b | _ => set_phase (Restoring r rest reply) b end
            else try_again r b)
  | Resending f => Some (if ok then set_phase Looping (send (f, br_encoding b) b) else set_phase (Ended 1 Abandoned) b)
  | _ => None
  end.

Definition step (e : Event) (b : Bridge) : option Bridge :=
  match e with
  | EditorFrame now ok f => editor_frame now ok f b
  | TakeDeferred now => take_deferred now b
  | EditorClosed => editor_closed b
  | EditorError err => editor_error err b
  | Synced now ok err => match br_phase b with Syncing f => Some (synced now ok err f b) | _ => None end
  | Sent ok err order => sent ok err order b
  | Tick ok err => match br_phase b with Looping => if bool_decide (br_deferred b = []) && (0 <? watchdog_secs) then Some (tick ok err b) else None | _ => None end
  | ServerMessage json =>
      b' ← answers_asked json b;
      match br_phase b, br_reader b with
      | Ended _ _, _ => None
      | Greeting r ids reply, _ => Some (server_greeting r ids reply json b')
      | _, Reading => Some (server_message json b')
      | _, _ => None
      end
  | Deliver => match br_phase b, br_reader b with Ended _ _, _ => None | _, Delivering json => Some (set_reader Reading (write [json] b)) | _, _ => None end
  | ServerPong => match br_reader b with Reading => Some (set_ping false b) | _ => None end
  | ServerClosed why redirect =>
      match br_phase b, br_reader b with
      | Greeting r _ _, _ => Some (try_again r b)
      | _, Reading => Some (set_closed (Some (why, redirect)) (set_reader Gone b))
      | _, _ => None
      end
  | SessionClosed =>
      match br_phase b, br_closed b with
      | Looping, Some (why, redirect) => if bool_decide (br_deferred b = []) then Some (session_closed why redirect (set_closed None b)) else None
      | _, _ => None
      end
  | OpenFailed => match br_phase b with Opening r => Some b | Greeting r _ _ => Some (try_again r b) | _ => None end
  | Opened ok order => match br_phase b with Opening r => opened_session ok order r b | _ => None end
  | GiveUp err => match br_phase b with Opening r => Some (reconnect_failed r err b) | _ => None end
  | ReplayTimeout => match br_phase b with Greeting _ _ _ | Restoring _ _ _ => Some (set_phase (Ended 1 Abandoned) b) | _ => None end
  end.

Fixpoint run (events : list Event) (b : Bridge) : option Bridge :=
  match events with [] => Some b | e :: rest => b' ← step e b; run rest b' end.

(** What holds at first and is kept by every step holds always. *)
Lemma bridge_invariant (P : Bridge -> Prop) : (forall e b b', P b -> step e b = Some b' -> P b') ->
  forall events b b', P b -> run events b = Some b' -> P b'.
Proof.
  intros Hstep. induction events as [|e events IH]; intros b b' Hb; cbn [run]; [by intros [= <-]|].
  intros (b1 & He & Hr)%bind_Some. eapply IH; [|exact Hr]. eapply Hstep; [exact Hb|exact He].
Qed.
End bridge.
