(* ===== verification/BridgeOrder.v ===== *)
(** * No edit is lost or overtaken

    The messages in which the editor describes its documents reach the loop of the bridge in the
    order the editor sent them, through the queue of a reconnect and what is dropped from it. *)

From stdpp Require Import gmap list.
From Stdlib Require Import Strings.Byte.
From S2P Require Import Prelude RustStr Utf8 Json SerdeJson TextEdits BridgeState Bridge.

#[local] Set Warnings "-register-all".

Section order.
Context (from_str : bytes -> option Value) (to_string : Value -> bytes) (reconnect : bool) (watchdog_secs : Z).
Context `{!SerdeJson from_str to_string}.

#[local] Abbreviation step := (step from_str to_string reconnect watchdog_secs).

(** A notification that changes a document. *)
Definition is_edit (f : bytes) : bool :=
  match from_str f with
  | Some v => match get_str v (B "method") with Some m => bool_decide (m ∈ edit_methods) && bool_decide (get v (B "id") = None) | None => false end
  | None => false
  end.
Definition edits_of (l : list bytes) : list bytes := filter (fun f => is_edit f = true) l.

Lemma edits_of_app l k : edits_of (l ++ k) = edits_of l ++ edits_of k.
Proof. apply filter_app. Qed.
Lemma edits_of_none l f : is_edit f = false -> edits_of (l ++ [f]) = edits_of l.
Proof. intros E. unfold edits_of. rewrite filter_app, filter_cons_False by (by rewrite E). apply app_nil_r. Qed.
Lemma edits_of_cons f l : edits_of (f :: l) = (if is_edit f then [f] else []) ++ edits_of l.
Proof. unfold edits_of. destruct (is_edit f) eqn:E; [by rewrite filter_cons_True|by rewrite filter_cons_False by (by rewrite E)]. Qed.

Lemma method_no_edit f m : method_of from_str f = m -> (forall x, m = Some x -> x ∉ edit_methods) -> is_edit f = false.
Proof.
  unfold method_of, is_edit. destruct (from_str f) as [v|]; [|done]. cbn [mbind option_bind]. intros <- H.
  destruct (get_str v (B "method")) as [x|]; [|done]. by rewrite bool_decide_eq_false_2 by (by apply H).
Qed.

Lemma id_no_edit f v id : from_str f = Some v -> get v (B "id") = Some id -> is_edit f = false.
Proof. intros Ev Ei. unfold is_edit. rewrite Ev, Ei. destruct (get_str v (B "method")); [|done]. by rewrite andb_false_r. Qed.

(** Putting the queue in order drops no edit and keeps their order. *)
Lemma normalize_edits deferred : edits_of (prepare_deferred from_str to_string deferred).1 = edits_of deferred.
Proof.
  unfold prepare_deferred, normalize_deferred. set (c := cancelled_in from_str deferred). clearbody c.
  destruct (foldr _ _ deferred) as [[frames rejected] later] eqn:E. cbn [fst]. revert frames rejected later E.
  induction deferred as [|f deferred IH]; intros frames rejected later; cbn [foldr]; [by intros [= <- <- <-]|].
  destruct (foldr _ _ deferred) as [[frames0 rejected0] later0]. specialize (IH _ _ _ eq_refl). rewrite edits_of_cons, <- IH. clear IH.
  unfold normalize_one. destruct (from_str f) as [v|] eqn:Ev; [|intros [= <- <- <-]; apply edits_of_cons].
  cbv zeta. case_bool_decide as Em.
  { intros [= <- <- <-]. rewrite (method_no_edit f (Some CANCEL)); [done|unfold method_of; by rewrite Ev|]. intros x [= <-]. by_decide. }
  destruct (request_of v) as [[id m]|] eqn:Er; [|intros [= <- <- <-]; apply edits_of_cons].
  apply bind_Some in Er as (id' & Hid & Hm). apply bind_Some in Hm as (m' & Hm & [= -> ->]). rewrite (id_no_edit f v id Ev Hid).
  destruct (bool_decide _); [by intros [= <- <- <-]|]. destruct (_ || _); [by intros [= <- <- <-]|].
  destruct (replay_request _ _ _ _) as [request|] eqn:Eq; [|by intros [= <- <- <-]]. intros [= <- <- <-]. rewrite edits_of_cons.
  destruct (replay_request_same from_str to_string m f v request Ev Eq) as (v' & Ev' & Ei & _). by rewrite (id_no_edit request v' id) by (rewrite ?Ei; done).
Qed.

(** What the editor said of its documents, the loop took, in that order, or has still to take. *)
Definition over (p : Phase) : bool := match p with Draining | Ended _ _ => true | _ => false end.
Definition order_ok (b : Bridge) : Prop :=
  over (br_phase b) = false -> edits_of (br_read b) = edits_of (map fst (br_taken b)) ++ edits_of (br_deferred b).

(** Nothing changed here, unless the bridge ended. *)
Definition untouched (b b' : Bridge) : Prop :=
  over (br_phase b') = true \/ br_read b' = br_read b /\ br_taken b' = br_taken b /\ br_deferred b' = br_deferred b.
Lemma oo_untouched b b' : order_ok b -> over (br_phase b) = false -> untouched b b' -> order_ok b'.
Proof. intros Hb Hp [E|(E1 & E2 & E3)] Ho; [congruence|]. rewrite E1, E2, E3. by apply Hb. Qed.

Lemma handle_reconnect_untouched why again b : untouched b (handle_reconnect from_str to_string why again b).
Proof. unfold handle_reconnect. destruct (list_find _ _) as [[i p]|]; [by left|by right]. Qed.
Lemma connection_lost_untouched why err again b : untouched b (connection_lost from_str to_string reconnect why err again b).
Proof. unfold connection_lost. destruct reconnect; [apply (handle_reconnect_untouched why again (abort_reader b))|by left]. Qed.
Lemma expected_over b p : expected b = Some p -> over p = true.
Proof. unfold expected. destruct (expected_exit _); [|done]. by intros [= <-]. Qed.
Lemma session_closed_untouched why redirect b : untouched b (session_closed from_str to_string reconnect why redirect b).
Proof.
  unfold session_closed. destruct (expected b) as [p|] eqn:E; [left; by apply expected_over in E|].
  destruct (should_reconnect_after_close _ _ _); [apply handle_reconnect_untouched|by left].
Qed.

Lemma oo_over b : over (br_phase b) = true -> order_ok b.
Proof. intros E H. congruence. Qed.
Lemma oo_exit r b : order_ok (editor_exit from_str to_string r b).
Proof. apply oo_over. unfold editor_exit. by destruct (td_shutdown _). Qed.

Lemma oo_take now f b : over (br_phase b) = false -> edits_of (br_read b) = edits_of (map fst (br_taken b)) ++ edits_of (f :: br_deferred b) ->
  order_ok (take_frame from_str now f b).
Proof.
  intros Hp Hb _. cbn [take_frame set_phase set_pending set_tracker note_taken br_read br_taken br_deferred]. rewrite Hb, map_app, edits_of_app.
  cbn [map]. rewrite !edits_of_cons, <- app_assoc. f_equal. by rewrite app_nil_r.
Qed.

(** A message that is queued or, when it is no edit, dealt with at once. *)
Lemma oo_queue r f b : order_ok b -> over (br_phase b) = false -> order_ok (queue_frame from_str to_string r f (note_read f b)).
Proof.
  intros Hb Hp. unfold queue_frame, defer_editor_message. destruct (_ || _); [by apply oo_over|]. intros _.
  cbn [set_deferred note_read br_read br_taken br_deferred]. by rewrite !edits_of_app, Hb, app_assoc.
Qed.
Lemma oo_read f b b' : order_ok b -> over (br_phase b) = false -> is_edit f = false -> untouched (note_read f b) b' -> order_ok b'.
Proof.
  intros Hb Hp Hf. apply oo_untouched; [|done]. intros _. cbn [note_read br_read br_taken br_deferred]. rewrite edits_of_none by done. by apply Hb.
Qed.

Lemma oo_while_reconnecting r f b : order_ok b -> over (br_phase b) = false ->
  order_ok (editor_while_reconnecting from_str to_string r f (note_read f b)).
Proof.
  intros Hb Hp. unfold editor_while_reconnecting. cbv zeta. destruct (if bool_decide _ then _ else None) as [id|]; [by apply oo_over|].
  destruct (bool_decide _); [apply oo_exit|]. destruct (bool_decide_reflect (method_of from_str f = Some CANCEL)) as [Ec|Ec].
  - change (from_str f ≫= fun v => get_str v (B "method")) with (method_of from_str f). rewrite Ec, bool_decide_eq_true_2 by done.
    destruct (from_str f ≫= _); [|by apply oo_queue]. destruct (bool_decide _); [by apply oo_queue|].
    apply (oo_read f b); [done|done| |by right]. apply (method_no_edit f _ Ec). intros x [= <-]. by_decide.
  - change (from_str f ≫= fun v => get_str v (B "method")) with (method_of from_str f). rewrite bool_decide_eq_false_2 by done. by apply oo_queue.
Qed.

Lemma oo_resumed r b : order_ok b -> over (br_phase b) = false -> order_ok (resumed from_str to_string r b).
Proof.
  intros Hb Hp. unfold resumed. cbv zeta. cbn [write set_pending br_deferred].
  pose proof (normalize_edits (br_deferred b)) as Hn. destruct (prepare_deferred _ _ _) as [frames rejected]. intros _.
  cbn [set_phase set_closed set_reader set_ping set_replay set_deferred br_read br_taken br_deferred fst] in *. rewrite Hn. by apply Hb.
Qed.
Lemma oo_restored r reply b : order_ok b -> over (br_phase b) = false -> order_ok (restored from_str to_string r reply b).
Proof.
  intros Hb Hp. unfold restored. destruct (rc_init r) as [id|]; [|by apply oo_resumed].
  destruct reply; [apply oo_resumed; [by apply (oo_untouched b); [..|right]|done]|by apply (oo_untouched b); [..|right]].
Qed.
Lemma oo_greeted r reply b : order_ok b -> over (br_phase b) = false -> order_ok (greeted from_str to_string r reply b).
Proof. intros Hb Hp. unfold greeted. destruct (initialized_sent _); [by apply (oo_untouched b); [..|right]|by apply oo_restored]. Qed.

Lemma oo_opened ok order r b b' : order_ok b -> over (br_phase b) = false -> opened_session from_str to_string ok order r b = Some b' -> order_ok b'.
Proof.
  intros Hb Hp. unfold opened_session. destruct (is_order _ _); [|done]. cbv zeta. intros [= <-].
  destruct (initialize_req _); [|apply oo_greeted; [by apply (oo_untouched b); [..|right]|done]].
  destruct (initialize_id _ _); [destruct ok|]; (apply (oo_untouched b); [done|done|by right]).
Qed.

Lemma oo_server_greeting r ids reply json b : order_ok b -> over (br_phase b) = false ->
  order_ok (server_greeting from_str to_string r ids reply json b).
Proof.
  intros Hb Hp. unfold server_greeting. cbv zeta.
  assert (Hf : forall ids', order_ok (set_phase (Greeting r ids' reply) (write [json] b))) by (intros ids'; by apply (oo_untouched b); [..|right]).
  assert (Ht : order_ok (try_again r b)) by (by apply (oo_untouched b); [..|right]).
  destruct (from_str json) as [value|]; [|done]. destruct (_ && _).
  - destruct (get value (B "error")); [done|]. destruct (get value (B "result")) as [[]|]; try done.
    destruct (update_server_capabilities _ _ _) as [e|]; [|by apply oo_over].
    assert (He : order_ok (set_encoding e b)) by (by apply (oo_untouched b); [..|right]).
    destruct ids; [by apply oo_greeted|by apply (oo_untouched b); [..|right]].
  - destruct (get value (B "method")), (get value (B "id")); done.
Qed.

Lemma oo_editor_greeting ok r ids reply f b : order_ok b -> over (br_phase b) = false ->
  order_ok (editor_greeting from_str to_string ok r ids reply f (note_read f b)).
Proof.
  intros Hb Hp. unfold editor_greeting. cbv zeta. destruct (bool_decide _); [apply oo_exit|].
  destruct (if bool_decide _ then _ else None) as [id|]; [by apply oo_over|].
  destruct (v ← from_str f; _) as [id|] eqn:Eid; cbn [mbind option_bind]; [|by apply oo_queue].
  assert (Hf : is_edit f = false).
  { apply bind_Some in Eid as (v & Ev & Ei). case_bool_decide as Em; [|done]. by apply (id_no_edit f v id). }
  destruct (list_find _ ids) as [[i x]|]; [|by apply oo_queue]. destruct ok; [|by apply (oo_read f b); [..|right]].
  assert (Hr : forall b', untouched (note_read f b) b' -> order_ok b') by (intros b'; by apply (oo_read f b)).
  destruct (delete i ids); [|by apply Hr; right]. destruct reply; [|by apply Hr; right]. apply oo_greeted; [by apply Hr; right|done].
Qed.

Lemma oo_synced now ok err f b : order_ok b -> over (br_phase b) = false -> order_ok (synced from_str to_string now ok err f b).
Proof.
  intros Hb Hp. apply (oo_untouched b); [done|done|]. right. unfold synced, after_sync. destruct (negb ok && _), ok, (is_save from_str f.1);
    cbn [fst snd]; try destruct (last _); try destruct (removelast _); done.
Qed.

Lemma oo_sent ok err order b b' : order_ok b -> sent from_str to_string reconnect ok err order b = Some b' -> order_ok b'.
Proof.
  intros Hb. unfold sent. assert (Hu : over (br_phase b) = false -> forall b', untouched b b' -> order_ok b') by (intros; by apply (oo_untouched b)).
  destruct (br_phase b) as [|f|rest f|f|rest|r|r ids reply|r rest reply|f| |code why] eqn:Ep; try done; specialize (Hu eq_refl).
  - destruct rest; [done|]. intros [= <-]. apply Hu. right. by destruct ok.
  - unfold main_sent. destruct ok.
    + destruct (_ && _); [|intros [= <-]; by apply Hu; right]. destruct (is_order _ _); [|done]. intros [= <-].
      apply Hu. right. by destruct (replay_lsp_workspace_state _ _ _).
    + intros [= <-]. apply Hu. destruct (expected b) as [p|] eqn:E; [left; by apply expected_over in E|apply connection_lost_untouched].
  - destruct rest as [|m [|m' rest]]; [done| |]; intros [= <-]; apply Hu; (destruct ok; [by right|by left]).
  - destruct rest as [|m rest]; [done|]. intros [= <-]. destruct ok; [|by apply Hu; right].
    destruct rest; [|by apply Hu; right]. apply oo_restored; [by apply Hu; right|cbn; by rewrite Ep].
  - intros [= <-]. apply Hu. destruct ok; [by right|by left].
Qed.

Lemma oo_editor_frame now ok f b b' : order_ok b -> editor_frame from_str to_string now ok f b = Some b' -> order_ok b'.
Proof.
  intros Hb. unfold editor_frame. destruct (br_phase b) eqn:Ep; try done.
  - case_bool_decide as Ed; [|done]. intros [= <-]. apply oo_take; [cbn; by rewrite Ep|]. cbn [note_read br_read br_taken br_deferred].
    rewrite edits_of_app, Hb by (by rewrite Ep). by rewrite Ed, app_nil_r.
  - intros [= <-]. apply oo_while_reconnecting; [done|by rewrite Ep].
  - intros [= <-]. apply oo_editor_greeting; [done|by rewrite Ep].
  - intros [= <-]. apply oo_while_reconnecting; [done|by rewrite Ep].
  - intros [= <-]. destruct (bool_decide _); [by apply oo_over|done].
Qed.

Lemma oo_step e b b' : order_ok b -> step e b = Some b' -> order_ok b'.
Proof.
  intros Hb. assert (Hu : over (br_phase b) = false -> forall b', untouched b b' -> order_ok b') by (intros; by apply (oo_untouched b)).
  assert (Hsame : forall b', br_phase b' = br_phase b -> br_read b' = br_read b -> br_taken b' = br_taken b -> br_deferred b' = br_deferred b -> order_ok b').
  { intros b1 E1 E2 E3 E4. unfold order_ok. by rewrite E1, E2, E3, E4. }
  destruct e; cbn [Bridge.step].
  - by apply oo_editor_frame.
  - unfold take_deferred. destruct (br_phase b) eqn:Ep; try done. destruct (br_deferred b) as [|f rest] eqn:Ed; [done|]. intros [= <-].
    apply oo_take; [cbn; by rewrite Ep|]. cbn [set_deferred br_read br_taken br_deferred]. rewrite <- Ed. apply Hb. by rewrite Ep.
  - unfold editor_closed. destruct (br_phase b); try done; try destruct (bool_decide _); intros [= <-]; by apply oo_over.
  - unfold editor_error. destruct (br_phase b); try done; try destruct (bool_decide _); intros [= <-]; by apply oo_over.
  - destruct (br_phase b) eqn:Ep; try done. intros [= <-]. apply oo_synced; [done|by rewrite Ep].
  - by apply oo_sent.
  - destruct (br_phase b) eqn:Ep; try done. destruct (_ && _); [|done]. intros [= <-]. apply Hu; [done|]. unfold tick. cbv zeta.
    destruct (br_ping b); [apply connection_lost_untouched|]. destruct ok; [by right|apply (connection_lost_untouched _ _ _ (set_ping true b))].
  - intros (b1 & Ha & Hb1)%bind_Some. assert (order_ok b1 /\ br_phase b1 = br_phase b) as [Hm Ep].
    { unfold answers_asked in Ha. destruct (response_of _ _); [|by simplify_eq]. destruct (list_find _ _) as [[]|]; [|done].
      simplify_eq. split; [by apply Hsame|done]. }
    assert (Hsame1 : order_ok (server_message from_str json b1)).
    { unfold order_ok, server_message. destruct (from_str json) as [v|]; [|done]. by destruct (bool_decide _), (get v (B "id")), (get v (B "method")). }
    destruct (br_phase b) eqn:Eb; destruct (br_reader b); try done; simplify_eq; try done; apply oo_server_greeting; [done|by rewrite Ep|done|by rewrite Ep|done|by rewrite Ep].
  - destruct (br_phase b) eqn:Eb; destruct (br_reader b); try done; intros [= <-]; by apply Hsame.
  - destruct (br_reader b); try done. intros [= <-]. by apply Hsame.
  - destruct (br_phase b) eqn:Eb; destruct (br_reader b); try done; intros [= <-]; (by apply Hsame) || (by apply Hu; [|right]).
  - destruct (br_phase b) eqn:Eb; try done. destruct (br_closed b) as [[why redirect]|]; [|done]. destruct (bool_decide _); [|done]. intros [= <-].
    apply Hu; [done|apply (session_closed_untouched why redirect (set_closed None b))].
  - destruct (br_phase b) eqn:Eb; try done; intros [= <-]; [done|by apply Hu; [|right]].
  - destruct (br_phase b) eqn:Eb; try done. apply oo_opened; [done|by rewrite Eb].
  - destruct (br_phase b) eqn:Eb; try done. intros [= <-]. by apply oo_over.
  - destruct (br_phase b) eqn:Eb; try done; intros [= <-]; by apply oo_over.
Qed.
End order.
