(* ===== verification/BridgeMirror.v ===== *)
(** * The server has the documents the editor has

    Whatever connections are lost and however often the bridge reconnects, the server of the
    present session has exactly the documents that the messages of the editor describe. *)

From stdpp Require Import gmap list.
From Stdlib Require Import Strings.Byte.
From S2P Require Import Prelude RustStr Utf8 Json SerdeJson TextEdits BridgeState Bridge BridgeOrder.

#[local] Set Warnings "-register-all".

Abbreviation documents := (gmap bytes TrackedDocument).

Section mirror.
Context (from_str : bytes -> option Value) (to_string : Value -> bytes) (reconnect : bool) (watchdog_secs : Z).
Context `{!SerdeJson from_str to_string}.

#[local] Abbreviation record := (record_document from_str).
#[local] Abbreviation step := (step from_str to_string reconnect watchdog_secs).
#[local] Abbreviation run := (run from_str to_string reconnect watchdog_secs).

(** The documents a server has after these messages. *)
Definition apply_all (l : list message) (docs : documents) : documents := foldl (fun d m => record m.1 m.2 d) docs l.
Definition server_documents (b : Bridge) : documents := apply_all (br_sent b) ∅.

Lemma apply_all_app l k docs : apply_all (l ++ k) docs = apply_all k (apply_all l docs).
Proof. apply foldl_app. Qed.

(** ** Messages that change no document, or by themselves *)

Definition quiet (f : bytes) : Prop := forall e d, record f e d = d.
(** Its effect does not depend on how positions are counted. *)
Definition plain (f : bytes) : Prop := forall e e' d, record f e d = record f e' d.

Lemma quiet_method f : match method_of from_str f with Some m => m ∉ edit_methods | None => True end -> quiet f.
Proof.
  intros H e d. unfold record_document. destruct (from_str f) as [v|]; [|done]. destruct (method_of from_str f) as [m|]; [|done].
  assert (m <> B "textDocument/didOpen" /\ m <> B "textDocument/didClose" /\ m <> B "textDocument/didChange") as (H1 & H2 & H3).
  { split_and!; intros ->; apply H; by_decide. }
  by rewrite !bool_decide_eq_false_2.
Qed.
Lemma quiet_named f m : method_of from_str f = Some m -> m ∉ edit_methods -> quiet f.
Proof. intros E H. apply quiet_method. by rewrite E. Qed.
Lemma quiet_all l e d : Forall quiet l -> apply_all (map (fun m => (m, e)) l) d = d.
Proof. induction 1 as [|f l Hf Hl IH]; cbn; [done|]. by rewrite Hf. Qed.
Lemma quiet_plain f : quiet f -> plain f.
Proof. intros H e e' d. by rewrite !H. Qed.
Lemma save_quiet f : saves_or_watches from_str f = true -> quiet f.
Proof.
  unfold saves_or_watches, is_save. rewrite orb_true_iff, !bool_decide_eq_true. intros [E|E]; (eapply quiet_named; [exact E|by_decide]).
Qed.

Lemma record_open docs f e : open_documents (record_client_message from_str f e docs) = record f e (open_documents docs).
Proof.
  unfold record_client_message. destruct (method_of from_str f) as [m|] eqn:Em; [|symmetry; apply quiet_method; by rewrite Em].
  destruct (bool_decide_reflect (m = B "initialize")) as [->|H1]; [symmetry; eapply quiet_named; [exact Em|by_decide]|].
  destruct (bool_decide_reflect (m = B "initialized")) as [->|H2]; [symmetry; eapply quiet_named; [exact Em|by_decide]|].
  destruct (bool_decide_reflect (m = B "workspace/didChangeConfiguration")) as [->|H3]; [symmetry; eapply quiet_named; [exact Em|by_decide]|].
  done.
Qed.

(** ** Replaying documents *)

(** A document that can be written as JSON. *)
Definition doc_ok (doc : TrackedDocument) : Prop :=
  utf8_valid (td_uri doc) = true /\ utf8_valid (td_language_id doc) = true /\ utf8_valid (td_text doc) = true /\ - 2 ^ 63 <= td_version doc < 2 ^ 63.
(** A document is known by its name. *)
Definition docs_ok (d : documents) : Prop := forall u doc, d !! u = Some doc -> td_uri doc = u /\ u <> [] /\ doc_ok doc.

Lemma as_i64_range ft d v n : fits ft d v = true -> as_i64 v = Some n -> - 2 ^ 63 <= n < 2 ^ 63.
Proof.
  destruct v as [| |[m|m|]| | |]; cbn [as_i64 fits number_ok]; try done; rewrite andb_true_iff; intros [H1 H2];
    [destruct (Z.leb_spec m (2 ^ 63 - 1))|destruct (Z.ltb_spec m 0)]; intros [= <-]; lia.
Qed.

Lemma fits_pointer ft d v keys x : fits ft (length keys + d) v = true -> pointer v keys = Some x -> fits ft d x = true.
Proof.
  unfold pointer. revert v. induction keys as [|k keys IH]; intros v Hv; cbn [foldl length] in *; [by intros [= <-]|].
  cbn [mbind option_bind]. destruct (get v k) as [w|] eqn:Ew; [apply IH; by apply (fits_get _ _ v k)|].
  intros H. exfalso. clear -H. induction keys; [done|]. by apply IHkeys.
Qed.

Lemma version_range ft d o n : (forall x, o = Some x -> fits ft d x = true) -> - 2 ^ 63 <= n < 2 ^ 63 ->
  - 2 ^ 63 <= default n (o ≫= as_i64) < 2 ^ 63.
Proof.
  intros Ho Hn. destruct o as [x|]; [|done]. cbn [mbind option_bind]. destruct (as_i64 x) as [m|] eqn:Em; [|done].
  by apply (as_i64_range ft d x); [apply Ho|].
Qed.

Lemma opened_ok ft d td : fits ft (S d) td = true -> doc_ok (opened td).
Proof.
  intros Ht. assert (Hs : forall k, utf8_valid (default [] (get_str td k)) = true).
  { intros k. destruct (get_str td k) as [s|] eqn:E; [by apply (fits_get_str ft d td k)|done]. }
  unfold opened. split_and!; cbn [td_uri td_language_id td_text td_version]; [apply Hs..|apply Hs| |];
    (apply (version_range ft d); [intros x; by apply fits_get|lia]).
Qed.

Lemma changed_ok ft enc params doc : fits ft 126 params = true -> doc_ok doc -> doc_ok (changed enc params doc).
Proof.
  intros Hp (H1 & H2 & H3 & H4). unfold changed. cbv zeta. split_and!; cbn [td_uri td_language_id td_text td_version]; [done|done| | |].
  - destruct (get params (B "contentChanges") ≫= as_array) as [changes|] eqn:Ec; [|done]. cbn [default]. apply bind_Some in Ec as (x & Hx & Ha).
    apply (fits_get ft 125) in Hx; [|done]. destruct x as [| | | |items|]; try done. injection Ha as <-.
    change (forallb (fits ft 124) items = true) in Hx. rewrite forallb_forall in Hx.
    assert (Hall : Forall (fun c => fits ft 124 c = true) items) by (apply Forall_forall; intros c Hin; apply Hx; by apply list_elem_of_In).
    clear Hx. revert H3. generalize (td_text doc) as text. induction Hall as [|c items Hc Hi IH]; intros text Ht; cbn [foldl]; [done|].
    apply IH. by apply (apply_change_valid ft 123).
  - apply (version_range ft 124); [intros x; by apply fits_pointer|lia].
  - apply (version_range ft 124); [intros x; by apply fits_pointer|lia].
Qed.

Lemma record_ok f e d : docs_ok d -> docs_ok (record f e d).
Proof.
  intros Hd. unfold record_document. destruct (from_str f) as [v|] eqn:Ev; [|done]. apply read_fits in Ev. destruct (method_of from_str f) as [m|]; [|done].
  destruct (bool_decide (m = B "textDocument/didOpen")).
  { destruct (pointer v [B "params"; B "textDocument"]) as [td|] eqn:Et; [|done]. destruct (bool_decide_reflect (td_uri (opened td) = [])) as [|Hne]; [done|].
    intros u doc. destruct (decide (td_uri (opened td) = u)) as [<-|Hu]; [rewrite lookup_insert_eq|rewrite lookup_insert_ne by done; apply Hd].
    intros [= <-]. split_and!; [done|done|]. apply (opened_ok float_text 124). by apply (fits_pointer _ 125 v [B "params"; B "textDocument"]). }
  destruct (bool_decide (m = B "textDocument/didClose")).
  { destruct (_ ≫= as_str) as [u|]; [|done]. intros u' doc [_ H]%lookup_delete_Some. by apply Hd. }
  destruct (bool_decide (m = B "textDocument/didChange")); [|done]. destruct (get v (B "params")) as [params|] eqn:Ep; [|done].
  destruct (_ ≫= as_str) as [u|]; [|done]. destruct (d !! u) as [doc|] eqn:Eu; [|done].
  intros u' doc'. destruct (decide (u = u')) as [<-|Hu]; [rewrite lookup_insert_eq|rewrite lookup_insert_ne by done; apply Hd].
  intros [= <-]. destruct (Hd _ _ Eu) as (H1 & H2 & H3). split_and!; [done|done|]. apply (changed_ok float_text); [|done]. by apply (fits_get _ _ v (B "params")).
Qed.

(** The one has no document that the other does not have. *)
Definition covered (s d : documents) : Prop := forall u, d !! u = None -> s !! u = None.

Lemma record_covered f e s d : covered s d -> covered (record f e s) (record f e d).
Proof.
  intros Hc. unfold record_document. destruct (from_str f) as [v|]; [|done]. destruct (method_of from_str f) as [m|]; [|done].
  destruct (bool_decide (m = B "textDocument/didOpen")).
  { destruct (pointer v [B "params"; B "textDocument"]) as [td|]; [|done]. destruct (bool_decide (td_uri (opened td) = [])); [done|].
    intros u [H1 H2]%lookup_insert_None. apply lookup_insert_None. split; [by apply Hc|done]. }
  destruct (bool_decide (m = B "textDocument/didClose")).
  { destruct (_ ≫= as_str) as [u|]; [|done]. intros u' H. apply lookup_delete_None in H. apply lookup_delete_None.
    destruct H as [->|H]; [by left|right; by apply Hc]. }
  destruct (bool_decide (m = B "textDocument/didChange")); [|done]. destruct (get v (B "params")) as [params|]; [|done].
  destruct (_ ≫= as_str) as [u|]; [|done]. destruct (s !! u) as [sd|] eqn:Es, (d !! u) as [dd|] eqn:Ed; [| | |done].
  - intros u' [H1 H2]%lookup_insert_None. apply lookup_insert_None. split; [by apply Hc|done].
  - by rewrite (Hc u Ed) in Es.
  - intros u' [H1 H2]%lookup_insert_None. by apply Hc.
Qed.

Lemma did_open_fits ft doc : doc_ok doc -> fits ft LEVELS (did_open doc) = true.
Proof.
  intros (H1 & H2 & H3 & H4). unfold did_open. pose proof (int_fits ft 124 _ H4). fits_solve.
Qed.

Lemma record_did_open doc e d : td_uri doc <> [] -> doc_ok doc -> record (to_string (did_open doc)) e d = <[td_uri doc := doc]> d.
Proof.
  intros Hu Hok. unfold record_document, method_of. rewrite read_print by (by apply did_open_fits). cbn [mbind option_bind].
  change (get_str (did_open doc) (B "method")) with (Some (B "textDocument/didOpen")). cbv beta iota. rewrite bool_decide_eq_true_2 by done.
  set (td := Object [(B "languageId", String (td_language_id doc)); (B "text", String (td_text doc));
                     (B "uri", String (td_uri doc)); (B "version", int (td_version doc))]).
  change (pointer (did_open doc) [B "params"; B "textDocument"]) with (Some td). cbv beta iota.
  assert (opened td = doc) as ->; [|by rewrite bool_decide_eq_false_2].
  unfold opened. change (get_str td (B "uri")) with (Some (td_uri doc)). change (get_str td (B "languageId")) with (Some (td_language_id doc)).
  change (get_str td (B "text")) with (Some (td_text doc)). change (get td (B "version") ≫= as_i64) with (as_i64 (int (td_version doc))).
  rewrite int_i64 by apply Hok. by destruct doc.
Qed.

Lemma order_documents order d doc : is_order order d = true -> docs_ok d -> doc ∈ order -> td_uri doc <> [] /\ doc_ok doc.
Proof.
  unfold is_order. rewrite andb_true_iff, !bool_decide_eq_true. intros [Hd Hn] Hok Hin. destruct (Hok (td_uri doc) doc) as (_ & H); [|done].
  rewrite <- Hd. apply elem_of_list_to_map_1; [|by apply (list_elem_of_fmap_2 (fun d => (td_uri d, d)))].
  change (map ?f ?l) with (f <$> l) in *. rewrite <- list_fmap_compose. exact Hn.
Qed.

Lemma replay_documents order e s d : is_order order d = true -> docs_ok d -> covered s d ->
  apply_all (map (fun doc => (to_string (did_open doc), e)) order) s = d.
Proof.
  intros Ho Hok Hc. assert (Hall : Forall (fun doc => td_uri doc <> [] /\ doc_ok doc) order)
    by (apply Forall_forall; intros doc; by apply (order_documents order d)).
  revert Ho. unfold is_order. rewrite andb_true_iff, !bool_decide_eq_true. intros [Hd Hn].
  assert (Hu : apply_all (map (fun doc => (to_string (did_open doc), e)) order) s = list_to_map (map (fun doc => (td_uri doc, doc)) order) ∪ s).
  { clear Hd Hok Hc. revert s. induction Hall as [|doc order [H1 H2] Hall IH]; intros s; cbn [map apply_all foldl list_to_map foldr]; [by rewrite map_empty_union|].
    inversion_clear Hn as [|?? Hnin Hn']. cbn [fst snd]. rewrite record_did_open by done. specialize (IH Hn' (<[td_uri doc := doc]> s)).
    unfold apply_all in IH. rewrite IH. cbn. rewrite <- insert_union_l. symmetry. apply (insert_union_r (M := gmap bytes)).
    apply not_elem_of_list_to_map_1. change (map ?f ?l) with (f <$> l) in *. rewrite <- list_fmap_compose. exact Hnin. }
  rewrite Hu, Hd. apply map_eq. intros u. rewrite lookup_union. destruct (d !! u) as [doc|] eqn:E.
  - by destruct (s !! u).
  - rewrite (Hc u E). done.
Qed.

(** ** The invariant *)

(** The documents of the server: those of the editor, or fewer while the server still waits for
    [initialized] and a replay after it, which the editor has not sent either. *)
Definition settled (replay initialized : bool) (s d : documents) : Prop := if replay then covered s d /\ initialized = false else s = d.
Definition is_initialized (f : bytes) : bool := bool_decide (method_of from_str f = Some (B "initialized")).

Definition unchanging (rest : list bytes) : list message := map (fun m => (m, 0)) rest.

Definition phase_ok (p : Phase) (replay : bool) (s : documents) (t : LspStateTracker) : Prop :=
  let d := open_documents t in
  let init := initialized_sent t in
  let during f := settled replay (init && negb (is_initialized f.1)) (record f.1 f.2 s) d in
  match p with
  | Looping => settled replay init s d
  | Syncing f | Sending f => during f
  | Flushing rest f => Forall quiet rest /\ during f
  | Replaying rest => Forall plain rest /\ apply_all (unchanging rest) s = d
  | Greeting r _ _ => s = ∅ /\ is_order (rc_docs r) d = true
  | Restoring _ rest _ => Forall plain rest /\ apply_all (unchanging rest) s = d /\ initialized_sent t = true
  | Resending f => quiet f /\ settled replay init s d
  | Opening _ | Draining | Ended _ _ => True
  end.

Record mirror_ok (b : Bridge) : Prop := {
  mo_docs : docs_ok (open_documents (br_tracker b));
  mo_taken : apply_all (br_taken b) ∅ = open_documents (br_tracker b);
  mo_config : Forall quiet (configuration_notifications (br_tracker b));
  mo_init : Forall quiet (option_list (initialize_req (br_tracker b)));
  mo_held : Forall quiet (held (br_gate b));
  mo_phase : phase_ok (br_phase b) (br_replay b) (server_documents b) (br_tracker b) }.

(** The same but for where the main task stands. *)
Lemma mo_to_phase b b' : mirror_ok b -> br_tracker b' = br_tracker b -> br_taken b' = br_taken b -> br_gate b' = br_gate b ->
  phase_ok (br_phase b') (br_replay b') (server_documents b') (br_tracker b') -> mirror_ok b'.
Proof. intros [H1 H2 H3 H4 H5 _] Et Ea Eg Hp. constructor; rewrite ?Et, ?Ea, ?Eg; rewrite ?Et in Hp; done. Qed.

(** Nothing changed that matters here. *)
Definition same_mirror (b b' : Bridge) : Prop :=
  br_tracker b' = br_tracker b /\ br_taken b' = br_taken b /\ br_gate b' = br_gate b /\ br_sent b' = br_sent b
  /\ br_replay b' = br_replay b /\ br_phase b' = br_phase b.
Lemma mo_same b b' : mirror_ok b -> same_mirror b b' -> mirror_ok b'.
Proof.
  intros Hb (Et & Ea & Eg & Es & Er & Ep). apply (mo_to_phase b); [done..|]. unfold server_documents. rewrite Et, Es, Er, Ep. apply Hb.
Qed.

Lemma record_tracker f e t : Forall quiet (configuration_notifications t) -> Forall quiet (option_list (initialize_req t)) ->
  let t' := record_client_message from_str f e t in
  Forall quiet (configuration_notifications t') /\ Forall quiet (option_list (initialize_req t'))
  /\ (initialized_sent t = true -> initialized_sent t' = true).
Proof.
  intros Hc Hi. cbv zeta. unfold record_client_message. destruct (method_of from_str f) as [m|] eqn:Em; [|done].
  destruct (bool_decide_reflect (m = B "initialize")) as [->|_].
  { split_and!; [done| |done]. constructor; [|constructor]. eapply quiet_named; [exact Em|by_decide]. }
  destruct (bool_decide_reflect (m = B "initialized")) as [->|_]; [done|].
  destruct (bool_decide_reflect (m = B "workspace/didChangeConfiguration")) as [->|_]; [|done].
  split_and!; [|done|done]. apply Forall_app. split; [done|]. constructor; [|constructor]. eapply quiet_named; [exact Em|by_decide].
Qed.

Lemma settled_record replay f e s t : settled replay (initialized_sent t) s (open_documents t) ->
  let t' := record_client_message from_str f e t in
  settled replay (initialized_sent t' && negb (is_initialized f)) (record f e s) (open_documents t').
Proof.
  cbv zeta. rewrite record_open. unfold settled. destruct replay; [|by intros ->]. intros [Hc Hi]. split; [by apply record_covered|].
  unfold is_initialized. case_bool_decide as E; [apply andb_false_r|]. rewrite andb_true_r. unfold record_client_message.
  destruct (method_of from_str f) as [m|]; [|done]. destruct (bool_decide (m = B "initialize")); [done|].
  case_bool_decide; [by subst|]. by destruct (bool_decide _).
Qed.

Lemma mo_take now f b : mirror_ok b -> settled (br_replay b) (initialized_sent (br_tracker b)) (server_documents b) (open_documents (br_tracker b)) ->
  mirror_ok (take_frame from_str now f b).
Proof.
  intros [H1 H2 H3 H4 H5 _] Hs. destruct (record_tracker f (br_encoding b) (br_tracker b) H3 H4) as (H3' & H4' & _).
  constructor; cbn [take_frame set_phase set_pending set_tracker note_taken br_tracker br_taken br_gate]; rewrite ?record_open; [by apply record_ok| |done|done|done|].
  - rewrite apply_all_app, H2. done.
  - unfold server_documents, take_frame. cbv zeta. cbn [set_phase set_pending set_tracker note_taken br_phase br_replay br_gate br_sent br_encoding br_tracker].
    match goal with |- phase_ok (if ?c then _ else _) _ _ _ => destruct c end; cbn [phase_ok fst snd]; by apply settled_record.
Qed.

Lemma server_send f b : server_documents (send from_str f b) = record f.1 f.2 (server_documents b).
Proof. unfold server_documents, send. cbn [br_sent set_sent]. by rewrite apply_all_app. Qed.

Lemma mo_synced now ok err f b : mirror_ok b -> br_phase b = Syncing f -> mirror_ok (synced from_str to_string now ok err f b).
Proof.
  intros Hb Ep. pose proof (mo_phase b Hb) as Hp. rewrite Ep in Hp. unfold synced.
  set (b1 := if negb ok && _ then _ else b).
  assert (Hb1 : mirror_ok b1) by (unfold b1; destruct (_ && _); [by apply (mo_same b)|done]).
  assert (Hp1 : phase_ok (Syncing f) (br_replay b1) (server_documents b1) (br_tracker b1)) by (unfold b1; by destruct (_ && _)).
  clearbody b1. clear Hb Hp Ep. pose proof Hb1 as [H1 H2 H3 H4 H5 _]. unfold after_sync.
  assert (Hg : forall g p, Forall quiet (held g) -> phase_ok p (br_replay b1) (server_documents b1) (br_tracker b1) -> mirror_ok (set_phase p (set_gate g b1)))
    by (intros g p Hg Hph; constructor; done).
  destruct ok.
  - rewrite last_snoc, removelast_last. destruct (held (br_gate b1)) as [|h rest] eqn:Eh; apply Hg; done.
  - destruct (is_save from_str f.1) eqn:Es; cbn [last removelast].
    + apply Hg; [|].
      * apply Forall_app. split; [destruct (_ =? _); [by apply Forall_drop|done]|]. constructor; [|constructor]. apply save_quiet.
        unfold saves_or_watches. by rewrite Es.
      * cbn [phase_ok] in *. assert (quiet f.1) as Hq by (apply save_quiet; unfold saves_or_watches; by rewrite Es). rewrite Hq in Hp1.
        unfold is_save, is_initialized in *. apply bool_decide_eq_true in Es. by rewrite Es, (bool_decide_eq_false_2 (Some _ = _)), andb_true_r in Hp1.
    + apply Hg; done.
Qed.

(** Where nothing is asked of the server's documents: it has gone or is going. *)
Definition away (p : Phase) : Prop := match p with Opening _ | Draining | Ended _ _ => True | _ => False end.
Definition leaves (b b' : Bridge) : Prop :=
  br_tracker b' = br_tracker b /\ br_taken b' = br_taken b /\ br_gate b' = br_gate b /\ away (br_phase b').
Lemma mo_leaves b b' : mirror_ok b -> leaves b b' -> mirror_ok b'.
Proof. intros Hb (Et & Ea & Eg & Hp). apply (mo_to_phase b); [done..|]. by destruct (br_phase b'). Qed.

Lemma handle_reconnect_leaves why again b : leaves b (handle_reconnect from_str to_string why again b).
Proof. unfold handle_reconnect. destruct (list_find _ _) as [[i p]|]; done. Qed.
Lemma connection_lost_leaves why err again b : leaves b (connection_lost from_str to_string reconnect why err again b).
Proof. unfold connection_lost. destruct reconnect; [apply (handle_reconnect_leaves why again (abort_reader b))|done]. Qed.
Lemma editor_exit_leaves r b : leaves b (editor_exit from_str to_string r b).
Proof. unfold editor_exit. by destruct (td_shutdown _). Qed.
Lemma expected_away b p : expected b = Some p -> away p.
Proof. unfold expected. destruct (expected_exit _); [|done]. by intros [= <-]. Qed.
Lemma session_closed_leaves why redirect b : leaves b (session_closed from_str to_string reconnect why redirect b).
Proof.
  unfold session_closed. destruct (expected b) as [p|] eqn:E; [by apply expected_away in E|].
  destruct (should_reconnect_after_close _ _ _); [apply handle_reconnect_leaves|done].
Qed.

Lemma mo_queue r f b : mirror_ok b -> mirror_ok (queue_frame from_str to_string r f b).
Proof.
  intros Hb. unfold queue_frame. destruct (defer_editor_message _ _); [by apply (mo_same b)|by apply (mo_leaves b)].
Qed.

Lemma mo_while_reconnecting r f b : mirror_ok b -> mirror_ok (editor_while_reconnecting from_str to_string r f b).
Proof.
  intros Hb. unfold editor_while_reconnecting. cbv zeta. destruct (if bool_decide _ then _ else None) as [id|]; [by apply (mo_leaves b)|].
  destruct (bool_decide _); [by eapply mo_leaves, editor_exit_leaves|].
  destruct (if bool_decide _ then _ else None) as [id|]; [|by apply mo_queue].
  destruct (bool_decide _); [by apply mo_queue|by apply (mo_same b)].
Qed.

(** ** A new session *)

Lemma mo_resumed r b : mirror_ok b -> settled (negb (initialized_sent (br_tracker b))) (initialized_sent (br_tracker b)) (server_documents b) (open_documents (br_tracker b)) ->
  mirror_ok (resumed from_str to_string r b).
Proof.
  intros Hb Hs. unfold resumed. cbv zeta. destruct (prepare_deferred _ _ _) as [frames rejected]. apply (mo_to_phase b); [done..|].
  unfold server_documents in *. cbn [set_phase set_closed set_reader set_ping set_replay set_deferred write set_pending br_phase br_replay br_sent br_tracker].
  destruct (rc_again r) as [f|]; [|done]. destruct (saves_or_watches from_str f) eqn:Ef; [|done]. split; [by apply save_quiet|done].
Qed.
Lemma mo_restored r reply b : mirror_ok b ->
  settled (negb (initialized_sent (br_tracker b))) (initialized_sent (br_tracker b)) (server_documents b) (open_documents (br_tracker b)) ->
  mirror_ok (restored from_str to_string r reply b).
Proof.
  intros Hb Hs. unfold restored. destruct (rc_init r) as [id|]; [|by apply mo_resumed].
  destruct reply as [response|]; [apply mo_resumed; [by apply (mo_same b)|done]|by apply (mo_leaves b)].
Qed.

Lemma replay_restores t order : Forall quiet (configuration_notifications t) -> docs_ok (open_documents t) -> is_order order (open_documents t) = true ->
  Forall plain (replay_lsp_workspace_state to_string t order)
  /\ forall s, covered s (open_documents t) -> apply_all (unchanging (replay_lsp_workspace_state to_string t order)) s = open_documents t.
Proof.
  intros Hc Hd Ho. unfold replay_lsp_workspace_state. split.
  - apply Forall_app. split; [eapply Forall_impl; [exact Hc|apply quiet_plain]|]. rewrite Forall_map, Forall_forall. intros doc Hin e e' d.
    destruct (order_documents order _ doc Ho Hd Hin) as [H1 H2]. cbn. by rewrite !record_did_open.
  - intros s Hs. unfold unchanging. rewrite map_app, apply_all_app, map_map. rewrite quiet_all by done. by apply replay_documents.
Qed.

(** Where the main task stood before does not matter. *)
Lemma restored_phase p r reply b : restored from_str to_string r reply (set_phase p b) = restored from_str to_string r reply b.
Proof. unfold restored. destruct (rc_init r); [|done]. by destruct reply. Qed.
Lemma greeted_phase p r reply b : greeted from_str to_string r reply (set_phase p b) = greeted from_str to_string r reply b.
Proof. unfold greeted. rewrite restored_phase. done. Qed.

Lemma mo_greeted r reply b : mirror_ok b -> server_documents b = ∅ -> is_order (rc_docs r) (open_documents (br_tracker b)) = true ->
  mirror_ok (greeted from_str to_string r reply b).
Proof.
  intros Hb Hs Ho. unfold greeted. destruct (initialized_sent (br_tracker b)) eqn:Ei.
  - destruct (replay_restores _ _ (mo_config b Hb) (mo_docs b Hb) Ho) as [H1 H2]. apply (mo_to_phase b); [done..|].
    change (server_documents (set_phase ?p b)) with (server_documents b). cbn [set_phase br_phase br_tracker phase_ok].
    assert (Hq : quiet (to_string initialized_message)) by (eapply quiet_named; [unfold method_of; by rewrite read_print|by_decide]).
    split_and!; [|cbn; rewrite Hq; apply H2; rewrite Hs; by intros u _|done]. constructor; [by apply quiet_plain|done].
  - apply mo_restored; [done|]. rewrite Ei, Hs. split; [by intros u _|done].
Qed.

Lemma mo_opened ok order r b b' : mirror_ok b -> opened_session from_str to_string ok order r b = Some b' -> mirror_ok b'.
Proof.
  intros Hb. unfold opened_session. destruct (is_order _ _) eqn:Ho; [|done]. cbv zeta. intros [= <-].
  set (r' := MkReconnect _ _ _ order). set (b1 := set_sent [] [] b).
  assert (Hl : mirror_ok (try_again r' b1)) by (by apply (mo_leaves b)).
  destruct (initialize_req (br_tracker b)) as [req|] eqn:Er.
  - destruct (initialize_id from_str b1); [|done]. destruct ok; [|done]. apply (mo_to_phase b); [done..|].
    change (server_documents (set_phase ?p ?x)) with (server_documents x). rewrite server_send. cbn [fst snd].
    assert (Hq : quiet req) by (pose proof (mo_init b Hb) as H; rewrite Er in H; by inversion H).
    rewrite Hq. done.
  - assert (Hb1 : mirror_ok (set_phase (Opening r) b1)) by (by apply (mo_leaves b)).
    rewrite <- (greeted_phase (Opening r)). by apply mo_greeted.
Qed.

(** While [initialize] is replayed the new server has no document. *)
Lemma mo_greeting r ids reply b b' : mirror_ok b -> br_phase b = Greeting r ids reply ->
  br_tracker b' = br_tracker b -> br_taken b' = br_taken b -> br_gate b' = br_gate b -> server_documents b' = server_documents b ->
  (exists ids' reply', br_phase b' = Greeting r ids' reply') -> mirror_ok b'.
Proof.
  intros Hb Ep Et Ea Eg Es (ids' & reply' & Ep'). pose proof (mo_phase b Hb) as Hp. rewrite Ep in Hp. apply (mo_to_phase b); [done..|].
  by rewrite Ep', Es, Et.
Qed.

Lemma mo_server_greeting r ids reply json b : mirror_ok b -> br_phase b = Greeting r ids reply ->
  mirror_ok (server_greeting from_str to_string r ids reply json b).
Proof.
  intros Hb Ep. pose proof (mo_phase b Hb) as Hp. rewrite Ep in Hp. destruct Hp as [Hs Ho]. unfold server_greeting. cbv zeta.
  assert (Hf : forall ids', mirror_ok (set_phase (Greeting r ids' reply) (write [json] b))) by (intros ids'; apply (mo_greeting r ids reply b); [done..|by eexists _, _]).
  assert (Ht : mirror_ok (try_again r b)) by (by apply (mo_leaves b)).
  destruct (from_str json) as [value|]; [|done]. destruct (_ && _).
  - destruct (get value (B "error")); [done|]. destruct (get value (B "result")) as [[]|]; try done.
    destruct (update_server_capabilities _ _ _) as [e|]; [|by apply (mo_leaves b)].
    destruct ids as [|i ids]; [apply mo_greeted; [by apply (mo_same b)|done|done]|apply (mo_greeting r (i :: ids) reply b); [done..|by eexists _, _]].
  - destruct (get value (B "method")), (get value (B "id")); done.
Qed.

Lemma response_quiet f id : (v ← from_str f; if bool_decide (get v (B "method") = None) then get v (B "id") else None) = Some id -> quiet f.
Proof.
  intros H. apply quiet_method. unfold method_of. destruct (from_str f) as [v|]; [|done]. cbn [mbind option_bind] in *.
  unfold get_str. case_bool_decide as E; [|done]. by rewrite E.
Qed.

Lemma mo_editor_greeting ok r ids reply f b : mirror_ok b -> br_phase b = Greeting r ids reply ->
  mirror_ok (editor_greeting from_str to_string ok r ids reply f b).
Proof.
  intros Hb Ep. pose proof (mo_phase b Hb) as Hp. rewrite Ep in Hp. destruct Hp as [Hs Ho]. unfold editor_greeting. cbv zeta.
  destruct (bool_decide _); [by eapply mo_leaves, editor_exit_leaves|].
  destruct (if bool_decide _ then _ else None) as [id|]; [by apply (mo_leaves b)|].
  destruct (v ← from_str f; _) as [id|] eqn:Eid; cbn [mbind option_bind]; [|by apply mo_queue]. apply response_quiet in Eid.
  destruct (list_find _ ids) as [[i x]|]; [|by apply mo_queue]. destruct ok; [|by apply (mo_leaves b)].
  assert (Es : server_documents (send from_str (f, br_encoding b) b) = server_documents b) by (by rewrite server_send, Eid).
  assert (Hb1 : mirror_ok (send from_str (f, br_encoding b) b)) by (apply (mo_greeting r ids reply b); [done..|by eexists _, _]).
  assert (Hg : mirror_ok (set_phase (Greeting r (delete i ids) reply) (send from_str (f, br_encoding b) b))) by (apply (mo_greeting r ids reply b); [done..|by eexists _, _]).
  destruct (delete i ids); [|done]. destruct reply; [|done]. apply mo_greeted; [done|by rewrite Es|done].
Qed.

(** ** Sending *)

Lemma mo_main_sent ok err order f b b' : mirror_ok b -> br_phase b = Sending f ->
  main_sent from_str to_string reconnect ok err order f b = Some b' -> mirror_ok b'.
Proof.
  intros Hb Ep. pose proof (mo_phase b Hb) as Hp. rewrite Ep in Hp. cbn [phase_ok] in Hp. unfold main_sent. destruct ok.
  - rewrite <- server_send in Hp. set (b1 := send from_str f b) in *. fold (is_initialized f.1). cbv zeta.
    destruct (is_initialized f.1 && br_replay b1) eqn:Ei.
    + destruct (is_order _ _) eqn:Ho; [|done]. intros [= <-]. apply andb_true_iff in Ei as [_ Er].
      change (br_replay b) with (br_replay b1) in Hp. rewrite Er in Hp. cbn [settled] in Hp. destruct Hp as [Hp _].
      destruct (replay_restores _ _ (mo_config b Hb) (mo_docs b Hb) Ho) as [H1 H2]. specialize (H2 _ Hp).
      change (br_tracker b1) with (br_tracker b). destruct (replay_lsp_workspace_state _ _ _) as [|m rest]; apply (mo_to_phase b); done.
    + intros [= <-]. apply (mo_to_phase b); [done..|]. cbn [set_phase br_phase phase_ok].
      change (br_replay b) with (br_replay b1) in Hp. change (br_replay (set_phase Looping b1)) with (br_replay b1).
      destruct (br_replay b1); [|done]. rewrite andb_true_r in Ei. rewrite Ei, andb_true_r in Hp. done.
  - intros [= <-]. destruct (expected b) as [p|] eqn:E; [apply (mo_leaves b); [done|by apply expected_away in E]|].
    eapply mo_leaves; [done|apply connection_lost_leaves].
Qed.

Lemma plain_send m rest s d e : Forall plain (m :: rest) -> apply_all (unchanging (m :: rest)) s = d ->
  Forall plain rest /\ apply_all (unchanging rest) (record m e s) = d.
Proof. intros H. inversion_clear H as [|?? Hm Hr]. intros <-. split; [done|]. cbn. by rewrite (Hm e 0). Qed.

Lemma mo_sent ok err order b b' : mirror_ok b -> sent from_str to_string reconnect ok err order b = Some b' -> mirror_ok b'.
Proof.
  intros Hb. pose proof (mo_phase b Hb) as Hp. unfold sent. destruct (br_phase b) as [|f|rest f|f|rest|r|r ids reply|r rest reply|f| |code why] eqn:Ep; try done.
  - destruct rest as [|h rest]; [done|]. destruct Hp as [Hq Hs]. inversion_clear Hq as [|?? Hh Hr]. intros [= <-].
    destruct ok; [|by apply (mo_to_phase b)]. apply (mo_to_phase b); [done..|]. change (server_documents (set_phase ?p ?x)) with (server_documents x).
    rewrite server_send, Hh. by destruct rest.
  - by apply mo_main_sent.
  - destruct rest as [|m rest]; [done|]. destruct Hp as [Hq Hs]. intros [= <-]. destruct ok; [|by apply (mo_leaves b)].
    destruct (plain_send m rest _ _ (br_encoding b) Hq Hs) as [H1 H2].
    destruct rest as [|m' rest]; apply (mo_to_phase b); try done;
      change (server_documents (set_replay ?p ?x)) with (server_documents x); change (server_documents (set_phase ?p ?x)) with (server_documents x); by rewrite server_send.
  - destruct rest as [|m rest]; [done|]. destruct Hp as (Hq & Hs & Hi). intros [= <-]. destruct ok; [|by apply (mo_leaves b)].
    destruct (plain_send m rest _ _ (br_encoding b) Hq Hs) as [H1 H2]. set (b1 := send from_str (m, br_encoding b) b).
    assert (Hr : mirror_ok (set_phase (Restoring r rest reply) b1)).
    { apply (mo_to_phase b); [done..|]. change (server_documents (set_phase ?p b1)) with (server_documents b1). unfold b1. by rewrite server_send. }
    destruct rest as [|m' rest]; [|done]. rewrite <- (restored_phase (Restoring r [] reply)). apply mo_restored; [done|].
    change (server_documents (set_phase ?p b1)) with (server_documents b1). unfold b1. rewrite server_send. cbn. by rewrite Hi.
  - destruct Hp as [Hq Hs]. intros [= <-]. destruct ok; [|by apply (mo_leaves b)]. apply (mo_to_phase b); [done..|].
    change (server_documents (set_phase ?p ?x)) with (server_documents x). by rewrite server_send, Hq.
Qed.

(** ** Every step *)

Lemma mo_editor_frame now ok f b b' : mirror_ok b -> editor_frame from_str to_string now ok f b = Some b' -> mirror_ok b'.
Proof.
  intros Hb. pose proof (mo_phase b Hb) as Hp. unfold editor_frame. assert (Hn : mirror_ok (note_read f b)) by (by apply (mo_same b)).
  destruct (br_phase b) eqn:Ep; try done.
  - destruct (bool_decide _); [|done]. intros [= <-]. by apply mo_take.
  - intros [= <-]. by apply mo_while_reconnecting.
  - intros [= <-]. by apply mo_editor_greeting.
  - intros [= <-]. by apply mo_while_reconnecting.
  - intros [= <-]. destruct (bool_decide _); [by apply (mo_leaves b)|done].
Qed.

Lemma mo_step e b b' : mirror_ok b -> step e b = Some b' -> mirror_ok b'.
Proof.
  intros Hb. pose proof (mo_phase b Hb) as Hp. destruct e; cbn [Bridge.step].
  - by apply mo_editor_frame.
  - unfold take_deferred. destruct (br_phase b) eqn:Ep; try done. destruct (br_deferred b); [done|]. intros [= <-]. apply mo_take; [by apply (mo_same b)|done].
  - unfold editor_closed. destruct (br_phase b); try done; try destruct (bool_decide _); intros [= <-]; by apply (mo_leaves b).
  - unfold editor_error. destruct (br_phase b); try done; try destruct (bool_decide _); intros [= <-]; by apply (mo_leaves b).
  - destruct (br_phase b) eqn:Ep; try done. intros [= <-]. by apply mo_synced.
  - by apply mo_sent.
  - destruct (br_phase b) eqn:Ep; try done. destruct (_ && _); [|done]. intros [= <-]. unfold tick. cbv zeta.
    destruct (br_ping b); [by eapply mo_leaves, connection_lost_leaves|]. destruct ok; [by apply (mo_same b)|].
    eapply (mo_leaves (set_ping true b)); [by apply (mo_same b)|apply connection_lost_leaves].
  - intros (b1 & Ha & Hb1)%bind_Some. assert (mirror_ok b1 /\ br_phase b1 = br_phase b) as [Hm Ep].
    { unfold answers_asked in Ha. destruct (response_of _ _); [|by simplify_eq]. destruct (list_find _ _) as [[]|]; [|done].
      simplify_eq. split; [by apply (mo_same b)|done]. }
    destruct (br_phase b) eqn:Eb; destruct (br_reader b); try done; simplify_eq; try (by apply mo_server_greeting); apply (mo_same b1); try done;
      unfold server_message; destruct (from_str json) as [v|]; try done; destruct (bool_decide _), (get v (B "id")), (get v (B "method")); done.
  - destruct (br_phase b) eqn:Eb; destruct (br_reader b); try done; intros [= <-]; by apply (mo_same b).
  - destruct (br_reader b); try done. intros [= <-]. by apply (mo_same b).
  - destruct (br_phase b) eqn:Eb; destruct (br_reader b); try done; intros [= <-]; (by apply (mo_same b)) || (by apply (mo_leaves b)).
  - destruct (br_phase b) eqn:Eb; try done. destruct (br_closed b) as [[why redirect]|]; [|done]. destruct (bool_decide _); [|done]. intros [= <-].
    eapply (mo_leaves (set_closed None b)); [by apply (mo_same b)|apply session_closed_leaves].
  - destruct (br_phase b) eqn:Eb; try done; intros [= <-]; [done|by apply (mo_leaves b)].
  - destruct (br_phase b) eqn:Eb; try done. by apply mo_opened.
  - destruct (br_phase b) eqn:Eb; try done. intros [= <-]. by apply (mo_leaves b).
  - destruct (br_phase b) eqn:Eb; try done; intros [= <-]; by apply (mo_leaves b).
Qed.

Lemma mo_new : mirror_ok new_bridge.
Proof. constructor; try done; constructor. Qed.
Lemma oo_new : order_ok from_str new_bridge.
Proof. done. Qed.
End mirror.

Section claim.
Context (from_str : bytes -> option Value) (to_string : Value -> bytes) (reconnect : bool) (watchdog_secs : Z).
Context `{!SerdeJson from_str to_string}.

End claim.

(** A session: the editor opens a document and changes it, the connection is closed, the editor
    changes it again, the bridge opens a new session and replays, then takes the change. *)
Module Demo.
Definition uri : bytes := B "file:///x.rs".
Definition message (method : bytes) (params : Value) : list (bytes * Value) :=
  [(B "jsonrpc", String (B "2.0")); (B "method", String method); (B "params", params)].
Definition initialize : bytes := print_tree (Object ((B "id", int 1) :: message (B "initialize") (Object []))).
Definition capabilities : bytes :=
  print_tree (Object [(B "id", int 1); (B "jsonrpc", String (B "2.0"));
    (B "result", Object [(B "capabilities", Object [(B "positionEncoding", String (B "utf-16")); (B "textDocumentSync", int 2)])])]).
Definition initialized : bytes := print_tree (Object (message (B "initialized") (Object []))).
Definition open : bytes := print_tree (did_open (MkDocument uri (B "rust") 1 (B "fn a() {}"))).
Definition change_name : bytes := print_tree (did_change uri 2 [change_json POSITION_ENCODING_UTF16 (B "fn ") (B "a") (B "main")]).
Definition change_body : bytes := print_tree (did_change uri 3 [change_json POSITION_ENCODING_UTF16 (B "fn main() {") [] (B " run() ")]).

Definition take (f : bytes) : list Event := [EditorFrame 0 true f; Sent true [] []].
Definition events : list Event :=
  take initialize ++ [ServerMessage capabilities; Deliver] ++ take initialized ++ take open ++ take change_name
  ++ [ServerClosed (B "gateway restarts") false; SessionClosed; EditorFrame 0 true change_body;
      Opened true [MkDocument uri (B "rust") 2 (B "fn main() {}")]; ServerMessage capabilities;
      Sent true [] []; Sent true [] []; TakeDeferred 0; Sent true [] []].
End Demo.

