(* ===== verification/BridgeReplies.v ===== *)
(** * The answers the bridge makes itself

    Which requests the messages of the editor make and which the messages to the editor answer,
    counted by id, and what the replies of [state.rs], [reconnect_pending.rs] and
    [reconnect_deferred.rs] answer: each request they are about once. *)

From stdpp Require Import gmap list.
From Stdlib Require Import Strings.Byte.
From S2P Require Import Prelude RustStr Utf8 Json SerdeJson TextEdits BridgeState Bridge.

#[local] Set Warnings "-register-all".

Definition cnt (x : Value) (l : list Value) : nat := length (filter (fun y => y = x) l).

Lemma cnt_app x l k : cnt x (l ++ k) = (cnt x l + cnt x k)%nat.
Proof. unfold cnt. by rewrite filter_app, length_app. Qed.
Lemma cnt_cons x y l : cnt x (y :: l) = ((if bool_decide (y = x) then 1 else 0) + cnt x l)%nat.
Proof. unfold cnt. rewrite filter_cons. case_decide as E; [by rewrite bool_decide_eq_true_2|by rewrite bool_decide_eq_false_2]. Qed.
Lemma cnt_nil x : cnt x [] = 0%nat.
Proof. done. Qed.
Lemma cnt_bind_nil {A} x (f : A -> list Value) : cnt x ([] ≫= f) = 0%nat.
Proof. done. Qed.
Lemma cnt_pos x l : x ∈ l -> (1 <= cnt x l)%nat.
Proof.
  induction l as [|y l IH]; [by intros ?%not_elem_of_nil|]. rewrite cnt_cons. intros [->|H]%elem_of_cons; [rewrite bool_decide_eq_true_2 by done|specialize (IH H)]; lia.
Qed.
#[export] Instance cnt_proper x : Proper ((≡ₚ) ==> eq) (cnt x).
Proof. intros l k H. unfold cnt. by rewrite H. Qed.
Lemma cnt_delete x l i y : l !! i = Some y -> cnt x l = ((if bool_decide (y = x) then 1 else 0) + cnt x (delete i l))%nat.
Proof. intros H. rewrite (delete_Permutation l i y H) at 1. apply cnt_cons. Qed.

Lemma filter_all {A} (P : A -> Prop) `{!forall x, Decision (P x)} l : Forall P l -> filter P l = l.
Proof. induction 1; [done|]. rewrite filter_cons_True by done. by f_equal. Qed.
Lemma filter_same {A} (P Q : A -> Prop) `{!forall x, Decision (P x)} `{!forall x, Decision (Q x)} l :
  Forall (fun x => P x <-> Q x) l -> filter P l = filter Q l.
Proof.
  induction 1 as [|x l Hx Hl IH]; [done|]. rewrite !filter_cons, IH. destruct (decide (P x)), (decide (Q x)); tauto.
Qed.
Lemma Forall_filtered {A} (P Q : A -> Prop) `{!forall x, Decision (P x)} l : Forall Q l -> Forall Q (filter P l).
Proof. rewrite !Forall_forall. intros Hall x [_ Hx]%list_elem_of_filter. by apply Hall. Qed.

Lemma cnt_without x y l : cnt x (filter (fun z => z <> y) l) = if bool_decide (y = x) then 0%nat else cnt x l.
Proof.
  induction l as [|z l IH]; [by destruct (bool_decide _)|]. destruct (decide (z = y)) as [->|E].
  - rewrite filter_cons_False by (by intros []). rewrite IH, cnt_cons. by destruct (bool_decide (y = x)).
  - rewrite filter_cons_True by done. rewrite !cnt_cons, IH.
    destruct (bool_decide_reflect (y = x)) as [->|]; [by rewrite bool_decide_eq_false_2|done].
Qed.

Lemma cnt_absent x l : x ∉ l -> cnt x l = 0%nat.
Proof. induction l as [|y l IH]; [done|]. rewrite not_elem_of_cons, cnt_cons. intros [H1 H2]. by rewrite bool_decide_eq_false_2, IH. Qed.
Lemma cnt_nodup x l : NoDup l -> (cnt x l <= 1)%nat.
Proof.
  induction 1 as [|y l Hn Hl IH]; [rewrite cnt_nil; lia|]. rewrite cnt_cons. case_bool_decide as E; [|lia]. subst y. rewrite cnt_absent by done. lia.
Qed.

Lemma utf8_between a s b : utf8_valid a = true -> utf8_valid s = true -> utf8_valid b = true -> utf8_valid (a ++ s ++ b) = true.
Proof. intros. by repeat apply utf8_valid_app. Qed.

Section replies.
Context (from_str : bytes -> option Value) (to_string : Value -> bytes).
Context `{!SerdeJson from_str to_string}.

(** The request that a message is, the answer that it is. *)
Definition asked_ids (f : bytes) : list Value := match from_str f ≫= request_of with Some (id, _) => [id] | None => [] end.
Definition answered_ids (f : bytes) : list Value := option_list (response_of from_str f).

Definition asks (x : Value) (l : list bytes) : nat := cnt x (l ≫= asked_ids).
Definition answers (x : Value) (l : list bytes) : nat := cnt x (l ≫= answered_ids).

Lemma asks_app x l k : asks x (l ++ k) = (asks x l + asks x k)%nat.
Proof. unfold asks. by rewrite bind_app, cnt_app. Qed.
Lemma asks_nil x : asks x [] = 0%nat.
Proof. done. Qed.
Lemma answers_nil x : answers x [] = 0%nat.
Proof. done. Qed.
Lemma asks_cons x f l : asks x (f :: l) = (asks x [f] + asks x l)%nat.
Proof. by rewrite <- (asks_app x [f] l). Qed.
Lemma asks_one x f : asks x [f] = cnt x (asked_ids f).
Proof. unfold asks. rewrite bind_cons. by rewrite app_nil_r. Qed.
Lemma answers_app x l k : answers x (l ++ k) = (answers x l + answers x k)%nat.
Proof. unfold answers. by rewrite bind_app, cnt_app. Qed.
Lemma answers_cons x f l : answers x (f :: l) = (cnt x (answered_ids f) + answers x l)%nat.
Proof. unfold answers. by rewrite bind_cons, cnt_app. Qed.
Lemma answers_one x f : answers x [f] = cnt x (answered_ids f).
Proof. unfold answers. rewrite bind_cons. by rewrite app_nil_r. Qed.

(** ** Single replies *)

Lemma error_reply_answers id code text : fits float_text 126 id = true -> - 2 ^ 63 <= code < 2 ^ 63 -> utf8_valid text = true ->
  answered_ids (error_reply to_string id code text) = [id].
Proof.
  intros Hid Hc Ht. unfold answered_ids, response_of, error_reply. rewrite read_print; [done|].
  pose proof (int_fits float_text 125 code Hc). fits_solve.
Qed.
Lemma result_reply_answers id : fits float_text 126 id = true -> answered_ids (result_reply to_string id Null) = [id].
Proof. intros Hid. unfold answered_ids, response_of, result_reply. rewrite read_print; [done|]. fits_solve. Qed.
Lemma warning_answers err : utf8_valid err = true -> answered_ids (push_failed_warning to_string err) = [].
Proof.
  intros He. unfold answered_ids, response_of, push_failed_warning. rewrite read_print; [done|].
  assert (Hm : utf8_valid (B "prod-code: the checkout could not be pushed to the node (" ++ err
     ++ B "); the check that follows sees the node's previous copy. Save again once the node is reachable.") = true)
    by (by apply utf8_between).
  fits_solve.
Qed.

(** ** Messages of a well-behaved editor *)

(** The methods of notifications that the bridge looks at. *)
Definition notifications : list bytes :=
  [B "initialized"; B "exit"; B "workspace/didChangeConfiguration"; B "textDocument/didSave"; B "workspace/didChangeWatchedFiles"; CANCEL].

(** A message of an editor that gives requests an id, notifications none, [initialize] the id
    [x0], which it does not cancel, and leaves the methods of the gateway alone. *)
Definition frame_ok (x0 : Value) (f : bytes) : bool :=
  match from_str f with
  | None => true
  | Some v =>
      match get v (B "method") with
      | None => true
      | Some (String m) =>
          (negb (bool_decide (m = B "initialize")) || bool_decide (get v (B "id") = Some x0))
          && (negb (bool_decide (m = CANCEL)) || negb (bool_decide (pointer v [B "params"; B "id"] = Some x0)))
          && match get v (B "id") with
             | None => true
             | Some id => negb (bool_decide (id = Null)) && negb (bool_decide (m ∈ notifications)) && negb (starts_with (B "prod-code/") m)
             end
      | Some _ => false
      end
  end.

Lemma request_of_some v id m : request_of v = Some (id, m) <-> get v (B "id") = Some id /\ get_str v (B "method") = Some m.
Proof.
  unfold request_of. destruct (get v (B "id")) as [i|]; cbn [mbind option_bind]; [|split; [done|by intros [? _]]].
  destruct (get_str v (B "method")) as [s|]; cbn [mbind option_bind]; [|split; [done|by intros [_ ?]]].
  split; [by intros [= -> ->]|by intros [[= ->] [= ->]]].
Qed.
Lemma get_str_some v k m : get_str v k = Some m -> get v k = Some (String m).
Proof. unfold get_str. destruct (get v k) as [[]|]; cbn; try done. by intros [= ->]. Qed.

Lemma frame_request x0 f v id m : frame_ok x0 f = true -> from_str f = Some v -> request_of v = Some (id, m) ->
  id <> Null /\ m ∉ notifications /\ starts_with (B "prod-code/") m = false /\ (m = B "initialize" -> id = x0).
Proof.
  unfold frame_ok. intros H Ev [Hid Hm]%request_of_some. apply get_str_some in Hm. rewrite Ev, Hm, Hid in H.
  rewrite !andb_true_iff, !orb_true_iff, !negb_true_iff, !bool_decide_eq_false, bool_decide_eq_true in H. naive_solver.
Qed.
Lemma frame_notification x0 f v m : frame_ok x0 f = true -> from_str f = Some v -> get_str v (B "method") = Some m -> m ∈ notifications ->
  asked_ids f = [].
Proof.
  intros H Ev Hm Hn. unfold asked_ids. rewrite Ev. cbn [mbind option_bind]. destruct (request_of v) as [[id m']|] eqn:Er; [|done].
  exfalso. pose proof (frame_request x0 f v id m' H Ev Er) as (_ & Hn' & _). apply request_of_some in Er as [_ Hm']. simplify_eq. done.
Qed.

Lemma request_fits f v id m : from_str f = Some v -> request_of v = Some (id, m) -> fits float_text 126 id = true /\ utf8_valid m = true.
Proof.
  intros Ev [Hid Hm]%request_of_some. apply read_fits in Ev. split; [by apply (fits_get _ 126 v (B "id"))|by apply (fits_get_str float_text 126 v (B "method"))].
Qed.

(** ** Lists of replies *)

Definition pending_ids (l : list (Value * bytes * bytes)) : list Value := map (fun p => p.1.1) l.
Lemma cnt_pending_nil x : cnt x (pending_ids []) = 0%nat.
Proof. done. Qed.
Definition pending_fits (p : Value * bytes * bytes) : Prop := fits float_text 126 p.1.1 = true /\ utf8_valid p.1.2 = true.

Lemma map_answers {A} (l : list A) (reply : A -> bytes) (id : A -> Value) x :
  Forall (fun a => answered_ids (reply a) = [id a]) l -> answers x (map reply l) = cnt x (map id l).
Proof. induction 1 as [|a l Ha Hl IH]; cbn [map]; [done|]. rewrite answers_cons, Ha, IH, !cnt_cons. change (cnt x []) with 0%nat. lia. Qed.

Lemma fail_pending_answers msg pending x : utf8_valid msg = true -> Forall pending_fits pending ->
  answers x (fail_pending_requests to_string msg pending) = cnt x (pending_ids pending).
Proof.
  intros Hm Hp. unfold fail_pending_requests, pending_ids. apply map_answers. eapply Forall_impl; [exact Hp|]. intros [[id m] raw] [H1 H2]. cbn [fst snd] in *.
  destruct (bool_decide _); apply error_reply_answers; try done; try lia.
  by apply utf8_between.
Qed.

Lemma replay_pending_answers deferred pending x : Forall pending_fits pending ->
  answers x (replay_pending_requests from_str to_string deferred pending) = cnt x (pending_ids pending).
Proof.
  intros Hp. unfold replay_pending_requests, pending_ids. cbv zeta. apply map_answers. eapply Forall_impl; [exact Hp|]. intros [[id m] raw] [H1 H2]. cbn [fst snd] in *.
  destruct (_ || _); [apply error_reply_answers; done || lia|].
  destruct (is_idempotent_lsp_request m); (apply error_reply_answers; [done|lia|]);
    by apply utf8_between.
Qed.

(** ** The queue *)

Lemma frame_ok_request x0 f v id m : from_str f = Some v -> get v (B "id") = Some id -> get v (B "method") = Some (String m) ->
  id <> Null -> m ∉ notifications -> starts_with (B "prod-code/") m = false -> (m = B "initialize" -> id = x0) -> frame_ok x0 f = true.
Proof.
  intros Ev Hid Hm H1 H2 H3 H4. unfold frame_ok. rewrite Ev, Hm, Hid, H3. rewrite (bool_decide_eq_false_2 (id = Null)), (bool_decide_eq_false_2 (m ∈ _)) by done.
  rewrite (bool_decide_eq_false_2 (m = CANCEL)) by (intros ->; apply H2; by_decide). cbn [negb orb andb]. rewrite !andb_true_r.
  destruct (bool_decide_reflect (m = B "initialize")) as [Ei|]; [|done]. cbn [negb orb]. rewrite (H4 Ei). by apply bool_decide_eq_true_2.
Qed.

Lemma replayed_frame x0 f v id m r : frame_ok x0 f = true -> from_str f = Some v -> request_of v = Some (id, m) ->
  replay_request from_str to_string m f = Some r -> frame_ok x0 r = true /\ asked_ids r = [id].
Proof.
  intros Hf Ev Er Hr. destruct (replay_request_same from_str to_string m f v r Ev Hr) as (v' & Ev' & Hid & Hm).
  pose proof (frame_request x0 f v id m Hf Ev Er) as (H1 & H2 & H3 & H4). apply request_of_some in Er as [Eid Em]. pose proof (get_str_some _ _ _ Em) as Em'.
  rewrite Eid in Hid. assert (exists m', get v' (B "method") = Some (String m') /\ m' ∉ notifications /\ starts_with (B "prod-code/") m' = false /\ (m' = B "initialize" -> id = x0))
    as (m' & Hm' & H2' & H3' & H4').
  { destruct Hm as [Hm|Hm]; [exists m; by rewrite Hm|]. eexists. split_and!; [exact Hm|by_decide|vm_compute; reflexivity|done]. }
  split; [by apply (frame_ok_request x0 r v' id m')|]. unfold asked_ids. rewrite Ev'. cbn [mbind option_bind]. unfold request_of, get_str. by rewrite Hid, Hm'.
Qed.

(** The queue in order: what is kept and what is refused make up what was queued. *)
Definition parted (x0 : Value) (deferred frames : list bytes) (rejected : list (Value * Z)) : Prop :=
  Forall (fun f => frame_ok x0 f = true) frames
  /\ Forall (fun r => fits float_text 126 r.1 = true /\ - 2 ^ 63 <= r.2 < 2 ^ 63) rejected
  /\ forall x, asks x deferred = (asks x frames + cnt x (map fst rejected))%nat.

Lemma parted_keep x0 f r deferred frames rejected : parted x0 deferred frames rejected -> frame_ok x0 r = true -> asked_ids r = asked_ids f ->
  parted x0 (f :: deferred) (r :: frames) rejected.
Proof.
  intros (H1 & H2 & H3) Hr E. split_and!; [by constructor|done|]. intros x. rewrite (asks_cons x r), asks_cons, !asks_one, E, H3. lia.
Qed.
Lemma parted_reject x0 f id code deferred frames rejected : parted x0 deferred frames rejected -> asked_ids f = [id] -> fits float_text 126 id = true ->
  - 2 ^ 63 <= code < 2 ^ 63 -> parted x0 (f :: deferred) frames ((id, code) :: rejected).
Proof.
  intros (H1 & H2 & H3) E Hid Hc. split_and!; [done|by constructor|]. intros x. rewrite asks_cons, asks_one, E, H3. cbn [map fst].
  rewrite !cnt_cons, cnt_nil. lia.
Qed.

Lemma normalize_parted x0 c deferred : Forall (fun f => frame_ok x0 f = true) deferred ->
  let '(frames, rejected, _) := foldr (normalize_one from_str to_string c) ([], [], false) deferred in parted x0 deferred frames rejected.
Proof.
  induction 1 as [|f deferred Hf Hd IH]; cbn [foldr]; [split_and!; [constructor|constructor|done]|].
  destruct (foldr _ _ deferred) as [[frames rejected] later]. unfold normalize_one.
  destruct (from_str f) as [v|] eqn:Ev; [|by apply parted_keep]. cbv zeta. case_bool_decide as Em.
  { destruct IH as (H1 & H2 & H3). split_and!; [done..|]. intros x. rewrite asks_cons, asks_one, (frame_notification x0 f v CANCEL Hf Ev Em) by by_decide. apply H3. }
  destruct (request_of v) as [[id m]|] eqn:Er; [|by apply parted_keep]. destruct (request_fits f v id m Ev Er) as [Hid _].
  assert (Hask : asked_ids f = [id]) by (unfold asked_ids; rewrite Ev; cbn [mbind option_bind]; by rewrite Er).
  destruct (bool_decide _); [apply parted_reject; done || lia|]. destruct (_ || _); [apply parted_reject; done || lia|].
  destruct (replay_request _ _ _ _) as [r|] eqn:Eq; [|apply parted_reject; done || lia].
  destruct (replayed_frame x0 f v id m r Hf Ev Er Eq) as [Hr1 Hr2]. apply parted_keep; [done|done|by rewrite Hr2].
Qed.

Lemma prepare_deferred_answers x0 deferred frames out : Forall (fun f => frame_ok x0 f = true) deferred ->
  prepare_deferred from_str to_string deferred = (frames, out) ->
  Forall (fun f => frame_ok x0 f = true) frames /\ forall x, asks x deferred = (asks x frames + answers x out)%nat.
Proof.
  intros Hd. unfold prepare_deferred, normalize_deferred. pose proof (normalize_parted x0 (cancelled_in from_str deferred) deferred Hd) as H.
  destruct (foldr _ _ deferred) as [[frames' rejected] later]. cbn [fst]. intros [= -> <-]. destruct H as (H1 & H2 & H3). split; [done|].
  intros x. rewrite H3. f_equal. symmetry. apply map_answers. eapply Forall_impl; [exact H2|]. intros [id code] [Hi Hc]. cbn [fst snd] in *.
  apply error_reply_answers; [done|done|by destruct (code =? _)].
Qed.

Lemma fail_deferred_answers x0 deferred x : Forall (fun f => frame_ok x0 f = true) deferred -> (forall y, asks y deferred <= 1)%nat ->
  answers x (fail_deferred from_str to_string deferred) = asks x deferred.
Proof.
  intros Hd Hone. unfold fail_deferred. generalize (cancelled_in from_str deferred) as c. intros c.
  assert (Hseen : forall y, y ∈ [] -> asks y deferred = 0%nat) by (by intros y ?%not_elem_of_nil). revert Hseen. generalize (@nil Value) as seen.
  induction Hd as [|f deferred Hf Hd IH]; intros seen Hseen; cbn [fail_deferred_loop]; [done|].
  assert (Hone' : forall y, (asks y deferred <= 1)%nat) by (intros y; specialize (Hone y); rewrite asks_cons in Hone; lia).
  assert (Hseen' : forall y, y ∈ seen -> asks y deferred = 0%nat) by (intros y Hy; specialize (Hseen y Hy); rewrite asks_cons in Hseen; lia).
  rewrite asks_cons, asks_one. unfold asked_ids. destruct (from_str f) as [v|] eqn:Ev; cbn [mbind option_bind]; [|by apply IH].
  destruct (get v (B "id")) as [id|] eqn:Ei; [|unfold request_of; rewrite Ei; by apply IH].
  destruct (get v (B "method")) as [mv|] eqn:Em; [|unfold request_of, get_str; rewrite Ei, Em; by apply IH].
  assert (exists m, mv = String m) as [m ->] by (unfold frame_ok in Hf; rewrite Ev, Em in Hf; destruct mv; by eauto).
  assert (Er : request_of v = Some (id, m)) by (unfold request_of, get_str; by rewrite Ei, Em). rewrite Er.
  destruct (frame_request x0 f v id m Hf Ev Er) as (Hnull & _). destruct (request_fits f v id m Ev Er) as [Hid _].
  assert (Hask : (1 + asks id deferred)%nat = asks id (f :: deferred)).
  { rewrite asks_cons, asks_one. unfold asked_ids. rewrite Ev. cbn [mbind option_bind]. rewrite Er, cnt_cons, bool_decide_eq_true_2 by done. done. }
  rewrite (bool_decide_eq_false_2 (id = Null)), (bool_decide_eq_false_2 (id ∈ seen)) by (done || intros H; specialize (Hseen id H); lia). cbn [orb].
  rewrite answers_cons, error_reply_answers; [|done|destruct (bool_decide _); lia|vm_compute; reflexivity]. rewrite IH; [done|done|].
  intros y [->|Hy]%elem_of_cons; [specialize (Hone id); lia|by apply Hseen'].
Qed.
End replies.
