(* ===== verification/BridgeAnswers.v ===== *)
(** * Every request gets one answer

    Wherever the connection breaks and however the bridge reconnects, a request of the editor is
    in one place only: answered, with the server, in the queue, on its way to the editor, or
    among what was dropped. *)

From stdpp Require Import gmap list.
From Stdlib Require Import Strings.Byte.
From S2P Require Import Prelude RustStr Utf8 Json SerdeJson TextEdits BridgeState Bridge BridgeOrder BridgeMirror BridgeReplies.

#[local] Set Warnings "-register-all".

(** Sums of counts, with the fields of states computed. *)
Ltac counts :=
  cbn [set_phase set_reader set_closed set_pending set_deferred set_tracker set_gate set_encoding set_replay set_ping write set_sent
       note_taken note_read note_lost fail_pending fail_queue abort_reader
       br_read br_out br_pending br_deferred br_reader br_lost br_asked br_tracker br_gate br_closed] in *;
  rewrite ?asks_nil, ?answers_nil, ?cnt_bind_nil, ?cnt_nil, ?cnt_pending_nil in *; lia.

(** What a move leaves as it was. *)
Ltac by_core H := rewrite ?app_nil_r; try done; try apply H; try constructor.

Section answers.
Context (from_str : bytes -> option Value) (to_string : Value -> bytes) (reconnect : bool) (watchdog_secs : Z).
Context `{!SerdeJson from_str to_string}.
(** The id of the editor's [initialize]. *)
Context (x0 : Value).

#[local] Abbreviation step := (step from_str to_string reconnect watchdog_secs).
#[local] Abbreviation asks := (asks from_str).
#[local] Abbreviation answers := (answers from_str).
#[local] Abbreviation asked_ids := (asked_ids from_str).
#[local] Abbreviation answered_ids := (answered_ids from_str).
#[local] Abbreviation frame_ok := (frame_ok from_str x0).

(** ** The places of a request *)

Definition lost_ids (l : Lost) : list Value :=
  match l with Undelivered json => answered_ids json | Unqueued f => asked_ids f end.
Definition delivering (r : Reader) : list bytes := match r with Delivering json => [json] | _ => [] end.

(** How many answers to [x] were sent, are on the way, are still to come, or were dropped. *)
Definition places (x : Value) (b : Bridge) : nat :=
  answers x (br_out b) + cnt x (pending_ids (br_pending b)) + asks x (br_deferred b)
  + answers x (delivering (br_reader b)) + cnt x (br_lost b ≫= lost_ids).

Definition pending_ok (p : Value * bytes * bytes) : Prop :=
  pending_fits from_str to_string p /\ (p.1.2 = B "initialize" -> p.1.1 = x0).
Definition silent (f : bytes) : Prop := asked_ids f = [].

(** What the tracker, the gate and the report of a closed session hold. *)
Record aux_ok (t : LspStateTracker) (g : SaveGate) (closed : option (bytes * bool)) (reader : Reader) : Prop := {
  au_init raw : initialize_req t = Some raw ->
    exists v, from_str raw = Some v /\ get v (B "id") = Some x0 /\ get_str v (B "method") = Some (B "initialize");
  au_config : Forall silent (configuration_notifications t);
  au_held : Forall silent (held g);
  au_closed why redirect : closed = Some (why, redirect) -> reader = Gone /\ utf8_valid why = true;
}.
#[local] Abbreviation aux b := (aux_ok (br_tracker b) (br_gate b) (br_closed b) (br_reader b)).

(** What holds apart from where the main task stands; [rest] is what the editor has still to
    send. *)
Record core_ok (rest : list bytes) (b : Bridge) : Prop := {
  co_account x : asks x (br_read b) = places x b;
  co_fresh x : (asks x (br_read b) + asks x rest <= 1)%nat;
  co_deferred : Forall (fun f => frame_ok f = true) (br_deferred b);
  co_pending : Forall pending_ok (br_pending b);
  co_aux : aux b;
}.

Lemma co_pending_once rest b x : core_ok rest b -> (cnt x (pending_ids (br_pending b)) <= 1)%nat.
Proof. intros H. pose proof (co_account _ _ H x). pose proof (co_fresh _ _ H x). unfold places in *. lia. Qed.
Lemma co_pending_one rest b p id : core_ok rest b -> p ∈ br_pending b -> p.1.1 = id -> cnt id (pending_ids (br_pending b)) = 1%nat.
Proof.
  intros H Hin <-. pose proof (co_pending_once _ _ p.1.1 H). assert (Hin' : p.1.1 ∈ pending_ids (br_pending b)) by (by apply (list_elem_of_fmap_2 (fun p => p.1.1))).
  apply cnt_pos in Hin'. lia.
Qed.
Lemma co_deferred_once rest b x : core_ok rest b -> (asks x (br_deferred b) <= 1)%nat.
Proof. intros H. pose proof (co_account _ _ H x). pose proof (co_fresh _ _ H x). unfold places in *. lia. Qed.
Lemma co_fits rest b : core_ok rest b -> Forall (pending_fits from_str to_string) (br_pending b).
Proof. intros H. eapply Forall_impl; [exact (co_pending _ _ H)|]. by intros p []. Qed.

(** ** Moves *)

(** Requests come from the editor and go from one place to another. *)
Lemma co_move rest b b' reads out lost : core_ok (reads ++ rest) b ->
  br_read b' = br_read b ++ reads -> br_out b' = br_out b ++ out -> br_lost b' = br_lost b ++ lost -> br_reader b' = br_reader b ->
  Forall (fun f => frame_ok f = true) (br_deferred b') -> Forall pending_ok (br_pending b') -> aux b' ->
  (forall x, asks x reads + cnt x (pending_ids (br_pending b)) + asks x (br_deferred b)
    = answers x out + cnt x (pending_ids (br_pending b')) + asks x (br_deferred b') + cnt x (lost ≫= lost_ids))%nat ->
  core_ok rest b'.
Proof.
  intros [H1 H2 H3 H4 H5] E1 E2 E3 E4 Hd Hp Ha Hx. constructor; [| |done..]; intros x; specialize (H1 x); specialize (H2 x); specialize (Hx x);
    rewrite asks_app in H2; unfold places in *; rewrite E1, asks_app; [|lia]. rewrite E2, E3, E4, answers_app, bind_app, cnt_app. lia.
Qed.

(** Only where the main task stands, or something that is not looked at here, differs. *)
Definition same_core (b b' : Bridge) : Prop :=
  br_read b' = br_read b /\ br_out b' = br_out b /\ br_lost b' = br_lost b /\ br_reader b' = br_reader b
  /\ br_pending b' = br_pending b /\ br_deferred b' = br_deferred b.
Lemma co_same rest b b' : core_ok rest b -> same_core b b' -> aux b' -> core_ok rest b'.
Proof.
  intros H (E1 & E2 & E3 & E4 & E5 & E6) Ha. apply (co_move rest b b' [] [] []); rewrite ?app_nil_r, ?E5, ?E6; try done; apply H.
Qed.

Lemma co_write rest b l : core_ok rest b -> (forall x, answers x l = 0%nat) -> core_ok rest (write l b).
Proof.
  intros H Hl. apply (co_move rest b _ [] l []); by_core H. intros x. rewrite Hl. counts.
Qed.
Lemma co_fail_pending rest msg b : core_ok rest b -> utf8_valid msg = true -> core_ok rest (fail_pending to_string msg b).
Proof.
  intros H Hm. apply (co_move rest b _ [] (fail_pending_requests to_string msg (br_pending b)) []); by_core H. intros x.
  rewrite (fail_pending_answers from_str to_string) by (done || by eapply co_fits). counts.
Qed.
Lemma co_fail_queue rest b : core_ok rest b -> core_ok rest (fail_queue from_str to_string b).
Proof.
  intros H. apply (co_move rest b _ [] (fail_deferred from_str to_string (br_deferred b)) []); by_core H. intros x.
  rewrite (fail_deferred_answers from_str to_string x0) by (apply H || intros y; by eapply co_deferred_once). counts.
Qed.
Lemma co_read rest b f : core_ok (f :: rest) b -> silent f -> core_ok rest (note_read f b).
Proof.
  intros H Hf. apply (co_move rest b _ [f] [] []); by_core H. intros x. rewrite asks_one, Hf. counts.
Qed.

Lemma co_abort rest b : core_ok rest b -> core_ok rest (abort_reader b).
Proof.
  intros [H1 H2 H3 H4 [H5 H6 H7 H8]]. constructor; try done.
  - intros x. rewrite H1. unfold places, abort_reader. cbn [set_reader note_lost br_out br_read br_pending br_deferred br_reader br_lost].
    rewrite bind_app, cnt_app. destruct (br_reader b) as [|json|]; cbn [delivering]; [counts| |counts].
    rewrite bind_cons, answers_one. cbn [lost_ids]. rewrite cnt_app. change (cnt x ([] ≫= _)) with 0%nat. change (answers x []) with 0%nat. lia.
  - constructor; try done. intros why redirect Hc. split; [done|]. by apply (H8 why redirect).
Qed.

(** ** Where the main task stands *)

(** What the server of the session has still to answer, and the message that it is about to be
    sent, are requests under way. *)
Definition live (unsent : list bytes) (b : Bridge) : Prop :=
  br_reader b <> Gone -> forall x, (cnt x (br_asked b) + asks x unsent <= cnt x (pending_ids (br_pending b)))%nat.
Definition recon_ok (r : Reconnect) : Prop := utf8_valid (rc_why r) = true /\ forall f, rc_again r = Some f -> frame_ok f = true.
(** The [initialize] that waits for the answer of the new server. *)
Definition init_ok (r : Reconnect) (pending : list (Value * bytes * bytes)) : Prop :=
  forall id, rc_init r = Some id -> id = x0 /\ exists p, p ∈ pending /\ p.1.1 = x0 /\ p.1.2 = B "initialize".
Definition reply_ok (reply : option bytes) : Prop := forall json, reply = Some json -> response_of from_str json = Some x0.

Definition phase_answers (p : Phase) (b : Bridge) : Prop :=
  match p with
  | Looping => live [] b
  | Syncing f | Sending f => frame_ok f.1 = true /\ live [f.1] b
  | Flushing held f => frame_ok f.1 = true /\ Forall silent held /\ live [f.1] b
  | Replaying l => Forall silent l /\ live [] b
  | Resending f => silent f /\ live [] b
  | Opening r => br_reader b = Gone /\ recon_ok r
  | Greeting r _ reply =>
      br_reader b = Gone /\ recon_ok r /\ init_ok r (br_pending b) /\ reply_ok reply /\ is_Some (initialize_req (br_tracker b))
      /\ forall x, (cnt x (br_asked b) <= match reply with None => cnt x [x0] | Some _ => 0 end)%nat
  | Restoring r l reply =>
      br_reader b = Gone /\ recon_ok r /\ init_ok r (br_pending b) /\ reply_ok reply /\ Forall silent l /\ br_asked b = []
  | Draining => br_reader b = Gone /\ br_pending b = [] /\ br_deferred b = []
  | Ended _ GivenUp => br_pending b = [] /\ (reconnect = true -> br_deferred b = [] /\ br_reader b = Gone)
  | Ended _ _ => True
  end.

Definition answers_ok (rest : list bytes) (b : Bridge) : Prop := core_ok rest b /\ phase_answers (br_phase b) b.

Lemma ao_phase rest b p : core_ok rest b -> phase_answers p (set_phase p b) -> answers_ok rest (set_phase p b).
Proof. intros H Hp. split; [|done]. apply (co_same rest b); [done|done|apply H]. Qed.

(** ** Ends *)

Lemma shutdown_answers rest b b1 id reads : core_ok (reads ++ rest) b -> br_reader b = Gone -> fits float_text 126 id = true ->
  br_read b1 = br_read b ++ reads -> br_out b1 = br_out b -> br_lost b1 = br_lost b -> br_reader b1 = br_reader b -> aux b1 ->
  br_deferred b1 = br_deferred b -> Forall pending_ok (br_pending b1) ->
  (forall x, asks x reads + cnt x (pending_ids (br_pending b)) = cnt x [id] + cnt x (pending_ids (br_pending b1)))%nat ->
  answers_ok rest (shutdown_during_reconnect to_string id (fail_queue from_str to_string b1)).
Proof.
  intros H Hg Hid E1 E2 E3 E4 Ha E5 Hp Hx. split; [|cbn; rewrite E4; by split_and!].
  apply (co_move rest b _ reads (fail_deferred from_str to_string (br_deferred b1)
    ++ fail_pending_requests to_string (B "editor shutdown during reconnect") (br_pending b1) ++ [result_reply to_string id Null]) []);
    by_core H; [cbn; by rewrite E2, <- !app_assoc|]. intros x. specialize (Hx x). rewrite !answers_app, answers_one, (result_reply_answers from_str to_string) by done.
  rewrite (fail_deferred_answers from_str to_string x0) by (rewrite E5; apply H || intros y; by eapply co_deferred_once).
  rewrite (fail_pending_answers from_str to_string); [|done|eapply Forall_impl; [exact Hp|by intros p []]].
  rewrite E5. counts.
Qed.

Lemma handle_reconnect_answers rest why again b : core_ok rest b -> br_reader b = Gone -> utf8_valid why = true ->
  (forall f, again = Some f -> frame_ok f = true) -> answers_ok rest (handle_reconnect from_str to_string why again b).
Proof.
  intros H Hg Hw Ha. unfold handle_reconnect. destruct (list_find _ _) as [[i p]|] eqn:Ef; [|by apply ao_phase].
  apply list_find_Some in Ef as (Hi & _ & _). pose proof (co_pending _ _ H) as Hp.
  assert (Hin : p ∈ br_pending b) by (by eapply list_elem_of_lookup_2).
  apply (shutdown_answers rest b _ _ []); try done; [|by rewrite app_nil_r|apply H| |].
  - rewrite Forall_forall in Hp. by destruct (Hp p Hin) as [[] _].
  - cbn. by apply Forall_delete.
  - intros x. cbn [set_pending br_pending]. rewrite (cnt_delete x (pending_ids (br_pending b)) i p.1.1) by (unfold pending_ids; by rewrite list_lookup_fmap, Hi).
    unfold pending_ids. rewrite cnt_cons. change (map ?f ?l) with (f <$> l). rewrite list_fmap_delete. counts.
Qed.

Lemma reconnect_failed_answers rest r err b : core_ok rest b -> br_reader b = Gone -> recon_ok r -> utf8_valid err = true -> answers_ok rest (reconnect_failed from_str to_string r err b).
Proof.
  intros H Hg [Hw _] He. unfold reconnect_failed. apply ao_phase; [|done]. apply co_fail_pending; [by apply co_fail_queue|].
  apply utf8_valid_app; [done|]. by apply utf8_between.
Qed.
Lemma editor_exit_answers rest r b : core_ok rest b -> br_reader b = Gone -> recon_ok r -> answers_ok rest (editor_exit from_str to_string r b).
Proof. intros H Hg Hr. unfold editor_exit. destruct (td_shutdown _); [by apply ao_phase|by apply reconnect_failed_answers]. Qed.

Lemma connection_lost_answers rest why err again b : core_ok rest b -> utf8_valid why = true -> utf8_valid err = true ->
  (forall f, again = Some f -> frame_ok f = true) -> answers_ok rest (connection_lost from_str to_string reconnect why err again b).
Proof.
  intros H Hw He Ha. unfold connection_lost. destruct reconnect eqn:Er; [apply handle_reconnect_answers; [by apply co_abort|done..]|].
  apply ao_phase; [by apply co_fail_pending|]. split; [done|congruence].
Qed.

Lemma expected_ended b p : expected b = Some p -> exists code, p = Ended code Asked.
Proof. unfold expected. destruct (expected_exit _) as [code|]; [|done]. intros [= <-]. by exists code. Qed.

Lemma session_closed_answers rest why redirect b : core_ok rest b -> br_reader b = Gone -> utf8_valid why = true ->
  answers_ok rest (session_closed from_str to_string reconnect why redirect b).
Proof.
  intros H Hg Hw. unfold session_closed. destruct (expected b) as [p|] eqn:E; [apply expected_ended in E as [code ->]; by apply ao_phase|].
  destruct (should_reconnect_after_close _ _ _) eqn:Es; [by apply handle_reconnect_answers|]. apply ao_phase; [by apply co_fail_pending|].
  split; [done|]. unfold should_reconnect_after_close in Es. destruct reconnect; [done|congruence].
Qed.

(** ** Messages of the editor *)

(** The state of a reconnect: nothing changed but the queue and what was sent to the editor. *)
Definition reconnecting (p : Phase) : option Reconnect :=
  match p with Opening r | Greeting r _ _ | Restoring r _ _ => Some r | _ => None end.

Lemma phase_kept p b b' : phase_answers p b -> is_Some (reconnecting p) -> br_reader b' = br_reader b -> br_pending b' = br_pending b ->
  br_tracker b' = br_tracker b -> br_asked b' = br_asked b -> phase_answers p b'.
Proof. intros Hp [r Hr] E1 E2 E3 E4. destruct p; try done; cbn [phase_answers] in *; rewrite ?E1, ?E2, ?E3, ?E4; done. Qed.
Lemma phase_recon p b r : phase_answers p b -> reconnecting p = Some r -> recon_ok r /\ br_reader b = Gone.
Proof. intros Hp Hr. destruct p; try done; cbn in *; simplify_eq; naive_solver. Qed.

Lemma queue_frame_answers rest r f b : answers_ok (f :: rest) b -> frame_ok f = true -> reconnecting (br_phase b) = Some r ->
  answers_ok rest (queue_frame from_str to_string r f (note_read f b)).
Proof.
  intros [H Hp] Hf Hr. destruct (phase_recon _ _ _ Hp Hr) as [Hrec Hg]. unfold queue_frame, defer_editor_message. destruct (_ || _).
  - apply reconnect_failed_answers; [|done|done|vm_compute; reflexivity]. apply (co_move rest b _ [f] [] [Unqueued f]); by_core H.
    intros x. rewrite bind_cons, cnt_app. cbn [lost_ids]. rewrite asks_one. counts.
  - split; [|eapply phase_kept; [exact Hp|by exists r|done..]]. apply (co_move rest b _ [f] [] []); by_core H.
    + cbn. apply Forall_app. split; [apply H|by constructor].
    + intros x. cbn [set_deferred br_deferred note_read br_pending]. rewrite asks_app. counts.
Qed.

Lemma retain_not_ids id l : pending_ids (retain_not id l) = filter (fun x => x <> id) (pending_ids l).
Proof.
  unfold retain_not, pending_ids. induction l as [|p l IH]; [done|]. cbn [map]. rewrite !filter_cons. case_decide; cbn [map]; by rewrite IH.
Qed.
Lemma retain_not_count id l x : cnt id (pending_ids l) = 1%nat -> cnt x (pending_ids l) = (cnt x [id] + cnt x (pending_ids (retain_not id l)))%nat.
Proof.
  intros H1. rewrite retain_not_ids, cnt_without, cnt_cons, cnt_nil. destruct (bool_decide_reflect (id = x)) as [<-|]; lia.
Qed.
Lemma retain_not_changed id l : retain_not id l <> l -> exists p, p ∈ l /\ p.1.1 = id.
Proof.
  intros H. destruct (decide (Exists (fun p => p.1.1 = id) l)) as [He|He]; [by apply Exists_exists in He|]. exfalso. apply H. unfold retain_not.
  apply filter_all, Forall_forall. intros p Hp E. apply He, Exists_exists. by exists p.
Qed.

(** A message without a request. *)
Lemma method_silent f v m : frame_ok f = true -> from_str f = Some v -> get_str v (B "method") = Some m -> m ∈ notifications -> silent f.
Proof. apply frame_notification. Qed.

(** A request under way is cancelled. *)
Lemma cancel_answers rest r f v id b : answers_ok (f :: rest) b -> frame_ok f = true -> from_str f = Some v -> get_str v (B "method") = Some CANCEL ->
  pointer v [B "params"; B "id"] = Some id -> retain_not id (br_pending b) <> br_pending b ->
  br_phase b = Opening r \/ (exists l reply, br_phase b = Restoring r l reply) ->
  answers_ok rest (write [error_reply to_string id (-32800) (B "request cancelled")] (set_pending (retain_not id (br_pending b)) (note_read f b))).
Proof.
  intros [H Hp] Hf Ev Ec Ep En Hph. destruct (retain_not_changed _ _ En) as (p & Hin & Hpid). pose proof (co_pending _ _ H) as Hpend.
  assert (Hfit : fits float_text 126 id = true) by (rewrite Forall_forall in Hpend; destruct (Hpend p Hin) as [[Hfit _] _]; by rewrite Hpid in Hfit).
  assert (Hone : cnt id (pending_ids (br_pending b)) = 1%nat) by (by apply (co_pending_one _ _ p id H)).
  assert (Hne : id <> x0).
  { intros ->. unfold BridgeReplies.frame_ok in Hf. rewrite Ev, (get_str_some _ _ _ Ec), Ep in Hf.
    rewrite (bool_decide_eq_true_2 (CANCEL = CANCEL)), (bool_decide_eq_true_2 (Some x0 = _)) in Hf by done. cbn in Hf. by rewrite andb_false_r in Hf. }
  split.
  - apply (co_move rest b _ [f] [error_reply to_string id (-32800) (B "request cancelled")] []); by_core H.
    + by apply Forall_filtered.
    + intros x. rewrite asks_one, (method_silent f v CANCEL Hf Ev Ec) by by_decide.
      rewrite answers_one, (error_reply_answers from_str to_string) by (done || lia). cbn [set_pending write br_pending note_read br_deferred].
      rewrite (retain_not_count id _ x Hone). counts.
  - cbn [write set_pending br_phase note_read]. destruct Hph as [E|(l & reply & E)]; rewrite E in *; cbn [phase_answers] in *; [done|].
    destruct Hp as (P1 & P2 & P3 & P4 & P5 & P6). split_and!; try done. intros id' Hid'. destruct (P3 id' Hid') as (Hx & q & Hq1 & Hq2 & Hq3).
    split; [done|]. exists q. split; [|done]. cbn. apply list_elem_of_filter. split; [|done]. rewrite Hq2. congruence.
Qed.

Lemma while_reconnecting_answers rest r f b : answers_ok (f :: rest) b -> frame_ok f = true ->
  br_phase b = Opening r \/ (exists l reply, br_phase b = Restoring r l reply) ->
  answers_ok rest (editor_while_reconnecting from_str to_string r f (note_read f b)).
Proof.
  intros Hb Hf Hph. assert (Hr : reconnecting (br_phase b) = Some r) by (by destruct Hph as [->|(l & reply & ->)]).
  pose proof (queue_frame_answers rest r f b Hb Hf Hr) as Hq. destruct Hb as [H Hp]. destruct (phase_recon _ _ _ Hp Hr) as [Hrec Hg].
  unfold editor_while_reconnecting. cbv zeta. destruct (from_str f) as [v|] eqn:Ev; cbn [mbind option_bind]; [|done].
  destruct (bool_decide_reflect (get_str v (B "method") = Some (B "shutdown"))) as [Em|Em].
  - rewrite Em. rewrite (bool_decide_eq_false_2 (Some _ = Some (B "exit"))), (bool_decide_eq_false_2 (Some _ = Some CANCEL)) by done.
    destruct (get v (B "id")) as [id|] eqn:Ei; [|done].
    assert (Er : request_of v = Some (id, B "shutdown")) by (by apply request_of_some). destruct (request_fits from_str to_string f v id _ Ev Er) as [Hid _].
    apply (shutdown_answers rest b _ id [f]); try done; [apply H..|]. intros x. rewrite asks_one. unfold BridgeReplies.asked_ids. rewrite Ev. cbn [mbind option_bind].
    by rewrite Er.
  - destruct (bool_decide_reflect (get_str v (B "method") = Some (B "exit"))) as [Ex|Ex].
    { apply editor_exit_answers; [|done|done]. apply co_read; [done|]. eapply method_silent; [done|done|exact Ex|by_decide]. }
    destruct (bool_decide_reflect (get_str v (B "method") = Some CANCEL)) as [Ec|Ec]; [|done].
    destruct (pointer v [B "params"; B "id"]) as [id|] eqn:Ep; [|done]. cbn [note_read br_pending]. case_bool_decide as En; [done|].
    by apply (cancel_answers rest r f v id b).
Qed.

(** ** A message is taken *)

Lemma request_asked f v id m : from_str f = Some v -> request_of v = Some (id, m) -> asked_ids f = [id].
Proof. intros Ev Er. unfold BridgeReplies.asked_ids. rewrite Ev. cbn [mbind option_bind]. by rewrite Er. Qed.

Lemma track_pending_answers f pending : frame_ok f = true -> Forall pending_ok pending ->
  Forall pending_ok (track_pending_request from_str f pending)
  /\ forall x, cnt x (pending_ids (track_pending_request from_str f pending)) = (cnt x (pending_ids pending) + asks x [f])%nat.
Proof.
  intros Hf Hp. unfold track_pending_request. setoid_rewrite asks_one. destruct (from_str f) as [v|] eqn:Ev.
  2:{ split; [done|]. intros x. unfold BridgeReplies.asked_ids. rewrite Ev. cbn [mbind option_bind]. counts. }
  destruct (request_of v) as [[id m]|] eqn:Er.
  - destruct (frame_request from_str x0 f v id m Hf Ev Er) as (_ & _ & Hn & Hi). rewrite Hn. rewrite (request_asked f v id m Ev Er).
    destruct (request_fits from_str to_string f v id m Ev Er) as [H1 H2]. split.
    + apply Forall_app. split; [done|]. constructor; [|constructor]. by split.
    + intros x. unfold pending_ids. rewrite map_app, cnt_app. done.
  - assert (Hs : asked_ids f = []) by (unfold BridgeReplies.asked_ids; rewrite Ev; cbn [mbind option_bind]; by rewrite Er). rewrite Hs.
    assert (Hsame : Forall pending_ok pending /\ forall x, cnt x (pending_ids pending) = (cnt x (pending_ids pending) + cnt x [])%nat) by (split; [done|intros; counts]).
    destruct (bool_decide _); [|done]. destruct (pointer v [B "params"; B "id"]) as [c|]; [|done]. split.
    + rewrite Forall_map. eapply Forall_impl; [exact Hp|]. intros [[id m] raw] [[H1 H2] H3]. cbn [fst snd] in *. destruct (bool_decide (id = c)); [|by split].
      split; [split; [done|vm_compute; reflexivity]|done].
    + intros x. replace (pending_ids (map _ pending)) with (pending_ids pending); [counts|]. unfold pending_ids. rewrite map_map. apply map_ext.
      intros p. by destruct (bool_decide _).
Qed.

Lemma record_aux f e t g c r : frame_ok f = true -> aux_ok t g c r -> aux_ok (record_client_message from_str f e t) g c r.
Proof.
  intros Hf [H1 H2 H3 H4]. unfold record_client_message, method_of. destruct (from_str f) as [v|] eqn:Ev; [|done]. cbn [mbind option_bind].
  destruct (get_str v (B "method")) as [m|] eqn:Em; [|done].
  destruct (bool_decide_reflect (m = B "initialize")) as [->|_].
  { constructor; try done. intros raw [= <-]. exists v. split_and!; [done| |done]. unfold BridgeReplies.frame_ok in Hf.
    rewrite Ev, (get_str_some _ _ _ Em), bool_decide_eq_true_2 in Hf by done. cbn [negb orb] in Hf. rewrite !andb_true_iff in Hf.
    by destruct Hf as [[Hf%bool_decide_eq_true _] _]. }
  destruct (bool_decide _); [by constructor|].
  destruct (bool_decide_reflect (m = B "workspace/didChangeConfiguration")) as [->|_]; [|by constructor].
  constructor; try done. apply Forall_app. split; [done|]. constructor; [|constructor]. eapply method_silent; [done|done|exact Em|by_decide].
Qed.

Lemma take_answers rest now f b b1 reads : core_ok (reads ++ rest) b -> live [] b -> frame_ok f = true ->
  br_read b1 = br_read b ++ reads -> br_out b1 = br_out b -> br_lost b1 = br_lost b -> br_reader b1 = br_reader b -> br_pending b1 = br_pending b ->
  br_asked b1 = br_asked b -> aux b1 -> Forall (fun f => frame_ok f = true) (br_deferred b1) ->
  (forall x, asks x reads + asks x (br_deferred b) = asks x [f] + asks x (br_deferred b1))%nat ->
  answers_ok rest (take_frame from_str now f b1).
Proof.
  intros H Hl Hf E1 E2 E3 E4 E5 E6 Ha Hd Hx. destruct (track_pending_answers f (br_pending b) Hf (co_pending _ _ H)) as [Hp Hc]. split.
  - apply (co_move rest b _ reads [] []); rewrite ?app_nil_r; try done.
    + cbn. by rewrite E5.
    + cbn [take_frame set_phase set_pending set_tracker note_taken br_tracker br_gate br_closed br_reader]. by apply record_aux.
    + intros x. specialize (Hx x). cbn [take_frame set_phase set_pending set_tracker note_taken br_pending br_deferred]. rewrite E5, Hc. counts.
  - assert (Hlive : live [f] (take_frame from_str now f b1)).
    { intros Hg x. cbn [take_frame set_phase set_pending set_tracker note_taken br_pending br_asked br_reader] in *. rewrite E4 in Hg. rewrite E5, E6, Hc.
      specialize (Hl Hg x). rewrite asks_nil in Hl. lia. }
    unfold take_frame in *. cbv zeta in *. cbn [set_phase set_pending set_tracker note_taken br_phase br_gate br_encoding] in *.
    match goal with |- phase_answers (if ?c then _ else _) _ => by destruct c end.
Qed.

(** ** A new session *)

Lemma cnt_zero l : (forall x, cnt x l = 0%nat) -> l = [].
Proof. destruct l as [|y l]; [done|]. intros H. specialize (H y). rewrite cnt_cons, bool_decide_eq_true_2 in H by done. lia. Qed.

Lemma co_reading rest b : core_ok rest b -> br_reader b = Gone -> core_ok rest (set_closed None (set_reader Reading b)).
Proof.
  intros [H1 H2 H3 H4 [H5 H6 H7 H8]] Hg. constructor; try done. intros x. rewrite H1. unfold places. cbn [set_closed set_reader br_out br_pending br_deferred br_reader br_lost].
  by rewrite Hg.
Qed.

Lemma saves_silent f : frame_ok f = true -> saves_or_watches from_str f = true -> silent f.
Proof.
  intros Hf. unfold saves_or_watches, is_save, method_of. rewrite orb_true_iff, !bool_decide_eq_true. destruct (from_str f) as [v|] eqn:Ev; cbn [mbind option_bind]; [|by intros []].
  intros [E|E]; (eapply method_silent; [done|done|exact E|by_decide]).
Qed.

Lemma resumed_answers rest r b : core_ok rest b -> br_reader b = Gone -> recon_ok r -> br_asked b = [] -> answers_ok rest (resumed from_str to_string r b).
Proof.
  intros H Hg [_ Hr] Ha. unfold resumed. cbv zeta. destruct (prepare_deferred _ _ _) as [frames rejected] eqn:Ep. cbn [write set_pending br_deferred] in Ep.
  destruct (prepare_deferred_answers from_str to_string x0 _ _ _ (co_deferred _ _ H) Ep) as [Hf Hx].
  match goal with |- answers_ok _ (set_phase _ (set_closed None (set_reader Reading ?y))) => set (b1 := y) end.
  assert (H1 : core_ok rest b1).
  { apply (co_move rest b _ [] (replay_pending_requests from_str to_string (br_deferred b) (br_pending b) ++ rejected) []);
      by_core H; [cbn; by rewrite app_assoc|]. intros x. rewrite answers_app, (replay_pending_answers from_str to_string) by (by eapply co_fits).
    change (br_pending b1) with (@nil (Value * bytes * bytes)). change (br_deferred b1) with frames. rewrite (Hx x). counts. }
  apply ao_phase; [by apply co_reading|].
  assert (Hl : forall p, live [] (set_phase p (set_closed None (set_reader Reading b1)))) by (intros p _ x; cbn; by rewrite Ha).
  destruct (rc_again r) as [f|] eqn:Ea; [|apply Hl]. destruct (saves_or_watches from_str f) eqn:Es; [|apply Hl].
  split; [apply saves_silent; [by apply Hr|done]|apply Hl].
Qed.

Lemma same_id_once l p q : (cnt p.1.1 (pending_ids l) <= 1)%nat -> p ∈ l -> q ∈ l -> q.1.1 = p.1.1 -> q = p.
Proof.
  induction l as [|e l IH]; [by intros _ ?%not_elem_of_nil|]. unfold pending_ids in *. cbn [map]. rewrite cnt_cons. intros Hc Hp Hq E.
  assert (Hin : forall z, z ∈ l -> z.1.1 = p.1.1 -> (1 <= cnt p.1.1 (map (fun p => p.1.1) l))%nat).
  { intros z Hz <-. apply cnt_pos. by apply (list_elem_of_fmap_2 (fun p => p.1.1)). }
  apply elem_of_cons in Hp as [->|Hp]; apply elem_of_cons in Hq as [->|Hq]; [done|..].
  - rewrite bool_decide_eq_true_2 in Hc by done. specialize (Hin q Hq E). lia.
  - rewrite E, bool_decide_eq_true_2 in Hc by done. specialize (Hin p Hp eq_refl). lia.
  - apply IH; [lia|done..].
Qed.

Lemma restored_answers rest r reply b : core_ok rest b -> br_reader b = Gone -> recon_ok r -> init_ok r (br_pending b) -> reply_ok reply -> br_asked b = [] ->
  answers_ok rest (restored from_str to_string r reply b).
Proof.
  intros H Hg Hr Hi Hreply Ha. unfold restored. destruct (rc_init r) as [id|] eqn:Ei; [|by apply resumed_answers].
  destruct reply as [response|]; [|by apply ao_phase]. apply resumed_answers; [|done..]. destruct (Hi id Ei) as (-> & p & Hp & Hp1 & Hp2).
  assert (Hfilter : filter (fun q => q.1.1 <> x0 \/ q.1.2 <> B "initialize") (br_pending b) = retain_not x0 (br_pending b)).
  { unfold retain_not. apply filter_same, Forall_forall. intros q Hq. split; [|by left]. intros [?|Hne] E; [done|].
    apply Hne. rewrite (same_id_once (br_pending b) p q); [done| |done|done|congruence]. by eapply co_pending_once. }
  assert (Hone : cnt x0 (pending_ids (br_pending b)) = 1%nat) by (by apply (co_pending_one _ _ p x0 H)).
  rewrite Hfilter. apply (co_move rest b _ [] [response] []); by_core H; [apply Forall_filtered, H|]. intros x. rewrite answers_one. unfold BridgeReplies.answered_ids. rewrite (Hreply response eq_refl). change (option_list (Some x0)) with [x0]. cbn [set_pending write br_pending br_deferred].
  rewrite (retain_not_count x0 _ x Hone). counts.
Qed.

Lemma silent_named f v : from_str f = Some v -> get v (B "id") = None -> silent f.
Proof. intros Ev Ei. unfold silent, BridgeReplies.asked_ids. rewrite Ev. cbn [mbind option_bind]. unfold request_of. by rewrite Ei. Qed.

Lemma replay_silent t order : Forall silent (configuration_notifications t) -> docs_ok (open_documents t) -> is_order order (open_documents t) = true ->
  Forall silent (replay_lsp_workspace_state to_string t order).
Proof.
  intros Hc Hd Ho. unfold replay_lsp_workspace_state. apply Forall_app. split; [done|]. rewrite Forall_map, Forall_forall. intros doc Hin.
  destruct (order_documents order _ doc Ho Hd Hin) as [_ Hok]. eapply silent_named; [apply read_print; by apply did_open_fits|done].
Qed.

Lemma greeted_answers rest r reply b : core_ok rest b -> br_reader b = Gone -> recon_ok r -> init_ok r (br_pending b) -> reply_ok reply -> br_asked b = [] ->
  docs_ok (open_documents (br_tracker b)) -> is_order (rc_docs r) (open_documents (br_tracker b)) = true -> answers_ok rest (greeted from_str to_string r reply b).
Proof.
  intros H Hg Hr Hi Hreply Ha Hd Ho. unfold greeted. destruct (initialized_sent _); [|by apply restored_answers]. apply ao_phase; [done|].
  split_and!; try done. constructor; [|apply replay_silent; [apply H|done..]].
  eapply silent_named; [apply read_print; vm_compute; reflexivity|done].
Qed.

Lemma send_silent f b : silent f.1 -> br_asked (send from_str f b) = br_asked b.
Proof. intros Hf. unfold send. cbn [set_sent br_asked]. fold (asked_ids f.1). rewrite Hf. apply app_nil_r. Qed.
Lemma co_send rest f b : core_ok rest b -> core_ok rest (send from_str f b).
Proof. intros H. apply (co_same rest b); [done|done|apply H]. Qed.

Lemma initialize_id_known rest b : core_ok rest b -> is_Some (initialize_req (br_tracker b)) -> initialize_id from_str b = Some x0.
Proof.
  intros H [raw Er]. destruct (au_init _ _ _ _ (co_aux _ _ H) raw Er) as (v & Ev & Ei & _). unfold initialize_id. rewrite Er. cbn [mbind option_bind].
  rewrite Ev. exact Ei.
Qed.

Lemma opened_answers rest ok order r b b' : core_ok rest b -> br_reader b = Gone -> recon_ok r -> docs_ok (open_documents (br_tracker b)) ->
  opened_session from_str to_string ok order r b = Some b' -> answers_ok rest b'.
Proof.
  intros H Hg Hr Hd. unfold opened_session. destruct (is_order _ _) eqn:Ho; [|done]. cbv zeta. intros [= <-].
  set (r' := MkReconnect _ _ _ order). set (b1 := set_sent [] [] b). assert (H1 : core_ok rest b1) by (apply (co_same rest b); [done|done|apply H]).
  assert (Hi : init_ok r' (br_pending b1)).
  { intros id. cbn [r' rc_init]. destruct (List.find _ _) as [p|] eqn:Ef; [|done]. intros [= <-]. apply find_some in Ef as [Hin%list_elem_of_In Em%bool_decide_eq_true].
    pose proof (co_pending _ _ H) as Hp. rewrite Forall_forall in Hp. destruct (Hp p Hin) as [_ Hx]. split; [by apply Hx|]. exists p. by split_and!; [|apply Hx|]. }
  destruct (initialize_req (br_tracker b)) as [req|] eqn:Er; [|by apply greeted_answers].
  destruct (initialize_id from_str b1) as [id|]; [|by apply ao_phase]. destruct ok; [|by apply ao_phase].
  destruct (au_init _ _ _ _ (co_aux _ _ H) req Er) as (v & Ev & Ei & Em).
  apply ao_phase; [by apply co_send|]. split_and!; try done. intros x. cbn [set_phase send set_sent br_asked b1 app fst].
  fold (asked_ids req). by rewrite (request_asked req v x0 (B "initialize") Ev) by (by apply request_of_some).
Qed.

(** An answer that the server may give: to what it was asked. *)
Lemma answers_asked_some json b b1 : answers_asked from_str json b = Some b1 ->
  (response_of from_str json = None /\ b1 = b)
  \/ (exists id i, response_of from_str json = Some id /\ br_asked b !! i = Some id /\ b1 = set_sent (br_sent b) (delete i (br_asked b)) b).
Proof.
  unfold answers_asked. destruct (response_of from_str json) as [id|]; [|intros [= <-]; by left].
  destruct (list_find _ _) as [[i y]|] eqn:Ef; [|done]. intros [= <-]. right. apply list_find_Some in Ef as (Hi & -> & _). by exists id, i.
Qed.

Lemma server_greeting_answers rest r ids reply json b b1 : answers_ok rest b -> br_phase b = Greeting r ids reply ->
  answers_asked from_str json b = Some b1 -> docs_ok (open_documents (br_tracker b)) -> is_order (rc_docs r) (open_documents (br_tracker b)) = true ->
  answers_ok rest (server_greeting from_str to_string r ids reply json b1).
Proof.
  intros [H Hp] Eph Has Hd Ho. rewrite Eph in Hp. destruct Hp as (P1 & P2 & P3 & P4 & P5 & P6).
  assert (H1 : core_ok rest b1) by (apply answers_asked_some in Has as [[_ ->]|(id & i & _ & _ & ->)]; [done|apply (co_same rest b); [done|done|apply H]]).
  pose proof (initialize_id_known rest b H P5) as Hid.
  apply answers_asked_some in Has as [[Hn ->]|(id & i & Hs & Hi & ->)].
  - assert (Hf : forall ids', answers_ok rest (set_phase (Greeting r ids' reply) (write [json] b))).
    { intros ids'. apply ao_phase; [|by split_and!]. apply co_write; [done|]. intros x. rewrite answers_one. unfold BridgeReplies.answered_ids. by rewrite Hn. }
    unfold server_greeting. cbv zeta. unfold response_of in Hn. destruct (from_str json) as [value|]; [|apply Hf]. cbn [mbind option_bind] in Hn.
    rewrite Hid. destruct (bool_decide_reflect (get value (B "method") = None)) as [Em|Em].
    + rewrite Hn, bool_decide_eq_false_2, Em by done. apply Hf.
    + rewrite andb_false_r. destruct (get value (B "method")); [|done]. destruct (get value (B "id")); apply Hf.
  - assert (reply = None /\ id = x0) as [-> ->].
    { specialize (P6 id). pose proof (cnt_delete id _ _ _ Hi) as Hc. rewrite bool_decide_eq_true_2 in Hc by done. destruct reply; [lia|].
      split; [done|]. rewrite cnt_cons, cnt_nil in P6. destruct (bool_decide_reflect (x0 = id)); [done|lia]. }
    set (b1 := set_sent _ _ b) in *. assert (Ha : br_asked b1 = []).
    { apply cnt_zero. intros x. cbn [b1 set_sent br_asked]. specialize (P6 x). rewrite (cnt_delete x _ _ _ Hi), cnt_cons, cnt_nil in P6. lia. }
    assert (Hreply : reply_ok (Some json)) by (by intros j [= <-]).
    assert (Ht : answers_ok rest (try_again r b1)) by (by apply ao_phase).
    unfold server_greeting. cbv zeta. unfold response_of in Hs. destruct (from_str json) as [value|]; [|done]. cbn [mbind option_bind] in Hs.
    case_bool_decide as Em; [|done]. change (initialize_id from_str b1) with (initialize_id from_str b).
    rewrite Hid, Hs, bool_decide_eq_true_2 by done. cbn [andb]. destruct (get value (B "error")); [done|]. destruct (get value (B "result")) as [[]|]; try done.
    destruct (update_server_capabilities _ _ _) as [e|]; [|apply reconnect_failed_answers; [done|done|done|vm_compute; reflexivity]].
    assert (H2 : core_ok rest (set_encoding e b1)) by (apply (co_same rest b1); [done|done|apply H1]).
    destruct ids as [|y ids]; [by apply greeted_answers|]. apply ao_phase; [done|]. split_and!; try done. intros x. change (br_asked (set_phase _ _)) with (br_asked b1). by rewrite Ha.
Qed.

Lemma editor_greeting_answers rest ok r ids reply f b : answers_ok (f :: rest) b -> frame_ok f = true -> br_phase b = Greeting r ids reply ->
  docs_ok (open_documents (br_tracker b)) -> is_order (rc_docs r) (open_documents (br_tracker b)) = true ->
  answers_ok rest (editor_greeting from_str to_string ok r ids reply f (note_read f b)).
Proof.
  intros Hb Hf Eph Hd Ho. assert (Hrec : reconnecting (br_phase b) = Some r) by (by rewrite Eph).
  pose proof (queue_frame_answers rest r f b Hb Hf Hrec) as Hq. destruct Hb as [H Hp]. rewrite Eph in Hp. destruct Hp as (P1 & P2 & P3 & P4 & P5 & P6).
  unfold editor_greeting. cbv zeta. destruct (from_str f) as [v|] eqn:Ev; cbn [mbind option_bind]; [|done].
  destruct (bool_decide_reflect (get_str v (B "method") = Some (B "exit"))) as [Ex|Ex].
  { apply editor_exit_answers; [|done|done]. apply co_read; [done|]. eapply method_silent; [done|done|exact Ex|by_decide]. }
  destruct (bool_decide_reflect (get_str v (B "method") = Some (B "shutdown"))) as [Em|Em].
  { destruct (get v (B "id")) as [id|] eqn:Ei.
    - assert (Er : request_of v = Some (id, B "shutdown")) by (by apply request_of_some). destruct (request_fits from_str to_string f v id _ Ev Er) as [Hid _].
      apply (shutdown_answers rest b _ id [f]); try done; [apply H..|]. intros x. by rewrite asks_one, (request_asked f v id _ Ev Er).
    - case_bool_decide; done. }
  case_bool_decide as En; [|done]. destruct (get v (B "id")) as [id|] eqn:Ei; cbn [mbind option_bind]; [|done].
  destruct (list_find _ ids) as [[i y]|]; [|done].
  assert (Hs : silent f) by (unfold silent, BridgeReplies.asked_ids; rewrite Ev; cbn [mbind option_bind]; unfold request_of, get_str; by rewrite Ei, En).
  assert (H1 : core_ok rest (note_read f b)) by (by apply co_read). destruct ok; [|by apply ao_phase].
  set (b1 := send from_str _ (note_read f b)). assert (Ha : br_asked b1 = br_asked b) by (by apply (send_silent (f, br_encoding b) (note_read f b))).
  assert (H2 : core_ok rest b1) by (by apply co_send).
  assert (Hg : answers_ok rest (set_phase (Greeting r (delete i ids) reply) b1)).
  { apply ao_phase; [done|]. split_and!; try done. intros x. change (br_asked (set_phase _ b1)) with (br_asked b1). rewrite Ha. apply P6. }
  destruct (delete i ids); [|done]. destruct reply; [|done]. apply greeted_answers; try done. rewrite Ha. apply cnt_zero. intros x. specialize (P6 x). lia.
Qed.

(** ** The reader *)

(** Where the reader is at work only requests under way are looked at. *)
Lemma phase_live p b b' : phase_answers p b -> (forall code why, p <> Ended code why) -> br_reader b <> Gone ->
  (forall unsent, live unsent b -> live unsent b') -> phase_answers p b'.
Proof. intros Hp He Hg Hl. destruct p; cbn [phase_answers] in *; naive_solver. Qed.

Lemma server_message_core rest json b b1 : core_ok rest b -> br_reader b = Reading -> live [] b -> answers_asked from_str json b = Some b1 ->
  core_ok rest (server_message from_str json b1) /\ forall unsent, live unsent b -> live unsent (server_message from_str json b1).
Proof.
  intros H Hg Hl Ha. assert (Hgone : br_reader b <> Gone) by congruence. specialize (Hl Hgone).
  assert (Henc : exists e, server_message from_str json b1
    = set_reader (Delivering json) (match response_of from_str json with Some id => set_pending (retain_not id (br_pending b1)) (set_encoding e b1) | None => set_encoding e b1 end)).
  { unfold server_message, response_of. destruct (from_str json) as [v|]; [|exists (br_encoding b1); by destruct b1]. cbn [mbind option_bind].
    destruct (bool_decide (pointer v _ = None)).
    - exists (br_encoding b1). destruct (get v (B "id")), (get v (B "method")); by destruct b1.
    - eexists. destruct (get v (B "id")), (get v (B "method")); reflexivity. }
  destruct Henc as [e ->]. apply answers_asked_some in Ha as [[Hn ->]|(id & i & Hs & Hi & ->)].
  - rewrite Hn. split; [|intros u Hu _; by apply Hu]. destruct H as [H1 H2 H3 H4 [H5 H6 H7 H8]]. constructor; try done.
    + intros x. rewrite H1. unfold places. cbn [set_reader set_encoding br_out br_pending br_deferred br_reader br_lost]. rewrite Hg. cbn [delivering].
      rewrite answers_one. unfold BridgeReplies.answered_ids. rewrite Hn. done.
    + constructor; try done. intros why redirect Hc. destruct (H8 why redirect Hc). congruence.
  - rewrite Hs. assert (Hone : cnt id (pending_ids (br_pending b)) = 1%nat).
    { pose proof (co_pending_once _ _ id H). specialize (Hl id). rewrite (cnt_delete id _ _ _ Hi), bool_decide_eq_true_2 in Hl by done. lia. }
    pose proof (fun x => retain_not_count id (br_pending b) x Hone) as Hc. split.
    + destruct H as [H1 H2 H3 H4 [H5 H6 H7 H8]]. constructor; try done.
      * intros x. rewrite H1. unfold places. cbn [set_reader set_pending set_encoding set_sent br_out br_pending br_deferred br_reader br_lost]. rewrite Hg. cbn [delivering].
        rewrite answers_one. unfold BridgeReplies.answered_ids. rewrite Hs, (Hc x). change (option_list (Some id)) with [id]. rewrite answers_nil. lia.
      * by apply Forall_filtered.
      * constructor; try done. intros why redirect E. destruct (H8 why redirect E). congruence.
    + intros unsent Hu _ x. specialize (Hu Hgone x). cbn [set_reader set_pending set_encoding set_sent br_asked br_pending].
      rewrite (cnt_delete x _ _ _ Hi), (Hc x), cnt_cons, cnt_nil in Hu. lia.
Qed.

Lemma phase_live_weak p b : phase_answers p b -> (forall code why, p <> Ended code why) -> br_reader b <> Gone -> live [] b.
Proof.
  intros Hp He Hg _ x. rewrite asks_nil. assert (exists unsent, live unsent b) as [u Hu] by (destruct p; cbn [phase_answers] in Hp; naive_solver).
  specialize (Hu Hg x). lia.
Qed.

Lemma server_message_phase json b : br_phase (server_message from_str json b) = br_phase b.
Proof. unfold server_message. destruct (from_str json) as [v|]; [|done]. by destruct (bool_decide _), (get v (B "id")), (get v (B "method")). Qed.
Lemma answers_asked_phase json b b1 : answers_asked from_str json b = Some b1 -> br_phase b1 = br_phase b.
Proof. by intros [[_ ->]|(id & i & _ & _ & ->)]%answers_asked_some. Qed.

Lemma deliver_answers rest json b : answers_ok rest b -> br_reader b = Delivering json -> (forall code why, br_phase b <> Ended code why) ->
  answers_ok rest (set_reader Reading (write [json] b)).
Proof.
  intros [H Hp] Hr He. split.
  - destruct H as [H1 H2 H3 H4 [H5 H6 H7 H8]]. constructor; try done.
    + intros x. rewrite H1. unfold places. cbn [set_reader write br_out br_pending br_deferred br_reader br_lost]. rewrite Hr. cbn [delivering].
      rewrite answers_app, answers_nil. lia.
    + constructor; try done. intros why redirect Hc. destruct (H8 why redirect Hc). congruence.
  - eapply (phase_live _ b); [exact Hp|done|congruence|]. intros unsent Hu _. apply Hu. congruence.
Qed.

Lemma server_closed_answers rest why redirect b : answers_ok rest b -> br_reader b = Reading -> utf8_valid why = true ->
  answers_ok rest (set_closed (Some (why, redirect)) (set_reader Gone b)).
Proof.
  intros [H Hp] Hr Hw. split.
  - destruct H as [H1 H2 H3 H4 [H5 H6 H7 H8]]. constructor; try done.
    + intros x. rewrite H1. unfold places. cbn [set_closed set_reader br_out br_pending br_deferred br_reader br_lost]. by rewrite Hr.
    + constructor; try done. by intros w rd [= <- <-].
  - assert (Hl : forall unsent, live unsent (set_closed (Some (why, redirect)) (set_reader Gone b))) by (by intros u []).
    cbn [set_closed set_reader br_phase]. destruct (br_phase b) as [| | | | | | | | | |code []]; cbn [phase_answers] in *; try done; naive_solver congruence.
Qed.

(** ** Sending *)

Lemma live_weaken unsent b b' : live unsent b -> br_reader b' = br_reader b -> br_asked b' = br_asked b -> br_pending b' = br_pending b -> live [] b'.
Proof. intros Hl E1 E2 E3 Hg x. rewrite E2, E3, asks_nil. rewrite E1 in Hg. specialize (Hl Hg x). lia. Qed.

Lemma synced_answers rest now ok err f b : answers_ok rest b -> br_phase b = Syncing f -> utf8_valid err = true ->
  answers_ok rest (synced from_str to_string now ok err f b).
Proof.
  intros [H Hp] Ep He. rewrite Ep in Hp. destruct Hp as [Hf Hl]. unfold synced. set (b1 := if negb ok && _ then _ else b).
  assert (H1 : core_ok rest b1).
  { unfold b1. destruct (_ && _); [|done]. apply co_write; [done|]. intros x. by rewrite answers_one, (warning_answers from_str to_string). }
  assert (Hl1 : live [f.1] b1) by (unfold b1; by destruct (_ && _)).
  clearbody b1. clear H Hl Ep. pose proof (co_aux _ _ H1) as [A1 A2 A3 A4].
  assert (Hg : forall g p, Forall silent (held g) -> phase_answers p (set_phase p (set_gate g b1)) -> answers_ok rest (set_phase p (set_gate g b1))).
  { intros g p Hgate Hp. apply ao_phase; [|done]. apply (co_same rest b1); [done|done|]. by constructor. }
  unfold after_sync. destruct ok.
  - rewrite last_snoc, removelast_last. destruct (held (br_gate b1)) as [|h l] eqn:Eh; apply Hg; done.
  - destruct (is_save from_str f.1) eqn:Es; cbn [last removelast]; [|by apply Hg]. apply Hg; [|by eapply live_weaken].
    cbn [held]. apply Forall_app. split; [destruct (_ =? _); [by apply Forall_drop|done]|]. constructor; [|constructor].
    apply saves_silent; [done|]. unfold saves_or_watches. by rewrite Es.
Qed.

Lemma live_sent f b : live [f.1] b -> live [] (send from_str f b).
Proof.
  intros Hl Hg x. specialize (Hl Hg x). unfold send. cbn [set_sent br_asked br_pending]. fold (asked_ids f.1). rewrite cnt_app, asks_nil. rewrite asks_one in Hl. lia.
Qed.
Lemma live_silent unsent f b : silent f.1 -> live unsent b -> live unsent (send from_str f b).
Proof. intros Hs Hl Hg x. rewrite send_silent by done. by apply Hl. Qed.

Lemma main_sent_answers rest ok err order f b b' : answers_ok rest b -> br_phase b = Sending f -> utf8_valid err = true ->
  docs_ok (open_documents (br_tracker b)) -> main_sent from_str to_string reconnect ok err order f b = Some b' -> answers_ok rest b'.
Proof.
  intros [H Hp] Ep He Hd. rewrite Ep in Hp. destruct Hp as [Hf Hl]. unfold main_sent. destruct ok.
  - pose proof (live_sent f b Hl) as Hl1. assert (H1 : core_ok rest (send from_str f b)) by (by apply co_send). destruct (_ && _).
    + destruct (is_order _ _) eqn:Ho; [|done]. intros [= <-].
      pose proof (replay_silent _ _ (au_config _ _ _ _ (co_aux _ _ H)) Hd Ho) as Hs.
      change (br_tracker (send from_str f b)) with (br_tracker b). destruct (replay_lsp_workspace_state _ _ _) as [|m l]; [|by apply ao_phase].
      split; [apply (co_same rest (send from_str f b)); [done|done|apply H1]|exact Hl1].
    + intros [= <-]. by apply ao_phase.
  - intros [= <-]. destruct (expected b) as [p|] eqn:E.
    + apply expected_ended in E as [code ->]. apply ao_phase; [by apply co_abort|done].
    + apply connection_lost_answers; [done|by apply (utf8_valid_app (B "broke the connection: "))|done|]. by intros g [= <-].
Qed.

Lemma sent_answers rest ok err order b b' : answers_ok rest b -> utf8_valid err = true -> docs_ok (open_documents (br_tracker b)) ->
  sent from_str to_string reconnect ok err order b = Some b' -> answers_ok rest b'.
Proof.
  intros Hb He Hd. unfold sent. pose proof Hb as [H Hp]. assert (Hs : forall f, core_ok rest (send from_str f b)) by (intros; by apply co_send).
  destruct (br_phase b) as [|f|l f|f|l|r|r ids reply|r l reply|f| |code why] eqn:Ep; try done.
  - destruct l as [|h l]; [done|]. destruct Hp as (P1 & P2 & P3). inversion_clear P2 as [|?? Hh Hl]. intros [= <-].
    destruct ok; [|by apply ao_phase]. apply ao_phase; [done|]. assert (Hlive : live [f.1] (send from_str (h, br_encoding b) b)) by (by apply live_silent).
    by destruct l.
  - by apply main_sent_answers.
  - destruct l as [|m l]; [done|]. destruct Hp as (P1 & P2). inversion_clear P1 as [|?? Hm Hl]. intros [= <-]. destruct ok; [|by apply ao_phase].
    assert (Hlive : live [] (send from_str (m, br_encoding b) b)) by (by apply live_silent).
    destruct l as [|m' l]; [|by apply ao_phase]. split; [apply (co_same rest (send from_str (m, br_encoding b) b)); [done|done|apply H]|exact Hlive].
  - destruct l as [|m l]; [done|]. destruct Hp as (P1 & P2 & P3 & P4 & P5 & P6). inversion_clear P5 as [|?? Hm Hl]. intros [= <-]. destruct ok; [|by apply ao_phase].
    assert (Ha : br_asked (send from_str (m, br_encoding b) b) = []) by (by rewrite send_silent).
    destruct l as [|m' l]; [by apply restored_answers|by apply ao_phase].
  - destruct Hp as [P1 P2]. intros [= <-]. destruct ok; [|by apply ao_phase]. apply ao_phase; [done|]. by apply (live_silent [] (f, br_encoding b)).
Qed.

(** ** Every step *)

(** Errors are text, and the editor's messages are those of a well-behaved editor. *)
Definition event_ok (e : Event) : bool :=
  match e with
  | EditorFrame _ _ f => frame_ok f
  | EditorError err | Synced _ _ err | Sent _ err _ | Tick _ err | GiveUp err => utf8_valid err
  | ServerClosed why _ => utf8_valid why
  | _ => true
  end.
Definition frame_of (e : Event) : list bytes := match e with EditorFrame _ _ f => [f] | _ => [] end.

Lemma editor_frame_answers rest now ok f b b' : mirror_ok from_str b -> answers_ok (f :: rest) b -> frame_ok f = true ->
  editor_frame from_str to_string now ok f b = Some b' -> answers_ok rest b'.
Proof.
  intros Hm Hb Hf. pose proof (mo_phase _ b Hm) as Hph. pose proof (mo_docs _ b Hm) as Hd. pose proof Hb as [H Hp]. unfold editor_frame.
  destruct (br_phase b) as [|g|l g|g|l|r|r ids reply|r l reply|g| |code why] eqn:Ep; try done.
  - case_bool_decide as E; [|done]. intros [= <-]. apply (take_answers rest now f b _ [f]); try done; apply H.
  - intros [= <-]. apply while_reconnecting_answers; [done|done|by left].
  - intros [= <-]. apply editor_greeting_answers; [done|done|done|done|apply Hph].
  - intros [= <-]. apply while_reconnecting_answers; [done|done|right; by exists l, reply].
  - intros [= <-]. assert (Hc : core_ok rest b).
    { destruct H as [H1 H2 H3 H4 H5]. constructor; try done. intros x. specialize (H2 x). rewrite asks_cons in H2. lia. }
    destruct (bool_decide _); [by apply ao_phase|]. split; [done|by rewrite Ep].
Qed.

Lemma step_answers rest e b b' : mirror_ok from_str b -> answers_ok (frame_of e ++ rest) b -> event_ok e = true -> step e b = Some b' -> answers_ok rest b'.
Proof.
  intros Hm Hb He. pose proof (mo_phase _ b Hm) as Hph. pose proof (mo_docs _ b Hm) as Hd. pose proof Hb as [H Hp].
  destruct e; cbn [Bridge.step frame_of app event_ok] in *.
  - by apply editor_frame_answers.
  - unfold take_deferred. destruct (br_phase b) eqn:Ep; try done. destruct (br_deferred b) as [|f l] eqn:Ed; [done|]. intros [= <-].
    pose proof (co_deferred _ _ H) as Hdef. rewrite Ed in Hdef. inversion_clear Hdef as [|?? Hf Hl].
    apply (take_answers rest now f b _ []); try done; [by rewrite app_nil_r|apply H|]. intros x. cbn [set_deferred br_deferred]. rewrite Ed, (asks_cons _ x f l). counts.
  - unfold editor_closed. destruct (br_phase b); try done; try destruct (bool_decide _); intros [= <-]; try (by apply ao_phase);
      (apply reconnect_failed_answers; [done|apply Hp|apply Hp|vm_compute; reflexivity]).
  - unfold editor_error. destruct (br_phase b); try done; try destruct (bool_decide _); intros [= <-]; try (by apply ao_phase);
      (apply reconnect_failed_answers; [done|apply Hp|apply Hp|by apply (utf8_valid_app (B "reading editor message during reconnect: "))]).
  - destruct (br_phase b) eqn:Ep; try done. intros [= <-]. by apply synced_answers.
  - by apply sent_answers.
  - destruct (br_phase b) eqn:Ep; try done. destruct (_ && _) eqn:Ew; [|done]. intros [= <-]. apply andb_true_iff in Ew as [_ Ew]. unfold tick. cbv zeta.
    assert (Hshow : utf8_valid (B "did not respond to watchdog ping within " ++ show watchdog_secs ++ B "s") = true).
    { apply utf8_between; [vm_compute; reflexivity| |vm_compute; reflexivity]. apply utf8_valid_ascii, graphic_ascii, digits_graphic, show_digits. lia. }
    destruct (br_ping b); [by apply connection_lost_answers|].
    assert (H1 : core_ok rest (set_ping true b)) by (apply (co_same rest b); [done|done|apply H]).
    destruct ok; [split; [done|cbn; by rewrite Ep]|].
    apply connection_lost_answers; [done|by apply (utf8_valid_app (B "broke the connection during watchdog ping: "))|done|done].
  - intros (b1 & Ha & Hb1)%bind_Some. destruct (br_phase b) eqn:Ep; try done; try (destruct (br_reader b) eqn:Er; try done);
      try (injection Hb1 as <-; by eapply server_greeting_answers; [done|done|done|done|apply Hph]);
      injection Hb1 as <-;
      (destruct (server_message_core rest json b b1) as [Hc Hl]; [done|done|eapply phase_live_weak; [exact Hp|done|congruence]|done|]);
      (split; [done|]); eapply (phase_live _ b); try exact Hl; try congruence; rewrite server_message_phase, (answers_asked_phase _ _ _ Ha), Ep; done.
  - destruct (br_phase b) eqn:Ep; try done; destruct (br_reader b) as [|j|] eqn:Er; try done; intros [= <-]; apply deliver_answers; try done; by rewrite Ep.
  - destruct (br_reader b) eqn:Er; try done. intros [= <-]. split; [apply (co_same rest b); [done|done|apply H]|exact Hp].
  - destruct (br_phase b) eqn:Ep; destruct (br_reader b) eqn:Er; try done; intros [= <-]; (by apply server_closed_answers) || (by apply ao_phase; [|split; [apply Hp|apply Hp]]).
  - destruct (br_phase b) eqn:Ep; try done. destruct (br_closed b) as [[why redirect]|] eqn:Ec; [|done]. destruct (bool_decide _); [|done]. intros [= <-].
    destruct (au_closed _ _ _ _ (co_aux _ _ H) why redirect Ec) as [Hg Hw]. apply session_closed_answers; [|done|done].
    apply (co_same rest b); [done|done|]. destruct (co_aux _ _ H) as [A1 A2 A3 A4]. by constructor.
  - destruct (br_phase b) eqn:Ep; try done; intros [= <-]; [done|]. apply ao_phase; [done|]. split; apply Hp.
  - destruct (br_phase b) eqn:Ep; try done. destruct Hp as [P1 P2]. by apply opened_answers.
  - destruct (br_phase b) eqn:Ep; try done. intros [= <-]. apply reconnect_failed_answers; [done|apply Hp|apply Hp|done].
  - destruct (br_phase b) eqn:Ep; try done; intros [= <-]; by apply ao_phase.
Qed.

Lemma run_answers events b b' : mirror_ok from_str b -> answers_ok (events ≫= frame_of) b -> Forall (fun e => event_ok e = true) events ->
  run from_str to_string reconnect watchdog_secs events b = Some b' -> answers_ok [] b'.
Proof.
  revert b. induction events as [|e events IH]; intros b Hm Hb He; cbn [Bridge.run]; [by intros [= <-]|].
  inversion_clear He as [|?? He1 He2]. intros (b1 & Hs & Hr)%bind_Some. apply (IH b1); [by eapply mo_step|by eapply step_answers|done|done].
Qed.

Lemma new_answers rest : (forall x, asks x rest <= 1)%nat -> answers_ok rest new_bridge.
Proof. intros H. split; [|intros _ x; done]. by constructor. Qed.
End answers.

Section claim.
Context (from_str : bytes -> option Value) (to_string : Value -> bytes) (reconnect : bool) (watchdog_secs : Z).
Context `{!SerdeJson from_str to_string}.

End claim.

(** ** Runs *)

Module Runs.
Import Demo.
Definition request (id : Z) (method : bytes) : bytes := print_tree (Object ((B "id", int id) :: message method (Object []))).
Definition response (id : Z) : bytes := print_tree (Object [(B "id", int id); (B "jsonrpc", String (B "2.0")); (B "result", Null)]).
Definition save : bytes := print_tree (Object (message (B "textDocument/didSave") (Object [(B "first", Bool true)]))).
Definition save_again : bytes := print_tree (Object (message (B "textDocument/didSave") (Object []))).
Definition bridge (events : list Event) : option Bridge := run read_tree print_tree true 30 events new_bridge.

Definition start : list Event := take initialize ++ [ServerMessage capabilities; Deliver] ++ take initialized.
Definition reopen : list Event := [Opened true []; ServerMessage capabilities; Sent true [] []].

(** A request under way when the connection is closed, another sent while there is none, and
    then no way to connect. *)
Definition given_up : list Event :=
  start ++ take (request 2 (B "textDocument/hover")) ++ [ServerClosed (B "gateway restarts") false; SessionClosed;
    EditorFrame 0 true (request 3 (B "workspace/symbol"))] ++ reopen
  ++ [TakeDeferred 0; Sent true [] []; Tick false (B "broken pipe"); GiveUp (B "timed out")].

(** The answer to a request is on its way when the watchdog finds the connection broken. *)
Definition cut_short : list Event :=
  start ++ take (request 2 (B "textDocument/hover")) ++ [ServerMessage (response 2); Tick false (B "broken pipe")] ++ reopen.

(** A save waits for its file; the next sync works, and then the connection is broken. *)
Definition save_waits : list Event :=
  start ++ [EditorFrame 0 true save; Synced 0 false (B "node unreachable"); EditorFrame 0 true save_again; Synced 0 true [];
    Sent false (B "broken pipe") []; Sent false (B "broken pipe") []] ++ reopen ++ [Sent true [] []].
End Runs.


(** A request is neither answered nor under way nor queued: the reader takes it from the
    requests under way before it has written the answer, and is stopped in between. *)
Theorem answer_cut_short : exists b, Runs.bridge Runs.cut_short = Some b /\ br_phase b = Looping /\ br_pending b = [] /\ br_deferred b = []
  /\ asks read_tree (int 2) (br_read b) = 1%nat /\ answers read_tree (int 2) (br_out b) = 0%nat.
Proof.
  set (ok b := match br_phase b with Looping => true | _ => false end && bool_decide (br_pending b = []) && bool_decide (br_deferred b = [])
               && (asks read_tree (int 2) (br_read b) =? 1)%nat && (answers read_tree (int 2) (br_out b) =? 0)%nat).
  assert (Hok : (ok <$> Runs.bridge Runs.cut_short) = Some true) by (vm_compute; reflexivity).
  destruct (Runs.bridge Runs.cut_short) as [b|]; [|done]. injection Hok as Hok. exists b. unfold ok in Hok.
  rewrite !andb_true_iff, !bool_decide_eq_true, !Nat.eqb_eq in Hok. destruct (br_phase b); naive_solver.
Qed.

(** A save that waited is lost: it is taken from the gate before it is sent. *)
Theorem waiting_save_lost : exists b, Runs.bridge Runs.save_waits = Some b /\ br_phase b = Looping /\ held (br_gate b) = []
  /\ Runs.save ∈ br_read b /\ Runs.save ∉ map fst (br_sent b) /\ Runs.save_again ∈ map fst (br_sent b).
Proof.
  set (ok b := match br_phase b with Looping => true | _ => false end && bool_decide (held (br_gate b) = []) && bool_decide (Runs.save ∈ br_read b)
               && bool_decide (Runs.save ∉ map fst (br_sent b)) && bool_decide (Runs.save_again ∈ map fst (br_sent b))).
  assert (Hok : (ok <$> Runs.bridge Runs.save_waits) = Some true) by (vm_compute; reflexivity).
  destruct (Runs.bridge Runs.save_waits) as [b|]; [|done]. injection Hok as Hok. exists b. unfold ok in Hok.
  rewrite !andb_true_iff, !bool_decide_eq_true in Hok. destruct (br_phase b); naive_solver.
Qed.
